(* ===== verification/_CoqProject ===== *)
-Q . S2P
Prelude.v
PyFloat.v
PyRound.v
PyDict.v
PyVal.v
Json.v
VideoSampling.v
Tracking.v
TrackingInv.v
TrackingTheorems.v
FrameProcessing.v
FrameTheorems.v
PipelineRun.v
PipelineDriver.v
PipelineTheorems.v
RFDetrTheorems.v
CountingTheorems.v
Sha256.v
LocalStorage.v
JsonTheorems.v
ControlTypes.v
LocalQueue.v
LocalQueueTheorems.v
LocalQueueContract.v
WorkerEvents.v
WorkerEventsTheorems.v
WorkerEventsDrain.v
FabricLock.v
ControlClaim.v
ControlProcess.v
ControlEnvelope.v
ControlAdmin.v
ControlReconcile.v
ControlInv.v
ControlSafety.v
ControlSpec.v
ControlFiles.v
ControlTotal.v
ControlScenario.v
ControlFindings.v
ControlTheorems.v
PyNum.v
CpuRuntime.v
ProcessEnvelope.v
ProcessEnvelopeTheorems.v
ProcessPlan.v
ProcessPlanTheorems.v
ProcessRecords.v
ProcessRecordsTheorems.v
ProcessValidate.v
ProcessExecutor.v
ProcessRun.v
ProcessScenario.v
ProcessValidateTheorems.v
ProcessExecutorFacts.v
ProcessRunSafety.v
ProcessExecutorTheorems.v
ProcessDirectTheorems.v
ProcessRunTheorems.v
LocalSpark.v
LocalSparkTheorems.v
LocalControl.v
LocalControlTheorems.v
LocalSubmitTheorems.v
LocalActor.v
LocalActorTheorems.v
GoldTime.v
GoldFacts.v
GoldStore.v
GoldSource.v
GoldDims.v
GoldJob.v
GoldBuild.v
GoldConverge.v
GoldLate.v
GoldTheorems.v
