(* ===== verification/Prelude.v ===== *)
(** * People Counter: a verification library

    People Counter (src/src/people_counter) counts the people that cross a line in
    videos.  Videos are registered as works in a control store; a claim leases a batch
    of works to a process, which runs a counting pipeline over each video on an
    executor, stages the records, seals them in the store and commits them, so that
    each work is published once.  A queue, a worker inbox and a lock coordinate the
    deployments that run beside the store.  This library models those parts as
    executable functions on explicit states and proves what makes them correct.

    ** Conventions

    A Python call that may raise is a [result]: [Ok] or [Err] with the class of the
    exception ([exn]); messages are not modelled.  A call with effects is a [tx]: it
    takes a state and returns a result with the state afterwards, also when it
    raises; [transaction] restores the database of a call that raised.  Integers are
    [Z], as Python's are unbounded; floats are IEEE binary64 ([PyFloat]); texts are
    strings of code points 0 to 255; values whose type the program checks itself are
    [pyval].  A name of the source is kept, with its leading underscore.

    ** Files

    - [Prelude] (this file): exceptions, [result], [tx], their inversion lemmas and
      tactics, and the lemmas on lists and maps that the components share.
      [PyFloat], [PyRound], [PyDict], [PyVal], [PyNum], [Json], [JsonTheorems],
      [Sha256]: what the program uses of Python: floats and
      their order, true division and rounding, dicts in insertion order, dynamic
      values, canonical JSON and its reader, hashlib.sha256, and a logic for calls
      that fail only with documented exceptions.
    - Counting.  [VideoSampling]: config.py, video.py, output.py.  [Tracking]: the
      association of detections with identities of pipelines/rtdetr_osnet.py.
      [FrameProcessing]: suppression, detections of a frame and the line counts of
      line_counting.py.  [PipelineRun]: the run of a video by either pipeline.
      [TrackingInv], [TrackingTheorems], [FrameTheorems], [PipelineDriver],
      [PipelineTheorems], [RFDetrTheorems] carry an invariant through associations,
      frames, batches and runs; [CountingTheorems] and the second part of
      [VideoSampling] state the guarantees.
    - Control store, sjd_control.py.  [ControlTypes] has the argument checks, rows
      and table constraints; [ControlClaim] admission, registration and claims; [ControlProcess] heartbeats, sealing and commit; [ControlEnvelope]
      reading envelopes; [ControlAdmin] recovery, replay and quarantine;
      [ControlReconcile] the findings.  [ControlInv] and [ControlSafety] prove the
      table invariant, [ControlSpec] is the abstract machine that every call
      refines, [ControlFiles] and [ControlTotal] treat the files,
      the calls that must succeed and committed batches; [ControlScenario] is a
      concrete history; [ControlFindings] and [ControlTheorems] state the results.
    - Process job, sjd_process.py, fabric_executor_partition.py, cpu_runtime.py and
      parts of api.py, fabric_executor_production.py and
      fabric_release_provenance.py.  [ProcessEnvelope] verifies the envelope of a
      claim, [ProcessPlan] plans it, [ProcessExecutor] runs the rows of a bucket
      (with [CpuRuntime] for native threads), [ProcessRecords] stages records and
      reads receipts, [ProcessValidate] validates the records of a batch,
      [ProcessRun] is the driver of one run.  Each has its theorems beside it
      ([ProcessEnvelopeTheorems], [ProcessPlanTheorems], [ProcessExecutorFacts],
      [ProcessExecutorTheorems], [ProcessDirectTheorems], [ProcessRecordsTheorems],
      [ProcessValidateTheorems], [ProcessRunSafety], [ProcessRunTheorems]); [ProcessScenario] is a concrete run.
    - The local deployment.  [LocalStorage]: local_storage.py.  [LocalQueue]: the
      SQLite queue of local_queue.py.  [LocalActor]: the thread that owns it, with
      its callers and closers, as a machine of single accesses.  [LocalSpark]:
      local_spark.py, the Spark application on a claimed batch.  [LocalControl]:
      local_control.py, one run from the queue to Spark and back.  [LocalSparkTheorems]
      reads the validated staging, [LocalControlTheorems] follows the token of one
      claim through the calls of everybody and, with [LocalSubmitTheorems], a run;
      [LocalActorTheorems] the schedules.
    - [WorkerEvents]: the worker inbox of fabric_events.py.
      [FabricLock]: the control lock of fabric_control.py as a step relation over
      any interleaving of writers, with its theorems.  The other theorems are in
      [LocalQueueTheorems], [LocalQueueContract], [WorkerEventsTheorems] and
      [WorkerEventsDrain].
    - The gold builder, sjd_gold.py.  [GoldTime]: instants and their texts.
      [GoldFacts]: the facts of one date.  [GoldStore]: the JSON tables, the
      checkpoints and the refresh outbox.  [GoldSource]: the committed outputs behind
      the control database.  [GoldDims]: operational tables, dimensions and their
      validation.  [GoldJob]: [LocalGoldJob], plans, builds and runs, while
      dispatchers keep changing the control database.  [GoldBuild] and [GoldConverge]
      carry an invariant through interrupted and repeated builds, [GoldLate] follows
      what a build leaves out; [GoldTheorems] states the results.

    ** What the theorems show

    Of the store: in every history each work is published at most once, every
    reachable store satisfies its invariant and refines the row machines, claims
    lease exactly a widest admissible prefix of the ready works, sealing records exactly
    the outputs it was given, a sealed batch commits within its lease, recovery
    completes, late calls change nothing.  Of a
    process: the envelope that a claim wrote verifies, its plan contains every item
    once and does not depend on their listing, the records of the direct harness
    validate, staged records are read back, and however runs of a batch are
    interleaved, killed and repeated, only validated and staged results are
    published.  Of a video: a run ends and releases the capture, persons are numbered
    consecutively and were seen in sampled frames, line counts are cumulative,
    suppression keeps the best boxes, exactly the planned frames are read.  Of the
    others: a lock excludes and its writers make progress, the inbox acknowledges once
    and replays after a crash, but one heartbeat with an endless lease can stop it, a
    queue delivers in order and a lost lock stays lost, stored content reads back; the
    queue's thread serves its callers one at a time under every schedule, and a local
    run completes a message only if Spark staged its record under the claimed lock.
    Of the gold builder: a build that advances its checkpoint leaves the flow and video
    facts as a full rebuild would, whatever was published and failed in between; flow
    facts sum their lines; only committed outputs with the published digest are read; a
    refresh is signalled and acknowledged once; and an attempt that is recovered long
    after its lease ran out stays missing from the operations facts of its day when
    nothing else on that day is recent.

    ** Fuel and bounds

    The JSON reader runs with the length of the text as fuel, and every step consumes
    a character; a video is read with more fuel than it has frames (a hypothesis of
    the capture, [VideoCapture]); suppression recurs on an order that shrinks with
    every kept box, with its length as fuel; [widest_prefix] searches with the number
    of rows as fuel; decimal digits with the binary length.  In each case a theorem
    states that the result is reached.

    ** Parameters

    Code outside the repository is a parameter: the numeric libraries and networks
    ([Numerics], [Argsort], [Vision], [LineZones], [RFDetr], [VideoCapture] with their
    laws, which state the documented shapes and ranges), the native thread settings
    ([NativeLibraries]), [fromisoformat] and the column casts of Spark, the clock,
    identifiers, the configuration and loading of a work's models in the executor,
    the version of the installed package, the executing harness, and what happens
    around a run (other processes, heartbeats, kills, answers of the queue's thread:
    [Surroundings]), and Spark with its Delta tables ([Spark]).  For the gold
    builder: [date.fromisoformat], the known time zones, the files and Delta records of
    the outputs, AUTOINCREMENT, the clock, and the control database as each connection
    finds it.

    ** Not modelled

    The Delta implementation of the control protocol and the Fabric catalog of the gold
    tables: they rewrite whole Delta tables through a Spark session, whose transaction
    log is outside the repository.  The Spark, OneLake and REST adapters, publication
    of manifests, deployment, cutover and benchmark tooling, notebooks and command
    lines: input and output of external services.  Of the modelled files: locks and
    directories of the operating system, messages of exceptions, and logging. *)
From stdpp Require Export base tactics option list gmap strings sorting.
From Stdlib Require Export ZArith Lia.

#[global] Set Default Goal Selector "!".
#[global] Set Warnings "-clear-no-such-hyp".

(** ** Exceptions *)

(** The exception classes that the modelled modules raise.  Messages are not
    modelled: a caller of this code only dispatches on the class. *)
Inductive exn :=
  | ValueError
  | TypeError
  | KeyError
  | OverflowError
  | RuntimeError
  | TimeoutError
  | IntegrityError            (* sqlite3.IntegrityError: a table constraint *)
  | ControlError
  | ImmutableConflictError
  | LeaseBudgetError
  | LeaseLostError
  | BatchValidationError
  | QueueConflictError
  | MessageNotFoundError
  | ControlLockError
  | StagingValidationError
  | Rejected                  (* fabric_events._Rejected *)
  | ImmutableContentConflictError
  | ContentHashMismatchError
  | FileNotFoundError
  | AttributeError
  | ActorClosedError
  | ActorDiedError
  | JSONDecodeError           (* a ValueError; handlers name it *)
  | ManifestValidationError
  | ProcessValidationError
  | LeaseAdmissionError
  | StagingConflictError
  | IndexError
  | ZeroDivisionError
  | RuntimeCompatibilityError (* a ValueError; handlers name it *)
  | FileExistsError
  | StopIteration
  | ReleaseProvenanceError
  | ThreadOversubscriptionError
  | GoldSourceError
  | GoldValidationError
  | OperationalError          (* sqlite3.OperationalError: no such table or column *)
  | InvalidStateError         (* concurrent.futures: the future is already resolved *)
  | Killed.                   (* no exception of Python: the process dies here *)

#[export] Instance exn_eq_dec : EqDecision exn.
Proof. solve_decision. Defined.

(** The outcome of a Python call: a value or an exception. *)
Inductive result (A : Type) :=
  | Ok (a : A)
  | Err (e : exn).
Arguments Ok {A} a.
Arguments Err {A} e.

#[export] Instance result_ret : MRet result := λ A, Ok.
#[export] Instance result_bind : MBind result := λ A B f m,
  match m with Ok a => f a | Err e => Err e end.

#[export] Instance result_fmap : FMap result := λ A B f m,
  match m with Ok a => Ok (f a) | Err e => Err e end.

(** [if not b: raise e]. *)
Definition require (b : bool) (e : exn) : result unit :=
  if b then Ok tt else Err e.

(** ** Stateful calls and transactions

    A stateful call maps a state to an outcome and the state it leaves, also
    when it raises. *)
Definition tx (S A : Type) : Type := S → result A * S.

#[export] Instance tx_ret {S} : MRet (tx S) := λ A a s, (Ok a, s).
#[export] Instance tx_bind {S} : MBind (tx S) := λ A B f m s,
  match m s with
  | (Ok a, s') => f a s'
  | (Err e, s') => (Err e, s')
  end.

#[export] Instance tx_fmap {S} : FMap (tx S) := λ A B f m s,
  match m s with
  | (Ok a, s') => (Ok (f a), s')
  | (Err e, s') => (Err e, s')
  end.

Definition tx_get {S} : tx S S := λ s, (Ok s, s).
Definition tx_modify {S} (f : S → S) : tx S unit := λ s, (Ok tt, f s).
Definition tx_lift {S A} (r : result A) : tx S A := λ s, (r, s).
Definition tx_raise {S A} (e : exn) : tx S A := tx_lift (Err e).
Definition tx_require {S} (b : bool) (e : exn) : tx S unit := tx_lift (require b e).

(** [for x in l: f x]. *)
Fixpoint tx_for {S A} (f : A → tx S unit) (l : list A) : tx S unit :=
  match l with
  | [] => mret tt
  | x :: l' => f x;; tx_for f l'
  end.

(** [[f x for x in l]] with an effectful [f]. *)
Fixpoint tx_map {S A B} (f : A → tx S B) (l : list A) : tx S (list B) :=
  match l with
  | [] => mret []
  | x :: l' => y ← f x; ys ← tx_map f l'; mret (y :: ys)
  end.

(** [BEGIN IMMEDIATE ... COMMIT]: an exception rolls the database part of the
    state back, which [restore old new] computes. *)
Definition transaction {S A} (restore : S → S → S) (m : tx S A) : tx S A := λ s,
  match m s with
  | (Ok a, s') => (Ok a, s')
  | (Err e, s') => (Err e, restore s s')
  end.

Section tx_lemmas.
Context {S : Type}.
Implicit Types s : S.

Lemma tx_bind_Ok {A B} (m : tx S A) (f : A → tx S B) s b s'' :
  (m ≫= f) s = (Ok b, s'') ↔
  ∃ a s', m s = (Ok a, s') ∧ f a s' = (Ok b, s'').
Proof.
  unfold mbind, tx_bind. destruct (m s) as [[a|e] s']; naive_solver.
Qed.

Lemma tx_fmap_Ok {A B} (f : A → B) (m : tx S A) s b s' :
  (f <$> m) s = (Ok b, s') ↔ ∃ a, m s = (Ok a, s') ∧ b = f a.
Proof. unfold fmap, tx_fmap. destruct (m s) as [[a|e] s1]; naive_solver. Qed.

Lemma tx_ret_Ok {A} (a a' : A) s s' :
  (mret a : tx S A) s = (Ok a', s') ↔ a' = a ∧ s' = s.
Proof. unfold mret, tx_ret. naive_solver. Qed.

Lemma tx_get_Ok s a s' : tx_get s = (Ok a, s') ↔ a = s ∧ s' = s.
Proof. unfold tx_get. naive_solver. Qed.

Lemma tx_modify_Ok (f : S → S) s u s' : tx_modify f s = (Ok u, s') ↔ s' = f s.
Proof. unfold tx_modify. destruct u. naive_solver. Qed.

Lemma require_Ok b e u : require b e = Ok u ↔ b = true.
Proof. unfold require. destruct b, u; naive_solver. Qed.

Lemma tx_lift_Ok {A} (r : result A) s a s' :
  tx_lift r s = (Ok a, s') ↔ r = Ok a ∧ s' = s.
Proof. unfold tx_lift. naive_solver. Qed.

Lemma tx_require_Ok b e s u s' :
  tx_require b e s = (Ok u, s') ↔ b = true ∧ s' = s.
Proof. unfold tx_require. by rewrite tx_lift_Ok, require_Ok. Qed.

Lemma tx_raise_Ok {A} e s (a : A) s' : tx_raise e s = (Ok a, s') ↔ False.
Proof. unfold tx_raise. rewrite tx_lift_Ok. naive_solver. Qed.

Lemma transaction_Ok {A} restore (m : tx S A) s a s' :
  transaction restore m s = (Ok a, s') → m s = (Ok a, s').
Proof. unfold transaction. destruct (m s) as [[]]; naive_solver. Qed.

(** A property that every iteration preserves holds after the loop. *)
Lemma tx_for_ind {A} (P : S → Prop) (f : A → tx S unit) (l : list A) s u s' :
  (∀ x s1 s2, x ∈ l → P s1 → f x s1 = (Ok tt, s2) → P s2) →
  P s → tx_for f l s = (Ok u, s') → P s'.
Proof.
  revert s. induction l as [|x l IH]; intros s Hstep HP; simpl.
  - by intros [_ ->]%tx_ret_Ok.
  - intros ([] & s1 & H1 & H2)%tx_bind_Ok.
    eapply IH; [|eapply Hstep; eauto; left|exact H2].
    intros y ???; apply Hstep. by right.
Qed.
(** The same with the processed prefix in the invariant. *)
Lemma tx_for_prefix {A} (P : list A → S → Prop) (f : A → tx S unit) (l : list A) s u s' :
  (∀ done x rest s1 s2, l = done ++ x :: rest → P done s1 →
     f x s1 = (Ok tt, s2) → P (done ++ [x]) s2) →
  P [] s → tx_for f l s = (Ok u, s') → P l s'.
Proof.
  assert (∀ done, (∀ d x rest s1 s2, done ++ l = d ++ x :: rest → P d s1 →
     f x s1 = (Ok tt, s2) → P (d ++ [x]) s2) →
    P done s → tx_for f l s = (Ok u, s') → P (done ++ l) s') as Hgen.
  { revert s. induction l as [|x l IH]; intros s done Hstep HP; simpl.
    - rewrite app_nil_r. by intros [_ ->]%tx_ret_Ok.
    - intros ([] & s1 & H1 & H2)%tx_bind_Ok. rewrite cons_middle, app_assoc in *.
      eapply IH; [|eapply Hstep; [|exact HP|exact H1]|exact H2]; [done|].
      by rewrite <-app_assoc. }
  intros. by apply (Hgen []).
Qed.

Lemma tx_map_prefix {A B} (P : list A → list B → S → Prop) (f : A → tx S B)
    (l : list A) s ys s' :
  (∀ done bs x rest s1 y s2, l = done ++ x :: rest → P done bs s1 →
     f x s1 = (Ok y, s2) → P (done ++ [x]) (bs ++ [y]) s2) →
  P [] [] s → tx_map f l s = (Ok ys, s') → P l ys s'.
Proof.
  assert (∀ done bs ys, (∀ d bs x rest s1 y s2, done ++ l = d ++ x :: rest → P d bs s1 →
     f x s1 = (Ok y, s2) → P (d ++ [x]) (bs ++ [y]) s2) →
    P done bs s → tx_map f l s = (Ok ys, s') → P (done ++ l) (bs ++ ys) s') as Hgen.
  { revert s. induction l as [|x l IH]; intros s done bs ys' Hstep HP; simpl.
    - intros [-> ->]%tx_ret_Ok. by rewrite !app_nil_r.
    - intros (y & s1 & H1 & H2)%tx_bind_Ok.
      apply tx_bind_Ok in H2 as (zs & s2 & H2 & [-> ->]%tx_ret_Ok).
      rewrite (cons_middle x), (cons_middle y), !app_assoc in *.
      eapply IH; [|eapply Hstep; [|exact HP|exact H1]|exact H2]; [done|].
      by rewrite <-app_assoc. }
  intros. by apply (Hgen [] []).
Qed.

(** Forward reasoning: a loop whose iterations all succeed succeeds. *)
Lemma tx_map_total {A B} (P : list A → list B → S → Prop) (f : A → tx S B) (l : list A) s :
  (∀ done bs x rest s1, l = done ++ x :: rest → P done bs s1 →
     ∃ y s2, f x s1 = (Ok y, s2) ∧ P (done ++ [x]) (bs ++ [y]) s2) →
  P [] [] s → ∃ ys s', tx_map f l s = (Ok ys, s') ∧ P l ys s'.
Proof.
  assert (∀ done bs, (∀ d bs x rest s1, done ++ l = d ++ x :: rest → P d bs s1 →
     ∃ y s2, f x s1 = (Ok y, s2) ∧ P (d ++ [x]) (bs ++ [y]) s2) →
    P done bs s → ∃ ys s', tx_map f l s = (Ok ys, s') ∧ P (done ++ l) (bs ++ ys) s') as Hgen.
  { revert s. induction l as [|x l IH]; intros s done bs Hstep HP; simpl.
    - exists [], s. by rewrite !app_nil_r.
    - destruct (Hstep done bs x l s eq_refl HP) as (y&s1&H1&P1).
      destruct (IH s1 (done ++ [x]) (bs ++ [y])) as (ys&s2&H2&P2); [|done|].
      { intros d bs' z rest s0 E. apply (Hstep d bs' z rest). by rewrite <-E, <-app_assoc. }
      rewrite <-!app_assoc in P2. exists (y :: ys), s2. split; [|done].
      unfold mbind, tx_bind. by rewrite H1, H2. }
  intros. by apply (Hgen [] []).
Qed.

Lemma tx_for_total {A} (P : list A → S → Prop) (f : A → tx S unit) (l : list A) s :
  (∀ done x rest s1, l = done ++ x :: rest → P done s1 →
     ∃ s2, f x s1 = (Ok tt, s2) ∧ P (done ++ [x]) s2) →
  P [] s → ∃ s', tx_for f l s = (Ok tt, s') ∧ P l s'.
Proof.
  assert (∀ done, (∀ d x rest s1, done ++ l = d ++ x :: rest → P d s1 →
     ∃ s2, f x s1 = (Ok tt, s2) ∧ P (d ++ [x]) s2) →
    P done s → ∃ s', tx_for f l s = (Ok tt, s') ∧ P (done ++ l) s') as Hgen.
  { revert s. induction l as [|x l IH]; intros s done Hstep HP; simpl.
    - exists s. by rewrite app_nil_r.
    - destruct (Hstep done x l s eq_refl HP) as (s1&H1&P1).
      destruct (IH s1 (done ++ [x])) as (s2&H2&P2); [|done|].
      { intros d z rest s0 E. apply (Hstep d z rest). by rewrite <-E, <-app_assoc. }
      rewrite <-!app_assoc in P2. exists s2. split; [|done].
      unfold mbind, tx_bind. by rewrite H1. }
  intros. by apply (Hgen []).
Qed.
End tx_lemmas.

(** Running a call whose parts are known. *)
Lemma tx_bind_run {S A B} (m : tx S A) (f : A → tx S B) s a s' r :
  m s = (Ok a, s') → f a s' = r → (m ≫= f) s = r.
Proof. intros H <-. unfold mbind, tx_bind. by rewrite H. Qed.

Lemma tx_bind_raise {S A B} (m : tx S A) (f : A → tx S B) s e s' :
  m s = (Err e, s') → (m ≫= f) s = (Err e, s').
Proof. intros H. unfold mbind, tx_bind. by rewrite H. Qed.

Lemma tx_require_raise {S} b e (s : S) : b = false → tx_require b e s = (Err e, s).
Proof. by intros ->. Qed.

Lemma result_bind_Ok {A B} (m : result A) (f : A → result B) b :
  m ≫= f = Ok b ↔ ∃ a, m = Ok a ∧ f a = Ok b.
Proof. destruct m; simpl; naive_solver. Qed.

Lemma result_fmap_Ok {A B} (f : A → B) (m : result A) b :
  f <$> m = Ok b ↔ ∃ a, m = Ok a ∧ b = f a.
Proof. destruct m; simpl; naive_solver. Qed.

(** Invert a successful run into its steps. *)
Ltac tx_step H :=
  lazymatch type of H with
  | (_ ≫= _) _ = (Ok _, _) =>
      let Hs := fresh "Hs" in
      apply tx_bind_Ok in H; destruct H as (? & ? & Hs & H); tx_step Hs; tx_step H
  | (_ <$> _) _ = (Ok _, _) =>
      let Hs := fresh "Hs" in
      apply tx_fmap_Ok in H; destruct H as (? & Hs & H); tx_step Hs
  | mret _ _ = (Ok _, _) => apply tx_ret_Ok in H; destruct H as [? ?]
  | tx_get _ = (Ok _, _) => apply tx_get_Ok in H; destruct H as [? ?]
  | tx_modify _ _ = (Ok _, _) => apply tx_modify_Ok in H
  | tx_require _ _ _ = (Ok _, _) =>
      apply tx_require_Ok in H; destruct H as [H ?]
  | tx_raise _ _ = (Ok _, _) => apply tx_raise_Ok in H; destruct H
  | tx_lift _ _ = (Ok _, _) => apply tx_lift_Ok in H; destruct H as [H ?]
  | transaction _ _ _ = (Ok _, _) => apply transaction_Ok in H; tx_step H
  | _ => idtac
  end.
Ltac tx_inv H :=
  tx_step H; repeat match goal with u : unit |- _ => destruct u end;
  simplify_eq.

(** Split on the test of a conditional call. *)
Ltac if_inv H :=
  cbv beta zeta in H; match type of H with (if ?b then _ else _) _ = _ => destruct b eqn:? end.

(** The same for calls without state. *)
Ltac res_inv H :=
  lazymatch type of H with
  | _ ≫= _ = Ok _ =>
      let Hs := fresh "Hs" in
      apply result_bind_Ok in H; destruct H as (? & Hs & H); res_inv Hs; res_inv H
  | _ <$> _ = Ok _ =>
      let Hs := fresh "Hs" in
      apply result_fmap_Ok in H; destruct H as (? & Hs & H); res_inv Hs
  | require _ _ = Ok _ => apply require_Ok in H
  | Ok _ = Ok _ => injection H as H
  | Err _ = Ok _ => discriminate H
  | _ => idtac
  end.

(** ** Selections *)

Lemma elem_of_sfilter {A} (f : A → bool) (l : list A) x :
  x ∈ List.filter f l ↔ x ∈ l ∧ f x = true.
Proof. by rewrite !list_elem_of_In, filter_In. Qed.

(** SELECT ... WHERE f over a table keyed by its primary key. *)
Lemma elem_of_select {A} (f : string * A → bool) (m : gmap string A) x :
  x ∈ List.filter f (map_to_list m) ↔ m !! x.1 = Some x.2 ∧ f x = true.
Proof.
  rewrite elem_of_sfilter. destruct x as [k a]. simpl. by rewrite elem_of_map_to_list.
Qed.

Lemma NoDup_sfilter {A} (f : A → bool) (l : list A) : NoDup l → NoDup (List.filter f l).
Proof. rewrite !NoDup_ListNoDup. apply List.NoDup_filter. Qed.

Lemma NoDup_select_keys {A} (f : string * A → bool) (m : gmap string A) :
  NoDup (List.filter f (map_to_list m)).*1.
Proof.
  pose proof (NoDup_fst_map_to_list m) as H. induction (map_to_list m) as [|x l IH]; simpl.
  - constructor.
  - inversion_clear H as [|? ? Hx Hl]. destruct (f x); simpl; [|by apply IH].
    constructor; [|by apply IH]. intros (y&E&Hy)%list_elem_of_fmap.
    apply elem_of_sfilter in Hy as [Hy _]. apply Hx, list_elem_of_fmap. eauto.
Qed.

Lemma Forall2_impl_in {A B} (P R : A → B → Prop) l k :
  Forall2 P l k → (∀ x y, x ∈ l → P x y → R x y) → Forall2 R l k.
Proof.
  induction 1 as [|x y l k Hp _ IH]; intros H; constructor.
  - apply H; [by left|done].
  - apply IH. intros. apply H; [by right|done].
Qed.

Lemma NoDup_fmap_eq {A B} (f : A → B) l x y :
  NoDup (f <$> l) → x ∈ l → y ∈ l → f x = f y → x = y.
Proof.
  induction l as [|z l IH]; simpl; [set_solver|].
  intros [Hz Hl]%NoDup_cons Hx Hy E.
  apply elem_of_cons in Hx as [->|Hx]; apply elem_of_cons in Hy as [->|Hy]; [done| | |by apply IH].
  - destruct Hz. rewrite E. apply list_elem_of_fmap. eauto.
  - destruct Hz. rewrite <-E. apply list_elem_of_fmap. eauto.
Qed.

(** Sorted lists whose order is only transitive on the elements with [P]. *)
Lemma Sorted_StronglySorted_on {A} (P : A → Prop) (R : relation A) l :
  (∀ x y z, P x → P y → P z → R x y → R y z → R x z) →
  Forall P l → Sorted R l → StronglySorted R l.
Proof.
  intros HR HP H. induction H as [|x l H IH Hd]; [constructor|].
  inversion_clear HP as [|? ? Px Pl]. specialize (IH Pl). constructor; [done|].
  inversion Hd as [|y l' Hxy]; subst; [constructor|].
  inversion_clear Pl as [|? ? Py Pl']. inversion_clear IH as [|? ? _ Hy].
  constructor; [done|]. rewrite Forall_forall in *. intros z Hz. apply (HR x y z); auto.
Qed.

(** A test that every row of a table passes. *)
Lemma forallb_rows {A} (f : string * A → bool) (m : gmap string A) k x :
  forallb f (map_to_list m) = true → m !! k = Some x → f (k, x) = true.
Proof.
  rewrite forallb_forall. intros H Hx. apply H. by apply list_elem_of_In, elem_of_map_to_list.
Qed.

(** Split a conjunction of boolean tests that is known to be true. *)
Ltac btrue :=
  repeat match goal with
  | H : (_ && _)%bool = true |- _ => apply andb_true_iff in H; destruct H
  | H : negb _ = true |- _ => apply negb_true_iff in H
  | H : bool_decide _ = true |- _ => apply bool_decide_eq_true in H
  | H : bool_decide _ = false |- _ => apply bool_decide_eq_false in H
  | H : Z.leb _ _ = true |- _ => apply Z.leb_le in H
  | H : Z.leb _ _ = false |- _ => apply Z.leb_gt in H
  | H : Z.ltb _ _ = true |- _ => apply Z.ltb_lt in H
  | H : Z.ltb _ _ = false |- _ => apply Z.ltb_ge in H
  | H : Z.eqb _ _ = true |- _ => apply Z.eqb_eq in H
  | H : Z.eqb _ _ = false |- _ => apply Z.eqb_neq in H
  end.

Lemma elem_of_concat {A} (x : A) ls : x ∈ concat ls ↔ ∃ l, l ∈ ls ∧ x ∈ l.
Proof. rewrite list_elem_of_In, in_concat. by setoid_rewrite <-list_elem_of_In. Qed.

Lemma imap_const_id {A} (l : list A) : imap (λ _ x, x) l = l.
Proof. induction l as [|x l IH]; [done|]. rewrite imap_cons. f_equal. exact IH. Qed.

Lemma list_filter_all {A} (p : A → bool) (l : list A) :
  (∀ x, x ∈ l → p x = true) → List.filter p l = l.
Proof.
  induction l as [|x l IH]; intros H; [done|]. simpl. rewrite (H x) by left. f_equal.
  apply IH. intros y Hy. apply H. by right.
Qed.

Lemma list_filter_none {A} (p : A → bool) (l : list A) :
  (∀ x, x ∈ l → p x = false) → List.filter p l = [].
Proof.
  induction l as [|x l IH]; intros H; [done|]. simpl. rewrite (H x) by left.
  apply IH. intros y Hy. apply H. by right.
Qed.

Lemma NoDup_fst_sfilter {A B} (p : A * B → bool) (l : list (A * B)) :
  NoDup l.*1 → NoDup (List.filter p l).*1.
Proof.
  induction l as [|x l IH]; [done|]. csimpl. intros [Hx Hn]%NoDup_cons. destruct (p x); [|by apply IH].
  csimpl. apply NoDup_cons. split; [|by apply IH].
  intros (y&E&[Hy _]%elem_of_sfilter)%list_elem_of_fmap. apply Hx. rewrite E. by apply list_elem_of_fmap_2.
Qed.
