(* ===== verification/PyFloat.v ===== *)
(** * Python floats: IEEE 754 binary64

    Clock readings, lease lengths and durations are Python floats.  They are
    modelled exactly, by the executable IEEE 754 semantics of the standard
    library's [SpecFloat] with 53 bits of precision, so rounding, infinities
    and NaN behave as they do in the program.  The file proves the facts on the
    order that the components share. *)
From Stdlib Require Import SpecFloat.
From S2P Require Export Prelude.

Abbreviation Float := spec_float.

Definition prec : Z := 53.
Definition emax : Z := 1024.

Definition fadd : Float → Float → Float := SFadd prec emax.
Definition fsub : Float → Float → Float := SFsub prec emax.
Definition fmul : Float → Float → Float := SFmul prec emax.
Definition fdiv : Float → Float → Float := SFdiv prec emax.
Definition fopp : Float → Float := SFopp.
Definition fleb : Float → Float → bool := SFleb.
Definition fltb : Float → Float → bool := SFltb.
Definition feqb : Float → Float → bool := SFeqb.

(** [math.isnan], [math.isfinite]. *)
Definition fisnan (x : Float) : bool :=
  match x with S754_nan => true | _ => false end.
Definition fisfinite (x : Float) : bool :=
  match x with S754_nan | S754_infinity _ => false | _ => true end.

(** [float(z)] for an int, round to nearest even; an int beyond the range
    raises OverflowError. *)
Definition float_of_Z (z : Z) : Float := binary_normalize prec emax z 0 false.
Definition py_float_of_int (z : Z) : result Float :=
  let x := float_of_Z z in
  if fisfinite x then Ok x else Err OverflowError.

(** The literal [n / d], both exactly representable: one correct rounding. *)
Definition flit (n d : Z) : Float := fdiv (float_of_Z n) (float_of_Z d).

Definition fzero : Float := float_of_Z 0.

(** [max(a, b)] and [min(a, b)]: the first argument wins ties. *)
Definition py_fmax (a b : Float) : Float := if fltb a b then b else a.
Definition py_fmin (a b : Float) : Float := if fltb b a then b else a.

#[export] Instance float_eq_dec : EqDecision Float.
Proof. solve_decision. Defined.

(** ** The order on floats that are not NaN *)

(** Each float is mapped to three integers compared lexicographically: its
    class, its exponent and its mantissa. *)
Definition fkey (x : Float) : Z * Z * Z :=
  match x with
  | S754_infinity true => (-2, 0, 0)
  | S754_finite true m e => (-1, -e, -Z.pos m)
  | S754_zero _ | S754_nan => (0, 0, 0)
  | S754_finite false m e => (1, e, Z.pos m)
  | S754_infinity false => (2, 0, 0)
  end%Z.

Definition fkey_lt (a b : Z * Z * Z) : Prop :=
  (a.1.1 < b.1.1 ∨ (a.1.1 = b.1.1 ∧
    (a.1.2 < b.1.2 ∨ (a.1.2 = b.1.2 ∧ a.2 < b.2))))%Z.

Lemma SFcompare_spec x y :
  fisnan x = false → fisnan y = false →
  match SFcompare x y with
  | Some Lt => fkey_lt (fkey x) (fkey y)
  | Some Eq => fkey x = fkey y
  | Some Gt => fkey_lt (fkey y) (fkey x)
  | None => False
  end.
Proof.
  intros Hx Hy. unfold fkey_lt.
  destruct x as [[]|[]| |[] mx ex], y as [[]|[]| |[] my ey]; try done; simpl;
    try lia;
    destruct (Z.compare_spec ex ey); simpl; subst; try lia;
    change (PosDef.Pos.compare_cont Eq mx my) with (Pos.compare mx my);
    destruct (Pos.compare_spec mx my); simpl; subst; try lia; done.
Qed.

Lemma fleb_spec x y :
  fisnan x = false → fisnan y = false →
  fleb x y = true ↔ ¬ fkey_lt (fkey y) (fkey x).
Proof.
  intros Hx Hy. pose proof (SFcompare_spec x y Hx Hy) as H.
  unfold fleb, SFleb. unfold fkey_lt in *.
  destruct (SFcompare x y) as [[]|]; [rewrite H| | |done];
    split; intros; try done; lia.
Qed.

Lemma fltb_spec x y :
  fisnan x = false → fisnan y = false →
  fltb x y = true ↔ fkey_lt (fkey x) (fkey y).
Proof.
  intros Hx Hy. pose proof (SFcompare_spec x y Hx Hy) as H.
  unfold fltb, SFltb. unfold fkey_lt in *.
  destruct (SFcompare x y) as [[]|]; [rewrite H| | |done];
    split; intros; try done; lia.
Qed.

Lemma feqb_spec x y :
  fisnan x = false → fisnan y = false → feqb x y = true ↔ fkey x = fkey y.
Proof.
  intros Hx Hy. pose proof (SFcompare_spec x y Hx Hy) as H.
  unfold feqb, SFeqb. unfold fkey_lt in *.
  destruct (SFcompare x y) as [[]|]; [done| | |done]; (split; [done|]);
    intros E; rewrite E in H; lia.
Qed.

Lemma feqb_nan x y : fisnan x = true ∨ fisnan y = true → feqb x y = false.
Proof. intros [H|H]; [by destruct x|]. by destruct y, x as [[]|[]| |[]]. Qed.

Lemma feqb_sym x y : feqb x y = feqb y x.
Proof.
  destruct (fisnan x) eqn:Hx; [by rewrite !feqb_nan by auto|].
  destruct (fisnan y) eqn:Hy; [by rewrite !feqb_nan by auto|].
  apply eq_true_iff_eq. rewrite !feqb_spec by done. done.
Qed.

Lemma fleb_not_nan x y : fleb x y = true → fisnan x = false ∧ fisnan y = false.
Proof. by destruct x as [[]|[]| |[] ? ?], y as [[]|[]| |[] ? ?]. Qed.

Lemma fltb_not_nan x y : fltb x y = true → fisnan x = false ∧ fisnan y = false.
Proof. by destruct x as [[]|[]| |[] ? ?], y as [[]|[]| |[] ? ?]. Qed.

Lemma fisfinite_not_nan x : fisfinite x = true → fisnan x = false.
Proof. by destruct x. Qed.

Create HintDb pyfloat.
#[export] Hint Resolve fisfinite_not_nan : pyfloat.

Lemma fleb_refl x : fisnan x = false → fleb x x = true.
Proof. intros H. apply fleb_spec; auto. unfold fkey_lt. lia. Qed.

Lemma feqb_refl x : fisnan x = false → feqb x x = true.
Proof.
  intros H. pose proof (SFcompare_spec x x H H) as S. unfold feqb, SFeqb. unfold fkey_lt in S.
  destruct (SFcompare x x) as [[]|]; [done|lia..|done].
Qed.

Lemma fleb_trans x y z : fleb x y = true → fleb y z = true → fleb x z = true.
Proof.
  intros H1 H2. destruct (fleb_not_nan _ _ H1), (fleb_not_nan _ _ H2).
  rewrite fleb_spec in * by done. unfold fkey_lt in *. lia.
Qed.

Lemma fltb_trans x y z : fltb x y = true → fltb y z = true → fltb x z = true.
Proof.
  intros H1 H2. destruct (fltb_not_nan _ _ H1), (fltb_not_nan _ _ H2).
  rewrite fltb_spec in * by done. unfold fkey_lt in *. lia.
Qed.

Lemma fltb_fleb_trans x y z : fltb x y = true → fleb y z = true → fltb x z = true.
Proof.
  intros H1 H2. destruct (fltb_not_nan _ _ H1), (fleb_not_nan _ _ H2).
  rewrite fltb_spec, fleb_spec in * by done. unfold fkey_lt in *. lia.
Qed.

Lemma fleb_fltb_trans x y z : fleb x y = true → fltb y z = true → fltb x z = true.
Proof.
  intros H1 H2. destruct (fleb_not_nan _ _ H1), (fltb_not_nan _ _ H2).
  rewrite fltb_spec, fleb_spec in * by done. unfold fkey_lt in *. lia.
Qed.

(** On floats that are not NaN the two strict and weak tests are complements. *)
Lemma fltb_negb_fleb x y :
  fisnan x = false → fisnan y = false → fltb x y = negb (fleb y x).
Proof.
  intros Hx Hy. apply eq_true_iff_eq.
  rewrite negb_true_iff, fltb_spec, <-not_true_iff_false, fleb_spec by done.
  unfold fkey_lt. lia.
Qed.

Lemma fltb_irrefl x : fltb x x = false.
Proof.
  destruct (fisnan x) eqn:E; [by destruct x|].
  rewrite fltb_negb_fleb, fleb_refl by done. done.
Qed.

Lemma fltb_fleb x y : fltb x y = true → fleb x y = true.
Proof.
  intros H. destruct (fltb_not_nan _ _ H).
  rewrite fltb_spec, fleb_spec in * by done. unfold fkey_lt in *. lia.
Qed.

Lemma fleb_total x y :
  fisnan x = false → fisnan y = false → fleb x y = true ∨ fleb y x = true.
Proof.
  intros Hx Hy. rewrite !fleb_spec by done. unfold fkey_lt. lia.
Qed.

(** A comparison that holds excludes its opposite, NaN or not. *)
Lemma fltb_not_fleb x y : fltb x y = true → fleb y x = false.
Proof.
  intros H. destruct (fltb_not_nan _ _ H) as [Hx Hy].
  rewrite fltb_negb_fleb in H by done. by apply negb_true_iff in H.
Qed.

Lemma fleb_not_fltb x y : fleb x y = true → fltb y x = false.
Proof.
  intros H. destruct (fleb_not_nan _ _ H) as [Hx Hy].
  by rewrite fltb_negb_fleb, H.
Qed.

(** Python's [max] bounds both arguments, when neither is NaN. *)
Lemma py_fmax_spec a b :
  fisnan a = false → fisnan b = false →
  fleb a (py_fmax a b) = true ∧ fleb b (py_fmax a b) = true.
Proof.
  intros Ha Hb. unfold py_fmax. destruct (fltb a b) eqn:E.
  - split; [by apply fltb_fleb|by apply fleb_refl].
  - split; [by apply fleb_refl|].
    rewrite fltb_negb_fleb in E by done. by apply negb_false_iff in E.
Qed.

Lemma py_fmax_case a b : py_fmax a b = a ∨ py_fmax a b = b.
Proof. unfold py_fmax. destruct (fltb a b); auto. Qed.

Example float_of_int_rounds :
  py_float_of_int (2 ^ 53 + 1) = Ok (S754_finite false (2 ^ 52) 1).
Proof. vm_compute. reflexivity. Qed.

Example flit_tenth : flit 1 10 = S754_finite false 7205759403792794 (-56).
Proof. vm_compute. reflexivity. Qed.

(** ** Rounding never makes a NaN *)

Lemma shr_1_nonneg r : (0 ≤ shr_m r)%Z → (0 ≤ shr_m (shr_1 r))%Z.
Proof. destruct r as [[|[]|[]] ? ?]; simpl; lia. Qed.

Lemma iter_shr_nonneg p r : (0 ≤ shr_m r)%Z → (0 ≤ shr_m (SpecFloat.iter_pos shr_1 p r))%Z.
Proof. revert r. induction p; simpl; auto using shr_1_nonneg. Qed.

Lemma shr_fexp_nonneg m e l : (0 ≤ m)%Z → (0 ≤ shr_m (shr_fexp prec emax m e l).1)%Z.
Proof.
  intros Hm. unfold shr_fexp, shr.
  assert (0 ≤ shr_m (shr_record_of_loc m l))%Z by by destruct l as [|[]].
  case_match; simpl; auto using iter_shr_nonneg.
Qed.

Lemma round_nearest_nonneg m l : (0 ≤ m)%Z → (0 ≤ round_nearest_even m l)%Z.
Proof. destruct l as [|[]]; simpl; try case_match; lia. Qed.

Lemma binary_round_aux_not_nan s m e l :
  (0 ≤ m)%Z → fisnan (binary_round_aux prec emax s m e l) = false.
Proof.
  intros Hm. unfold binary_round_aux.
  pose proof (shr_fexp_nonneg m e l Hm) as H1. destruct (shr_fexp prec emax m e l) as [r1 e1].
  pose proof (shr_fexp_nonneg _ e1 loc_Exact
    (round_nearest_nonneg _ (loc_of_shr_record r1) H1)) as H2.
  destruct (shr_fexp prec emax _ e1 loc_Exact) as [r2 e2]. simpl in *.
  destruct (shr_m r2) as [|p|p]; [done| |lia]. by case_match.
Qed.

Lemma binary_normalize_not_nan m e z : fisnan (binary_normalize prec emax m e z) = false.
Proof.
  unfold binary_normalize, binary_round. destruct m; [done| |];
    case_match; by apply binary_round_aux_not_nan.
Qed.

Lemma fadd_not_nan x y :
  fisnan x = false → fisfinite y = true → fisnan (fadd x y) = false.
Proof.
  destruct x as [[]|[]| |], y as [[]|[]| |]; try done; intros _ _; apply binary_normalize_not_nan.
Qed.

Lemma float_of_Z_not_nan z : fisnan (float_of_Z z) = false.
Proof. apply binary_normalize_not_nan. Qed.

Lemma fadd_zero_l x : fadd (float_of_Z 0) x = x ∨ ∃ s, x = S754_zero s.
Proof. destruct x as [s|s| |s m e]; [right; eauto|left..]; reflexivity. Qed.
