(* ===== verification/PyRound.v ===== *)
(** * Python floats and integers

    [int(x)], [math.ceil(x)], [round(x)] and the true division of two ints, exactly:
    a finite float is the fraction [float_ratio], and [a / b] is the correctly rounded
    quotient of the two integers, however large they are.  The second part shows when
    the detour through a float quotient is harmless. *)
From Stdlib Require Import SpecFloat.
From S2P Require Export Prelude PyFloat.

(** [x.as_integer_ratio()], not reduced. *)
Definition float_ratio (x : Float) : option (Z * Z) :=
  match x with
  | S754_zero _ => Some (0, 1)%Z
  | S754_finite s m e =>
      let m := if s then Zneg m else Zpos m in
      Some (if (0 <=? e)%Z then (m * 2 ^ e, 1)%Z else (m, 2 ^ (- e))%Z)
  | _ => None
  end.

Definition int_by (f : Z → Z → Z) (x : Float) : result Z :=
  match float_ratio x with
  | Some (n, d) => Ok (f n d)
  | None => Err (if fisnan x then ValueError else OverflowError)
  end.

(** [int(x)], [math.ceil(x)]. *)
Definition py_int : Float → result Z := int_by Z.quot.
Definition py_ceil : Float → result Z := int_by (λ n d, - ((- n) / d))%Z.

(** Round half to even. *)
Definition div_half_even (n d : Z) : Z :=
  let q := (n / d)%Z in
  match (2 * (n mod d) ?= d)%Z with
  | Lt => q
  | Gt => q + 1
  | Eq => if Z.even q then q else q + 1
  end%Z.
Definition py_round : Float → result Z := int_by div_half_even.

Definition spec_of_Z (z : Z) : Float :=
  match z with
  | Z0 => S754_zero false
  | Zpos m => S754_finite false m 0
  | Zneg m => S754_finite true m 0
  end.

(** [a / b] on ints. *)
Definition py_truediv (a b : Z) : result Float :=
  if (b =? 0)%Z then Err ZeroDivisionError else
  let q := fdiv (spec_of_Z a) (spec_of_Z b) in
  if fisfinite q then Ok q else Err OverflowError.

(** [x / y] on floats. *)
Definition py_fdiv (x y : Float) : result Float :=
  if feqb y fzero then Err ZeroDivisionError else Ok (fdiv x y).

Lemma int_by_Ok f x z : int_by f x = Ok z → ∃ n d, float_ratio x = Some (n, d) ∧ (0 < d)%Z ∧ z = f n d.
Proof.
  unfold int_by. destruct (float_ratio x) as [[n d]|] eqn:E; [|done]. intros [= <-].
  exists n, d. split; [done|]. split; [|done].
  destruct x as [|s| |s m e]; simplify_eq/=; [lia|].
  destruct (Z.leb_spec 0 e); simplify_eq; lia.
Qed.

(** Rounding to an integer is monotone and exact on integers. *)
Lemma div_half_even_bounds n d : (0 < d)%Z → (2 * n - d ≤ 2 * d * div_half_even n d ≤ 2 * n + d)%Z.
Proof.
  intros Hd. unfold div_half_even. pose proof (Z.div_mod n d ltac:(lia)) as E.
  pose proof (Z.mod_pos_bound n d Hd). destruct (Z.compare_spec (2 * (n mod d)) d); [|nia..].
  destruct (Z.even (n / d)); nia.
Qed.

Lemma div_half_even_ge n d k : (0 < d)%Z → (k * d ≤ n)%Z → (k ≤ div_half_even n d)%Z.
Proof.
  intros Hd Hk. assert (k ≤ n / d)%Z by (apply Z.div_le_lower_bound; lia).
  unfold div_half_even. repeat case_match; lia.
Qed.

Example round_half_even : py_round (flit 5 2) = Ok 2%Z ∧ py_round (flit 7 2) = Ok 4%Z ∧
  py_round (flit (-5) 2) = Ok (-2)%Z ∧ py_ceil (flit 5 2) = Ok 3%Z ∧ py_int (flit (-5) 2) = Ok (-2)%Z.
Proof. vm_compute. done. Qed.

(** ** True division of integers, then rounding up

    [math.ceil(a / b)] goes through a float quotient.  Below 2^53 the detour is
    harmless: the result is the exact ceiling. *)
Local Open Scope Z_scope.

(** ** Digits *)

Lemma digits2_size p : digits2_pos p = Pos.size p.
Proof. induction p; simpl; congruence. Qed.

Lemma digits2_bounds p : 2 ^ (Zdigits2 (Zpos p) - 1) ≤ Zpos p < 2 ^ Zdigits2 (Zpos p).
Proof.
  simpl. rewrite digits2_size.
  pose proof (Pos.size_gt p) as H1. pose proof (Pos.size_le p) as H2.
  assert (E : Zpos (2 ^ Pos.size p)%positive = 2 ^ Zpos (Pos.size p)) by apply Pos2Z.inj_pow.
  assert (2 * 2 ^ (Zpos (Pos.size p) - 1) = 2 ^ Zpos (Pos.size p)).
  { rewrite <-Z.pow_succ_r by lia. f_equal. lia. }
  split; [|lia]. assert (Zpos (2 ^ Pos.size p) ≤ Zpos p~0) by lia. lia.
Qed.

Lemma digits2_unique z k : 2 ^ (k - 1) ≤ z < 2 ^ k → 0 < k → Zdigits2 z = k.
Proof.
  intros [H1 H2] Hk. destruct z as [|p|p]; [|pose proof (digits2_bounds p) as [B1 B2]|].
  - pose proof (Z.pow_pos_nonneg 2 (k - 1)). lia.
  - assert (Zdigits2 (Zpos p) - 1 < k) by (apply (Z.pow_lt_mono_r_iff 2); [lia|simpl; lia|lia]).
    assert (k - 1 < Zdigits2 (Zpos p)) by (apply (Z.pow_lt_mono_r_iff 2); [lia|simpl; lia|lia]).
    lia.
  - pose proof (Z.pow_nonneg 2 (k - 1)). lia.
Qed.

(** ** One rounding step *)

(** Where [r / d] lies below one. *)
Definition location_of (d r : Z) : location :=
  if r =? 0 then loc_Exact else loc_Inexact (2 * r ?= d).

Lemma new_location_of d r : 0 ≤ r < d → new_location d r = location_of d r.
Proof.
  intros H. unfold new_location, new_location_even, new_location_odd, location_of.
  destruct (Z.even d) eqn:E; destruct (Z.eqb_spec r 0); try done. f_equal.
  rewrite <-Z.negb_odd, negb_false_iff, Z.odd_spec in E. destruct E as [h ->].
  destruct (Z.compare_spec (2 * r + 1) (2 * h + 1)), (Z.compare_spec (2 * r) (2 * h + 1)); try done; lia.
Qed.

Lemma round_location n d :
  0 < d → round_nearest_even (n / d) (location_of d (n mod d)) = div_half_even n d.
Proof.
  intros Hd. unfold location_of, div_half_even, round_nearest_even.
  destruct (Z.eqb_spec (n mod d) 0) as [->|]; [by rewrite Z.mul_0_r; destruct d|].
  by destruct (2 * (n mod d) ?= d).
Qed.

(** The dropped bit was one: at least half. *)
Lemma half_up d r (m m' : Z) :
  0 ≤ r < d → m' = 2 * m + 1 → 0 ≤ m →
  let mrs := shr_1 (shr_record_of_loc m' (location_of d r)) in
  round_nearest_even (shr_m mrs) (loc_of_shr_record mrs) =
    round_nearest_even m (location_of (2 * d) (r + d)).
Proof.
  intros Hr -> Hm mrs. unfold mrs, location_of. rewrite (proj2 (Z.eqb_neq (r + d) 0)) by lia.
  destruct (Z.eqb_spec r 0) as [E|E].
  - assert ((2 * (r + d) ?= 2 * d) = Eq) as -> by (apply Z.compare_eq_iff; lia).
    by destruct m as [|m|m].
  - assert ((2 * (r + d) ?= 2 * d) = Gt) as -> by (apply Z.compare_gt_iff; lia).
    by destruct (2 * r ?= d), m as [|m|m].
Qed.

(** Dropping the last bit of the quotient halves the fraction. *)
Lemma shift_location n d :
  0 < d → 0 < n / d →
  let mrs := shr_1 (shr_record_of_loc (n / d) (location_of d (n mod d))) in
  round_nearest_even (shr_m mrs) (loc_of_shr_record mrs) = div_half_even n (2 * d).
Proof.
  intros Hd Hq mrs. rewrite <-round_location by lia.
  pose proof (Z.div_mod n d ltac:(lia)) as E. pose proof (Z.mod_pos_bound n d Hd) as B.
  assert (Hdiv : n / (2 * d) = n / d / 2) by (rewrite Z.mul_comm, Z.div_div; lia).
  assert (Hmod : n mod (2 * d) = n mod d + d * ((n / d) mod 2)).
  { rewrite (Z.mul_comm 2). apply Z.rem_mul_r; lia. }
  rewrite Hdiv, Hmod. unfold mrs, location_of.
  destruct (n / d) as [|[p|p|]|] eqn:Eq; try lia.
  - assert (Zpos p~1 mod 2 = 1) as -> by (rewrite Zmod_odd; done).
    assert (Zpos p~1 / 2 = Zpos p) as -> by (symmetry; apply (Z.div_unique _ _ _ 1); lia).
    rewrite Z.mul_1_r. apply half_up; lia.
  - assert (Zpos p~0 mod 2 = 0) as -> by (rewrite Zmod_even; done).
    assert (Zpos p~0 / 2 = Zpos p) as -> by (symmetry; apply (Z.div_unique _ _ _ 0); lia).
    rewrite Z.mul_0_r, Z.add_0_r. destruct (Z.eqb_spec (n mod d) 0); [done|].
    assert ((2 * (n mod d) ?= 2 * d) = Lt) as -> by (apply Z.compare_lt_iff; lia).
    by destruct (2 * (n mod d) ?= d).
  - assert (1 mod 2 = 1) as -> by done. assert (1 / 2 = 0) as -> by done.
    rewrite Z.mul_1_r. apply half_up; lia.
Qed.

(** ** The quotient of two integers *)

Lemma shr_fexp_53 q e l :
  2 ^ 52 ≤ q < 2 ^ 53 → -1074 ≤ e → shr_fexp prec emax q e l = (shr_record_of_loc q l, e).
Proof.
  intros Hq He. unfold shr_fexp. rewrite (digits2_unique q 53) by (simpl; lia).
  unfold fexp, emin, prec, emax. rewrite Z.max_l by lia.
  by replace (53 + e - 53 - e) with 0 by lia.
Qed.

Lemma shr_fexp_54 q e l :
  2 ^ 53 ≤ q < 2 ^ 54 → -1075 ≤ e →
  shr_fexp prec emax q e l = (shr_1 (shr_record_of_loc q l), e + 1).
Proof.
  intros Hq He. unfold shr_fexp. rewrite (digits2_unique q 54) by (simpl; lia).
  unfold fexp, emin, prec, emax. rewrite Z.max_l by lia.
  by replace (54 + e - 53 - e) with 1 by lia.
Qed.

(** The fraction of a positive float. *)
Definition is_fraction (x : Float) (a b : Z) : Prop :=
  ∃ n d, float_ratio x = Some (n, d) ∧ 0 < d ∧ n * b = a * d.

Lemma finite_fraction m e : is_fraction (S754_finite false m e) (Zpos m * 2 ^ (Z.max 0 e)) (2 ^ (Z.max 0 (- e))).
Proof.
  unfold is_fraction. cbn [float_ratio]. destruct (Z.leb_spec 0 e).
  - eexists _, _. split; [done|]. split; [lia|].
    rewrite (Z.max_r 0 e), (Z.max_l 0 (- e)) by lia. change (2 ^ 0) with 1. lia.
  - eexists _, _. split; [done|]. split; [lia|].
    rewrite (Z.max_l 0 e), (Z.max_r 0 (- e)) by lia. change (2 ^ 0) with 1. lia.
Qed.

(** The last step of [binary_round_aux]: a carry into the next power of two. *)
Lemma carry_fraction M k :
  2 ^ 52 ≤ M ≤ 2 ^ 53 → 0 ≤ k ≤ 1074 →
  ∃ x, (let '(mrs, e) := shr_fexp prec emax M (- k) loc_Exact in
        match shr_m mrs with
        | Z0 => S754_zero false
        | Zpos m => if e <=? emax - prec then S754_finite false m e else S754_infinity false
        | Zneg _ => S754_nan
        end) = x ∧ fisfinite x = true ∧ is_fraction x M (2 ^ k).
Proof.
  intros HM Hk. eexists. split; [reflexivity|].
  destruct (Z.eq_dec M (2 ^ 53)) as [->|Hne].
  - rewrite shr_fexp_54 by lia. cbn [shr_m].
    change (shr_m (shr_1 (shr_record_of_loc (2 ^ 53) loc_Exact))) with (Zpos 4503599627370496).
    cbv iota. assert ((- k + 1 <=? emax - prec) = true) as -> by (unfold emax, prec; lia).
    split; [done|]. destruct (finite_fraction 4503599627370496 (- k + 1)) as (n&d&E&Hd&Ef).
    exists n, d. split; [done|]. split; [done|]. change (2 ^ 53) with (4503599627370496 * 2).
    destruct (Z.eq_dec k 0) as [->|].
    + change (Z.max 0 (-0 + 1)) with 1 in Ef. change (Z.max 0 (- (-0 + 1))) with 0 in Ef.
      change (2 ^ 0) with 1 in *. change (2 ^ 1) with 2 in Ef. lia.
    + rewrite (Z.max_l 0 (- k + 1)), (Z.max_r 0 (- (- k + 1))) in Ef by lia. change (2 ^ 0) with 1 in Ef.
      assert (2 ^ k = 2 * 2 ^ (- (- k + 1))) as ->; [|lia].
      rewrite <-Z.pow_succ_r by lia. f_equal. lia.
  - rewrite shr_fexp_53 by lia. cbn [shr_m shr_record_of_loc].
    destruct M as [|m|m]; [lia| |lia]. assert ((- k <=? emax - prec) = true) as -> by (unfold emax, prec; lia).
    split; [done|]. destruct (finite_fraction m (- k)) as (n&d&E&Hd&Ef).
    exists n, d. split; [done|]. split; [done|].
    rewrite (Z.max_l 0 (- k)), (Z.max_r 0 (- - k)) in Ef by lia. change (2 ^ 0) with 1 in Ef.
    rewrite Z.opp_involutive in Ef. lia.
Qed.

Lemma div_half_even_double n d : 0 < d → div_half_even (2 * n) (2 * d) = div_half_even n d.
Proof.
  intros Hd. unfold div_half_even. rewrite Z.div_mul_cancel_l, Z.mul_mod_distr_l by lia.
  replace (2 * (2 * (n mod d)) ?= 2 * d) with (2 * (n mod d) ?= d); [done|].
  destruct (Z.compare_spec (2 * (n mod d)) d); symmetry;
    [apply Z.compare_eq_iff|apply Z.compare_lt_iff|apply Z.compare_gt_iff]; lia.
Qed.

Lemma digits2_le p k : 0 ≤ k → Zpos p < 2 ^ k → Zdigits2 (Zpos p) ≤ k.
Proof.
  intros Hk Hp. destruct (digits2_bounds p) as [H _].
  assert (Zdigits2 (Zpos p) - 1 < k); [|lia].
  apply (Z.pow_lt_mono_r_iff 2); [lia|lia|]. by eapply Z.le_lt_trans.
Qed.

(** The scaled numerator has a 53- or 54-bit quotient. *)
Lemma quotient_bits (n d D1 D2 : Z) :
  0 < D1 → 0 < D2 → D1 ≤ 53 → 2 ^ (D1 - 1) ≤ n < 2 ^ D1 → 2 ^ (D2 - 1) ≤ d < 2 ^ D2 →
  2 ^ 52 * d ≤ n * 2 ^ (53 + D2 - D1) < 2 ^ 54 * d.
Proof.
  intros H1 H2 H3 Bn Bd. set (s := 53 + D2 - D1).
  assert (Hn' : 2 ^ 52 * 2 ^ D2 ≤ n * 2 ^ s < 2 ^ 54 * 2 ^ (D2 - 1)).
  { rewrite <-!Z.pow_add_r by lia. replace (52 + D2) with (D1 - 1 + s) by lia.
    replace (54 + (D2 - 1)) with (D1 + s) by lia.
    rewrite !Z.pow_add_r by lia. pose proof (Z.pow_pos_nonneg 2 s ltac:(lia) ltac:(lia)).
    split; [apply Z.mul_le_mono_nonneg_r|apply Z.mul_lt_mono_pos_r]; lia. }
  lia.
Qed.

Lemma div_core (n d : positive) s :
  s = 53 + Zdigits2 (Zpos d) - Zdigits2 (Zpos n) → 1 ≤ s ≤ 1052 →
  SFdiv_core_binary prec emax (Zpos n) 0 (Zpos d) 0 =
    (Zpos n * 2 ^ s / Zpos d, - s, location_of (Zpos d) ((Zpos n * 2 ^ s) mod Zpos d)).
Proof.
  intros Es Hs. unfold SFdiv_core_binary, fexp, emin, prec, emax.
  set (D1 := Zdigits2 (Zpos n)) in *. set (D2 := Zdigits2 (Zpos d)) in *.
  replace (Z.min _ _) with (- s) by lia. replace (0 - 0 - - s) with s by lia.
  destruct s as [|s|s]; [lia| |lia]. rewrite Z.shiftl_mul_pow2 by lia.
  set (n' := Zpos n * 2 ^ Zpos s). pose proof (Z.mod_pos_bound n' (Zpos d) ltac:(lia)) as B.
  unfold Z.div, Z.modulo in *. destruct (Z.div_eucl n' (Zpos d)) as [q r].
  by rewrite new_location_of.
Qed.

(** The float quotient is [n * 2^k / d] rounded to 53 bits, over [2^k]. *)
Lemma fdiv_fraction (n d : positive) :
  Zpos n < 2 ^ 53 → Zpos d < 2 ^ 1000 →
  ∃ k, 0 ≤ k ∧ 2 ^ 52 * Zpos d ≤ Zpos n * 2 ^ k ∧
    let x := fdiv (S754_finite false n 0) (S754_finite false d 0) in
    fisfinite x = true ∧ is_fraction x (div_half_even (Zpos n * 2 ^ k) (Zpos d)) (2 ^ k).
Proof.
  intros Hn Hd. apply digits2_le in Hn as HD1; [|lia]. apply digits2_le in Hd as HD2; [|lia]. clear Hn Hd.
  pose proof (digits2_bounds n) as Bn. pose proof (digits2_bounds d) as Bd.
  assert (0 < Zdigits2 (Zpos n) ∧ 0 < Zdigits2 (Zpos d)) as [H1 H2] by (simpl; lia).
  pose proof (quotient_bits _ _ _ _ H1 H2 HD1 Bn Bd) as Hq.
  set (s := 53 + Zdigits2 (Zpos d) - Zdigits2 (Zpos n)) in *.
  assert (1 ≤ s ≤ 1052) as Hs by lia. pose proof (div_core n d s eq_refl Hs) as Ec. clearbody s.
  clear H1 H2 HD1 HD2 Bn Bd.
  set (n' := Zpos n * 2 ^ s) in *. set (q := n' / Zpos d).
  assert (2 ^ 52 ≤ q < 2 ^ 54) as Bq.
  { split; [apply Z.div_le_lower_bound; lia|apply Z.div_lt_upper_bound; lia]. }
  assert (∃ k M, 0 ≤ k ≤ 1074 ∧ 2 ^ 52 * Zpos d ≤ Zpos n * 2 ^ k ∧ 2 ^ 52 ≤ M ≤ 2 ^ 53 ∧
    M = div_half_even (Zpos n * 2 ^ k) (Zpos d) ∧
    let '(mrs, e) := shr_fexp prec emax q (- s) (location_of (Zpos d) (n' mod Zpos d)) in
    e = - k ∧ round_nearest_even (shr_m mrs) (loc_of_shr_record mrs) = M)
    as (k&M&Hk&Hlow&HM&EM&Er).
  { destruct (Z.lt_ge_cases q (2 ^ 53)) as [Hlt|Hge].
    - exists s, (div_half_even n' (Zpos d)). rewrite shr_fexp_53 by lia.
      assert (round_nearest_even q (location_of (Zpos d) (n' mod Zpos d)) = div_half_even n' (Zpos d)) as Eq
        by (apply round_location; lia).
      assert (∀ l, round_nearest_even (shr_m (shr_record_of_loc q l))
        (loc_of_shr_record (shr_record_of_loc q l)) = round_nearest_even q l) as -> by by intros [|[]].
      split; [lia|]. split; [lia|]. split; [|done]. rewrite <-Eq. unfold round_nearest_even.
      repeat case_match; lia.
    - exists (s - 1), (div_half_even n' (2 * Zpos d)). rewrite shr_fexp_54 by lia.
      assert (En : n' = 2 * (Zpos n * 2 ^ (s - 1))).
      { unfold n'. replace s with (1 + (s - 1)) at 1 by lia. rewrite Z.pow_add_r by lia. lia. }
      assert (2 ^ 53 * Zpos d ≤ n').
      { transitivity (q * Zpos d); [nia|]. unfold q. rewrite Z.mul_comm. apply Z.mul_div_le. lia. }
      split; [lia|]. split; [lia|]. split; [|split; [|split; [lia|by apply shift_location; lia]]].
      + pose proof (div_half_even_bounds n' (2 * Zpos d) ltac:(lia)). nia.
      + rewrite En. apply div_half_even_double. lia. }
  exists k. split; [lia|]. split; [done|]. destruct (carry_fraction M k HM Hk) as (x&Ex&Hx&Hf).
  assert (fdiv (S754_finite false n 0) (S754_finite false d 0) = x) as ->; [|by subst M].
  unfold fdiv, SFdiv. rewrite Ec. fold q. unfold binary_round_aux.
  destruct (shr_fexp prec emax q (- s) _) as [mrs e]. destruct Er as [-> ->]. exact Ex.
Qed.

(** ** Rounding up *)

Lemma div_fraction n d a b : 0 < d → 0 < b → n * b = a * d → n / d = a / b.
Proof.
  intros Hd Hb E. pose proof (Z.div_mod n d ltac:(lia)) as En. pose proof (Z.mod_pos_bound n d Hd).
  set (q := n / d) in *. set (r := n mod d) in *.
  apply (Z.div_unique_pos _ _ _ (a - b * q)); [|lia].
  assert (d * (a - b * q) = b * r) by nia. nia.
Qed.

Lemma py_ceil_fraction x a b : is_fraction x a b → 0 < b → py_ceil x = Ok (- ((- a) / b)).
Proof.
  intros (n&d&E&Hd&Ef) Hb. unfold py_ceil, int_by. rewrite E. do 2 f_equal.
  apply div_fraction; lia.
Qed.

Lemma ceil_unique a b c : 0 < b → (c - 1) * b < a ≤ c * b → - ((- a) / b) = c.
Proof. intros Hb H. rewrite <-(Z.div_unique (- a) b (- c) (c * b - a)); lia. Qed.

Lemma ceil_truediv a b :
  0 ≤ a < 2 ^ 53 → 0 < b < 2 ^ 1000 →
  ∃ q, py_truediv a b = Ok q ∧ py_ceil q = Ok ((a + b - 1) / b).
Proof.
  intros Ha [Hb Hb']. unfold py_truediv. rewrite (proj2 (Z.eqb_neq b 0)) by lia.
  destruct a as [|n|n]; [| |lia]; (destruct b as [|d|d]; [lia| |lia]).
  - exists fzero. split; [done|]. change (py_ceil fzero) with (Ok (A := Z) 0). f_equal.
    symmetry. apply Z.div_small. lia.
  - destruct (fdiv_fraction n d ltac:(lia) Hb') as (k&Hk&Hlow&Hfin&Hf). clear Hb'. cbn [spec_of_Z].
    set (x := fdiv (S754_finite false n 0) _) in *. rewrite Hfin. exists x. split; [done|].
    rewrite (py_ceil_fraction _ _ _ Hf) by lia. f_equal.
    set (c := (Zpos n + Zpos d - 1) / Zpos d).
    assert (Hc : (c - 1) * Zpos d < Zpos n ≤ c * Zpos d).
    { pose proof (Z.div_mod (Zpos n + Zpos d - 1) (Zpos d) ltac:(lia)) as E.
      pose proof (Z.mod_pos_bound (Zpos n + Zpos d - 1) (Zpos d) ltac:(lia)). fold c in E. lia. }
    pose proof (Z.pow_pos_nonneg 2 k ltac:(lia) Hk) as Hp. set (p := 2 ^ k) in *.
    pose proof (div_half_even_bounds (Zpos n * p) (Zpos d) ltac:(lia)) as [B1 B2].
    assert (Zpos d < 2 * p) by (change (2 ^ 53) with (2 * 2 ^ 52) in Ha; nia).
    apply ceil_unique; [lia|]. split; [nia|].
    apply Z.lt_succ_r. apply (Z.mul_lt_mono_pos_l (2 * Zpos d)); [lia|]. nia.
Qed.

(** Rounding to the nearest integer is monotone in the fraction. *)
Lemma py_round_fraction x a b : is_fraction x a b → 0 < b → ∃ z, py_round x = Ok z ∧
  2 * a - b ≤ 2 * b * z ≤ 2 * a + b.
Proof.
  intros (n&d&E&Hd&Ef) Hb. unfold py_round, int_by. rewrite E. eexists. split; [done|].
  pose proof (div_half_even_bounds n d Hd). nia.
Qed.
