(* ===== verification/PyDict.v ===== *)
(** * Python dicts in insertion order, and calls that fail in documented ways

    Assigning an existing key keeps its position, a new key goes last; the order is
    visible wherever the program lists a dict.  A dict is its list of items.  The
    second part is a logic for stateful calls ([wp]). *)
From S2P Require Export Prelude.

Section pydict.
Context {K A : Type} `{!EqDecision K}.
Implicit Types (d : list (K * A)) (k : K).

(** [d.get(k)]. *)
Fixpoint dget k d : option A :=
  match d with
  | [] => None
  | (k', a) :: d' => if decide (k = k') then Some a else dget k d'
  end.

(** [d[k]]. *)
Definition dindex k d : result A :=
  match dget k d with Some a => Ok a | None => Err KeyError end.

(** [k in d]. *)
Definition dmem k d : bool := bool_decide (k ∈ d.*1).

(** [d[k] = a]. *)
Fixpoint dset k (a : A) d : list (K * A) :=
  match d with
  | [] => [(k, a)]
  | (k', a') :: d' => if decide (k = k') then (k, a) :: d' else (k', a') :: dset k a d'
  end.

(** [del d[k]] for a key of [d]. *)
Fixpoint ddel k d : list (K * A) :=
  match d with
  | [] => []
  | (k', a') :: d' => if decide (k = k') then d' else (k', a') :: ddel k d'
  end.

Lemma dget_dset k k' a d : dget k' (dset k a d) = if decide (k' = k) then Some a else dget k' d.
Proof.
  induction d as [|[j x] d IH]; simpl; [done|].
  destruct (decide (k = j)) as [->|Hj]; simpl.
  - by destruct (decide (k' = j)).
  - destruct (decide (k' = j)) as [->|]; [|exact IH]. by rewrite decide_False.
Qed.

Lemma dget_dset_eq k a d : dget k (dset k a d) = Some a.
Proof. rewrite dget_dset. by rewrite decide_True. Qed.

Lemma dget_dset_ne k k' a d : k' ≠ k → dget k' (dset k a d) = dget k' d.
Proof. intros. rewrite dget_dset. by rewrite decide_False. Qed.

Lemma dget_Some_elem k a d : dget k d = Some a → (k, a) ∈ d.
Proof.
  induction d as [|[j x] d IH]; simpl; [done|].
  destruct (decide (k = j)) as [->|]; [intros [= ->]; left|intros H; right; auto].
Qed.

Lemma dget_is_Some k d : is_Some (dget k d) ↔ k ∈ d.*1.
Proof.
  induction d as [|[j x] d IH]; simpl; [by rewrite is_Some_alt, elem_of_nil|].
  rewrite elem_of_cons. destruct (decide (k = j)) as [->|]; [naive_solver|]. rewrite IH. naive_solver.
Qed.

Lemma dget_is_Some_1 k a d : dget k d = Some a → k ∈ d.*1.
Proof. intros H. apply dget_is_Some. by exists a. Qed.

Lemma dget_None k d : dget k d = None ↔ k ∉ d.*1.
Proof. rewrite <-dget_is_Some, eq_None_not_Some. done. Qed.

Lemma elem_dget k a d : NoDup d.*1 → (k, a) ∈ d → dget k d = Some a.
Proof.
  induction d as [|[j x] d IH]; csimpl; [by intros _ ?%elem_of_nil|].
  intros [Hj Hn]%NoDup_cons [[= -> ->]|H]%elem_of_cons; [by rewrite decide_True|].
  rewrite decide_False; [by apply IH|]. intros ->. apply Hj. by apply (list_elem_of_fmap_2 fst) in H.
Qed.

Lemma dset_keys k a d j : j ∈ (dset k a d).*1 ↔ j = k ∨ j ∈ d.*1.
Proof.
  rewrite <-!dget_is_Some, dget_dset. destruct (decide (j = k)); naive_solver.
Qed.

Lemma dset_NoDup k a d : NoDup d.*1 → NoDup (dset k a d).*1.
Proof.
  induction d as [|[j x] d IH]; csimpl; [intros _; apply NoDup_singleton|].
  intros [Hj Hn]%NoDup_cons. destruct (decide (k = j)) as [->|Hk]; csimpl; [by apply NoDup_cons|].
  apply NoDup_cons. split; [|by apply IH]. rewrite dset_keys. naive_solver.
Qed.

Lemma dset_keys_old k a d : k ∈ d.*1 → (dset k a d).*1 = d.*1.
Proof.
  induction d as [|[j x] d IH]; csimpl; [by intros ?%elem_of_nil|]. intros H.
  destruct (decide (k = j)) as [->|Hk]; csimpl; [done|].
  apply elem_of_cons in H as [->|H]; [done|]. by rewrite IH.
Qed.

Lemma dset_keys_new k a d : k ∉ d.*1 → (dset k a d).*1 = d.*1 ++ [k].
Proof.
  induction d as [|[j x] d IH]; csimpl; [done|]. intros H. apply not_elem_of_cons in H as [Hk H].
  rewrite decide_False by done. csimpl. by rewrite IH.
Qed.

Lemma ddel_keys k d j : NoDup d.*1 → j ∈ (ddel k d).*1 ↔ j ≠ k ∧ j ∈ d.*1.
Proof.
  induction d as [|[i x] d IH]; csimpl; [intros _; set_solver|].
  intros [Hi Hn]%NoDup_cons. destruct (decide (k = i)) as [->|]; csimpl; [set_solver|].
  rewrite elem_of_cons, IH by done. set_solver.
Qed.

Lemma ddel_sublist k d : sublist (ddel k d) d.
Proof.
  induction d as [|[i x] d IH]; simpl; [constructor|]. destruct (decide (k = i)); by constructor.
Qed.

Lemma ddel_NoDup k d : NoDup d.*1 → NoDup (ddel k d).*1.
Proof. intros H. eapply sublist_NoDup; [exact H|]. apply fmap_sublist, ddel_sublist. Qed.

Lemma dget_ddel k j d : NoDup d.*1 → dget j (ddel k d) = if decide (j = k) then None else dget j d.
Proof.
  induction d as [|[i x] d IH]; csimpl; [by case_decide|]. intros [Hi Hn]%NoDup_cons.
  destruct (decide (k = i)) as [->|Hk]; simpl.
  - destruct (decide (j = i)) as [->|]; [by apply dget_None|done].
  - destruct (decide (j = i)) as [->|]; [by rewrite decide_False|by apply IH].
Qed.

Lemma ddel_all_NoDup l d : NoDup d.*1 → NoDup (fold_left (λ d k, ddel k d) l d).*1.
Proof. revert d. induction l as [|k l IH]; intros d Hd; simpl; [done|]. by apply IH, ddel_NoDup. Qed.

Lemma ddel_all_keys l d j :
  NoDup d.*1 → j ∈ (fold_left (λ d k, ddel k d) l d).*1 ↔ j ∈ d.*1 ∧ j ∉ l.
Proof.
  revert d. induction l as [|k l IH]; intros d Hd; simpl; [set_solver|].
  rewrite IH, ddel_keys by eauto using ddel_NoDup. set_solver.
Qed.

Lemma dget_ddel_all l j d :
  NoDup d.*1 → dget j (fold_left (λ d k, ddel k d) l d) = if decide (j ∈ l) then None else dget j d.
Proof.
  revert d. induction l as [|k l IH]; intros d Hd; simpl; [done|].
  rewrite IH, dget_ddel by eauto using ddel_NoDup.
  repeat case_decide; set_solver.
Qed.

Lemma dmem_true k d : dmem k d = true ↔ is_Some (dget k d).
Proof. unfold dmem. by rewrite bool_decide_eq_true, dget_is_Some. Qed.

Lemma dmem_false k d : dmem k d = false ↔ dget k d = None.
Proof. unfold dmem. by rewrite bool_decide_eq_false, dget_None. Qed.

Lemma dindex_Ok k d a : dindex k d = Ok a ↔ dget k d = Some a.
Proof. unfold dindex. destruct (dget k d); naive_solver. Qed.
End pydict.

#[global] Arguments dmem : simpl never.

(** The answer, or [a]. *)
Definition or_else {A} (a : A) (r : result A) : A := match r with Ok x => x | Err _ => a end.

(** [[f x for x in l]] where [f] may raise. *)
Fixpoint map_result {A B} (f : A → result B) (l : list A) : result (list B) :=
  match l with
  | [] => Ok []
  | x :: l' => y ← f x; ys ← map_result f l'; Ok (y :: ys)
  end.

(** [[x for x in l if p x]] where [p] may raise. *)
Fixpoint filter_result {A} (p : A → result bool) (l : list A) : result (list A) :=
  match l with
  | [] => Ok []
  | x :: l' => b ← p x; xs ← filter_result p l'; Ok (if b : bool then x :: xs else xs)
  end.

Lemma map_result_Ok {A B} (f : A → result B) l k :
  map_result f l = Ok k ↔ Forall2 (λ x y, f x = Ok y) l k.
Proof.
  revert k. induction l as [|x l IH]; intros k; simpl.
  - split; [intros [= <-]; constructor|intros H; by inversion H].
  - split.
    + intros H. res_inv H. subst. constructor; [done|by apply IH].
    + intros H. inversion H as [|? y ? k' Hx Hl]; subst. rewrite Hx. simpl.
      apply IH in Hl as ->. done.
Qed.

Lemma filter_result_Ok {A} (p : A → result bool) l k :
  filter_result p l = Ok k →
  sublist k l ∧ (∀ x, x ∈ k → p x = Ok true) ∧ (∀ x, x ∈ l → p x = Ok true → x ∈ k).
Proof.
  revert k. induction l as [|x l IH]; intros k; simpl.
  - intros [= <-]. split; [done|set_solver].
  - intros H. res_inv H. subst. destruct (IH _ Hs0) as (H1&H2&H3).
    destruct x0; (split; [by constructor|]); (split; [intros y Hy|intros y Hy Hp]).
    + apply elem_of_cons in Hy as [->|]; auto.
    + apply elem_of_cons in Hy as [->|]; [left|right; auto].
    + auto.
    + apply elem_of_cons in Hy as [->|]; [congruence|auto].
Qed.

(** ** Calls that fail only in documented ways

    [wp soft m Q s]: from [s] the stateful call [m] returns a value and a state that
    satisfy [Q], or it raises an exception of the class [soft].  It never raises
    another exception. *)

Section safe.
Context {S : Type} (soft : exn → Prop).

Definition soft_result {A} (r : result A) (Q : A → Prop) : Prop :=
  match r with Ok a => Q a | Err e => soft e end.

Definition wp {A} (m : tx S A) (Q : A → S → Prop) (s : S) : Prop :=
  match m s with (Ok a, s') => Q a s' | (Err e, _) => soft e end.

Lemma soft_mono {A} (r : result A) (P Q : A → Prop) :
  (∀ a, P a → Q a) → soft_result r P → soft_result r Q.
Proof. destruct r; simpl; auto. Qed.

Lemma soft_bind {A B} (r : result A) (f : A → result B) Q :
  soft_result r (λ a, soft_result (f a) Q) → soft_result (r ≫= f) Q.
Proof. by destruct r. Qed.

Lemma soft_fmap {A B} (r : result A) (f : A → B) Q :
  soft_result r (λ a, Q (f a)) → soft_result (f <$> r) Q.
Proof. by destruct r. Qed.

Lemma soft_true {A} (r : result A) (Q : A → Prop) :
  soft_result r (λ _, True) → (∀ a, r = Ok a → Q a) → soft_result r Q.
Proof. destruct r; simpl; auto. Qed.

Lemma soft_map_result {A B} (f : A → result B) (R : A → B → Prop) l :
  (∀ x, x ∈ l → soft_result (f x) (R x)) → soft_result (map_result f l) (Forall2 R l).
Proof.
  induction l as [|x l IH]; intros H; simpl; [constructor|].
  apply soft_bind. eapply soft_mono; [|apply H; left]. intros y Hy.
  apply soft_bind. eapply soft_mono; [|apply IH; intros z Hz; apply H; by right].
  intros ys Hys. by constructor.
Qed.

Lemma wp_mono {A} (m : tx S A) (P Q : A → S → Prop) s :
  (∀ a s', P a s' → Q a s') → wp m P s → wp m Q s.
Proof. unfold wp. destruct (m s) as [[a|e] s']; auto. Qed.

Lemma wp_bind {A B} (m : tx S A) (f : A → tx S B) Q s :
  wp m (λ a s', wp (f a) Q s') s → wp (m ≫= f) Q s.
Proof. unfold wp, mbind, tx_bind. destruct (m s) as [[a|e] s']; auto. Qed.

Lemma wp_ret {A} (a : A) Q s : Q a s → wp (mret a) Q s.
Proof. done. Qed.

Lemma wp_get Q s : Q s s → wp tx_get Q s.
Proof. done. Qed.

Lemma wp_modify f Q s : Q tt (f s) → wp (tx_modify f) Q s.
Proof. done. Qed.

Lemma wp_lift {A} (r : result A) Q s : soft_result r (λ a, Q a s) → wp (tx_lift r) Q s.
Proof. by destruct r. Qed.

Lemma wp_lift_Ok {A} (r : result A) a Q s : r = Ok a → Q a s → wp (tx_lift r) Q s.
Proof. by intros ->. Qed.

Lemma wp_for {A} (P : list A → S → Prop) (f : A → tx S unit) (l : list A) Q s :
  P [] s →
  (∀ done x rest s, l = done ++ x :: rest → P done s → wp (f x) (λ _ s', P (done ++ [x]) s') s) →
  (∀ s, P l s → Q tt s) → wp (tx_for f l) Q s.
Proof.
  intros H0 Hstep HQ.
  assert (∀ rest done s, l = done ++ rest → P done s → wp (tx_for f rest) Q s) as H; [|by apply (H l [])].
  intros rest. induction rest as [|x rest IH]; intros done s2 El H; cbn [tx_for].
  - apply wp_ret, HQ. by rewrite El, app_nil_r.
  - apply wp_bind. eapply wp_mono; [|by eapply Hstep]. intros u s' H'.
    apply (IH (done ++ [x])); [|done]. by rewrite El, <-app_assoc.
Qed.

(** The outcome of a call from its [wp]. *)
Lemma wp_elim {A} (m : tx S A) Q s r s' :
  wp m Q s → m s = (r, s') → (∃ a, r = Ok a ∧ Q a s') ∨ ∃ e, r = Err e ∧ soft e.
Proof. unfold wp. intros H E. rewrite E in H. destruct r; eauto. Qed.
End safe.

(** Walk over the statement at the head of a [wp] goal. *)
Ltac wp_step :=
  match goal with
  | |- wp _ (_ ≫= _) _ _ => apply wp_bind
  | |- wp _ (mret _) _ _ => apply wp_ret
  | |- wp _ tx_get _ _ => apply wp_get
  | |- wp _ (tx_modify _) _ _ => apply wp_modify
  end; cbv beta.
