(* ===== verification/PyVal.v ===== *)
(** * Dynamic Python values, text and canonical JSON

    The operations receive dynamically typed arguments (manifest items, keyword
    arguments, event payloads) and check their types themselves.  [pyval] is the
    type of such values.  A [str] is a [string] whose characters are the code
    points 0 to 255.  [json_dumps] is [json.dumps] with [ensure_ascii=True],
    [sort_keys=True] and the separators the modules use; [float_repr] is
    [float.__repr__], the shortest decimal that reads back as the same float. *)
From Stdlib Require Import SpecFloat.
From S2P Require Export Prelude PyFloat.

(** Characters of a Python text, as code points. *)
Definition code (c : Ascii.ascii) : Z := Z.of_N (Ascii.N_of_ascii c).
Definition chr (z : Z) : Ascii.ascii := Ascii.ascii_of_N (Z.to_N z).

Definition str_of_codes (l : list Z) : string := String.string_of_list_ascii (chr <$> l).
Definition codes_of_str (s : string) : list Z := code <$> String.list_ascii_of_string s.

(** [str.isspace] on one character (code points below 256). *)
Definition is_space (z : Z) : bool :=
  ((9 <=? z) && (z <=? 13) || (28 <=? z) && (z <=? 32) || (z =? 133) || (z =? 160))%Z.

Fixpoint drop_space (l : list Z) : list Z :=
  match l with
  | [] => []
  | z :: l' => if is_space z then drop_space l' else l
  end.

(** [str.strip()]. *)
Definition str_strip (s : string) : string :=
  str_of_codes (rev (drop_space (rev (drop_space (codes_of_str s))))).

(** Code-point order, which is also SQLite's BINARY collation of UTF-8 text. *)
Definition str_leb (a b : string) : bool :=
  match String.compare a b with Gt => false | _ => true end.

Lemma str_leb_trans a b c : str_leb a b = true → str_leb b c = true → str_leb a c = true.
Proof.
  intros H1 H2. apply Is_true_true. change (String.le a c).
  transitivity b; [by apply Is_true_true in H1|by apply Is_true_true in H2].
Qed.

Lemma str_leb_total a b : str_leb a b = true ∨ str_leb b a = true.
Proof. apply String.leb_total. Qed.

Lemma str_leb_antisymm a b : str_leb a b = true → str_leb b a = true → a = b.
Proof.
  intros H1%Is_true_true H2%Is_true_true. change (String.le a b) in H1. change (String.le b a) in H2.
  by apply (anti_symm String.le).
Qed.

#[warnings="-register-all"]
Inductive pyval :=
  | VNone
  | VBool (b : bool)
  | VInt (z : Z)
  | VFloat (f : Float)
  | VStr (s : string)
  | VList (l : list pyval)
  | VDict (d : list (string * pyval)).

(** [d.get(k)] and [d.get(k, default)] on a mapping with unique keys. *)
Fixpoint dict_lookup (k : string) (d : list (string * pyval)) : option pyval :=
  match d with
  | [] => None
  | (k', v) :: d' => if String.eqb k k' then Some v else dict_lookup k d'
  end.
Definition dict_get (k : string) (d : list (string * pyval)) : pyval :=
  default VNone (dict_lookup k d).

(** ** Decimal text *)

Definition digit (z : Z) : Z := (48 + z)%Z.

Fixpoint dec_digits_aux (fuel : nat) (z : Z) (acc : list Z) : list Z :=
  match fuel with
  | O => acc
  | S n => let acc' := digit (z mod 10) :: acc in
           if (z <? 10)%Z then acc' else dec_digits_aux n (z / 10) acc'
  end.
(** The decimal digits of a natural number; [log2 z + 1] is enough fuel, a
    decimal has no more digits than the binary numeral. *)
Definition dec_digits (z : Z) : list Z :=
  dec_digits_aux (S (Z.to_nat (Z.log2 z))) z [].

(** [str(z)]. *)
Definition int_codes (z : Z) : list Z :=
  if (z <? 0)%Z then 45%Z :: dec_digits (- z) else dec_digits z.

(** ** [float.__repr__] *)

(** The float nearest to [d * 10^k]. *)
Definition dec_to_float (d : positive) (k : Z) : Float :=
  if (0 <=? k)%Z then binary_normalize prec emax (Z.pos d * 10 ^ k) 0 false
  else SFdiv prec emax (S754_finite false d 0)
         (S754_finite false (Z.to_pos (10 ^ (- k))) 0).

(** [m * 2^e] as a fraction. *)
Definition float_frac (m : positive) (e : Z) : Z * Z :=
  (if (0 <=? e)%Z then (Z.pos m * 2 ^ e, 1) else (Z.pos m, 2 ^ (- e)))%Z.

(** The exponent [k] with [10^k <= m * 2^e < 10^(k+1)]. *)
Definition dec_exponent (m : positive) (e : Z) : Z :=
  let '(n, d) := float_frac m e in
  let le10 k := if (0 <=? k)%Z then (10 ^ k * d <=? n)%Z else (d <=? n * 10 ^ (- k))%Z in
  let est := ((Z.log2 (Z.pos m) + e) * 30103 / 100000)%Z in
  if le10 (est + 1)%Z then (est + 1)%Z else if le10 est then est else (est - 1)%Z.

(** The [p]-digit decimals around [m * 2^e], the closer first. *)
Definition dec_candidates (m : positive) (e k p : Z) : list Z :=
  let '(n, d) := float_frac m e in
  let s := (p - 1 - k)%Z in
  let '(n, d) := (if (0 <=? s)%Z then (n * 10 ^ s, d) else (n, d * 10 ^ (- s)))%Z in
  let lo := (n / d)%Z in
  let r := (2 * (n mod d))%Z in
  if (r <? d)%Z || ((r =? d)%Z && Z.even lo) then [lo; lo + 1]%Z else [lo + 1; lo]%Z.

Fixpoint shortest_aux (fuel : nat) (m : positive) (e k p : Z) : Z * Z :=
  let cands := dec_candidates m e k p in
  let back q := match q with
    | Zpos d => bool_decide (dec_to_float d (k - p + 1) = S754_finite false m e)
    | _ => false end in
  match fuel, List.find back cands with
  | _, Some q => (q, k - p + 1)%Z
  | O, None => (Z.max 1 (default 1%Z (head cands)), k - p + 1)%Z
  | S n, None => shortest_aux n m e k (p + 1)
  end.

Fixpoint strip_zeros (fuel : nat) (q x : Z) : Z * Z :=
  match fuel with
  | O => (q, x)
  | S n => if (q mod 10 =? 0)%Z then strip_zeros n (q / 10) (x + 1) else (q, x)
  end.

(** Shortest [q * 10^x] that reads back as [m * 2^e]; 17 digits always do. *)
Definition shortest_decimal (m : positive) (e : Z) : Z * Z :=
  let '(q, x) := shortest_aux 16 m e (dec_exponent m e) 1 in strip_zeros 17 q x.

Definition exp_codes (x : Z) : list Z :=
  let ds := dec_digits (Z.abs x) in
  [101; if (x <? 0)%Z then 45 else 43]%Z ++ (if length ds =? 1 then [48%Z] else [])%nat ++ ds.

(** Digits [ds] with the decimal point after position [pt]: [repr]'s fixed
    notation for -4 <= exponent < 16 and scientific notation outside. *)
Definition repr_digits (ds : list Z) (pt : Z) : list Z :=
  let n := Z.of_nat (length ds) in
  if ((-4 <? pt) && (pt <=? 16))%Z then
    if (pt <=? 0)%Z then [48; 46]%Z ++ replicate (Z.to_nat (- pt)) 48%Z ++ ds
    else if (n <=? pt)%Z then ds ++ replicate (Z.to_nat (pt - n)) 48%Z ++ [46; 48]%Z
    else take (Z.to_nat pt) ds ++ [46%Z] ++ drop (Z.to_nat pt) ds
  else match ds with
    | [] => []
    | [d] => d :: exp_codes (pt - 1)
    | d :: ds' => d :: 46%Z :: ds' ++ exp_codes (pt - 1)
    end.

Definition float_repr (x : Float) : list Z :=
  match x with
  | S754_nan => codes_of_str "nan"
  | S754_infinity s => codes_of_str (if s then "-inf" else "inf")
  | S754_zero s => codes_of_str (if s then "-0.0" else "0.0")
  | S754_finite s m e =>
      let '(q, k) := shortest_decimal m e in
      let ds := dec_digits q in
      (if s then [45%Z] else []) ++ repr_digits ds (Z.of_nat (length ds) + k)
  end.

(** ** [json.dumps] *)

Definition hex_digit (z : Z) : Z := if (z <? 10)%Z then (48 + z)%Z else (87 + z)%Z.

(** [json.encoder.py_encode_basestring_ascii], one character. *)
Definition json_char (z : Z) : list Z :=
  (if z =? 34 then [92; 34]
   else if z =? 92 then [92; 92]
   else if z =? 10 then [92; 110]
   else if z =? 13 then [92; 114]
   else if z =? 9 then [92; 116]
   else if z =? 12 then [92; 102]
   else if z =? 8 then [92; 98]
   else if (32 <=? z) && (z <=? 126) then [z]
   else [92; 117; 48; 48; hex_digit (z / 16); hex_digit (z mod 16)])%Z.

Definition json_str (s : string) : list Z :=
  34%Z :: concat (json_char <$> codes_of_str s) ++ [34%Z].

(** NaN and the infinities raise ValueError when [allow_nan] is false. *)
Definition json_float (allow_nan : bool) (x : Float) : result (list Z) :=
  match x with
  | S754_nan => if allow_nan then Ok (codes_of_str "NaN") else Err ValueError
  | S754_infinity s =>
      if allow_nan then Ok (codes_of_str (if s then "-Infinity" else "Infinity"))
      else Err ValueError
  | _ => Ok (float_repr x)
  end.

Fixpoint commas (l : list (list Z)) : list Z :=
  match l with
  | [] => []
  | [x] => x
  | x :: l' => x ++ 44%Z :: commas l'
  end.

(** Insertion by key, [sort_keys=True]. *)
Fixpoint insert_key {A} (k : string) (a : A) (l : list (string * A)) : list (string * A) :=
  match l with
  | [] => [(k, a)]
  | (k', a') :: l' =>
      if str_leb k k' then (k, a) :: l else (k', a') :: insert_key k a l'
  end.

Fixpoint json_codes (allow_nan : bool) (v : pyval) : result (list Z) :=
  match v with
  | VNone => Ok (codes_of_str "null")
  | VBool b => Ok (codes_of_str (if b then "true" else "false"))
  | VInt z => Ok (int_codes z)
  | VFloat x => json_float allow_nan x
  | VStr s => Ok (json_str s)
  | VList l =>
      items ← (fix go l := match l with
        | [] => Ok []
        | x :: l' => c ← json_codes allow_nan x; cs ← go l'; Ok (c :: cs)
        end) l;
      Ok (91%Z :: commas items ++ [93%Z])
  | VDict d =>
      items ← (fix go d := match d with
        | [] => Ok []
        | (k, x) :: d' =>
            c ← json_codes allow_nan x; cs ← go d';
            Ok (insert_key k c cs)
        end) d;
      Ok (123%Z :: commas ((λ kc, json_str kc.1 ++ 58%Z :: kc.2) <$> items) ++ [125%Z])
  end.

Definition json_dumps (allow_nan : bool) (v : pyval) : result string :=
  str_of_codes <$> json_codes allow_nan v.

(** ** Equality of dynamic values *)

(** [f == z] between a float and an int is exact. *)
Definition float_eq_int (f : Float) (z : Z) : bool :=
  match f with
  | S754_zero _ => (z =? 0)%Z
  | S754_finite s m e =>
      let n := (if s then Z.neg m else Z.pos m) in
      (if 0 <=? e then n * 2 ^ e =? z else n =? z * 2 ^ (- e))%Z
  | _ => false
  end.

(** The number that a bool, int or float stands for. *)
Definition as_int (v : pyval) : option Z :=
  match v with VBool b => Some (Z.b2z b) | VInt z => Some z | _ => None end.

(** [a == b]. *)
Fixpoint py_eqb (a b : pyval) : bool :=
  match a, b with
  | VNone, VNone => true
  | VStr s, VStr t => String.eqb s t
  | VFloat x, VFloat y => feqb x y
  | VFloat x, _ => match as_int b with Some z => float_eq_int x z | None => false end
  | _, VFloat y => match as_int a with Some z => float_eq_int y z | None => false end
  | VList l, VList k =>
      (fix go l k := match l, k with
        | [], [] => true
        | x :: l', y :: k' => py_eqb x y && go l' k'
        | _, _ => false
        end) l k
  | VDict d, VDict e =>
      (length d =? length e)%nat
      && (fix go d := match d with
           | [] => true
           | (k, x) :: d' => match dict_lookup k e with Some y => py_eqb x y | None => false end && go d'
           end) d
  | _, _ => match as_int a, as_int b with Some x, Some y => (x =? y)%Z | _, _ => false end
  end.

(** ** [repr] and [str] *)

Definition printable (z : Z) : bool :=
  ((32 <=? z) && (z <=? 126) || (161 <=? z) && negb (z =? 173))%Z.

Definition repr_char (quote z : Z) : list Z :=
  (if (z =? quote) || (z =? 92) then [92; z]
   else if z =? 9 then [92; 116] else if z =? 10 then [92; 110] else if z =? 13 then [92; 114]
   else if printable z then [z]
   else [92; 120; hex_digit (z / 16); hex_digit (z mod 16)])%Z.

(** Single quotes, unless the text has one and no double quote. *)
Definition repr_str (s : string) : list Z :=
  let l := codes_of_str s in
  let has k := existsb (Z.eqb k) l in
  let quote := (if has 39 && negb (has 34) then 34 else 39)%Z in
  quote :: concat (repr_char quote <$> l) ++ [quote].

Fixpoint comma_space (l : list (list Z)) : list Z :=
  match l with
  | [] => []
  | [x] => x
  | x :: l' => x ++ [44; 32]%Z ++ comma_space l'
  end.

Fixpoint py_repr (v : pyval) : list Z :=
  match v with
  | VNone => codes_of_str "None"
  | VBool b => codes_of_str (if b then "True" else "False")
  | VInt z => int_codes z
  | VFloat x => float_repr x
  | VStr s => repr_str s
  | VList l => 91%Z :: comma_space (py_repr <$> l) ++ [93%Z]
  | VDict d =>
      123%Z :: comma_space ((λ kv, repr_str kv.1 ++ [58; 32]%Z ++ py_repr kv.2) <$> d) ++ [125%Z]
  end.

(** [str(v)]. *)
Definition py_str (v : pyval) : string :=
  match v with VStr s => s | _ => str_of_codes (py_repr v) end.

Example py_str_1 :
  py_str (VDict [("it's"%string, VList [VInt 1; VNone])]) =
  str_of_codes ([123; 34; 105; 116; 39; 115; 34; 58; 32; 91; 49; 44; 32]%Z ++ codes_of_str "None]}").
Proof. vm_compute. reflexivity. Qed.

Example py_eqb_1 :
  py_eqb (VInt 1) (VFloat (float_of_Z 1)) = true ∧ py_eqb (VBool true) (VInt 1) = true ∧
  py_eqb (VStr "1") (VInt 1) = false.
Proof. vm_compute. done. Qed.
