(* ===== verification/VideoSampling.v ===== *)
(** * config.py, video.py, output.py: sampling a video

    Which source frames are read, decoded and batched, what the sample rate implies
    for the tracker, and how times are printed.  The capture is OpenCV's: an
    interface ([VideoCapture]) whose state each read advances.  The second part proves
    what sampling promises. *)
From S2P Require Export Prelude PyFloat PyRound PyVal.

Module Video.

(** ** config.py *)

Definition MAX_DISAPPEARED_SECONDS : Float := float_of_Z 1.
Definition MIN_CONFIRMATION_FRAMES : Z := 2.

Record SamplingConfig := {
  sc_interval : Z;
  sc_effective_fps : Float;
  sc_total_sampled_frames : Z;
}.

(** [x or y] on an optional float: 0.0 is false. *)
Definition float_or (x : option Float) (y : Float) : Float :=
  match x with Some f => if feqb f fzero then y else f | None => y end.

Definition sampling_config (source_fps : Float) (requested_sample_fps : option Float)
    (total_source_frames : Z) : result SamplingConfig :=
  let requested_fps := float_or requested_sample_fps source_fps in
  quotient ← py_fdiv source_fps (py_fmin requested_fps source_fps);
  rounded ← py_round quotient;
  let interval := Z.max 1 rounded in
  divisor ← py_float_of_int interval;
  effective_fps ← py_fdiv source_fps divisor;
  samples ← py_truediv (Z.max 0 total_source_frames) interval;
  total_sampled_frames ← py_ceil samples;
  Ok {| sc_interval := interval; sc_effective_fps := effective_fps;
        sc_total_sampled_frames := total_sampled_frames |}.

Definition retention_seconds_for_sample_rate (effective_sample_fps : Float) : result Float :=
  seconds ← py_fdiv (float_of_Z 2) effective_sample_fps;
  Ok (py_fmax MAX_DISAPPEARED_SECONDS seconds).

Definition disappeared_frames_for_sample_rate (effective_sample_fps : Float) : result Z :=
  retention ← retention_seconds_for_sample_rate effective_sample_fps;
  py_round (fmul retention effective_sample_fps).

Definition lost_track_buffer_for_sample_rate (effective_sample_fps : Float) : result Z :=
  retention ← retention_seconds_for_sample_rate effective_sample_fps;
  py_ceil (fmul (float_of_Z 30) retention).

Definition confirmed_entry_frame (source_frame_index sample_interval confirmation_frames : Z) : Z :=
  Z.max 0 (source_frame_index - (confirmation_frames - 1) * sample_interval).

(** ** video.py *)

Record VideoMetadata := {
  vm_fps : Float;
  vm_width : Z;
  vm_height : Z;
  vm_total_source_frames : Z;
}.

(** [read_video_metadata]; the arguments are the properties of the capture. *)
Definition read_video_metadata (fps frame_width frame_height frame_count : Float)
    : result VideoMetadata :=
  width ← py_int frame_width;
  height ← py_int frame_height;
  require (negb (fleb fps fzero || (width <=? 0)%Z || (height <=? 0)%Z)) RuntimeError;;
  count ← py_int frame_count;
  Ok {| vm_fps := fps; vm_width := width; vm_height := height; vm_total_source_frames := count |}.

Record FrameReadState := { rs_source_frames_read : Z; rs_ended_early : bool }.
Definition unread : FrameReadState := {| rs_source_frames_read := 0; rs_ended_early := false |}.

(** [grab] skips a frame without decoding it. *)
Class VideoCapture (Cap Frame : Type) := {
  isOpened : Cap → bool;
  read : Cap → bool * option Frame * Cap;
  grab : Cap → bool * Cap;
}.

Section reader.
Context {Cap Frame : Type} `{!VideoCapture Cap Frame}.

Definition FrameBatch : Type := list (Z * Frame).

(** A finished generator: the batches with the read state at each [yield], the read state
    it left, and whether it raised. *)
Record Reading := {
  rd_yields : list (FrameBatch * FrameReadState);
  rd_state : FrameReadState;
  rd_outcome : result unit;
}.

Definition yielding (batch : FrameBatch) (st : FrameReadState) (r : Reading) : Reading :=
  {| rd_yields := (batch, st) :: rd_yields r; rd_state := rd_state r; rd_outcome := rd_outcome r |}.

(** After the loop: the last, shorter batch. *)
Definition finish (batch : FrameBatch) (st : FrameReadState) : Reading := {|
  rd_yields := match batch with [] => [] | _ => [(batch, st)] end;
  rd_state := st; rd_outcome := Ok tt |}.

Section loop.
Context (sample_interval batch_size expected_source_frames : Z).

(** Read or skip the frame of this index. *)
Definition next_frame (index : Z) (c : Cap) : bool * option Frame * Cap :=
  if (index mod sample_interval =? 0)%Z then read c
  else let '(success, c') := grab c in (success, None, c').

(** The [while] loop; [None] when the fuel runs out. *)
Fixpoint read_frames (fuel : nat) (c : Cap) (index : Z) (batch : FrameBatch) (st : FrameReadState)
    : option Reading :=
  match fuel with
  | O => None
  | S fuel' =>
      if negb (isOpened c) then Some (finish batch st) else
      if (sample_interval =? 0)%Z
      then Some {| rd_yields := []; rd_state := st; rd_outcome := Err ZeroDivisionError |} else
      let '(success, frame, c') := next_frame index c in
      if negb success then
        Some (finish batch {| rs_source_frames_read := rs_source_frames_read st;
                              rs_ended_early := (index + 1 <? expected_source_frames)%Z |})
      else
        let st' := {| rs_source_frames_read := index + 1; rs_ended_early := rs_ended_early st |} in
        match frame with
        | None => read_frames fuel' c' (index + 1) batch st'
        | Some f =>
            let batch' := batch ++ [(index, f)] in
            if (Z.of_nat (length batch') =? batch_size)%Z
            then yielding batch' st' <$> read_frames fuel' c' (index + 1) [] st'
            else read_frames fuel' c' (index + 1) batch' st'
        end
  end.
End loop.

Definition iter_sampled_frame_batches (fuel : nat) (capture : Cap)
    (sample_interval batch_size expected_source_frames : Z) (read_state : FrameReadState)
    : option Reading :=
  read_frames sample_interval batch_size expected_source_frames fuel capture 0 [] read_state.
End reader.
Arguments FrameBatch : clear implicits.
Arguments Reading : clear implicits.

(** ** Printed times *)

(** [f"{z:0<width>d}"]: the width counts the sign. *)
Definition pad (width : nat) (z : Z) : string :=
  let digits := int_codes (Z.abs z) in
  let sign := if (z <? 0)%Z then [45%Z] else [] in
  str_of_codes (sign ++ replicate (width - length sign - length digits) 48%Z ++ digits).

Definition total_milliseconds (frame_index : Z) (fps : Float) : result Z :=
  index ← py_float_of_int frame_index;
  seconds ← py_fdiv index fps;
  py_round (fmul seconds (float_of_Z 1000)).

Definition format_video_timestamp (frame_index : Z) (fps : Float) : result string :=
  total ← total_milliseconds frame_index fps;
  let '(hours, remainder) := (total / 3600000, total mod 3600000)%Z in
  let '(minutes, remainder) := (remainder / 60000, remainder mod 60000)%Z in
  let '(seconds, milliseconds) := (remainder / 1000, remainder mod 1000)%Z in
  Ok (pad 2 hours +:+ ":" +:+ pad 2 minutes +:+ ":" +:+ pad 2 seconds +:+ "." +:+ pad 3 milliseconds)%string.

(** [f"{x:.3f}"]: the exact value, rounded half to even. *)
Definition fixed3 (x : Float) : string :=
  match float_ratio x with
  | Some (n, d) =>
      let m := div_half_even (Z.abs n * 1000) d in
      let sign := match x with
                  | SpecFloat.S754_zero s | SpecFloat.S754_finite s _ _ => s | _ => false end in
      ((if sign then "-" else "") +:+ pad 1 (m / 1000) +:+ "." +:+ pad 3 (m mod 1000))%string
  | None => if fisnan x then "nan" else if fltb x fzero then "-inf" else "inf"
  end%string.

(** ** output.py: the rows of the telemetry file *)

(** entry_frame and last_seen_frame of one person. *)
Definition telemetry_row (fps : Float) (person_id entry_frame last_seen_frame : Z)
    : result (list string) :=
  entry ← py_float_of_int entry_frame;
  entry_seconds ← py_fdiv entry fps;
  exit ← py_float_of_int last_seen_frame;
  exit_seconds ← py_fdiv exit fps;
  entry_timestamp ← format_video_timestamp entry_frame fps;
  exit_timestamp ← format_video_timestamp last_seen_frame fps;
  Ok [pad 1 person_id; pad 1 entry_frame; pad 1 last_seen_frame; fixed3 entry_seconds;
      fixed3 exit_seconds; entry_timestamp; exit_timestamp;
      fixed3 (fsub exit_seconds entry_seconds)].

End Video.

(** ** What sampling promises

    Over a capture that delivers its frames and then fails, the reader batches exactly
    the frames whose index is a multiple of the interval, and their number is the one
    that [sampling_config] announced. *)
Import Video.
Local Open Scope Z_scope.

(** A video file: [read] and [grab] step through the frames, then fail. *)
Inductive delivers {Cap Frame} `{!VideoCapture Cap Frame} : Cap → list Frame → Prop :=
  | dl_end c : isOpened c = true → (read c).1.1 = false → (grab c).1 = false → delivers c []
  | dl_frame c c1 c2 f fs :
      isOpened c = true → read c = (true, Some f, c1) → grab c = (true, c2) →
      delivers c1 fs → delivers c2 fs → delivers c (f :: fs).

(** The frames with an index that is a multiple of the interval, from [index] on. *)
Fixpoint sampled {Frame} (interval index : Z) (fs : list Frame) : list (Z * Frame) :=
  match fs with
  | [] => []
  | f :: fs' => (if index mod interval =? 0 then [(index, f)] else []) ++ sampled interval (index + 1) fs'
  end.

(** Full batches, the last one possibly shorter but not empty. *)
Fixpoint full_batches {A B} (size : Z) (l : list (list A * B)) : Prop :=
  match l with
  | [] => True
  | [(b, _)] => 0 < Z.of_nat (length b) ≤ size
  | (b, _) :: l' => Z.of_nat (length b) = size ∧ full_batches size l'
  end.

Lemma full_batches_cons {A B} size (b : list A) (x : B) l :
  0 < size → Z.of_nat (length b) = size → full_batches size l → full_batches size ((b, x) :: l).
Proof. intros Hs Hb H. destruct l as [|y l]; simpl; [lia|done]. Qed.

Lemma length_sampled {Frame} interval index (fs : list Frame) :
  0 < interval → 0 ≤ index →
  Z.of_nat (length (sampled interval index fs)) =
    (index + Z.of_nat (length fs) + interval - 1) / interval - (index + interval - 1) / interval.
Proof.
  intros Hi. revert index. induction fs as [|f fs IH]; intros index Hx; cbn [sampled length].
  - rewrite Z.add_0_r. lia.
  - rewrite length_app, Nat2Z.inj_add, (IH (index + 1)) by lia. rewrite Nat2Z.inj_succ.
    replace (index + 1 + Z.of_nat (length fs)) with (index + Z.succ (Z.of_nat (length fs))) by lia.
    pose proof (Z.div_mod index interval ltac:(lia)) as E. pose proof (Z.mod_pos_bound index interval Hi).
    destruct (Z.eqb_spec (index mod interval) 0) as [E0|E0]; simpl.
    + rewrite <-(Z.div_unique (index + interval - 1) interval (index / interval) (interval - 1)) by lia.
      rewrite <-(Z.div_unique (index + 1 + interval - 1) interval (index / interval + 1) 0) by lia. lia.
    + rewrite <-(Z.div_unique (index + interval - 1) interval (index / interval + 1) (index mod interval - 1)) by lia.
      rewrite <-(Z.div_unique (index + 1 + interval - 1) interval (index / interval + 1) (index mod interval)) by lia.
      lia.
Qed.

Section reader.
Context {Cap Frame : Type} `{!VideoCapture Cap Frame}.
Context (interval batch_size expected : Z) (Hinterval : 0 < interval) (Hsize : 0 < batch_size).

(** What [read_frames] leaves, with [n] frames to come. *)
Record reads_all (index : Z) (batch : FrameBatch Frame) (fs : list Frame) (st : FrameReadState)
    (r : Reading Frame) : Prop := {
  ra_ok : rd_outcome r = Ok tt;
  ra_frames : concat (fst <$> rd_yields r) = batch ++ sampled interval index fs;
  ra_batches : full_batches batch_size (rd_yields r);
  ra_read : rs_source_frames_read (rd_state r) =
    match fs with [] => rs_source_frames_read st | _ => index + Z.of_nat (length fs) end;
  ra_early : rs_ended_early (rd_state r) = (index + Z.of_nat (length fs) + 1 <? expected);
}.

Lemma finish_reads index batch st st' :
  Z.of_nat (length batch) < batch_size →
  rs_source_frames_read st' = rs_source_frames_read st →
  rs_ended_early st' = (index + 0 + 1 <? expected) →
  reads_all index batch [] st (finish batch st').
Proof.
  intros Hb Hr He. split; simpl; [done| | |done|done].
  - by destruct batch; simpl; rewrite ?app_nil_r.
  - destruct batch as [|x batch]; simpl; [done|]. simpl in Hb. lia.
Qed.

Lemma next_frame_delivers c index f fs :
  delivers c (f :: fs) →
  isOpened c = true ∧ ∃ c', delivers c' fs ∧
    next_frame interval index c = (true, if index mod interval =? 0 then Some f else None, c').
Proof.
  intros H. inversion H as [|? c1 c2 ? ? Ho Hr Hg H1 H2]; subst. split; [done|].
  unfold next_frame. destruct (index mod interval =? 0); [by exists c1|]. exists c2. by rewrite Hg.
Qed.

Lemma read_frames_spec fuel c fs index batch st :
  delivers c fs → (length fs < fuel)%nat → Z.of_nat (length batch) < batch_size →
  ∃ r, read_frames interval batch_size expected fuel c index batch st = Some r ∧
    reads_all index batch fs st r.
Proof.
  revert c fs index batch st. induction fuel as [|fuel IH]; intros c fs index batch st D Hf Hb; [lia|].
  assert ((interval =? 0) = false) as H0 by lia. cbn [read_frames].
  destruct fs as [|f fs].
  - inversion D as [? Ho Hr Hg|]; subst. rewrite Ho, H0. simpl.
    destruct (next_frame interval index c) as [[success frame] c'] eqn:En.
    assert (success = false) as ->.
    { unfold next_frame in En. destruct (index mod interval =? 0).
      - by rewrite En in Hr.
      - destruct (grab c). by simplify_eq/=. }
    eexists. split; [done|]. apply finish_reads; [done..|]. simpl. by rewrite Z.add_0_r.
  - destruct (next_frame_delivers c index f fs D) as (Ho&c'&D'&En). rewrite Ho, H0, En. simpl.
    simpl in Hf. set (st' := {| rs_source_frames_read := index + 1; rs_ended_early := rs_ended_early st |}).
    assert (Hlast : ∀ r : Reading Frame, rs_source_frames_read (rd_state r) =
        match fs with [] => rs_source_frames_read st' | _ => index + 1 + Z.of_nat (length fs) end →
      rs_source_frames_read (rd_state r) = index + Z.of_nat (length (f :: fs))).
    { intros r ->. destruct fs; simpl; lia. }
    assert (Hearly : index + 1 + Z.of_nat (length fs) = index + Z.of_nat (length (f :: fs))) by (simpl; lia).
    destruct (index mod interval =? 0) eqn:Em.
    + destruct (Z.of_nat (length (batch ++ [(index, f)])) =? batch_size) eqn:Es.
      * destruct (IH c' fs (index + 1) [] st' D') as (r&->&[R1 R2 R3 R4 R5]); [lia|simpl; lia|].
        eexists. split; [done|]. split; cbn [yielding rd_outcome rd_yields rd_state];
          [done| | |by apply Hlast|by rewrite R5, Hearly].
        -- rewrite fmap_cons. cbn [concat fst sampled]. rewrite R2, Em. by rewrite <-app_assoc.
        -- apply Z.eqb_eq in Es. by apply full_batches_cons.
      * apply Z.eqb_neq in Es. rewrite length_app in Es. simpl in Es.
        destruct (IH c' fs (index + 1) (batch ++ [(index, f)]) st' D') as (r&->&[R1 R2 R3 R4 R5]);
          [lia|rewrite length_app; simpl; lia|].
        eexists. split; [done|]. split; [done| |done|by apply Hlast|by rewrite R5, Hearly].
        cbn [sampled]. rewrite R2, Em. by rewrite <-app_assoc.
    + destruct (IH c' fs (index + 1) batch st' D') as (r&->&[R1 R2 R3 R4 R5]); [lia|done|].
      eexists. split; [done|]. split; [done| |done|by apply Hlast|by rewrite R5, Hearly].
      cbn [sampled]. by rewrite R2, Em.
Qed.
End reader.

Lemma sampling_config_Ok fps requested total sc :
  sampling_config fps requested total = Ok sc →
  1 ≤ sc_interval sc ∧ ∃ q, py_truediv (Z.max 0 total) (sc_interval sc) = Ok q ∧
    py_ceil q = Ok (sc_total_sampled_frames sc).
Proof. unfold sampling_config. intros H. res_inv H. subst sc. simpl. split; [lia|]. eauto. Qed.

(** C39. The sampling plan is exact.  Reading a video that delivers the frames [fs]
    terminates; the batches contain exactly the frames whose index is a multiple of
    the interval, in order, each with its index, in full batches but for the last;
    every frame was read; the run counts as ended early when more than one announced
    frame is missing.  The number of sampled frames is the number of delivered frames over
    the interval, rounded up; when as many frames are delivered as were announced, fewer
    than 2^53, it is the number that [sampling_config] computed through a float, and a
    short delivery never exceeds that number. *)
Theorem sampling_plan_is_exact {Cap Frame} `{!VideoCapture Cap Frame} (c : Cap) (fs : list Frame)
    fps requested announced batch_size sc fuel :
  delivers c fs → sampling_config fps requested announced = Ok sc →
  announced < 2 ^ 53 → sc_interval sc < 2 ^ 1000 → 0 < batch_size → (length fs < fuel)%nat →
  ∃ r, iter_sampled_frame_batches fuel c (sc_interval sc) batch_size announced unread = Some r ∧
    rd_outcome r = Ok tt ∧
    concat (fst <$> rd_yields r) = sampled (sc_interval sc) 0 fs ∧
    full_batches batch_size (rd_yields r) ∧
    rs_source_frames_read (rd_state r) = Z.of_nat (length fs) ∧
    rs_ended_early (rd_state r) = (Z.of_nat (length fs) + 1 <? announced) ∧
    Z.of_nat (length (sampled (sc_interval sc) 0 fs)) =
      (Z.of_nat (length fs) + sc_interval sc - 1) / sc_interval sc ∧
    (Z.of_nat (length fs) = announced →
     Z.of_nat (length (sampled (sc_interval sc) 0 fs)) = sc_total_sampled_frames sc) ∧
    (Z.of_nat (length fs) ≤ announced →
     Z.of_nat (length (sampled (sc_interval sc) 0 fs)) ≤ sc_total_sampled_frames sc).
Proof.
  intros D Hsc Ha Hi Hb Hf. apply sampling_config_Ok in Hsc as [Hi1 (q&Hq&Hceil)].
  destruct (read_frames_spec (sc_interval sc) batch_size announced ltac:(lia) Hb fuel c fs 0 [] unread D Hf
    ltac:(simpl; lia)) as (r&Hr&[R1 R2 R3 R4 R5]).
  exists r. split; [done|]. split; [done|]. split; [done|]. split; [done|].
  split; [by rewrite R4; destruct fs|]. split; [done|].
  destruct (ceil_truediv (Z.max 0 announced) (sc_interval sc) ltac:(lia) ltac:(lia))
    as (q'&Hq'&Hceil'). assert (q' = q) as -> by congruence.
  rewrite Hceil in Hceil'. injection Hceil' as ->. rewrite length_sampled by lia.
  rewrite (Z.div_small (0 + sc_interval sc - 1)) by lia. rewrite Z.sub_0_r, Z.add_0_l.
  split; [done|]. split; intros H; [by rewrite <-H, Z.max_r by lia|].
  apply Z.div_le_mono; lia.
Qed.

(** A capture over the frames that are left. *)
#[local] Instance list_capture : VideoCapture (list nat) nat := {|
  isOpened _ := true;
  read c := match c with [] => (false, None, []) | f :: c' => (true, Some f, c') end;
  grab c := match c with [] => (false, []) | _ :: c' => (true, c') end |}.

Lemma list_delivers (fs : list nat) : delivers fs fs.
Proof. induction fs as [|f fs IH]; [by constructor|by eapply dl_frame]. Qed.

(** Seven frames at 30 frames per second, sampled at 10, in batches of two. *)
Lemma sampling_plan_is_exact_witness :
  ∃ sc r, sampling_config (float_of_Z 30) (Some (float_of_Z 10)) 7 = Ok sc ∧
    iter_sampled_frame_batches 8 (seq 100 7) (sc_interval sc) 2 7 unread = Some r ∧
    (fst <$> rd_yields r) = [[(0, 100%nat); (3, 103%nat)]; [(6, 106%nat)]] ∧
    sc_total_sampled_frames sc = 3.
Proof.
  destruct (sampling_config (float_of_Z 30) (Some (float_of_Z 10)) 7) as [sc|e] eqn:E;
    [|vm_compute in E; discriminate E].
  assert (Hsc : sc = {| sc_interval := 3; sc_effective_fps := float_of_Z 10; sc_total_sampled_frames := 3 |}).
  { vm_compute in E. injection E as <-. reflexivity. }
  destruct (sampling_plan_is_exact (seq 100 7) (seq 100 7) (float_of_Z 30) (Some (float_of_Z 10)) 7 2 sc 8
    (list_delivers _) E) as (r&Hr&_&_&_&_&_&_&Hn&_); [lia|rewrite Hsc; vm_compute; reflexivity|lia|simpl; lia|].
  exists sc, r. split; [reflexivity|]. split; [exact Hr|]. rewrite Hsc in Hr. vm_compute in Hr.
  injection Hr as <-. split; [reflexivity|]. rewrite <-Hn by reflexivity. by rewrite Hsc.
Defined.
