(* ===== verification/Tracking.v ===== *)
(** * pipelines/rtdetr_osnet.py: associating detections with identities

    The detections of a sampled frame are matched with the active tracks (appearance,
    then position), then with the identities that left (re-entry); what remains starts
    tentative tracks, and unmatched tracks age.  A tentative track (negative id) that
    is matched becomes a person (positive id) with an identity and telemetry.

    numpy and scipy are an interface, [Numerics]: embeddings, their similarities and the
    linear assignment; [NumericsLaws] is what the documentation of these libraries says of
    shapes.  All embeddings have one shape. *)
From S2P Require Export Prelude PyFloat PyRound PyDict VideoSampling.

Module Tracking.
Import Video.

(** ** models.py *)

Record BBox := { x1 : Z; y1 : Z; x2 : Z; y2 : Z }.
Definition Centroid : Type := Z * Z.

Class Numerics := {
  Emb : Type;
  Score : Type;
  similarity_matrix : list Emb → list Emb → list (list Score);  (* np.stack(a) @ np.stack(b).T *)
  dot : Emb → Emb → Float;                    (* float(a @ b) *)
  cost_of : Score → Float;                    (* the entry -s of a cost array *)
  score_below : Score → Float → bool;         (* s < threshold *)
  mix : Float → Emb → Float → Emb → Emb;      (* a * x + b * y *)
  norm : Emb → Float;                         (* np.linalg.norm(x) *)
  scale_down : Emb → Float → Emb;             (* x / n *)
  hypot : Z → Z → Float;                      (* np.hypot(x, y) *)
  linear_sum_assignment : list (list Float) → list (nat * nat);
}.

(** One row per embedding of [a], one column per embedding of [b]; an assignment uses
    each row and each column at most once. *)
Class NumericsLaws (N : Numerics) : Prop := {
  matrix_shape a b : length (similarity_matrix a b) = length a ∧
    Forall (λ row, length row = length b) (similarity_matrix a b);
  assignment_valid costs columns : Forall (λ row, length row = columns) costs →
    let m := linear_sum_assignment costs in
    NoDup m.*1 ∧ NoDup m.*2 ∧ ∀ i j, (i, j) ∈ m → (i < length costs)%nat ∧ (j < columns)%nat;
}.

Section tracking.
Context {N : Numerics}.

Record Detection := {
  det_bbox : BBox;
  det_centroid : Centroid;
  det_confidence : Float;
  det_embedding : option Emb;
}.

Record LastGeometry := { lg_centroid : Centroid; lg_bbox : BBox }.

Record TrackProfile := {
  tp_centroid : Centroid;
  tp_embedding : Emb;
  tp_age : Z;
  tp_bbox : BBox;
  tp_first_seen_frame : Z;
  tp_hits : Z;
}.

Record PersonTelemetry := {
  pt_entry_frame : Z;
  pt_last_seen_frame : Z;
  pt_last_geometry : option LastGeometry;
}.

(** ** The state *)

Record RTDetrTrackingState := {
  ts_tracks : list (Z * TrackProfile);
  ts_identities : list (Z * Emb);
  ts_telemetry : list (Z * PersonTelemetry);
  ts_next_track_id : Z;
  ts_next_tentative_id : Z;
}.

Definition fresh_tracking : RTDetrTrackingState := {|
  ts_tracks := []; ts_identities := []; ts_telemetry := [];
  ts_next_track_id := 1; ts_next_tentative_id := -1 |}.

(** The arguments of [associate_detections]; the mutable part of [AssociationState]. *)
Record AssociationInput := {
  in_detections : list Detection;
  in_source_frame_index : Z;
  in_max_centroid_displacement : Float;
  in_max_disappeared_frames : Z;
  in_max_reentry_frames : Z;
  in_sample_interval : Z;
  in_activation_threshold : Float;
}.

Record AssociationState := {
  as_tracking : RTDetrTrackingState;
  as_updated_tracks : list (Z * TrackProfile);
  as_matched_detection_indices : list nat;
  as_matched_track_ids : list Z;
}.

Definition Assoc : Type → Type := tx AssociationState.

Definition modify_tracking (f : RTDetrTrackingState → RTDetrTrackingState) : Assoc unit :=
  tx_modify (λ s, {| s with as_tracking := f (as_tracking s) |}).
Definition set_updated (id : Z) (p : TrackProfile) : Assoc unit :=
  tx_modify (λ s, {| s with as_updated_tracks := dset id p (as_updated_tracks s) |}).
Definition set_identity (id : Z) (e : Emb) (ts : RTDetrTrackingState) : RTDetrTrackingState :=
  {| ts with ts_identities := dset id e (ts_identities ts) |}.
Definition set_telemetry (id : Z) (t : PersonTelemetry) (ts : RTDetrTrackingState)
    : RTDetrTrackingState :=
  {| ts with ts_telemetry := dset id t (ts_telemetry ts) |}.

(** [l[i]]. *)
Definition list_index {A} (l : list A) (i : nat) : result A :=
  match l !! i with Some x => Ok x | None => Err IndexError end.
Definition enumerate {A} (l : list A) : list (nat * A) := imap pair l.

(** ** Helpers *)

Definition ACTIVE_MATCH_THRESHOLD : Float := flit 70 100.
Definition SECONDARY_MATCH_THRESHOLD : Float := flit 50 100.
Definition REENTRY_MATCH_THRESHOLD : Float := flit 75 100.
Definition MIN_CENTROID_DISTANCE_BBOX_HEIGHTS : Float := flit 5 10.
Definition EMBEDDING_EMA_ALPHA : Float := flit 95 100.
Definition INVALID_ASSIGNMENT_COST : Float := float_of_Z 1000000.
Definition np_inf : Float := SpecFloat.S754_infinity false.

Definition detection_embedding (d : Detection) : result Emb :=
  match det_embedding d with Some e => Ok e | None => Err RuntimeError end.

Definition geometry_of (d : Detection) : LastGeometry :=
  {| lg_centroid := det_centroid d; lg_bbox := det_bbox d |}.

Definition update_person_telemetry (d : Detection) (source_frame_index : Z) (t : PersonTelemetry)
    : PersonTelemetry :=
  {| t with pt_last_seen_frame := source_frame_index; pt_last_geometry := Some (geometry_of d) |}.

Definition update_embedding (previous current : Emb) : result Emb :=
  let embedding := mix EMBEDDING_EMA_ALPHA previous
                       (fsub (float_of_Z 1) EMBEDDING_EMA_ALPHA) current in
  let n := norm embedding in
  if feqb n fzero then Err RuntimeError else Ok (scale_down embedding n).

Definition make_track_profile (d : Detection) (embedding : Emb) (first_seen_frame hits : Z)
    : TrackProfile := {|
  tp_centroid := det_centroid d; tp_embedding := embedding; tp_age := 0; tp_bbox := det_bbox d;
  tp_first_seen_frame := first_seen_frame; tp_hits := hits |}.

Definition height (b : BBox) : Z := y2 b - y1 b.

Definition centroid_distance_limit (d : Detection) (p : TrackProfile)
    (max_centroid_displacement : Float) (max_disappeared_frames : Z) : result Float :=
  periods ← py_float_of_int (Z.min (tp_age p + 1) (max_disappeared_frames + 1));
  heights ← py_float_of_int (Z.max (height (det_bbox d)) (height (tp_bbox p)));
  Ok (py_fmax (fmul max_centroid_displacement periods)
              (fmul MIN_CENTROID_DISTANCE_BBOX_HEIGHTS heights)).

Definition distance (a b : Centroid) : Float := hypot (a.1 - b.1) (a.2 - b.2).

Definition _active_spatially_valid (inp : AssociationInput) (d : Detection) (p : TrackProfile)
    : result bool :=
  limit ← centroid_distance_limit d p (in_max_centroid_displacement inp) (in_max_disappeared_frames inp);
  Ok (fltb (distance (det_centroid d) (tp_centroid p)) limit).

Definition _secondary_pair_cost (inp : AssociationInput) (d : Detection) (p : TrackProfile)
    : result (option Float) :=
  let spatial_distance := distance (det_centroid d) (tp_centroid p) in
  limit ← centroid_distance_limit d p (in_max_centroid_displacement inp) (in_max_disappeared_frames inp);
  if fleb limit spatial_distance then Ok None else
  embedding ← detection_embedding d;
  if fltb (dot embedding (tp_embedding p)) SECONDARY_MATCH_THRESHOLD then Ok None
  else Ok (Some (fdiv spatial_distance limit)).

Definition _reentry_spatially_valid (inp : AssociationInput) (d : Detection) (t : PersonTelemetry)
    : result bool :=
  match pt_last_geometry t with
  | None => Err RuntimeError
  | Some last_geometry =>
      elapsed ← py_truediv (in_source_frame_index inp - pt_last_seen_frame t) (in_sample_interval inp);
      let elapsed_sample_periods := py_fmax (float_of_Z 1) elapsed in
      let spatial_distance := distance (det_centroid d) (lg_centroid last_geometry) in
      heights ← py_float_of_int (Z.max (height (det_bbox d)) (height (lg_bbox last_geometry)));
      let distance_limit :=
        py_fmax (fmul (in_max_centroid_displacement inp) elapsed_sample_periods)
                (fmul MIN_CENTROID_DISTANCE_BBOX_HEIGHTS heights) in
      Ok (fltb spatial_distance distance_limit)
  end.

(** ** The assignment *)

Definition any_finite (l : list Float) : bool := existsb fisfinite l.

(** Column [j] of a matrix. *)
Definition column (costs : list (list Float)) (j : nat) : list Float := omap (λ row, row !! j) costs.

Definition candidate_rows (costs : list (list Float)) : list nat :=
  fst <$> List.filter (λ x, any_finite x.2) (enumerate costs).
Definition candidate_columns (costs : list (list Float)) : list nat :=
  List.filter (λ j, any_finite (column costs j))
    (seq 0 (match costs with [] => 0 | row :: _ => length row end)).

(** [costs[i, j]]. *)
Definition entry (costs : list (list Float)) (i j : nat) : result Float :=
  row ← list_index costs i; list_index row j.

(** One matched pair, kept when its cost was finite. *)
Definition finite_pair (costs : list (list Float)) (rows columns : list nat) (m : nat * nat)
    : result (option (nat * nat)) :=
  i ← list_index rows m.1;
  j ← list_index columns m.2;
  c ← entry costs i j;
  Ok (if fisfinite c then Some (i, j) else None).

(** [np.where(np.isfinite(costs), costs, INVALID_ASSIGNMENT_COST)]. *)
Definition solver_costs (costs : list (list Float)) : list (list Float) :=
  (λ row : list Float, (λ c, if fisfinite c then c else INVALID_ASSIGNMENT_COST) <$> row) <$> costs.

Definition kept_pairs (l : list (option (nat * nat))) : list (nat * nat) := omap id l.

Definition _finite_assignments (costs : list (list Float)) : result (list (nat * nat)) :=
  let rows := candidate_rows costs in
  if bool_decide (length rows = 0%nat) then Ok [] else
  let columns := candidate_columns costs in
  filtered ← map_result (λ i, map_result (entry costs i) columns) rows;
  kept_pairs <$> map_result (finite_pair costs rows columns)
    (linear_sum_assignment (solver_costs filtered)).

(** A cost matrix: [cost] of each row and column, infinity where it gives None. *)
Definition cost_matrix {A B} (cost : nat → A → nat → B → result (option Float))
    (rows : list A) (columns : list B) : result (list (list Float)) :=
  map_result (λ ia : nat * A, map_result (λ jb : nat * B,
      c ← cost ia.1 ia.2 jb.1 jb.2; Ok (default np_inf c)) (enumerate columns)) (enumerate rows).

Definition score_at (sims : list (list Score)) (i j : nat) : result Score :=
  row ← list_index sims i; list_index row j.

(** [-similarities[i, j] if valid else np.inf]. *)
Definition similarity_cost (sims : list (list Score)) (valid : result bool) (i j : nat)
    : result (option Float) :=
  v ← valid;
  if v : bool then s ← score_at sims i j; Ok (Some (cost_of s)) else Ok None.

(** ** The steps of an association *)

Section steps.
Context (inp : AssociationInput).

Definition expire_inactive_identities : Assoc unit :=
  s ← tx_get;
  let ts := as_tracking s in
  let active_confirmed_ids := List.filter (λ id, (0 <? id)%Z) (ts_tracks ts).*1 in
  expired ← tx_lift (filter_result (λ id,
    if bool_decide (id ∈ active_confirmed_ids) then Ok false else
    t ← dindex id (ts_telemetry ts);
    Ok (in_max_reentry_frames inp <? in_source_frame_index inp - pt_last_seen_frame t)%Z)
    (ts_identities ts).*1);
  modify_tracking (λ ts, {| ts with ts_identities := fold_left (λ d id, ddel id d) expired (ts_identities ts) |}).

Definition _record_track_match (detection_index : nat) (original_track_id : Z) (embedding : Emb)
    (update_identity : bool) : Assoc unit :=
  detection ← tx_lift (list_index (in_detections inp) detection_index);
  s ← tx_get;
  previous_profile ← tx_lift (dindex original_track_id (ts_tracks (as_tracking s)));
  let hits := (tp_hits previous_profile + 1)%Z in
  track_id ←
    (if (original_track_id <? 0)%Z && (MIN_CONFIRMATION_FRAMES <=? hits)%Z then
       let track_id := ts_next_track_id (as_tracking s) in
       modify_tracking (λ ts, {| ts with ts_next_track_id := (track_id + 1)%Z |});;
       modify_tracking (set_identity track_id embedding);;
       modify_tracking (set_telemetry track_id
         {| pt_entry_frame := tp_first_seen_frame previous_profile;
            pt_last_seen_frame := in_source_frame_index inp;
            pt_last_geometry := Some (geometry_of detection) |});;
       mret track_id
     else if (0 <? original_track_id)%Z then
       (if update_identity then modify_tracking (set_identity original_track_id embedding) else mret tt);;
       t ← tx_lift (dindex original_track_id (ts_telemetry (as_tracking s)));
       modify_tracking (set_telemetry original_track_id
         (update_person_telemetry detection (in_source_frame_index inp) t));;
       mret original_track_id
     else mret original_track_id);
  set_updated track_id
    (make_track_profile detection embedding (tp_first_seen_frame previous_profile) hits);;
  tx_modify (λ s, {| s with
    as_matched_detection_indices := detection_index :: as_matched_detection_indices s;
    as_matched_track_ids := original_track_id :: as_matched_track_ids s |}).

Definition record_appearance_match (sims : list (list Score)) (detection_embeddings : list Emb)
    (active_track_ids : list Z) (m : nat * nat) : Assoc unit :=
  let '(detection_index, track_index) := m in
  similarity ← tx_lift (score_at sims detection_index track_index);
  if score_below similarity ACTIVE_MATCH_THRESHOLD then mret tt else
  track_id ← tx_lift (list_index active_track_ids track_index);
  s ← tx_get;
  profile ← tx_lift (dindex track_id (ts_tracks (as_tracking s)));
  current ← tx_lift (list_index detection_embeddings detection_index);
  embedding ← tx_lift (update_embedding (tp_embedding profile) current);
  _record_track_match detection_index track_id embedding true.

Definition assign_active_appearance_matches : Assoc unit :=
  s ← tx_get;
  let tracks := ts_tracks (as_tracking s) in
  let active_track_ids := tracks.*1 in
  if bool_decide (length (in_detections inp) = 0%nat) || bool_decide (length active_track_ids = 0%nat)
  then mret tt else
  detection_embeddings ← tx_lift (map_result detection_embedding (in_detections inp));
  active_embeddings ← tx_lift (map_result (λ id, tp_embedding <$> dindex id tracks) active_track_ids);
  let sims := similarity_matrix detection_embeddings active_embeddings in
  costs ← tx_lift (cost_matrix (λ i d j id,
      p ← dindex id tracks; similarity_cost sims (_active_spatially_valid inp d p) i j)
    (in_detections inp) active_track_ids);
  pairs ← tx_lift (_finite_assignments costs);
  tx_for (record_appearance_match sims detection_embeddings active_track_ids) pairs.

Definition _unmatched_activated_detections (s : AssociationState) : list nat :=
  fst <$> List.filter (λ x : nat * Detection,
      negb (bool_decide (x.1 ∈ as_matched_detection_indices s))
      && fleb (in_activation_threshold inp) (det_confidence x.2))
    (enumerate (in_detections inp)).

Definition record_secondary_match (detection_indices : list nat) (track_ids : list Z)
    (m : nat * nat) : Assoc unit :=
  detection_index ← tx_lift (list_index detection_indices m.1);
  track_id ← tx_lift (list_index track_ids m.2);
  s ← tx_get;
  profile ← tx_lift (dindex track_id (ts_tracks (as_tracking s)));
  _record_track_match detection_index track_id (tp_embedding profile) false.

Definition assign_spatial_secondary_matches : Assoc unit :=
  s ← tx_get;
  let tracks := ts_tracks (as_tracking s) in
  let detection_indices := _unmatched_activated_detections s in
  let track_ids := List.filter (λ id, negb (bool_decide (id ∈ as_matched_track_ids s))) tracks.*1 in
  if bool_decide (length detection_indices = 0%nat) || bool_decide (length track_ids = 0%nat)
  then mret tt else
  costs ← tx_lift (cost_matrix (λ _ index _ id,
      d ← list_index (in_detections inp) index; p ← dindex id tracks; _secondary_pair_cost inp d p)
    detection_indices track_ids);
  pairs ← tx_lift (_finite_assignments costs);
  tx_for (record_secondary_match detection_indices track_ids) pairs.

(** The identities that were not updated in this frame and are not matched to a track
    seen in the previous one. *)
Definition _reentry_identity_ids (s : AssociationState) : result (list Z) :=
  filter_result (λ id,
    if dmem id (as_updated_tracks s) then Ok false else
    if dmem id (ts_tracks (as_tracking s)) then
      p ← dindex id (ts_tracks (as_tracking s)); Ok (0 <? tp_age p)%Z
    else Ok true) (ts_identities (as_tracking s)).*1.

Definition _record_reentry_match (detection_index : nat) (track_id : Z) : Assoc unit :=
  detection ← tx_lift (list_index (in_detections inp) detection_index);
  s ← tx_get;
  identity ← tx_lift (dindex track_id (ts_identities (as_tracking s)));
  current ← tx_lift (detection_embedding detection);
  embedding ← tx_lift (update_embedding identity current);
  modify_tracking (set_identity track_id embedding);;
  t ← tx_lift (dindex track_id (ts_telemetry (as_tracking s)));
  set_updated track_id
    (make_track_profile detection embedding (pt_entry_frame t) MIN_CONFIRMATION_FRAMES);;
  modify_tracking (set_telemetry track_id
    (update_person_telemetry detection (in_source_frame_index inp) t));;
  tx_modify (λ s, {| s with
    as_matched_detection_indices := detection_index :: as_matched_detection_indices s |}).

Definition record_reentry_match (sims : list (list Score)) (detection_indices : list nat)
    (identity_ids : list Z) (m : nat * nat) : Assoc unit :=
  similarity ← tx_lift (score_at sims m.1 m.2);
  if score_below similarity REENTRY_MATCH_THRESHOLD then mret tt else
  detection_index ← tx_lift (list_index detection_indices m.1);
  track_id ← tx_lift (list_index identity_ids m.2);
  _record_reentry_match detection_index track_id.

Definition assign_reentry_matches : Assoc unit :=
  s ← tx_get;
  let ts := as_tracking s in
  let detection_indices := _unmatched_activated_detections s in
  identity_ids ← tx_lift (_reentry_identity_ids s);
  if bool_decide (length detection_indices = 0%nat) || bool_decide (length identity_ids = 0%nat)
  then mret tt else
  detection_embeddings ← tx_lift (map_result (λ index,
    d ← list_index (in_detections inp) index; detection_embedding d) detection_indices);
  identity_embeddings ← tx_lift (map_result (λ id, dindex id (ts_identities ts)) identity_ids);
  let sims := similarity_matrix detection_embeddings identity_embeddings in
  costs ← tx_lift (cost_matrix (λ i index j id,
      d ← list_index (in_detections inp) index; t ← dindex id (ts_telemetry ts);
      similarity_cost sims (_reentry_spatially_valid inp d t) i j)
    detection_indices identity_ids);
  pairs ← tx_lift (_finite_assignments costs);
  tx_for (record_reentry_match sims detection_indices identity_ids) pairs.

(** [any(...)], which stops at the first hit. *)
Fixpoint any_result {A} (p : A → result bool) (l : list A) : result bool :=
  match l with
  | [] => Ok false
  | x :: l' => b ← p x; if b : bool then Ok true else any_result p l'
  end.

Definition _overlaps_unmatched_track (s : AssociationState) (d : Detection) : result bool :=
  any_result (λ x : Z * TrackProfile,
    if bool_decide (x.1 ∈ as_matched_track_ids s) then Ok false else
    v ← _active_spatially_valid inp d x.2;
    if negb v then Ok false else
    embedding ← detection_embedding d;
    Ok (fleb SECONDARY_MATCH_THRESHOLD (dot embedding (tp_embedding x.2))))
    (ts_tracks (as_tracking s)).

Definition spawn_tentative_track (detection_index : nat) : Assoc unit :=
  detection ← tx_lift (list_index (in_detections inp) detection_index);
  s ← tx_get;
  overlaps ← tx_lift (_overlaps_unmatched_track s detection);
  if overlaps : bool then mret tt else
  embedding ← tx_lift (detection_embedding detection);
  set_updated (ts_next_tentative_id (as_tracking s))
    (make_track_profile detection embedding (in_source_frame_index inp) 1);;
  modify_tracking (λ ts, {| ts with ts_next_tentative_id := (ts_next_tentative_id ts - 1)%Z |}).

Definition spawn_tentative_tracks : Assoc unit :=
  s ← tx_get; tx_for spawn_tentative_track (_unmatched_activated_detections s).

Definition aged (p : TrackProfile) : TrackProfile := {| p with tp_age := (tp_age p + 1)%Z |}.

(** The profile object is shared between [tracks] and [updated_tracks]. *)
Definition age_unmatched_track (x : Z * TrackProfile) : Assoc unit :=
  s ← tx_get;
  if dmem x.1 (as_updated_tracks s) || bool_decide (x.1 ∈ as_matched_track_ids s) then mret tt else
  let profile := aged x.2 in
  modify_tracking (λ ts, {| ts with ts_tracks := dset x.1 profile (ts_tracks ts) |});;
  if (0 <? x.1)%Z && (tp_age profile <=? in_max_disappeared_frames inp)%Z
  then set_updated x.1 profile else mret tt.

Definition age_unmatched_tracks : Assoc unit :=
  s ← tx_get; tx_for age_unmatched_track (ts_tracks (as_tracking s)).

Definition association : Assoc unit :=
  expire_inactive_identities;;
  assign_active_appearance_matches;;
  assign_spatial_secondary_matches;;
  assign_reentry_matches;;
  spawn_tentative_tracks;;
  age_unmatched_tracks;;
  tx_modify (λ s, let ts := as_tracking s in
    {| s with as_tracking := {| ts with ts_tracks := as_updated_tracks s |} |}).
End steps.

(** [associate_detections] on the tracking state, which it mutates also when it raises. *)
Definition associate_detections (inp : AssociationInput) : tx RTDetrTrackingState unit := λ ts,
  let '(r, s) := association inp {| as_tracking := ts; as_updated_tracks := [];
    as_matched_detection_indices := []; as_matched_track_ids := [] |} in
  (r, as_tracking s).
End tracking.
End Tracking.
