(* ===== verification/TrackingInv.v ===== *)
(** * Tracking: documented errors and the invariant

    The matched pairs that [_finite_assignments] returns are in range and use each row
    and each column at most once; the helpers of an association raise RuntimeError (a
    missing embedding or geometry, a zero norm) or OverflowError (an int beyond the
    range of a float), and nothing else.  Then the invariant of the tracking state
    between two frames and during an association. *)
From S2P Require Export Prelude PyFloat PyRound PyDict VideoSampling Tracking.
Import Tracking.

Definition tracking_error (e : exn) : Prop := e = RuntimeError ∨ e = OverflowError.
Abbreviation soft r Q := (soft_result tracking_error r Q).

Lemma soft_triv {A} (r : result A) (Q : A → Prop) :
  (∀ a, Q a) → soft r (λ _, True) → soft r Q.
Proof. intros H. apply soft_mono. auto. Qed.

(** ** Lists *)

Lemma soft_list_index {A} (l : list A) i (x : A) (Q : A → Prop) :
  l !! i = Some x → Q x → soft (list_index l i) Q.
Proof. intros H HQ. unfold list_index. by rewrite H. Qed.

Lemma soft_dindex {K A} `{!EqDecision K} (k : K) (d : list (K * A)) (Q : A → Prop) a :
  dget k d = Some a → Q a → soft (dindex k d) Q.
Proof. intros H HQ. unfold dindex. by rewrite H. Qed.

Lemma soft_key {K A} `{!EqDecision K} (k : K) (d : list (K * A)) (Q : A → Prop) :
  k ∈ d.*1 → (∀ a, dget k d = Some a → Q a) → soft (dindex k d) Q.
Proof. intros [a Ha]%dget_is_Some HQ. unfold dindex. rewrite Ha. simpl. auto. Qed.

Lemma elem_enumerate {A} (l : list A) i x : (i, x) ∈ enumerate l ↔ l !! i = Some x.
Proof.
  unfold enumerate. rewrite elem_of_lookup_imap. split.
  - by intros (j & y & [= -> ->] & H).
  - intros H. by exists i, x.
Qed.

Lemma enumerate_NoDup {A} (l : list A) : (enumerate l).*1 = seq 0 (length l).
Proof.
  unfold enumerate. rewrite fmap_imap.
  apply list_eq. intros i. rewrite list_lookup_imap. simpl.
  destruct (l !! i) eqn:E; simpl.
  - apply lookup_lt_Some in E. symmetry. by apply lookup_seq.
  - apply lookup_ge_None in E. symmetry. by apply lookup_seq_ge.
Qed.

Lemma List_filter_sublist {A} (p : A → bool) l : sublist (List.filter p l) l.
Proof. induction l as [|x l IH]; simpl; [done|]. destruct (p x); by constructor. Qed.

(** ** Matrices *)

(** A matrix of [n] rows and [c] columns. *)
Definition shaped {A} (n c : nat) (m : list (list A)) : Prop :=
  length m = n ∧ Forall (λ row, length row = c) m.

Lemma shaped_entry {A} n c (m : list (list A)) i j (Q : A → Prop) :
  shaped n c m → (i < n)%nat → (j < c)%nat → (∀ x, Q x) →
  soft (row ← list_index m i; list_index row j) Q.
Proof.
  intros [<- Hc] Hi Hj HQ. apply soft_bind.
  destruct (lookup_lt_is_Some_2 m i Hi) as [row Hr].
  eapply soft_list_index; [exact Hr|].
  rewrite Forall_lookup in Hc. specialize (Hc _ _ Hr).
  destruct (lookup_lt_is_Some_2 row j) as [x Hx]; [lia|]. eapply soft_list_index; eauto.
Qed.

Lemma soft_rows {A B} (f : A → result (list B)) (l : list A) c :
  (∀ x, x ∈ l → soft (f x) (λ row, length row = c)) →
  soft (map_result f l) (shaped (length l) c).
Proof.
  intros H. eapply soft_mono; [|by apply (soft_map_result _ f (λ _ row, length row = c))].
  intros m Hm. split; [symmetry; by eapply Forall2_length|].
  apply Forall_lookup. intros i row Hr. by eapply Forall2_lookup_r in Hm as (?&?&?).
Qed.

Lemma soft_cells {A B} (f : A → result B) (l : list A) :
  (∀ x, x ∈ l → soft (f x) (λ _, True)) → soft (map_result f l) (λ row, length row = length l).
Proof.
  intros H. eapply soft_mono; [|by apply (soft_map_result _ f (λ _ _, True))].
  intros m Hm. symmetry. by eapply Forall2_length.
Qed.

Lemma soft_cost_matrix {A B} (cost : nat → A → nat → B → result (option Float)) rows columns :
  (∀ i a j b, rows !! i = Some a → columns !! j = Some b → soft (cost i a j b) (λ _, True)) →
  soft (cost_matrix cost rows columns) (shaped (length rows) (length columns)).
Proof.
  intros H. unfold cost_matrix.
  replace (length rows) with (length (enumerate rows)) by apply length_imap.
  apply soft_rows. intros [i a] Ha%elem_enumerate.
  eapply soft_mono; [|apply soft_cells].
  - intros row ->. apply length_imap.
  - intros [j b] Hb%elem_enumerate. apply soft_bind. by eapply soft_triv; [|eapply H].
Qed.

(** ** The finite assignment *)

(** Pairs of row and column indices: in range, no row and no column twice. *)
Definition matching (n c : nat) (pairs : list (nat * nat)) : Prop :=
  NoDup pairs.*1 ∧ NoDup pairs.*2 ∧ ∀ i j, (i, j) ∈ pairs → (i < n)%nat ∧ (j < c)%nat.

(** The selected pairs name rows and columns by their position in the candidates. *)
Definition selects (rows columns : list nat) (m : nat * nat) (o : option (nat * nat)) : Prop :=
  ∀ p, o = Some p → rows !! m.1 = Some p.1 ∧ columns !! m.2 = Some p.2.

Lemma kept_elem rows columns m l p :
  Forall2 (selects rows columns) m l → p ∈ kept_pairs l →
  ∃ q, q ∈ m ∧ rows !! q.1 = Some p.1 ∧ columns !! q.2 = Some p.2.
Proof.
  unfold kept_pairs. intros H. rewrite list_elem_of_omap. intros (o & Ho & E). simpl in E. subst.
  apply list_elem_of_lookup in Ho as [i Hi].
  eapply Forall2_lookup_r in H as (q & Hq & Hs); [|done]. exists q.
  split; [by eapply list_elem_of_lookup_2|by apply Hs].
Qed.

Lemma kept_matching rows columns m l :
  Forall2 (selects rows columns) m l → NoDup rows → NoDup columns → NoDup m.*1 → NoDup m.*2 →
  NoDup (kept_pairs l).*1 ∧ NoDup (kept_pairs l).*2.
Proof.
  intros H Hr Hc. induction H as [|q o m l Hq Hl IH]; csimpl; [intros _ _; split; constructor|].
  intros [H1 Hn1]%NoDup_cons [H2 Hn2]%NoDup_cons. destruct (IH Hn1 Hn2) as [IH1 IH2].
  destruct o as [p|]; [|done]. destruct (Hq p eq_refl) as [Ep1 Ep2]. csimpl.
  split; apply NoDup_cons; (split; [|done]); intros ([a b] & E & Hin)%list_elem_of_fmap; simpl in E; subst;
    destruct (kept_elem _ _ _ _ _ Hl Hin) as ([i j] & Hm & E1 & E2); simpl in *.
  - apply H1. rewrite (NoDup_lookup rows _ i _ Hr Ep1 E1). by apply (list_elem_of_fmap_2 fst) in Hm.
  - apply H2. rewrite (NoDup_lookup columns _ j _ Hc Ep2 E2). by apply (list_elem_of_fmap_2 snd) in Hm.
Qed.

Lemma candidate_row_lt costs i : i ∈ candidate_rows costs → (i < length costs)%nat.
Proof.
  unfold candidate_rows. intros ([j row] & -> & H)%list_elem_of_fmap.
  rewrite list_elem_of_In, filter_In, <-list_elem_of_In in H. destruct H as [H _].
  apply elem_enumerate in H. by apply lookup_lt_Some in H.
Qed.

Lemma candidate_column_lt costs n c j :
  shaped n c costs → j ∈ candidate_columns costs → (j < c)%nat.
Proof.
  unfold candidate_columns. intros [_ Hc] H.
  rewrite list_elem_of_In, filter_In, <-list_elem_of_In, elem_of_seq in H. destruct H as [H _].
  destruct costs as [|row costs]; [lia|]. apply Forall_cons_1 in Hc as [Hc _]. lia.
Qed.

Lemma candidates_NoDup costs : NoDup (candidate_rows costs) ∧ NoDup (candidate_columns costs).
Proof.
  split.
  - unfold candidate_rows. eapply sublist_NoDup; [|apply fmap_sublist, List_filter_sublist].
    rewrite enumerate_NoDup. apply NoDup_seq.
  - unfold candidate_columns. eapply sublist_NoDup; [|apply List_filter_sublist]. apply NoDup_seq.
Qed.

Section laws.
Context {N : Numerics} {L : NumericsLaws N}.

Lemma soft_finite_assignments costs n c :
  shaped n c costs → soft (_finite_assignments costs) (matching n c).
Proof.
  intros Hs. unfold _finite_assignments. case_bool_decide as Hrows.
  { simpl. split; [constructor|split; [constructor|]]. by intros i j ?%elem_of_nil. }
  set (rows := candidate_rows costs) in *. set (columns := candidate_columns costs).
  destruct (candidates_NoDup costs) as [HnR HnC]. fold rows in HnR. fold columns in HnC.
  assert (∀ i, i ∈ rows → (i < n)%nat) as HR
    by (intros i Hi; apply candidate_row_lt in Hi; destruct Hs; lia).
  assert (∀ j, j ∈ columns → (j < c)%nat) as HC by (intros j; by eapply candidate_column_lt).
  assert (∀ i j, i ∈ rows → j ∈ columns → soft (entry costs i j) (λ _, True)) as Hentry
    by (intros i j ??; eapply shaped_entry; eauto).
  apply soft_bind. eapply soft_mono; [|apply (soft_rows _ rows (length columns))].
  2:{ intros i Hi. apply soft_cells. auto. }
  intros filtered [Hf1 Hf2]. apply soft_fmap.
  assert (Forall (λ row, length row = length columns) (solver_costs filtered)) as Hsc.
  { unfold solver_costs. apply Forall_fmap. eapply Forall_impl; [exact Hf2|].
    intros row <-. simpl. apply length_fmap. }
  destruct (assignment_valid _ _ Hsc) as (Hm1 & Hm2 & Hm).
  assert (length (solver_costs filtered) = length rows) as Hlen
    by (unfold solver_costs; by rewrite length_fmap).
  eapply soft_mono; [|apply (soft_map_result _ _ (selects rows columns))].
  - intros l Hl. destruct (kept_matching _ _ _ _ Hl HnR HnC Hm1 Hm2) as [? ?]. split; [done|split; [done|]].
    intros i j Hij. destruct (kept_elem _ _ _ _ _ Hl Hij) as (q & _ & E1 & E2).
    split; [apply HR|apply HC]; by eapply list_elem_of_lookup_2.
  - intros [i j] Hij. destruct (Hm _ _ Hij) as [Hi Hj]. rewrite Hlen in Hi.
    destruct (lookup_lt_is_Some_2 rows i Hi) as [r Hr], (lookup_lt_is_Some_2 columns j Hj) as [k Hk].
    unfold finite_pair. apply soft_bind. eapply soft_list_index; [exact Hr|].
    apply soft_bind. eapply soft_list_index; [exact Hk|].
    apply soft_bind. eapply soft_triv; [|apply Hentry; by eapply list_elem_of_lookup_2].
    intros x. simpl. intros p Hp. destruct (fisfinite x); by simplify_eq/=.
Qed.

(** ** The numeric helpers *)

Lemma soft_float_of_int z Q : (∀ x, Q x) → soft (py_float_of_int z) Q.
Proof. intros HQ. unfold py_float_of_int. destruct (fisfinite _); simpl; [auto|by right]. Qed.

Lemma soft_detection_embedding d Q : (∀ x, Q x) → soft (detection_embedding d) Q.
Proof. intros HQ. unfold detection_embedding. destruct (det_embedding d); simpl; [auto|by left]. Qed.

Lemma soft_update_embedding a b Q : (∀ x, Q x) → soft (update_embedding a b) Q.
Proof. intros HQ. unfold update_embedding. destruct (feqb _ _); simpl; [by left|auto]. Qed.

Lemma soft_distance_limit d p a b Q : (∀ x, Q x) → soft (centroid_distance_limit d p a b) Q.
Proof.
  intros HQ. unfold centroid_distance_limit. apply soft_bind, soft_float_of_int. intros x.
  apply soft_bind, soft_float_of_int. intros y. simpl. auto.
Qed.

Lemma soft_active_valid inp d p Q : (∀ x, Q x) → soft (_active_spatially_valid inp d p) Q.
Proof. intros HQ. unfold _active_spatially_valid. apply soft_bind, soft_distance_limit. simpl. auto. Qed.

Lemma soft_secondary_cost inp d p Q : (∀ x, Q x) → soft (_secondary_pair_cost inp d p) Q.
Proof.
  intros HQ. unfold _secondary_pair_cost. apply soft_bind, soft_distance_limit. intros x. simpl.
  destruct (fleb _ _); [by simpl|]. apply soft_bind, soft_detection_embedding. intros e.
  destruct (fltb _ _); by simpl.
Qed.

Lemma soft_truediv a b Q : b ≠ 0%Z → (∀ x, Q x) → soft (py_truediv a b) Q.
Proof.
  intros Hb HQ. unfold py_truediv.
  repeat match goal with
    | |- context [if ?c then _ else _] => destruct c eqn:?
    | |- soft_result _ (Ok _) _ => simpl
    | |- soft_result _ (Err _) _ => simpl
    end; auto; try lia; by right.
Qed.

Lemma soft_reentry_valid inp d t Q :
  in_sample_interval inp ≠ 0%Z → (∀ x, Q x) → soft (_reentry_spatially_valid inp d t) Q.
Proof.
  intros Hi HQ. unfold _reentry_spatially_valid. destruct (pt_last_geometry t); [|simpl; by left].
  apply soft_bind, soft_truediv; [done|]. intros x. simpl.
  apply soft_bind, soft_float_of_int. simpl. auto.
Qed.

Lemma soft_similarity_cost n c sims v i j :
  shaped n c sims → (i < n)%nat → (j < c)%nat → soft v (λ _, True) →
  soft (similarity_cost sims v i j) (λ _, True).
Proof.
  intros Hs Hi Hj Hv. unfold similarity_cost. apply soft_bind.
  eapply soft_mono; [|exact Hv]. intros [] _; [|done].
  apply soft_bind. by eapply shaped_entry.
Qed.

Lemma soft_any {A} (p : A → result bool) l :
  (∀ x, x ∈ l → soft (p x) (λ _, True)) → soft (any_result p l) (λ _, True).
Proof.
  induction l as [|x l IH]; intros H; simpl; [done|]. apply soft_bind.
  eapply soft_mono; [|apply H; left]. intros [] _; [done|]. apply IH. intros y Hy. apply H. by right.
Qed.

Lemma soft_overlaps inp s d : soft (_overlaps_unmatched_track inp s d) (λ _, True).
Proof.
  apply soft_any. intros [id p] _. simpl. case_bool_decide; [done|].
  apply soft_bind, soft_active_valid. intros []; simpl; [|done].
  by apply soft_bind, soft_detection_embedding.
Qed.

Lemma soft_filter {A} (p : A → result bool) l :
  (∀ x, x ∈ l → soft (p x) (λ _, True)) →
  soft (filter_result p l) (λ k, sublist k l ∧ ∀ x, x ∈ k → p x = Ok true).
Proof.
  intros H. apply soft_true.
  - induction l as [|x l IH]; simpl; [done|]. apply soft_bind.
    eapply soft_mono; [|apply H; left]. intros b _. apply soft_bind.
    eapply soft_triv; [done|]. apply IH. intros y Hy. apply H. by right.
  - intros k Hk. by apply filter_result_Ok in Hk as (?&?&_).
Qed.

(** The similarities of two lists of embeddings, one per element of [l] and [k]. *)
Lemma similarity_shaped a b : shaped (length a) (length b) (similarity_matrix a b).
Proof. apply matrix_shape. Qed.
End laws.

(** ** Tracking: the state between two sampled frames and during an association

    [tracking_ok f] says what the tracking state satisfies after frame [f]; [mid] what
    it satisfies while the frame is processed, with the list of pairs (track, detection)
    matched so far; [mid_add] is the one step that all matches have in common. *)
Import Video Tracking.
Local Open Scope Z_scope.

Section inv.
Context {N : Numerics}.
Implicit Types (ts : RTDetrTrackingState) (s : AssociationState) (p : TrackProfile).

Definition profile_geometry p : LastGeometry :=
  {| lg_centroid := tp_centroid p; lg_bbox := tp_bbox p |}.

(** Persons are numbered from 1 in the order of their confirmation; an identity belongs
    to a person; a person was seen before and no later than frame [f]. *)
Record ids_ok (f : Z) ts : Prop := {
  ids_next : 1 ≤ ts_next_track_id ts;
  ids_tent : ts_next_tentative_id ts ≤ -1;
  ids_telemetry : (ts_telemetry ts).*1 = seqZ 1 (ts_next_track_id ts - 1);
  ids_identities : NoDup (ts_identities ts).*1;
  ids_persons id : id ∈ (ts_identities ts).*1 → 1 ≤ id < ts_next_track_id ts;
  ids_seen id t : dget id (ts_telemetry ts) = Some t →
    pt_entry_frame t < pt_last_seen_frame t ≤ f ∧ is_Some (pt_last_geometry t);
}.

(** A confirmed track (positive id) has an identity and agrees with its telemetry; a
    tentative one (negative id) was seen once, in frame [f]. *)
Definition confirmed_ok (f dis : Z) ts (id : Z) p : Prop :=
  0 < id ∧ id ∈ (ts_identities ts).*1 ∧ MIN_CONFIRMATION_FRAMES ≤ tp_hits p ∧
  0 ≤ tp_age p ∧ (0 < tp_age p → tp_age p ≤ dis) ∧
  ∃ t, dget id (ts_telemetry ts) = Some t ∧ pt_entry_frame t = tp_first_seen_frame p ∧
    pt_last_geometry t = Some (profile_geometry p) ∧
    (tp_age p = 0 ↔ pt_last_seen_frame t = f).
Definition tentative_ok (f : Z) ts (id : Z) p : Prop :=
  ts_next_tentative_id ts < id < 0 ∧ tp_hits p = 1 ∧ tp_age p = 0 ∧ tp_first_seen_frame p = f.
Definition track_ok (f dis : Z) ts (id : Z) p : Prop :=
  confirmed_ok f dis ts id p ∨ tentative_ok f ts id p.

Record tracking_ok (f dis : Z) ts : Prop := {
  ok_ids : ids_ok f ts;
  ok_keys : NoDup (ts_tracks ts).*1;
  ok_track id p : dget id (ts_tracks ts) = Some p → track_ok f dis ts id p;
}.

Lemma ids_dom f ts id : ids_ok f ts → id ∈ (ts_telemetry ts).*1 ↔ 1 ≤ id < ts_next_track_id ts.
Proof. intros H. rewrite (ids_telemetry _ _ H), elem_of_seqZ. lia. Qed.

Lemma fresh_tracking_ok f dis : tracking_ok f dis fresh_tracking.
Proof. split; [split; simpl; try lia; try done; [constructor|by intros ? ?%elem_of_nil]|constructor|done]. Qed.

Lemma ids_ok_mono f f' ts : f ≤ f' → ids_ok f ts → ids_ok f' ts.
Proof. intros Hf []; split; try done. intros id t Ht. destruct (ids_seen0 _ _ Ht). split; [lia|done]. Qed.

Lemma track_ok_id f dis ts id p : ids_ok f ts → track_ok f dis ts id p → id < ts_next_track_id ts.
Proof.
  intros Hi [(Hp&H&_)|(H&_)]; [by apply (ids_persons _ _ Hi) in H as [_ ?]|]. pose proof (ids_next _ _ Hi). lia.
Qed.

(** ** A step of the association: person or tentative track [k] is seen *)

Record extends (f0 f k : Z) ts ts' : Prop := {
  ex_ids : ids_ok f ts';
  ex_tracks : ts_tracks ts' = ts_tracks ts;
  ex_next : ts_next_track_id ts ≤ ts_next_track_id ts';
  ex_new id : ts_next_track_id ts ≤ id < ts_next_track_id ts' → id = k;
  ex_tent : ts_next_tentative_id ts' ≤ ts_next_tentative_id ts;
  ex_identities id : id ∈ (ts_identities ts).*1 → id ∈ (ts_identities ts').*1;
  ex_other id : id ≠ k → dget id (ts_telemetry ts') = dget id (ts_telemetry ts);
  ex_seen t : dget k (ts_telemetry ts) = Some t → ∃ t', dget k (ts_telemetry ts') = Some t' ∧
    pt_entry_frame t' = pt_entry_frame t ∧ pt_last_seen_frame t' = f;
  ex_first t : dget k (ts_telemetry ts) = None → dget k (ts_telemetry ts') = Some t →
    pt_entry_frame t = f0 ∧ pt_last_seen_frame t = f;
}.

Lemma track_ok_extends f0 f dis k ts ts' id p :
  extends f0 f k ts ts' → id ≠ k → track_ok f dis ts id p → track_ok f dis ts' id p.
Proof.
  intros He Hk [(H1&H2&H3&H4&H5&t&H6)|(H1&H)].
  - left. split; [done|]. split; [by apply (ex_identities _ _ _ _ _ He)|].
    do 3 (split; [done|]). exists t. by rewrite (ex_other _ _ _ _ _ He id Hk).
  - right. split; [|done]. pose proof (ex_tent _ _ _ _ _ He). lia.
Qed.

(** ** During an association *)

Section mid.
Context (inp : AssociationInput) (f0 : Z) (ts0 : RTDetrTrackingState).
Let f : Z := in_source_frame_index inp.
Let dis : Z := in_max_disappeared_frames inp.

(** [A] pairs the updated tracks with the detections they were seen as; [X] holds the
    indices of detections that started a tentative track. *)
Record mid s (A : list (Z * nat)) (X : list nat) : Prop := {
  m_tracks : ts_tracks (as_tracking s) = ts_tracks ts0;
  m_ids : ids_ok f (as_tracking s);
  m_next : ts_next_track_id ts0 ≤ ts_next_track_id (as_tracking s);
  m_tent : ts_next_tentative_id (as_tracking s) ≤ ts_next_tentative_id ts0;
  m_keys : (as_updated_tracks s).*1 = A.*1;
  m_rows : NoDup A.*1;
  m_columns : NoDup A.*2;
  m_seen id i : (id, i) ∈ A → ∃ d p, in_detections inp !! i = Some d ∧
    dget id (as_updated_tracks s) = Some p ∧ profile_geometry p = geometry_of d ∧
    tp_age p = 0 ∧ track_ok f dis (as_tracking s) id p;
  m_matched id i : (id, i) ∈ A → i ∈ as_matched_detection_indices s ∨ i ∈ X;
  m_old id t0 : dget id (ts_telemetry ts0) = Some t0 →
    ∃ t, dget id (ts_telemetry (as_tracking s)) = Some t ∧ pt_entry_frame t = pt_entry_frame t0 ∧
      (t = t0 ∨ pt_last_seen_frame t = f) ∧ (id ∉ A.*1 → t = t0);
  m_new id t : ts_next_track_id ts0 ≤ id → dget id (ts_telemetry (as_tracking s)) = Some t →
    id ∈ A.*1 ∧ pt_entry_frame t = f0 ∧ pt_last_seen_frame t = f;
  m_active id : id ∈ (ts_tracks ts0).*1 → 0 < id → id ∈ (ts_identities (as_tracking s)).*1;
}.

Lemma mid_id_lt s A X id : mid s A X → id ∈ A.*1 → id < ts_next_track_id (as_tracking s).
Proof.
  intros H ([a i] & E & Hin)%list_elem_of_fmap. simpl in E. subst.
  destruct (m_seen _ _ _ H _ _ Hin) as (d&p&_&_&_&_&Hp). eapply track_ok_id; eauto using m_ids.
Qed.

(** Unless it is tentative, an updated track has a place above the next tentative id. *)
Lemma mid_id_gt s A X id : mid s A X → id ∈ A.*1 → ts_next_tentative_id (as_tracking s) < id.
Proof.
  intros H ([a i] & E & Hin)%list_elem_of_fmap. simpl in E. subst.
  destruct (m_seen _ _ _ H _ _ Hin) as (d&p&_&_&_&_&[(Hp&_)|(Hp&_)]); [|lia].
  pose proof (ids_tent _ _ (m_ids _ _ _ H)). lia.
Qed.

Lemma mid_add s s' A X X' k i d p :
  mid s A X → k ∉ A.*1 → i ∉ A.*2 → in_detections inp !! i = Some d →
  extends f0 f k (as_tracking s) (as_tracking s') →
  as_updated_tracks s' = dset k p (as_updated_tracks s) →
  profile_geometry p = geometry_of d → tp_age p = 0 → track_ok f dis (as_tracking s') k p →
  (∀ j, j ∈ as_matched_detection_indices s ∨ j ∈ X → j ∈ as_matched_detection_indices s' ∨ j ∈ X') →
  (i ∈ as_matched_detection_indices s' ∨ i ∈ X') →
  mid s' (A ++ [(k, i)]) X'.
Proof.
  intros H Hk Hi Hd He Hu Hg Ha Hp HX HXi.
  assert (∀ id, id ∈ (A ++ [(k, i)]).*1 ↔ id ∈ A.*1 ∨ id = k) as Hdom
    by (intros id; rewrite fmap_app; set_solver).
  split.
  - rewrite (ex_tracks _ _ _ _ _ He). apply H.
  - apply He.
  - etrans; [apply (m_next _ _ _ H)|apply (ex_next _ _ _ _ _ He)].
  - etrans; [apply (ex_tent _ _ _ _ _ He)|apply (m_tent _ _ _ H)].
  - rewrite Hu, dset_keys_new, (m_keys _ _ _ H), fmap_app; [done|]. by rewrite (m_keys _ _ _ H).
  - rewrite fmap_app. apply NoDup_app. split; [apply H|]. split; [|apply NoDup_singleton]. set_solver.
  - rewrite fmap_app. apply NoDup_app. split; [apply H|]. split; [|apply NoDup_singleton]. set_solver.
  - intros id j [Hin|Hin%list_elem_of_singleton]%elem_of_app.
    + destruct (m_seen _ _ _ H _ _ Hin) as (d'&p'&H1&H2&H3&H4&H5).
      assert (id ≠ k) as Hne by (intros ->; apply Hk; by apply (list_elem_of_fmap_2 fst) in Hin).
      exists d', p'. rewrite Hu, dget_dset_ne by done. eauto 10 using track_ok_extends.
    + injection Hin as -> ->. exists d, p. rewrite Hu, dget_dset_eq. done.
  - intros id j [Hin|Hin%list_elem_of_singleton]%elem_of_app.
    + eapply HX, H, Hin.
    + by injection Hin as -> ->.
  - intros id t0 Ht0. destruct (m_old _ _ _ H _ _ Ht0) as (t&H1&H2&H3&H4).
    destruct (decide (id = k)) as [->|Hne].
    + destruct (ex_seen _ _ _ _ _ He _ H1) as (t'&E1&E2&E3). exists t'.
      split; [done|]. split; [congruence|]. split; [by right|]. intros Hn. exfalso. apply Hn, Hdom. by right.
    + exists t. rewrite (ex_other _ _ _ _ _ He id Hne). do 3 (split; [done|]).
      intros Hn. apply H4. intros Hin. apply Hn, Hdom. by left.
  - intros id t Hid Ht. rewrite Hdom. destruct (decide (id = k)) as [->|Hne].
    + split; [by right|]. destruct (dget k (ts_telemetry (as_tracking s))) as [t0|] eqn:E.
      * by destruct (m_new _ _ _ H _ _ Hid E) as [? _].
      * by apply (ex_first _ _ _ _ _ He).
    + rewrite (ex_other _ _ _ _ _ He id Hne) in Ht. destruct (m_new _ _ _ H _ _ Hid Ht) as (?&?&?). auto.
  - intros id Hid Hpos. apply He. by apply H.
Qed.
End mid.
End inv.
