(* ===== verification/TrackingTheorems.v ===== *)
(** * Tracking: associations keep the invariant

    Each loop walks a matching of detections with tracks (or identities) that are still
    free, so no track and no detection is used twice and no lookup fails.  Then what
    one frame and a whole video guarantee. *)
From S2P Require Export Prelude PyFloat PyRound PyDict VideoSampling Tracking TrackingInv.
Import Video Tracking.
Local Open Scope Z_scope.

(** The next statement looks up a value that is known to be there. *)
Ltac wp_known tac := apply wp_bind; eapply wp_lift_Ok; [tac|cbv beta].
(** The next statement calls a helper that returns or raises a tracking error. *)
Ltac wp_soft := apply wp_bind; apply wp_lift; eapply soft_mono.

Abbreviation safe m Q s := (wp tracking_error m Q s).

Section steps.
Context {N : Numerics} {L : NumericsLaws N}.
Implicit Types (s : AssociationState) (A : list (Z * nat)).

(** A person is seen: its telemetry moves to this frame, or starts. *)
Lemma extends_person f0 f k e t' ts ts' :
  ids_ok f ts → ts_tracks ts' = ts_tracks ts →
  ts_next_tentative_id ts' = ts_next_tentative_id ts →
  ts_telemetry ts' = dset k t' (ts_telemetry ts) →
  (ts_identities ts' = ts_identities ts ∨ ts_identities ts' = dset k e (ts_identities ts)) →
  ((ts_next_track_id ts' = ts_next_track_id ts ∧
      ∃ t, dget k (ts_telemetry ts) = Some t ∧ pt_entry_frame t' = pt_entry_frame t) ∨
   (ts_next_track_id ts' = ts_next_track_id ts + 1 ∧ k = ts_next_track_id ts ∧ pt_entry_frame t' = f0)) →
  pt_last_seen_frame t' = f → pt_entry_frame t' < f → is_Some (pt_last_geometry t') →
  extends f0 f k ts ts'.
Proof.
  intros Hi Ht Hn Htel Hids Hk Hl He Hg.
  assert (ts_next_track_id ts' = ts_next_track_id ts ∧ k ∈ (ts_telemetry ts).*1 ∨
    ts_next_track_id ts' = ts_next_track_id ts + 1 ∧ k = ts_next_track_id ts) as Hk'.
  { destruct Hk as [(?&t&E&_)|(?&?&_)]; [left|by right]. split; [done|]. apply dget_is_Some. by eexists. }
  pose proof (ids_next _ _ Hi). assert (1 ≤ k < ts_next_track_id ts') as Hkr
    by (destruct Hk' as [(->&?%(ids_dom f))|(->&->)]; [done|done|lia]).
  assert (∀ id, id ∈ (ts_identities ts').*1 → id = k ∨ id ∈ (ts_identities ts).*1) as Hsub
    by (intros id; destruct Hids as [->| ->]; [by right|by rewrite dset_keys]).
  split; [split|..].
  - destruct Hk' as [(->&?)|(->&->)]; lia.
  - rewrite Hn. apply Hi.
  - rewrite Htel. destruct Hk' as [(->&Hin)|(->&->)].
    + rewrite dset_keys_old by done. apply Hi.
    + rewrite dset_keys_new by (rewrite (ids_dom f) by done; lia). rewrite (ids_telemetry _ _ Hi).
      replace (ts_next_track_id ts + 1 - 1) with (ts_next_track_id ts - 1 + 1) by lia.
      rewrite seqZ_app by lia. f_equal. rewrite seqZ_cons, seqZ_nil by lia. f_equal. lia.
  - destruct Hids as [->| ->]; [apply Hi|]. apply dset_NoDup, Hi.
  - intros id [->|Hin]%Hsub; [done|]. apply (ids_persons _ _ Hi) in Hin. destruct Hk' as [(->&_)|(->&_)]; lia.
  - intros id t. rewrite Htel, dget_dset. case_decide as Hd; [|apply Hi].
    intros [= <-]. split; [lia|done].
  - done.
  - destruct Hk' as [(->&_)|(->&_)]; lia.
  - intros id Hid. destruct Hk' as [(E&_)|(E&->)]; lia.
  - lia.
  - intros id Hin. destruct Hids as [->| ->]; [done|]. rewrite dset_keys. by right.
  - intros id Hne. rewrite Htel. by apply dget_dset_ne.
  - intros t Hk1. exists t'. rewrite Htel, dget_dset_eq. split; [done|]. split; [|done].
    destruct Hk as [(_&t1&E&?)|(_&->&_)]; [congruence|].
    assert (ts_next_track_id ts ∈ (ts_telemetry ts).*1) as Hin%(ids_dom f) by (apply dget_is_Some; by eexists); [lia|done].
  - intros t Hnone. rewrite Htel, dget_dset_eq. intros [= <-]. split; [|done].
    destruct Hk as [(_&t1&E&_)|(_&_&?)]; congruence.
Qed.

Section frame.
Context (inp : AssociationInput) (f0 : Z) (ts0 : RTDetrTrackingState).
Let f : Z := in_source_frame_index inp.
Let dis : Z := in_max_disappeared_frames inp.
Context (Hf : f0 < f) (Hinterval : in_sample_interval inp ≠ 0) (Hok : tracking_ok f0 dis ts0).

Abbreviation mid := (mid inp f0 ts0).

(** Person [k] is seen as detection [i]. *)
Lemma mid_person s s' A X i d k e t' p :
  mid s A X → k ∉ A.*1 → i ∉ A.*2 → in_detections inp !! i = Some d →
  let ts := as_tracking s in let ts' := as_tracking s' in
  ts_tracks ts' = ts_tracks ts → ts_next_tentative_id ts' = ts_next_tentative_id ts →
  ts_telemetry ts' = dset k t' (ts_telemetry ts) →
  (ts_identities ts' = ts_identities ts ∧ k ∈ (ts_identities ts).*1 ∨
   ts_identities ts' = dset k e (ts_identities ts)) →
  ((ts_next_track_id ts' = ts_next_track_id ts ∧
      ∃ t, dget k (ts_telemetry ts) = Some t ∧ pt_entry_frame t' = pt_entry_frame t) ∨
   (ts_next_track_id ts' = ts_next_track_id ts + 1 ∧ k = ts_next_track_id ts ∧ pt_entry_frame t' = f0)) →
  pt_last_seen_frame t' = f → pt_entry_frame t' < f → pt_last_geometry t' = Some (geometry_of d) →
  as_updated_tracks s' = dset k p (as_updated_tracks s) →
  profile_geometry p = geometry_of d → tp_age p = 0 → MIN_CONFIRMATION_FRAMES ≤ tp_hits p →
  tp_first_seen_frame p = pt_entry_frame t' →
  as_matched_detection_indices s' = i :: as_matched_detection_indices s →
  mid s' (A ++ [(k, i)]) X.
Proof.
  intros H Hk Hi Hd ts ts' Ht Hn Htel Hids Hnext Hl He Hg Hu Hp Ha Hh Hfs Hm. subst ts ts'.
  assert (extends f0 f k (as_tracking s) (as_tracking s')) as Hext.
  { eapply extends_person; [apply H|done..| |done|done|done|by rewrite Hg]. destruct Hids as [[-> _]|]; [by left|by right]. }
  eapply (mid_add inp f0 ts0 s s' A X X); [done..| |rewrite Hm; set_solver|rewrite Hm; set_solver].
  pose proof (ids_dom f (as_tracking s') k (ex_ids _ _ _ _ _ Hext)) as Hdom.
  assert (1 ≤ k) as Hpos by (apply Hdom, dget_is_Some; rewrite Htel, dget_dset_eq; by eexists).
  left. split; [lia|]. split.
  { destruct Hids as [[E ?]|E]; rewrite E; [done|]. rewrite dset_keys. by left. }
  split; [done|]. split; [lia|]. split; [lia|].
  exists t'. rewrite Htel, dget_dset_eq. rewrite Hg, Hp. done.
Qed.

(** The updated tracks are the matched ones and the new persons. *)
Definition matched_only s A : Prop := ∀ id, id ∈ A.*1 → id < ts_next_track_id ts0 → id ∈ as_matched_track_ids s.

Lemma free_detection s A X i : mid s A X → i ∉ as_matched_detection_indices s → i ∉ X → i ∉ A.*2.
Proof.
  intros H Hi HX ([k j] & E & Hin)%list_elem_of_fmap. simpl in E. subst.
  apply (m_matched _ _ _ _ _ _ H) in Hin. tauto.
Qed.

Lemma record_track_match_safe i id e upd s A d p0 :
  mid s A [] → matched_only s A → in_detections inp !! i = Some d →
  i ∉ as_matched_detection_indices s →
  dget id (ts_tracks ts0) = Some p0 → id ∉ as_matched_track_ids s →
  safe (_record_track_match inp i id e upd) (λ _ s', (∃ k, mid s' (A ++ [(k, i)]) [] ∧
      matched_only s' (A ++ [(k, i)])) ∧
    as_matched_detection_indices s' = i :: as_matched_detection_indices s ∧
    as_matched_track_ids s' = id :: as_matched_track_ids s) s.
Proof.
  intros H Hm Hd Hi Hp0 Hid. unfold _record_track_match.
  wp_known ltac:(unfold list_index; by rewrite Hd). apply wp_bind, wp_get. cbv beta.
  wp_known ltac:(rewrite (m_tracks _ _ _ _ _ _ H); by apply dindex_Ok).
  pose proof (free_detection _ _ _ _ H Hi (not_elem_of_nil _)) as HiA.
  destruct (ok_track _ _ _ Hok _ _ Hp0) as [(Hpos&Hident&Hhits&Hage&_&t0&Ht0&Hent&_)|(Hneg&Hhits&Hage&Hfirst)].
  - assert ((id <? 0) = false) as -> by lia. assert ((0 <? id) = true) as -> by lia.
    simpl. destruct (m_old _ _ _ _ _ _ H _ _ Ht0) as (t&Ht&Het&_).
    pose proof (ids_seen _ _ (ok_ids _ _ _ Hok) _ _ Ht0) as [Hseen _].
    assert (id < ts_next_track_id ts0) as Hlt by (eapply (ids_persons f0); [apply Hok|done]).
    assert (id ∉ A.*1) as HidA by (intros Hin; by apply Hid, Hm).
    assert (id ∈ (ts_identities (as_tracking s)).*1) as Hids
      by (apply (m_active _ _ _ _ _ _ H); [apply dget_is_Some; by eexists|done]).
    destruct upd; apply wp_bind; apply wp_bind; [apply wp_modify|apply wp_ret];
      wp_known ltac:(apply dindex_Ok; exact Ht); apply wp_bind, wp_modify; apply wp_ret;
      apply wp_bind, wp_modify; apply wp_modify; (split; [|done]); exists id;
      (split; [eapply (mid_person s _ A [] _ _ _ e); simpl; eauto; [cbn; lia|cbn; lia|cbn; congruence]
              |intros j; rewrite fmap_app; simpl; rewrite elem_of_app, list_elem_of_singleton, elem_of_cons;
               intros [Hj| ->]; [right; by apply Hm|by left]]).
  - assert ((id <? 0) = true) as -> by lia.
    assert ((MIN_CONFIRMATION_FRAMES <=? tp_hits p0 + 1) = true) as -> by (rewrite Hhits; done).
    simpl. assert (ts_next_track_id (as_tracking s) ∉ A.*1) as HkA
      by (intros Hin; eapply mid_id_lt in Hin; [|done]; lia).
    apply wp_bind. do 3 (apply wp_bind, wp_modify). apply wp_ret.
    apply wp_bind, wp_modify; apply wp_modify. split; [|done]. eexists. split.
    + eapply (mid_person s _ A [] _ _ _ e); simpl; eauto; [cbn; lia|unfold MIN_CONFIRMATION_FRAMES; cbn; lia].
    + intros j. rewrite fmap_app. simpl. rewrite elem_of_app, list_elem_of_singleton, elem_of_cons.
      intros [Hj| ->] Hlt; [right; by apply Hm|].
      pose proof (m_next _ _ _ _ _ _ H). lia.
Qed.

(** ** The matching loops *)

(** After the pairs [done] of a matching of detections [ds] with keys [ks], the
    detections matched and the keys used since the loop began in [s0] are among those. *)
Definition loop_ok (Inv : AssociationState → Prop) (used : AssociationState → list Z)
    (ds : list nat) (ks : list Z) s0 (done : list (nat * nat)) s : Prop :=
  Inv s ∧
  (∀ i, i ∈ as_matched_detection_indices s → i ∈ as_matched_detection_indices s0 ∨
    (∃ m, m ∈ done ∧ ds !! m.1 = Some i)) ∧
  (∀ k, k ∈ used s → k ∈ used s0 ∨ (∃ m, m ∈ done ∧ ks !! m.2 = Some k)).

(** The lists of a loop: without duplicates, and free when it begins. *)
Definition loop_lists (used : AssociationState → list Z) (ds : list nat) (ks : list Z) s0 : Prop :=
  NoDup ds ∧ NoDup ks ∧
  (∀ i, i ∈ ds → is_Some (in_detections inp !! i) ∧ i ∉ as_matched_detection_indices s0) ∧
  (∀ k, k ∈ ks → k ∉ used s0).

Lemma loop_free Inv used ds ks s0 done m rest s :
  loop_ok Inv used ds ks s0 done s → loop_lists used ds ks s0 →
  matching (length ds) (length ks) (done ++ m :: rest) →
  ∃ i k d, ds !! m.1 = Some i ∧ ks !! m.2 = Some k ∧ k ∈ ks ∧ in_detections inp !! i = Some d ∧
    (i ∉ as_matched_detection_indices s) ∧ (k ∉ used s).
Proof.
  intros [_ [Hd Hk]] (Hnd&Hnk&Hfd&Hfk) (Hr&Hc&Hin). destruct m as [row column].
  destruct (Hin row column) as [Hi Hj]; [set_solver|].
  rewrite fmap_app in Hr, Hc. apply NoDup_app in Hr as (_&Hr&_), Hc as (_&Hc&_).
  destruct (lookup_lt_is_Some_2 ds row Hi) as [i Ei], (lookup_lt_is_Some_2 ks column Hj) as [k Ek].
  assert (i ∈ ds) as Hids by (by eapply list_elem_of_lookup_2).
  assert (k ∈ ks) as Hkks by (by eapply list_elem_of_lookup_2).
  destruct (Hfd i Hids) as [[d Ed] Hni]. exists i, k, d. do 4 (split; [done|]). split.
  - intros [Hq|([r c]&Hq&E)]%Hd; [done|]. simpl in E.
    apply (Hr r); [by apply (list_elem_of_fmap_2 fst) in Hq|]. csimpl.
    rewrite (NoDup_lookup ds _ _ _ Hnd E Ei). left.
  - intros [Hq|([r c]&Hq&E)]%Hk; [by apply (Hfk k)|]. simpl in E.
    apply (Hc c); [by apply (list_elem_of_fmap_2 snd) in Hq|]. csimpl.
    rewrite (NoDup_lookup ks _ _ _ Hnk E Ek). left.
Qed.

Lemma loop_record Inv used ds ks s0 done m s s' i k :
  loop_ok Inv used ds ks s0 done s → ds !! m.1 = Some i → ks !! m.2 = Some k →
  Inv s' → as_matched_detection_indices s' = i :: as_matched_detection_indices s →
  (∀ j, j ∈ used s' → j = k ∨ j ∈ used s) → loop_ok Inv used ds ks s0 (done ++ [m]) s'.
Proof.
  intros [_ [Hd Hk]] Ei Ek HI Em Hu. split; [done|]. rewrite Em. split.
  - intros j [->|Hj]%elem_of_cons; [right; exists m; set_solver|].
    apply Hd in Hj as [?|(q&?&?)]; [by left|right; exists q; set_solver].
  - intros j [->|Hj]%Hu; [right; exists m; set_solver|].
    apply Hk in Hj as [?|(q&?&?)]; [by left|right; exists q; set_solver].
Qed.

Lemma loop_skip Inv used ds ks s0 done s m :
  loop_ok Inv used ds ks s0 done s → loop_ok Inv used ds ks s0 (done ++ [m]) s.
Proof.
  intros [HI [Hd Hk]]. split; [done|]. split.
  - intros i Hi. apply Hd in Hi as [?|(q&?&?)]; [by left|right; exists q; set_solver].
  - intros i Hi. apply Hk in Hi as [?|(q&?&?)]; [by left|right; exists q; set_solver].
Qed.

Lemma loop_start (Inv : AssociationState → Prop) used ds ks s : Inv s → loop_ok Inv used ds ks s [] s.
Proof. intros H. split; [done|]. split; auto. Qed.

Lemma unmatched_detections s i :
  i ∈ _unmatched_activated_detections inp s →
  is_Some (in_detections inp !! i) ∧ i ∉ as_matched_detection_indices s.
Proof.
  unfold _unmatched_activated_detections. intros ([j d] & -> & H)%list_elem_of_fmap.
  rewrite list_elem_of_In, filter_In, <-list_elem_of_In, elem_enumerate in H.
  destruct H as [H [H1 _]%andb_true_iff]. simpl in *. split; [by eexists|].
  by apply negb_true_iff, bool_decide_eq_false in H1.
Qed.

Lemma unmatched_NoDup s : NoDup (_unmatched_activated_detections inp s).
Proof.
  unfold _unmatched_activated_detections. eapply sublist_NoDup; [|apply fmap_sublist, List_filter_sublist].
  rewrite enumerate_NoDup. apply NoDup_seq.
Qed.

Definition step_ok s : Prop := ∃ A, mid s A [] ∧ matched_only s A.

(** An active track keeps its profile until it is aged. *)
Lemma active_profile s A X k : mid s A X → k ∈ (ts_tracks ts0).*1 →
  ∃ p, dget k (ts_tracks ts0) = Some p ∧ dindex k (ts_tracks (as_tracking s)) = Ok p.
Proof.
  intros H [p Hp]%dget_is_Some. exists p. rewrite (m_tracks _ _ _ _ _ _ H). split; [done|]. by apply dindex_Ok.
Qed.
(** ** Matches with the active tracks *)

Lemma record_match_safe ds ks s0 done m rest s e upd i k :
  loop_ok step_ok as_matched_track_ids ds ks s0 done s → loop_lists as_matched_track_ids ds ks s0 →
  matching (length ds) (length ks) (done ++ m :: rest) →
  ds !! m.1 = Some i → ks !! m.2 = Some k → k ∈ (ts_tracks ts0).*1 →
  safe (_record_track_match inp i k e upd)
    (λ _, loop_ok step_ok as_matched_track_ids ds ks s0 (done ++ [m])) s.
Proof.
  intros Hl Hlists Hm Ei Ek [p Hp]%dget_is_Some.
  destruct (loop_free _ _ _ _ _ _ _ _ _ Hl Hlists Hm) as (i'&k'&d&Ei'&Ek'&_&Ed&Hi&Hk). simplify_eq.
  destruct (Hl) as [(A&HA&Hmo) _].
  eapply wp_mono; [|by eapply record_track_match_safe].
  intros _ s' ((k'&Hmid&Hmo')&E1&E2). eapply loop_record; [done..|by exists (A ++ [(k', i)])|done|].
  rewrite E2. set_solver.
Qed.

Lemma appearance_safe s :
  step_ok s → as_matched_detection_indices s = [] → as_matched_track_ids s = [] →
  safe (assign_active_appearance_matches inp) (λ _, step_ok) s.
Proof.
  intros Hs Hd0 Hk0. unfold assign_active_appearance_matches. apply wp_bind, wp_get. cbv beta zeta.
  destruct (Hs) as (A0&HA0&_). rewrite (m_tracks _ _ _ _ _ _ HA0).
  destruct (_ || _); [by apply wp_ret|]. set (ids := (ts_tracks ts0).*1).
  wp_soft; [|apply soft_cells; intros d _; by apply soft_detection_embedding]. intros de Hde.
  wp_soft; [|apply soft_cells; intros k Hk; apply soft_fmap; by apply soft_key]. intros ae Hae.
  pose proof (similarity_shaped de ae) as Hsh. rewrite Hde, Hae in Hsh.
  set (sims := similarity_matrix de ae) in *.
  wp_soft; [|apply soft_cost_matrix; intros i d j k Hi Hj].
  2:{ apply soft_bind, soft_key; [by eapply list_elem_of_lookup_2|]. intros p _.
      eapply soft_similarity_cost; [done|by eapply lookup_lt_Some..|by apply soft_active_valid]. }
  intros costs Hcosts. wp_soft; [|by apply soft_finite_assignments]. intros pairs Hpairs.
  set (ds := seq 0 (length (in_detections inp))).
  assert (loop_lists as_matched_track_ids ds ids s) as Hlists.
  { split; [apply NoDup_seq|]. split; [apply (ok_keys _ _ _ Hok)|].
    rewrite Hd0, Hk0. split; [|set_solver]. intros i Hi%elem_of_seq. split; [|set_solver].
    apply lookup_lt_is_Some_2. lia. }
  apply (wp_for _ (loop_ok step_ok as_matched_track_ids ds ids s)); [by apply loop_start| |by intros s' []].
  intros done [i j] rest s1 -> Hl. unfold record_appearance_match.
  assert (matching (length ds) (length ids) (done ++ (i, j) :: rest)) as Hm
    by (unfold ds; by rewrite length_seq).
  destruct (Hm) as (_&_&Hin). destruct (Hin i j) as [Hi Hj]; [set_solver|].
  unfold ds in Hi. rewrite length_seq in Hi.
  apply wp_bind, wp_lift. eapply shaped_entry; [done..|]. intros sim.
  destruct (score_below _ _); [by apply wp_ret, loop_skip|].
  destruct (lookup_lt_is_Some_2 ids j Hj) as [k Ek].
  wp_known ltac:(unfold list_index; by rewrite Ek). apply wp_bind, wp_get. cbv beta.
  destruct (Hl) as [(A&HA&_) _].
  assert (k ∈ (ts_tracks ts0).*1) as Hk by (by eapply list_elem_of_lookup_2).
  destruct (active_profile _ _ _ _ HA Hk) as (p&Hp&Ep). wp_known ltac:(exact Ep).
  destruct (lookup_lt_is_Some_2 de i) as [cur Ecur]; [by rewrite Hde|].
  wp_known ltac:(unfold list_index; by rewrite Ecur).
  wp_soft; [|apply (soft_update_embedding _ _ (λ _, True)); done]. intros e _.
  eapply record_match_safe; [done..|by apply lookup_seq|done|done].
Qed.

Lemma secondary_safe s : step_ok s → safe (assign_spatial_secondary_matches inp) (λ _, step_ok) s.
Proof.
  intros Hs. unfold assign_spatial_secondary_matches. apply wp_bind, wp_get. cbv beta zeta.
  destruct (Hs) as (A0&HA0&_). rewrite (m_tracks _ _ _ _ _ _ HA0).
  set (ds := _unmatched_activated_detections inp s). set (ids := List.filter _ _).
  destruct (_ || _); [by apply wp_ret|].
  assert (∀ k, k ∈ ids → k ∈ (ts_tracks ts0).*1 ∧ k ∉ as_matched_track_ids s) as Hids.
  { intros k Hk. unfold ids in Hk. rewrite list_elem_of_In, filter_In, <-list_elem_of_In in Hk.
    destruct Hk as [? Hk]. by apply negb_true_iff, bool_decide_eq_false in Hk. }
  assert (loop_lists as_matched_track_ids ds ids s) as Hlists.
  { split; [apply unmatched_NoDup|]. split.
    { eapply sublist_NoDup; [|apply List_filter_sublist]. apply (ok_keys _ _ _ Hok). }
    split; [apply unmatched_detections|]. intros k Hk. by apply Hids. }
  wp_soft; [|apply soft_cost_matrix; intros r i j k Hi Hj].
  2:{ apply list_elem_of_lookup_2 in Hi, Hj. apply unmatched_detections in Hi as [[d Hd] _]. apply Hids in Hj as [Hk _].
      apply soft_bind. eapply soft_list_index; [exact Hd|]. apply soft_bind, soft_key; [done|]. intros p _.
      by apply soft_secondary_cost. }
  intros costs Hcosts. wp_soft; [|by apply soft_finite_assignments]. intros pairs Hm.
  apply (wp_for _ (loop_ok step_ok as_matched_track_ids ds ids s)); [by apply loop_start| |by intros s' []].
  intros done m rest s1 -> Hl. unfold record_secondary_match.
  destruct (loop_free _ _ _ _ _ _ _ _ _ Hl Hlists Hm) as (i&k&d&Ei&Ek&Hk&_).
  wp_known ltac:(unfold list_index; by rewrite Ei). wp_known ltac:(unfold list_index; by rewrite Ek).
  apply wp_bind, wp_get. cbv beta. apply Hids in Hk as [Hk _]. destruct (Hl) as [(A&HA&_) _].
  destruct (active_profile _ _ _ _ HA Hk) as (p&Hp&Ep). wp_known ltac:(exact Ep).
  by eapply record_match_safe.
Qed.

(** ** Matches with identities that left *)

Definition updated_ids s : list Z := (as_updated_tracks s).*1.
Definition reentry_ok (ks : list Z) s : Prop :=
  (∃ A, mid s A []) ∧ ∀ k, k ∈ ks → k ∈ (ts_identities (as_tracking s)).*1.

Lemma record_reentry_safe ks ds s0 done m rest s i k :
  loop_ok (reentry_ok ks) updated_ids ds ks s0 done s → loop_lists updated_ids ds ks s0 →
  matching (length ds) (length ks) (done ++ m :: rest) →
  ds !! m.1 = Some i → ks !! m.2 = Some k →
  safe (_record_reentry_match inp i k)
    (λ _, loop_ok (reentry_ok ks) updated_ids ds ks s0 (done ++ [m])) s.
Proof.
  intros Hl Hlists Hm Ei Ek.
  destruct (loop_free _ _ _ _ _ _ _ _ _ Hl Hlists Hm) as (i'&k'&d&Ei'&Ek'&Hin&Ed&Hi&Hk). simplify_eq.
  destruct (Hl) as [((A&HA)&Hids) _]. pose proof (Hids _ Hin) as Hk1.
  unfold _record_reentry_match. wp_known ltac:(unfold list_index; by rewrite Ed).
  apply wp_bind, wp_get. cbv beta.
  wp_soft; [|apply (soft_key _ _ (λ _, True)); done]. intros identity _.
  wp_soft; [|apply (soft_detection_embedding _ (λ _, True)); done]. intros cur _.
  wp_soft; [|apply (soft_update_embedding _ _ (λ _, True)); done]. intros e _.
  apply wp_bind, wp_modify. cbv beta.
  pose proof (ids_persons _ _ (m_ids _ _ _ _ _ _ HA) _ Hk1) as Hr.
  apply (ids_dom _ _ _ (m_ids _ _ _ _ _ _ HA)), dget_is_Some in Hr as [t Ht].
  pose proof (ids_seen _ _ (m_ids _ _ _ _ _ _ HA) _ _ Ht) as [Hseen _].
  wp_known ltac:(apply dindex_Ok; exact Ht). apply wp_bind, wp_modify. apply wp_bind, wp_modify. apply wp_modify.
  unfold updated_ids in Hk. pose proof Hk as HkA. rewrite (m_keys _ _ _ _ _ _ HA) in HkA.
  eapply loop_record; [done..| |done|].
  - split.
    + exists (A ++ [(k, i)]). eapply (mid_person s _ A [] _ _ _ e); simpl; eauto; [|cbn; fold f in Hseen; lia|done].
      by eapply free_detection; [done|done|apply not_elem_of_nil].
    + simpl. intros j Hj. rewrite dset_keys. right. by apply Hids.
  - unfold updated_ids. simpl. intros j. by rewrite dset_keys.
Qed.

Lemma soft_reentry_ids s A :
  mid s A [] → soft (_reentry_identity_ids s) (λ ks, NoDup ks ∧
    ∀ k, k ∈ ks → k ∈ (ts_identities (as_tracking s)).*1 ∧ k ∉ updated_ids s).
Proof.
  intros H. eapply soft_mono; [|apply soft_filter].
  - intros ks [Hsub Hks]. split; [eapply sublist_NoDup; [|exact Hsub]; apply (ids_identities _ _ (m_ids _ _ _ _ _ _ H))|].
    intros k Hk. split; [by eapply elem_of_sublist|]. intros Hu. apply Hks in Hk.
    destruct (dmem k (as_updated_tracks s)) eqn:E; [done|]. apply dmem_false, dget_None in E. done.
  - intros k _. destruct (dmem _ _); [done|]. destruct (dmem k (ts_tracks _)) eqn:E; [|done].
    apply dmem_true in E as [p Hp]. apply soft_bind. by eapply soft_dindex.
Qed.

Lemma reentry_safe s : step_ok s → safe (assign_reentry_matches inp) (λ _ s', ∃ A, mid s' A []) s.
Proof.
  intros (A0&HA0&_). unfold assign_reentry_matches. apply wp_bind, wp_get. cbv beta zeta.
  set (ds := _unmatched_activated_detections inp s).
  wp_soft; [|by eapply soft_reentry_ids]. intros ks [Hnk Hks].
  destruct (_ || _); [apply wp_ret; by exists A0|].
  assert (loop_lists updated_ids ds ks s) as Hlists.
  { split; [apply unmatched_NoDup|]. split; [done|]. split; [apply unmatched_detections|]. intros k Hk. by apply Hks. }
  assert (∀ r i, ds !! r = Some i → ∃ d, in_detections inp !! i = Some d) as Hdet.
  { intros r i Hi. apply list_elem_of_lookup_2, unmatched_detections in Hi as [[d Hd] _]. by exists d. }
  wp_soft; [|apply soft_cells; intros i Hi].
  2:{ apply list_elem_of_lookup in Hi as [r Hi]. destruct (Hdet r i Hi) as [d Hd].
      apply soft_bind. eapply soft_list_index; [exact Hd|]. by apply soft_detection_embedding. }
  intros de Hde. wp_soft; [|apply soft_cells; intros k Hk; apply soft_key; [by apply Hks|done]]. intros ie Hie.
  pose proof (similarity_shaped de ie) as Hsh. rewrite Hde, Hie in Hsh.
  set (sims := similarity_matrix de ie) in *.
  wp_soft; [|apply soft_cost_matrix; intros r i j k Hi Hj].
  2:{ destruct (Hdet r i Hi) as [d Hd]. apply soft_bind. eapply soft_list_index; [exact Hd|].
      pose proof Hj as Hk%list_elem_of_lookup_2%Hks. destruct Hk as [Hk _].
      apply soft_bind, soft_key; [apply (ids_dom f), (ids_persons f); eauto using m_ids|]. intros t _.
      eapply soft_similarity_cost; [done|by eapply lookup_lt_Some..|by apply soft_reentry_valid]. }
  intros costs Hcosts. wp_soft; [|by apply soft_finite_assignments]. intros pairs Hm.
  apply (wp_for _ (loop_ok (reentry_ok ks) updated_ids ds ks s)).
  { apply loop_start. split; [by exists A0|]. intros k Hk. by apply Hks. }
  2:{ by intros s' [[[A HA] _] _]; exists A. }
  intros done m rest s1 -> Hl. unfold record_reentry_match.
  destruct (Hm) as (_&_&Hin). destruct (Hin m.1 m.2) as [Hi Hj]; [destruct m; set_solver|].
  apply wp_bind, wp_lift. eapply shaped_entry; [done..|]. intros sim.
  destruct (score_below _ _); [by apply wp_ret, loop_skip|].
  destruct (loop_free _ _ _ _ _ _ _ _ _ Hl Hlists Hm) as (i&k&d&Ei&Ek&_).
  wp_known ltac:(unfold list_index; by rewrite Ei). wp_known ltac:(unfold list_index; by rewrite Ek).
  by eapply record_reentry_safe.
Qed.

(** ** Tentative tracks *)

Definition spawn_ok (M : list nat) (X : list nat) s : Prop :=
  (∃ A, mid s A X) ∧ as_matched_detection_indices s = M.

Lemma spawn_tentative_safe M X s i d :
  spawn_ok M X s → in_detections inp !! i = Some d → i ∉ M → i ∉ X →
  safe (spawn_tentative_track inp i) (λ _, spawn_ok M (X ++ [i])) s.
Proof.
  intros [[A HA] HM] Hd Hi HX. unfold spawn_tentative_track.
  wp_known ltac:(unfold list_index; by rewrite Hd). apply wp_bind, wp_get. cbv beta.
  wp_soft; [|apply soft_overlaps]. intros [] _.
  { apply wp_ret. split; [|done]. exists A. destruct HA; split; try done.
    intros id j Hj. apply m_matched in Hj. set_solver. }
  wp_soft; [|apply (soft_detection_embedding _ (λ _, True)); done]. intros e _.
  apply wp_bind, wp_modify, wp_modify. split; [|done]. eexists.
  pose proof (ids_tent _ _ (m_ids _ _ _ _ _ _ HA)) as Hneg.
  eapply (mid_add inp f0 ts0 s _ A X); [exact HA| |by eapply free_detection; [|rewrite HM|]|exact Hd| |done..| | |].
  - intros Hin. eapply mid_id_gt in Hin; [|done]. lia.
  - pose proof (m_ids _ _ _ _ _ _ HA) as Hids. split; simpl; try done; try lia; [|intros t Ht|congruence].
    + destruct Hids; split; simpl; first [lia|assumption].
    + assert (ts_next_tentative_id (as_tracking s) ∈ (ts_telemetry (as_tracking s)).*1) as Hin%(ids_dom f)
        by (apply dget_is_Some; by eexists); [lia|done].
  - right. split; [simpl; lia|done].
  - simpl. intros j. set_solver.
  - right. set_solver.
Qed.

Lemma spawn_safe s A : mid s A [] → safe (spawn_tentative_tracks inp) (λ _ s', ∃ A X, mid s' A X) s.
Proof.
  intros H. unfold spawn_tentative_tracks. apply wp_bind, wp_get. cbv beta.
  apply (wp_for _ (λ done s', spawn_ok (as_matched_detection_indices s) done s')).
  - split; [by exists A|done].
  - intros done i rest s1 E Hs. pose proof (unmatched_NoDup s) as Hnd. rewrite E in Hnd.
    apply NoDup_app in Hnd as (_&Hnd&_).
    destruct (unmatched_detections s i) as [[d Hd] Hi]; [rewrite E; set_solver|].
    eapply spawn_tentative_safe; [done..|]. intros Hin. eapply Hnd; [exact Hin|left].
  - intros s' [[A' HA'] _]. eauto.
Qed.
End frame.
End steps.

(** ** Tracking: what associating the detections of a frame guarantees

    [associate_frame_correct]: one frame; [track_frames_correct]: a whole video.  The
    witnesses run a video of two people over a concrete [Numerics]. *)
Import Video Tracking.
Local Open Scope Z_scope.

Section theorems.
Context {N : Numerics} {L : NumericsLaws N}.
Implicit Types (ts : RTDetrTrackingState) (s : AssociationState) (p : TrackProfile).

(** What one association promises, from the state [ts0] after frame [f0] to [ts']. *)
Record association_post (inp : AssociationInput) (f0 : Z) ts0 ts' : Prop := {
  ap_ok : tracking_ok (in_source_frame_index inp) (in_max_disappeared_frames inp) ts';
  (* nobody is forgotten: the entry stays, the person is seen now or keeps its telemetry *)
  ap_persons id t0 : dget id (ts_telemetry ts0) = Some t0 →
    ∃ t, dget id (ts_telemetry ts') = Some t ∧ pt_entry_frame t = pt_entry_frame t0 ∧
      (t = t0 ∨ pt_last_seen_frame t = in_source_frame_index inp);
  (* a new person entered in the previous frame and is seen in this one *)
  ap_new id t : ts_next_track_id ts0 ≤ id → dget id (ts_telemetry ts') = Some t →
    pt_entry_frame t = f0 ∧ pt_last_seen_frame t = in_source_frame_index inp;
  (* the tracks seen now are distinct detections *)
  ap_seen : ∃ A : list (Z * nat), NoDup A.*1 ∧ NoDup A.*2 ∧
    ∀ id p, dget id (ts_tracks ts') = Some p → tp_age p = 0 →
      ∃ i d, (id, i) ∈ A ∧ in_detections inp !! i = Some d ∧ profile_geometry p = geometry_of d;
}.

Section frame.
Context (inp : AssociationInput) (f0 : Z) (ts0 : RTDetrTrackingState).
Let f : Z := in_source_frame_index inp.
Let dis : Z := in_max_disappeared_frames inp.
Context (Hf : f0 < f) (Hinterval : in_sample_interval inp ≠ 0) (Hok : tracking_ok f0 dis ts0).

Definition association_start : AssociationState := {|
  as_tracking := ts0; as_updated_tracks := [];
  as_matched_detection_indices := []; as_matched_track_ids := [] |}.

Lemma expire_safe : safe (expire_inactive_identities inp) (λ _ s, mid inp f0 ts0 s [] [] ∧
  as_matched_detection_indices s = [] ∧ as_matched_track_ids s = []) association_start.
Proof.
  pose proof (ok_ids _ _ _ Hok) as Hids.
  unfold expire_inactive_identities. apply wp_bind, wp_get. cbn [as_tracking association_start].
  apply wp_bind, wp_lift. eapply soft_mono; [|apply soft_filter].
  2:{ intros id Hid. case_bool_decide; [done|]. apply soft_bind, soft_key; [|done].
      apply (ids_dom f0); [done|]. by apply (ids_persons f0). }
  intros expired [_ Hexp]. apply wp_modify. split; [|done]. split; simpl; try done.
  - destruct Hids. split; simpl; try done.
    + by apply ddel_all_NoDup.
    + intros id [Hid _]%ddel_all_keys; [by apply ids_persons|done].
    + intros id t Ht. destruct (ids_seen _ _ Ht). split; [lia|done].
  - constructor.
  - constructor.
  - by intros id i ?%elem_of_nil.
  - by intros id i ?%elem_of_nil.
  - intros id t0 Ht; exists t0; auto.
  - intros id t Hid Ht. apply dget_is_Some_1 in Ht. apply (ids_dom f0) in Ht; [lia|done].
  - intros id Hid Hpos. apply ddel_all_keys; [apply Hids|]. split.
    + apply dget_is_Some in Hid as [p Hp].
      destruct (ok_track _ _ _ Hok _ _ Hp) as [(_&?&_)|([? ?]&_)]; [done|lia].
    + intros He%Hexp. case_bool_decide as Hb; [done|]. apply Hb.
      rewrite list_elem_of_In, filter_In, <-list_elem_of_In. split; [done|lia].
Qed.

(** [s] ages tracks of [ts0] that [s1] did not update. *)
Definition ages s1 s : Prop :=
  let ts := as_tracking s in let ts1 := as_tracking s1 in
  ts_identities ts = ts_identities ts1 ∧ ts_telemetry ts = ts_telemetry ts1 ∧
  ts_next_track_id ts = ts_next_track_id ts1 ∧ ts_next_tentative_id ts = ts_next_tentative_id ts1 ∧
  NoDup (as_updated_tracks s).*1 ∧
  ∀ id p, dget id (as_updated_tracks s) = Some p → dget id (as_updated_tracks s1) = Some p ∨
    ((id ∉ (as_updated_tracks s1).*1) ∧ 0 < id ∧
      ∃ p0, dget id (ts_tracks ts0) = Some p0 ∧ p = aged p0 ∧ tp_age p ≤ dis).

Lemma age_safe s1 A X : mid inp f0 ts0 s1 A X → safe (age_unmatched_tracks inp) (λ _, ages s1) s1.
Proof.
  intros H. unfold age_unmatched_tracks. apply wp_bind, wp_get. cbv beta.
  rewrite (m_tracks _ _ _ _ _ _ H).
  apply (wp_for _ (λ done s, ages s1 s ∧ ∀ id, id ∈ (as_updated_tracks s1).*1 → id ∈ (as_updated_tracks s).*1));
    [| |by intros s' []].
  { split; [|done]. do 4 (split; [done|]). split; [|by left].
    rewrite (m_keys _ _ _ _ _ _ H). apply (m_rows _ _ _ _ _ _ H). }
  intros done [id p0] rest s E [(H1&H2&H3&H4&H5&H6) Hsub]. unfold age_unmatched_track. apply wp_bind, wp_get. cbv beta.
  cbn [fst snd]. destruct (dmem id (as_updated_tracks s) || _) eqn:Edup; [by apply wp_ret|].
  apply orb_false_iff in Edup as [Edup%dmem_false%dget_None _].
  apply wp_bind, wp_modify. destruct (_ && _) eqn:Ekeep; [|by apply wp_ret].
  apply andb_true_iff in Ekeep as [Hpos Hage]. apply wp_modify. split.
  - do 4 (split; [done|]). split; simpl; [by apply dset_NoDup|]. intros j p. rewrite dget_dset.
    case_decide as Hj; [subst j|by apply H6]. intros [= <-]. right. split; [auto|]. split; [lia|].
    exists p0. split; [|split; [done|simpl in Hage |- *; unfold dis; lia]].
    apply elem_dget; [apply (ok_keys _ _ _ Hok)|]. rewrite E. set_solver.
  - simpl. intros j Hj. rewrite dset_keys. right. auto.
Qed.

Lemma mid_track s1 A X id p : mid inp f0 ts0 s1 A X → dget id (as_updated_tracks s1) = Some p →
  ∃ i d, (id, i) ∈ A ∧ in_detections inp !! i = Some d ∧ profile_geometry p = geometry_of d ∧
    track_ok f dis (as_tracking s1) id p.
Proof.
  intros H Hp. pose proof (dget_is_Some_1 _ _ _ Hp) as Hin. rewrite (m_keys _ _ _ _ _ _ H) in Hin.
  apply list_elem_of_fmap in Hin as ([k i]&Ek&Hin). simpl in Ek. subst k.
  destruct (m_seen _ _ _ _ _ _ H _ _ Hin) as (d&p'&Hd&Hp'&Hg&_&Hok'). simplify_eq. exists i, d. auto.
Qed.

(** A track that is missed keeps its telemetry. *)
Lemma aged_ok s1 A X id p0 : mid inp f0 ts0 s1 A X → id ∉ A.*1 → 0 < id → dget id (ts_tracks ts0) = Some p0 →
  tp_age (aged p0) ≤ dis → track_ok f dis (as_tracking s1) id (aged p0).
Proof.
  intros H HA Hpos Hp Hage. left.
  destruct (ok_track _ _ _ Hok _ _ Hp) as [(_&Hid&Hhits&Ha&_&t0&Ht0&Hent&Hgeo&_)|([? ?]&_)]; [|lia].
  destruct (m_old _ _ _ _ _ _ H _ _ Ht0) as (t&Ht&_&_&Heq). rewrite (Heq HA) in Ht.
  pose proof (ids_seen _ _ (ok_ids _ _ _ Hok) _ _ Ht0) as [Hseen _].
  split; [done|]. split; [apply (m_active _ _ _ _ _ _ H); [by eapply dget_is_Some_1|done]|].
  split; [done|]. simpl in *. split; [lia|]. split; [lia|].
  exists t0. split; [done|]. split; [done|]. split; [done|]. lia.
Qed.

Lemma associate_post s1 A X s : mid inp f0 ts0 s1 A X → ages s1 s →
  let ts := as_tracking s in association_post inp f0 ts0 {| ts with ts_tracks := as_updated_tracks s |}.
Proof.
  intros H (E1&E2&E3&E4&Hnd&Hupd) ts. subst ts.
  assert (∀ id p, dget id (as_updated_tracks s) = Some p → track_ok f dis (as_tracking s1) id p) as Htrack.
  { intros id p [Hp|(Hid&Hpos&p0&Hp0&->&Hage)]%Hupd.
    - by destruct (mid_track _ _ _ _ _ H Hp) as (?&?&?&?&?&?).
    - eapply aged_ok; [done| |done..]. by rewrite <-(m_keys _ _ _ _ _ _ H). }
  split.
  - split; simpl; [|done|].
    + destruct (m_ids _ _ _ _ _ _ H). split; simpl; by rewrite ?E1, ?E2, ?E3, ?E4.
    + intros id p Hp. specialize (Htrack _ _ Hp).
      unfold track_ok, confirmed_ok, tentative_ok in *. simpl. by rewrite E1, E2, E4.
  - simpl. rewrite E2. intros id t0 Ht0. destruct (m_old _ _ _ _ _ _ H _ _ Ht0) as (t&?&?&?&_). eauto.
  - simpl. rewrite E2. intros id t Hid Ht. by destruct (m_new _ _ _ _ _ _ H _ _ Hid Ht) as (_&?&?).
  - exists A. split; [apply (m_rows _ _ _ _ _ _ H)|]. split; [apply (m_columns _ _ _ _ _ _ H)|].
    simpl. intros id p Hp Hage. apply Hupd in Hp as [Hp|(_&_&p0&Hp0&->&_)].
    + destruct (mid_track _ _ _ _ _ H Hp) as (i&d&?&?&?&_). eauto.
    + exfalso. simpl in Hage.
      destruct (ok_track _ _ _ Hok _ _ Hp0) as [(_&_&_&Ha&_)|(_&_&Ha&_)]; lia.
Qed.

Lemma associate_safe :
  safe (associate_detections inp) (λ _ ts', association_post inp f0 ts0 ts') ts0.
Proof.
  unfold associate_detections, wp. fold association_start.
  enough (safe (association inp) (λ _ s, association_post inp f0 ts0 (as_tracking s)) association_start) as H.
  { unfold wp in H. by destruct (association inp association_start) as [[]]. }
  unfold association. apply wp_bind. eapply wp_mono; [|apply expire_safe].
  intros u1 s1 (H1&Hd&Hm). assert (step_ok inp f0 ts0 s1) as Hs by (exists []; split; [done|by intros ??%elem_of_nil]).
  apply wp_bind. eapply wp_mono; [|by eapply appearance_safe]. intros u2 s2 H2.
  apply wp_bind. eapply wp_mono; [|by eapply secondary_safe]. intros u3 s3 H3.
  apply wp_bind. eapply wp_mono; [|by eapply reentry_safe]. intros u4 s4 [A H4].
  apply wp_bind. eapply wp_mono; [|by eapply spawn_safe]. intros u5 s5 (A'&X&H5).
  apply wp_bind. eapply wp_mono; [|by eapply age_safe]. intros u6 s6 H6.
  apply wp_modify. by eapply associate_post.
Qed.
End frame.
End theorems.
