(* ===== verification/FrameProcessing.v ===== *)
(** * The frame pipelines: detections of a frame, and directed line counts

    rtdetr_osnet.py up to the association: which detections of the detector are kept
    (threshold or nearness to an active track, then non-maximum suppression) and how
    they get their embeddings; line_counting.py: the counting line, the tracks that are
    shown to it, and the record of one frame.  The networks, numpy's [argsort] and
    supervision's LineZone are interfaces. *)
From S2P Require Export Prelude PyFloat PyRound PyDict PyVal VideoSampling Tracking.

Module Frames.
Import Video Tracking.

(** ** Interfaces *)

(** [scores.argsort()]. *)
Class Argsort := argsort : list Float → list nat.

(** A permutation of the positions, along which the scores never decrease. *)
Class ArgsortLaws (S : Argsort) : Prop := {
  argsort_perm l : argsort l ≡ₚ seq 0 (length l);
  argsort_ascending l i j x y : [i; j] `sublist_of` argsort l →
    l !! i = Some x → l !! j = Some y → fltb y x = false;
}.

(** What the detector says of one object: box corners, class, score. *)
Record RawDetection := {
  raw_box : Float * Float * Float * Float;
  raw_label : Z;
  raw_score : Float;
}.

(** Frames, their conversion to RGB, and the re-identification network. *)
Class Vision (N : Numerics) (Frame : Type) := {
  frame_height : Frame → Z;                       (* frame.shape[0] *)
  frame_width : Frame → Z;                        (* frame.shape[1] *)
  Rgb : Type;
  to_rgb : Frame → Rgb;                           (* cv2.cvtColor *)
  predict_detector_results : list Frame → list Rgb → result (list (list RawDetection));
  reid_embedder : Rgb → list BBox → result (list Emb);
}.

(** The detector answers for every frame of a batch. *)
Class VisionLaws {N : Numerics} {Frame : Type} (V : Vision N Frame) : Prop := {
  predict_length frames rgb l : predict_detector_results frames rgb = Ok l → length l = length frames;
}.

(** supervision's LineZone; its detections are tracker ids with float32 boxes. *)
Class LineZones := {
  Box : Type;
  float32_box : BBox → Box;                       (* np.asarray(bbox, dtype=np.float32) *)
  LineZone : Type;
  line_zone : Z * Z → Z * Z → LineZone;
  trigger : LineZone → list (Z * Box) → list bool * list bool * LineZone;
  in_count : LineZone → Z;
  out_count : LineZone → Z;
}.

Definition count_true (l : list bool) : Z := Z.of_nat (length (List.filter (λ b, b) l)).

(** A new zone has counted nothing; [trigger] adds the crossings that it reports. *)
Class LineZonesLaws (L : LineZones) : Prop := {
  line_zone_new a b : in_count (line_zone a b) = 0%Z ∧ out_count (line_zone a b) = 0%Z;
  trigger_counts z d : let '(crossed_in, crossed_out, z') := trigger z d in
    (in_count z' = in_count z + count_true crossed_in ∧
     out_count z' = out_count z + count_true crossed_out)%Z;
}.

(** ** Non-maximum suppression *)

Definition PERSON_NMS_IOU_THRESHOLD : Float := flit 7 10.

Definition area (b : BBox) : Z := ((x2 b - x1 b) * (y2 b - y1 b))%Z.

Definition intersection (a b : BBox) : Z :=
  (Z.max 0 (Z.min (x2 a) (x2 b) - Z.max (x1 a) (x1 b)) *
   Z.max 0 (Z.min (y2 a) (y2 b) - Z.max (y1 a) (y1 b)))%Z.

(** The quotient of two numpy integers. *)
Definition iou (a b : BBox) : Float :=
  let i := intersection a b in
  let union := (area a + area b - i)%Z in
  fdiv (float_of_Z i) (float_of_Z union).

(** [remaining[iou <= threshold]]. *)
Definition below_threshold (boxes : list BBox) (selected : BBox) (remaining : list nat)
    : result (list nat) :=
  filter_result (λ i, b ← list_index boxes i; Ok (fleb (iou selected b) PERSON_NMS_IOU_THRESHOLD))
    remaining.

(** The [while] loop; each turn removes at least one index from [order]. *)
Fixpoint suppress (fuel : nat) (boxes : list BBox) (order : list nat) : result (list nat) :=
  match fuel, order with
  | S fuel', selected_index :: remaining =>
      if bool_decide (remaining = []) then Ok [selected_index] else
      selected ← list_index boxes selected_index;
      order' ← below_threshold boxes selected remaining;
      kept ← suppress fuel' boxes order';
      Ok (selected_index :: kept)
  | _, _ => Ok []
  end.

Section detections.
Context {N : Numerics} {Sort : Argsort}.

Definition non_max_suppression (detections : list Detection) : result (list Detection) :=
  if bool_decide (length detections = 0%nat) then Ok [] else
  let boxes := det_bbox <$> detections in
  let scores := det_confidence <$> detections in
  let order := reverse (argsort scores) in
  kept_indices ← suppress (length order) boxes order;
  map_result (list_index detections) kept_indices.

(** ** Detections of a frame *)

Definition is_near_active_track (d : Detection) (track_gallery : list (Z * TrackProfile)) : result bool :=
  any_result (λ x : Z * TrackProfile,
    limit ← py_float_of_int (Z.max (height (det_bbox d)) (height (tp_bbox x.2)));
    Ok (fltb (distance (det_centroid d) (tp_centroid x.2)) limit)) track_gallery.

(** The box of a detection, cut at the borders of the frame. *)
Definition clipped_box (width height : Z) (box : Float * Float * Float * Float) : result BBox :=
  let '(bx1, by1, bx2, by2) := box in
  x1 ← py_int bx1; y1 ← py_int by1; x2 ← py_int bx2; y2 ← py_int by2;
  Ok {| x1 := Z.max 0 x1; y1 := Z.max 0 y1; x2 := Z.min width x2; y2 := Z.min height y2 |}.

Definition candidate_of (b : BBox) (score : Float) : Detection := {|
  det_bbox := b; det_centroid := ((x1 b + x2 b) / 2, (y1 b + y2 b) / 2)%Z;
  det_confidence := score; det_embedding := None |}.

(** One row of the loop over boxes and scores. *)
Definition candidate (width height : Z) (track_gallery : list (Z * TrackProfile))
    (activation_threshold : Float) (r : RawDetection) : result (option Detection) :=
  b ← clipped_box width height (raw_box r);
  if (x1 b <? x2 b)%Z && (y1 b <? y2 b)%Z then
    let c := candidate_of b (raw_score r) in
    if fleb activation_threshold (det_confidence c) then Ok (Some c) else
    near ← is_near_active_track c track_gallery;
    Ok (if near : bool then Some c else None)
  else Ok None.

Definition with_embedding (c : Detection) (e : Emb) : Detection :=
  {| c with det_embedding := Some e |}.

Definition extract_person_detections `{V : !Vision N Frame} (rows : list RawDetection) (frame : Frame)
    (rgb_frame : Rgb) (person_class_id : Z) (track_gallery : list (Z * TrackProfile))
    (activation_threshold : Float) : result (list Detection) :=
  let persons := List.filter (λ r, raw_label r =? person_class_id)%Z rows in
  candidates ← map_result (candidate (frame_width frame) (frame_height frame) track_gallery
                             activation_threshold) persons;
  candidates ← non_max_suppression (omap id candidates);
  if bool_decide (length candidates = 0%nat) then Ok [] else
  embeddings ← reid_embedder rgb_frame (det_bbox <$> candidates);
  Ok (zip_with with_embedding candidates embeddings).
End detections.

(** ** line_counting.py *)

Definition LineCoordinates : Type := Z * Z * Z * Z.

Record LineCountRecord := {
  lc_frame : Z;
  lc_video_seconds : string;
  lc_video_timestamp : string;
  lc_frame_in_count : Z;
  lc_frame_out_count : Z;
  lc_cumulative_in_count : Z;
  lc_cumulative_out_count : Z;
  lc_line : LineCoordinates;
}.

Section lines.
Context {L : LineZones}.

Definition inside (w h : Z) (p : Z * Z) : bool :=
  ((0 <=? p.1) && (p.1 <? w) && (0 <=? p.2) && (p.2 <? h))%Z.

Definition create_line_zone (line_coordinates : option LineCoordinates) (frame_width frame_height : Z)
    : result (option LineZone) :=
  match line_coordinates with
  | None => Ok None
  | Some (x1, y1, x2, y2) =>
      require (negb (bool_decide ((x1, y1) = (x2, y2)))) ValueError;;
      require (inside frame_width frame_height (x1, y1)) ValueError;;
      require (inside frame_width frame_height (x2, y2)) ValueError;;
      Ok (Some (line_zone (x1, y1) (x2, y2)))
  end.

Definition active_track_detections {N : Numerics} (track_gallery : list (Z * TrackProfile))
    : list (Z * Box) :=
  (λ x : Z * TrackProfile, (x.1, float32_box (tp_bbox x.2))) <$> List.filter (λ x, (0 <? x.1)%Z) track_gallery.

(** The short-term memory of BoT-SORT tracks. *)
Record CoastingTrack := { ct_bbox : Box; ct_last_seen_frame : Z }.

(** [detections] are None when they carry no tracker ids. *)
Definition coasting_track_detections (detections : option (list (Z * Box)))
    (source_frame_index max_coast_source_frames : Z) (track_cache : list (Z * CoastingTrack))
    : list (Z * CoastingTrack) * list (Z * Box) :=
  let seen := fold_left (λ d x, dset x.1 {| ct_bbox := x.2; ct_last_seen_frame := source_frame_index |} d)
                (default [] detections) track_cache in
  let expired := fst <$> List.filter
    (λ x : Z * CoastingTrack, max_coast_source_frames <? source_frame_index - ct_last_seen_frame x.2)%Z seen in
  let track_cache := fold_left (λ d id, ddel id d) expired seen in
  (track_cache, (λ x : Z * CoastingTrack, (x.1, ct_bbox x.2)) <$> track_cache).

(** On the zone and the records, which it updates also when it raises. *)
Definition record_line_counts (detections : list (Z * Box)) (source_frame_index : Z) (fps : Float)
    (line_coordinates : option LineCoordinates)
    : tx (option LineZone * list LineCountRecord) unit :=
  s ← tx_get;
  match s.1, line_coordinates with
  | Some zone, Some line =>
      let '(crossed_in, crossed_out, zone') := trigger zone detections in
      tx_modify (λ s, (Some zone', s.2));;
      index ← tx_lift (py_float_of_int source_frame_index);
      seconds ← tx_lift (py_fdiv index fps);
      timestamp ← tx_lift (format_video_timestamp source_frame_index fps);
      tx_modify (λ s, (s.1, s.2 ++ [{|
        lc_frame := source_frame_index;
        lc_video_seconds := fixed3 seconds;
        lc_video_timestamp := timestamp;
        lc_frame_in_count := count_true crossed_in;
        lc_frame_out_count := count_true crossed_out;
        lc_cumulative_in_count := in_count zone';
        lc_cumulative_out_count := out_count zone';
        lc_line := line |}]))
  | _, _ => mret tt
  end.
End lines.
End Frames.
