(* ===== verification/FrameTheorems.v ===== *)
(** * The frame pipelines: suppression, detections and line counts

    Non-maximum suppression keeps a set of separated boxes and drops a box only for a
    kept one that overlaps it and scores at least as high; the detections of a frame
    are boxes within the frame with an embedding; the line records are cumulative. *)
From S2P Require Export Prelude PyFloat PyRound PyDict PyVal VideoSampling Tracking TrackingInv FrameProcessing.
Import Video Tracking Frames.

(** ** Lists *)

Lemma sublist_reverse {A} (l k : list A) : l `sublist_of` k → reverse l `sublist_of` reverse k.
Proof.
  induction 1; rewrite ?reverse_cons; [done|by apply sublist_app|]. by apply sublist_inserts_r.
Qed.

Lemma sublist_pair_cons {A} (i j x : A) l :
  [i; j] `sublist_of` (x :: l) → (i = x ∧ j ∈ l) ∨ [i; j] `sublist_of` l.
Proof.
  rewrite sublist_cons_r. intros [?|(l'&[= -> <-]&H)]; [by right|]. left. split; [done|].
  by apply singleton_sublist_l.
Qed.

(** ** Non-maximum suppression *)

Section nms.
Context (boxes : list BBox).

(** Box [i] suppresses box [j]. *)
Definition overlaps (i j : nat) : Prop :=
  ∃ a b, boxes !! i = Some a ∧ boxes !! j = Some b ∧ fleb (iou a b) PERSON_NMS_IOU_THRESHOLD = false.

Lemma below_threshold_spec i a remaining :
  boxes !! i = Some a → (∀ j, j ∈ remaining → (j < length boxes)%nat) →
  ∃ order, below_threshold boxes a remaining = Ok order ∧ order `sublist_of` remaining ∧
    (∀ j, j ∈ order → ¬ overlaps i j) ∧ (∀ j, j ∈ remaining → j ∈ order ∨ overlaps i j).
Proof.
  intros Ha. unfold below_threshold. induction remaining as [|j remaining IH]; intros Hr; simpl.
  { exists []. split; [done|]. split; [done|]. set_solver. }
  destruct (lookup_lt_is_Some_2 boxes j) as [b Hb]; [apply Hr; left|].
  destruct IH as (order&E&Hsub&Hkeep&Hall); [intros; apply Hr; by right|].
  assert (list_index boxes j = Ok b) as -> by (unfold list_index; by rewrite Hb). simpl. rewrite E. simpl.
  destruct (fleb (iou a b) PERSON_NMS_IOU_THRESHOLD) eqn:Eiou.
  - exists (j :: order). split; [done|]. split; [by constructor|]. split.
    + intros k [->|Hk]%elem_of_cons; [|by apply Hkeep]. intros (a'&b'&?&?&?). simplify_eq. congruence.
    + intros k [->|Hk]%elem_of_cons; [left; left|]. destruct (Hall k Hk); [left; by right|by right].
  - exists order. split; [done|]. split; [by constructor|]. split; [done|].
    intros k [->|Hk]%elem_of_cons; [right; by exists a, b|]. by apply Hall.
Qed.

(** The kept indices are separated, and every other index is overlapped by a kept one
    that precedes it in the order. *)
Definition suppressed_to (order kept : list nat) : Prop :=
  kept `sublist_of` order ∧ (∀ i j, [i; j] `sublist_of` kept → ¬ overlaps i j) ∧
  (∀ j, j ∈ order → j ∈ kept ∨ ∃ i, i ∈ kept ∧ [i; j] `sublist_of` order ∧ overlaps i j).

Lemma suppress_spec fuel order :
  (length order ≤ fuel)%nat → (∀ j, j ∈ order → (j < length boxes)%nat) →
  ∃ kept, suppress fuel boxes order = Ok kept ∧ suppressed_to order kept.
Proof.
  revert order. induction fuel as [|fuel IH]; intros [|i remaining] Hf Hr; simpl in *; try lia.
  1,2: exists []; split; [done|split; [done|split; [|set_solver]]]; by intros ?? ?%sublist_nil_r.
  case_bool_decide as Hnil.
  { subst. exists [i]. split; [done|]. split; [done|]. split.
    - intros a b [[_ []%elem_of_nil]|H]%sublist_pair_cons. by apply sublist_nil_r in H.
    - intros j Hj. by left. }
  destruct (lookup_lt_is_Some_2 boxes i) as [a Ha]; [apply Hr; left|].
  destruct (below_threshold_spec i a remaining Ha) as (order&E&Hsub&Hkeep&Hall); [intros; apply Hr; by right|].
  destruct (IH order) as (kept&Ek&Hks&Hsep&Hcov).
  { apply sublist_length in Hsub. lia. }
  { intros j Hj. apply Hr. right. by eapply elem_of_sublist. }
  assert (list_index boxes i = Ok a) as -> by (unfold list_index; by rewrite Ha). simpl.
  rewrite E. simpl. rewrite Ek. simpl. exists (i :: kept). split; [done|]. split; [|split].
  - constructor. by etrans.
  - intros x y [[-> Hy]|H]%sublist_pair_cons; [|by apply Hsep]. apply Hkeep. by eapply elem_of_sublist.
  - intros j [->|Hj]%elem_of_cons; [left; left|].
    destruct (Hall j Hj) as [Hin|Hov].
    + destruct (Hcov j Hin) as [?|(k&Hk&Hkj&Hov)]; [left; by right|]. right. exists k.
      split; [by right|]. split; [|done]. apply sublist_cons. by etrans.
    + right. exists i. split; [left|]. split; [|done]. apply sublist_skip. by apply singleton_sublist_l.
Qed.
End nms.

Section theorems.
Context {N : Numerics} {Sort : Argsort} {SortLaws : ArgsortLaws Sort}.

(** The kept detections [kept], by index, of [detections]. *)
Record nms_result (detections : list Detection) (ks : list nat) (kept : list Detection) : Prop := {
  nms_lookup : Forall2 (λ i d, detections !! i = Some d) ks kept;
  nms_distinct : NoDup ks;
  (* in the order of the scores *)
  nms_sorted i j d e : [i; j] `sublist_of` ks → detections !! i = Some d → detections !! j = Some e →
    fltb (det_confidence d) (det_confidence e) = false;
  nms_separated i j : [i; j] `sublist_of` ks → ¬ overlaps (det_bbox <$> detections) i j;
  nms_dropped j e : detections !! j = Some e → j ∉ ks → ∃ i d, i ∈ ks ∧ detections !! i = Some d ∧
    overlaps (det_bbox <$> detections) i j ∧ fltb (det_confidence d) (det_confidence e) = false;
}.

Lemma argsort_reverse_descending l i j x y :
  [i; j] `sublist_of` reverse (argsort l) → l !! i = Some x → l !! j = Some y → fltb x y = false.
Proof.
  intros H%sublist_reverse Hi Hj. rewrite reverse_involutive in H. by eapply argsort_ascending.
Qed.

Lemma non_max_suppression_spec detections :
  ∃ ks kept, non_max_suppression detections = Ok kept ∧ nms_result detections ks kept.
Proof.
  unfold non_max_suppression. case_bool_decide as Hlen.
  { apply length_zero_iff_nil in Hlen as ->. exists [], []. split; [done|].
    split; [done|constructor|by intros ???? ?%sublist_nil_r|by intros ?? ?%sublist_nil_r|done]. }
  set (boxes := det_bbox <$> detections). set (scores := det_confidence <$> detections).
  set (order := reverse (argsort scores)).
  assert (order ≡ₚ seq 0 (length detections)) as Hperm.
  { unfold order. rewrite reverse_Permutation, argsort_perm. unfold scores. by rewrite length_fmap. }
  assert (∀ j, j ∈ order ↔ (j < length detections)%nat) as Hdom
    by (intros j; rewrite Hperm, elem_of_seq; lia).
  destruct (suppress_spec boxes (length order) order) as (ks&Eks&Hsub&Hsep&Hcov); [done| |].
  { intros j Hj%Hdom. unfold boxes. by rewrite length_fmap. }
  rewrite Eks. simpl.
  assert (∃ kept, map_result (list_index detections) ks = Ok kept ∧
    Forall2 (λ i d, detections !! i = Some d) ks kept) as (kept&Ekept&Hkept).
  { clear Eks Hsep Hcov. revert Hsub. generalize ks. intros l Hsub.
    assert (∀ j, j ∈ l → (j < length detections)%nat) as Hl by (intros j Hj; apply Hdom; by eapply elem_of_sublist).
    clear Hsub. induction l as [|i l IH]; [by exists []; split; [|constructor]|].
    destruct IH as (kept&E&Hk); [intros j Hj; apply Hl; by right|].
    destruct (lookup_lt_is_Some_2 detections i) as [d Hd]; [apply Hl; left|].
    assert (list_index detections i = Ok d) as Ei by (unfold list_index; by rewrite Hd).
    exists (d :: kept). simpl. rewrite Ei. simpl. rewrite E. split; [done|by constructor]. }
  assert (∀ i j d e, [i; j] `sublist_of` order → detections !! i = Some d → detections !! j = Some e →
    fltb (det_confidence d) (det_confidence e) = false) as Hdesc.
  { intros i j d e Hij Hi Hj. eapply (argsort_reverse_descending scores); [exact Hij|..];
      unfold scores; rewrite list_lookup_fmap; [by rewrite Hi|by rewrite Hj]. }
  exists ks, kept. split; [done|]. split.
  - done.
  - eapply sublist_NoDup; [|exact Hsub]. rewrite Hperm. apply NoDup_seq.
  - intros i j d e Hij. apply Hdesc. by etrans.
  - done.
  - intros j e Hj Hn. destruct (Hcov j) as [?|(i&Hi&Hij&Hov)]; [apply Hdom; by eapply lookup_lt_Some|done|].
    destruct (lookup_lt_is_Some_2 detections i) as [d Hd].
    { apply Hdom. by eapply elem_of_sublist. }
    exists i, d. eauto.
Qed.

(** ** Detections of a frame *)

(** A box with positive sides within the frame. *)
Definition box_within (width height : Z) (b : BBox) : Prop :=
  (0 ≤ x1 b < x2 b ∧ x2 b ≤ width ∧ 0 ≤ y1 b < y2 b ∧ y2 b ≤ height)%Z.

(** The centroid is the middle of the box, and a pixel of it. *)
Definition centred (d : Detection) : Prop :=
  let b := det_bbox d in
  det_centroid d = ((x1 b + x2 b) / 2, (y1 b + y2 b) / 2)%Z ∧
  (x1 b ≤ (det_centroid d).1 < x2 b ∧ y1 b ≤ (det_centroid d).2 < y2 b)%Z.

Definition detection_ok (width height : Z) (tracks : list (Z * TrackProfile)) (threshold : Float)
    (d : Detection) : Prop :=
  box_within width height (det_bbox d) ∧ centred d ∧
  (fleb threshold (det_confidence d) = true ∨ is_near_active_track d tracks = Ok true).

Lemma clipped_box_Ok width height box b : clipped_box width height box = Ok b →
  (0 ≤ x1 b ∧ 0 ≤ y1 b ∧ x2 b ≤ width ∧ y2 b ≤ height)%Z.
Proof.
  unfold clipped_box. destruct box as [[[bx1 by1] bx2] by2]. intros H. res_inv H. subst b. simpl. lia.
Qed.

Lemma candidate_ok width height tracks threshold r c :
  candidate width height tracks threshold r = Ok (Some c) → detection_ok width height tracks threshold c.
Proof.
  unfold candidate. intros H. apply result_bind_Ok in H as (b&Hb%clipped_box_Ok&H).
  destruct (_ && _) eqn:E; [|done]. apply andb_true_iff in E as [Ex%Z.ltb_lt Ey%Z.ltb_lt].
  assert (c = candidate_of b (raw_score r) ∧
    (fleb threshold (raw_score r) = true ∨ is_near_active_track c tracks = Ok true)) as [-> Hc].
  { simpl in H. destruct (fleb _ _) eqn:Et; [injection H as <-; auto|].
    apply result_bind_Ok in H as (near&Hn&H). destruct near; [|done]. injection H as <-. auto. }
  split; [simpl; unfold box_within; lia|]. split; [|done]. split; [done|]. simpl.
  split; (split; [apply Z.div_le_lower_bound|apply Z.div_lt_upper_bound]); lia.
Qed.

Lemma lookup_with_embedding (cs : list Detection) (es : list Emb) i d :
  zip_with with_embedding cs es !! i = Some d →
  ∃ c e, cs !! i = Some c ∧ d = with_embedding c e.
Proof. rewrite lookup_zip_with_Some. intros (c&e&->&Hc&_). eauto. Qed.

(** What a frame gives the tracker. *)
Record frame_detections (width height : Z) (tracks : list (Z * TrackProfile)) (threshold : Float)
    (ds : list Detection) : Prop := {
  fd_each d : d ∈ ds → detection_ok width height tracks threshold d ∧ is_Some (det_embedding d);
  fd_separated i j d e : (i < j)%nat → ds !! i = Some d → ds !! j = Some e →
    fleb (iou (det_bbox d) (det_bbox e)) PERSON_NMS_IOU_THRESHOLD = true ∧
    fltb (det_confidence d) (det_confidence e) = false;
}.

Lemma sublist_two {A} (l : list A) i j x y :
  (i < j)%nat → l !! i = Some x → l !! j = Some y → [x; y] `sublist_of` l.
Proof.
  revert i j. induction l as [|a l IH]; intros i j Hij Hi Hj; [done|].
  destruct i as [|i], j as [|j]; simplify_eq/=; [lia| |lia|].
  - apply sublist_skip, singleton_sublist_l. by eapply list_elem_of_lookup_2.
  - apply sublist_cons. eapply IH; [|done..]. lia.
Qed.

Lemma nms_pairs detections ks kept i j d e :
  nms_result detections ks kept → (i < j)%nat → kept !! i = Some d → kept !! j = Some e →
  fleb (iou (det_bbox d) (det_bbox e)) PERSON_NMS_IOU_THRESHOLD = true ∧
  fltb (det_confidence d) (det_confidence e) = false.
Proof.
  intros H Hij Hi Hj.
  destruct (Forall2_lookup_r _ _ _ _ _ (nms_lookup _ _ _ H) Hi) as (a&Ha&Hd).
  destruct (Forall2_lookup_r _ _ _ _ _ (nms_lookup _ _ _ H) Hj) as (b&Hb&He).
  pose proof (sublist_two ks i j a b Hij Ha Hb) as Hsub. split; [|by eapply nms_sorted].
  destruct (fleb _ _) eqn:E; [done|]. exfalso. apply (nms_separated _ _ _ H _ _ Hsub).
  exists (det_bbox d), (det_bbox e). by rewrite !list_lookup_fmap, Hd, He.
Qed.

Lemma extract_spec `{V : !Vision N Frame} rows (frame : Frame) rgb person tracks threshold ds :
  extract_person_detections rows frame rgb person tracks threshold = Ok ds →
  frame_detections (frame_width frame) (frame_height frame) tracks threshold ds.
Proof.
  unfold extract_person_detections. intros H. apply result_bind_Ok in H as (cands&Hc&H).
  apply result_bind_Ok in H as (kept&Hk&H).
  destruct (non_max_suppression_spec (omap id cands)) as (ks&kept'&Hk'&Hnms). rewrite Hk in Hk'. injection Hk' as <-.
  case_bool_decide as Hlen; [injection H as <-; split; [by intros ? ?%elem_of_nil|done]|].
  apply result_bind_Ok in H as (es&_&H). injection H as <-. split.
  - intros d [i Hi]%list_elem_of_lookup. apply lookup_with_embedding in Hi as (c&e&Hc1&->).
    split; [|by eexists]. destruct (Forall2_lookup_r _ _ _ _ _ (nms_lookup _ _ _ Hnms) Hc1) as (k&_&Hin).
    apply list_elem_of_lookup_2, list_elem_of_omap in Hin as (o&Ho&E). simpl in E. subst o.
    apply map_result_Ok in Hc. apply list_elem_of_lookup in Ho as [j Hj].
    eapply Forall2_lookup_r in Hj as (r&_&Hr); [|exact Hc]. by apply candidate_ok in Hr.
  - intros i j d e Hij Hi Hj. apply lookup_with_embedding in Hi as (c&?&Hi&->), Hj as (c'&?&Hj&->).
    by apply (nms_pairs _ _ _ i j c c' Hnms).
Qed.
End theorems.
