(* ===== verification/PipelineRun.v ===== *)
(** * pipelines/: one run over a video

    The driver that both pipelines share (open, read metadata, initialise, process the
    sampled batches, finalise whatever happens) and its two instances: RT-DETR with
    the associations of Tracking, RF-DETR with an external BoT-SORT tracker. *)
From S2P Require Export Prelude PyFloat PyRound PyDict PyVal VideoSampling Tracking FrameProcessing.

Module Pipeline.
Import Video Tracking Frames.

(** ** models.py: the result of a run *)

(** Without [processing_seconds], the wall clock. *)
Record RunResult := {
  telemetry : list (Z * PersonTelemetry);
  line_counts : list LineCountRecord;
  started : bool;
  initialized : bool;
  result_fps : Float;
  total_source_frames : Z;
  total_sampled_frames : Z;
  source_frames_read : Z;
  processed_frames : Z;
  sample_interval : Z;
  effective_sample_fps : Float;
  ended_early : bool;
  line_in_count : Z;
  line_out_count : Z;
  result_batch_size : Z;
  result_use_fp16 : bool;
  camera_motion_compensation : option bool;
}.

Definition fresh_result : RunResult := {|
  telemetry := []; line_counts := []; started := false; initialized := false;
  result_fps := fzero; total_source_frames := 0; total_sampled_frames := 0;
  source_frames_read := 0; processed_frames := 0; sample_interval := 1;
  effective_sample_fps := fzero; ended_early := false; line_in_count := 0; line_out_count := 0;
  result_batch_size := 1; result_use_fp16 := false; camera_motion_compensation := None |}.

(** What the pipelines read of their configuration; only RF-DETR has the choice of camera
    motion compensation. *)
Record Config := {
  cfg_batch_size : Z;
  cfg_sample_fps : option Float;
  cfg_detection_threshold : Float;
  cfg_use_fp16 : bool;
  cfg_line : option LineCoordinates;
  cfg_camera_motion_compensation : option bool;
}.

Section run.
Context {L : LineZones}.

(** The objects of a run that change: the result, the tracker of the pipeline, the line
    zone, the read state of the capture and whether it was released, and the results that
    the progress callback was shown. *)
Record Run (T : Type) := {
  run_result : RunResult;
  run_tracker : T;
  run_zone : option LineZone;
  run_read : FrameReadState;
  run_released : bool;
  run_progress : list RunResult;
}.
Arguments run_result {T}. Arguments run_tracker {T}. Arguments run_zone {T}.
Arguments run_read {T}. Arguments run_released {T}. Arguments run_progress {T}.

Definition modify_result {T} (f : RunResult → RunResult) : tx (Run T) unit :=
  tx_modify (λ s, {| s with run_result := f (run_result s) |}).
Definition set_tracker {T} (t : T) : tx (Run T) unit := tx_modify (λ s, {| s with run_tracker := t |}).
Definition set_zone {T} (z : option LineZone) : tx (Run T) unit := tx_modify (λ s, {| s with run_zone := z |}).
Definition set_read {T} (st : FrameReadState) : tx (Run T) unit := tx_modify (λ s, {| s with run_read := st |}).
Definition release {T} : tx (Run T) unit := tx_modify (λ s, {| s with run_released := true |}).

Definition ensure_unused {T} : tx (Run T) unit :=
  s ← tx_get;
  tx_require (negb (started (run_result s) || initialized (run_result s))) RuntimeError;;
  modify_result (λ r, {| r with started := true |}).

Definition _notify_progress {T} : tx (Run T) unit :=
  tx_modify (λ s, {| s with run_progress := run_progress s ++ [run_result s] |}).

(** [result.processed_frames += n]. *)
Definition add_processed {T} (n : nat) : tx (Run T) unit :=
  modify_result (λ r, {| r with processed_frames := (processed_frames r + Z.of_nat n)%Z |}).

(** [record_line_counts] on the zone and the records of the run. *)
Definition count_lines {T} (detections : list (Z * Box)) (source_frame_index : Z) (fps : Float)
    (line : option LineCoordinates) : tx (Run T) unit := λ s,
  let result := run_result s in
  let '(r, (zone, records)) :=
    record_line_counts detections source_frame_index fps line (run_zone s, line_counts result) in
  (r, {| s with run_zone := zone; run_result := {| result with line_counts := records |} |}).

(** The fields of the result that the initialisation of both pipelines fills in. *)
Definition initialized_result (cfg : Config) (metadata : VideoMetadata) (sampling : SamplingConfig)
    (r : RunResult) : RunResult :=
  {| r with
     result_fps := vm_fps metadata;
     total_source_frames := vm_total_source_frames metadata;
     total_sampled_frames := sc_total_sampled_frames sampling;
     sample_interval := sc_interval sampling;
     effective_sample_fps := sc_effective_fps sampling;
     result_batch_size := cfg_batch_size cfg;
     result_use_fp16 := cfg_use_fp16 cfg;
     initialized := true |}.

(** ** The driver *)

Definition finalize_run {T} : tx (Run T) unit :=
  release;;
  s ← tx_get;
  modify_result (λ r, {| r with
    source_frames_read := rs_source_frames_read (run_read s);
    ended_early := rs_ended_early (run_read s) |});;
  match initialized (run_result s), run_zone s with
  | true, Some zone => modify_result (λ r, {| r with
      line_in_count := in_count zone; line_out_count := out_count zone |})
  | _, _ => mret tt
  end.

(** [try: m finally: finalize_run(...)]. *)
Definition finally {T A} (r : result A * Run T) : result A * Run T := (r.1, (finalize_run r.2).2).

Section driver.
Context {T Setup Cap Frame Spec : Type} `{!EqDecision Spec} `{!VideoCapture Cap Frame}.
Context (cfg : Config) (initialize_run_state : VideoMetadata → tx (Run T) (SamplingConfig * Setup)).
Context (process_frame_batch : SamplingConfig * Setup → FrameBatch Frame → tx (Run T) unit).

(** The loop over the generator: the read state is as the reader left it at each batch. *)
Definition process_batches (setup : SamplingConfig * Setup) (r : Reading Frame) : tx (Run T) unit :=
  tx_for (λ y, set_read y.2;; process_frame_batch setup y.1) (rd_yields r);;
  set_read (rd_state r);;
  tx_lift (rd_outcome r).

(** Up to the [try]: the runtime must fit, the result must be unused, the video must
    open and have metadata.  [fps], ... are the properties of the capture. *)
Definition open_video (spec expected_spec : Spec) (capture : Cap)
    (fps frame_width frame_height frame_count : Float) : tx (Run T) VideoMetadata :=
  tx_require (bool_decide (spec = expected_spec)) RuntimeCompatibilityError;;
  ensure_unused;;
  tx_require (isOpened capture) RuntimeError;;
  match read_video_metadata fps frame_width frame_height frame_count with
  | Ok metadata => mret metadata
  | Err e => release;; tx_raise e
  end.

(** None when [fuel] does not suffice to read the video. *)
Definition run_with_runtime (fuel : nat) (spec expected_spec : Spec) (capture : Cap)
    (fps frame_width frame_height frame_count : Float) (s : Run T) : option (result RunResult * Run T) :=
  match open_video spec expected_spec capture fps frame_width frame_height frame_count s with
  | (Err e, s) => Some (Err e, s)
  | (Ok metadata, s) =>
      match initialize_run_state metadata s with
      | (Err e, s) => Some (finally (Err e, s))
      | (Ok setup, s) =>
          reading ← iter_sampled_frame_batches fuel capture (sc_interval setup.1) (cfg_batch_size cfg)
                      (vm_total_source_frames metadata) unread;
          let '(r, s) := finally (process_batches setup reading s) in
          Some (match r with Ok _ => Ok (run_result s) | Err e => Err e end, s)
      end
  end.
End driver.

(** ** pipelines/rtdetr_osnet.py *)

Definition MAX_REENTRY_SECONDS : Float := float_of_Z 30.
Definition MAX_CENTROID_SPEED_FRAME_HEIGHTS_PER_SECOND : Float := flit 75 100.

Section rtdetr.
Context {N : Numerics} {Sort : Argsort} {Frame : Type} {V : Vision N Frame}.
Context (cfg : Config) (person_class_id : Z).

Record RTDetrRunState := {
  st_metadata : VideoMetadata;
  st_max_disappeared_frames : Z;
  st_max_reentry_frames : Z;
  st_max_centroid_displacement : Float;
}.

Definition RTDetrRun : Type := Run RTDetrTrackingState.

Definition rtdetr_initialize (metadata : VideoMetadata) : tx RTDetrRun (SamplingConfig * RTDetrRunState) :=
  zone ← tx_lift (create_line_zone (cfg_line cfg) (vm_width metadata) (vm_height metadata));
  sampling ← tx_lift (sampling_config (vm_fps metadata) (cfg_sample_fps cfg)
                        (vm_total_source_frames metadata));
  max_disappeared_frames ← tx_lift (disappeared_frames_for_sample_rate (sc_effective_fps sampling));
  modify_result (initialized_result cfg metadata sampling);;
  _notify_progress;;
  max_reentry_frames ← tx_lift (py_round (fmul MAX_REENTRY_SECONDS (vm_fps metadata)));
  frame_height ← tx_lift (py_float_of_int (vm_height metadata));
  max_centroid_displacement ← tx_lift (py_fdiv
    (fmul frame_height MAX_CENTROID_SPEED_FRAME_HEIGHTS_PER_SECOND) (sc_effective_fps sampling));
  set_zone zone;;
  mret (sampling, {| st_metadata := metadata;
    st_max_disappeared_frames := max_disappeared_frames;
    st_max_reentry_frames := max_reentry_frames;
    st_max_centroid_displacement := max_centroid_displacement |}).

(** The telemetry of the tracking state is the dict of the result. *)
Definition on_tracking {A} (m : tx RTDetrTrackingState A) : tx RTDetrRun A := λ s,
  let tracking := run_tracker s in
  let result := run_result s in
  let '(r, tracking') := m {| tracking with ts_telemetry := telemetry result |} in
  (r, {| s with run_tracker := tracking';
                run_result := {| result with telemetry := ts_telemetry tracking' |} |}).

(** The call of [associate_detections]. *)
Definition frame_input (setup : SamplingConfig * RTDetrRunState) (source_frame_index : Z)
    (detections : list Detection) : AssociationInput := {|
  in_detections := detections;
  in_source_frame_index := source_frame_index;
  in_max_centroid_displacement := st_max_centroid_displacement setup.2;
  in_max_disappeared_frames := st_max_disappeared_frames setup.2;
  in_max_reentry_frames := st_max_reentry_frames setup.2;
  in_sample_interval := sc_interval setup.1;
  in_activation_threshold := cfg_detection_threshold cfg |}.

Definition rtdetr_process_frame (setup : SamplingConfig * RTDetrRunState)
    (x : Z * Frame * Rgb * list RawDetection) : tx RTDetrRun unit :=
  let '(source_frame_index, frame, rgb_frame, detector_result) := x in
  s ← tx_get;
  detections ← tx_lift (extract_person_detections detector_result frame rgb_frame person_class_id
    (ts_tracks (run_tracker s)) (cfg_detection_threshold cfg));
  on_tracking (associate_detections (frame_input setup source_frame_index detections));;
  s ← tx_get;
  match run_zone s with
  | None => mret tt
  | Some _ => count_lines (active_track_detections (ts_tracks (run_tracker s))) source_frame_index
      (vm_fps (st_metadata setup.2)) (cfg_line cfg)
  end.

Definition rtdetr_process_frame_batch (setup : SamplingConfig * RTDetrRunState)
    (frame_batch : FrameBatch Frame) : tx RTDetrRun unit :=
  let rgb_frames := to_rgb ∘ snd <$> frame_batch in
  detector_results ← tx_lift (predict_detector_results frame_batch.*2 rgb_frames);
  tx_for (rtdetr_process_frame setup) (zip (zip frame_batch rgb_frames) detector_results);;
  add_processed (length frame_batch);;
  _notify_progress.

Definition rtdetr_run_with_runtime {Cap Spec} `{!EqDecision Spec} `{!VideoCapture Cap Frame}
    : nat → Spec → Spec → Cap → Float → Float → Float → Float → RTDetrRun →
      option (result RunResult * RTDetrRun) :=
  run_with_runtime cfg rtdetr_initialize rtdetr_process_frame_batch.

(** The state of a run before it starts. *)
Definition rtdetr_start (r : RunResult) : RTDetrRun := {|
  run_result := r; run_tracker := fresh_tracking; run_zone := None; run_read := unread;
  run_released := false; run_progress := [] |}.
End rtdetr.

(** ** pipelines/rfdetr_botsort.py *)

(** RF-DETR and the BoT-SORT tracker.  [people] selects the detections of class person,
    None without class names; [update] gives the tracked boxes with their ids, None
    when it assigned none; -1 marks a track that is not confirmed. *)
Class RFDetr (Frame : Type) := {
  RFRgb : Type;
  rf_rgb : Frame → RFRgb;
  RFDetections : Type;
  rf_predict : list RFRgb → result (option (list RFDetections));   (* None: not a list *)
  people : RFDetections → option RFDetections;
  Tracker : Type;
  botsort : Float → Z → Float → bool → Tracker;
  update : Tracker → RFDetections → Frame → Float → option (list (Z * Box)) * Tracker;
}.

(** The model answers for every frame of a batch. *)
Class RFDetrLaws {Frame : Type} (R : RFDetr Frame) : Prop := {
  rf_predict_length frames l : rf_predict frames = Ok (Some l) → length l = length frames;
}.

Section rfdetr.
Context {Frame : Type} {R : RFDetr Frame}.
Context (cfg : Config).

Record RFDetrRunState := { rf_metadata : VideoMetadata; rf_lost_track_buffer : Z }.

(** The tracker, and the cache of coasting tracks. *)
Record RFDetrTracking := { rf_tracker : Tracker; rf_line_track_cache : list (Z * CoastingTrack) }.

Definition RFDetrRun : Type := Run RFDetrTracking.

Definition rfdetr_initialize (metadata : VideoMetadata) : tx RFDetrRun (SamplingConfig * RFDetrRunState) :=
  zone ← tx_lift (create_line_zone (cfg_line cfg) (vm_width metadata) (vm_height metadata));
  sampling ← tx_lift (sampling_config (vm_fps metadata) (cfg_sample_fps cfg)
                        (vm_total_source_frames metadata));
  let enable_cmc := match cfg_camera_motion_compensation cfg with
                    | Some b => b | None => (sc_interval sampling =? 1)%Z end in
  lost_track_buffer ← tx_lift (lost_track_buffer_for_sample_rate (sc_effective_fps sampling));
  let tracker := botsort (vm_fps metadata) lost_track_buffer (cfg_detection_threshold cfg) enable_cmc in
  modify_result (λ r, let r := initialized_result cfg metadata sampling r in
    {| r with camera_motion_compensation := Some enable_cmc |});;
  _notify_progress;;
  set_tracker {| rf_tracker := tracker; rf_line_track_cache := [] |};;
  set_zone zone;;
  mret (sampling, {| rf_metadata := metadata; rf_lost_track_buffer := lost_track_buffer |}).

Definition _confirmed_people (fps : Float) (detections : RFDetections) (frame : Frame)
    (source_frame_index : Z) : tx RFDetrRun (option (list (Z * Box))) :=
  match people detections with
  | None => tx_raise RuntimeError
  | Some selected =>
      index ← tx_lift (py_float_of_int source_frame_index);
      timestamp ← tx_lift (py_fdiv index fps);
      s ← tx_get;
      let tracking := run_tracker s in
      let '(tracked_people, tracker) := update (rf_tracker tracking) selected frame timestamp in
      set_tracker {| tracking with rf_tracker := tracker |};;
      mret (List.filter (λ x : Z * Box, 0 <=? x.1)%Z <$> tracked_people)
  end.

(** One tracker id. *)
Definition record_person (source_frame_index interval : Z) (d : list (Z * PersonTelemetry))
    (person_id : Z) : list (Z * PersonTelemetry) :=
  match dget person_id d with
  | None => dset person_id {|
      pt_entry_frame := confirmed_entry_frame source_frame_index interval MIN_CONFIRMATION_FRAMES;
      pt_last_seen_frame := source_frame_index;
      pt_last_geometry := None |} d
  | Some record => dset person_id {| record with pt_last_seen_frame := source_frame_index |} d
  end.

Definition _record_telemetry (confirmed_people : option (list (Z * Box)))
    (source_frame_index interval : Z) : tx RFDetrRun unit :=
  modify_result (λ r, {| r with telemetry :=
    fold_left (record_person source_frame_index interval) (default [] confirmed_people).*1 (telemetry r) |}).

Definition rfdetr_process_frame (setup : SamplingConfig * RFDetrRunState)
    (x : Z * Frame * RFDetections) : tx RFDetrRun unit :=
  let '(source_frame_index, frame, detections) := x in
  let fps := vm_fps (rf_metadata setup.2) in
  confirmed_people ← _confirmed_people fps detections frame source_frame_index;
  s ← tx_get;
  match run_zone s with
  | None => mret tt
  | Some _ =>
      seconds ← tx_lift (py_truediv (rf_lost_track_buffer setup.2) 30);
      max_coast_source_frames ← tx_lift (py_round (fmul seconds fps));
      let tracking := run_tracker s in
      let '(cache, coasting) := coasting_track_detections confirmed_people source_frame_index
        max_coast_source_frames (rf_line_track_cache tracking) in
      set_tracker {| tracking with rf_line_track_cache := cache |};;
      count_lines coasting source_frame_index fps (cfg_line cfg)
  end;;
  _record_telemetry confirmed_people source_frame_index (sc_interval setup.1).

Definition rfdetr_process_frame_batch (setup : SamplingConfig * RFDetrRunState)
    (frame_batch : FrameBatch Frame) : tx RFDetrRun unit :=
  let rgb_frames := rf_rgb ∘ snd <$> frame_batch in
  predicted ← tx_lift (rf_predict rgb_frames);
  match predicted with
  | None => tx_raise RuntimeError
  | Some detections_batch =>
      tx_for (rfdetr_process_frame setup) (zip frame_batch detections_batch);;
      add_processed (length frame_batch);;
      _notify_progress
  end.

Definition rfdetr_run_with_runtime {Cap Spec} `{!EqDecision Spec} `{!VideoCapture Cap Frame}
    : nat → Spec → Spec → Cap → Float → Float → Float → Float → RFDetrRun →
      option (result RunResult * RFDetrRun) :=
  run_with_runtime cfg rfdetr_initialize rfdetr_process_frame_batch.
End rfdetr.
End run.
Arguments run_result {L T}. Arguments run_tracker {L T}. Arguments run_zone {L T}.
Arguments run_read {L T}. Arguments run_released {L T}. Arguments run_progress {L T}.
End Pipeline.
