(* ===== verification/PipelineDriver.v ===== *)
(** * pipelines/: the driver of a run, for both pipelines

    A run over a video ends and releases the capture; an invariant of the processed
    frames carries over the batches to the result ([run_invariant]); the records of
    the counting line follow the frames. *)
From S2P Require Export Prelude PyFloat PyRound PyDict VideoSampling Tracking FrameProcessing PipelineRun.
Import Video Tracking Frames Pipeline.
Local Open Scope Z_scope.

(** ** The sampled indices *)

Lemma sampled_index {Frame} interval index (fs : list Frame) x :
  0 < interval → x ∈ (sampled interval index fs).*1 →
  index ≤ x < index + Z.of_nat (length fs) ∧ x mod interval = 0.
Proof.
  intros Hi. revert index. induction fs as [|f fs IH]; intros index; simpl; [set_solver|].
  rewrite fmap_app, elem_of_app. intros [H|H%IH]; [|lia].
  destruct (Z.eqb_spec (index mod interval) 0); [|set_solver].
  apply list_elem_of_singleton in H. simpl in H. subst. lia.
Qed.

Lemma sampled_ascending {Frame} interval index (fs : list Frame) :
  0 < interval → StronglySorted Z.lt (sampled interval index fs).*1.
Proof.
  intros Hi. revert index. induction fs as [|f fs IH]; intros index; simpl; [constructor|].
  destruct (index mod interval =? 0); simpl; [|apply IH]. constructor; [apply IH|].
  apply Forall_forall. intros x Hx. apply sampled_index in Hx; [lia|done].
Qed.

Lemma ascending_split (l k : list Z) x : StronglySorted Z.lt (l ++ x :: k) → ∀ y, y ∈ l → y < x.
Proof.
  induction l as [|z l IH]; simpl; [set_solver|]. intros H. apply StronglySorted_inv in H as [Hs Hz].
  intros y [->|Hy]%elem_of_cons; [|by apply IH]. rewrite Forall_forall in Hz. apply Hz. set_solver.
Qed.

(** ** The driver *)

Section driver.
Context {L : LineZones} {T Setup Cap Frame Spec : Type} `{!EqDecision Spec} `{!VideoCapture Cap Frame}.
Context (cfg : Config) (init : VideoMetadata → tx (Run T) (SamplingConfig * Setup)).
Context (process : SamplingConfig * Setup → FrameBatch Frame → tx (Run T) unit).
Implicit Types s : Run T.

(** What finalising leaves of the run. *)
Lemma finalize_run_eq s : ∃ r', (finalize_run s).1 = Ok tt ∧
  (finalize_run s).2 = {| run_result := r'; run_tracker := run_tracker s; run_zone := run_zone s;
    run_read := run_read s; run_released := true; run_progress := run_progress s |} ∧
  telemetry r' = telemetry (run_result s) ∧ line_counts r' = line_counts (run_result s) ∧
  started r' = started (run_result s) ∧ processed_frames r' = processed_frames (run_result s) ∧
  sample_interval r' = sample_interval (run_result s) ∧
  source_frames_read r' = rs_source_frames_read (run_read s) ∧
  ended_early r' = rs_ended_early (run_read s) ∧
  ∀ z, run_zone s = Some z → initialized (run_result s) = true →
    line_in_count r' = in_count z ∧ line_out_count r' = out_count z.
Proof.
  destruct s as [r t z st rel pr]. unfold finalize_run, release, modify_result, mbind, tx_bind, tx_modify, tx_get. simpl.
  destruct (initialized r) eqn:Ei, z as [z|]; (eexists; split; [done|]; split; [done|]); cbn; do 7 (split; [done|]); naive_solver.
Qed.

(** A run that returns: every step did. *)
Lemma run_Ok fuel (spec expected : Spec) (capture : Cap) fps w h n s r s' :
  run_with_runtime cfg init process fuel spec expected capture fps w h n s = Some (Ok r, s') →
  ∃ metadata s1 setup s2 reading s3,
    open_video spec expected capture fps w h n s = (Ok metadata, s1) ∧
    init metadata s1 = (Ok setup, s2) ∧
    iter_sampled_frame_batches fuel capture (sc_interval setup.1) (cfg_batch_size cfg)
      (vm_total_source_frames metadata) unread = Some reading ∧
    process_batches process setup reading s2 = (Ok tt, s3) ∧
    s' = (finalize_run s3).2 ∧ r = run_result s'.
Proof.
  unfold run_with_runtime. destruct (open_video _ _ _ _ _ _ _ s) as [[metadata|e] s1] eqn:Eo; [|done].
  destruct (init metadata s1) as [[setup|e] s2] eqn:Ei; [|done].
  destruct (iter_sampled_frame_batches _ _ _ _ _ _) as [reading|] eqn:Er; [|done]. simpl.
  destruct (process_batches process setup reading s2) as [[[]|e] s3] eqn:Ep; unfold finally; simpl; [|done].
  intros [= <- <-]. exists metadata, s1, setup, s2, reading, s3. auto 10.
Qed.

(** A run ends, and it releases the capture that it opened whatever happens. *)
Lemma run_finishes fuel (spec expected : Spec) (capture : Cap) fps w h n fs s :
  (∀ metadata s1 setup s2, init metadata s1 = (Ok setup, s2) → 0 < sc_interval setup.1) →
  0 < cfg_batch_size cfg → delivers capture fs → (length fs < fuel)%nat →
  spec = expected → started (run_result s) = false → initialized (run_result s) = false →
  ∃ outcome s', run_with_runtime cfg init process fuel spec expected capture fps w h n s = Some (outcome, s') ∧
    run_released s' = true.
Proof.
  intros Hinit Hb D Hf -> Hs Hi. assert (isOpened capture = true) as Ho by (by inversion D).
  assert (∀ x : result unit * Run T, run_released (finally x).2 = true) as Hfin.
  { intros [o s0]. unfold finally. simpl. by destruct (finalize_run_eq s0) as (?&_&->&_). }
  unfold run_with_runtime, open_video, ensure_unused, tx_require, mbind, tx_bind, tx_lift, tx_get, modify_result, tx_modify.
  rewrite bool_decide_eq_true_2, Hs, Hi, Ho by done. simpl.
  destruct (read_video_metadata fps w h n) as [m|e]; [|by eexists _, _].
  cbv [mret tx_ret]. destruct (init m _) as [[setup|e] s2] eqn:Ei.
  - destruct (read_frames_spec (sc_interval setup.1) (cfg_batch_size cfg) (vm_total_source_frames m)
      (Hinit _ _ _ _ Ei) Hb fuel capture fs 0 [] unread D Hf ltac:(simpl; lia)) as (reading&Hr&_).
    unfold iter_sampled_frame_batches. rewrite Hr.
    specialize (Hfin (process_batches process setup reading s2)). unfold finally in *. simpl in *.
    by eexists _, _.
  - eexists _, _. split; [done|]. destruct (finalize_run_eq s2) as (?&_&E&_). unfold finally. simpl. by rewrite E.
Qed.

(** Opening changes only the [started] mark. *)
Lemma open_video_Ok (spec expected : Spec) (capture : Cap) fps w h n s metadata s1 :
  open_video spec expected capture fps w h n s = (Ok metadata, s1) →
  spec = expected ∧ started (run_result s) = false ∧ initialized (run_result s) = false ∧
  isOpened capture = true ∧ read_video_metadata fps w h n = Ok metadata ∧
  let r := run_result s in
  s1 = {| s with run_result := {| r with started := true |} |}.
Proof.
  unfold open_video, ensure_unused. intros H. apply tx_bind_Ok in H as ([]&s2&[Hs ->]%tx_require_Ok&H).
  apply bool_decide_eq_true in Hs.
  apply tx_bind_Ok in H as ([]&s3&H1&H). apply tx_bind_Ok in H1 as (a&s4&[-> ->]%tx_get_Ok&H1).
  apply tx_bind_Ok in H1 as ([]&s5&[Hu ->]%tx_require_Ok&H1). apply tx_modify_Ok in H1 as ->.
  apply tx_bind_Ok in H as ([]&s6&[Ho ->]%tx_require_Ok&H).
  apply negb_true_iff, orb_false_iff in Hu as [Hu1 Hu2].
  destruct (read_video_metadata fps w h n) as [m|e] eqn:Em; [|by apply tx_bind_Ok in H as (?&?&_&?%tx_raise_Ok)].
  apply tx_ret_Ok in H as [-> ->]. auto 10.
Qed.

(** An invariant of the frames carries over the batches. *)
Lemma process_batches_ind (P : list (Z * Frame) → Run T → Prop) setup reading s s' :
  (∀ fs s st, P fs s → P fs {| s with run_read := st |}) →
  (∀ before batch after s s', concat (fst <$> rd_yields reading) = before ++ batch ++ after →
     P before s → process setup batch s = (Ok tt, s') → P (before ++ batch) s') →
  P [] s → process_batches process setup reading s = (Ok tt, s') →
  P (concat (fst <$> rd_yields reading)) s' ∧ run_read s' = rd_state reading ∧ rd_outcome reading = Ok tt.
Proof.
  intros Hread Hstep H0 H. unfold process_batches in H.
  apply tx_bind_Ok in H as ([]&s1&H1&H). apply tx_bind_Ok in H as ([]&s2&H2%tx_modify_Ok&H).
  apply tx_lift_Ok in H as [Ho ->]. subst s2. split; [|by split].
  apply Hread. revert H1.
  apply (tx_for_prefix (λ done s, P (concat (fst <$> done)) s)); [|exact H0].
  intros done y rest s2 s3 E HP H. apply tx_bind_Ok in H as ([]&s4&H2%tx_modify_Ok&H).
  rewrite fmap_app, concat_app. simpl. rewrite app_nil_r.
  eapply Hstep; [|by apply Hread|subst s4; exact H].
  by rewrite E, fmap_app, concat_app, fmap_cons.
Qed.

(** A run that returns carries an invariant of the sampled frames to its result. *)
Lemma run_invariant (P : SamplingConfig * Setup → list (Z * Frame) → Run T → Prop)
    fuel (spec expected : Spec) (capture : Cap) fps w h n fs r s s' :
  0 < cfg_batch_size cfg → delivers capture fs → (length fs < fuel)%nat →
  (∀ metadata s1 setup s2, init metadata s1 = (Ok setup, s2) →
     run_tracker s1 = run_tracker s → run_zone s1 = run_zone s →
     (let r0 := run_result s in run_result s1 = {| r0 with started := true |}) →
     0 < sc_interval setup.1 ∧ P setup [] s2) →
  (∀ setup xs s st, P setup xs s → P setup xs {| s with run_read := st |}) →
  (∀ setup before batch s s', StronglySorted Z.lt (before ++ batch).*1 → 0 < sc_interval setup.1 →
     P setup before s → process setup batch s = (Ok tt, s') → P setup (before ++ batch) s') →
  run_with_runtime cfg init process fuel spec expected capture fps w h n s = Some (Ok r, s') →
  ∃ setup s3, 0 < sc_interval setup.1 ∧ P setup (sampled (sc_interval setup.1) 0 fs) s3 ∧
    rs_source_frames_read (run_read s3) = Z.of_nat (length fs) ∧
    s' = (finalize_run s3).2 ∧ r = run_result s'.
Proof.
  intros Hbatch D Hfuel Hinit Hread Hstep H.
  apply run_Ok in H as (metadata&s1&setup&s2&reading&s3&Ho&Hi&Hr&Hp&->&->).
  apply open_video_Ok in Ho as (_&_&_&_&_&->). apply Hinit in Hi as [Hint HP]; [|done..].
  destruct (read_frames_spec (sc_interval setup.1) (cfg_batch_size cfg) (vm_total_source_frames metadata)
    Hint Hbatch fuel capture fs 0 [] unread D Hfuel ltac:(simpl; lia)) as (reading'&Hr'&[_ Hframes _ Hrd _]).
  unfold iter_sampled_frame_batches in Hr. rewrite Hr in Hr'. injection Hr' as <-. simpl in Hframes.
  destruct (process_batches_ind (P setup) setup reading s2 s3) as (HP3&Hrs&_); [by apply Hread| |done|done|].
  - intros before batch after s0 s0' E HP0 Hb. eapply Hstep; [|done..].
    pose proof (sampled_ascending (sc_interval setup.1) 0 fs Hint) as Hs.
    rewrite <-Hframes, E, app_assoc, fmap_app in Hs. by apply StronglySorted_app in Hs as (_&?&_).
  - rewrite Hframes in HP3. exists setup, s3. split; [done|]. split; [done|]. rewrite Hrs, Hrd.
    split; [by destruct fs|done].
Qed.
End driver.

(** ** Line counts *)

Definition Zsum (l : list Z) : Z := foldr Z.add 0 l.

Lemma Zsum_app l k : Zsum (l ++ k) = Zsum l + Zsum k.
Proof. induction l as [|x l IH]; simpl; lia. Qed.

Section lines.
Context {L : LineZones} {LL : LineZonesLaws L} {T : Type}.
Implicit Types s : Run T.

(** The lines of the frames processed so far. *)
Definition lines_ok (line : option LineCoordinates) (done : list Z) s : Prop :=
  match line with
  | None => run_zone s = None ∧ line_counts (run_result s) = []
  | Some _ => ∃ z, run_zone s = Some z ∧ lc_frame <$> line_counts (run_result s) = done ∧
      in_count z = Zsum (lc_frame_in_count <$> line_counts (run_result s)) ∧
      out_count z = Zsum (lc_frame_out_count <$> line_counts (run_result s))
  end.

(** What processing a frame leaves alone. *)
Definition same_run s s' : Prop :=
  processed_frames (run_result s') = processed_frames (run_result s) ∧
  sample_interval (run_result s') = sample_interval (run_result s) ∧
  initialized (run_result s') = initialized (run_result s) ∧
  started (run_result s') = started (run_result s).

Lemma count_lines_Ok detections f fps line s s' z :
  run_zone s = Some z → count_lines detections f fps (Some line) s = (Ok tt, s') →
  ∃ z' rec, lc_frame rec = f ∧ in_count z' = in_count z + lc_frame_in_count rec ∧
    out_count z' = out_count z + lc_frame_out_count rec ∧
    let r := run_result s in
    s' = {| s with run_zone := Some z'; run_result := {| r with line_counts := line_counts r ++ [rec] |} |}.
Proof.
  intros Hz. unfold count_lines. destruct (record_line_counts _ _ _ _ _) as [r [z1 recs]] eqn:E. intros [= -> <-].
  unfold record_line_counts in E. apply tx_bind_Ok in E as (a&b&[-> ->]%tx_get_Ok&E).
  cbn [fst snd] in E. rewrite Hz in E.
  pose proof (trigger_counts z detections) as Ht. destruct (trigger z detections) as [[cin cout] z'].
  apply tx_bind_Ok in E as ([]&b&H1%tx_modify_Ok&E). subst b.
  apply tx_bind_Ok in E as (index&b&[_ ->]%tx_lift_Ok&E).
  apply tx_bind_Ok in E as (seconds&b&[_ ->]%tx_lift_Ok&E).
  apply tx_bind_Ok in E as (timestamp&b&[_ ->]%tx_lift_Ok&E).
  apply tx_modify_Ok in E. cbn [fst snd] in E. injection E as -> ->.
  destruct Ht as [H1 H2]. refine (ex_intro _ z' (ex_intro _ _ (conj _ (conj _ (conj _ eq_refl))))); done.
Qed.

Lemma create_line_zone_Ok line w h z : create_line_zone line w h = Ok z →
  match line with
  | None => z = None
  | Some _ => ∃ zone, z = Some zone ∧ in_count zone = 0 ∧ out_count zone = 0
  end.
Proof.
  unfold create_line_zone. destruct line as [[[[a b] c] d]|]; [|by intros [= <-]].
  intros H. res_inv H. subst z. destruct (line_zone_new (a, b) (c, d)). eauto.
Qed.

(** The totals that finalising a run copies from the line zone. *)
Definition line_totals (line : option LineCoordinates) (frames : list Z) (r : RunResult) : Prop :=
  match line with
  | None => line_counts r = []
  | Some _ => lc_frame <$> line_counts r = frames ∧
      line_in_count r = Zsum (lc_frame_in_count <$> line_counts r) ∧
      line_out_count r = Zsum (lc_frame_out_count <$> line_counts r)
  end.

Lemma finalize_lines line frames s :
  lines_ok line frames s → initialized (run_result s) = true →
  line_totals line frames (run_result (finalize_run s).2).
Proof.
  destruct (finalize_run_eq s) as (r'&_&->&_&El&_&_&_&_&_&Ecount). unfold lines_ok, line_totals. simpl. rewrite El.
  intros H Hin. destruct line; [|by destruct H]. destruct H as (z&Hz&Hf&Hi1&Ho1).
  by destruct (Ecount z Hz Hin) as [-> ->].
Qed.
End lines.
