(* ===== verification/PipelineTheorems.v ===== *)
(** * pipelines/rtdetr_osnet.py: what a run over a video guarantees

    [rt_ok] is the invariant between two frames of an RT-DETR run, over the indices of
    the frames processed so far; the driver carries it through the batches. *)
From S2P Require Export Prelude PyFloat PyRound PyDict VideoSampling Tracking TrackingInv TrackingTheorems FrameProcessing PipelineRun PipelineDriver.
Import Video Tracking Frames Pipeline.
Local Open Scope Z_scope.

Section rtdetr.
Context {N : Numerics} {NL : NumericsLaws N} {Sort : Argsort} {L : LineZones} {LL : LineZonesLaws L}.
Context {Frame : Type} {V : Vision N Frame} {VL : VisionLaws V}.
Implicit Types s : RTDetrRun.

(** The tracking state with its shared telemetry. *)
Definition view s : RTDetrTrackingState :=
  let t := run_tracker s in {| t with ts_telemetry := telemetry (run_result s) |}.

Lemma on_tracking_Ok {A} (m : tx RTDetrTrackingState A) s a s' :
  on_tracking m s = (Ok a, s') → ∃ t, m (view s) = (Ok a, t) ∧ view s' = t ∧
    let r := run_result s in
    s' = {| s with run_tracker := t; run_result := {| r with telemetry := ts_telemetry t |} |}.
Proof.
  unfold on_tracking. fold (view s). destruct (m (view s)) as [r t] eqn:E. intros [= -> <-].
  exists t. split; [done|]. split; [by destruct t|done].
Qed.

Record rt_ok (dis : Z) (line : option LineCoordinates) (done : list Z) s : Prop := {
  rt_tracking : match last done with
                | None => view s = fresh_tracking
                | Some f => tracking_ok f dis (view s)
                end;
  rt_seen id t : dget id (telemetry (run_result s)) = Some t →
    pt_entry_frame t ∈ done ∧ pt_last_seen_frame t ∈ done;
  rt_lines : lines_ok line done s;
}.

(** The tracking state and the telemetry after an association. *)
Lemma associate_frame inp (done : list Z) f0 ts ts' :
  in_sample_interval inp ≠ 0 → f0 < in_source_frame_index inp →
  tracking_ok f0 (in_max_disappeared_frames inp) ts →
  (∀ id t, dget id (ts_telemetry ts) = Some t → pt_entry_frame t ∈ done ∧ pt_last_seen_frame t ∈ done) →
  associate_detections inp ts = (Ok tt, ts') →
  tracking_ok (in_source_frame_index inp) (in_max_disappeared_frames inp) ts' ∧
  ∀ id t, dget id (ts_telemetry ts') = Some t →
    (pt_entry_frame t ∈ done ∨ pt_entry_frame t = f0) ∧
    (pt_last_seen_frame t ∈ done ∨ pt_last_seen_frame t = in_source_frame_index inp).
Proof.
  intros Hi Hf Hok Hseen Ha. pose proof (associate_safe inp f0 ts Hf Hi Hok) as H.
  unfold wp in H. rewrite Ha in H. split; [apply (ap_ok _ _ _ _ H)|]. intros id t Ht.
  destruct (Z.lt_ge_cases id (ts_next_track_id ts)) as [Hlt|Hge].
  - pose proof (dget_is_Some_1 _ _ _ Ht) as Hin. apply (ids_dom _ _ _ (ok_ids _ _ _ (ap_ok _ _ _ _ H))) in Hin.
    assert (id ∈ (ts_telemetry ts).*1) as [t0 Ht0]%dget_is_Some
      by (apply (ids_dom _ _ _ (ok_ids _ _ _ Hok)); lia).
    destruct (ap_persons _ _ _ _ H _ _ Ht0) as (t1&Ht1&He&Hl). assert (t1 = t) as -> by congruence.
    destruct (Hseen _ _ Ht0) as [H1 H2]. rewrite He. split; [by left|]. destruct Hl as [->|]; auto.
  - destruct (ap_new _ _ _ _ H _ _ Hge Ht) as [-> ->]. auto.
Qed.

(** The first frame confirms nobody. *)
Lemma associate_first inp ts' :
  in_sample_interval inp ≠ 0 → associate_detections inp fresh_tracking = (Ok tt, ts') →
  tracking_ok (in_source_frame_index inp) (in_max_disappeared_frames inp) ts' ∧
  ∀ id t, dget id (ts_telemetry ts') = Some t → False.
Proof.
  intros Hi Ha.
  destruct (associate_frame inp [] (in_source_frame_index inp - 1) fresh_tracking ts') as [H1 H2]; try done;
    [lia|apply fresh_tracking_ok|].
  destruct (associate_frame inp [] (in_source_frame_index inp - 2) fresh_tracking ts') as [_ H3]; try done;
    [lia|apply fresh_tracking_ok|].
  split; [done|]. intros id t Ht. destruct (H2 _ _ Ht) as [[?%elem_of_nil|E1] _]; [done|].
  destruct (H3 _ _ Ht) as [[?%elem_of_nil|E2] _]; [done|]. lia.
Qed.

Section frames.
Context (cfg : Config) (person_class_id : Z) (setup : SamplingConfig * RTDetrRunState).
Context (Hinterval : sc_interval setup.1 ≠ 0).
Let dis : Z := st_max_disappeared_frames setup.2.
Let line : option LineCoordinates := cfg_line cfg.

Lemma tracking_step done s f detections t :
  rt_ok dis line done s → (∀ y, y ∈ done → y < f) →
  associate_detections (frame_input cfg setup f detections) (view s) = (Ok tt, t) →
  tracking_ok f dis t ∧ ∀ id p, dget id (ts_telemetry t) = Some p →
    pt_entry_frame p ∈ done ++ [f] ∧ pt_last_seen_frame p ∈ done ++ [f].
Proof.
  intros H Hlt Ha. pose proof (rt_tracking _ _ _ _ H) as Ht. destruct (last done) as [f0|] eqn:El.
  - assert (f0 ∈ done) as Hin by (apply last_Some in El as [l ->]; set_solver).
    destruct (associate_frame (frame_input cfg setup f detections) done f0 (view s) t) as [H1 H2]; try done.
    + by apply Hlt.
    + apply (rt_seen _ _ _ _ H).
    + split; [exact H1|]. intros id p Hp. destruct (H2 _ _ Hp) as [[?| ->] [?| ->]]; set_solver.
  - rewrite Ht in Ha. destruct (associate_first (frame_input cfg setup f detections) t) as [H1 H2]; [done..|].
    split; [exact H1|]. intros id p Hp. by destruct (H2 _ _ Hp).
Qed.

Lemma process_frame_ok done s f frame rgb rows s' :
  rt_ok dis line done s → (∀ y, y ∈ done → y < f) →
  rtdetr_process_frame cfg person_class_id setup (f, frame, rgb, rows) s = (Ok tt, s') →
  rt_ok dis line (done ++ [f]) s' ∧ same_run s s'.
Proof.
  intros H Hlt E. unfold rtdetr_process_frame in E.
  apply tx_bind_Ok in E as (a&b&[-> ->]%tx_get_Ok&E).
  apply tx_bind_Ok in E as (detections&b&[_ ->]%tx_lift_Ok&E).
  apply tx_bind_Ok in E as ([]&s1&Ht&E). apply on_tracking_Ok in Ht as (t&Ha&Hv&Hs1). cbv zeta in Hs1.
  destruct (tracking_step done s f detections t H Hlt Ha) as [Hok Hseen].
  apply tx_bind_Ok in E as (a&b&[-> ->]%tx_get_Ok&E).
  assert (last (done ++ [f]) = Some f) as Hlast by apply last_snoc.
  pose proof (rt_lines _ _ _ _ H) as Hlines. unfold lines_ok in Hlines. fold line in E. destruct line as [l|] eqn:Eline.
  - destruct Hlines as (z&Hz&Hf&Hin&Hout). assert (run_zone s1 = Some z) as Hz1 by (by subst s1).
    rewrite Hz1 in E. apply (count_lines_Ok _ _ _ _ _ _ z) in E as (z'&rec&E1&E2&E3&->); [|done].
    subst s1. split; [|done]. split.
    + rewrite Hlast. by destruct t.
    + simpl. exact Hseen.
    + exists z'. simpl. split; [done|]. rewrite !fmap_app, !Zsum_app. simpl.
      rewrite Hf, E1, E2, E3, Hin, Hout. split; [done|]. lia.
  - destruct Hlines as [Hz Hl]. assert (run_zone s1 = None) as Hz1 by (by subst s1).
    rewrite Hz1 in E. apply tx_ret_Ok in E as [_ ->]. subst s1. split; [|done]. split.
    + rewrite Hlast. by destruct t.
    + simpl. exact Hseen.
    + by split.
Qed.

Lemma process_frames_ok xs done s s' :
  rt_ok dis line done s → StronglySorted Z.lt (done ++ ((λ x, x.1.1.1) <$> xs)) →
  tx_for (rtdetr_process_frame cfg person_class_id setup) xs s = (Ok tt, s') →
  rt_ok dis line (done ++ ((λ x, x.1.1.1) <$> xs)) s' ∧ same_run s s'.
Proof.
  revert done s. induction xs as [|[[[f frame] rgb] rows] xs IH]; intros done s H Hs E; simpl in *.
  - apply tx_ret_Ok in E as [_ ->]. by rewrite app_nil_r.
  - apply tx_bind_Ok in E as ([]&s1&E1&E).
    apply (process_frame_ok done) in E1 as [H1 (A1&A2&A3&A4)]; [|done|by eapply ascending_split].
    rewrite (cons_middle f), app_assoc in Hs |- *.
    destruct (IH _ _ H1 Hs E) as [H2 (B1&B2&B3&B4)]. split; [done|]. unfold same_run. split; [congruence|]. split; [congruence|]. split; congruence.
Qed.

Lemma zip_frames (batch : FrameBatch Frame) (rgb : list Rgb) (results : list (list RawDetection)) :
  length rgb = length batch → length results = length batch →
  (λ x, x.1.1.1) <$> zip (zip batch rgb) results = batch.*1.
Proof.
  revert rgb results. induction batch as [|x batch IH]; intros [|y rgb] [|z results]; simpl; try done.
  intros [= H1] [= H2]. f_equal. by apply IH.
Qed.

Lemma process_batch_ok batch done s s' :
  rt_ok dis line done s → StronglySorted Z.lt (done ++ batch.*1) →
  rtdetr_process_frame_batch cfg person_class_id setup batch s = (Ok tt, s') →
  rt_ok dis line (done ++ batch.*1) s' ∧
  processed_frames (run_result s') = processed_frames (run_result s) + Z.of_nat (length batch) ∧
  sample_interval (run_result s') = sample_interval (run_result s) ∧
  initialized (run_result s') = initialized (run_result s).
Proof.
  intros H Hs E. unfold rtdetr_process_frame_batch in E.
  apply tx_bind_Ok in E as (results&b&[Hp ->]%tx_lift_Ok&E). apply predict_length in Hp.
  rewrite length_fmap in Hp.
  apply tx_bind_Ok in E as ([]&s1&E1&E). apply tx_bind_Ok in E as ([]&s2&->%tx_modify_Ok&E).
  apply tx_modify_Ok in E as ->.
  assert ((λ x, x.1.1.1) <$> zip (zip batch (to_rgb ∘ snd <$> batch)) results = batch.*1) as Hz
    by (apply zip_frames; [by rewrite length_fmap|done]).
  apply (process_frames_ok _ done) in E1 as [H1 (A1&A2&A3&A4)]; [|done|by rewrite Hz].
  rewrite Hz in H1. split; [by destruct H1; split|]. simpl. rewrite A1. auto.
Qed.
End frames.

Lemma initialize_Ok cfg metadata s setup s' :
  rtdetr_initialize cfg metadata s = (Ok setup, s') →
  1 ≤ sc_interval setup.1 ∧ ∃ zone,
    create_line_zone (cfg_line cfg) (vm_width metadata) (vm_height metadata) = Ok zone ∧
    run_zone s' = zone ∧ run_tracker s' = run_tracker s ∧
    run_result s' = initialized_result cfg metadata setup.1 (run_result s).
Proof.
  unfold rtdetr_initialize. intros H.
  apply tx_bind_Ok in H as (zone&b&[Hz ->]%tx_lift_Ok&H).
  apply tx_bind_Ok in H as (sampling&b&[Hs ->]%tx_lift_Ok&H).
  apply tx_bind_Ok in H as (dis&b&[_ ->]%tx_lift_Ok&H).
  apply tx_bind_Ok in H as ([]&b&H1%tx_modify_Ok&H). apply tx_bind_Ok in H as ([]&c&H2%tx_modify_Ok&H).
  apply tx_bind_Ok in H as (reentry&d&[_ ->]%tx_lift_Ok&H).
  apply tx_bind_Ok in H as (hf&d&[_ ->]%tx_lift_Ok&H).
  apply tx_bind_Ok in H as (md&d&[_ ->]%tx_lift_Ok&H).
  apply tx_bind_Ok in H as ([]&d&H3%tx_modify_Ok&H). apply tx_ret_Ok in H as [-> ->]. subst.
  apply sampling_config_Ok in Hs as [Hs _]. split; [done|]. by exists zone.
Qed.

(** What a run over the frames [fs] returns. *)
Record run_counts {Fr} (cfg : Config) (fs : list Fr) (r : RunResult) : Prop := {
  rc_interval : 1 ≤ sample_interval r;
  (* persons are numbered consecutively, in the order of their confirmation *)
  rc_ids : (telemetry r).*1 = seqZ 1 (Z.of_nat (length (telemetry r)));
  (* each entered in a sampled frame and was last seen in a later one, within the video *)
  rc_seen id t : dget id (telemetry r) = Some t →
    pt_entry_frame t mod sample_interval r = 0 ∧ pt_last_seen_frame t mod sample_interval r = 0 ∧
    0 ≤ pt_entry_frame t < pt_last_seen_frame t ∧ pt_last_seen_frame t < Z.of_nat (length fs);
  rc_processed : processed_frames r = Z.of_nat (length (sampled (sample_interval r) 0 fs));
  rc_read : source_frames_read r = Z.of_nat (length fs);
  (* the line has one record per sampled frame, and the totals are their sums *)
  rc_lines : line_totals (cfg_line cfg) (sampled (sample_interval r) 0 fs).*1 r;
}.

Lemma telemetry_shape dis line done s : rt_ok dis line done s →
  (telemetry (run_result s)).*1 = seqZ 1 (Z.of_nat (length (telemetry (run_result s)))) ∧
  ∀ id t, dget id (telemetry (run_result s)) = Some t → pt_entry_frame t < pt_last_seen_frame t.
Proof.
  intros Hok. pose proof (rt_tracking _ _ _ _ Hok) as Ht. destruct (last _) as [f|].
  - pose proof (ok_ids _ _ _ Ht) as Hi1. pose proof (ids_telemetry _ _ Hi1) as E1. simpl in E1. split.
    + rewrite E1. pose proof (f_equal length E1) as E2. rewrite length_fmap, length_seqZ in E2. rewrite E2.
      pose proof (ids_next _ _ Hi1) as E3. simpl in E3. f_equal. lia.
    + intros id t Hid. by destruct (ids_seen _ _ Hi1 id t Hid) as [[? _] _].
  - apply (f_equal ts_telemetry) in Ht. simpl in Ht. rewrite Ht. done.
Qed.

Section whole_run.
Context {Cap Spec : Type} `{!EqDecision Spec} `{!VideoCapture Cap Frame}.
Context (cfg : Config) (person_class_id : Z) (Hbatch : 0 < cfg_batch_size cfg).

Lemma run_starts (metadata : VideoMetadata) s1 setup s2 :
  run_result s1 = {| fresh_result with started := true |} → run_tracker s1 = fresh_tracking →
  rtdetr_initialize cfg metadata s1 = (Ok setup, s2) →
  rt_ok (st_max_disappeared_frames setup.2) (cfg_line cfg) [] s2.
Proof.
  intros Hr Ht Hi. apply initialize_Ok in Hi as (_&zone&Hz&Ez&Et&Er). split.
  - simpl. unfold view. by rewrite Er, Et, Ht, Hr.
  - rewrite Er, Hr. done.
  - unfold lines_ok. rewrite Er, Hr, Ez. apply create_line_zone_Ok in Hz.
    destruct (cfg_line cfg); [|done]. destruct Hz as (z&->&E1&E2). exists z. by rewrite E1, E2.
Qed.

Lemma run_returns fuel (spec expected : Spec) (capture : Cap) fps w h n fs r s :
  delivers capture fs → (length fs < fuel)%nat →
  rtdetr_run_with_runtime cfg person_class_id fuel spec expected capture fps w h n
    (rtdetr_start fresh_result) = Some (Ok r, s) →
  run_counts cfg fs r.
Proof.
  intros D Hfuel H.
  apply (run_invariant cfg _ _ (λ setup xs s,
    rt_ok (st_max_disappeared_frames setup.2) (cfg_line cfg) xs.*1 s ∧
    processed_frames (run_result s) = Z.of_nat (length xs) ∧
    sample_interval (run_result s) = sc_interval setup.1 ∧ initialized (run_result s) = true)
    _ _ _ _ _ _ _ _ fs) in H; [|done..| | |].
  - destruct H as (setup&s3&Hint&(Hok&Hproc&Hsi&Hin)&Hrs&->&->).
    pose proof (finalize_lines _ _ _ (rt_lines _ _ _ _ Hok) Hin) as Hlines.
    destruct (telemetry_shape _ _ _ _ Hok) as [Hids Hord]. revert Hlines.
    destruct (finalize_run_eq s3) as (r'&_&->&Et&_&_&Epr&Esi&Erd&_&_). simpl.
    split; rewrite ?Esi, ?Hsi, ?Et, ?Epr, ?Hproc, ?Erd; try done; [lia|].
    intros id t Hid. destruct (rt_seen _ _ _ _ Hok _ _ Hid) as [H1 H2]. pose proof (Hord _ _ Hid).
    apply sampled_index in H1, H2; [|lia..]. lia.
  - intros metadata s1 setup s2 Hi Ht _ Er. pose proof Hi as Hi'. apply run_starts in Hi'; [|done..].
    apply initialize_Ok in Hi as (Hint&zone&_&_&_&Er2). split; [lia|]. rewrite Er2, Er. by split.
  - intros setup xs s' st ([] &?&?&?). split; [by split|done].
  - intros setup before batch s1 s2 Hs Hint (H1&H2&H3&H4) Hb. rewrite fmap_app in Hs.
    apply (process_batch_ok cfg person_class_id setup ltac:(lia) batch before.*1) in Hb as (B1&B2&B3&B4); [|done..].
    rewrite fmap_app, length_app, B2, B3, B4. split; [done|]. split; [lia|done].
Qed.
End whole_run.
End rtdetr.
