(* ===== verification/RFDetrTheorems.v ===== *)
(** * pipelines/rfdetr_botsort.py: the BoT-SORT pipeline

    The tracker is external, so a run is described by its sightings: the confirmed
    ids of each sampled frame.  The telemetry is exactly their summary, and the tracks
    shown to the counting line are exactly those sighted recently. *)
From S2P Require Export Prelude PyFloat PyRound PyDict VideoSampling Tracking FrameProcessing PipelineRun PipelineDriver.
Import Video Tracking Frames Pipeline.
Local Open Scope Z_scope.

(** ** Telemetry *)

(** One frame: its index and the ids confirmed in it. *)
Definition record_frame (interval : Z) (d : list (Z * PersonTelemetry)) (x : Z * list Z) :
    list (Z * PersonTelemetry) := fold_left (record_person x.1 interval) x.2 d.

(** The frames of a person. *)
Definition sightings (id : Z) (seen : list (Z * list Z)) : list Z :=
  (List.filter (λ x, bool_decide (id ∈ x.2)) seen).*1.

(** What the telemetry says of a person: two sampled frames make a confirmed track, so it
    entered one interval before the first sighting, but not before the video. *)
Definition summary (interval : Z) (seen : list (Z * list Z)) (id : Z) : option PersonTelemetry :=
  match sightings id seen with
  | [] => None
  | first :: rest => Some {| pt_entry_frame := Z.max 0 (first - interval);
                             pt_last_seen_frame := List.last rest first; pt_last_geometry := None |}
  end.

Lemma record_person_get f interval d k id : dget id (record_person f interval d k) =
  if decide (id = k) then Some match dget k d with
    | None => {| pt_entry_frame := Z.max 0 (f - interval); pt_last_seen_frame := f; pt_last_geometry := None |}
    | Some r => {| r with pt_last_seen_frame := f |} end
  else dget id d.
Proof.
  unfold record_person, confirmed_entry_frame, MIN_CONFIRMATION_FRAMES.
  destruct (dget k d) as [r|]; rewrite dget_dset; [done|]. by rewrite Z.mul_1_l.
Qed.

Definition seen_at (f interval : Z) (o : option PersonTelemetry) : PersonTelemetry :=
  match o with
  | None => {| pt_entry_frame := Z.max 0 (f - interval); pt_last_seen_frame := f; pt_last_geometry := None |}
  | Some r => {| r with pt_last_seen_frame := f |}
  end.

Lemma record_frame_get interval d f ids id : dget id (record_frame interval d (f, ids)) =
  if bool_decide (id ∈ ids) then Some (seen_at f interval (dget id d)) else dget id d.
Proof.
  unfold record_frame. simpl. revert d. induction ids as [|k ids IH]; intros d; simpl; [done|].
  rewrite IH, record_person_get. destruct (decide (id = k)) as [->|Hk].
  - rewrite (bool_decide_eq_true_2 (k ∈ k :: ids)) by left.
    destruct (bool_decide (k ∈ ids)); by destruct (dget k d).
  - assert (bool_decide (id ∈ k :: ids) = bool_decide (id ∈ ids)) as ->; [|done].
    apply bool_decide_ext. rewrite elem_of_cons. naive_solver.
Qed.

Lemma sightings_app id a b : sightings id (a ++ b) = sightings id a ++ sightings id b.
Proof. unfold sightings. by rewrite List.filter_app, fmap_app. Qed.

Lemma telemetry_is_summary interval seen id :
  dget id (fold_left (record_frame interval) seen []) = summary interval seen id.
Proof.
  induction seen as [|[f ids] seen IH] using rev_ind; [done|].
  rewrite fold_left_app. simpl. rewrite record_frame_get, IH.
  unfold summary. rewrite sightings_app.
  assert (sightings id [(f, ids)] = if bool_decide (id ∈ ids) then [f] else []) as ->
    by (unfold sightings; simpl; by destruct (bool_decide _)).
  destruct (bool_decide (id ∈ ids)); [|by rewrite app_nil_r]. simpl.
  destruct (sightings id seen) as [|first rest]; [done|]. simpl. unfold seen_at. simpl. by rewrite List.last_last.
Qed.

(** ** Coasting tracks *)

Section coasting.
Context {L : LineZones}.

Definition sighting : Type := Z * option (list (Z * Box)).

(** The cache after the frames of a history, and what it reported last. *)
Definition coast (max_coast : Z) (st : list (Z * CoastingTrack) * list (Z * Box)) (x : sighting) :=
  coasting_track_detections x.2 x.1 max_coast st.1.

(** All sightings, in order, and the last one of a track. *)
Definition flat (history : list sighting) : list (Z * CoastingTrack) :=
  concat ((λ x : sighting, (λ y : Z * Box, (y.1, {| ct_bbox := y.2; ct_last_seen_frame := x.1 |})) <$>
    default [] x.2) <$> history).
Definition last_sighting (id : Z) (l : list (Z * CoastingTrack)) : option CoastingTrack :=
  fold_left (λ o y, if decide (id = y.1) then Some y.2 else o) l None.

(** What the cache should hold at frame [f]. *)
Definition recent (max_coast f : Z) (o : option CoastingTrack) : option CoastingTrack :=
  c ← o; if (f - ct_last_seen_frame c <=? max_coast) then Some c else None.

Lemma last_sighting_from id l o :
  fold_left (λ o y, if decide (id = y.1) then Some y.2 else o) l o =
  match last_sighting id l with Some c => Some c | None => o end.
Proof.
  revert o. unfold last_sighting. induction l as [|y l IH]; intros o; simpl; [done|].
  rewrite IH, (IH (if decide _ then _ else _)). destruct (fold_left _ l None); [done|]. by case_decide.
Qed.

Lemma last_sighting_app id l k : last_sighting id (l ++ k) =
  match last_sighting id k with Some c => Some c | None => last_sighting id l end.
Proof. unfold last_sighting at 1. rewrite fold_left_app. apply last_sighting_from. Qed.

Lemma refreshed id f (l : list (Z * Box)) cache :
  NoDup cache.*1 →
  let seen := fold_left (λ d x, dset x.1 {| ct_bbox := x.2; ct_last_seen_frame := f |} d) l cache in
  NoDup seen.*1 ∧ dget id seen =
    match last_sighting id ((λ y : Z * Box, (y.1, {| ct_bbox := y.2; ct_last_seen_frame := f |})) <$> l) with
    | Some c => Some c | None => dget id cache end.
Proof.
  revert cache. induction l as [|y l IH]; intros cache Hn; simpl; [done|].
  destruct (IH (dset y.1 {| ct_bbox := y.2; ct_last_seen_frame := f |} cache)) as [H1 H2]; [by apply dset_NoDup|].
  split; [done|]. simpl in H2. rewrite H2. unfold last_sighting at 2. simpl. rewrite last_sighting_from.
  destruct (last_sighting _ _); [done|]. rewrite dget_dset. by repeat case_decide.
Qed.

Lemma coast_step max_coast st f detections id : NoDup st.1.*1 →
  let st' := coast max_coast st (f, detections) in
  NoDup st'.1.*1 ∧ st'.2 = (λ x : Z * CoastingTrack, (x.1, ct_bbox x.2)) <$> st'.1 ∧
  dget id st'.1 = recent max_coast f
    (match last_sighting id ((λ y : Z * Box, (y.1, {| ct_bbox := y.2; ct_last_seen_frame := f |})) <$> default [] detections)
     with Some c => Some c | None => dget id st.1 end).
Proof.
  intros Hn. unfold coast, coasting_track_detections. cbn [fst snd].
  destruct (refreshed id f (default [] detections) st.1 Hn) as [Hs Hget].
  set (seen := fold_left _ (default [] detections) st.1) in *. simpl.
  split; [by apply ddel_all_NoDup|]. split; [done|]. rewrite dget_ddel_all by done. rewrite <-Hget.
  unfold recent. case_decide as Hd.
  - apply list_elem_of_fmap in Hd as ([k c]&->&Hin). apply elem_of_sfilter in Hin as [Hin Hexp].
    simpl in *. apply elem_dget in Hin; [|done]. rewrite Hin. simpl. by replace (_ <=? _) with false by lia.
  - destruct (dget id seen) as [c|] eqn:E; [|done]. simpl.
    destruct (Z.leb_spec (f - ct_last_seen_frame c) max_coast); [done|]. exfalso. apply Hd.
    apply list_elem_of_fmap. exists (id, c). split; [done|]. apply elem_of_sfilter.
    split; [by apply dget_Some_elem|]. simpl. lia.
Qed.

Lemma coasting_is_recent max_coast history f detections id :
  StronglySorted Z.lt (history ++ [(f, detections)]).*1 →
  let st := fold_left (coast max_coast) (history ++ [(f, detections)]) ([], []) in
  NoDup st.1.*1 ∧ st.2 = (λ x : Z * CoastingTrack, (x.1, ct_bbox x.2)) <$> st.1 ∧
  dget id st.1 = recent max_coast f (last_sighting id (flat (history ++ [(f, detections)]))).
Proof.
  revert f detections. induction history as [|[f0 d0] history IH] using rev_ind; intros f detections Hs.
  - unfold flat. cbn [app fold_left fmap list_fmap concat]. rewrite app_nil_r.
    destruct (coast_step max_coast ([], []) f detections id) as (H1&H2&H3); [constructor|]. cbv zeta in *. split; [done|]. split; [done|].
    rewrite H3. simpl. by destruct (last_sighting _ _).
  - rewrite fmap_app in Hs. pose proof Hs as Hs'. apply StronglySorted_app in Hs' as (Hlt&Hs0&_).
    destruct (IH f0 d0 Hs0) as (H1&_&H3). cbv zeta.
    rewrite fold_left_app. cbn [fold_left].
    set (st := fold_left (coast max_coast) (history ++ [(f0, d0)]) ([], [])) in *.
    destruct (coast_step max_coast st f detections id H1) as (G1&G2&G3). cbv zeta in *. split; [done|]. split; [done|].
    etrans; [exact G3|].
    assert (flat ((history ++ [(f0, d0)]) ++ [(f, detections)]) = flat (history ++ [(f0, d0)]) ++
      ((λ y : Z * Box, (y.1, {| ct_bbox := y.2; ct_last_seen_frame := f |})) <$> default [] detections)) as ->
      by (unfold flat; rewrite fmap_app, concat_app; simpl; by rewrite app_nil_r).
    rewrite last_sighting_app. destruct (last_sighting id (_ <$> _)); [done|].
    rewrite H3. unfold recent. destruct (last_sighting id _) as [c|]; [|done]. simpl.
    assert (f0 < f) by (apply Hlt; [rewrite fmap_app; set_solver|set_solver]).
    destruct (Z.leb_spec (f0 - ct_last_seen_frame c) max_coast); simpl; [done|].
    by replace (f - ct_last_seen_frame c <=? max_coast) with false by lia.
Qed.
End coasting.

(** ** A run *)

Section rfdetr.
Context {L : LineZones} {LL : LineZonesLaws L} {Frame : Type} {R : RFDetr Frame} {RL : RFDetrLaws R}.
Implicit Types s : RFDetrRun.

Record rf_ok (interval : Z) (line : option LineCoordinates) (seen : list (Z * list Z)) s : Prop := {
  rf_telemetry : telemetry (run_result s) = fold_left (record_frame interval) seen [];
  rf_confirmed : Forall (λ x, Forall (Z.le 0) x.2) seen;
  rf_lines : lines_ok line seen.*1 s;
}.

Lemma confirmed_people_Ok fps detections frame f s people s' :
  _confirmed_people fps detections frame f s = (Ok people, s') →
  Forall (Z.le 0) (default [] people).*1 ∧ ∃ t, s' = {| s with run_tracker := t |}.
Proof.
  unfold _confirmed_people. destruct (Pipeline.people detections) as [selected|]; [|by intros ?%tx_raise_Ok].
  intros H. apply tx_bind_Ok in H as (index&b&[_ ->]%tx_lift_Ok&H).
  apply tx_bind_Ok in H as (timestamp&b&[_ ->]%tx_lift_Ok&H).
  apply tx_bind_Ok in H as (a&b&[-> ->]%tx_get_Ok&H). cbv zeta in H.
  destruct (update _ _ _ _) as [tracked tracker].
  apply tx_bind_Ok in H as ([]&b&H1%tx_modify_Ok&H). apply tx_ret_Ok in H as [-> ->]. subst b.
  split; [|by eexists]. destruct tracked as [tracked|]; simpl; [|constructor].
  apply Forall_fmap, Forall_forall. intros x Hx%elem_of_sfilter. simpl. lia.
Qed.

Section frames.
Context (cfg : Config) (setup : SamplingConfig * RFDetrRunState).
Let interval : Z := sc_interval setup.1.
Let line : option LineCoordinates := cfg_line cfg.

Lemma rf_process_frame_ok seen s f frame detections s' :
  rf_ok interval line seen s → rfdetr_process_frame cfg setup (f, frame, detections) s = (Ok tt, s') →
  ∃ ids, rf_ok interval line (seen ++ [(f, ids)]) s' ∧ same_run s s'.
Proof.
  intros [Htel Hconf Hlines] E. unfold rfdetr_process_frame in E.
  apply tx_bind_Ok in E as (people&s1&Hp&E). apply confirmed_people_Ok in Hp as [Hpos [t Hs1]].
  apply tx_bind_Ok in E as (a&b&[-> ->]%tx_get_Ok&E). apply tx_bind_Ok in E as ([]&s2&E1&E).
  apply tx_modify_Ok in E. exists (default [] people).*1.
  assert (lines_ok line (seen.*1 ++ [f]) s2 ∧ same_run s s2 ∧
    telemetry (run_result s2) = telemetry (run_result s)) as (Hl&(A1&A2&A3&A4)&Ht).
  { subst s1. unfold lines_ok in Hlines. cbn [run_zone] in E1. fold line in E1. destruct line as [l|].
    - destruct Hlines as (z&Hz&Hfr&Hin&Hout). rewrite Hz in E1.
      apply tx_bind_Ok in E1 as (seconds&b&[_ ->]%tx_lift_Ok&E1).
      apply tx_bind_Ok in E1 as (max&b&[_ ->]%tx_lift_Ok&E1). cbv zeta in E1.
      destruct (coasting_track_detections _ _ _ _) as [cache coasting].
      apply tx_bind_Ok in E1 as ([]&b&H1%tx_modify_Ok&E1). subst b.
      apply (count_lines_Ok _ _ _ _ _ _ z) in E1 as (z'&rec&E2&E3&E4&->); [|done].
      split; [|done]. exists z'. simpl. split; [done|]. rewrite !fmap_app, !Zsum_app. simpl.
      rewrite Hfr, E2, E3, E4, Hin, Hout. split; [done|]. lia.
    - destruct Hlines as [Hz Hl]. rewrite Hz in E1. apply tx_ret_Ok in E1 as [_ ->]. done. }
  subst s'. split; [|done]. split; simpl.
  - rewrite fold_left_app, Ht, Htel. done.
  - apply Forall_app. split; [done|]. by apply Forall_singleton.
  - rewrite fmap_app. exact Hl.
Qed.

Lemma rf_process_frames_ok xs seen s s' :
  rf_ok interval line seen s → tx_for (rfdetr_process_frame cfg setup) xs s = (Ok tt, s') →
  ∃ more, more.*1 = (λ x, x.1.1) <$> xs ∧ rf_ok interval line (seen ++ more) s' ∧ same_run s s'.
Proof.
  revert seen s. induction xs as [|[[f frame] detections] xs IH]; intros seen s H E; simpl in *.
  - apply tx_ret_Ok in E as [_ ->]. exists []. by rewrite app_nil_r.
  - apply tx_bind_Ok in E as ([]&s1&E1&E).
    apply (rf_process_frame_ok seen) in E1 as (ids&H1&A1&A2&A3&A4); [|done].
    destruct (IH _ _ H1 E) as (more&Em&H2&B1&B2&B3&B4). exists ((f, ids) :: more).
    split; [simpl; by f_equal|]. rewrite <-app_assoc in H2. split; [done|].
    unfold same_run. split; [congruence|]. split; [congruence|]. split; congruence.
Qed.

Lemma zip_indices (batch : FrameBatch Frame) (l : list RFDetections) :
  length l = length batch → (λ x, x.1.1) <$> zip batch l = batch.*1.
Proof.
  revert l. induction batch as [|x batch IH]; intros [|y l]; simpl; try done.
  intros [= H]. f_equal. by apply IH.
Qed.

Lemma rf_process_batch_ok batch seen s s' :
  rf_ok interval line seen s → rfdetr_process_frame_batch cfg setup batch s = (Ok tt, s') →
  ∃ more, more.*1 = batch.*1 ∧ rf_ok interval line (seen ++ more) s' ∧
    processed_frames (run_result s') = processed_frames (run_result s) + Z.of_nat (length batch) ∧
    sample_interval (run_result s') = sample_interval (run_result s) ∧
    initialized (run_result s') = initialized (run_result s).
Proof.
  intros H E. unfold rfdetr_process_frame_batch in E.
  apply tx_bind_Ok in E as ([l|]&b&[Hp ->]%tx_lift_Ok&E); [|by apply tx_raise_Ok in E].
  apply rf_predict_length in Hp. rewrite length_fmap in Hp.
  apply tx_bind_Ok in E as ([]&s1&E1&E). apply tx_bind_Ok in E as ([]&s2&H2%tx_modify_Ok&E).
  apply tx_modify_Ok in E. subst s2 s'.
  apply (rf_process_frames_ok _ seen) in E1 as (more&Em&H1&A1&A2&A3&A4); [|done].
  rewrite zip_indices in Em by done. exists more. split; [done|]. split; [by destruct H1; split|].
  simpl. rewrite A1. auto.
Qed.
End frames.

Lemma rf_initialize_Ok cfg metadata s setup s' :
  rfdetr_initialize cfg metadata s = (Ok setup, s') →
  1 ≤ sc_interval setup.1 ∧ ∃ zone b,
    create_line_zone (cfg_line cfg) (vm_width metadata) (vm_height metadata) = Ok zone ∧
    run_zone s' = zone ∧
    let r := initialized_result cfg metadata setup.1 (run_result s) in
    run_result s' = {| r with camera_motion_compensation := Some b |}.
Proof.
  unfold rfdetr_initialize. intros H.
  apply tx_bind_Ok in H as (zone&b&[Hz ->]%tx_lift_Ok&H).
  apply tx_bind_Ok in H as (sampling&b&[Hs ->]%tx_lift_Ok&H). cbv zeta in H.
  apply tx_bind_Ok in H as (buffer&b&[_ ->]%tx_lift_Ok&H).
  apply tx_bind_Ok in H as ([]&b&H1%tx_modify_Ok&H). apply tx_bind_Ok in H as ([]&c&H2%tx_modify_Ok&H).
  apply tx_bind_Ok in H as ([]&d&H3%tx_modify_Ok&H). apply tx_bind_Ok in H as ([]&e&H4%tx_modify_Ok&H).
  apply tx_ret_Ok in H as [-> ->]. subst. apply sampling_config_Ok in Hs as [Hs _]. split; [done|].
  by eexists zone, _.
Qed.

(** What a run over the frames [fs] returns, for the sightings [seen]. *)
Record run_summarises {Fr} (cfg : Config) (fs : list Fr) (seen : list (Z * list Z)) (r : RunResult) : Prop := {
  rs_frames : seen.*1 = (sampled (sample_interval r) 0 fs).*1;
  rs_confirmed : Forall (λ x, Forall (Z.le 0) x.2) seen;
  rs_telemetry id : dget id (telemetry r) = summary (sample_interval r) seen id;
  rs_processed : processed_frames r = Z.of_nat (length seen);
  rs_read : source_frames_read r = Z.of_nat (length fs);
  rs_lines : line_totals (cfg_line cfg) seen.*1 r;
}.

Lemma rf_run_returns {Cap Spec} `{!EqDecision Spec} `{!VideoCapture Cap Frame} (cfg : Config)
    fuel (spec expected : Spec) (capture : Cap) fps w h n fs r (s s' : RFDetrRun) :
  0 < cfg_batch_size cfg → delivers capture fs → (length fs < fuel)%nat → run_result s = fresh_result →
  rfdetr_run_with_runtime cfg fuel spec expected capture fps w h n s = Some (Ok r, s') →
  ∃ seen, run_summarises cfg fs seen r.
Proof.
  intros Hb D Hfuel Hfresh H.
  apply (run_invariant cfg _ _ (λ setup xs s, (∃ seen, seen.*1 = xs.*1 ∧
      rf_ok (sc_interval setup.1) (cfg_line cfg) seen s) ∧
    processed_frames (run_result s) = Z.of_nat (length xs) ∧
    sample_interval (run_result s) = sc_interval setup.1 ∧ initialized (run_result s) = true)
    _ _ _ _ _ _ _ _ fs) in H; [|done..| | |].
  - destruct H as (setup&s3&Hint&((seen&Ef&Hok)&Hproc&Hsi&Hin)&Hrs&->&->). exists seen.
    pose proof (finalize_lines _ _ _ (rf_lines _ _ _ _ Hok) Hin) as Hlines. revert Hlines.
    destruct (finalize_run_eq s3) as (r'&_&->&Et&_&_&Epr&Esi&Erd&_&_). simpl. intros Hlines.
    split; rewrite ?Esi, ?Hsi, ?Et, ?Epr, ?Hproc, ?Erd; try done.
    + apply (rf_confirmed _ _ _ _ Hok).
    + intros id. rewrite (rf_telemetry _ _ _ _ Hok). apply telemetry_is_summary.
    + apply (f_equal length) in Ef. rewrite !length_fmap in Ef. by rewrite Ef.
  - intros metadata s1 setup s2 Hi _ _ Er. rewrite Hfresh in Er.
    apply rf_initialize_Ok in Hi as (Hint&zone&b&Hz&Ez&Er2). split; [lia|]. rewrite Er2, Er. split; [|done].
    exists []. split; [done|]. split; [by rewrite Er2, Er|constructor|]. unfold lines_ok. rewrite Er2, Er, Ez.
    apply create_line_zone_Ok in Hz. destruct (cfg_line cfg); [|done]. destruct Hz as (z&->&E1&E2).
    exists z. by rewrite E1, E2.
  - intros setup xs s1 st ((seen&Ef&[])&?&?&?). split; [|done]. exists seen. split; [done|by split].
  - intros setup before batch s1 s2 Hs Hint ((seen&Ef&Hok)&H2&H3&H4) Hp.
    apply (rf_process_batch_ok cfg setup batch seen) in Hp as (more&Em&B1&B2&B3&B4); [|done].
    rewrite fmap_app, length_app, B2, B3, B4. split; [|split; [lia|done]].
    exists (seen ++ more). by rewrite fmap_app, Ef, Em.
Qed.
End rfdetr.
