(* ===== verification/CountingTheorems.v ===== *)
(** * Counting people: the guarantees of the counting pipelines

    The theorems on suppression, detections, associations, coasting tracks and whole
    runs of both pipelines, each with a run of a small world ([Toy]) in which every hypothesis on the libraries holds. *)
From S2P Require Export Prelude PyFloat PyRound PyDict VideoSampling Tracking TrackingInv TrackingTheorems FrameProcessing FrameTheorems PipelineRun PipelineDriver PipelineTheorems RFDetrTheorems.
Import Video Tracking Frames Pipeline.
Local Open Scope Z_scope.

(** ** A small world *)

Module Toy.

(** NaN comes last. *)
Definition before (x y : Float) : Prop := fisnan y = true ∨ fleb x y = true.
Definition score_before (l : list Float) (i j : nat) : Prop :=
  before (default SpecFloat.S754_nan (l !! i)) (default SpecFloat.S754_nan (l !! j)).

#[local] Instance score_before_dec l i j : Decision (score_before l i j).
Proof. unfold score_before, before. apply _. Defined.

#[local] Instance score_before_trans l : Transitive (score_before l).
Proof.
  intros i j k. unfold score_before, before. intros [H1|H1] [H2|H2]; auto.
  - apply fleb_not_nan in H2 as [H2 _]. congruence.
  - right. by eapply fleb_trans.
Qed.

#[local] Instance score_before_total l : Total (score_before l).
Proof.
  intros i j. unfold score_before, before. set (x := default _ (l !! i)). set (y := default _ (l !! j)).
  destruct (fisnan x) eqn:Ex; [auto|]. destruct (fisnan y) eqn:Ey; [auto|].
  destruct (fleb_total x y Ex Ey); auto.
Qed.

#[export] Instance toy_argsort : Argsort := λ l, merge_sort (score_before l) (seq 0 (length l)).

#[export] Instance toy_argsort_laws : ArgsortLaws toy_argsort.
Proof.
  split; [intros l; apply merge_sort_Permutation|]. intros l i j x y Hij Hi Hj.
  pose proof (StronglySorted_merge_sort (score_before l) (seq 0 (length l))) as Hs.
  assert (score_before l i j) as H.
  { unfold argsort, toy_argsort in Hij. revert Hij Hs. generalize (merge_sort (score_before l) (seq 0 (length l))). intros k.
    induction k as [|a k IH]; [by intros ?%sublist_nil_r|]. intros [[-> Hin]|Hij]%sublist_pair_cons Hs.
    - apply StronglySorted_inv in Hs as [_ Hs]. rewrite Forall_forall in Hs. by apply Hs.
    - apply StronglySorted_inv in Hs as [Hs _]. auto. }
  unfold score_before, before in H. rewrite Hi, Hj in H. simpl in H. destruct H as [H|H].
  - destruct (fltb y x) eqn:E; [|done]. apply fltb_not_nan in E as [E _]. congruence.
  - by apply fleb_not_fltb.
Qed.

(** Embeddings are colours; equal ones have similarity 1, others 0. *)
Definition likeness (a b : Z) : Float := if (a =? b) then float_of_Z 1 else fzero.

#[export] Instance toy_numerics : Numerics := {|
  Emb := Z; Score := Float;
  similarity_matrix a b := (λ x, likeness x <$> b) <$> a;
  dot := likeness;
  cost_of := fopp;
  score_below := fltb;
  mix _ _ _ e := e;
  norm _ := float_of_Z 1;
  scale_down e _ := e;
  hypot x y := float_of_Z (Z.abs x + Z.abs y);
  linear_sum_assignment costs :=
    zip (seq 0 (length costs)) (seq 0 (match costs with [] => 0 | row :: _ => length row end)) |}.

#[export] Instance toy_numerics_laws : NumericsLaws toy_numerics.
Proof.
  split.
  - intros a b. simpl. split; [by rewrite length_fmap|]. apply Forall_fmap, Forall_forall.
    intros x _. simpl. by rewrite length_fmap.
  - intros costs columns Hc. simpl.
    set (c := match costs with [] => 0%nat | row :: _ => length row end).
    assert (costs = [] ∨ c = columns) as Hcol.
    { destruct Hc as [|row costs Hrow _]; [by left|by right]. }
    assert (zip (seq 0 (length costs)) (seq 0 c) = (λ i, (i, i)) <$> seq 0 (Nat.min (length costs) c)) as ->.
    { apply list_eq. intros i. rewrite list_lookup_fmap. rewrite lookup_zip_with.
      destruct (decide (i < Nat.min (length costs) c)%nat) as [Hi|Hi].
      - rewrite !lookup_seq_lt by lia. done.
      - rewrite (lookup_seq_ge 0 (Nat.min _ _)) by lia.
        destruct (decide (i < length costs)%nat).
        + rewrite (lookup_seq_lt 0 (length costs)), (lookup_seq_ge 0 c) by lia. done.
        + by rewrite (lookup_seq_ge 0 (length costs)) by lia. }
    rewrite <-!list_fmap_compose. rewrite (list_fmap_ext _ id) by done. rewrite (list_fmap_ext (snd ∘ _) id) by done.
    rewrite list_fmap_id. split; [apply NoDup_seq|]. split; [apply NoDup_seq|].
    intros i j (k & [= -> ->] & Hin)%list_elem_of_fmap. apply elem_of_seq in Hin.
    destruct Hcol as [->| <-]; simpl in *; lia.
Qed.

(** A frame lists what the detector sees; the colour of a person is the left border. *)
#[export] Instance toy_vision : Vision toy_numerics (list RawDetection) := {|
  frame_height _ := 100; frame_width _ := 200;
  Rgb := unit; to_rgb _ := tt;
  predict_detector_results frames _ := Ok frames;
  reid_embedder _ boxes := Ok (x1 <$> boxes) |}.

#[export] Instance toy_vision_laws : VisionLaws toy_vision.
Proof. split. by intros frames rgb l [= ->]. Qed.

(** Every track left of 100 crosses inwards. *)
#[export] Instance toy_lines : LineZones := {|
  Box := BBox; float32_box b := b;
  LineZone := Z * Z; line_zone _ _ := (0, 0);
  trigger z d := let crossed := (λ x : Z * BBox, x2 x.2 <? 100) <$> d in
    (crossed, (λ _ : Z * BBox, false) <$> d, (z.1 + count_true crossed, z.2));
  in_count := fst; out_count := snd |}.

#[export] Instance toy_lines_laws : LineZonesLaws toy_lines.
Proof.
  split; [done|]. intros z d. simpl. split; [done|].
  assert (List.filter (λ b : bool, b) ((λ _ : Z * BBox, false) <$> d) = []) as E by (induction d; simpl; auto).
  unfold count_true. rewrite E. simpl. lia.
Qed.

#[export] Instance toy_capture : VideoCapture (list (list RawDetection)) (list RawDetection) := {|
  isOpened _ := true;
  read c := match c with [] => (false, None, []) | f :: c' => (true, Some f, c') end;
  grab c := match c with [] => (false, []) | _ :: c' => (true, c') end |}.

Lemma toy_delivers (fs : list (list RawDetection)) : delivers fs fs.
Proof. induction fs as [|f fs IH]; [by constructor|by eapply dl_frame]. Qed.

Definition person (x : Z) (score : Float) : RawDetection := {|
  raw_box := (float_of_Z x, float_of_Z 10, float_of_Z (x + 20), float_of_Z 60);
  raw_label := 1; raw_score := score |}.

Definition config : Config := {|
  cfg_batch_size := 2; cfg_sample_fps := None; cfg_detection_threshold := flit 6 10;
  cfg_use_fp16 := false; cfg_line := Some (100, 0, 100, 99); cfg_camera_motion_compensation := None |}.

(** Two people stand still; the second one leaves after two frames. *)
Definition both : list RawDetection := [person 120 (flit 8 10); person 10 (flit 9 10)].
Definition video : list (list RawDetection) := [both; both; [person 10 (flit 9 10)]].

(** A tracker that confirms from the second frame on; its ids are positions. *)
#[export] Instance toy_rfdetr : RFDetr (list RawDetection) := {|
  RFRgb := list RawDetection; rf_rgb f := f;
  RFDetections := list RawDetection; rf_predict frames := Ok (Some frames);
  people rows := Some (List.filter (λ r, raw_label r =? 1) rows);
  Tracker := Z; botsort _ _ _ _ := 0;
  update n rows _ _ := (Some (imap (λ i r, (if n =? 0 then -1 else Z.of_nat i,
    {| x1 := 10; y1 := 10; x2 := 30; y2 := 60 |})) rows), n + 1) |}.

#[export] Instance toy_rfdetr_laws : RFDetrLaws toy_rfdetr.
Proof. split. by intros frames l [= ->]. Qed.

Definition toy_run := rtdetr_run_with_runtime config 1 4 tt tt video
  (float_of_Z 3) (float_of_Z 200) (float_of_Z 100) (float_of_Z 3) (rtdetr_start fresh_result).

Definition rfdetr_start : RFDetrRun := {|
  run_result := fresh_result; run_tracker := {| rf_tracker := 0; rf_line_track_cache := [] |};
  run_zone := None; run_read := unread; run_released := false; run_progress := [] |}.
Definition toy_rfdetr_run := rfdetr_run_with_runtime config 4 tt tt video
  (float_of_Z 3) (float_of_Z 200) (float_of_Z 100) (float_of_Z 3) rfdetr_start.
End Toy.

(** ** The theorems *)

Section theorems.
Context {N : Numerics} {NL : NumericsLaws N} {Sort : Argsort} {SL : ArgsortLaws Sort}.

(** C36. Associating the detections of a frame keeps track of identities.  From the
    tracking state after an earlier frame, an association returns, or it raises
    RuntimeError or OverflowError; it never fails a lookup.  When it returns, the
    state is sound again ([tracking_ok]: persons are numbered from 1 without gaps,
    every confirmed track has an identity and agrees with the telemetry, tentative
    tracks are one frame old); every earlier person keeps its number and entry
    frame and either is seen now or keeps its telemetry; a new person entered in the
    previous frame; and the tracks seen now are the boxes of different detections. *)
Theorem association_keeps_identities (inp : AssociationInput) (f0 : Z) (ts0 ts' : RTDetrTrackingState)
    (r : result unit) :
  f0 < in_source_frame_index inp → in_sample_interval inp ≠ 0 →
  tracking_ok f0 (in_max_disappeared_frames inp) ts0 →
  associate_detections inp ts0 = (r, ts') →
  (r = Ok tt ∧ association_post inp f0 ts0 ts') ∨ r = Err RuntimeError ∨ r = Err OverflowError.
Proof.
  intros Hf Hi Hok E. destruct (wp_elim _ _ _ _ _ _ (associate_safe inp f0 ts0 Hf Hi Hok) E)
    as [([]&->&H)|(e&->&[-> | ->])]; auto.
Qed.

(** C38. Non-maximum suppression always returns, and what it returns is exact: the kept
    detections are different detections of the input in descending order of their
    score; no kept box overlaps a later kept one by more than the threshold; and every
    detection that was dropped overlaps a kept one by more than the threshold and does
    not score above it. *)
Theorem nms_keeps_the_best (detections : list Detection) :
  ∃ ks kept, non_max_suppression detections = Ok kept ∧ nms_result detections ks kept.
Proof. apply non_max_suppression_spec. Qed.

(** The detections that a frame contributes are sound: each box has positive sides
    and lies within the frame, its centroid is the middle of the box, it scores at
    least the threshold or is near an active track, and it has an embedding; two of
    them never overlap by more than the threshold, and they are in descending order
    of their scores. *)
Theorem frame_detections_are_sound `{V : !Vision N Frame} rows (frame : Frame) rgb person tracks threshold ds :
  extract_person_detections rows frame rgb person tracks threshold = Ok ds →
  frame_detections (frame_width frame) (frame_height frame) tracks threshold ds.
Proof. apply extract_spec. Qed.

(** C35. A whole run of the RT-DETR pipeline.  Over a video that delivers the frames [fs]
    the run ends and releases the capture.  When it returns a result: persons are
    numbered consecutively; each entered in a sampled frame and was last seen in a
    later sampled frame of the video; all sampled frames were processed and all
    source frames read; and with a counting line there is one record per sampled
    frame, in order, and the totals are the sums of the records. *)
Theorem run_counts_people {L : LineZones} {LL : LineZonesLaws L} {Frame Cap Spec : Type}
    {V : Vision N Frame} {VL : VisionLaws V} `{!EqDecision Spec} `{!VideoCapture Cap Frame}
    (cfg : Config) (person_class_id : Z) (fuel : nat) (spec : Spec) (capture : Cap) fps w h n (fs : list Frame) :
  delivers capture fs → (length fs < fuel)%nat → 0 < cfg_batch_size cfg →
  ∃ outcome s, rtdetr_run_with_runtime cfg person_class_id fuel spec spec capture fps w h n
      (rtdetr_start fresh_result) = Some (outcome, s) ∧
    run_released s = true ∧ ∀ r, outcome = Ok r → run_counts cfg fs r.
Proof.
  intros D Hf Hb.
  destruct (run_finishes cfg (rtdetr_initialize cfg) (rtdetr_process_frame_batch cfg person_class_id) fuel spec spec
    capture fps w h n fs (rtdetr_start fresh_result)) as (outcome&s&E&Hr); try done.
  { intros metadata s1 setup s2 H. apply initialize_Ok in H as [H _]. lia. }
  exists outcome, s. split; [exact E|]. split; [done|]. intros r ->. by eapply run_returns.
Qed.
(** C37. A whole run of the RF-DETR pipeline.  Over a video that delivers the frames [fs]
    the run ends and releases the capture.  When it returns a result, the result is the
    summary of what the tracker confirmed: there are sightings [seen], the confirmed
    ids of each sampled frame, such that a person is in the telemetry exactly when it
    was sighted, with its entry one interval before the first sighting (not before
    the video) and its last frame that of the last sighting; and the counting line has
    one record per sampled frame, with totals that are the sums of the records. *)
Theorem rfdetr_run_summarises {L : LineZones} {LL : LineZonesLaws L} {Frame Cap Spec : Type}
    {R : RFDetr Frame} {RL : RFDetrLaws R} `{!EqDecision Spec} `{!VideoCapture Cap Frame}
    (cfg : Config) (fuel : nat) (spec : Spec) (capture : Cap) fps w h n (fs : list Frame) (s : RFDetrRun) :
  delivers capture fs → (length fs < fuel)%nat → 0 < cfg_batch_size cfg → run_result s = fresh_result →
  ∃ outcome s', rfdetr_run_with_runtime cfg fuel spec spec capture fps w h n s = Some (outcome, s') ∧
    run_released s' = true ∧ ∀ r, outcome = Ok r → ∃ seen, run_summarises cfg fs seen r.
Proof.
  intros D Hf Hb Hfresh.
  destruct (run_finishes cfg (rfdetr_initialize cfg) (rfdetr_process_frame_batch cfg) fuel spec spec
    capture fps w h n fs s) as (outcome&s'&E&Hr); try done; [|by rewrite Hfresh|by rewrite Hfresh|].
  { intros metadata s1 setup s2 H. apply rf_initialize_Ok in H as [H _]. lia. }
  exists outcome, s'. split; [exact E|]. split; [done|]. intros r ->. by eapply rf_run_returns.
Qed.

(** The tracks shown to the counting line are exactly those sighted recently.  After
    the frames of a history in ascending order, the cache of coasting tracks holds for
    each track its last sighting when that is at most [max_coast] frames old, and
    nothing otherwise; and the report lists the boxes of the cache, each track once. *)
Theorem coasting_tracks_are_recent {L : LineZones} max_coast (history : list sighting) f detections id :
  StronglySorted Z.lt (history ++ [(f, detections)]).*1 →
  let '(cache, report) := fold_left (coast max_coast) (history ++ [(f, detections)]) ([], []) in
  NoDup cache.*1 ∧ report = (λ x : Z * CoastingTrack, (x.1, ct_bbox x.2)) <$> cache ∧
  dget id cache = recent max_coast f (last_sighting id (flat (history ++ [(f, detections)]))).
Proof.
  intros Hs. pose proof (coasting_is_recent max_coast history f detections id Hs) as H. cbv zeta in H.
  by destruct (fold_left _ _ _).
Qed.
End theorems.

(** ** Witnesses *)

Import Toy.

Module ToyWitness.

Definition seen (x : Z) : Detection := {|
  det_bbox := {| x1 := x; y1 := 10; x2 := x + 20; y2 := 60 |}; det_centroid := (x + 10, 35);
  det_confidence := flit 9 10; det_embedding := Some x |}.

Definition two_seen (f : Z) : AssociationInput := {|
  in_detections := [seen 10; seen 120]; in_source_frame_index := f;
  in_max_centroid_displacement := float_of_Z 30; in_max_disappeared_frames := 3;
  in_max_reentry_frames := 90; in_sample_interval := 1; in_activation_threshold := flit 6 10 |}.

Definition after_first : RTDetrTrackingState := (associate_detections (two_seen 0) fresh_tracking).2.
Definition after_second : RTDetrTrackingState := (associate_detections (two_seen 1) after_first).2.
End ToyWitness.

(** [vm_decide]: an equation with a closed right-hand side, by evaluation. *)
Ltac vm_decide := match goal with |- _ = ?v => vm_cast_no_check (eq_refl v) end.

Lemma association_keeps_identities_witness :
  associate_detections (ToyWitness.two_seen 1) ToyWitness.after_first = (Ok tt, ToyWitness.after_second) ∧
  ts_next_track_id ToyWitness.after_second = 3 ∧
  tracking_ok 1 3 ToyWitness.after_second.
Proof.
  assert (associate_detections (ToyWitness.two_seen 0) fresh_tracking = (Ok tt, ToyWitness.after_first)) as E1
    by vm_decide.
  assert (associate_detections (ToyWitness.two_seen 1) ToyWitness.after_first = (Ok tt, ToyWitness.after_second)) as E2
    by vm_decide.
  split; [exact E2|]. split; [vm_decide|].
  destruct (association_keeps_identities (ToyWitness.two_seen 0) (-1) fresh_tracking ToyWitness.after_first (Ok tt))
    as [[_ H1]|[?|?]]; [reflexivity|discriminate|apply fresh_tracking_ok|exact E1| |discriminate|discriminate].
  destruct (association_keeps_identities (ToyWitness.two_seen 1) 0 ToyWitness.after_first ToyWitness.after_second (Ok tt))
    as [[_ H2]|[?|?]]; [reflexivity|discriminate|apply (ap_ok _ _ _ _ H1)|exact E2| |discriminate|discriminate].
  apply (ap_ok _ _ _ _ H2).
Defined.

(** The box at 10 is dropped: a later one overlaps it and scores as high. *)
Lemma nms_keeps_the_best_witness :
  non_max_suppression [ToyWitness.seen 10; ToyWitness.seen 12; ToyWitness.seen 120] =
    Ok [ToyWitness.seen 12; ToyWitness.seen 120] ∧
  ∃ ks kept, non_max_suppression [ToyWitness.seen 10; ToyWitness.seen 12; ToyWitness.seen 120] = Ok kept ∧
    nms_result [ToyWitness.seen 10; ToyWitness.seen 12; ToyWitness.seen 120] ks kept.
Proof. split; [vm_decide|]. apply nms_keeps_the_best. Defined.

Lemma frame_detections_are_sound_witness :
  ∃ ds, extract_person_detections (V := Toy.toy_vision) Toy.both Toy.both tt 1 [] (flit 6 10) = Ok ds ∧
    length ds = 2%nat ∧ frame_detections 200 100 [] (flit 6 10) ds.
Proof.
  assert ((match extract_person_detections (V := Toy.toy_vision) Toy.both Toy.both tt 1 [] (flit 6 10) with
           | Ok ds => length ds | Err _ => 0%nat end) = 2%nat) as Hlen by vm_decide.
  destruct (extract_person_detections (V := Toy.toy_vision) Toy.both Toy.both tt 1 [] (flit 6 10)) as [ds|e] eqn:E;
    [|discriminate Hlen].
  exists ds. split; [reflexivity|]. split; [exact Hlen|exact (frame_detections_are_sound _ _ _ _ _ _ _ E)].
Defined.

(** Two people over three frames, counted at a line. *)
Lemma run_counts_people_witness :
  ∃ r s, Toy.toy_run = Some (Ok r, s) ∧ (telemetry r).*1 = [1; 2] ∧ line_in_count r = 2 ∧
    run_counts Toy.config Toy.video r.
Proof.
  destruct (run_counts_people Toy.config 1 4 tt Toy.video (float_of_Z 3) (float_of_Z 200) (float_of_Z 100)
    (float_of_Z 3) Toy.video (Toy.toy_delivers _)) as (outcome&s&E&_&H); [simpl; lia|reflexivity|].
  assert ((match Toy.toy_run with
           | Some (Ok r, _) => ((telemetry r).*1, line_in_count r) | _ => ([], 0) end) = ([1; 2], 2)) as Hrun by vm_decide.
  change (Toy.toy_run = Some (outcome, s)) in E. rewrite E in Hrun. destruct outcome as [r|e]; [|discriminate Hrun].
  injection Hrun as Hids Hin. exists r, s. split; [exact E|]. split; [exact Hids|]. split; [exact Hin|]. by apply H.
Defined.

(** The tracker confirms both people in the second frame: they entered in the first. *)
Lemma rfdetr_run_summarises_witness :
  ∃ r s seen, Toy.toy_rfdetr_run = Some (Ok r, s) ∧
    (λ x : Z * PersonTelemetry, (x.1, pt_entry_frame x.2, pt_last_seen_frame x.2)) <$> telemetry r =
      [(0, 0, 2); (1, 0, 1)] ∧ run_summarises Toy.config Toy.video seen r.
Proof.
  destruct (rfdetr_run_summarises Toy.config 4 tt Toy.video (float_of_Z 3) (float_of_Z 200) (float_of_Z 100)
    (float_of_Z 3) Toy.video Toy.rfdetr_start (Toy.toy_delivers _)) as (outcome&s&E&_&H);
    [simpl; lia|reflexivity|reflexivity|].
  assert ((match Toy.toy_rfdetr_run with
           | Some (Ok r, _) => (λ x : Z * PersonTelemetry, (x.1, pt_entry_frame x.2, pt_last_seen_frame x.2)) <$> telemetry r
           | _ => [] end) = [(0, 0, 2); (1, 0, 1)]) as Hrun by vm_decide.
  change (Toy.toy_rfdetr_run = Some (outcome, s)) in E. rewrite E in Hrun. destruct outcome as [r|e]; [|discriminate Hrun].
  destruct (H r eq_refl) as [seen Hseen]. exists r, s, seen. split; [exact E|]. split; [exact Hrun|exact Hseen].
Defined.

(** Track 7 coasts one frame after it left, track 8 was lost two frames before. *)
Lemma coasting_tracks_are_recent_witness :
  let '(cache, report) := fold_left (coast 1)
    ([(0, Some [(7, det_bbox (ToyWitness.seen 10)); (8, det_bbox (ToyWitness.seen 120))]);
      (1, Some [(7, det_bbox (ToyWitness.seen 12))])] ++ [(2, None)]) ([], []) in
  report = [(7, det_bbox (ToyWitness.seen 12))] ∧ NoDup cache.*1.
Proof.
  pose proof (coasting_tracks_are_recent 1
    [(0, Some [(7, det_bbox (ToyWitness.seen 10)); (8, det_bbox (ToyWitness.seen 120))]);
     (1, Some [(7, det_bbox (ToyWitness.seen 12))])] 2 None 7) as H.
  destruct H as (H1&_&_); [simpl; repeat constructor|]. split; [vm_decide|exact H1].
Defined.
