(* ===== verification/Sha256.v ===== *)
(** * hashlib.sha256

    Batch membership, payloads, envelopes and finding identities are compared by
    SHA-256 digests.  The digest is the FIPS 180-4 function on 32-bit words kept
    as [Z] below [2^32], so the model's identities are the ones the program
    stores.  No theorem assumes it injective. *)
From S2P Require Export Prelude PyVal.
Local Open Scope Z_scope.

(** The low 32 bits. *)
Definition w32 (z : Z) : Z := Z.land z 0xffffffff.
Definition rotr (n x : Z) : Z := Z.lor (Z.shiftr x n) (w32 (Z.shiftl x (32 - n))).

(** The constants of FIPS 180-4: 32 fractional bits of the cube roots of the first
    64 primes, and of the square roots of the first 8. *)
Definition is_prime (n : nat) : bool :=
  forallb (λ d, negb (Nat.eqb (n mod d) 0)) (seq 2 (n - 2)).
Definition primes : list Z := Eval vm_compute in
  Z.of_nat <$> List.filter is_prime (seq 2 310).

(** The integer cube root, bit by bit from 2^i. *)
Fixpoint cube_root (i : nat) (n r : Z) : Z :=
  match i with
  | O => r
  | S i' =>
      let r' := r + 2 ^ Z.of_nat i' in
      cube_root i' n (if r' ^ 3 <=? n then r' else r)
  end.

Definition sha_k : list Z := Eval vm_compute in
  (λ p, w32 (cube_root 36 (p * 2 ^ 96) 0)) <$> primes.
Definition sha_init : list Z := Eval vm_compute in
  (λ p, w32 (Z.sqrt (p * 2 ^ 64))) <$> take 8 primes.

Example sha_constants :
  length sha_k = 64%nat ∧ sha_k !! 0%nat = Some 0x428a2f98 ∧ sha_init !! 7%nat = Some 0x5be0cd19.
Proof. vm_compute. done. Qed.

(** Split into consecutive chunks of [n]. *)
Fixpoint chunks {A} (fuel n : nat) (l : list A) : list (list A) :=
  match fuel, l with
  | O, _ | _, [] => []
  | S f, _ => take n l :: chunks f n (drop n l)
  end.

Definition be_word (l : list Z) : Z := fold_left (λ acc b, acc * 256 + b) l 0.
Definition be_bytes (n : nat) (z : Z) : list Z :=
  (λ i, (z / 256 ^ Z.of_nat i) mod 256) <$> rev (seq 0 n).

(** The message followed by 0x80, zeros and the bit length on 64 bits. *)
Definition sha_pad (m : list Z) : list Z :=
  let n := Z.of_nat (length m) in
  m ++ 0x80 :: replicate (Z.to_nat ((55 - n) mod 64)) 0 ++ be_bytes 8 (8 * n).

(** The message schedule, latest word first. *)
Fixpoint schedule (n : nat) (rw : list Z) : list Z :=
  match n with
  | O => rw
  | S n' =>
      let at_ i := nth i rw 0 in
      let s0 x := Z.lxor (Z.lxor (rotr 7 x) (rotr 18 x)) (Z.shiftr x 3) in
      let s1 x := Z.lxor (Z.lxor (rotr 17 x) (rotr 19 x)) (Z.shiftr x 10) in
      schedule n' (w32 (s1 (at_ 1%nat) + at_ 6%nat + s0 (at_ 14%nat) + at_ 15%nat) :: rw)
  end.

Definition sha_round (st : list Z) (kw : Z * Z) : list Z :=
  match st with
  | [a; b; c; d; e; f; g; h] =>
      let S1 := Z.lxor (Z.lxor (rotr 6 e) (rotr 11 e)) (rotr 25 e) in
      let ch := Z.lxor (Z.land e f) (Z.land (w32 (Z.lnot e)) g) in
      let t1 := h + S1 + ch + kw.1 + kw.2 in
      let S0 := Z.lxor (Z.lxor (rotr 2 a) (rotr 13 a)) (rotr 22 a) in
      let maj := Z.lxor (Z.lxor (Z.land a b) (Z.land a c)) (Z.land b c) in
      [w32 (t1 + S0 + maj); a; b; c; w32 (d + t1); e; f; g]
  | _ => st
  end.

Definition sha_block (st : list Z) (block : list Z) : list Z :=
  let w := rev (schedule 48 (rev (be_word <$> chunks 16 4 block))) in
  let st' := fold_left sha_round (zip sha_k w) st in
  zip_with (λ x y, w32 (x + y)) st st'.

Definition sha256 (m : list Z) : list Z :=
  let p := sha_pad m in
  fold_left sha_block (chunks (length p) 64 p) sha_init.

Definition hexdigest (st : list Z) : string :=
  str_of_codes (concat ((λ w, concat ((λ b, [hex_digit (b / 16); hex_digit (b mod 16)])
                                        <$> be_bytes 4 w)) <$> st)).

(** UTF-8 of code points below 256. *)
Definition utf8 (s : string) : list Z :=
  concat ((λ z, if z <? 128 then [z] else [192 + z / 64; 128 + z mod 64]) <$> codes_of_str s).

(** [hashlib.sha256(value.encode("utf-8")).hexdigest()]. *)
Definition sha256_text (s : string) : string := hexdigest (sha256 (utf8 s)).

Example sha256_abc :
  sha256_text "abc" = "ba7816bf8f01cfea414140de5dae2223b00361a396177a9cb410ff61f20015ad"%string.
Proof. vm_compute. reflexivity. Qed.

Example sha256_two_blocks :
  sha256_text "abcdbcdecdefdefgefghfghighijhijkijkljklmklmnlmnomnopnopq"
  = "248d6a61d20638b8e5c026930c3e6039a33ce45964ff2167f6ecedd419db06c1"%string.
Proof. vm_compute. reflexivity. Qed.
