(* ===== verification/LocalStorage.v ===== *)
(** * local_storage.py: the content-addressed object store

    [ContentAddressedStore] keeps immutable objects under
    [root/sha256/<2 digits>/<digest>].  The file system is a map from paths to
    bytes; a write is atomic (temporary file, then a rename that does not
    replace), so a write either creates the object or finds it.  The second part
    proves that what was put is what is read. *)
From S2P Require Export Prelude PyVal Sha256.

Abbreviation Files := (gmap string (list Z)).

Record StoredObject := {
  so_sha256 : string;
  so_size_bytes : Z;
  so_path : string;
}.

(** [_SHA256.fullmatch]: 64 lowercase hexadecimal characters. *)
Definition is_hex (z : Z) : bool :=
  ((48 <=? z) && (z <=? 57) || (97 <=? z) && (z <=? 102))%Z.
Definition is_sha256 (s : string) : bool :=
  bool_decide (length (codes_of_str s) = 64) && forallb is_hex (codes_of_str s).

Definition _validated_digest (v : string) : result string :=
  if is_sha256 v then Ok v else Err ValueError.

(** [self.root / "sha256" / digest[:2] / digest]: the parts hold no separator
    and no dot, so the path stays under the root. *)
Definition object_path (root digest : string) : result string :=
  d ← _validated_digest digest;
  Ok (root +:+ "/sha256/" +:+ String.substring 0 2 d +:+ "/" +:+ d)%string.

Definition _verify_existing (content : list Z) (path expected : string)
    (expected_size : Z) : result StoredObject :=
  if bool_decide (Z.of_nat (length content) = expected_size)
     && bool_decide (hexdigest (sha256 content) = expected)
  then Ok {| so_sha256 := expected; so_size_bytes := expected_size; so_path := path |}
  else Err ImmutableContentConflictError.

Definition put_bytes (root : string) (content : list Z)
    (expected_sha256 : option string) : tx Files StoredObject := λ fs,
  let digest := hexdigest (sha256 content) in
  let size := Z.of_nat (length content) in
  let check := match expected_sha256 with
    | None => Ok tt
    | Some e => e' ← _validated_digest e; require (bool_decide (digest = e')) ContentHashMismatchError
    end in
  match check;; object_path root digest with
  | Err e => (Err e, fs)
  | Ok path =>
      match fs !! path with
      | Some existing => (_verify_existing existing path digest size, fs)
      | None => (Ok {| so_sha256 := digest; so_size_bytes := size; so_path := path |},
                 <[path := content]> fs)
      end
  end.

(** [put_json]: NaN and infinities are written, unlike in [_canonical_json]. *)
Definition put_json (root : string) (v : pyval) : tx Files StoredObject := λ fs,
  match json_dumps true v with
  | Ok text => put_bytes root (codes_of_str text) None fs
  | Err e => (Err e, fs)
  end.

Definition read_bytes (root sha : string) : tx Files (list Z) := λ fs,
  (path ← (d ← _validated_digest sha; object_path root d);
   match fs !! path with
   | None => Err FileNotFoundError
   | Some content =>
       if bool_decide (hexdigest (sha256 content) = sha) then Ok content
       else Err ContentHashMismatchError
   end, fs).

(** Every object lies at the path of its own digest. *)
Definition store_ok (root : string) (fs : Files) : Prop :=
  ∀ path content, fs !! path = Some content →
    object_path root (hexdigest (sha256 content)) = Ok path.

(** ** Correctness of the content-addressed store

    A digest is 64 hexadecimal characters, so every object has a path of its own;
    what was put is what is read, for ever. *)
Local Open Scope Z_scope.

(** ** Digests *)

Lemma code_chr z : 0 ≤ z < 256 → code (chr z) = z.
Proof.
  intros Hz. unfold code, chr. rewrite Ascii.N_ascii_embedding; [lia|].
  apply (N2Z.inj_lt _ 256). lia.
Qed.

Lemma codes_of_codes l : Forall (λ z, 0 ≤ z < 256) l → codes_of_str (str_of_codes l) = l.
Proof.
  intros H. unfold codes_of_str, str_of_codes. rewrite String.list_ascii_of_string_of_list_ascii.
  rewrite <-list_fmap_compose. induction H as [|z l Hz _ IH]; [done|]. csimpl. by rewrite code_chr, IH.
Qed.

Lemma hex_digit_hex z : 0 ≤ z < 16 → is_hex (hex_digit z) = true ∧ 0 ≤ hex_digit z < 256.
Proof.
  intros Hz. unfold hex_digit, is_hex.
  rewrite orb_true_iff, !andb_true_iff, !Z.leb_le. destruct (Z.ltb_spec z 10); lia.
Qed.

Definition digest_codes (st : list Z) : list Z :=
  concat ((λ w, concat ((λ b, [hex_digit (b / 16); hex_digit (b mod 16)]) <$> be_bytes 4 w)) <$> st).

Lemma be_bytes_spec n w : length (be_bytes n w) = n ∧ Forall (λ b, 0 ≤ b < 256) (be_bytes n w).
Proof.
  unfold be_bytes. split; [by rewrite length_fmap, length_rev, length_seq|].
  apply Forall_fmap, Forall_forall. intros i _. simpl. apply Z.mod_pos_bound. lia.
Qed.

Lemma digest_codes_spec st :
  length (digest_codes st) = (8 * length st)%nat ∧
  Forall (λ z, is_hex z = true ∧ 0 ≤ z < 256) (digest_codes st).
Proof.
  unfold digest_codes. induction st as [|w st [IH1 IH2]]; [done|].
  rewrite fmap_cons. cbn [concat]. destruct (be_bytes_spec 4 w) as [Hl Hb].
  assert (∀ l, Forall (λ b, 0 ≤ b < 256) l →
    length (concat ((λ b, [hex_digit (b / 16); hex_digit (b mod 16)]) <$> l)) = (2 * length l)%nat ∧
    Forall (λ z, is_hex z = true ∧ 0 ≤ z < 256)
      (concat ((λ b, [hex_digit (b / 16); hex_digit (b mod 16)]) <$> l))) as Hhex.
  { induction 1 as [|b l Hb' _ [H1 H2]]; [done|]. rewrite fmap_cons. simpl. split; [lia|].
    constructor; [|constructor; [|done]]; apply hex_digit_hex.
    - split; [apply Z.div_pos; lia|apply Z.div_lt_upper_bound; lia].
    - apply Z.mod_pos_bound. lia. }
  destruct (Hhex _ Hb) as [H1 H2]. rewrite length_app, H1, Hl, IH1. split; [cbn [length]; lia|].
  by apply Forall_app.
Qed.

Lemma sha_round_length st kw : length (sha_round st kw) = length st.
Proof. unfold sha_round. by repeat (destruct st as [|? st]; try done). Qed.

Lemma sha256_length m : length (sha256 m) = 8%nat.
Proof.
  unfold sha256. generalize (chunks (length (sha_pad m)) 64 (sha_pad m)). intros bs.
  assert (∀ st, length st = 8%nat → length (fold_left sha_block bs st) = 8%nat) as H.
  { induction bs as [|b bs IH]; intros st Hst; [done|]. simpl. apply IH. unfold sha_block.
    rewrite length_zip_with. generalize (zip sha_k (rev (schedule 48 (rev (be_word <$> chunks 16 4 b))))).
    intros l. assert (length (fold_left sha_round l st) = length st) as ->; [|lia].
    clear. revert st. induction l as [|x l IH]; intros st; [done|]. simpl.
    by rewrite IH, sha_round_length. }
  by apply H.
Qed.

(** The digest of any content names an object. *)
Lemma is_sha256_digest m : is_sha256 (hexdigest (sha256 m)) = true.
Proof.
  destruct (digest_codes_spec (sha256 m)) as [Hl Hf]. rewrite sha256_length in Hl.
  unfold is_sha256, hexdigest. fold (digest_codes (sha256 m)).
  rewrite codes_of_codes by (eapply Forall_impl; [exact Hf|]; by intros ? []).
  rewrite bool_decide_eq_true_2 by done. simpl. apply forallb_forall.
  intros z Hz%list_elem_of_In. rewrite Forall_forall in Hf. by apply Hf.
Qed.

(** ** Paths *)

Definition digest_path (root digest : string) : string :=
  (root +:+ "/sha256/" +:+ String.substring 0 2 digest +:+ "/" +:+ digest)%string.

Lemma object_path_digest root m :
  object_path root (hexdigest (sha256 m)) = Ok (digest_path root (hexdigest (sha256 m))).
Proof. unfold object_path, _validated_digest. by rewrite is_sha256_digest. Qed.

Lemma is_sha256_length s : is_sha256 s = true → String.length s = 64%nat.
Proof.
  unfold is_sha256. intros [H _]%andb_true_iff. apply bool_decide_eq_true in H.
  unfold codes_of_str in H. rewrite length_fmap in H.
  assert (∀ s, length (String.list_ascii_of_string s) = String.length s) as E; [|by rewrite <-E].
  induction s0; simpl; auto.
Qed.

Lemma string_app_length (u v : string) :
  String.length (u +:+ v) = (String.length u + String.length v)%nat.
Proof. induction u as [|x u IH]; [done|]. change (S (String.length (u +:+ v)) = S (String.length u + String.length v)). by rewrite IH. Qed.

Lemma string_app_inv_tail (a b c d : string) :
  String.length c = String.length d → (a +:+ c = b +:+ d)%string → a = b ∧ c = d.
Proof.
  intros Hl. revert b. induction a as [|x a IH]; intros [|y b] H.
  - done.
  - change (c = String y (b +:+ d)) in H. subst c. simpl in Hl. rewrite string_app_length in Hl. lia.
  - change (String x (a +:+ c) = d) in H. subst d. simpl in Hl. rewrite string_app_length in Hl. lia.
  - injection H as -> H. by destruct (IH b H) as [-> ->].
Qed.

(** Distinct digests have distinct paths. *)
Lemma digest_path_inj root d1 d2 :
  String.length d1 = String.length d2 → digest_path root d1 = digest_path root d2 → d1 = d2.
Proof.
  unfold digest_path. intros Hl H. apply (inj (String.append root)) in H.
  apply (inj (String.append "/sha256/")) in H.
  apply string_app_inv_tail in H as [_ H]; [|by rewrite !string_app_length, Hl].
  by apply (inj (String.append "/")) in H.
Qed.

(** ** Reads and writes *)

(** What a read of a digest returns. *)
Definition stored (root digest : string) (fs : Files) : option (list Z) :=
  fs !! digest_path root digest.

Lemma read_stored root m fs c :
  stored root (hexdigest (sha256 m)) fs = Some c → hexdigest (sha256 c) = hexdigest (sha256 m) →
  read_bytes root (hexdigest (sha256 m)) fs = (Ok c, fs).
Proof.
  unfold stored, read_bytes. intros H E. unfold _validated_digest. rewrite is_sha256_digest. simpl.
  rewrite object_path_digest. simpl. by rewrite H, bool_decide_eq_true_2.
Qed.

(** The cases of a put: the object is created, or the present one is checked. *)
Lemma put_bytes_cases root content expected fs r fs' :
  put_bytes root content expected fs = (r, fs') →
  let d := hexdigest (sha256 content) in
  (∃ e, r = Err e ∧ fs' = fs) ∨
  (∃ o, r = Ok o ∧ so_sha256 o = d ∧ so_path o = digest_path root d ∧
     so_size_bytes o = Z.of_nat (length content) ∧
     match stored root d fs with
     | None => fs' = <[digest_path root d := content]> fs
     | Some c => fs' = fs ∧ hexdigest (sha256 c) = d ∧ length c = length content
     end).
Proof.
  intros H d. unfold put_bytes in H. fold d in H.
  destruct (match expected with Some e => _ | None => Ok tt end) as [[]|e] eqn:E;
    [|left; simpl in H; simplify_eq; eauto].
  unfold d in H. rewrite object_path_digest in H. simpl in H. fold d in H. unfold stored.
  destruct (fs !! digest_path root d) as [c|] eqn:Hc.
  - unfold _verify_existing in H. repeat case_bool_decide; simpl in H; simplify_eq; [right|left; eauto..].
    eexists. split_and!; first [done|lia].
  - right. simplify_eq. eauto 10.
Qed.

Lemma put_keeps_stored root content expected fs r fs' digest c :
  put_bytes root content expected fs = (r, fs') → String.length digest = 64%nat →
  stored root digest fs = Some c → stored root digest fs' = Some c.
Proof.
  intros H Hd Hc. apply put_bytes_cases in H as [(e&->&->)|(o&_&_&_&_&H)]; [done|].
  destruct (stored root (hexdigest (sha256 content)) fs) eqn:E; [by destruct H as [-> _]|].
  subst fs'. unfold stored in *. rewrite lookup_insert_ne; [done|]. intros Hp.
  apply digest_path_inj in Hp; [|by rewrite Hd, is_sha256_length by apply is_sha256_digest].
  rewrite Hp in E. congruence.
Qed.

Lemma put_keeps_store_ok root content expected fs r fs' :
  store_ok root fs → put_bytes root content expected fs = (r, fs') → store_ok root fs'.
Proof.
  intros O H. apply put_bytes_cases in H as [(e&->&->)|(o&_&_&_&_&H)]; [done|].
  case_match; [by destruct H as [-> _]|]. subst. intros path c [[<- <-]|[_ Hp]]%lookup_insert_Some.
  - apply object_path_digest.
  - by apply O.
Qed.

(** A sequence of puts, whatever their outcomes. *)
Definition put_all (root : string) (puts : list (list Z * option string)) (fs : Files) : Files :=
  fold_left (λ fs p, (put_bytes root p.1 p.2 fs).2) puts fs.

(** C34. Put and read are inverse for ever.  After a successful put, reading the
    returned digest gives content of that digest and size, after any further puts;
    it is the content put, when the digest was new to the store.  The store keeps
    every object at the path of its own digest. *)
Theorem put_then_read root content expected fs o fs' puts :
  store_ok root fs → put_bytes root content expected fs = (Ok o, fs') →
  let later := put_all root puts fs' in
  so_sha256 o = hexdigest (sha256 content) ∧ so_size_bytes o = Z.of_nat (length content) ∧
  store_ok root later ∧
  ∃ c, read_bytes root (so_sha256 o) later = (Ok c, later) ∧
    hexdigest (sha256 c) = so_sha256 o ∧ Z.of_nat (length c) = so_size_bytes o ∧
    (fs !! so_path o = None → c = content).
Proof.
  intros O H later. pose proof (put_keeps_store_ok _ _ _ _ _ _ O H) as O'.
  set (d := hexdigest (sha256 content)).
  assert (String.length d = 64%nat) as Hd by apply is_sha256_length, is_sha256_digest.
  assert (∀ c fs0, store_ok root fs0 → stored root d fs0 = Some c →
    store_ok root (put_all root puts fs0) ∧ stored root d (put_all root puts fs0) = Some c) as Hkeep.
  { unfold put_all. induction puts as [|p puts IH]; intros c fs0 O0 H0; [done|]. simpl. apply IH.
    - by eapply put_keeps_store_ok; [|apply surjective_pairing].
    - by eapply put_keeps_stored; [apply surjective_pairing|..]. }
  apply put_bytes_cases in H as [(e&?&_)|(o'&[= <-]&Es&Ep&Ez&H)]; [done|]. fold d in Es, Ep, H.
  assert (∃ c, stored root d fs' = Some c ∧ hexdigest (sha256 c) = d ∧ length c = length content ∧
    (fs !! so_path o = None → c = content)) as (c&Hc&E1&E2&E3).
  { rewrite Ep. fold (stored root d fs). destruct (stored root d fs) as [c|] eqn:Hs.
    - destruct H as (->&?&?). exists c. split_and!; done.
    - subst fs'. exists content. unfold stored. rewrite lookup_insert_eq. split_and!; done. }
  destruct (Hkeep c fs' O' Hc) as [Ol Hl]. split_and!; [done|done|done|].
  exists c. rewrite Es, Ez. split_and!; [by apply read_stored|done|lia|done].
Qed.

Definition put_abc : result StoredObject * Files :=
  Eval vm_compute in put_bytes "/store" [97; 98; 99] None ∅.
Lemma put_abc_eq : put_bytes "/store" [97; 98; 99] None ∅ = put_abc.
Proof. vm_cast_no_check (eq_refl put_abc). Qed.

Lemma put_then_read_witness :
  ∃ o fs', put_abc = (Ok o, fs') ∧
    ∃ c, read_bytes "/store" (so_sha256 o) (put_all "/store" [([97], None)] fs') =
      (Ok c, put_all "/store" [([97], None)] fs').
Proof.
  destruct put_abc as [[o|e] fs'] eqn:E; [|discriminate E]. exists o, fs'. split; [reflexivity|].
  assert (O : store_ok "/store" ∅).
  { intros path c H. rewrite lookup_empty in H. discriminate H. }
  destruct (put_then_read "/store" [97; 98; 99] None ∅ o fs' [([97], None)] O
    (eq_trans put_abc_eq E)) as (_&_&_&c&H&_).
  exists c. exact H.
Defined.
