(* ===== verification/JsonTheorems.v ===== *)
(** * Reading back what json.dumps wrote

    [json_loads_codes]: the text of a value parses to the value with the keys of
    its dicts sorted and its floats re-read from their [repr].  That a float reads
    back as itself is decided by [reads_back], not proved in general. *)
From Stdlib Require Import SpecFloat.
From S2P Require Export Prelude PyFloat PyVal Json LocalStorage.
Local Open Scope Z_scope.

(** ** Induction on nested values *)

Section pyval_nested.
Variable P : pyval → Prop.
Hypothesis (Hnone : P VNone) (Hbool : ∀ b, P (VBool b)) (Hint : ∀ z, P (VInt z))
  (Hfloat : ∀ x, P (VFloat x)) (Hstr : ∀ s, P (VStr s))
  (Hlist : ∀ l, Forall P l → P (VList l))
  (Hdict : ∀ d, Forall (λ kv, P kv.2) d → P (VDict d)).

Fixpoint pyval_nested_ind (v : pyval) : P v :=
  match v with
  | VNone => Hnone | VBool b => Hbool b | VInt z => Hint z | VFloat x => Hfloat x
  | VStr s => Hstr s
  | VList l => Hlist l ((fix go l : Forall P l := match l with
      | [] => Forall_nil_2 _
      | x :: l' => Forall_cons_2 _ x l' (pyval_nested_ind x) (go l')
      end) l)
  | VDict d => Hdict d ((fix go d : Forall (λ kv, P kv.2) d := match d with
      | [] => Forall_nil_2 _
      | kv :: d' => Forall_cons_2 (λ kv, P kv.2) kv d' (pyval_nested_ind kv.2) (go d')
      end) d)
  end.
End pyval_nested.

(** ** The value that is read back *)

Definition sort_keys {A} (d : list (string * A)) : list (string * A) :=
  foldr (λ kv acc, insert_key kv.1 kv.2 acc) [] d.

Fixpoint json_sorted (v : pyval) : pyval :=
  match v with
  | VList l => VList (json_sorted <$> l)
  | VDict d => VDict (sort_keys ((λ kv, (kv.1, json_sorted kv.2)) <$> d))
  | _ => v
  end.

(** [float(repr(x))]; the constants of the encoder are read as themselves. *)
Definition reread (x : Float) : pyval :=
  if fisfinite x then match parse_number (float_repr x) with Some (v, _) => v | None => VNone end
  else VFloat x.
Definition reads_back (x : Float) : bool :=
  match reread x with VFloat y => bool_decide (y = x) | _ => false end.

Fixpoint json_read (v : pyval) : pyval :=
  match v with
  | VFloat x => reread x
  | VList l => VList (json_read <$> l)
  | VDict d => VDict (sort_keys ((λ kv, (kv.1, json_read kv.2)) <$> d))
  | _ => v
  end.

(** Unique keys, as every Python dict has. *)
Fixpoint json_unique (v : pyval) : bool :=
  match v with
  | VList l => forallb json_unique l
  | VDict d => bool_decide (NoDup d.*1) && forallb (λ kv, json_unique kv.2) d
  | _ => true
  end.

(** Unique keys, and floats whose [repr] reads back. *)
Fixpoint json_safe (v : pyval) : bool :=
  match v with
  | VFloat x => reads_back x
  | VList l => forallb json_safe l
  | VDict d => bool_decide (NoDup d.*1) && forallb (λ kv, json_safe kv.2) d
  | _ => true
  end.

(** ** Numbers *)

(** What follows a value inside a text: nothing, a comma or a closing bracket. *)
Definition stops (l : list Z) : Prop :=
  match l with [] => True | z :: _ => z = 44 ∨ z = 93 ∨ z = 125 end.

Lemma digits_app l r : stops r → digits (l ++ r) = ((digits l).1, (digits l).2 ++ r).
Proof.
  intros Hr. induction l as [|z l IH]; simpl.
  - destruct r as [|y r]; [done|]. by destruct Hr as [->|[->| ->]].
  - destruct (is_digit z); [|done]. rewrite IH. by destruct (digits l).
Qed.

Lemma int_part_app l r : stops r → int_part (l ++ r) = (λ x, (x.1, x.2 ++ r)) <$> int_part l.
Proof.
  intros Hr. destruct l as [|z l']; simpl.
  - destruct r as [|y r]; [done|]. by destruct Hr as [->|[->| ->]].
  - destruct (z =? 48); [done|]. destruct (is_digit z); [|done].
    rewrite digits_app by done. by destruct (digits l').
Qed.

Lemma frac_part_app l r : stops r → frac_part (l ++ r) = ((frac_part l).1, (frac_part l).2 ++ r).
Proof.
  intros Hr. destruct l as [|z l']; simpl.
  - destruct r as [|y r]; [done|]. by destruct Hr as [->|[->| ->]].
  - destruct (z =? 46); [|done]. rewrite digits_app by done. by destruct (digits l') as [[|] ?].
Qed.

Lemma exp_part_app l r : stops r → exp_part (l ++ r) = ((exp_part l).1, (exp_part l).2 ++ r).
Proof.
  intros Hr. destruct l as [|z l']; simpl.
  - destruct r as [|y r]; [done|]. by destruct Hr as [->|[->| ->]].
  - destruct ((z =? 101) || (z =? 69)); [|done]. destruct l' as [|s l1]; simpl.
    + destruct r as [|y r]; [done|]. by destruct Hr as [->|[->| ->]].
    + destruct (s =? 45); [|destruct (s =? 43); [|change (s :: l1 ++ r) with ((s :: l1) ++ r)]];
        rewrite digits_app by done; [destruct (digits l1) as [[|] ?]; done..|].
      by destruct (digits (s :: l1)) as [[|] ?].
Qed.

(** A number that ends with its text is read the same before a stop. *)
Lemma parse_number_app l r v :
  stops r → parse_number l = Some (v, []) → parse_number (l ++ r) = Some (v, r).
Proof.
  intros Hr. unfold parse_number.
  assert (∃ neg l1, (match l with
      | z :: l1 => if z =? 45 then (true, l1) else (false, l) | [] => (false, l) end) = (neg, l1) ∧
    (match l ++ r with
      | z :: l1 => if z =? 45 then (true, l1) else (false, l ++ r) | [] => (false, l ++ r) end)
    = (neg, l1 ++ r)) as (neg&l1&->&->).
  { destruct l as [|z l']; simpl.
    - exists false, []. split; [done|]. destruct r as [|y r]; [done|]. by destruct Hr as [->|[->| ->]].
    - destruct (z =? 45); eauto. }
  rewrite int_part_app by done. destruct (int_part l1) as [[ip l2]|]; [|done]. simpl.
  rewrite frac_part_app by done. destruct (frac_part l2) as [fp l3]. simpl.
  rewrite exp_part_app by done. destruct (exp_part l3) as [ep l4]. simpl.
  destruct fp, ep; intros; by simplify_eq.
Qed.

(** *** Integers *)

Lemma dec_value_acc ds acc :
  fold_left (λ acc d, acc * 10 + (d - 48)) ds acc = acc * 10 ^ Z.of_nat (length ds) + dec_value ds.
Proof.
  unfold dec_value. revert acc. induction ds as [|d ds IH]; intros acc; simpl; [lia|].
  rewrite IH, (IH (0 * 10 + _)). rewrite Nat2Z.inj_succ, Z.pow_succ_r by lia. lia.
Qed.

Lemma dec_digits_aux_spec fuel z acc :
  0 ≤ z < 2 ^ Z.of_nat fuel → Forall (λ d, is_digit d = true) acc →
  ∃ ds, dec_digits_aux fuel z acc = ds ++ acc ∧ dec_value ds = z ∧
    Forall (λ d, is_digit d = true) ds ∧ (fuel ≠ 0%nat → ds ≠ []) ∧
    (∀ ds', ds = 48 :: ds' → ds' = []).
Proof.
  revert z acc. induction fuel as [|n IH]; intros z acc Hz Hacc.
  - exists []. simpl in *. split; [done|]. split; [unfold dec_value; simpl; lia|]. done.
  - simpl. assert (Hd : is_digit (digit (z mod 10)) = true).
    { unfold is_digit, digit. pose proof (Z.mod_pos_bound z 10). rewrite andb_true_iff, !Z.leb_le. lia. }
    destruct (Z.ltb_spec z 10) as [Hlt|Hge].
    + exists [digit (z mod 10)]. rewrite Z.mod_small by lia.
      unfold dec_value, digit. simpl. split; [done|]. split; [lia|].
      rewrite Z.mod_small in Hd by lia. split; [by repeat constructor|]. split; [done|]. naive_solver.
    + rewrite Nat2Z.inj_succ, Z.pow_succ_r in Hz by lia.
      assert (n ≠ 0%nat) by (intros ->; simpl in Hz; lia).
      destruct (IH (z / 10) (digit (z mod 10) :: acc)) as (ds&E&Hv&Hds&Hne&H0); [|by constructor|].
      { split; [apply Z.div_pos; lia|]. apply Z.div_lt_upper_bound; lia. }
      exists (ds ++ [digit (z mod 10)]). rewrite E, <-app_assoc. split; [done|]. split.
      * unfold dec_value in *. rewrite fold_left_app, Hv. simpl. unfold digit.
        pose proof (Z.div_mod z 10). lia.
      * split; [apply Forall_app; by repeat constructor|]. split; [by destruct ds|].
        intros ds' Eds. destruct ds as [|d ds]; [by destruct Hne|]. simplify_eq/=.
        assert (ds = []) as -> by naive_solver. unfold dec_value in Hv. simpl in Hv.
        assert (1 ≤ z / 10) by (apply Z.div_le_lower_bound; lia). lia.
Qed.

Lemma dec_digits_spec z :
  0 ≤ z → ∃ d ds, dec_digits z = d :: ds ∧ dec_value (d :: ds) = z ∧
    Forall (λ d, is_digit d = true) (d :: ds) ∧ (d = 48 → ds = []).
Proof.
  intros Hz. destruct (dec_digits_aux_spec (S (Z.to_nat (Z.log2 z))) z []) as (ds&E&Hv&Hds&Hne&H0);
    [|done|].
  - rewrite Nat2Z.inj_succ, Z2Nat.id by apply Z.log2_nonneg. split; [done|].
    destruct (Z.eq_dec z 0) as [->|]; [done|]. apply Z.log2_spec. lia.
  - rewrite app_nil_r in E. destruct ds as [|d ds]; [by destruct Hne|].
    exists d, ds. split_and!; try done. intros ->. naive_solver.
Qed.

Lemma digits_all ds : Forall (λ d, is_digit d = true) ds → digits ds = (ds, []).
Proof. induction 1 as [|d ds Hd _ IH]; simpl; [done|]. by rewrite Hd, IH. Qed.

Lemma parse_int z : parse_number (int_codes z) = Some (VInt z, []).
Proof.
  assert (H : ∀ z, 0 ≤ z → int_part (dec_digits z) = Some (dec_digits z, []) ∧
     dec_value (dec_digits z) = z ∧ head (dec_digits z) ≠ Some 45).
  { intros y Hy. destruct (dec_digits_spec y Hy) as (d&ds&->&Hv&Hds&H0). split_and!; [|done|].
    - unfold int_part. destruct (Z.eqb_spec d 48) as [->|]; [by rewrite (H0 eq_refl)|].
      by rewrite (Forall_inv Hds), digits_all.
    - intros ?. simplify_eq/=. by inversion Hds. }
  unfold parse_number, int_codes. destruct (Z.ltb_spec z 0).
  - destruct (H (- z)) as (E&V&_); [lia|]. simpl. rewrite E. simpl. rewrite V. do 3 f_equal. lia.
  - destruct (H z) as (E&V&Hh); [lia|]. destruct (dec_digits z) as [|d ds]; [done|].
    destruct (Z.eqb_spec d 45) as [->|]; [done|]. rewrite E. simpl. by rewrite V.
Qed.

(** ** Strings *)

Definition latin1 (z : Z) : Prop := 0 ≤ z < 256.

Lemma code_latin1 s : Forall latin1 (codes_of_str s).
Proof.
  unfold codes_of_str. apply Forall_fmap, Forall_true. intros c.
  by destruct c as [[] [] [] [] [] [] [] []].
Qed.

Lemma str_of_codes_of_str s : str_of_codes (codes_of_str s) = s.
Proof.
  unfold str_of_codes, codes_of_str. rewrite <-list_fmap_compose.
  rewrite (list_fmap_ext _ id), list_fmap_id; [apply String.string_of_list_ascii_of_string|].
  intros i c _. unfold compose, chr, code. rewrite N2Z.id. apply Ascii.ascii_N_embedding.
Qed.

Lemma hex_value_digit d : 0 ≤ d < 16 → hex_value (hex_digit d) = Some d.
Proof.
  intros. unfold hex_value, hex_digit, is_digit.
  destruct (Z.ltb_spec d 10).
  - rewrite (proj2 (Z.leb_le 48 _)), (proj2 (Z.leb_le _ 57)) by lia. simpl. f_equal. lia.
  - rewrite (proj2 (Z.leb_gt (87 + d) 57)), andb_false_r by lia.
    rewrite (proj2 (Z.leb_le 97 _)), (proj2 (Z.leb_le _ 102)) by lia. simpl. f_equal. lia.
Qed.

Lemma parse_char z n l s r :
  latin1 z → parse_chars n l = Some (s, r) →
  parse_chars (S n) (json_char z ++ l) = Some (z :: s, r).
Proof.
  intros Hz Hl. unfold json_char.
  repeat match goal with
  | |- context [if Z.eqb z ?k then _ else _] => destruct (Z.eqb_spec z k) as [->|]; [simpl; by rewrite Hl|]
  end.
  destruct ((32 <=? z) && (z <=? 126)) eqn:E.
  - apply andb_true_iff in E as [E1 E2]. rewrite Z.leb_le in E1, E2. simpl.
    rewrite (proj2 (Z.eqb_neq z 34)), (proj2 (Z.eqb_neq z 92)), (proj2 (Z.ltb_ge z 32)) by done.
    by rewrite Hl.
  - unfold latin1 in Hz.
    assert (0 ≤ z / 16 < 16) by (split; [apply Z.div_pos; lia|apply Z.div_lt_upper_bound; lia]).
    pose proof (Z.mod_pos_bound z 16). cbn [app parse_chars].
    change (92 =? 34) with false. change (92 =? 92) with true. change (117 =? 117) with true.
    cbv iota. rewrite !hex_value_digit by lia. change (hex_value 48) with (Some 0). simpl.
    replace (((0 * 16 + 0) * 16 + z / 16) * 16 + z mod 16) with z by (pose proof (Z.div_mod z 16); lia).
    rewrite (proj2 (Z.ltb_lt z 256)) by lia. by rewrite Hl.
Qed.

Lemma json_char_length z : (1 ≤ length (json_char z))%nat.
Proof. unfold json_char. repeat case_match; simpl; lia. Qed.

Lemma parse_chars_mono n m l x : (n ≤ m)%nat → parse_chars n l = Some x → parse_chars m l = Some x.
Proof.
  revert m l x. induction n as [|n IH]; intros m l x Hnm; [done|].
  destruct m as [|m]; [lia|]. destruct l as [|z l]; [done|]. simpl.
  assert (Hgo : ∀ l (f : list Z * list Z → option (list Z * list Z)),
    parse_chars n l ≫= f = Some x → parse_chars m l ≫= f = Some x).
  { intros l0 f. destruct (parse_chars n l0) as [y|] eqn:E; [|done].
    by rewrite (IH m l0 y ltac:(lia) E). }
  destruct (z =? 34); [done|]. destruct (z =? 92); [|destruct (z <? 32); [done|apply Hgo]].
  destruct l as [|u l]; [done|]. destruct (u =? 117); [|destruct (escape u); [apply Hgo|done]].
  destruct l as [|a [|b [|c [|d l]]]]; try done.
  destruct (hex_value a); [|done]. destruct (hex_value b); [|done].
  destruct (hex_value c); [|done]. destruct (hex_value d); [|done].
  simpl. case_match; [apply Hgo|done].
Qed.

Lemma parse_json_str s r :
  parse_string (concat (json_char <$> codes_of_str s) ++ 34 :: r) = Some (s, r).
Proof.
  unfold parse_string.
  assert (H : ∀ l, Forall latin1 l →
    parse_chars (length (concat (json_char <$> l) ++ 34 :: r)) (concat (json_char <$> l) ++ 34 :: r)
    = Some (l, r)).
  { induction 1 as [|z l Hz _ IH]; csimpl; [done|]. rewrite <-app_assoc.
    eapply parse_chars_mono; [|by apply parse_char].
    pose proof (json_char_length z). rewrite !length_app. csimpl. lia. }
  rewrite H by apply code_latin1. simpl. by rewrite str_of_codes_of_str.
Qed.

(** ** Values *)

(** The first character of the text of a value. *)
Definition opens (l : list Z) : Prop :=
  match l with [] => False | z :: _ => is_ws z = false ∧ z ≠ 93 ∧ z ≠ 125 end.

Lemma opens_app l r : opens l → opens (l ++ r).
Proof. by destruct l. Qed.

Lemma opens_skip l : opens l → skip_ws l = l.
Proof. destruct l as [|z l]; simpl; [done|]. by intros [-> _]. Qed.

Lemma stops_skip l : stops l → skip_ws l = l.
Proof. destruct l as [|z l]; simpl; [done|]. by intros [->|[->| ->]]. Qed.

(** Numbers start with a sign or a digit. *)
Lemma parse_number_head l v r :
  parse_number l = Some (v, r) → ∃ z l', l = z :: l' ∧ (z = 45 ∨ is_digit z = true).
Proof.
  destruct l as [|z l]; [done|]. intros H. exists z, l. split; [done|].
  unfold parse_number in H. destruct (Z.eqb_spec z 45); [by left|right].
  unfold int_part in H. destruct (Z.eqb_spec z 48) as [->|]; [done|]. by destruct (is_digit z).
Qed.

Lemma number_head_facts z :
  z = 45 ∨ is_digit z = true →
  is_ws z = false ∧ z ≠ 93 ∧ z ≠ 125 ∧ (z =? 34) = false ∧ (z =? 91) = false ∧ (z =? 123) = false ∧
  (110 =? z) = false ∧ (116 =? z) = false ∧ (102 =? z) = false.
Proof.
  intros [->|H]; [done|]. unfold is_digit in H.
  apply andb_true_iff in H as [H1%Z.leb_le H2%Z.leb_le]. unfold is_ws.
  rewrite !(proj2 (Z.eqb_neq _ _)) by lia. split; [done|]. by split_and!; try lia.
Qed.

Lemma not_literal z l :
  (110 =? z) = false → (116 =? z) = false → (102 =? z) = false →
  first_prefix literals (z :: l) = None.
Proof.
  intros E1 E2 E3. unfold first_prefix, literals.
  change (codes_of_str "null") with (110 :: codes_of_str "ull").
  change (codes_of_str "true") with (116 :: codes_of_str "rue").
  change (codes_of_str "false") with (102 :: codes_of_str "alse").
  cbn [eat]. by rewrite E1, E2, E3.
Qed.

(** The text [t] of [v] is read before every stop, with the length of [t] as fuel. *)
Definition reads (t : list Z) (v : pyval) : Prop :=
  opens t ∧ ∀ n r, stops r → (length t ≤ n)%nat → parse_value n (t ++ r) = Some (v, r).

Lemma reads_number t v : parse_number t = Some (v, []) → reads t v.
Proof.
  intros H. destruct (parse_number_head _ _ _ H) as (z&l&->&Hz).
  apply number_head_facts in Hz as (Hw&H1&H2&E1&E2&E3&E4&E5&E6). split; [done|].
  intros n r Hr Hn. destruct n as [|n]; [simpl in Hn; lia|]. cbn [app parse_value].
  rewrite E1, E2, E3. unfold parse_atom. rewrite not_literal by done.
  change (z :: l ++ r) with ((z :: l) ++ r). by rewrite (parse_number_app _ r v).
Qed.

Lemma reads_str s : reads (json_str s) (VStr s).
Proof.
  split; [done|]. intros n r _ Hn. destruct n as [|n]; [simpl in Hn; lia|].
  unfold json_str. cbn [app parse_value]. change (34 =? 34) with true. cbv iota.
  rewrite <-app_assoc. simpl. by rewrite parse_json_str.
Qed.

(** Items separated by commas, then the closing bracket. *)
Lemma reads_items ts vs n r :
  Forall2 reads ts vs → ts ≠ [] → (length (commas ts) < n)%nat →
  parse_items n (commas ts ++ 93 :: r) = Some (vs, r).
Proof.
  intros H. revert n. induction H as [|t v ts vs [Ht Hp] H IH]; intros n Hne Hn; [done|].
  destruct n as [|n]; [lia|]. cbn [parse_items]. destruct ts as [|t' ts].
  - inversion H; subst. cbn [commas] in *. rewrite Hp by (simpl; auto; lia). simpl. done.
  - change (commas (t :: t' :: ts)) with (t ++ 44 :: commas (t' :: ts)) in *.
    rewrite length_app in Hn. cbn [length] in Hn. rewrite <-app_assoc. cbn [app].
    rewrite Hp by (simpl; auto; lia). cbn -[commas parse_items].
    rewrite opens_skip.
    + rewrite IH by (done || lia). done.
    + inversion H as [|? ? ? ? [Ho _] _]; subst. destruct ts; simpl; [|apply opens_app].
      * by apply opens_app.
      * by apply opens_app.
Qed.

Definition pair_text (kc : string * list Z) : list Z := json_str kc.1 ++ 58 :: kc.2.

Definition reads_pair (kt : string * list Z) (kv : string * pyval) : Prop :=
  kt.1 = kv.1 ∧ reads kt.2 kv.2.

(** One member of an object, up to the comma or brace that follows it. *)
Lemma reads_pair_step k t v n c r :
  reads t v → c = 44 ∨ c = 125 → (length t ≤ n)%nat →
  parse_pairs (S n) (pair_text (k, t) ++ c :: r) =
    if c =? 125 then Some ([(k, v)], r)
    else '(kvs, r') ← parse_pairs n (skip_ws r); Some ((k, v) :: kvs, r').
Proof.
  intros [Ho Hp] Hc Hn.
  assert (E : pair_text (k, t) ++ c :: r =
    34 :: concat (json_char <$> codes_of_str k) ++ 34 :: 58 :: t ++ c :: r).
  { unfold pair_text, json_str. simpl. by rewrite <-!app_assoc. }
  rewrite E. cbn [parse_pairs]. rewrite Z.eqb_refl, parse_json_str.
  cbn [mbind option_bind]. change (skip_ws (58 :: t ++ c :: r)) with (58 :: t ++ c :: r). cbv iota.
  rewrite Z.eqb_refl, opens_skip by by apply opens_app.
  rewrite Hp; [|simpl; naive_solver|done]. cbn [mbind option_bind].
  rewrite stops_skip by (simpl; naive_solver). by destruct Hc as [->| ->].
Qed.

Lemma reads_pairs ts kvs n r :
  Forall2 reads_pair ts kvs → ts ≠ [] → (length (commas (pair_text <$> ts)) < n)%nat →
  parse_pairs n (commas (pair_text <$> ts) ++ 125 :: r) = Some (kvs, r).
Proof.
  intros H. revert n. induction H as [|[k t] [k' v] ts kvs [Ek Hv] H IH]; intros n Hne Hn; [done|].
  simpl in Ek, Hv. subst k'. destruct n as [|n]; [lia|].
  assert (Ht : (length t < length (pair_text (k, t)))%nat).
  { unfold pair_text. rewrite length_app. simpl. lia. }
  destruct ts as [|kt' ts].
  - inversion H; subst. change (commas (pair_text <$> [(k, t)])) with (pair_text (k, t)) in *.
    by rewrite (reads_pair_step k t v) by (auto; lia).
  - change (commas (pair_text <$> (k, t) :: kt' :: ts))
      with (pair_text (k, t) ++ 44 :: commas (pair_text <$> kt' :: ts)) in *.
    rewrite length_app in Hn. cbn [length] in Hn. rewrite <-app_assoc. cbn [app].
    rewrite (reads_pair_step k t v) by (auto; lia). change (44 =? 125) with false. cbv iota.
    rewrite opens_skip; [by rewrite IH by (done || lia)|].
    by destruct ts.
Qed.

(** *** Dicts *)

Lemma dict_put_new {A} k (v : A) d : k ∉ d.*1 → dict_put k v d = d ++ [(k, v)].
Proof.
  induction d as [|[k' v'] d IH]; simpl; [done|]. rewrite not_elem_of_cons. intros [Hk Hd].
  destruct (String.eqb_spec k k'); [done|]. by rewrite IH.
Qed.

Lemma dict_of_pairs_NoDup {A} (l : list (string * A)) : NoDup l.*1 → dict_of_pairs l = l.
Proof.
  unfold dict_of_pairs. assert (∀ acc, NoDup (acc ++ l).*1 →
    fold_left (λ d kv, dict_put kv.1 kv.2 d) l acc = acc ++ l) as H; [|intros; by apply (H [])].
  induction l as [|[k v] l IH]; intros acc Hn; simpl; [by rewrite app_nil_r|].
  rewrite dict_put_new.
  - rewrite IH; [by rewrite <-app_assoc|]. by rewrite <-app_assoc.
  - rewrite fmap_app, NoDup_app in Hn. destruct Hn as (_&Hn&_). intros Hk. apply (Hn k Hk). left.
Qed.

Lemma insert_key_Permutation {A} k (v : A) d : insert_key k v d ≡ₚ (k, v) :: d.
Proof.
  induction d as [|[k' v'] d IH]; simpl; [done|]. destruct (str_leb k k'); [done|].
  rewrite IH. apply Permutation_swap.
Qed.

Lemma sort_keys_Permutation {A} (d : list (string * A)) : sort_keys d ≡ₚ d.
Proof.
  induction d as [|[k v] d IH]; [done|]. cbn. by rewrite insert_key_Permutation, IH.
Qed.

(** Two dicts that agree key by key agree after sorting. *)
Lemma sort_keys_Forall2 {A B} (R : A → B → Prop) d e :
  Forall2 (λ x y, x.1 = y.1 ∧ R x.2 y.2) d e →
  Forall2 (λ x y, x.1 = y.1 ∧ R x.2 y.2) (sort_keys d) (sort_keys e).
Proof.
  induction 1 as [|[k x] [k' y] d e [E H] _ IH]; [constructor|]. simpl in E, H. subst k'.
  change (sort_keys ((k, x) :: d)) with (insert_key k x (sort_keys d)).
  change (sort_keys ((k, y) :: e)) with (insert_key k y (sort_keys e)).
  induction IH as [|[k1 x1] [k2 y2] d' e' [E1 H1] Hl IHl]; simpl.
  - by apply Forall2_cons_2; [split|].
  - simpl in E1. subst k2. destruct (str_leb k k1).
    + do 2 (apply Forall2_cons_2; [by split|]). done.
    + by apply Forall2_cons_2; [split|].
Qed.

(** *** The text of arrays and objects *)

Lemma json_codes_list allow l t :
  json_codes allow (VList l) = Ok t ↔
  ∃ ts, Forall2 (λ v t, json_codes allow v = Ok t) l ts ∧ t = 91 :: commas ts ++ [93].
Proof.
  simpl. set (go := fix go l := match l with [] => Ok [] | _ :: _ => _ end).
  assert (H : ∀ ts, go l = Ok ts ↔ Forall2 (λ v t, json_codes allow v = Ok t) l ts).
  { induction l as [|v l IH]; intros ts; simpl.
    - split; [by intros [= <-]|by inversion 1].
    - rewrite result_bind_Ok. split.
      + intros (c&Hc&H). apply result_bind_Ok in H as (cs&Hcs&[= <-]). constructor; [done|by apply IH].
      + inversion 1 as [|? c ? cs Hc Hcs]; subst. exists c. split; [done|].
        apply IH in Hcs. by rewrite Hcs. }
  rewrite result_bind_Ok. setoid_rewrite H. naive_solver.
Qed.

Definition pair_codes (allow : bool) (kv : string * pyval) (kt : string * list Z) : Prop :=
  kv.1 = kt.1 ∧ json_codes allow kv.2 = Ok kt.2.

Lemma json_codes_dict allow d t :
  json_codes allow (VDict d) = Ok t ↔
  ∃ ts, Forall2 (pair_codes allow) d ts ∧
    t = 123 :: commas (pair_text <$> sort_keys ts) ++ [125].
Proof.
  simpl. set (go := fix go d := match d with [] => Ok [] | _ :: _ => _ end).
  assert (H : ∀ xs, go d = Ok xs ↔ ∃ ts, Forall2 (pair_codes allow) d ts ∧ xs = sort_keys ts).
  { induction d as [|[k v] d IH]; intros xs; simpl.
    - split; [by intros [= <-]; exists []|]. intros (ts&H&->). by inversion H.
    - rewrite result_bind_Ok. split.
      + intros (c&Hc&H). apply result_bind_Ok in H as (cs&(ts&Hts&->)%IH&[= <-]).
        exists ((k, c) :: ts). by repeat constructor.
      + intros (ts&H&->). inversion H as [|? [k' c] ? ts' [E Hc] Hts]; simpl in *; subst.
        exists c. split; [done|].
        by rewrite (proj2 (IH (sort_keys ts')) ltac:(eauto)). }
  rewrite result_bind_Ok. setoid_rewrite H. naive_solver.
Qed.

(** ** The round trip *)

(** *** Floats *)

Definition digits_only (l : list Z) : Prop := Forall (λ d, is_digit d = true) l.

Lemma digits_then l r :
  digits_only l → match r with [] => True | z :: _ => is_digit z = false end →
  digits (l ++ r) = (l, r).
Proof.
  intros Hl Hr. induction Hl as [|d l Hd _ IH]; simpl.
  - destruct r as [|z r]; [done|]. simpl. by rewrite Hr.
  - by rewrite Hd, IH.
Qed.

Lemma int_part_then d l r :
  digits_only (d :: l) → (d = 48 → l = []) →
  match r with [] => True | z :: _ => is_digit z = false end →
  int_part (d :: l ++ r) = Some (d :: l, r).
Proof.
  intros Hd H0 Hr. unfold int_part. destruct (Z.eqb_spec d 48) as [->|]; [by rewrite H0|].
  rewrite (Forall_inv Hd). change (d :: l ++ r) with ((d :: l) ++ r). by rewrite digits_then.
Qed.

(** The exponent that [repr] writes. *)
Lemma exp_codes_read x : ∃ n, exp_part (exp_codes x) = (Some n, []).
Proof.
  unfold exp_codes, exp_part. cbn [app].
  destruct (dec_digits_spec (Z.abs x) ltac:(lia)) as (d&ds&E&_&Hd&_). rewrite E.
  assert (∃ d' ds', (if (length (d :: ds) =? 1)%nat then [48] else []) ++ d :: ds = d' :: ds' ∧
    digits_only (d' :: ds')) as (d'&ds'&->&H').
  { case_match; [exists 48, (d :: ds)|exists d, ds]; (split; [done|]); [by constructor|done]. }
  destruct (x <? 0); simpl; pose proof (digits_all _ H') as Ed; simpl in Ed; rewrite Ed; eauto.
Qed.

(** A decimal with a fraction or an exponent is read as a float to its end. *)
Lemma parse_decimal neg d ds frac (x : option Z) :
  digits_only (d :: ds) → (d = 48 → ds = []) → digits_only frac →
  (frac ≠ [] ∨ x ≠ None) →
  ∃ y, parse_number ((if (neg : bool) then [45] else []) ++ d :: ds ++
    (match frac with [] => [] | _ => 46 :: frac end)
    ++ match x with Some x => exp_codes x | None => [] end) = Some (VFloat y, []).
Proof.
  intros Hd H0 Hf Hne. unfold parse_number.
  set (tail := (match frac with [] => [] | _ => 46 :: frac end)
    ++ match x with Some x => exp_codes x | None => [] end).
  assert (Hsign : match (if neg then [45] else []) ++ d :: ds ++ tail with
    | z :: l1 => if z =? 45 then (true, l1) else (false, (if neg then [45] else []) ++ d :: ds ++ tail)
    | [] => (false, (if neg then [45] else []) ++ d :: ds ++ tail) end = (neg, d :: ds ++ tail)).
  { destruct neg; [done|]. simpl. destruct (Z.eqb_spec d 45) as [->|]; [by inversion Hd|done]. }
  rewrite Hsign. clear Hsign.
  assert (Ht : match tail with [] => True | z :: _ => is_digit z = false end).
  { unfold tail. destruct frac, x; done. }
  rewrite int_part_then by done. cbn [mbind option_bind].
  assert (Hexp : match match x with Some x => exp_codes x | None => [] end with
    | [] => True | z :: _ => is_digit z = false end) by by destruct x.
  assert (Efrac : frac_part tail = (frac, match x with Some x => exp_codes x | None => [] end)).
  { unfold tail. destruct frac as [|f frac]; [by destruct x|]. unfold frac_part. cbn [app].
    rewrite Z.eqb_refl. change (f :: frac ++ ?r) with ((f :: frac) ++ r). by rewrite digits_then. }
  rewrite Efrac. destruct x as [x|].
  - destruct (exp_codes_read x) as [n ->]. destruct frac; eauto.
  - destruct frac as [|f frac]; [naive_solver|]. simpl. eauto.
Qed.
(** The decimal of [repr] has a positive coefficient. *)
Lemma shortest_aux_pos fuel m e k p : 1 ≤ (shortest_aux fuel m e k p).1.
Proof.
  revert p. induction fuel as [|n IH]; intros p; cbn [shortest_aux]; case_match eqn:E;
    try (apply List.find_some in E as [_ E]; case_match; simpl; [done|lia|done]).
  - simpl. lia.
  - apply IH.
Qed.

Lemma strip_zeros_pos fuel q x : 1 ≤ q → 1 ≤ (strip_zeros fuel q x).1.
Proof.
  revert q x. induction fuel as [|n IH]; intros q x Hq; simpl; [done|].
  destruct (Z.eqb_spec (q mod 10) 0) as [E|]; [|done]. apply IH.
  pose proof (Z.div_mod q 10). lia.
Qed.

Lemma repr_digits_read neg d ds pt :
  digits_only (d :: ds) → d ≠ 48 →
  ∃ y, parse_number ((if (neg : bool) then [45] else []) ++ repr_digits (d :: ds) pt)
    = Some (VFloat y, []).
Proof.
  intros Hd Hd0. unfold repr_digits.
  assert (Hz : ∀ n, digits_only (replicate n 48)) by (intros; by apply Forall_replicate).
  assert (H48 : ∀ l : list Z, d = 48 → l = []) by done.
  destruct ((-4 <? pt) && (pt <=? 16)) eqn:Ept.
  - destruct (Z.leb_spec pt 0).
    + assert (Hf : digits_only (replicate (Z.to_nat (- pt)) 48 ++ d :: ds)) 
        by (apply Forall_app; split; [apply Hz|done]).
      pose proof (parse_decimal neg 48 [] _ None (Forall_cons_2 _ 48 [] eq_refl (Forall_nil_2 _)) ltac:(done) Hf) as H1.
      destruct (replicate (Z.to_nat (- pt)) 48 ++ d :: ds) as [|f frac] eqn:E;
        [by destruct (replicate (Z.to_nat (- pt)) 48)|].
      rewrite app_nil_r in H1. apply H1. by left.
    + destruct (Z.leb_spec (Z.of_nat (length (d :: ds))) pt).
      * pose proof (parse_decimal neg d (ds ++ replicate (Z.to_nat (pt - Z.of_nat (length (d :: ds)))) 48)
          [48] None) as H1. rewrite <-app_assoc in H1. apply H1; [|done|by repeat constructor|by left].
        inversion Hd; subst. constructor; [done|]. apply Forall_app. split; [done|apply Hz].
      * destruct (Z.to_nat pt) as [|k] eqn:Ek; [lia|]. cbn [take drop app].
        assert (Hk : (k < length ds)%nat) by (simpl in *; lia).
        pose proof (parse_decimal neg d (take k ds) (drop k ds) None) as H1.
        inversion Hd as [|? ? Hd1 Hds]; subst.
        destruct (drop k ds) as [|f frac] eqn:E;
          [apply (f_equal length) in E; rewrite length_drop in E; simpl in E; lia|].
        rewrite app_nil_r in H1. apply H1; [|done| |by left].
        -- constructor; [done|]. by apply Forall_take.
        -- rewrite <-E. by apply Forall_drop.
  - destruct ds as [|d' ds].
    + pose proof (parse_decimal neg d [] [] (Some (pt - 1)) Hd) as H1. apply H1; auto. by constructor.
    + pose proof (parse_decimal neg d [] (d' :: ds) (Some (pt - 1))) as H1.
      inversion Hd; subst. apply H1; auto. by constructor.
Qed.

Lemma float_reread x : fisfinite x = true →
  ∃ y, parse_number (float_repr x) = Some (VFloat y, []) ∧ reread x = VFloat y.
Proof.
  intros Hx. unfold reread. rewrite Hx.
  enough (∃ y, parse_number (float_repr x) = Some (VFloat y, [])) as [y ->] by eauto.
  destruct x as [s|s| |s m e]; [|done..|].
  { destruct s; eexists; vm_compute; reflexivity. }
  unfold float_repr, shortest_decimal.
  pose proof (shortest_aux_pos 16 m e (dec_exponent m e) 1) as Hq.
  destruct (shortest_aux 16 m e (dec_exponent m e) 1) as [q0 x0]. cbn [fst] in Hq.
  apply (strip_zeros_pos 17 q0 x0) in Hq.
  destruct (strip_zeros 17 q0 x0) as [q k]. cbn [fst] in Hq.
  destruct (dec_digits_spec q ltac:(lia)) as (d&ds&->&Hv&Hd&H0). apply repr_digits_read; [done|].
  intros ->. rewrite (H0 eq_refl) in Hv. unfold dec_value in Hv. simpl in Hv. lia.
Qed.

Lemma json_float_reads allow x t : json_float allow x = Ok t → reads t (reread x).
Proof.
  intros Ht. destruct (fisfinite x) eqn:E.
  - destruct (float_reread x E) as (y&Hp&->).
    assert (t = float_repr x) as ->.
    { destruct x as [s|s| |s m e]; try discriminate E; by injection Ht as <-. }
    by apply reads_number.
  - unfold reread. rewrite E. destruct x as [s|s| |s m e]; try done; destruct allow; try done;
      injection Ht as <-; [destruct s|];
      (split; [done|]; intros [|n] r _ Hn; [simpl in Hn; lia|done]).
Qed.

Lemma opens_commas ts r : Forall opens ts → ts ≠ [] → opens (commas ts ++ r).
Proof.
  intros [|t l Ht _]; [done|]. intros _. destruct l; simpl; [by apply opens_app|].
  rewrite <-app_assoc. by apply opens_app.
Qed.

Lemma reads_list ts vs : Forall2 reads ts vs → reads (91 :: commas ts ++ [93]) (VList vs).
Proof.
  intros H. split; [done|]. intros [|n] r _ Hn; [simpl in Hn; lia|].
  cbn [app parse_value]. change (91 =? 34) with false. rewrite Z.eqb_refl, <-app_assoc.
  destruct (decide (ts = [])) as [->|Hne]; [by inversion H|].
  assert (Ho : opens (commas ts ++ [93] ++ r)).
  { apply opens_commas; [|done]. clear -H. induction H as [|? ? ? ? [? _]]; by constructor. }
  cbn [length] in Hn. rewrite length_app in Hn. cbn [length] in Hn.
  rewrite opens_skip by done. cbn [app] in *.
  pose proof (reads_items ts vs n r H Hne ltac:(lia)) as E.
  destruct (commas ts ++ 93 :: r) as [|z l]; [done|]. destruct Ho as (_&Hz&_).
  by rewrite (proj2 (Z.eqb_neq z 93)), E.
Qed.

Lemma reads_dict ts kvs :
  Forall2 reads_pair ts kvs → NoDup kvs.*1 →
  reads (123 :: commas (pair_text <$> ts) ++ [125]) (VDict kvs).
Proof.
  intros H Hnd. split; [done|]. intros [|n] r _ Hn; [simpl in Hn; lia|].
  cbn [app parse_value]. change (123 =? 34) with false. change (123 =? 91) with false.
  rewrite Z.eqb_refl, <-app_assoc.
  destruct (decide (ts = [])) as [->|Hne]; [by inversion H|].
  assert (Ho : opens (commas (pair_text <$> ts) ++ [125] ++ r)).
  { apply opens_commas; [|by destruct ts]. apply Forall_fmap, Forall_true. done. }
  cbn [length] in Hn. rewrite length_app in Hn. cbn [length] in Hn.
  rewrite opens_skip by done. cbn [app] in *.
  pose proof (reads_pairs ts kvs n r H Hne ltac:(lia)) as E.
  destruct (commas (pair_text <$> ts) ++ 125 :: r) as [|z l]; [done|]. destruct Ho as (_&_&Hz).
  rewrite (proj2 (Z.eqb_neq z 125)), E by done. simpl. by rewrite dict_of_pairs_NoDup.
Qed.

Lemma json_codes_reads allow v : ∀ t,
  json_unique v = true → json_codes allow v = Ok t → reads t (json_read v).
Proof.
  induction v as [|b|z|x|s|l IH|d IH] using pyval_nested_ind; intros t Hs Ht.
  - injection Ht as <-. split; [done|]. intros [|n] r _ Hn; [simpl in Hn; lia|done].
  - injection Ht as <-. destruct b;
      (split; [done|]; intros [|n] r _ Hn; [simpl in Hn; lia|done]).
  - injection Ht as <-. apply reads_number, parse_int.
  - by eapply json_float_reads.
  - injection Ht as <-. apply reads_str.
  - apply json_codes_list in Ht as (ts&Hts&->). simpl in Hs |- *. apply reads_list.
    revert Hs IH. induction Hts as [|v c l ts Hc _ IHl]; simpl; [constructor|].
    intros [Hs1 Hs2]%andb_true_iff [Hv IH]%Forall_cons. csimpl. constructor; eauto.
  - apply json_codes_dict in Ht as (ts&Hts&->). simpl in Hs |- *.
    apply andb_true_iff in Hs as [Hnd%bool_decide_eq_true Hs]. apply reads_dict.
    + apply (sort_keys_Forall2 reads). clear Hnd.
      revert Hs IH. induction Hts as [|[k v] [k' c] d ts [E Hc] _ IHd]; simpl; [constructor|].
      simpl in E, Hc. subst k'. intros [Hs1 Hs2]%andb_true_iff [Hv IH]%Forall_cons.
      csimpl. constructor; [split; [done|by apply Hv]|eauto].
    + rewrite (fmap_Permutation fst _ _ (sort_keys_Permutation _)).
      by rewrite <-list_fmap_compose.
Qed.

(** [json.loads(json.dumps(v))] is [v] re-read, with its keys sorted. *)
Lemma json_loads_codes allow v t :
  json_unique v = true → json_codes allow v = Ok t → json_loads t = Some (json_read v).
Proof.
  intros Hs Ht. destruct (json_codes_reads _ _ _ Hs Ht) as [Ho Hr]. unfold json_loads.
  rewrite opens_skip by done. specialize (Hr (S (length t)) [] I ltac:(lia)).
  rewrite app_nil_r in Hr. by rewrite Hr.
Qed.

(** *** The text is ASCII *)

Definition ascii (z : Z) : Prop := 0 ≤ z < 128.

Lemma hex_digit_ascii z : 0 ≤ z < 16 → ascii (hex_digit z).
Proof. intros. unfold ascii, hex_digit. destruct (z <? 10); lia. Qed.

Lemma json_str_ascii s : Forall ascii (json_str s).
Proof.
  unfold json_str. constructor; [done|]. apply Forall_app. split; [|by repeat constructor].
  pose proof (code_latin1 s) as H. induction H as [|z l Hz _ IH]; csimpl; [constructor|].
  apply Forall_app. split; [|done]. unfold json_char.
  repeat match goal with |- context [if Z.eqb z ?k then _ else _] =>
    destruct (Z.eqb z k); [by repeat constructor|] end.
  destruct ((32 <=? z) && (z <=? 126)) eqn:E.
  - apply andb_true_iff in E. rewrite !Z.leb_le in E. repeat constructor; unfold ascii; lia.
  - unfold latin1 in Hz. repeat (apply Forall_cons_2; [first [done|apply hex_digit_ascii]|]); [..|constructor].
    + split; [apply Z.div_pos; lia|apply Z.div_lt_upper_bound; lia].
    + apply Z.mod_pos_bound. lia.
Qed.

Lemma dec_digits_aux_ascii n z acc : Forall ascii acc → Forall ascii (dec_digits_aux n z acc).
Proof.
  revert z acc. induction n as [|n IH]; intros z acc H; simpl; [done|].
  assert (Forall ascii (digit (z mod 10) :: acc)).
  { constructor; [|done]. pose proof (Z.mod_pos_bound z 10). unfold ascii, digit. lia. }
  destruct (z <? 10); auto.
Qed.

Lemma dec_digits_ascii z : Forall ascii (dec_digits z).
Proof. apply dec_digits_aux_ascii. constructor. Qed.

Lemma int_codes_ascii z : Forall ascii (int_codes z).
Proof. unfold int_codes. destruct (z <? 0); [constructor; [done|]|]; apply dec_digits_ascii. Qed.

Lemma repr_digits_ascii ds pt : Forall ascii ds → Forall ascii (repr_digits ds pt).
Proof.
  intros H. unfold repr_digits.
  assert (Hz : ∀ n, Forall ascii (replicate n 48)) by (intros; by apply Forall_replicate).
  assert (He : ∀ x, Forall ascii (exp_codes x)).
  { intros x. unfold exp_codes. rewrite !Forall_app. split; [destruct (x <? 0); by repeat constructor|].
    split; [case_match; by repeat constructor|apply dec_digits_ascii]. }
  repeat case_match; subst; rewrite ?Forall_app, ?Forall_cons in *; try done;
    split_and?; try done; auto using Forall_take, Forall_drop; try by repeat constructor.
  all: try naive_solver. apply Forall_app. split; [constructor; apply H|done].
Qed.

Lemma float_repr_ascii x : Forall ascii (float_repr x).
Proof.
  destruct x as [[]|[]| |s m e]; [by repeat constructor..|]. simpl.
  destruct (shortest_decimal m e) as [q k]. apply Forall_app. split.
  - destruct s; by repeat constructor.
  - apply repr_digits_ascii, dec_digits_ascii.
Qed.

Lemma commas_ascii ts : Forall (Forall ascii) ts → Forall ascii (commas ts).
Proof.
  induction 1 as [|t ts Ht _ IH]; [constructor|]. destruct ts as [|t' ts]; [done|].
  change (commas (t :: t' :: ts)) with (t ++ 44 :: commas (t' :: ts)).
  apply Forall_app. split; [done|]. by constructor.
Qed.

Lemma json_codes_ascii allow v : ∀ t, json_codes allow v = Ok t → Forall ascii t.
Proof.
  induction v as [|b|z|x|s|l IH|d IH] using pyval_nested_ind; intros t Ht.
  - injection Ht as <-. by repeat constructor.
  - injection Ht as <-. destruct b; by repeat constructor.
  - injection Ht as <-. apply int_codes_ascii.
  - simpl in Ht. destruct x as [s|[]| |s m e], allow; try done; injection Ht as <-;
      
      first [apply (float_repr_ascii (S754_zero s))|apply (float_repr_ascii (S754_finite s m e))
            |by repeat constructor].
  - injection Ht as <-. apply json_str_ascii.
  - apply json_codes_list in Ht as (ts&Hts&->). constructor; [done|]. apply Forall_app.
    split; [|by repeat constructor]. apply commas_ascii.
    revert IH. induction Hts; intros [? ?]%Forall_cons || intros _; constructor; eauto.
  - apply json_codes_dict in Ht as (ts&Hts&->). constructor; [done|]. apply Forall_app.
    split; [|by repeat constructor]. apply commas_ascii, Forall_fmap.
    rewrite sort_keys_Permutation.
    revert IH. induction Hts as [|[k v] [k' c] d ts [E Hc] _ IHd]; [constructor|].
    simpl in E, Hc. subst k'. intros [Hv IH]%Forall_cons. constructor; [|by apply IHd].
    change (Forall ascii (json_str k ++ 58 :: c)).
    apply Forall_app. split; [apply json_str_ascii|]. constructor; [done|]. by eapply Hv.
Qed.

Lemma utf8_decode_ascii t : Forall ascii t → utf8_decode t = Some t.
Proof.
  induction 1 as [|z t Hz _ IH]; simpl; [done|]. unfold ascii in Hz.
  by rewrite (proj2 (Z.ltb_lt z 128)), IH by lia.
Qed.

(** Reading the bytes of a file that [json.dumps] filled. *)
Lemma json_loads_bytes_dumps allow v s :
  json_unique v = true → json_dumps allow v = Ok s →
  json_loads_bytes (codes_of_str s) = Ok (json_read v).
Proof.
  intros Hs H. unfold json_dumps in H. res_inv H. subst s.
  pose proof (json_codes_ascii _ _ _ Hs0) as Ha. unfold json_loads_bytes.
  rewrite codes_of_codes by (eapply Forall_impl; [exact Ha|]; unfold ascii; intros; lia).
  by rewrite utf8_decode_ascii, (json_loads_codes _ _ _ Hs Hs0).
Qed.

(** ** Sorting the keys again changes nothing *)

Definition key_le {A} (x y : string * A) : Prop := str_leb x.1 y.1 = true.

Lemma sort_keys_sorted {A} (d : list (string * A)) : StronglySorted key_le (sort_keys d).
Proof.
  induction d as [|[k v] d IH]; [constructor|].
  change (sort_keys ((k, v) :: d)) with (insert_key k v (sort_keys d)).
  induction IH as [|[k' v'] l Hs IH Hl]; simpl; [by repeat constructor|].
  destruct (str_leb k k') eqn:E.
  - constructor; [by constructor|]. constructor; [done|].
    eapply Forall_impl; [exact Hl|]. intros y Hy. by eapply str_leb_trans.
  - constructor; [done|]. rewrite insert_key_Permutation. constructor; [|done].
    unfold key_le. simpl. destruct (str_leb_total k k') as [H|H]; [congruence|done].
Qed.

(** The sorted dict only depends on the set of its members. *)
Lemma sort_keys_unique {A} (d e : list (string * A)) :
  NoDup d.*1 → d ≡ₚ e → sort_keys d = sort_keys e.
Proof.
  intros Hn Hp. eapply (StronglySorted_unique_strong key_le); [|apply sort_keys_sorted..|].
  - intros x y Hx Hy H1 H2. rewrite sort_keys_Permutation in Hx, Hy. rewrite <-Hp in Hy.
    eapply (NoDup_fmap_eq fst); [done..|]. by apply str_leb_antisymm.
  - by rewrite !sort_keys_Permutation.
Qed.

Lemma json_codes_sorted allow v : ∀ t,
  json_safe v = true → json_codes allow v = Ok t → json_codes allow (json_sorted v) = Ok t.
Proof.
  induction v as [|b|z|x|s|l IH|d IH] using pyval_nested_ind; intros t Hs Ht; [done..| |].
  - apply json_codes_list in Ht as (ts&Hts&->). simpl json_sorted. apply json_codes_list.
    exists ts. split; [|done]. simpl in Hs. revert Hs IH.
    induction Hts as [|v c l ts Hc _ IHl]; simpl; [constructor|].
    intros [Hs1 Hs2]%andb_true_iff [Hv IH]%Forall_cons. csimpl. constructor; eauto.
  - apply json_codes_dict in Ht as (ts&Hts&->). simpl json_sorted. apply json_codes_dict.
    simpl in Hs. apply andb_true_iff in Hs as [Hnd%bool_decide_eq_true Hs].
    exists (sort_keys ts). split.
    + apply (sort_keys_Forall2 (λ v t, json_codes allow v = Ok t)). clear Hnd.
      revert Hs IH. induction Hts as [|[k v] [k' c] d ts [E Hc] _ IHd]; simpl; [constructor|].
      simpl in E, Hc. subst k'. intros [Hs1 Hs2]%andb_true_iff [Hv IH]%Forall_cons.
      csimpl. constructor; [split; [done|by apply Hv]|eauto].
    + do 4 f_equal. apply sort_keys_unique; [|by rewrite sort_keys_Permutation].
      enough (ts.*1 = d.*1) as -> by done.
      clear -Hts. induction Hts as [|? ? ? ? [E _] _ IH]; csimpl; congruence.
Qed.

(** Looking up a key does not depend on the order of the members. *)
Lemma dict_lookup_elem k v d : NoDup d.*1 → dict_lookup k d = Some v ↔ (k, v) ∈ d.
Proof.
  induction d as [|[k' v'] d IH]; simpl; [set_solver|].
  rewrite NoDup_cons. intros [Hk Hn]. destruct (String.eqb_spec k k') as [->|Hne].
  - rewrite elem_of_cons. split; [intros [= <-]; by left|].
    intros [[= <-]|H]; [done|]. destruct Hk. by apply (list_elem_of_fmap_2 fst) in H.
  - rewrite IH by done. rewrite elem_of_cons. naive_solver.
Qed.

Lemma dict_lookup_sorted k (d : list (string * pyval)) :
  NoDup d.*1 → dict_lookup k (sort_keys d) = dict_lookup k d.
Proof.
  intros Hn. apply option_eq. intros v. rewrite !dict_lookup_elem; [|done|].
  - by rewrite sort_keys_Permutation.
  - by rewrite (fmap_Permutation fst _ _ (sort_keys_Permutation d)).
Qed.

Lemma dict_lookup_map f k (d : list (string * pyval)) :
  dict_lookup k ((λ kv, (kv.1, f kv.2)) <$> d) = f <$> dict_lookup k d.
Proof. induction d as [|[k' v] d IH]; csimpl; [done|]. by destruct (String.eqb k k'). Qed.

(** [d.get(k)] after the round trip. *)
Lemma json_read_dict d :
  NoDup d.*1 → ∃ d', json_read (VDict d) = VDict d' ∧ NoDup d'.*1 ∧
    ∀ k, dict_lookup k d' = json_read <$> dict_lookup k d.
Proof.
  intros Hn. eexists. split; [done|].
  assert (NoDup ((λ kv : string * pyval, (kv.1, json_read kv.2)) <$> d).*1)
    by by rewrite <-list_fmap_compose.
  split; [by rewrite (fmap_Permutation fst _ _ (sort_keys_Permutation _))|].
  intros k. rewrite dict_lookup_sorted by done. apply dict_lookup_map.
Qed.

Lemma reads_back_eq x : reads_back x = true → reread x = VFloat x.
Proof.
  unfold reads_back. destruct (reread x) as [| | |y| | |]; try done.
  by intros ->%bool_decide_eq_true.
Qed.

(** A value with exact floats is read back as it was, with its keys sorted. *)
Lemma json_safe_read v : json_safe v = true → json_unique v = true ∧ json_read v = json_sorted v.
Proof.
  induction v as [|b|z|x|s|l IH|d IH] using pyval_nested_ind; simpl; try done.
  - intros ?. split; [done|]. by apply reads_back_eq.
  - intros H. induction IH as [|v l Hv _ IHl]; [done|]. simpl in H |- *.
    apply andb_true_iff in H as [[-> E]%Hv H]. destruct (IHl H) as [-> [= E']]. csimpl. by rewrite E, E'.
  - intros [Hn H]%andb_true_iff. rewrite Hn. simpl. clear Hn.
    enough (forallb (λ kv, json_unique kv.2) d = true ∧
      ((λ kv : string * pyval, (kv.1, json_read kv.2)) <$> d)
      = ((λ kv : string * pyval, (kv.1, json_sorted kv.2)) <$> d)) as [-> ->] by done.
    induction IH as [|kv d Hv _ IHd]; [done|]. simpl in H |- *.
    apply andb_true_iff in H as [[-> E]%Hv H]. destruct (IHd H) as [-> E']. csimpl. by rewrite E, E'.
Qed.
