(* ===== verification/ControlTypes.v ===== *)
(** * sjd_control.py: argument checks and the control schema

    The validators of the module, the rows of the SQLite tables as records, the
    tables as maps keyed by their primary key (lists where the key is a rowid),
    and the statements that the operations share.  A statement that violates a
    table constraint raises [IntegrityError]. *)
From S2P Require Export Prelude PyVal Sha256 LocalStorage.

(** ** Validators *)

Definition is_blank (s : string) : bool := String.eqb (str_strip s) "".

Definition _required_text (v : pyval) : result string :=
  match v with
  | VStr s => if is_blank s then Err ValueError else Ok s
  | _ => Err ValueError
  end.

Definition _finite (v : pyval) : result Float :=
  match v with
  | VInt z => py_float_of_int z
  | VFloat f => if fisfinite f then Ok f else Err ValueError
  | _ => Err ValueError
  end.

Definition _positive_finite (v : pyval) : result Float :=
  r ← _finite v; if fleb r fzero then Err ValueError else Ok r.

Definition _nonnegative_int (v : pyval) : result Z :=
  match v with
  | VInt z => if (z <? 0)%Z then Err ValueError else Ok z
  | _ => Err ValueError
  end.

Definition _positive_int (v : pyval) : result Z :=
  match v with
  | VInt z => if (z <=? 0)%Z then Err ValueError else Ok z
  | _ => Err ValueError
  end.

Definition _boolean (v : pyval) : result bool :=
  match v with VBool b => Ok b | _ => Err ValueError end.

Definition _validated_sha256 (v : pyval) : result string :=
  t ← _required_text v; if is_sha256 t then Ok t else Err ValueError.

(** [type(v) is int and lo <= v <= hi]. *)
Definition int_between (lo hi : Z) (v : pyval) : result Z :=
  match v with
  | VInt z => if ((lo <=? z) && (z <=? hi))%Z then Ok z else Err ValueError
  | _ => Err ValueError
  end.

Definition _canonical_json (v : pyval) : result string := json_dumps false v.
Definition _sha256_text (s : string) : string := sha256_text s.

(** ** Rows *)

Inductive work_status := W_READY | W_LEASED | W_SUCCEEDED | W_DEAD.
Inductive batch_status := B_LEASED | B_SEALED | B_COMMITTED | B_EXPIRED.
Inductive attempt_status := A_LEASED | A_SEALED | A_SUCCEEDED | A_FAILED | A_EXPIRED.

#[export] Instance work_status_eq_dec : EqDecision work_status.
Proof. solve_decision. Defined.
#[export] Instance batch_status_eq_dec : EqDecision batch_status.
Proof. solve_decision. Defined.
#[export] Instance attempt_status_eq_dec : EqDecision attempt_status.
Proof. solve_decision. Defined.

(** Table [work], keyed by work_id.  [payload_json] holds the canonical text of
    [w_payload]. *)
Record WorkRow := {
  w_payload : pyval;
  w_payload_sha256 : string;
  w_runtime_key : string;
  w_duration_seconds : Float;
  w_config_sha256 : string;
  w_release_digest : string;
  w_status : work_status;
  w_attempt_count : Z;
  w_max_attempts : Z;
  w_original_max_attempts : Z;
  w_fence : Z;
  w_available_at : Float;
  w_lease_owner : option string;
  w_lease_attempt_id : option string;
  w_lease_expires_at : option Float;
  w_committed_attempt_id : option string;
  w_publication_sequence : option Z;
  w_replay_generation : Z;
  w_last_replay_id : option string;
  w_last_error : option string;
  w_created_at : Float;
  w_updated_at : Float;
}.

(** Table [batches], keyed by batch_id. *)
Record BatchRow := {
  b_owner : string;
  b_runtime_key : string;
  b_status : batch_status;
  b_lease_expires_at : Float;
  b_item_count : Z;
  b_membership_sha256 : string;
  b_envelope_version : Z;
  b_envelope_path : string;
  b_envelope_sha256 : string;
  b_created_at : Float;
  b_sealed_at : option Float;
  b_committed_at : option Float;
}.

(** Table [attempts], keyed by attempt_id. *)
Record AttemptRow := {
  a_work_id : string;
  a_batch_id : string;
  a_fence : Z;
  a_status : attempt_status;
  a_lease_expires_at : Float;
  a_payload_sha256 : string;
  a_output_path : option string;
  a_output_sha256 : option string;
  a_terminal_succeeded : option bool;
  a_sealed_at : option Float;
  a_recovery_outcome : option work_status;
  a_created_at : Float;
}.

Record MemberRow := {
  m_batch_id : string;
  m_ordinal : Z;
  m_work_id : string;
  m_attempt_id : string;
  m_fence : Z;
  m_payload_sha256 : string;
}.

Record OutputRow := {
  o_output_id : Z;
  o_attempt_id : string;
  o_work_id : string;
  o_output_path : string;
  o_output_sha256 : string;
  o_executor_identity : string;
  o_partition_id : Z;
  o_task_attempt_id : Z;
  o_record_sequence : Z;
  o_created_at : Float;
}.

Record PublicationRow := {
  p_publication_sequence : Z;
  p_work_id : string;
  p_attempt_id : string;
  p_batch_id : string;
  p_output_path : string;
  p_output_sha256 : string;
  p_published_at : Float;
}.

Record FindingRow := {
  f_finding_type : string;
  f_severity : string;
  f_entity_key : string;
  f_details : pyval;
  f_first_seen_at : Float;
  f_last_seen_at : Float;
  f_resolved_at : option Float;
}.

Record ReplayRow := {
  r_work_id : string;
  r_operator : string;
  r_reason : string;
  r_generation : Z;
  r_requested_at : Float;
  r_from_status : work_status;
  r_additional_attempts : Z;
}.

(** The database.  [output_next] and [publication_next] are the AUTOINCREMENT
    counters of sqlite_sequence. *)
Record Db := {
  works : gmap string WorkRow;
  batches : gmap string BatchRow;
  attempts : gmap string AttemptRow;
  batch_members : list MemberRow;
  output_records : list OutputRow;
  output_next : Z;
  publications : list PublicationRow;
  publication_next : Z;
  reconciliation_findings : gmap string FindingRow;
  replay_requests : gmap string ReplayRow;
}.

(** A bootstrapped store with no work. *)
Definition empty_db : Db := {|
  works := ∅; batches := ∅; attempts := ∅; batch_members := [];
  output_records := []; output_next := 1; publications := [];
  publication_next := 1; reconciliation_findings := ∅; replay_requests := ∅ |}.

(** The store: the database, and the files of its content root. *)
Record Store := { s_db : Db; s_files : Files }.

Definition Ctl (A : Type) : Type := tx Store A.

Definition get_db : Ctl Db := λ s, (Ok (s_db s), s).
Definition modify_db (f : Db → Db) : Ctl unit :=
  tx_modify (λ s, {| s with s_db := f (s_db s) |}).

(** [with self._transaction() as connection]: BEGIN IMMEDIATE holds the write
    lock, an exception rolls the database back; files stay written. *)
Definition _transaction {A} (m : Ctl A) : Ctl A :=
  transaction (λ old new, {| new with s_db := s_db old |}) m.

(** ** Statements *)

(** CHECK constraints of table [work]. *)
Definition work_check (w : WorkRow) : bool :=
  fltb fzero (w_duration_seconds w)
  && (0 <? w_max_attempts w)%Z && (0 <? w_original_max_attempts w)%Z
  && match w_status w, w_lease_owner w, w_lease_attempt_id w, w_lease_expires_at w with
     | W_LEASED, Some _, Some _, Some _ => true
     | W_LEASED, _, _, _ => false
     | _, None, None, None => true
     | _, _, _, _ => false
     end.

Definition set_work (id : string) (w : WorkRow) (db : Db) : Db :=
  {| db with works := <[id := w]> (works db) |}.

(** INSERT INTO work. *)
Definition insert_work (id : string) (w : WorkRow) : Ctl unit :=
  db ← get_db;
  tx_require (bool_decide (works db !! id = None) && work_check w) IntegrityError;;
  modify_db (set_work id w).

(** UPDATE work SET f WHERE work_id = id AND guard; the row count. *)
Definition update_work (id : string) (guard : WorkRow → bool)
    (f : WorkRow → WorkRow) : Ctl Z :=
  db ← get_db;
  match works db !! id with
  | Some w =>
      if guard w then
        tx_require (work_check (f w)) IntegrityError;;
        modify_db (set_work id (f w));;
        mret 1%Z
      else mret 0%Z
  | None => mret 0%Z
  end.

Definition set_batch (id : string) (b : BatchRow) (db : Db) : Db :=
  {| db with batches := <[id := b]> (batches db) |}.

(** INSERT INTO batches, CHECK (item_count > 0). *)
Definition insert_batch (id : string) (b : BatchRow) : Ctl unit :=
  db ← get_db;
  tx_require (bool_decide (batches db !! id = None) && (0 <? b_item_count b)%Z) IntegrityError;;
  modify_db (set_batch id b).

(** UPDATE batches SET f WHERE batch_id = id AND guard. *)
Definition update_batch (id : string) (guard : BatchRow → bool)
    (f : BatchRow → BatchRow) : Ctl unit :=
  modify_db (λ db, match batches db !! id with
    | Some b => if guard b then set_batch id (f b) db else db
    | None => db
    end).

Definition set_attempt (id : string) (a : AttemptRow) (db : Db) : Db :=
  {| db with attempts := <[id := a]> (attempts db) |}.

(** INSERT INTO attempts: primary key, CHECK (fence > 0), UNIQUE(work_id,
    fence) and the two foreign keys. *)
Definition insert_attempt (id : string) (a : AttemptRow) : Ctl unit :=
  db ← get_db;
  tx_require
    (bool_decide (attempts db !! id = None)
     && (0 <? a_fence a)%Z
     && forallb (λ x, negb (bool_decide (a_work_id x.2 = a_work_id a)
                            && bool_decide (a_fence x.2 = a_fence a)))
          (map_to_list (attempts db))
     && bool_decide (is_Some (works db !! a_work_id a))
     && bool_decide (is_Some (batches db !! a_batch_id a))) IntegrityError;;
  modify_db (set_attempt id a).

(** UPDATE attempts SET f WHERE attempt_id = id AND guard. *)
Definition update_attempt (id : string) (guard : AttemptRow → bool)
    (f : AttemptRow → AttemptRow) : Ctl unit :=
  modify_db (λ db, match attempts db !! id with
    | Some a => if guard a then set_attempt id (f a) db else db
    | None => db
    end).

(** INSERT INTO batch_members: PRIMARY KEY(batch_id, ordinal), UNIQUE(batch_id,
    work_id), attempt_id UNIQUE and the two foreign keys. *)
Definition insert_member (m : MemberRow) : Ctl unit :=
  db ← get_db;
  tx_require
    (forallb (λ x,
        negb (bool_decide (m_batch_id x = m_batch_id m)
              && (bool_decide (m_ordinal x = m_ordinal m)
                  || bool_decide (m_work_id x = m_work_id m)))
        && negb (bool_decide (m_attempt_id x = m_attempt_id m)))
       (batch_members db)
     && bool_decide (is_Some (batches db !! m_batch_id m))
     && bool_decide (is_Some (attempts db !! m_attempt_id m))) IntegrityError;;
  modify_db (λ db, {| db with batch_members := batch_members db ++ [m] |}).

(** Binding a Python int to an INTEGER parameter. *)
Definition bind_int (z : Z) : result Z :=
  if ((- 2 ^ 63 <=? z) && (z <? 2 ^ 63))%Z then Ok z else Err OverflowError.

(** INSERT INTO output_records: UNIQUE(work_id, attempt_id, record_sequence). *)
Definition insert_output (f : Z → OutputRow) : Ctl unit :=
  db ← get_db;
  let o := f (output_next db) in
  tx_lift (_ ← bind_int (o_partition_id o); _ ← bind_int (o_task_attempt_id o);
           bind_int (o_record_sequence o));;
  tx_require
    (forallb (λ x, negb (bool_decide (o_work_id x = o_work_id o)
                         && bool_decide (o_attempt_id x = o_attempt_id o)
                         && bool_decide (o_record_sequence x = o_record_sequence o)))
       (output_records db)) IntegrityError;;
  modify_db (λ db, {| db with output_records := output_records db ++ [o];
                              output_next := (output_next db + 1)%Z |}).

(** INSERT INTO publications: work_id UNIQUE, attempt_id UNIQUE; the new rowid. *)
Definition insert_publication (f : Z → PublicationRow) : Ctl Z :=
  db ← get_db;
  let p := f (publication_next db) in
  tx_require
    (forallb (λ x, negb (bool_decide (p_work_id x = p_work_id p)
                         || bool_decide (p_attempt_id x = p_attempt_id p)))
       (publications db)) IntegrityError;;
  modify_db (λ db, {| db with publications := publications db ++ [p];
                              publication_next := (publication_next db + 1)%Z |});;
  mret (publication_next db).

(** ORDER BY: stable sort by a boolean order. *)
Definition order_by {A} (le : A → A → bool) (l : list A) : list A :=
  merge_sort (λ x y, Is_true (le x y)) l.

Lemma order_by_Permutation {A} (le : A → A → bool) (l : list A) : order_by le l ≡ₚ l.
Proof. apply merge_sort_Permutation. Qed.

Lemma elem_of_order_by {A} (le : A → A → bool) (l : list A) x : x ∈ order_by le l ↔ x ∈ l.
Proof. by rewrite order_by_Permutation. Qed.

(** An order that is total on the rows, up to equality, makes one list of them. *)
Lemma order_by_unique {A} (P : A → Prop) (le : A → A → bool) l k :
  Total (λ x y, Is_true (le x y)) →
  (∀ x y z, P x → P y → P z → le x y = true → le y z = true → le x z = true) →
  (∀ x y, x ∈ l → y ∈ l → le x y = true → le y x = true → x = y) →
  Forall P l → l ≡ₚ k → order_by le l = order_by le k.
Proof.
  intros T Htr Ha HP Hp.
  assert (Hs : ∀ l', l ≡ₚ l' → StronglySorted (λ x y, Is_true (le x y)) (order_by le l')).
  { intros l' Hl'. apply (Sorted_StronglySorted_on P).
    - intros x y z Px Py Pz H1%Is_true_true H2%Is_true_true. apply Is_true_true. by apply (Htr x y z).
    - by rewrite order_by_Permutation, <-Hl'.
    - unfold order_by. apply Sorted_merge_sort, _. }
  eapply (StronglySorted_unique_strong (λ x y, Is_true (le x y))); [|by apply Hs..|].
  - intros x y Hx Hy H1%Is_true_true H2%Is_true_true. rewrite elem_of_order_by in Hx, Hy.
    rewrite <-Hp in Hy. by apply Ha.
  - by rewrite !order_by_Permutation.
Qed.

(** Rows that are listed in the order are left alone. *)
Lemma order_by_sorted {A} (le : A → A → bool) (l : list A) :
  Total (λ x y, Is_true (le x y)) →
  (∀ x y z, le x y = true → le y z = true → le x z = true) →
  (∀ x y, x ∈ l → y ∈ l → le x y = true → le y x = true → x = y) →
  StronglySorted (λ x y, Is_true (le x y)) l → order_by le l = l.
Proof.
  intros T Htr Ha Hl.
  eapply (StronglySorted_unique_strong (λ x y, Is_true (le x y))); [| |exact Hl|apply order_by_Permutation].
  - intros x y Hx Hy H1%Is_true_true H2%Is_true_true. rewrite elem_of_order_by in Hx. by apply Ha.
  - apply (Sorted_StronglySorted_on (λ _, True)).
    + intros x y z _ _ _ H1%Is_true_true H2%Is_true_true. apply Is_true_true. by eapply Htr.
    + by apply Forall_forall.
    + unfold order_by. apply Sorted_merge_sort, _.
Qed.

(** ORDER BY created_at, work_id. *)
Definition queue_order (x y : string * WorkRow) : bool :=
  fltb (w_created_at x.2) (w_created_at y.2)
  || (negb (fltb (w_created_at y.2) (w_created_at x.2)) && str_leb x.1 y.1).

(** ORDER BY work_id, on rows whose identifier comes first. *)
Definition key_order {A} (x y : string * A) : bool := str_leb x.1 y.1.
