(* ===== verification/LocalQueue.v ===== *)
(** * local_queue.py: the SQLite queue

    [SQLiteQueue] keeps messages that are ready, locked under a token until an
    instant, completed or dead.  The table is a map keyed by message_id; the
    clock ([now]) and the uuid4 supply ([new_id]) are arguments.  A REAL column
    stores NaN as NULL, so a NaN violates NOT NULL. *)
From S2P Require Export Prelude PyVal Sha256 ControlTypes.

Module Queue.

Inductive QueueState := Q_ready | Q_locked | Q_completed | Q_dead.
#[export] Instance QueueState_eq_dec : EqDecision QueueState.
Proof. solve_decision. Defined.

Record Message := {
  m_idempotency_key : string;
  m_payload : pyval;
  m_payload_sha256 : string;
  m_state : QueueState;
  m_delivery_count : Z;
  m_max_delivery_count : Z;
  m_available_at : Float;
  m_lock_token : option string;
  m_locked_by : option string;
  m_locked_until : option Float;
  m_dead_letter_reason : option string;
  m_created_at : Float;
  m_updated_at : Float;
}.

Abbreviation Messages := (gmap string Message).
Definition Q (A : Type) : Type := tx Messages A.

(** BEGIN IMMEDIATE; rollback on an exception. *)
Definition atomically {A} (m : Q A) : Q A := transaction (λ old _, old) m.

(** NOT NULL and CHECK constraints of a row. *)
Definition row_check (m : Message) : bool :=
  negb (fisnan (m_available_at m)) && negb (fisnan (m_created_at m))
  && negb (fisnan (m_updated_at m))
  && match m_state m, m_lock_token m, m_locked_until m with
     | Q_locked, Some _, Some u => negb (fisnan u)
     | Q_locked, _, _ => false
     | _, None, None => true
     | _, _, _ => false
     end.

(** lock_token UNIQUE: no other row carries the token of the row [k]. *)
Definition token_unique (k : string) (m : Message) (ms : Messages) : bool :=
  forallb (λ x, bool_decide (x.1 = k) || negb (bool_decide (is_Some (m_lock_token m)))
                || negb (bool_decide (m_lock_token x.2 = m_lock_token m)))
    (map_to_list ms).

(** Write the row [k]. *)
Definition write (k : string) (m : Message) : Q unit :=
  ms ← tx_get;
  tx_require (row_check m && token_unique k m ms) IntegrityError;;
  tx_modify <[k := m]>.

(** ** Argument checks *)

Definition _required_text (v : pyval) : result string :=
  match v with
  | VStr s => if is_blank s then Err ValueError else Ok (str_strip s)
  | _ => Err ValueError
  end.

Definition seconds_between (lo hi : Z) (x : Float) : result Float :=
  if fisfinite x && negb (fltb x (float_of_Z lo)) && negb (fltb (float_of_Z hi) x)
  then Ok x else Err ValueError.
Definition _bounded_seconds (x : Float) : result Float := seconds_between 1 86400 x.
Definition _nonnegative_seconds (x : Float) : result Float := seconds_between 0 86400 x.

(** ** Operations *)

(** SELECT ... WHERE idempotency_key = key. *)
Definition find_key (key : string) (ms : Messages) : option (string * Message) :=
  List.find (λ x, bool_decide (m_idempotency_key x.2 = key)) (map_to_list ms).

Definition new_message (key sha : string) (payload : pyval) (max_delivery_count : Z)
    (available_at now : Float) : Message := {|
  m_idempotency_key := key; m_payload := payload; m_payload_sha256 := sha;
  m_state := Q_ready; m_delivery_count := 0; m_max_delivery_count := max_delivery_count;
  m_available_at := available_at; m_lock_token := None; m_locked_by := None;
  m_locked_until := None; m_dead_letter_reason := None; m_created_at := now;
  m_updated_at := now |}.

Definition enqueue (idempotency_key : pyval) (payload : list (string * pyval))
    (max_delivery_count : Z) (available_at : option Float) (now : Float)
    (message_id : string) : Q string :=
  '(key, sha) ← tx_lift (
    key ← _required_text idempotency_key;
    require (negb ((max_delivery_count <? 1) || (100 <? max_delivery_count))%Z) ValueError;;
    text ← json_dumps true (VDict payload);
    Ok (key, sha256_text text));
  atomically (
    ms ← tx_get;
    match find_key key ms with
    | Some (id, m) =>
        tx_require (bool_decide (m_payload_sha256 m = sha)
                    && (m_max_delivery_count m =? max_delivery_count)%Z) QueueConflictError;;
        mret id
    | None =>
        tx_require (bool_decide (ms !! message_id = None)) IntegrityError;;
        write message_id (new_message key sha (VDict payload) max_delivery_count
          (default now available_at) now);;
        mret message_id
    end).

(** state = 'locked' AND locked_until > t, negated for recovery. *)
Definition lock_live (t : Float) (m : Message) : bool :=
  bool_decide (m_state m = Q_locked)
  && match m_locked_until m with Some u => fltb t u | None => false end.
Definition lock_expired (t : Float) (m : Message) : bool :=
  bool_decide (m_state m = Q_locked)
  && match m_locked_until m with Some u => fleb u t | None => false end.

(** The SET clause of [_recover_expired]. *)
Definition recovered (t : Float) (m : Message) : Message :=
  let exhausted := (m_max_delivery_count m <=? m_delivery_count m)%Z in
  {| m with m_state := if exhausted then Q_dead else Q_ready;
            m_available_at := t; m_lock_token := None; m_locked_by := None;
            m_locked_until := None;
            m_dead_letter_reason := if exhausted
              then Some "maximum delivery count reached after lease expiry"%string
              else m_dead_letter_reason m;
            m_updated_at := t |}.

(** One UPDATE over the expired rows; the row count. *)
Definition _recover_expired (t : Float) : Q Z :=
  ms ← tx_get;
  let n := length (List.filter (λ x : string * Message, lock_expired t x.2) (map_to_list ms)) in
  tx_modify (fmap (λ m, if lock_expired t m then recovered t m else m));;
  mret (Z.of_nat n).

Definition recover_expired (now : Float) : Q Z := atomically (_recover_expired now).

Record ClaimedMessage := {
  c_message_id : string;
  c_idempotency_key : string;
  c_payload : pyval;
  c_lock_token : string;
  c_locked_until : Float;
  c_delivery_count : Z;
  c_max_delivery_count : Z;
}.

(** ORDER BY created_at, message_id. *)
Definition queue_before (x y : string * Message) : bool :=
  fltb (m_created_at x.2) (m_created_at y.2)
  || (negb (fltb (m_created_at y.2) (m_created_at x.2)) && str_leb x.1 y.1).

(** The rows that a claim reads, before LIMIT. *)
Definition ready_rows (t : Float) (ms : Messages) : list (string * Message) :=
  order_by queue_before
    (List.filter (λ x : string * Message,
       bool_decide (m_state x.2 = Q_ready) && fleb (m_available_at x.2) t) (map_to_list ms)).

Definition locked_message (owner token : string) (until now : Float) (m : Message) : Message :=
  {| m with m_state := Q_locked; m_delivery_count := (m_delivery_count m + 1)%Z;
            m_lock_token := Some token; m_locked_by := Some owner;
            m_locked_until := Some until; m_updated_at := now |}.

(** One claimed row; [i] numbers the tokens of the call. *)
Definition claim_row (owner : string) (new_id : nat → string) (lease now : Float)
    (ix : nat * (string * Message)) : Q ClaimedMessage :=
  let '(i, (id, row)) := ix in
  let token := new_id i in
  let until := fadd now lease in
  ms ← tx_get;
  match ms !! id with
  | Some m => if bool_decide (m_state m = Q_ready)
              then write id {| m with m_state := Q_locked;
                                      m_delivery_count := (m_delivery_count row + 1)%Z;
                                      m_lock_token := Some token; m_locked_by := Some owner;
                                      m_locked_until := Some until; m_updated_at := now |}
              else mret tt
  | None => mret tt
  end;;
  mret {| c_message_id := id; c_idempotency_key := m_idempotency_key row;
          c_payload := m_payload row; c_lock_token := token; c_locked_until := until;
          c_delivery_count := (m_delivery_count row + 1)%Z;
          c_max_delivery_count := m_max_delivery_count row |}.

Definition claim (limit : Z) (owner : pyval) (lock_seconds : Float) (minimum_count : Z)
    (now : Float) (new_id : nat → string) : Q (list ClaimedMessage) :=
  '(owner_id, lease) ← tx_lift (
    require (negb ((limit <? 1) || (100 <? limit))%Z) ValueError;;
    require (negb ((minimum_count <? 1) || (limit <? minimum_count))%Z) ValueError;;
    owner_id ← _required_text owner;
    lease ← _bounded_seconds lock_seconds;
    Ok (owner_id, lease));
  atomically (
    _recover_expired now;;
    ms ← tx_get;
    let rows := take (Z.to_nat limit) (ready_rows now ms) in
    if (Z.of_nat (length rows) <? minimum_count)%Z then mret []
    else tx_map (claim_row owner_id new_id lease now) (imap (λ i x, (i, x)) rows)).

(** The row whose live lock carries [token]. *)
Definition find_lock (token : string) (t : Float) (ms : Messages) : option (string * Message) :=
  List.find (λ x : string * Message, bool_decide (m_lock_token x.2 = Some token) && lock_live t x.2)
    (map_to_list ms).

(** The body of the renewal loop: exactly one row is updated. *)
Definition renew_token (until now : Float) (token : string) : Q unit :=
  ms ← tx_get;
  match find_lock token now ms with
  | Some (id, m) => write id {| m with m_locked_until := Some until; m_updated_at := now |}
  | None => tx_raise LeaseLostError
  end.

Definition renew (lock_token : pyval) (lock_seconds now : Float) : Q Float :=
  '(token, lease) ← tx_lift (
    token ← _required_text lock_token;
    lease ← _bounded_seconds lock_seconds;
    Ok (token, lease));
  let until := fadd now lease in
  atomically (renew_token until now token);;
  mret until.

Fixpoint required_tokens (l : list pyval) : result (list string) :=
  match l with
  | [] => Ok []
  | v :: l' => s ← _required_text v; r ← required_tokens l'; Ok (s :: r)
  end.

Definition renew_many (lock_tokens : list pyval) (lock_seconds now : Float) : Q Float :=
  '(tokens, lease) ← tx_lift (
    require (negb (bool_decide (lock_tokens = []))) ValueError;;
    tokens ← required_tokens lock_tokens;
    require (bool_decide (NoDup tokens)) ValueError;;
    lease ← _bounded_seconds lock_seconds;
    Ok (tokens, lease));
  let until := fadd now lease in
  atomically (tx_for (renew_token until now) tokens);;
  mret until.

(** The action of an outcome is any string; only three are valid. *)
Definition _final_state (action : string) (reason : option string) (delivery max_delivery : Z)
    (now delay : Float) : result (QueueState * option string * Float) :=
  if String.eqb action "complete" then Ok (Q_completed, None, now) else
  if String.eqb action "dead" then
    match reason with
    | Some r => if is_blank r then Err ValueError else Ok (Q_dead, Some (str_strip r), now)
    | None => Err ValueError
    end
  else if negb (String.eqb action "abandon") then Err ValueError
  else if (max_delivery <=? delivery)%Z then
    Ok (Q_dead, Some (match reason with
                      | Some r => if String.eqb r "" then "maximum delivery count reached"%string else r
                      | None => "maximum delivery count reached"%string
                      end), now)
  else Ok (Q_ready, reason, fadd now delay).

Definition finalized (st : QueueState) (reason : option string) (available now : Float)
    (m : Message) : Message :=
  {| m with m_state := st; m_available_at := available; m_lock_token := None;
            m_locked_by := None; m_locked_until := None; m_dead_letter_reason := reason;
            m_updated_at := now |}.

(** One outcome: (token, action, reason). *)
Definition finalize_one (delay now : Float) (o : pyval * string * option string) : Q unit :=
  let '(raw_token, action, reason) := o in
  token ← tx_lift (_required_text raw_token);
  ms ← tx_get;
  match find_lock token now ms with
  | None => tx_raise LeaseLostError
  | Some (id, m) =>
      '(st, dead_reason, available) ← tx_lift
        (_final_state action reason (m_delivery_count m) (m_max_delivery_count m) now delay);
      write id (finalized st dead_reason available now m)
  end.

Definition finalize (outcomes : list (pyval * string * option string))
    (delay_seconds now : Float) : Q unit :=
  match outcomes with
  | [] => mret tt
  | _ =>
      delay ← tx_lift (_nonnegative_seconds delay_seconds);
      atomically (tx_for (finalize_one delay now) outcomes)
  end.

Definition complete (lock_token : pyval) (now : Float) : Q unit :=
  finalize [(lock_token, "complete"%string, None)] fzero now.

Definition abandon (lock_token : pyval) (delay_seconds : Float) (reason : option string)
    (now : Float) : Q unit :=
  delay ← tx_lift (_nonnegative_seconds delay_seconds);
  finalize [(lock_token, "abandon"%string, reason)] delay now.

Definition dead_letter (lock_token : pyval) (reason : option string) (now : Float) : Q unit :=
  finalize [(lock_token, "dead"%string, reason)] fzero now.

(** ** Reads *)

Record QueueMessage := {
  qm_message_id : string;
  qm_idempotency_key : string;
  qm_state : QueueState;
  qm_delivery_count : Z;
  qm_max_delivery_count : Z;
  qm_available_at : Float;
  qm_locked_until : option Float;
  qm_dead_letter_reason : option string;
}.

Definition _message (x : string * Message) : QueueMessage := {|
  qm_message_id := x.1; qm_idempotency_key := m_idempotency_key x.2; qm_state := m_state x.2;
  qm_delivery_count := m_delivery_count x.2; qm_max_delivery_count := m_max_delivery_count x.2;
  qm_available_at := m_available_at x.2; qm_locked_until := m_locked_until x.2;
  qm_dead_letter_reason := m_dead_letter_reason x.2 |}.

Definition get (message_id : pyval) : Q QueueMessage :=
  id ← tx_lift (_required_text message_id);
  ms ← tx_get;
  match ms !! id with
  | Some m => mret (_message (id, m))
  | None => tx_raise MessageNotFoundError
  end.

Definition list_messages (state : option QueueState) (ms : Messages) : list QueueMessage :=
  _message <$> order_by queue_before
    (List.filter (λ x : string * Message,
       match state with Some st => bool_decide (m_state x.2 = st) | None => true end)
       (map_to_list ms)).

End Queue.
