(* ===== verification/LocalQueueTheorems.v ===== *)
(** * Correctness of the SQLite queue

    The queue as a state machine over its operations: the table invariant, what a
    message may become, and what claims, renewals and finalisations guarantee. *)
From S2P Require Export Prelude PyVal ControlTypes LocalQueue.
Import Queue.

(** ** Inversion of the statements *)

Lemma atomically_Ok {A} (m : Q A) s a s' : atomically m s = (Ok a, s') → m s = (Ok a, s').
Proof. apply transaction_Ok. Qed.

Lemma atomically_Err {A} (m : Q A) s e s' : atomically m s = (Err e, s') → s' = s.
Proof. unfold atomically, transaction. destruct (m s) as [[]]; naive_solver. Qed.

Lemma write_Ok k m s u s' :
  write k m s = (Ok u, s') →
  row_check m = true ∧
  (∀ j x, s !! j = Some x → is_Some (m_lock_token m) → m_lock_token x = m_lock_token m → j = k) ∧
  s' = <[k := m]> s.
Proof.
  unfold write. intros H. tx_inv H. btrue. split_and!; [done| |done].
  intros j x Hx Ht E.
  match goal with F : token_unique _ _ _ = true |- _ => eapply forallb_rows in F; [|exact Hx] end.
  destruct (decide (j = k)) as [|Hne]; [done|]. simpl in *.
  rewrite (bool_decide_eq_false_2 _ Hne), (bool_decide_eq_true_2 _ Ht),
    (bool_decide_eq_true_2 _ E) in *. done.
Qed.

Lemma find_lock_Some token t ms id m :
  find_lock token t ms = Some (id, m) →
  ms !! id = Some m ∧ m_lock_token m = Some token ∧ lock_live t m = true.
Proof.
  intros H. apply List.find_some in H as [Hin%list_elem_of_In Hb].
  apply elem_of_map_to_list in Hin. simpl in Hb. btrue. done.
Qed.

(** ** The table invariant *)

Record row_ok (m : Message) : Prop := {
  ro_check : row_check m = true;
  ro_count : (0 ≤ m_delivery_count m ≤ m_max_delivery_count m)%Z;
  ro_ready : m_state m = Q_ready → (m_delivery_count m < m_max_delivery_count m)%Z;
}.

Record queue_ok (ms : Messages) : Prop := {
  qo_row : ∀ k m, ms !! k = Some m → row_ok m;
  qo_token : ∀ k1 k2 m1 m2, ms !! k1 = Some m1 → ms !! k2 = Some m2 →
    is_Some (m_lock_token m1) → m_lock_token m1 = m_lock_token m2 → k1 = k2;
  qo_key : ∀ k1 k2 m1 m2, ms !! k1 = Some m1 → ms !! k2 = Some m2 →
    m_idempotency_key m1 = m_idempotency_key m2 → k1 = k2;
}.

Lemma row_check_locked m :
  row_check m = true → m_state m = Q_locked ↔ is_Some (m_lock_token m).
Proof.
  unfold row_check. destruct (m_state m), (m_lock_token m), (m_locked_until m);
    rewrite ?andb_false_r; intros; split; intros; try done; by destruct H0.
Qed.

(** Rewriting one row under its own key. *)
Lemma write_queue_ok k m m0 s :
  queue_ok s → s !! k = Some m0 → row_ok m → m_idempotency_key m = m_idempotency_key m0 →
  (∀ j x, s !! j = Some x → is_Some (m_lock_token m) → m_lock_token x = m_lock_token m → j = k) →
  queue_ok (<[k := m]> s).
Proof.
  intros [R T K] Hk Hrow Hkey Ht. split.
  - intros j x [[<- <-]|[? ?]]%lookup_insert_Some; eauto.
  - intros j1 j2 x1 x2 [[<- <-]|[? H1]]%lookup_insert_Some [[<- <-]|[? H2]]%lookup_insert_Some Hs E;
      [done| | |by eapply T].
    + symmetry. by eapply Ht.
    + eapply Ht; [done| |done]. by rewrite <-E.
  - intros j1 j2 x1 x2 [[<- <-]|[? H1]]%lookup_insert_Some [[<- <-]|[? H2]]%lookup_insert_Some E;
      [done| | |by eapply K]; rewrite Hkey in E; by eapply K.
Qed.

(** ** How a message moves *)

Definition settled (st : QueueState) : Prop := st = Q_completed ∨ st = Q_dead.

Record same_message (m m' : Message) : Prop := {
  sm_key : m_idempotency_key m' = m_idempotency_key m;
  sm_payload : m_payload m' = m_payload m;
  sm_sha : m_payload_sha256 m' = m_payload_sha256 m;
  sm_max : m_max_delivery_count m' = m_max_delivery_count m;
  sm_created : m_created_at m' = m_created_at m;
}.

Inductive msg_move : option Message → option Message → Prop :=
  | mm_enqueue m : m_state m = Q_ready → m_delivery_count m = 0%Z → msg_move None (Some m)
  | mm_claim m m' : same_message m m' → m_state m = Q_ready → m_state m' = Q_locked →
      m_delivery_count m' = (m_delivery_count m + 1)%Z → msg_move (Some m) (Some m')
  | mm_renew m m' : same_message m m' → m_state m = Q_locked → m_state m' = Q_locked →
      m_lock_token m' = m_lock_token m → m_delivery_count m' = m_delivery_count m →
      msg_move (Some m) (Some m')
  | mm_release m m' : same_message m m' → m_state m = Q_locked → m_state m' ≠ Q_locked →
      (m_state m' = Q_ready → (m_delivery_count m < m_max_delivery_count m)%Z) →
      m_delivery_count m' = m_delivery_count m → msg_move (Some m) (Some m').

(** Every row moves along the machine. *)
Definition flows (ms ms' : Messages) : Prop := ∀ k, rtc msg_move (ms !! k) (ms' !! k).

#[export] Instance flows_preorder : PreOrder flows.
Proof. split; [by intros ms k|]. intros a b c H1 H2 k. etrans; [apply H1|apply H2]. Qed.

Lemma flows_insert k m s : msg_move (s !! k) (Some m) → flows s (<[k := m]> s).
Proof.
  intros H j. destruct (decide (j = k)) as [->|Hne].
  - rewrite lookup_insert_eq. by apply rtc_once.
  - by rewrite lookup_insert_ne.
Qed.

(** The two together, as every step keeps them. *)
Definition sound (s s' : Messages) : Prop := queue_ok s → queue_ok s' ∧ flows s s'.

#[export] Instance sound_preorder : PreOrder sound.
Proof.
  split; [by intros s|]. intros a b c H1 H2 I. destruct (H1 I) as [I1 F1].
  destruct (H2 I1) as [I2 F2]. split; [done|]. by etrans.
Qed.

Lemma lock_live_locked t m : lock_live t m = true → m_state m = Q_locked.
Proof. unfold lock_live. intros H. by btrue. Qed.

Lemma renew_token_sound until now token s u s' :
  renew_token until now token s = (Ok u, s') → sound s s'.
Proof.
  unfold renew_token. intros H. tx_step H. subst.
  destruct (find_lock token now s) as [[id m]|] eqn:Hf; [|by tx_inv H].
  apply find_lock_Some in Hf as (Hm&Ht&Hl%lock_live_locked).
  apply write_Ok in H as (Hck&Hu&->). intros I. destruct (qo_row _ I id m Hm) as [_ Hc Hr]. split.
  - eapply write_queue_ok; try done.
  - apply flows_insert. rewrite Hm. by apply mm_renew.
Qed.

Lemma final_state_cases action reason d mx now delay st r a :
  _final_state action reason d mx now delay = Ok (st, r, a) →
  st ≠ Q_locked ∧ (st = Q_ready → (d < mx)%Z).
Proof.
  unfold _final_state. intros H. repeat case_match; simplify_eq/=; try done.
  split; [done|]. intros _. apply Z.leb_gt. done.
Qed.

Lemma finalize_one_sound delay now o s u s' :
  finalize_one delay now o s = (Ok u, s') → sound s s'.
Proof.
  destruct o as [[raw action] reason]. unfold finalize_one. intros H.
  apply tx_bind_Ok in H as (token&s1&[_ ->]%tx_lift_Ok&H).
  apply tx_bind_Ok in H as (ms&s1&[-> ->]%tx_get_Ok&H).
  destruct (find_lock token now s) as [[id m]|] eqn:Hf; [|by tx_inv H].
  apply find_lock_Some in Hf as (Hm&Ht&Hl%lock_live_locked).
  apply tx_bind_Ok in H as ([[st r] a]&s1&[Hfs ->]%tx_lift_Ok&H).
  apply final_state_cases in Hfs as [Hst Hrd].
  apply write_Ok in H as (Hck&Hu&->). intros I. destruct (qo_row _ I id m Hm) as [_ Hc Hr]. split.
  - eapply write_queue_ok; try done.
  - apply flows_insert. rewrite Hm. by apply mm_release.
Qed.

Lemma lock_expired_true t m :
  lock_expired t m = true ↔ m_state m = Q_locked ∧ ∃ u, m_locked_until m = Some u ∧ fleb u t = true.
Proof.
  unfold lock_expired. rewrite andb_true_iff, bool_decide_eq_true.
  destruct (m_locked_until m); naive_solver.
Qed.

Lemma recovered_ok t m : row_ok m → lock_expired t m = true → row_ok (recovered t m).
Proof.
  intros [Hck Hc _] (Hst&u&Hu&Hle)%lock_expired_true. destruct (fleb_not_nan _ _ Hle) as [_ Hn].
  unfold recovered. unfold row_check in Hck. btrue. split; simpl; [|done|].
  - unfold row_check. simpl. rewrite Hn. match goal with E : fisnan (m_created_at m) = _ |- _ => rewrite E end.
    by destruct (m_max_delivery_count m <=? m_delivery_count m)%Z.
  - destruct (Z.leb_spec (m_max_delivery_count m) (m_delivery_count m)); done.
Qed.

Definition recover_all (t : Float) (s : Messages) : Messages :=
  (λ m, if lock_expired t m then recovered t m else m) <$> s.

Lemma queue_recover_Ok t s n s' : _recover_expired t s = (Ok n, s') → s' = recover_all t s.
Proof. unfold _recover_expired. intros H. by tx_inv H. Qed.

Lemma recover_all_token t s k m' :
  recover_all t s !! k = Some m' → is_Some (m_lock_token m') →
  s !! k = Some m' ∧ lock_expired t m' = false.
Proof.
  unfold recover_all. intros (m&<-&Hm)%lookup_fmap_Some Ht.
  destruct (lock_expired t m) eqn:E; [by destruct Ht|done].
Qed.

Lemma recover_sound t s : sound s (recover_all t s).
Proof.
  intros [R T K]. split; [split|].
  - intros k m' (m&<-&Hm)%lookup_fmap_Some. case_match; [|by eauto].
    apply recovered_ok; eauto.
  - intros k1 k2 m1 m2 H1 H2 Ht E. assert (is_Some (m_lock_token m2)) by congruence.
    apply recover_all_token in H1 as [? _]; [|done]. apply recover_all_token in H2 as [? _]; [|done].
    by eapply T.
  - intros k1 k2 m1' m2' (m1&<-&H1)%lookup_fmap_Some (m2&<-&H2)%lookup_fmap_Some E.
    eapply (K _ _ m1 m2); try done. by repeat case_match.
  - intros k. unfold recover_all. rewrite lookup_fmap.
    destruct (s !! k) as [m|] eqn:Hm; [|reflexivity]. simpl.
    destruct (lock_expired t m) eqn:He; [|reflexivity].
    apply lock_expired_true in He as [Hst _]. unfold recovered.
    apply rtc_once, mm_release; simpl; try done;
      destruct (Z.leb_spec (m_max_delivery_count m) (m_delivery_count m)); done.
Qed.

(** *** Claims *)

(** A row claimed from a table that still holds it READY. *)
Lemma queue_claim_row_Ok owner ids lease now i id row s c s' :
  s !! id = Some row → m_state row = Q_ready →
  claim_row owner ids lease now (i, (id, row)) s = (Ok c, s') →
  let m := locked_message owner (ids i) (fadd now lease) now row in
  row_check m = true ∧
  (∀ j x, s !! j = Some x → m_lock_token x = Some (ids i) → j = id) ∧
  s' = <[id := m]> s ∧
  c = {| c_message_id := id; c_idempotency_key := m_idempotency_key row;
         c_payload := m_payload row; c_lock_token := ids i; c_locked_until := fadd now lease;
         c_delivery_count := (m_delivery_count row + 1)%Z;
         c_max_delivery_count := m_max_delivery_count row |}.
Proof.
  intros Hr Hst H. unfold claim_row in H.
  apply tx_bind_Ok in H as (ms&s1&[-> ->]%tx_get_Ok&H).
  rewrite Hr, (bool_decide_eq_true_2 _ Hst) in H.
  apply tx_bind_Ok in H as (u&s1&Hw&[-> ->]%tx_ret_Ok).
  apply write_Ok in Hw as (Hck&Hu&->). split_and!; try done.
  intros j x Hx E. by eapply Hu.
Qed.

(** The state between the claimed rows. *)
Record claiming (rows : list (string * Message)) (s0 : Messages) (t : Float) (n : nat)
    (cs : list ClaimedMessage) (s : Messages) : Prop := {
  cg_sound : queue_ok s ∧ flows s0 s;
  cg_rest : ∀ x, x ∈ drop n rows → s !! x.1 = Some x.2;
  cg_other : ∀ k, k ∉ (take n rows).*1 → s !! k = s0 !! k;
  cg_claims : Forall2 (λ x c, c_message_id c = x.1 ∧ c_payload c = m_payload x.2 ∧
      c_delivery_count c = (m_delivery_count x.2 + 1)%Z ∧
      ∃ m, s !! x.1 = Some m ∧ m_state m = Q_locked ∧ m_lock_token m = Some (c_lock_token c) ∧
        m_locked_until m = Some (c_locked_until c) ∧ m_delivery_count m = c_delivery_count c)
    (take n rows) cs;
}.

Lemma claim_loop_Ok owner ids lease now rows s cs s' :
  queue_ok s → NoDup rows.*1 →
  (∀ x, x ∈ rows → s !! x.1 = Some x.2 ∧ m_state x.2 = Q_ready) →
  tx_map (claim_row owner ids lease now) (imap (λ i x, (i, x)) rows) s = (Ok cs, s') →
  claiming rows s now (length rows) cs s'.
Proof.
  intros I Hnd Hrows H.
  eapply (tx_map_prefix (λ done cs s1, claiming rows s now (length done) cs s1)) in H.
  - by rewrite length_imap in H.
  - intros done bs [i x] rest s1 c s2 Hl [[I1 F1] Rest Other Claims] Hrow.
    assert (Hx : rows !! length done = Some x).
    { assert (imap (λ i x, (i, x)) rows !! length done = Some (i, x)) as E.
      { rewrite Hl, lookup_app_r, Nat.sub_diag by done. done. }
      rewrite list_lookup_imap in E. destruct (rows !! length done); by simplify_eq/=. }
    assert (Htake : take (S (length done)) rows = take (length done) rows ++ [x]).
    { by apply take_S_r. }
    assert (Hdrop : drop (length done) rows = x :: drop (S (length done)) rows).
    { by apply drop_S. }
    destruct x as [id row].
    destruct (Hrows (id, row)) as [_ Hst]; [by eapply list_elem_of_lookup_2|]. simpl in Hst.
    assert (Hcur : s1 !! id = Some row).
    { apply (Rest (id, row)). rewrite Hdrop. left. }
    eapply queue_claim_row_Ok in Hrow as (Hck&Hu&->&->); [|done..].
    rewrite <-(take_drop (S (length done)) rows), Htake, fmap_app, fmap_app in Hnd.
    simpl in Hnd. rewrite <-app_assoc in Hnd. apply NoDup_app in Hnd as (_&Hdis&Hnd2).
    assert (Hfresh : id ∉ (take (length done) rows).*1).
    { intros Hin. apply (Hdis id Hin). left. }
    apply NoDup_app in Hnd2 as (_&Hdis2&_).
    destruct (qo_row _ I1 id row Hcur) as [_ Hcount Hready]. specialize (Hready Hst).
    rewrite length_app, Nat.add_1_r. split.
    + split.
      * eapply write_queue_ok; try done; [|by intros; eapply Hu].
        split; simpl; [done|lia|done].
      * etrans; [exact F1|]. apply flows_insert. rewrite Hcur. by apply mm_claim.
    + intros y Hy. rewrite lookup_insert_ne; [apply Rest; rewrite Hdrop; by right|].
      intros ->. apply (Hdis2 y.1); [left|]. by apply list_elem_of_fmap_2.
    + intros k Hk. rewrite Htake, fmap_app in Hk. simpl in Hk.
      rewrite lookup_insert_ne; [apply Other; set_solver|set_solver].
    + rewrite Htake. apply Forall2_app.
      * eapply Forall2_impl_in; [exact Claims|].
        intros y c' Hy (?&?&?&m&?&?). split_and!; try done. exists m.
        rewrite lookup_insert_ne; [done|]. intros ->. apply Hfresh.
        by apply list_elem_of_fmap_2.
      * constructor; [|constructor]. split_and!; try done. simpl. rewrite lookup_insert_eq. eauto 10.
  - split; [split; [done|reflexivity]| | |constructor].
    + intros x Hx. by apply Hrows.
    + done.
Qed.

(** ** Operations *)

Lemma find_key_None key ms k m :
  find_key key ms = None → ms !! k = Some m → m_idempotency_key m ≠ key.
Proof.
  intros H Hm E. pose proof (List.find_none _ _ H (k, m)) as Hn. simpl in Hn.
  rewrite <-list_elem_of_In, elem_of_map_to_list in Hn. specialize (Hn Hm).
  rewrite bool_decide_eq_true_2 in Hn; done.
Qed.

Lemma find_key_Some key ms k m :
  find_key key ms = Some (k, m) → ms !! k = Some m ∧ m_idempotency_key m = key.
Proof.
  intros [Hin%list_elem_of_In Hb]%List.find_some. apply elem_of_map_to_list in Hin.
  simpl in Hb. by btrue.
Qed.

(** The argument checks of [enqueue]. *)
Definition enqueue_args (idempotency_key : pyval) (payload : list (string * pyval))
    (max_delivery_count : Z) : result (string * string) :=
  key ← _required_text idempotency_key;
  require (negb ((max_delivery_count <? 1) || (100 <? max_delivery_count))%Z) ValueError;;
  text ← json_dumps true (VDict payload);
  Ok (key, sha256_text text).

(** The cases of a successful enqueue. *)
Lemma enqueue_Ok v payload mx av now id s r s' :
  enqueue v payload mx av now id s = (Ok r, s') →
  ∃ key sha, enqueue_args v payload mx = Ok (key, sha) ∧ (1 ≤ mx)%Z ∧
    ((∃ m, s !! r = Some m ∧ m_idempotency_key m = key ∧ m_payload_sha256 m = sha ∧
        m_max_delivery_count m = mx ∧ s' = s) ∨
     (let m := new_message key sha (VDict payload) mx (default now av) now in
      r = id ∧ find_key key s = None ∧ s !! id = None ∧ row_check m = true ∧ s' = <[id := m]> s)).
Proof.
  unfold enqueue. intros H. apply tx_bind_Ok in H as ([key sha]&s0&[Ha ->]%tx_lift_Ok&H).
  exists key, sha. split; [done|]. split.
  { res_inv Ha. match goal with E : negb _ = true |- _ => apply negb_true_iff, orb_false_iff in E as [E _] end.
    by apply Z.ltb_ge. }
  apply atomically_Ok in H. apply tx_bind_Ok in H as (ms&s0&[-> ->]%tx_get_Ok&H).
  destruct (find_key key s) as [[k m]|] eqn:Hf.
  - left. apply find_key_Some in Hf as [? ?]. tx_inv H. btrue. by exists m.
  - right. tx_inv H. btrue.
    match goal with E : write _ _ _ = _ |- _ => apply write_Ok in E as (?&_&->) end. done.
Qed.

Lemma enqueue_sound v payload mx av now id s r s' :
  enqueue v payload mx av now id s = (Ok r, s') → sound s s'.
Proof.
  intros H. apply enqueue_Ok in H as (key&sha&_&Hmx&[(m&_&_&_&_&->)|(->&Hf&Hid&Hck&->)]); [done|].
  intros [R T K]. split; [split|].
  - intros k x [[<- <-]|[? ?]]%lookup_insert_Some; [|by eauto]. split; simpl; [done|lia|lia].
  - intros k1 k2 m1 m2 [[<- <-]|[? H1]]%lookup_insert_Some [[<- <-]|[? H2]]%lookup_insert_Some Ht E;
      [done|by destruct Ht| |by eapply T]. simpl in E. rewrite E in Ht. by destruct Ht.
  - intros k1 k2 m1 m2 [[<- <-]|[? H1]]%lookup_insert_Some [[<- <-]|[? H2]]%lookup_insert_Some E;
      [done| | |by eapply K]; exfalso; simpl in E; by eapply find_key_None.
  - apply flows_insert. rewrite Hid. by constructor.
Qed.

Lemma elem_of_ready_rows t ms x :
  x ∈ ready_rows t ms ↔ ms !! x.1 = Some x.2 ∧ m_state x.2 = Q_ready ∧
    fleb (m_available_at x.2) t = true.
Proof.
  unfold ready_rows. rewrite elem_of_order_by, elem_of_select, andb_true_iff, bool_decide_eq_true.
  done.
Qed.

Lemma NoDup_ready_rows t ms : NoDup (ready_rows t ms).*1.
Proof. unfold ready_rows. rewrite order_by_Permutation. apply NoDup_select_keys. Qed.

(** The cases of a successful claim. *)
Lemma queue_claim_Ok limit owner lock mn now ids s cs s' :
  queue_ok s → claim limit owner lock mn now ids s = (Ok cs, s') →
  let s1 := recover_all now s in
  let rows := take (Z.to_nat limit) (ready_rows now s1) in
  (cs = [] ∧ (Z.of_nat (length rows) < mn)%Z ∧ s' = s1) ∨
  ((mn ≤ Z.of_nat (length rows))%Z ∧ claiming rows s1 now (length rows) cs s').
Proof.
  intros I H. unfold claim in H. apply tx_bind_Ok in H as ([o l]&s0&[_ ->]%tx_lift_Ok&H).
  apply atomically_Ok in H. apply tx_bind_Ok in H as (n&s1&Hr&H). apply queue_recover_Ok in Hr as ->.
  apply tx_bind_Ok in H as (ms&s1&[-> ->]%tx_get_Ok&H). if_inv H; btrue.
  - left. by apply tx_ret_Ok in H as [-> ->].
  - right. split; [done|]. apply claim_loop_Ok in H; [done|apply (recover_sound now s I)| |].
    + rewrite fmap_take. eapply sublist_NoDup; [apply NoDup_ready_rows|apply sublist_take].
    + intros x Hx. apply list_elem_of_lookup in Hx as [i Hi]. apply lookup_take_Some in Hi as [Hi _].
      apply list_elem_of_lookup_2, elem_of_ready_rows in Hi as (?&?&_). done.
Qed.

Lemma claim_sound limit owner lock mn now ids s cs s' :
  claim limit owner lock mn now ids s = (Ok cs, s') → sound s s'.
Proof.
  intros H I. destruct (recover_sound now s I) as [I1 F1].
  apply queue_claim_Ok in H as [(_&_&->)|(_&[[I' F] _ _ _])]; [done| |done].
  split; [done|]. by etrans.
Qed.

Lemma tx_for_sound {A} (f : A → Q unit) l s u s' :
  (∀ x s1 s2, f x s1 = (Ok tt, s2) → sound s1 s2) → tx_for f l s = (Ok u, s') → sound s s'.
Proof.
  intros Hf H. eapply (tx_for_ind (λ s1, sound s s1)) in H; [done| |reflexivity].
  intros x s1 s2 _ P Hx. etrans; [exact P|by eapply Hf].
Qed.

Lemma renew_sound v lock now s r s' : renew v lock now s = (Ok r, s') → sound s s'.
Proof.
  unfold renew. intros H. apply tx_bind_Ok in H as ([t l]&s0&[_ ->]%tx_lift_Ok&H).
  apply tx_bind_Ok in H as (u&s1&H%atomically_Ok&[_ ->]%tx_ret_Ok). by eapply renew_token_sound.
Qed.

Lemma renew_many_sound vs lock now s r s' : renew_many vs lock now s = (Ok r, s') → sound s s'.
Proof.
  unfold renew_many. intros H. apply tx_bind_Ok in H as ([t l]&s0&[_ ->]%tx_lift_Ok&H).
  apply tx_bind_Ok in H as (u&s1&H%atomically_Ok&[_ ->]%tx_ret_Ok).
  eapply tx_for_sound; [|exact H]. intros. by eapply renew_token_sound.
Qed.

Lemma finalize_sound os delay now s u s' : finalize os delay now s = (Ok u, s') → sound s s'.
Proof.
  unfold finalize. destruct os; [by intros [_ ->]%tx_ret_Ok|].
  intros (d&s0&[_ ->]%tx_lift_Ok&H%atomically_Ok)%tx_bind_Ok.
  eapply tx_for_sound; [|exact H]. intros. by eapply finalize_one_sound.
Qed.

Inductive queue_op :=
  | QEnqueue (key : pyval) (payload : list (string * pyval)) (mx : Z) (available_at : option Float)
      (now : Float) (id : string)
  | QClaim (limit : Z) (owner : pyval) (lock : Float) (minimum : Z) (now : Float)
      (ids : nat → string)
  | QRenew (token : pyval) (lock now : Float)
  | QRenewMany (tokens : list pyval) (lock now : Float)
  | QFinalize (outcomes : list (pyval * string * option string)) (delay now : Float)
  | QAbandon (token : pyval) (delay : Float) (reason : option string) (now : Float)
  | QRecover (now : Float).

Definition ignore {A} (m : Q A) : Q unit := m;; mret tt.

Definition run_queue (op : queue_op) : Q unit :=
  match op with
  | QEnqueue key payload mx av now id => ignore (enqueue key payload mx av now id)
  | QClaim limit owner lock mn now ids => ignore (claim limit owner lock mn now ids)
  | QRenew t lock now => ignore (renew t lock now)
  | QRenewMany ts lock now => ignore (renew_many ts lock now)
  | QFinalize os delay now => finalize os delay now
  | QAbandon t delay reason now => abandon t delay reason now
  | QRecover now => ignore (recover_expired now)
  end.

Definition queue_step (s s' : Messages) : Prop := ∃ op r, run_queue op s = (r, s').
Definition queue_reachable (s : Messages) : Prop := rtc queue_step ∅ s.

(** Checks before the transaction, rollback in it. *)
Lemma checked_queue_Err {A B} (r : result A) (f : A → Q B) s e s' :
  (∀ a s1 e1 s2, f a s1 = (Err e1, s2) → s2 = s1) → (tx_lift r ≫= f) s = (Err e, s') → s' = s.
Proof.
  intros Hf. unfold mbind, tx_bind, tx_lift. destruct r; [by apply Hf|by intros [= _ <-]].
Qed.

Lemma then_ret_Err {A B} (m : Q A) (b : B) s e s' :
  (m ≫= λ _, mret b) s = (Err e, s') → m s = (Err e, s').
Proof. unfold mbind, tx_bind, mret, tx_ret. destruct (m s) as [[]]; naive_solver. Qed.

Lemma finalize_Err os d now s e s' : finalize os d now s = (Err e, s') → s' = s.
Proof.
  unfold finalize. destruct os; [done|]. apply checked_queue_Err. intros. by eapply atomically_Err.
Qed.

Lemma renew_many_Err vs lease now s e s' : renew_many vs lease now s = (Err e, s') → s' = s.
Proof.
  apply checked_queue_Err. intros [] ???. intros H%then_ret_Err. by eapply atomically_Err.
Qed.

Lemma run_queue_Err op s e s' : run_queue op s = (Err e, s') → s' = s.
Proof.
  destruct op; simpl; unfold ignore; intros H; try apply then_ret_Err in H.
  - eapply checked_queue_Err; [|exact H]. intros []. apply atomically_Err.
  - eapply checked_queue_Err; [|exact H]. intros []. apply atomically_Err.
  - eapply checked_queue_Err; [|exact H]. intros [] ???. intros H1%then_ret_Err.
    by eapply atomically_Err.
  - by eapply renew_many_Err.
  - by eapply finalize_Err.
  - eapply checked_queue_Err; [|exact H]. intros ????. apply finalize_Err.
  - by eapply atomically_Err.
Qed.

Lemma run_queue_sound op s r s' : run_queue op s = (r, s') → sound s s'.
Proof.
  intros H. destruct r as [[]|e]; [|by rewrite (run_queue_Err _ _ _ _ H)].
  destruct op; simpl in H; unfold ignore in H;
    try (apply tx_bind_Ok in H as (x&s1&H&[_ ->]%tx_ret_Ok)).
  - by eapply enqueue_sound.
  - by eapply claim_sound.
  - by eapply renew_sound.
  - by eapply renew_many_sound.
  - by eapply finalize_sound.
  - unfold abandon in H. apply tx_bind_Ok in H as (d&s1&[_ ->]%tx_lift_Ok&H). by eapply finalize_sound.
  - apply atomically_Ok, queue_recover_Ok in H as ->. apply recover_sound.
Qed.

Lemma queue_steps_sound s s' : rtc queue_step s s' → sound s s'.
Proof.
  induction 1 as [|s1 s2 s3 (op&r&Hop) _ IH]; [reflexivity|].
  etrans; [by eapply run_queue_sound|done].
Qed.

Lemma queue_ok_empty : queue_ok ∅.
Proof. split; intros *; rewrite lookup_empty; done. Qed.

Lemma reachable_queue_ok s : queue_reachable s → queue_ok s.
Proof. intros H%queue_steps_sound. apply H, queue_ok_empty. Qed.

(** ** Histories *)

Lemma settled_frozen m x : settled (m_state m) → rtc msg_move (Some m) x → x = Some m.
Proof.
  intros Hs H. inversion H as [|? y ? Hm]; [done|]. exfalso.
  inversion Hm; subst; destruct Hs as [Hs|Hs]; congruence.
Qed.

Lemma msg_moves_kept m x :
  rtc msg_move (Some m) x → ∃ m', x = Some m' ∧ same_message m m' ∧
    (m_delivery_count m ≤ m_delivery_count m')%Z.
Proof.
  intros H. remember (Some m) as y eqn:E. revert m E.
  induction H as [|x y z Hm _ IH]; intros m ->; [by exists m|].
  assert (∃ m1, y = Some m1 ∧ same_message m m1 ∧ (m_delivery_count m ≤ m_delivery_count m1)%Z)
    as (m1&->&S1&L1).
  { inversion Hm; subst; eexists; split_and!; try done; lia. }
  destruct (IH m1 eq_refl) as (m2&->&[]&L2). exists m2. destruct S1. split; [done|].
  split; [split; congruence|lia].
Qed.

(** C29. The queue invariant: in every reachable queue each row satisfies its
    constraints, no message was delivered more often than its maximum, a ready
    message has a delivery left, and lock tokens and idempotency keys are unique. *)
Theorem queue_invariant s : queue_reachable s → queue_ok s.
Proof. apply reachable_queue_ok. Qed.

Definition at_ (z : Z) : Float := float_of_Z z.
Definition tokens (p : string) (i : nat) : string := p +:+ str_of_codes (int_codes (Z.of_nat i)).

(** A run: two messages, both claimed, the first completed. *)
Definition q_ops : list queue_op :=
  [QEnqueue (VStr "k1") [] 1 None (at_ 1) "m1"; QEnqueue (VStr "k2") [] 2 None (at_ 2) "m2";
   QClaim 5 (VStr "driver") (at_ 30) 1 (at_ 10) (tokens "t")]%string.
Definition run_all (ops : list queue_op) (s : Messages) : Messages :=
  fold_left (λ s op, (run_queue op s).2) ops s.
Definition queue1 : Messages := Eval vm_compute in run_all q_ops ∅.

Lemma run_all_steps ops s : rtc queue_step s (run_all ops s).
Proof.
  revert s. induction ops as [|op ops IH]; intros s; [reflexivity|].
  simpl. eapply rtc_l; [|apply IH]. eexists op, _. apply surjective_pairing.
Qed.

Lemma queue1_run : run_all q_ops ∅ = queue1.
Proof. vm_cast_no_check (eq_refl queue1). Qed.

Lemma queue1_reachable : queue_reachable queue1.
Proof. unfold queue_reachable. rewrite <-queue1_run. apply run_all_steps. Qed.

Example queue1_states : (λ x : string * Message, (x.1, m_state x.2, m_lock_token x.2))
  <$> map_to_list queue1 = [("m1", Q_locked, Some "t0"); ("m2", Q_locked, Some "t1")]%string.
Proof. vm_compute. reflexivity. Qed.

Lemma queue_invariant_witness : queue_ok queue1.
Proof. exact (queue_invariant queue1 queue1_reachable). Defined.

(** A message keeps its key, payload and delivery limit for ever, its delivery
    count never goes down, and once completed or dead its row never changes. *)
Theorem message_history s s' k m :
  s !! k = Some m → rtc queue_step s s' → queue_reachable s →
  ∃ m', s' !! k = Some m' ∧ same_message m m' ∧
    (m_delivery_count m ≤ m_delivery_count m' ≤ m_max_delivery_count m)%Z ∧
    (settled (m_state m) → m' = m).
Proof.
  intros Hm H R. pose proof (reachable_queue_ok _ R) as I.
  destruct (queue_steps_sound _ _ H I) as [I' F]. pose proof (F k) as Fk. rewrite Hm in Fk.
  destruct (msg_moves_kept m _ Fk) as (m'&Hm'&S&L). exists m'. split_and!; try done.
  - rewrite <-(sm_max _ _ S). apply (qo_row _ I' k m' Hm').
  - intros Hs. pose proof (settled_frozen m _ Hs Fk). congruence.
Qed.

Lemma message_history_witness :
  ∃ m', run_all [QFinalize [(VStr "t0", "complete", None)]%string (at_ 0) (at_ 20)] queue1
    !! "m1"%string = Some m' ∧ (0 ≤ m_delivery_count m')%Z.
Proof.
  destruct (queue1 !! "m1"%string) as [m|] eqn:E; [|discriminate E].
  destruct (message_history queue1 (run_all [QFinalize [(VStr "t0", "complete", None)]%string
    (at_ 0) (at_ 20)] queue1) "m1" m E (run_all_steps _ _) queue1_reachable) as (m'&Hm'&_&L&_).
  exists m'. split; [exact Hm'|]. vm_compute in E. injection E as <-. simpl in L. lia.
Defined.
