(* ===== verification/LocalQueueContract.v ===== *)
(** * The contract of the SQLite queue

    What [claim], [renew], [finalize] and [enqueue] promise their callers: claims
    are first come first served, a lost lock never comes back, a live lock can
    always settle its message, batched calls are all or nothing, and an
    idempotency key names one message for ever. *)
From S2P Require Export LocalQueue LocalQueueTheorems.
Import Queue.

(** ** First come, first served *)

#[export] Instance queue_before_total : Total (λ x y, Is_true (queue_before x y)).
Proof.
  intros x y. unfold queue_before.
  destruct (fltb (m_created_at x.2) (m_created_at y.2)) eqn:E1; [by left|].
  destruct (fltb (m_created_at y.2) (m_created_at x.2)) eqn:E2; [by right|].
  simpl. destruct (str_leb_total x.1 y.1) as [->| ->]; auto.
Qed.

(** NULL never orders a row: created_at is NOT NULL. *)
Definition dated (x : string * Message) : Prop := fisnan (m_created_at x.2) = false.

Lemma queue_before_trans x y z :
  dated x → dated y → dated z →
  queue_before x y = true → queue_before y z = true → queue_before x z = true.
Proof.
  unfold dated, queue_before. intros Hx Hy Hz.
  rewrite !orb_true_iff, !andb_true_iff, !negb_true_iff.
  assert (∀ a b : Float, fisnan a = false → fisnan b = false →
    fltb b a = false → fleb a b = true) as Hle.
  { intros a b ?? E. rewrite fltb_negb_fleb in E by done. by apply negb_false_iff in E. }
  intros [H1|[H1 L1]] [H2|[H2 L2]].
  - left. by eapply fltb_trans.
  - left. apply (fltb_fleb_trans _ (m_created_at y.2)); auto.
  - left. apply (fleb_fltb_trans _ (m_created_at y.2)); auto.
  - right. split; [|by eapply str_leb_trans]. apply fleb_not_fltb.
    apply (fleb_trans _ (m_created_at y.2)); auto.
Qed.

Lemma ready_rows_sorted t ms :
  queue_ok ms → StronglySorted (λ x y, Is_true (queue_before x y)) (ready_rows t ms).
Proof.
  intros I. apply (Sorted_StronglySorted_on dated).
  - intros x y z Hx Hy Hz H1 H2. apply Is_true_true in H1, H2.
    apply Is_true_true. by apply (queue_before_trans x y z).
  - apply Forall_forall. intros x (Hx&_)%elem_of_ready_rows.
    destruct (qo_row _ I _ _ Hx) as [Hck _ _]. unfold row_check in Hck. by btrue.
  - unfold ready_rows, order_by. apply Sorted_merge_sort, _.
Qed.

(** The claimed messages, in the table that the call leaves. *)
Definition claimed_as (c : ClaimedMessage) (s : Messages) : Prop :=
  ∃ m, s !! c_message_id c = Some m ∧ m_state m = Q_locked ∧
    m_lock_token m = Some (c_lock_token c) ∧ m_locked_until m = Some (c_locked_until c) ∧
    m_payload m = c_payload c ∧ m_delivery_count m = c_delivery_count c ∧
    (m_delivery_count m ≤ m_max_delivery_count m)%Z.

Lemma claiming_ids rows s0 t cs s : claiming rows s0 t (length rows) cs s →
  c_message_id <$> cs = rows.*1.
Proof.
  intros [_ _ _ H]. rewrite firstn_all in H. induction H as [|x c l k Hx H IH]; [done|].
  destruct Hx as [E _]. by rewrite !fmap_cons, E, IH.
Qed.

Lemma claiming_as rows s0 t cs s c : claiming rows s0 t (length rows) cs s → 
  (∀ x, x ∈ rows → s0 !! x.1 = Some x.2) → c ∈ cs → claimed_as c s.
Proof.
  intros [[I F] _ _ H] H0 Hc. rewrite firstn_all in H. apply list_elem_of_lookup in Hc as [i Hi].
  eapply Forall2_lookup_r in H as (x&Hx&Hid&Hp&_&m&Hm&Hst&Ht&Hu&Hd); [|exact Hi].
  exists m. rewrite Hid. split_and!; try done.
  - rewrite Hp. pose proof (F x.1) as Fx. rewrite Hm, (H0 x) in Fx by by eapply list_elem_of_lookup_2.
    apply msg_moves_kept in Fx as (m'&E&S&_). simplify_eq. apply S.
  - apply (qo_row _ I _ _ Hm).
Qed.

Lemma claiming_tokens rows s0 t cs s : claiming rows s0 t (length rows) cs s →
  NoDup rows.*1 → (∀ x, x ∈ rows → s0 !! x.1 = Some x.2) → NoDup (c_lock_token <$> cs).
Proof.
  intros C Hnd H0. assert (NoDup (c_message_id <$> cs)) as Hid by by erewrite claiming_ids.
  apply NoDup_fmap_2_strong; [|by eapply NoDup_fmap_1].
  intros c1 c2 H1 H2 E. destruct (claiming_as _ _ _ _ _ c1 C H0 H1) as (m1&M1&_&T1&_).
  destruct (claiming_as _ _ _ _ _ c2 C H0 H2) as (m2&M2&_&T2&_).
  destruct C as [[I _] _ _ _].
  assert (c_message_id c1 = c_message_id c2) as Eid.
  { eapply (qo_token _ I); [exact M1|exact M2|by rewrite T1|congruence]. }
  apply list_elem_of_lookup in H1 as [i Hi], H2 as [j Hj].
  assert (i = j) as ->; [|congruence].
  eapply NoDup_lookup; [exact Hid| |]; rewrite list_lookup_fmap, ?Hi, ?Hj; simpl; by rewrite ?Eid.
Qed.

(** What a claim returns.  With fewer ready messages than [minimum_count] it
    takes none.  Otherwise every returned message is locked under its own fresh
    token, with the payload and the raised delivery count of its row; no message
    that stays ready is older than a claimed one unless the limit is used up;
    every other row is as lease recovery left it. *)
Theorem claim_takes_the_oldest limit owner lock mn now ids s cs s' :
  queue_reachable s → claim limit owner lock mn now ids s = (Ok cs, s') →
  let s1 := recover_all now s in
  (cs = [] ∧ s' = s1 ∧ (Z.of_nat (length (take (Z.to_nat limit) (ready_rows now s1))) < mn)%Z) ∨
  ((mn ≤ Z.of_nat (length cs))%Z ∧ NoDup (c_message_id <$> cs) ∧ NoDup (c_lock_token <$> cs) ∧
   (∀ c, c ∈ cs → claimed_as c s') ∧
   (∀ k, k ∉ (c_message_id <$> cs) → s' !! k = s1 !! k) ∧
   (∀ k m, s' !! k = Some m → m_state m = Q_ready → fleb (m_available_at m) now = true →
      length cs = Z.to_nat limit ∧
      ∀ c m', c ∈ cs → s' !! c_message_id c = Some m' →
        queue_before (c_message_id c, m') (k, m) = true)).
Proof.
  intros R%reachable_queue_ok H s1. destruct (queue_claim_Ok _ _ _ _ _ _ _ _ _ R H) as [(->&?&->)|[Hn C]];
    [by left|]. right. fold s1 in C, Hn. set (rows := take _ _) in *.
  destruct (recover_sound now s R) as [I1 _]. fold s1 in I1.
  assert (∀ x, x ∈ rows → s1 !! x.1 = Some x.2) as Hrows.
  { intros x Hx. apply elem_of_take in Hx as (i&Hi&_). 
    by apply list_elem_of_lookup_2, elem_of_ready_rows in Hi as (?&_). }
  assert (NoDup rows.*1) as Hnd.
  { unfold rows. rewrite fmap_take. eapply sublist_NoDup; [apply NoDup_ready_rows|apply sublist_take]. }
  pose proof (claiming_ids _ _ _ _ _ C) as Hids.
  assert (length cs = length rows) as Hlen by by rewrite <-(length_fmap c_message_id), Hids, length_fmap.
  split_and!; [by rewrite Hlen|by rewrite Hids|by eapply claiming_tokens|..].
  - intros c. by eapply claiming_as.
  - intros k Hk. apply (cg_other _ _ _ _ _ _ C). by rewrite firstn_all, <-Hids.
  - intros k m Hm Hst Hav. assert (k ∉ rows.*1) as Hk.
    { rewrite <-Hids. intros (c&->&Hc)%list_elem_of_fmap.
      destruct (claiming_as _ _ _ _ _ c C Hrows Hc) as (?&?&?&_). congruence. }
    assert (s1 !! k = Some m) as Hm1.
    { rewrite <-(cg_other _ _ _ _ _ _ C); [done|]. by rewrite firstn_all. }
    assert ((k, m) ∈ drop (Z.to_nat limit) (ready_rows now s1)) as Hin.
    { assert ((k, m) ∈ ready_rows now s1) as Hr by by apply elem_of_ready_rows.
      rewrite <-(take_drop (Z.to_nat limit)) in Hr. apply elem_of_app in Hr as [Hr|?]; [|done].
      destruct Hk. apply list_elem_of_fmap. by exists (k, m). }
    assert (Z.to_nat limit < length (ready_rows now s1)) as Hlt.
    { apply list_elem_of_lookup in Hin as [i Hi]. rewrite lookup_drop in Hi.
      apply lookup_lt_Some in Hi. lia. }
    split; [rewrite Hlen; unfold rows; rewrite length_take; lia|].
    intros c m' Hc Hm'. pose proof (ready_rows_sorted now s1 I1) as Hs.
    rewrite <-(take_drop (Z.to_nat limit)) in Hs.
    assert (c_message_id c ∈ rows.*1) as (x&Ex&Hx)%list_elem_of_fmap.
    { rewrite <-Hids. by apply list_elem_of_fmap_2. }
    pose proof (StronglySorted_app_1_elem_of _ _ _ _ _ Hs Hx Hin) as Hb%Is_true_true.
    destruct C as [[_ F] _ _ _]. pose proof (F x.1) as Fx.
    rewrite (Hrows x Hx), <-Ex, Hm' in Fx. apply msg_moves_kept in Fx as (m2&E2&S&_). simplify_eq.
    unfold queue_before in *. simpl in *. by rewrite (sm_created _ _ S), Ex.
Qed.

Definition queue0 : Messages := Eval vm_compute in run_all (take 2 q_ops) ∅.

Lemma queue0_reachable : queue_reachable queue0.
Proof.
  unfold queue_reachable. assert (E : run_all (take 2 q_ops) ∅ = queue0)
    by (vm_cast_no_check (eq_refl queue0)). rewrite <-E. apply run_all_steps.
Qed.

Definition claim0 : Q (list ClaimedMessage) :=
  claim 1 (VStr "driver") (at_ 30) 1 (at_ 10) (tokens "t").
Definition claim0_run : result (list ClaimedMessage) * Messages := Eval vm_compute in claim0 queue0.
Lemma claim0_eq : claim0 queue0 = claim0_run.
Proof. vm_cast_no_check (eq_refl claim0_run). Qed.

Lemma claim_takes_the_oldest_witness :
  ∃ cs s', claim0 queue0 = (Ok cs, s') ∧ c_message_id <$> cs = ["m1"]%string ∧
    (∀ c, c ∈ cs → claimed_as c s').
Proof.
  destruct claim0_run as [[cs|e] s'] eqn:E; [|discriminate E].
  exists cs, s'. rewrite claim0_eq. split; [exact E|].
  split; [injection E as <- _; reflexivity|].
  pose proof (claim_takes_the_oldest _ _ _ _ _ _ _ _ _ queue0_reachable
    (eq_trans claim0_eq E)) as [(->&_&_)|(_&_&_&H&_)]; [discriminate E|exact H].
Defined.

(** ** A lost lock stays lost *)

Definition carried (token : string) (s : Messages) : Prop :=
  ∃ k m, s !! k = Some m ∧ m_lock_token m = Some token.

Definition issues (token : string) (op : queue_op) : Prop :=
  match op with QClaim _ _ _ _ _ ids => ∃ i, ids i = token | _ => False end.

Lemma uncarried_insert T k m s :
  ¬ carried T s → m_lock_token m ≠ Some T → ¬ carried T (<[k := m]> s).
Proof.
  intros Hc Hm (j&x&[[<- <-]|[? Hx]]%lookup_insert_Some&Ht); [done|]. destruct Hc. by exists j, x.
Qed.

Lemma uncarried_recover T t s : ¬ carried T s → ¬ carried T (recover_all t s).
Proof.
  intros Hc (k&m&Hk&Ht). apply Hc. exists k, m. split; [|done].
  apply (recover_all_token t s k m Hk). by rewrite Ht.
Qed.

Lemma find_lock_uncarried T t s : ¬ carried T s → find_lock T t s = None.
Proof.
  intros Hc. destruct (find_lock T t s) as [[k m]|] eqn:E; [|done].
  apply find_lock_Some in E as (?&?&_). destruct Hc. by exists k, m.
Qed.

Lemma uncarried_renew T until now token s u s' :
  ¬ carried T s → renew_token until now token s = (Ok u, s') → ¬ carried T s'.
Proof.
  intros Hc H. unfold renew_token in H. tx_step H. subst.
  destruct (find_lock token now s) as [[k m]|] eqn:Hf; [|by tx_inv H].
  apply find_lock_Some in Hf as (Hm&_). apply write_Ok in H as (_&_&->).
  apply uncarried_insert; [done|]. simpl. intros E. apply Hc. by exists k, m.
Qed.

Lemma uncarried_finalize_one T delay now o s u s' :
  ¬ carried T s → finalize_one delay now o s = (Ok u, s') → ¬ carried T s'.
Proof.
  intros Hc. destruct o as [[raw action] reason]. unfold finalize_one.
  intros (t&s1&[_ ->]%tx_lift_Ok&(ms&s2&[-> ->]%tx_get_Ok&H)%tx_bind_Ok)%tx_bind_Ok.
  destruct (find_lock t now s) as [[k m]|]; [|by tx_inv H].
  apply tx_bind_Ok in H as ([[st r] a]&s1&[_ ->]%tx_lift_Ok&(_&_&->)%write_Ok).
  by apply uncarried_insert.
Qed.

Lemma uncarried_finalize T os delay now s u s' :
  ¬ carried T s → finalize os delay now s = (Ok u, s') → ¬ carried T s'.
Proof.
  unfold finalize. intros Hc. destruct os; [by intros [_ ->]%tx_ret_Ok|].
  intros (d&s0&[_ ->]%tx_lift_Ok&H%atomically_Ok)%tx_bind_Ok.
  eapply (tx_for_ind (λ s1, ¬ carried T s1)) in H; [done| |done].
  intros. by eapply uncarried_finalize_one.
Qed.

Lemma uncarried_claim_rows T owner ids lease now l s (cs : list ClaimedMessage) s' :
  ¬ carried T s → (∀ i, ids i ≠ T) → tx_map (claim_row owner ids lease now) l s = (Ok cs, s') →
  ¬ carried T s'.
Proof.
  intros Hc Hi H. eapply (tx_map_prefix (λ _ _ s1, ¬ carried T s1)) in H; [done| |done].
  intros _ _ [i [id row]] _ s1 c s2 _ Hc2 H1. unfold claim_row in H1.
  apply tx_bind_Ok in H1 as (ms&s3&[-> ->]%tx_get_Ok&H1).
  apply tx_bind_Ok in H1 as (u&s3&Hw&[_ ->]%tx_ret_Ok).
  destruct (s1 !! id); [|by apply tx_ret_Ok in Hw as [_ ->]].
  case_bool_decide; [|by apply tx_ret_Ok in Hw as [_ ->]].
  apply write_Ok in Hw as (_&_&->). apply uncarried_insert; [done|]. simpl.
  intros [= E]. by apply (Hi i).
Qed.

(** It is enough that lease recovery, with which a claim starts, drops the token. *)
Lemma uncarried_claim T limit owner lock mn now ids s cs s' :
  ¬ carried T (recover_all now s) → (∀ i, ids i ≠ T) →
  claim limit owner lock mn now ids s = (Ok cs, s') → ¬ carried T s'.
Proof.
  intros Hc Hi H. unfold claim in H. apply tx_bind_Ok in H as ([o l]&s0&[_ ->]%tx_lift_Ok&H).
  apply atomically_Ok in H. apply tx_bind_Ok in H as (n&s1&Hr&H). apply queue_recover_Ok in Hr as ->.
  apply tx_bind_Ok in H as (ms&s1&[-> ->]%tx_get_Ok&H). if_inv H.
  - by apply tx_ret_Ok in H as [_ ->].
  - by eapply uncarried_claim_rows.
Qed.

Lemma uncarried_step T op s r s' :
  ¬ carried T s → ¬ issues T op → run_queue op s = (r, s') → ¬ carried T s'.
Proof.
  intros Hc Hi H. destruct r as [[]|e]; [|by rewrite (run_queue_Err _ _ _ _ H)].
  destruct op; simpl in H, Hi; unfold ignore in H;
    try (apply tx_bind_Ok in H as (x&s1&H&[_ ->]%tx_ret_Ok)).
  - apply enqueue_Ok in H as (?&?&_&_&[(?&_&_&_&_&->)|(->&_&_&_&->)]); [done|].
    by apply uncarried_insert.
  - eapply uncarried_claim; [by apply uncarried_recover| |done]. intros i E. apply Hi. by exists i.
  - unfold renew in H. apply tx_bind_Ok in H as ([t l]&s0&[_ ->]%tx_lift_Ok&H).
    apply tx_bind_Ok in H as (u&s2&H%atomically_Ok&[_ ->]%tx_ret_Ok). by eapply uncarried_renew.
  - unfold renew_many in H. apply tx_bind_Ok in H as ([t l]&s0&[_ ->]%tx_lift_Ok&H).
    apply tx_bind_Ok in H as (u&s2&H%atomically_Ok&[_ ->]%tx_ret_Ok).
    eapply (tx_for_ind (λ s1, ¬ carried T s1)) in H; [done| |done].
    intros. by eapply uncarried_renew.
  - by eapply uncarried_finalize.
  - unfold abandon in H. apply tx_bind_Ok in H as (d&s1&[_ ->]%tx_lift_Ok&H).
    by eapply uncarried_finalize.
  - apply atomically_Ok, queue_recover_Ok in H as ->. by apply uncarried_recover.
Qed.

Lemma uncarried_run T ops s :
  ¬ carried T s → Forall (λ op, ¬ issues T op) ops → ¬ carried T (run_all ops s).
Proof.
  intros Hc H. revert s Hc. induction H as [|op ops Hi _ IH]; intros s Hc; [done|].
  simpl. apply IH. eapply uncarried_step; [exact Hc|exact Hi|apply surjective_pairing].
Qed.

(** Calls that present a token without a live lock. *)
Lemma renew_lost v T lease now s :
  _required_text v = Ok T → _bounded_seconds lease = Ok lease → find_lock T now s = None →
  renew v lease now s = (Err LeaseLostError, s).
Proof.
  intros Hv Hl Hf. unfold renew, atomically, transaction, renew_token.
  unfold mbind, tx_bind, tx_lift, result_bind, tx_get. by rewrite Hv, Hl, Hf.
Qed.

Lemma finalize_lost v T action reason rest delay now s :
  _required_text v = Ok T → _nonnegative_seconds delay = Ok delay → find_lock T now s = None →
  finalize ((v, action, reason) :: rest) delay now s = (Err LeaseLostError, s).
Proof.
  intros Hv Hl Hf. unfold finalize, atomically, transaction. simpl. unfold finalize_one.
  unfold mbind, tx_bind, tx_lift, tx_get. by rewrite Hl, Hv, Hf.
Qed.

Lemma expired_released T k m now s :
  queue_ok s → s !! k = Some m → m_lock_token m = Some T → fisnan now = false →
  lock_live now m = false → ¬ carried T (recover_all now s).
Proof.
  intros I Hm Ht Hn Hl (j&x&Hx&Hxt).
  destruct (recover_all_token now s j x Hx) as [Hx0 He]; [by rewrite Hxt|].
  assert (j = k) as -> by (eapply (qo_token _ I); [done..| |congruence]; by rewrite Hxt).
  simplify_eq. destruct (qo_row _ I k m Hm) as [Hck _ _].
  assert (m_state m = Q_locked) as Hst by (apply row_check_locked; [done|by rewrite Ht]).
  unfold row_check, lock_live, lock_expired in *. rewrite Hst, Ht in *. simpl in *.
  destruct (m_locked_until m) as [u|] eqn:Hu; [|by rewrite andb_false_r in Hck]. btrue.
  rewrite fltb_negb_fleb, He in Hl by done. done.
Qed.

(** C28. A lock that ran out before a claim is gone for good: whatever calls follow
    (none of which draws the same random token), renewing it or settling a message
    with it raises LeaseLostError and changes nothing, so the worker that lost
    its lock cannot touch a redelivered message. *)
Theorem lost_lock_stays_lost T k m limit owner lock mn now ids s cs s1 ops v lease now' :
  queue_reachable s → s !! k = Some m → m_lock_token m = Some T →
  fisnan now = false → lock_live now m = false →
  claim limit owner lock mn now ids s = (Ok cs, s1) → (∀ i, ids i ≠ T) →
  Forall (λ op, ¬ issues T op) ops →
  _required_text v = Ok T → _bounded_seconds lease = Ok lease →
  let s2 := run_all ops s1 in
  renew v lease now' s2 = (Err LeaseLostError, s2) ∧
  ∀ action reason rest, finalize ((v, action, reason) :: rest) fzero now' s2 = (Err LeaseLostError, s2).
Proof.
  intros R%reachable_queue_ok Hm Ht Hn Hl Hc Hi Hops Hv Hle s2.
  assert (¬ carried T s1) as H1.
  { eapply uncarried_claim; [|done..]. by eapply expired_released. }
  pose proof (find_lock_uncarried T now' _ (uncarried_run T ops s1 H1 Hops)) as Hf.
  split; [by eapply renew_lost|]. intros. by eapply finalize_lost.
Qed.

Definition reclaim1 : Q (list ClaimedMessage) :=
  claim 5 (VStr "driver") (at_ 30) 1 (at_ 50) (tokens "u").
Definition reclaim1_run : result (list ClaimedMessage) * Messages :=
  Eval vm_compute in reclaim1 queue1.
Lemma reclaim1_eq : reclaim1 queue1 = reclaim1_run.
Proof. vm_cast_no_check (eq_refl reclaim1_run). Qed.

Definition m2_locked : Message := Eval vm_compute in
  match queue1 !! "m2"%string with Some m => m | None => new_message "" "" VNone 1 fzero fzero end.
Lemma m2_row : queue1 !! "m2"%string = Some m2_locked.
Proof. vm_compute. reflexivity. Qed.

(** The second message is redelivered under "u0"; the holder of "t1" comes back. *)
Lemma lost_lock_stays_lost_witness :
  let s2 := run_all [QRenew (VStr "u0") (at_ 30) (at_ 55)] reclaim1_run.2 in
  queue1 !! "m2" = Some m2_locked ∧
  ∀ action reason rest,
    finalize ((VStr "t1", action, reason) :: rest) fzero (at_ 60) s2 = (Err LeaseLostError, s2).
Proof.
  split; [exact m2_row|].
  destruct reclaim1_run as [[cs|e] s1] eqn:E; [|discriminate E].
  refine (proj2 (lost_lock_stays_lost "t1" "m2" m2_locked 5 (VStr "driver") (at_ 30) 1 (at_ 50)
    (tokens "u") queue1 cs s1 [QRenew (VStr "u0") (at_ 30) (at_ 55)] (VStr "t1") (at_ 30) (at_ 60)
    queue1_reachable m2_row _ _ _ (eq_trans reclaim1_eq E) _ _ _ _)).
  - reflexivity.
  - reflexivity.
  - vm_compute. reflexivity.
  - intros i. unfold tokens. discriminate.
  - repeat constructor. intros [].
  - vm_compute. reflexivity.
  - vm_compute. reflexivity.
Defined.

(** ** A live lock settles its message *)

Lemma find_lock_live T now s k m :
  queue_ok s → s !! k = Some m → m_lock_token m = Some T → lock_live now m = true →
  find_lock T now s = Some (k, m).
Proof.
  intros I Hm Ht Hl. destruct (find_lock T now s) as [[j x]|] eqn:E.
  - apply find_lock_Some in E as (Hx&Hxt&_).
    assert (j = k) as -> by (eapply (qo_token _ I); [done..|by rewrite Hxt|congruence]). congruence.
  - pose proof (List.find_none _ _ E (k, m)) as Hn. rewrite <-list_elem_of_In, elem_of_map_to_list in Hn.
    specialize (Hn Hm). simpl in Hn. rewrite Hl, bool_decide_eq_true_2 in Hn by done. done.
Qed.

(** Writing a row succeeds when it meets its constraints and its token is its own. *)
Lemma write_run k m s :
  row_check m = true →
  (∀ j x, s !! j = Some x → is_Some (m_lock_token m) → m_lock_token x = m_lock_token m → j = k) →
  write k m s = (Ok tt, <[k := m]> s).
Proof.
  intros Hck Hu. unfold write, mbind, tx_bind, tx_get, tx_require, tx_lift, require, tx_modify.
  assert (token_unique k m s = true) as Ht; [|by rewrite Hck, Ht].
  apply forallb_forall. intros [j x] Hx%list_elem_of_In%elem_of_map_to_list. simpl.
  case_bool_decide as H1; [done|]. case_bool_decide as H2; [|done].
  case_bool_decide as H3; [|done]. destruct H1. by eapply Hu.
Qed.

Lemma lock_live_now now m : lock_live now m = true → fisnan now = false.
Proof.
  unfold lock_live. intros Hl. destruct (m_locked_until m); btrue; [|done].
  match goal with E : fltb _ _ = true |- _ => by apply fltb_not_nan in E as [? _] end.
Qed.

Lemma seconds_finite lo hi x : seconds_between lo hi x = Ok x → fisfinite x = true.
Proof. unfold seconds_between. destruct (fisfinite x); [done|discriminate]. Qed.

Lemma renewed_check m until now :
  row_check m = true → m_state m = Q_locked → fisnan until = false → fisnan now = false →
  row_check {| m with m_locked_until := Some until; m_updated_at := now |} = true.
Proof.
  unfold row_check. simpl. intros H Hst Hu Hn. rewrite Hst in *. rewrite Hu, Hn. btrue.
  destruct (m_lock_token m); [|done].
  repeat match goal with E : fisnan _ = false |- _ => rewrite E; clear E end. done.
Qed.

Lemma finalize_live T k m v action reason now delay s st r av :
  queue_ok s → s !! k = Some m → m_lock_token m = Some T → lock_live now m = true →
  _required_text v = Ok T → _nonnegative_seconds delay = Ok delay →
  _final_state action reason (m_delivery_count m) (m_max_delivery_count m) now delay = Ok (st, r, av) →
  fisnan av = false →
  finalize [(v, action, reason)] delay now s = (Ok tt, <[k := finalized st r av now m]> s).
Proof.
  intros I Hm Ht Hl Hv Hd Hfs Hav. pose proof (find_lock_live T now s k m I Hm Ht Hl) as Hf.
  destruct (qo_row _ I k m Hm) as [Hck _ _]. pose proof (final_state_cases _ _ _ _ _ _ _ _ _ Hfs) as [Hst _].
  pose proof (lock_live_now now m Hl) as Hn.
  assert (Hw : write k (finalized st r av now m) s = (Ok tt, <[k := finalized st r av now m]> s)).
  { apply write_run; [|by intros ??? []]. unfold row_check in *. simpl. rewrite Hav, Hn.
    btrue. match goal with E : fisnan (m_created_at m) = _ |- _ => rewrite E end. by destruct st. }
  unfold finalize, atomically, transaction. simpl. unfold finalize_one.
  unfold mbind, tx_bind, tx_lift, tx_get. rewrite Hd, Hv, Hf, Hfs, Hw. done.
Qed.

(** Whoever holds a live lock can always renew, complete, dead-letter or abandon
    its message: the call succeeds and changes that row alone, as [finalized]
    says.  An abandoned message becomes ready again after the delay, or dead when
    its deliveries are used up. *)
Theorem live_lock_settles T k m v now s :
  queue_reachable s → s !! k = Some m → m_lock_token m = Some T → lock_live now m = true →
  _required_text v = Ok T →
  (∀ lease, _bounded_seconds lease = Ok lease →
     renew v lease now s = (Ok (fadd now lease),
       <[k := {| m with m_locked_until := Some (fadd now lease); m_updated_at := now |}]> s)) ∧
  complete v now s = (Ok tt, <[k := finalized Q_completed None now now m]> s) ∧
  (∀ reason, is_blank reason = false →
     dead_letter v (Some reason) now s =
       (Ok tt, <[k := finalized Q_dead (Some (str_strip reason)) now now m]> s)) ∧
  (∀ delay reason, _nonnegative_seconds delay = Ok delay →
     (m_delivery_count m < m_max_delivery_count m)%Z →
     abandon v delay reason now s = (Ok tt, <[k := finalized Q_ready reason (fadd now delay) now m]> s)) ∧
  (∀ delay, _nonnegative_seconds delay = Ok delay →
     (m_max_delivery_count m ≤ m_delivery_count m)%Z →
     abandon v delay None now s =
       (Ok tt, <[k := finalized Q_dead (Some "maximum delivery count reached"%string) now now m]> s)).
Proof.
  intros I%reachable_queue_ok Hm Ht Hl Hv.
  assert (fisnan now = false) as Hn by by eapply lock_live_now.
  assert (_nonnegative_seconds fzero = Ok fzero) as H0 by done.
  split_and!.
  - intros lease Hle. assert (fisfinite lease = true) as Hfin by by eapply seconds_finite.
    unfold renew, atomically, transaction, renew_token, mbind, tx_bind, tx_lift, result_bind, tx_get.
    rewrite Hv, Hle, (find_lock_live T now s k m) by done.
    rewrite write_run; [done| |].
    + apply renewed_check; [apply (qo_row _ I k m Hm)|by eapply lock_live_locked|by apply fadd_not_nan|done].
    + simpl. intros j x Hx Hs E. by eapply (qo_token _ I); [exact Hx|exact Hm|by rewrite E|].
  - by eapply finalize_live.
  - intros reason Hr. eapply finalize_live; try done. unfold _final_state. simpl. by rewrite Hr.
  - intros delay reason Hd Hlt. unfold abandon, mbind, tx_bind, tx_lift. rewrite Hd.
    eapply finalize_live; try done.
    + unfold _final_state. simpl. destruct (Z.leb_spec (m_max_delivery_count m) (m_delivery_count m)); [lia|done].
    + apply fadd_not_nan; [done|]. by eapply seconds_finite.
  - intros delay Hd Hge. unfold abandon, mbind, tx_bind, tx_lift. rewrite Hd.
    eapply finalize_live; try done.
    unfold _final_state. simpl. destruct (Z.leb_spec (m_max_delivery_count m) (m_delivery_count m)); [done|lia].
Qed.

Lemma live_lock_settles_witness :
  complete (VStr "t1") (at_ 20) queue1 =
    (Ok tt, <["m2"%string := finalized Q_completed None (at_ 20) (at_ 20) m2_locked]> queue1).
Proof.
  refine (proj1 (proj2 (live_lock_settles "t1" "m2" m2_locked (VStr "t1") (at_ 20) queue1
    queue1_reachable m2_row _ _ _))).
  - reflexivity.
  - vm_compute. reflexivity.
  - vm_compute. reflexivity.
Defined.

(** ** Batched calls *)

Lemma find_lock_None T t s :
  find_lock T t s = None ↔
  ∀ k m, s !! k = Some m → m_lock_token m = Some T → lock_live t m = false.
Proof.
  split.
  - intros H k m Hm Ht. pose proof (List.find_none _ _ H (k, m)) as Hn. simpl in Hn.
    rewrite <-list_elem_of_In, elem_of_map_to_list, bool_decide_eq_true_2 in Hn by done. auto.
  - intros H. destruct (find_lock T t s) as [[k m]|] eqn:E; [|done].
    apply find_lock_Some in E as (Hm&Ht&Hl). rewrite (H k m Hm Ht) in Hl. done.
Qed.

Lemma dead_insert T t k m s :
  find_lock T t s = None → m_lock_token m ≠ Some T → find_lock T t (<[k := m]> s) = None.
Proof.
  rewrite !find_lock_None. intros H Hm j x [[<- <-]|[? Hx]]%lookup_insert_Some Ht; [done|eauto].
Qed.

Lemma dead_finalize_one T delay now o s s' :
  find_lock T now s = None → finalize_one delay now o s = (Ok tt, s') → find_lock T now s' = None.
Proof.
  intros Hc. destruct o as [[raw action] reason]. unfold finalize_one.
  intros (t&s1&[_ ->]%tx_lift_Ok&(ms&s2&[-> ->]%tx_get_Ok&H)%tx_bind_Ok)%tx_bind_Ok.
  destruct (find_lock t now s) as [[k m]|]; [|by tx_inv H].
  apply tx_bind_Ok in H as ([[st r] a]&s1&[_ ->]%tx_lift_Ok&(_&_&->)%write_Ok).
  by apply dead_insert.
Qed.

Lemma dead_renew T until now token s s' :
  find_lock T now s = None → renew_token until now token s = (Ok tt, s') →
  find_lock T now s' = None.
Proof.
  intros Hc H. unfold renew_token in H. tx_step H. subst.
  destruct (find_lock token now s) as [[k m]|] eqn:Hf; [|by tx_inv H].
  pose proof (find_lock_Some _ _ _ _ _ Hf) as (Hm&Ht&_). apply write_Ok in H as (_&_&->).
  apply dead_insert; [done|]. simpl. intros E. congruence.
Qed.

(** A loop over an element that must fail does not succeed. *)
Lemma tx_for_fails {S A} (P : S → Prop) (f : A → tx S unit) l x s u s' :
  (∀ y s1 s2, P s1 → f y s1 = (Ok tt, s2) → P s2) → (∀ s1 s2, P s1 → f x s1 ≠ (Ok tt, s2)) →
  x ∈ l → P s → tx_for f l s ≠ (Ok u, s').
Proof.
  intros Hp Hx. revert s. induction l as [|y l IH]; intros s Hin HP H; [by inversion Hin|].
  simpl in H. apply tx_bind_Ok in H as ([]&s1&H1&H2). apply elem_of_cons in Hin as [->|Hin].
  - by eapply Hx.
  - eapply IH; [done| |exact H2]. by eapply Hp.
Qed.

Lemma required_tokens_elem vs ts v T :
  required_tokens vs = Ok ts → v ∈ vs → _required_text v = Ok T → T ∈ ts.
Proof.
  intros H Hin Hv. revert ts H. induction vs as [|w vs IH]; intros ts H; [by inversion Hin|].
  simpl in H. res_inv H. subst. apply elem_of_cons. apply elem_of_cons in Hin as [->|Hin].
  - left. congruence.
  - right. by apply IH.
Qed.

Lemma tx_for_app {S A} (f : A → tx S unit) l1 l2 s s' :
  tx_for f (l1 ++ l2) s = (Ok tt, s') → ∃ s1, tx_for f l1 s = (Ok tt, s1) ∧ tx_for f l2 s1 = (Ok tt, s').
Proof.
  revert s. induction l1 as [|x l1 IH]; intros s H; simpl in *; [by exists s|].
  apply tx_bind_Ok in H as ([]&s1&H1&(s2&H2&H3)%IH). exists s2. split; [|done].
  unfold mbind, tx_bind. by rewrite H1.
Qed.

(** Settling a message releases its token. *)
Lemma finalize_one_drops T v delay now a r s s' :
  _required_text v = Ok T → queue_ok s → finalize_one delay now (v, a, r) s = (Ok tt, s') →
  find_lock T now s' = None.
Proof.
  intros Hv I. unfold finalize_one.
  intros (t&s1&[Ht ->]%tx_lift_Ok&(ms&s2&[-> ->]%tx_get_Ok&H)%tx_bind_Ok)%tx_bind_Ok.
  assert (t = T) as -> by congruence.
  destruct (find_lock T now s) as [[k m]|] eqn:Hf; [|by tx_inv H].
  apply find_lock_Some in Hf as (Hm&HT&_).
  apply tx_bind_Ok in H as ([[st r'] av]&s1&[_ ->]%tx_lift_Ok&(_&_&->)%write_Ok).
  apply find_lock_None. intros j x [[<- <-]|[Hne Hx]]%lookup_insert_Some E; [done|].
  destruct Hne. eapply (qo_token _ I); [done..| |congruence]. by rewrite HT.
Qed.

(** [finalize] and [renew_many] are all or nothing: if one of the presented
    tokens is not live, or [finalize] is given the same token twice, the call
    raises and the queue is as before, whatever the other tokens are. *)
Theorem batched_calls_are_all_or_nothing T v now s :
  _required_text v = Ok T →
  (find_lock T now s = None → ∀ outcomes action reason delay, (v, action, reason) ∈ outcomes →
     ∃ e, finalize outcomes delay now s = (Err e, s)) ∧
  (find_lock T now s = None → ∀ vs lease, v ∈ vs → ∃ e, renew_many vs lease now s = (Err e, s)) ∧
  (queue_reachable s → ∀ l1 l2 l3 a1 a2 r1 r2 delay,
     ∃ e, finalize (l1 ++ (v, a1, r1) :: l2 ++ (v, a2, r2) :: l3) delay now s = (Err e, s)).
Proof.
  intros Hv.
  assert (∀ delay a r s1 s2, find_lock T now s1 = None →
    finalize_one delay now (v, a, r) s1 ≠ (Ok tt, s2)) as Hdead.
  { intros delay a r s1 s2 Hf. unfold finalize_one, mbind, tx_bind, tx_lift, tx_get.
    by rewrite Hv, Hf. }
  split_and!.
  - intros Hf os action reason delay Hin. destruct (finalize os delay now s) as [[[]|e] s'] eqn:H;
      [exfalso|by exists e; rewrite (finalize_Err _ _ _ _ _ _ H)].
    unfold finalize in H. destruct os as [|o os]; [by inversion Hin|].
    apply tx_bind_Ok in H as (d&s0&[_ ->]%tx_lift_Ok&H%atomically_Ok).
    eapply (tx_for_fails (λ s1, find_lock T now s1 = None)); [| |exact Hin|exact Hf|exact H].
    + intros *. apply dead_finalize_one.
    + intros *. apply Hdead.
  - intros Hf vs lease Hin. destruct (renew_many vs lease now s) as [[until|e] s'] eqn:H;
      [exfalso|by exists e; rewrite (renew_many_Err _ _ _ _ _ _ H)].
    unfold renew_many in H. apply tx_bind_Ok in H as ([ts l]&s0&[Ha ->]%tx_lift_Ok&H).
    apply tx_bind_Ok in H as (u&s1&H%atomically_Ok&_). res_inv Ha. simplify_eq.
    eapply (tx_for_fails (λ s1, find_lock T now s1 = None)); [| | |exact Hf|exact H].
    + intros *. apply dead_renew.
    + intros s2 s3 E. unfold renew_token, mbind, tx_bind, tx_get. by rewrite E.
    + by eapply required_tokens_elem.
  - intros R l1 l2 l3 a1 a2 r1 r2 delay.
    destruct (finalize _ delay now s) as [[[]|e] s'] eqn:H;
      [exfalso|by exists e; rewrite (finalize_Err _ _ _ _ _ _ H)].
    unfold finalize in H. destruct (l1 ++ _) as [|o os] eqn:El; [by destruct l1|].
    apply tx_bind_Ok in H as (d&s0&[_ ->]%tx_lift_Ok&H%atomically_Ok). rewrite <-El in H.
    apply tx_for_app in H as (s1&H1&H). simpl in H. apply tx_bind_Ok in H as ([]&s2&H2&H).
    assert (find_lock T now s2 = None) as Hf.
    { eapply finalize_one_drops; [exact Hv| |exact H2].
      eapply (tx_for_ind (λ s1, sound s s1)) in H1; [by apply H1, reachable_queue_ok| |reflexivity].
      intros x s3 s4 _ P Hx. etrans; [exact P|by eapply finalize_one_sound]. }
    eapply (tx_for_fails (λ s1, find_lock T now s1 = None)) with (x := (v, a2, r2));
      [| | |exact Hf|exact H].
    + intros *. apply dead_finalize_one.
    + intros *. apply Hdead.
    + set_solver.
Qed.

Lemma batched_calls_are_all_or_nothing_witness :
  ∃ e, finalize [(VStr "t0", "complete", None); (VStr "t9", "complete", None)]%string
    fzero (at_ 20) queue1 = (Err e, queue1).
Proof.
  refine (proj1 (batched_calls_are_all_or_nothing "t9" (VStr "t9") (at_ 20) queue1 _) _ _
    "complete"%string None _ _).
  - vm_compute. reflexivity.
  - vm_compute. reflexivity.
  - right. left.
Defined.

(** ** Idempotent enqueue *)

Lemma find_key_unique key s k m :
  queue_ok s → s !! k = Some m → m_idempotency_key m = key → find_key key s = Some (k, m).
Proof.
  intros I Hm Hk. destruct (find_key key s) as [[j x]|] eqn:E.
  - apply find_key_Some in E as [Hx Ex].
    assert (j = k) as -> by (eapply (qo_key _ I); [done..|congruence]). congruence.
  - by destruct (find_key_None _ _ _ _ E Hm).
Qed.

(** The state in which the key is known decides the call. *)
Lemma enqueue_known v payload mx av now id key sha s k m :
  queue_ok s → s !! k = Some m → m_idempotency_key m = key →
  enqueue_args v payload mx = Ok (key, sha) →
  enqueue v payload mx av now id s =
    ((if bool_decide (m_payload_sha256 m = sha) && (m_max_delivery_count m =? mx)%Z
      then Ok k else Err QueueConflictError), s).
Proof.
  intros I Hm Hk Ha. pose proof (find_key_unique _ _ _ _ I Hm Hk) as Hf.
  unfold enqueue. fold (enqueue_args v payload mx).
  unfold atomically, transaction, mbind at 1, tx_bind, tx_lift. rewrite Ha.
  unfold mbind, tx_bind, tx_get. rewrite Hf. unfold tx_require, tx_lift, require.
  by destruct (bool_decide _ && _).
Qed.

(** An idempotency key names one message for ever: after an enqueue returned an
    identifier, the same enqueue at any later time returns it again and adds
    nothing, and one with other content or another delivery limit raises
    QueueConflictError. *)
Theorem enqueue_repeats v payload mx av now id s r s1 s2 :
  queue_reachable s → enqueue v payload mx av now id s = (Ok r, s1) → rtc queue_step s1 s2 →
  ∃ key sha, enqueue_args v payload mx = Ok (key, sha) ∧
    (∀ av' now' id', enqueue v payload mx av' now' id' s2 = (Ok r, s2)) ∧
    (∀ payload' mx' sha' av' now' id', enqueue_args v payload' mx' = Ok (key, sha') →
       sha' ≠ sha ∨ mx' ≠ mx →
       enqueue v payload' mx' av' now' id' s2 = (Err QueueConflictError, s2)).
Proof.
  intros R%reachable_queue_ok H St. destruct (enqueue_sound _ _ _ _ _ _ _ _ _ H R) as [I1 _].
  destruct (queue_steps_sound _ _ St I1) as [I2 F2].
  apply enqueue_Ok in H as (key&sha&Ha&_&Hcase). exists key, sha. split; [done|].
  assert (∃ m, s1 !! r = Some m ∧ m_idempotency_key m = key ∧ m_payload_sha256 m = sha ∧
    m_max_delivery_count m = mx) as (m&Hm&Hk&Hs&Hx).
  { destruct Hcase as [(m&?&?&?&?&->)|(->&_&_&_&->)]; [by exists m|].
    eexists. by rewrite lookup_insert_eq. }
  pose proof (F2 r) as Fr. rewrite Hm in Fr. apply msg_moves_kept in Fr as (m2&Hm2&[]&_).
  assert (m_idempotency_key m2 = key) by congruence. split.
  - intros. erewrite enqueue_known by done.
    rewrite bool_decide_eq_true_2, (proj2 (Z.eqb_eq _ _)) by congruence. done.
  - intros * Ha' Hd. erewrite enqueue_known by done. case_bool_decide; [|done].
    destruct (Z.eqb_spec (m_max_delivery_count m2) mx'); [|done]. destruct Hd; congruence.
Qed.

Definition enqueue0 : Q string := enqueue (VStr "k1") [] 1 None (at_ 1) "m1".
Definition enqueue0_run : result string * Messages := Eval vm_compute in enqueue0 ∅.

(** The key is known, the message is locked, and enqueue still answers "m1". *)
Lemma enqueue_repeats_witness :
  ∃ s2, enqueue (VStr "k1") [] 1 None (at_ 99) "m9" s2 = (Ok "m1"%string, s2) ∧ s2 ≠ ∅.
Proof.
  destruct enqueue0_run as [[r|e] s1] eqn:E; [|discriminate E].
  assert (H : enqueue0 ∅ = enqueue0_run) by (vm_cast_no_check (eq_refl enqueue0_run)).
  pose proof (run_all_steps [QClaim 5 (VStr "driver") (at_ 30) 1 (at_ 10) (tokens "t")] s1) as St.
  exists (run_all [QClaim 5 (VStr "driver") (at_ 30) 1 (at_ 10) (tokens "t")] s1).
  destruct (enqueue_repeats (VStr "k1") [] 1 None (at_ 1) "m1" ∅ r s1 _ (rtc_refl _ _)
    (eq_trans H E) St) as (key&sha&_&Hrep&_).
  injection E as <- <-. split; [apply Hrep|].
  intros Hne. apply (f_equal (λ s : Messages, bool_decide (is_Some (s !! "m1"%string)))) in Hne.
  vm_compute in Hne. discriminate Hne.
Defined.
