(* ===== verification/WorkerEvents.v ===== *)
(** * fabric_events.py: worker commands and their exclusive writer

    A worker appends commands to an inbox; the holder of the control lock drains
    it.  Each command is decoded, planned against the work and attempt rows and
    acknowledged by a receipt.  An instant is its number of microseconds since the
    epoch, a date its day number; a row maps column names to cells.

    [fromisoformat] (followed by the conversion to UTC) and the column [cast] of
    Spark are arguments.  The texts of messages are not modelled. *)
From Stdlib Require Import SpecFloat.
From S2P Require Export Prelude PyVal Json ControlTypes.

Module Events.

(** ** Cells and rows *)

Inductive cell :=
  | CNone
  | CBool (b : bool)
  | CInt (z : Z)
  | CFloat (f : Float)
  | CText (s : string)
  | CTime (t : Z)
  | CDate (d : Z).

(** [actual == value]: numbers compare by value, booleans are numbers. *)
Definition float_is_int (f : Float) (z : Z) : bool :=
  match f with
  | S754_zero _ => (z =? 0)%Z
  | S754_finite s m e =>
      let z' := if s then (- z)%Z else z in
      if (0 <=? e)%Z then (z' =? Zpos m * 2 ^ e)%Z else (z' * 2 ^ (- e) =? Zpos m)%Z
  | _ => false
  end.
Definition cell_int (c : cell) : option Z :=
  match c with CBool b => Some (if b then 1 else 0)%Z | CInt z => Some z | _ => None end.
Definition cell_eqb (a b : cell) : bool :=
  match a, b with
  | CNone, CNone => true
  | CText s, CText s' => String.eqb s s'
  | CTime t, CTime t' => (t =? t')%Z
  | CDate d, CDate d' => (d =? d')%Z
  | CFloat f, CFloat f' => feqb f f'
  | CFloat f, _ => match cell_int b with Some z => float_is_int f z | None => false end
  | _, CFloat f => match cell_int a with Some z => float_is_int f z | None => false end
  | _, _ => match cell_int a, cell_int b with
            | Some z, Some z' => (z =? z')%Z
            | _, _ => false
            end
  end.

Abbreviation Row := (gmap string cell).
Definition col (r : Row) (k : string) : cell := default CNone (r !! k).
(** A row with new values in some columns. *)
Definition overlay (u r : Row) : Row := u ∪ r.

Definition is_null (c : cell) : bool := match c with CNone => true | _ => false end.
Definition is_text (s : string) (c : cell) : bool :=
  match c with CText s' => String.eqb s s' | _ => false end.
Definition mem (s : string) (l : list string) : bool := existsb (String.eqb s) l.
Arguments mem : simpl never.
Definition text_in (c : cell) (l : list string) : bool :=
  match c with CText s => mem s l | _ => false end.

Local Open Scope string_scope.

Definition _ACTIVE : list string := ["LEASED"; "STAGING"; "RUNNING"; "WRITING"].
Definition _TEXT_FIELDS : list string :=
  ["pipeline_run_id"; "activity_run_id"; "fabric_job_instance_id"; "sdk_version";
   "bundle_manifest_sha256"; "input_sha256"; "error_category"; "error_type"; "error_message"].
Definition _TIME_FIELDS : list string :=
  ["staging_started_at"; "inference_started_at"; "writing_started_at"; "completed_at";
   "last_heartbeat_at"].
Definition _INT_FIELDS : list string :=
  ["source_size_bytes"; "total_source_frames"; "processed_frames"; "distinct_people";
   "line_in_count"; "line_out_count"].
Definition _FLOAT_FIELDS : list string :=
  ["source_duration_seconds"; "source_fps"; "effective_sample_fps"; "processing_seconds"].
Definition _UPDATE_FIELDS : list string :=
  _TEXT_FIELDS ++ _TIME_FIELDS ++ _INT_FIELDS ++ _FLOAT_FIELDS ++ ["status"; "retryable"].
Definition _FAILURE_FIELDS : list string :=
  ["error_category"; "error_type"; "error_message"; "retryable"; "lease_lost";
   "processed_frames"; "processing_seconds"].
Definition _LEASE_CLEAR : Row :=
  {["lease_owner_attempt_id" := CNone; "lease_dispatcher_id" := CNone;
    "lease_acquired_at" := CNone; "lease_expires_at" := CNone]}.

(** ** Instants *)

(** datetime.min and datetime.max in UTC. *)
Definition datetime_min : Z := -62135596800000000.
Definition datetime_max : Z := 253402300799999999.
(** [t + timedelta(minutes=m)]. *)
Definition add_minutes (t m : Z) : result Z :=
  let r := (t + m * 60000000)%Z in
  if (datetime_min <=? r)%Z && (r <=? datetime_max)%Z then Ok r else Err OverflowError.

(** ** Table names *)

Definition is_letter (c : Z) : bool :=
  ((65 <=? c) && (c <=? 90))%Z || ((97 <=? c) && (c <=? 122))%Z || (c =? 95)%Z.
Definition is_identifier (s : string) : bool :=
  match codes_of_str s with
  | [] => false
  | c :: l => is_letter c && forallb (λ c, is_letter c || ((48 <=? c) && (c <=? 57))%Z) l
  end.
Definition _tables (table_prefix database : string) : result (list (string * string)) :=
  require (is_identifier table_prefix) ValueError;;
  require (String.eqb database "" || is_identifier database) ValueError;;
  let prefix := if String.eqb database "" then "" else database +:+ "." in
  Ok ((λ suffix, (suffix, prefix +:+ table_prefix +:+ "_" +:+ suffix))
      <$> ["video_work"; "video_attempts"; "worker_events"; "worker_event_receipts"]).

(** ** Commands *)

Definition _text (v : option string) : result string :=
  match v with
  | Some s => if is_blank s then Err ValueError else Ok s
  | None => Err ValueError
  end.
Definition _positive_int (v : option Z) : result Z :=
  match v with
  | Some z => if (z <? 1)%Z then Err ValueError else Ok z
  | None => Err ValueError
  end.

Record Failure := {
  fl_error_category : string;
  fl_error_type : string;
  fl_error_message : string;
  fl_retryable : bool;
  fl_lease_lost : bool;
  fl_measures : Row;                   (* processed_frames, processing_seconds *)
}.

(** A payload that [_validate_payload] accepted, by kind. *)
Inductive Payload :=
  | PClaim
  | PCommit
  | PUpdate (updates : Row)
  | PHeartbeat (status : string) (updates : Row)
  | PFailure (f : Failure)
  | PRelease (reason : string).

Record Command := {
  cm_event_id : string;
  cm_work_id : string;
  cm_attempt_id : string;
  cm_worker_execution_id : string;
  cm_capture_date : Z;
  cm_sequence : Z;
  cm_payload : Payload;
  cm_created_at : Z;
  cm_lease_minutes : Z;
}.

(** A row of the inbox; every column is nullable. *)
Record EventRow := {
  ev_event_id : option string;
  ev_work_id : option string;
  ev_attempt_id : option string;
  ev_worker_execution_id : option string;
  ev_capture_date : option Z;
  ev_sequence : option Z;
  ev_event_kind : option string;
  ev_payload_json : option string;
  ev_created_at : option Z;
}.

Section decoding.
Context (fromisoformat : string → result Z).

(** [_timestamp]: an ISO text or an instant. *)
Definition _timestamp (c : cell) : result Z :=
  match c with
  | CText s => fromisoformat s
  | CTime t => Ok t
  | _ => Err ValueError
  end.

(** The test of one update value; the value as a cell. *)
Definition validate_update (name : string) (value : pyval) : result cell :=
  match value with
  | VNone => if String.eqb name "status" then Err ValueError else Ok CNone
  | _ =>
    if mem name _TIME_FIELDS then
      match value with
      | VStr s => fromisoformat s;; Ok (CText s)
      | _ => Err ValueError
      end
    else if mem name _INT_FIELDS then
      match value with
      | VInt z => if (0 <=? z)%Z && (z <=? 2 ^ 63 - 1)%Z then Ok (CInt z) else Err ValueError
      | _ => Err ValueError
      end
    else if mem name _FLOAT_FIELDS then
      match value with
      | VInt z =>
          f ← py_float_of_int z;
          if negb (fisfinite f) || (z <? 0)%Z then Err ValueError else Ok (CInt z)
      | VFloat f =>
          if negb (fisfinite f) || fltb f fzero then Err ValueError else Ok (CFloat f)
      | _ => Err ValueError
      end
    else if String.eqb name "retryable" then
      match value with VBool b => Ok (CBool b) | _ => Err ValueError end
    else
      match value with VStr s => Ok (CText s) | _ => Err ValueError end
  end.

Fixpoint validate_items (l : list (string * pyval)) : result (list (string * cell)) :=
  match l with
  | [] => Ok []
  | (name, value) :: l' =>
      c ← validate_update name value; cs ← validate_items l'; Ok ((name, c) :: cs)
  end.

(** The updates, once they are all valid. *)
Definition _validate_updates (updates : pyval) : result Row :=
  match updates with
  | VDict d =>
      require (forallb (λ x : string * pyval, mem x.1 _UPDATE_FIELDS) d) ValueError;;
      l ← validate_items d;
      Ok (list_to_map l)
  | _ => Err ValueError
  end.

(** [payload.keys() == expected]. *)
Definition keys_are (d : list (string * pyval)) (expected : list string) : bool :=
  forallb (λ x : string * pyval, mem x.1 expected) d && forallb (λ k, mem k d.*1) expected.

Definition error_metadata : list string :=
  ["retryable"; "error_category"; "error_type"; "error_message"].

Definition validated_updates (d : list (string * pyval)) : result Row :=
  u ← _validate_updates (dict_get "updates" d);
  require (forallb (λ k, is_null (col u k)) error_metadata) ValueError;;
  Ok u.

Definition pyval_text (v : pyval) : option string :=
  match v with VStr s => Some s | _ => None end.
Definition pyval_int (v : pyval) : option Z :=
  match v with VInt z => Some z | _ => None end.
Definition pyval_bool (v : pyval) : result bool :=
  match v with VBool b => Ok b | _ => Err ValueError end.

Definition _validate_payload (kind : option string) (payload : pyval) : result Payload :=
  kind ← match kind with
         | Some k => if mem k ["claim_execution"; "heartbeat"; "attempt_update"; "commit";
                               "failure"; "release"] then Ok k else Err ValueError
         | None => Err ValueError
         end;
  d ← match payload with VDict d => Ok d | _ => Err ValueError end;
  if String.eqb kind "claim_execution" then require (keys_are d []) ValueError;; Ok PClaim
  else if String.eqb kind "commit" then require (keys_are d []) ValueError;; Ok PCommit
  else if String.eqb kind "attempt_update" then
    require (keys_are d ["updates"]) ValueError;;
    u ← validated_updates d;
    Ok (PUpdate u)
  else if String.eqb kind "heartbeat" then
    require (keys_are d ["status"; "updates"]) ValueError;;
    u ← validated_updates d;
    status ← match dict_get "status" d with
             | VStr s => if mem s _ACTIVE then Ok s else Err ValueError
             | _ => Err ValueError
             end;
    require (match u !! "status" with Some c => is_text status c | None => true end) ValueError;;
    require (bool_decide (u !! "completed_at" = None)) ValueError;;
    Ok (PHeartbeat status u)
  else if String.eqb kind "failure" then
    require (keys_are d _FAILURE_FIELDS) ValueError;;
    category ← _text (pyval_text (dict_get "error_category" d));
    type ← _text (pyval_text (dict_get "error_type" d));
    message ← match dict_get "error_message" d with VStr s => Ok s | _ => Err ValueError end;
    retryable ← pyval_bool (dict_get "retryable" d);
    lease_lost ← pyval_bool (dict_get "lease_lost" d);
    measures ← _validate_updates (VDict
      [("processed_frames", dict_get "processed_frames" d);
       ("processing_seconds", dict_get "processing_seconds" d)]);
    Ok (PFailure {| fl_error_category := category; fl_error_type := type;
                    fl_error_message := message; fl_retryable := retryable;
                    fl_lease_lost := lease_lost; fl_measures := measures |})
  else
    require (keys_are d ["reason"]) ValueError;;
    reason ← _text (pyval_text (dict_get "reason" d));
    Ok (PRelease reason).

Definition from_row (row : EventRow) : result Command :=
  envelope ← match ev_payload_json row with Some s => json_loads_text s | None => Err TypeError end;
  d ← match envelope with
      | VDict d => if keys_are d ["payload"; "lease_minutes"] then Ok d else Err ValueError
      | _ => Err ValueError
      end;
  payload ← _validate_payload (ev_event_kind row) (dict_get "payload" d);
  capture_date ← match ev_capture_date row with Some x => Ok x | None => Err ValueError end;
  event_id ← _text (ev_event_id row);
  work_id ← _text (ev_work_id row);
  attempt_id ← _text (ev_attempt_id row);
  worker ← _text (ev_worker_execution_id row);
  sequence ← _positive_int (ev_sequence row);
  created_at ← match ev_created_at row with Some t => Ok t | None => Err ValueError end;
  lease_minutes ← _positive_int (pyval_int (dict_get "lease_minutes" d));
  Ok {| cm_event_id := event_id; cm_work_id := work_id; cm_attempt_id := attempt_id;
        cm_worker_execution_id := worker; cm_capture_date := capture_date;
        cm_sequence := sequence; cm_payload := payload; cm_created_at := created_at;
        cm_lease_minutes := lease_minutes |}.

End decoding.

(** ** Plans *)

Record Plan := {
  pl_work : Row;
  pl_attempt : Row;
}.
Definition plan (work attempt : Row) : Plan := {| pl_work := work; pl_attempt := attempt |}.
(** A plan without updates: the command was applied before. *)
Definition already_applied : Plan := plan ∅ ∅.

Definition _require (condition : bool) : result unit := require condition Rejected.

(** Every update is already in the row. *)
Definition _matches (row updates : Row) : bool :=
  forallb (λ x : string * cell, cell_eqb (col row x.1) x.2) (map_to_list updates).

Definition _identity (c : Command) (work attempt : Row) : result unit :=
  _require (is_text (cm_work_id c) (col work "work_id")
            && is_text (cm_work_id c) (col attempt "work_id")
            && is_text (cm_attempt_id c) (col attempt "attempt_id")
            && cell_eqb (col work "capture_date") (CDate (cm_capture_date c))
            && cell_eqb (col attempt "capture_date") (CDate (cm_capture_date c)));;
  _require (match col work "config_sha256" with
            | CText s => negb (String.eqb s "") && is_text s (col attempt "config_sha256")
            | _ => false
            end).

Definition _owner (c : Command) (work attempt : Row) : result unit :=
  _require (is_null (col work "committed_attempt_id"));;
  _require (is_text (cm_attempt_id c) (col work "lease_owner_attempt_id"));;
  _require (cell_eqb (col work "lease_dispatcher_id") (col attempt "dispatcher_id"));;
  _require (text_in (col work "status") _ACTIVE).

(** A timestamp column holds an instant or NULL. *)
Definition instant (c : cell) : option Z := match c with CTime t => Some t | _ => None end.

(** The command was issued under the lease that the work has now. *)
Definition within_lease (c : Command) (work : Row) : result unit :=
  _require (match instant (col work "lease_acquired_at") with
            | Some t => (t <=? cm_created_at c)%Z
            | None => false
            end).

Definition _live (c : Command) (work : Row) (now : Z) : result unit :=
  _require (match instant (col work "lease_expires_at") with
            | Some t => (Z.max now (cm_created_at c) <? t)%Z
            | None => false
            end);;
  within_lease c work;;
  _require (cm_created_at c <=? now)%Z.

Fixpoint index_of (s : string) (l : list string) : Z :=
  match l with [] => 0 | x :: l' => if String.eqb s x then 0 else 1 + index_of s l' end.

Definition _transition (current : cell) (target : string) : result unit :=
  _require (text_in current _ACTIVE && mem target _ACTIVE);;
  match current with
  | CText s =>
      let distance := (index_of target _ACTIVE - index_of s _ACTIVE)%Z in
      _require ((distance =? 0)%Z || (distance =? 1)%Z)
  | _ => Err Rejected
  end.

Section planning.
Context (fromisoformat : string → result Z).

(** The update values, the times normalised to instants. *)
Fixpoint normalise_times (l : list (string * cell)) : result (list (string * cell)) :=
  match l with
  | [] => Ok []
  | (name, value) :: l' =>
      value ← (if mem name _TIME_FIELDS && negb (is_null value)
               then CTime <$> _timestamp fromisoformat value else Ok value);
      rest ← normalise_times l';
      Ok ((name, value) :: rest)
  end.

Definition _attempt_updates (updates : Row) (created_at : Z) : result Row :=
  l ← normalise_times (map_to_list updates);
  let u : Row := list_to_map l in
  let u := if bool_decide (is_Some (u !! "last_heartbeat_at"))
           then <["last_heartbeat_at" := CTime created_at]> u else u in
  Ok (if is_text "SUCCEEDED" (col u "status") then <["completed_at" := CTime created_at]> u else u).

Definition _heartbeat (c : Command) (status : string) (raw : Row) (work attempt : Row) (now : Z)
    : result Plan :=
  u ← _attempt_updates raw (cm_created_at c);
  let updates := <["last_heartbeat_at" := CTime (cm_created_at c)]> (<["status" := CText status]> u) in
  renewed ← add_minutes (cm_created_at c) (cm_lease_minutes c);
  let expires := match instant (col work "lease_expires_at") with
                 | Some t => Z.max renewed t
                 | None => renewed
                 end in
  let work_updates : Row :=
    {["status" := CText status; "last_heartbeat_at" := CTime (cm_created_at c);
      "lease_expires_at" := CTime expires]} in
  if _matches work work_updates && _matches attempt updates then Ok already_applied else
  _live c work now;;
  _transition (col work "status") status;;
  _transition (col attempt "status") status;;
  _require (match instant (col work "last_heartbeat_at") with
            | Some t => (t <=? cm_created_at c)%Z
            | None => true
            end);;
  _require (now <? expires)%Z;;
  Ok (plan work_updates updates).

Definition _update (c : Command) (raw : Row) (work attempt : Row) (now : Z) : result Plan :=
  updates ← _attempt_updates raw (cm_created_at c);
  if is_text "SUCCEEDED" (col attempt "status") then
    _require (is_text "WRITING" (col work "status") && is_text "SUCCEEDED" (col updates "status")
              && _matches attempt updates
              && cell_eqb (col attempt "completed_at") (CTime (cm_created_at c)));;
    Ok already_applied
  else
    _live c work now;;
    _require (text_in (col attempt "status") _ACTIVE
              && cell_eqb (col attempt "status") (col work "status"));;
    let target := default (col attempt "status") (updates !! "status") in
    _require (cell_eqb target (col attempt "status")
              || (is_text "SUCCEEDED" target && is_text "WRITING" (col work "status")));;
    _require (negb (bool_decide (is_Some (updates !! "completed_at"))) || is_text "SUCCEEDED" target);;
    Ok (plan ∅ updates).

Definition _commit (c : Command) (work attempt : Row) (now : Z) : result Plan :=
  _require (is_text "SUCCEEDED" (col attempt "status"));;
  if is_text "SUCCEEDED" (col work "status")
     && is_text (cm_attempt_id c) (col work "committed_attempt_id") then Ok already_applied else
  _owner c work attempt;;
  _live c work now;;
  _require (is_text "WRITING" (col work "status"));;
  Ok (plan (overlay {["status" := CText "SUCCEEDED";
                      "committed_attempt_id" := CText (cm_attempt_id c);
                      "completed_at" := CTime (cm_created_at c); "not_before_at" := CNone;
                      "last_error_category" := CNone; "last_error_type" := CNone;
                      "last_error_message" := CNone]} _LEASE_CLEAR) ∅).

(** An integer column in arithmetic: NULL raises. *)
Definition int_col (r : Row) (k : string) : result Z :=
  match col r k with CInt z => Ok z | _ => Err TypeError end.

Definition failure_status (f : Failure) (attempt_count max_attempts : Z) : string :=
  if (max_attempts <=? attempt_count)%Z then "DEAD_LETTERED"
  else if fl_retryable f then "RETRY_WAIT" else "TERMINAL_FAILED".

(** Minutes before the next attempt. *)
Definition retry_delay (attempt_count : Z) : Z :=
  Z.min 60 (2 ^ Z.min 6 (Z.max 0 (attempt_count - 1))).

(** The status of a failed attempt. *)
Definition failed_attempt_status (f : Failure) (status : string) : string :=
  if String.eqb status "RETRY_WAIT" && fl_lease_lost f then "LEASE_LOST" else status.
Definition failure_attempt (c : Command) (f : Failure) (status : string) : Row :=
  overlay {["status" := CText (failed_attempt_status f status);
            "completed_at" := CTime (cm_created_at c);
            "error_category" := CText (fl_error_category f);
            "error_type" := CText (fl_error_type f);
            "error_message" := CText (fl_error_message f);
            "retryable" := CBool (fl_retryable f)]} (fl_measures f).
Definition failure_work (c : Command) (f : Failure) (status : string) (not_before : cell) : Row :=
  let w := overlay {["status" := CText status; "not_before_at" := not_before;
              "last_error_category" := CText (fl_error_category f);
              "last_error_type" := CText (fl_error_type f);
              "last_error_message" := CText (fl_error_message f)]} _LEASE_CLEAR in
  if String.eqb status "RETRY_WAIT" then <["queue_entered_at" := CTime (cm_created_at c)]> w else w.
(** When failed work may run again. *)
Definition failure_not_before (c : Command) (status : string) (attempt_count : Z) : result cell :=
  if String.eqb status "RETRY_WAIT"
  then CTime <$> add_minutes (cm_created_at c) (retry_delay attempt_count) else Ok CNone.

Definition _failure (c : Command) (f : Failure) (work attempt : Row) (now : Z) : result Plan :=
  attempt_count ← int_col work "attempt_count";
  max_attempts ← int_col work "max_attempts";
  let status := failure_status f attempt_count max_attempts in
  let updates := failure_attempt c f status in
  not_before ← failure_not_before c status attempt_count;
  let work_updates := failure_work c f status not_before in
  _require (is_null (col work "committed_attempt_id"));;
  if _matches work work_updates && _matches attempt updates then Ok already_applied else
  _owner c work attempt;;
  _require (cm_created_at c <=? now)%Z;;
  within_lease c work;;
  _require (text_in (col attempt "status") _ACTIVE || _matches attempt updates);;
  Ok (plan work_updates updates).

Definition released_work (c : Command) (attempt_count : Z) : Row :=
  overlay {["status" := CText "RETRY_WAIT";
            "attempt_count" := CInt (Z.max 0 (attempt_count - 1));
            "not_before_at" := CTime (cm_created_at c); "last_error_category" := CNone;
            "last_error_type" := CNone; "last_error_message" := CNone]} _LEASE_CLEAR.

Definition release_attempt (c : Command) (reason : string) : Row :=
  {["status" := CText "RELEASED"; "completed_at" := CTime (cm_created_at c);
    "retryable" := CBool true; "error_category" := CText "WORKER_BUDGET";
    "error_type" := CText "WorkerLifetimeReached"; "error_message" := CText reason]}.
(** The work row looks as after the release. *)
Definition release_seen (c : Command) (work : Row) : bool :=
  is_text "RETRY_WAIT" (col work "status")
  && is_null (col work "lease_owner_attempt_id") && is_null (col work "lease_dispatcher_id")
  && is_null (col work "lease_acquired_at") && is_null (col work "lease_expires_at")
  && match instant (col work "not_before_at") with
     | Some t => (t =? cm_created_at c)%Z
     | None => false
     end.

Definition _release (c : Command) (reason : string) (work attempt : Row) (now : Z) : result Plan :=
  let attempt_updates := release_attempt c reason in
  attempt_count ← int_col work "attempt_count";
  let attempt_applied := _matches attempt attempt_updates in
  if attempt_applied && release_seen c work then Ok already_applied else
  _owner c work attempt;;
  (if attempt_applied then _require (cm_created_at c <=? now)%Z;; within_lease c work
   else _live c work now);;
  _require (is_text "LEASED" (col work "status"));;
  _require (is_text "LEASED" (col attempt "status") || attempt_applied);;
  _require (is_null (col attempt "inference_started_at"));;
  Ok (plan (released_work c attempt_count) attempt_updates).

Definition _claim_execution (c : Command) (work attempt : Row) (now : Z) : result Plan :=
  _owner c work attempt;;
  _live c work now;;
  _require (is_text "LEASED" (col work "status") && is_text "LEASED" (col attempt "status"));;
  _require (is_null (col attempt "worker_execution_id")
            || is_text (cm_worker_execution_id c) (col attempt "worker_execution_id"));;
  Ok (plan ∅ {["worker_execution_id" := CText (cm_worker_execution_id c)]}).

Definition _plan (c : Command) (work attempt : Row) (now : Z) : result Plan :=
  _identity c work attempt;;
  match cm_payload c with
  | PClaim => _claim_execution c work attempt now
  | _ =>
    _require (is_text (cm_worker_execution_id c) (col attempt "worker_execution_id"));;
    match cm_payload c with
    | PCommit => _commit c work attempt now
    | PFailure f => _failure c f work attempt now
    | PRelease reason => _release c reason work attempt now
    | PHeartbeat status u => _owner c work attempt;; _heartbeat c status u work attempt now
    | PUpdate u => _owner c work attempt;; _update c u work attempt now
    | PClaim => Err Rejected
    end
  end.

End planning.

(** ** The Delta tables *)

Inductive Outcome := APPLIED | REJECTED.
#[export] Instance Outcome_eq_dec : EqDecision Outcome.
Proof. solve_decision. Defined.

Record Receipt := {
  rc_event_id : option string;
  rc_work_id : option string;
  rc_attempt_id : option string;
  rc_worker_execution_id : option string;
  rc_sequence : option Z;
  rc_outcome : Outcome;
  rc_applied_at : Z;
}.

Record Lake := {
  video_work : list Row;
  video_attempts : list Row;
  worker_events : list EventRow;
  receipts : list Receipt;
}.
Definition E (A : Type) : Type := tx Lake A.

Inductive Table := Work | Attempts.
Definition rows (t : Table) (l : Lake) : list Row :=
  match t with Work => video_work l | Attempts => video_attempts l end.
Definition set_rows (t : Table) (r : list Row) (l : Lake) : Lake :=
  match t with
  | Work => {| l with video_work := r |}
  | Attempts => {| l with video_attempts := r |}
  end.

(** SQL equality of a nullable column with a value. *)
Definition same_id (a b : option string) : bool :=
  match a, b with Some x, Some y => String.eqb x y | _, _ => false end.

(** NULLs sort first. *)
Definition opt_lt {A} (lt : A → A → bool) (a b : option A) : bool :=
  match a, b with
  | None, Some _ => true
  | Some x, Some y => lt x y
  | _, None => false
  end.
Definition str_ltb (a b : string) : bool := negb (str_leb b a).

(** orderBy(created_at, worker_execution_id, sequence, event_id): not after. *)
Definition event_order (x y : EventRow) : bool :=
  let lex (lt gt rest : bool) := lt || (negb gt && rest) in
  lex (opt_lt Z.ltb (ev_created_at x) (ev_created_at y))
      (opt_lt Z.ltb (ev_created_at y) (ev_created_at x))
  (lex (opt_lt str_ltb (ev_worker_execution_id x) (ev_worker_execution_id y))
       (opt_lt str_ltb (ev_worker_execution_id y) (ev_worker_execution_id x))
  (lex (opt_lt Z.ltb (ev_sequence x) (ev_sequence y))
       (opt_lt Z.ltb (ev_sequence y) (ev_sequence x))
       (negb (opt_lt str_ltb (ev_event_id y) (ev_event_id x))))).

(** Inbox rows without a receipt, in order. *)
Definition unacknowledged (l : Lake) : list EventRow :=
  List.filter (λ e, negb (existsb (λ r, same_id (rc_event_id r) (ev_event_id e)) (receipts l)))
    (worker_events l).
Definition pending (limit : nat) (l : Lake) : list EventRow :=
  take limit (order_by event_order (unacknowledged l)).

(** The one row whose column [key] is [value]. *)
Definition unique (t : Table) (key : string) (value : string) : E Row :=
  l ← tx_get;
  match List.filter (λ r : Row, is_text value (col r key)) (rows t l) with
  | [r] => mret r
  | _ => tx_raise Rejected
  end.

(** [_read_receipt]: more than one row is an error. *)
Definition receipt (event_id : option string) : E (option Receipt) :=
  l ← tx_get;
  match List.filter (λ r, same_id (rc_event_id r) event_id) (receipts l) with
  | [] => mret None
  | [r] => mret (Some r)
  | _ => tx_raise RuntimeError
  end.

Definition acknowledged_sequences (row : EventRow) (l : Lake) : list Z :=
  omap rc_sequence (List.filter (λ r,
    same_id (rc_work_id r) (ev_work_id row) && same_id (rc_attempt_id r) (ev_attempt_id row)
    && same_id (rc_worker_execution_id r) (ev_worker_execution_id row)) (receipts l)).
Definition highest_sequence (row : EventRow) (l : Lake) : Z :=
  match acknowledged_sequences row l with
  | [] => 0
  | z :: zs => fold_left Z.max zs z
  end.

Definition table_keys (t : Table) : list string :=
  ["work_id"; "capture_date"; "config_sha256"; "status"] ++
  match t with
  | Work => ["lease_owner_attempt_id"; "lease_dispatcher_id"; "lease_acquired_at";
             "lease_expires_at"; "committed_attempt_id"; "attempt_count"; "max_attempts"]
  | Attempts => ["attempt_id"; "worker_execution_id"; "dispatcher_id"]
  end.
Definition table_identity (t : Table) : string :=
  match t with Work => "work_id" | Attempts => "attempt_id" end.

(** eqNullSafe. *)
Definition null_safe_eqb (a b : cell) : bool :=
  match a, b with CNone, CNone => true | CNone, _ | _, CNone => false | _, _ => cell_eqb a b end.

Section applying.
Context (fromisoformat : string → result Z).
Context (cast : Table → string → cell → cell).

(** The readings of the clock while one event is applied: for the plan, by the
    two conditional updates, by their checks, and for the receipt. *)
Record Clock := { k_plan : Z; k_write : Z; k_check : Z; k_receipt : Z }.

Definition live_write (t : Table) (updates : Row) : bool :=
  match t with
  | Work => text_in (col updates "status") ("SUCCEEDED" :: _ACTIVE)
  | Attempts => false
  end.

Definition update_condition (t : Table) (before updates : Row) (now : Z) (r : Row) : bool :=
  forallb (λ k, null_safe_eqb (col r k) (col before k)) (table_keys t)
  && (negb (live_write t updates)
      || (match instant (col r "lease_expires_at") with Some e => (now <? e)%Z | None => false end
          && match instant (col updates "lease_expires_at") with
             | Some e => (now <? e)%Z
             | None => true
             end)).

Definition cast_row (t : Table) (updates : Row) : Row := map_imap (λ k c, Some (cast t k c)) updates.

(** The key value of a row for [unique]. *)
Definition key_text (r : Row) (k : string) : string :=
  match col r k with CText s => s | _ => "" end.

Definition update (t : Table) (before updates : Row) (k : Clock) : E unit :=
  if bool_decide (updates = ∅) then mret tt else
  tx_modify (λ l, set_rows t ((λ r, if update_condition t before updates (k_write k) r
                                    then overlay (cast_row t updates) r else r) <$> rows t l) l);;
  after ← unique t (table_identity t) (key_text before (table_identity t));
  tx_require (_matches after updates) RuntimeError.

Definition append_receipts (new : list Receipt) : E unit :=
  tx_modify (λ l, {| l with receipts := receipts l ++ new |}).

Definition make_receipt (row : EventRow) (o : Outcome) (k : Clock) : Receipt := {|
  rc_event_id := ev_event_id row; rc_work_id := ev_work_id row;
  rc_attempt_id := ev_attempt_id row; rc_worker_execution_id := ev_worker_execution_id row;
  rc_sequence := ev_sequence row; rc_outcome := o; rc_applied_at := k_receipt k |}.

(** The plan of a decoded command, with the rows it was made from. *)
Definition plan_command (row : EventRow) (c : Command) (now : Z) : E (Row * Row * Plan) :=
  l ← tx_get;
  tx_require (highest_sequence row l <? cm_sequence c)%Z Rejected;;
  work ← unique Work "work_id" (cm_work_id c);
  attempt ← unique Attempts "attempt_id" (cm_attempt_id c);
  p ← tx_lift (_plan fromisoformat c work attempt now);
  mret (work, attempt, p).

Definition _apply_event (row : EventRow) (k : Clock) : E Receipt := λ l,
  match from_row fromisoformat row with
  | Err ValueError | Err JSONDecodeError | Err TypeError => (Ok (make_receipt row REJECTED k), l)
  | Err e => (Err e, l)
  | Ok c =>
      match plan_command row c (k_plan k) l with
      | (Err Rejected, l') => (Ok (make_receipt row REJECTED k), l')
      | (Err e, l') => (Err e, l')
      | (Ok (work, attempt, p), l') =>
          (update Attempts attempt (pl_attempt p) k;;
           update Work work (pl_work p) k;;
           mret (make_receipt row APPLIED k)) l'
      end
  end.

(** The local variables of [_drain]. *)
Record Draining := {
  d_processed : Z;
  d_applied : Z;
  d_rejected : Z;
  d_batch : list Receipt;
  d_works : list (option string);
  d_attempts : list (option string);
  d_seen : list (option string);
}.

Definition drained (row : EventRow) (r : Receipt) (d : Draining) : Draining := {|
  d_processed := (d_processed d + 1)%Z;
  d_applied := (d_applied d + if bool_decide (rc_outcome r = APPLIED) then 1 else 0)%Z;
  d_rejected := (d_rejected d + if bool_decide (rc_outcome r = REJECTED) then 1 else 0)%Z;
  d_batch := d_batch d ++ [r];
  d_works := ev_work_id row :: d_works d;
  d_attempts := ev_attempt_id row :: d_attempts d;
  d_seen := ev_event_id row :: d_seen d |}.

Definition flushed (d : Draining) : Draining :=
  {| d with d_batch := []; d_works := []; d_attempts := [] |}.

(** One turn of the loop. *)
Definition drain_row (row : EventRow) (k : Clock) (d : Draining) : E Draining :=
  if bool_decide (ev_event_id row ∈ d_seen d) then mret d else
  known ← receipt (ev_event_id row);
  if bool_decide (is_Some known) then mret d else
  d ← (if bool_decide (ev_work_id row ∈ d_works d) || bool_decide (ev_attempt_id row ∈ d_attempts d)
       then append_receipts (d_batch d);; mret (flushed d)
       else mret d);
  r ← _apply_event row k;
  mret (drained row r d).

Fixpoint drain_loop (l : list EventRow) (clocks : nat → Clock) (d : Draining) : E Draining :=
  match l with
  | [] => mret d
  | row :: l' => d' ← drain_row row (clocks 0%nat) d; drain_loop l' (λ i, clocks (S i)) d'
  end.

Definition draining0 : Draining := {|
  d_processed := 0; d_applied := 0; d_rejected := 0; d_batch := []; d_works := [];
  d_attempts := []; d_seen := [] |}.

Definition _drain (limit : nat) (clocks : nat → Clock) : E Draining :=
  l ← tx_get;
  d ← drain_loop (pending limit l) clocks draining0;
  (match d_batch d with [] => mret tt | batch => append_receipts batch end);;
  mret d.

End applying.

End Events.
