(* ===== verification/WorkerEventsTheorems.v ===== *)
(** * Correctness of the worker commands

    Plans fence on the lease, keep the work state machine, and can be replayed
    after a crash of the writer; draining acknowledges every command once. *)
From S2P Require Export Prelude PyVal ControlTypes WorkerEvents.
Import Events.
Local Open Scope string_scope.

(** ** Rows *)

Lemma col_overlay u r k : col (overlay u r) k = match u !! k with Some c => c | None => col r k end.
Proof.
  unfold col, overlay. destruct (u !! k) as [c|] eqn:E.
  - by rewrite (lookup_union_Some_l _ _ _ _ E).
  - by rewrite lookup_union_r.
Qed.

Lemma overlay_empty r : overlay ∅ r = r.
Proof. apply (left_id_L ∅ (∪)). Qed.

Lemma overlay_twice u r : overlay u (overlay u r) = overlay u r.
Proof. unfold overlay. by rewrite (assoc_L (∪)), (idemp_L (∪)). Qed.

(** The cells that equal themselves: all but NaN. *)
Definition sane (u : Row) : Prop := ∀ k c, u !! k = Some c → cell_eqb c c = true.

Lemma cell_eqb_refl c : (∀ f, c = CFloat f → fisnan f = false) → cell_eqb c c = true.
Proof.
  destruct c as [|[]|z|f|s|t|d]; simpl; intros H; try done; try apply Z.eqb_refl.
  - apply feqb_refl. by apply H.
  - apply String.eqb_refl.
Qed.

Lemma sane_insert k c u : cell_eqb c c = true → sane u → sane (<[k := c]> u).
Proof. intros Hc S j x [[<- <-]|[_ Hx]]%lookup_insert_Some; [done|by eapply S]. Qed.
Lemma sane_singleton k c : cell_eqb c c = true → sane {[k := c]}.
Proof. intros Hc j x [<- <-]%lookup_singleton_Some. done. Qed.
Lemma sane_overlay u r : sane u → sane r → sane (overlay u r).
Proof. intros Hu Hr k c [Hk|[_ Hk]]%lookup_union_Some_raw; [by eapply Hu|by eapply Hr]. Qed.

Lemma cell_text_refl s : cell_eqb (CText s) (CText s) = true.
Proof. apply String.eqb_refl. Qed.
Lemma cell_time_refl t : cell_eqb (CTime t) (CTime t) = true.
Proof. apply Z.eqb_refl. Qed.
Lemma cell_int_refl z : cell_eqb (CInt z) (CInt z) = true.
Proof. apply Z.eqb_refl. Qed.
Lemma cell_bool_refl b : cell_eqb (CBool b) (CBool b) = true.
Proof. by destruct b. Qed.
Lemma cell_none_refl : cell_eqb CNone CNone = true.
Proof. done. Qed.

Create HintDb sane.
#[export] Hint Resolve sane_insert sane_singleton sane_overlay cell_text_refl cell_time_refl
  cell_int_refl cell_bool_refl cell_none_refl : sane.

(** Equal up to Python's [==] in every column. *)
Definition row_equiv (r r' : Row) : Prop :=
  ∀ k, col r k = col r' k ∨ cell_eqb (col r k) (col r' k) = true.

#[export] Instance row_equiv_refl : Reflexive row_equiv.
Proof. intros r k. by left. Qed.

Lemma matches_spec r u :
  _matches r u = true ↔ ∀ k c, u !! k = Some c → cell_eqb (col r k) c = true.
Proof.
  unfold _matches. rewrite forallb_forall. split.
  - intros H k c Hk. apply (H (k, c)). by apply list_elem_of_In, elem_of_map_to_list.
  - intros H [k c] Hx%list_elem_of_In%elem_of_map_to_list. by apply H.
Qed.

Lemma matches_equiv r u : _matches r u = true → row_equiv r (overlay u r).
Proof.
  rewrite matches_spec. intros H k. rewrite col_overlay. destruct (u !! k) eqn:E; [right|by left].
  by apply H.
Qed.

Lemma matches_overlay u r : sane u → _matches (overlay u r) u = true.
Proof. intros Hs. apply matches_spec. intros k c Hk. rewrite col_overlay, Hk. by eapply Hs. Qed.

(** ** Requirements *)

Lemma _require_Ok b u : _require b = Ok u ↔ b = true.
Proof. apply require_Ok. Qed.

Lemma require_then {A} b (m : result A) : b = true → (_require b;; m) = m.
Proof. by intros ->. Qed.

Ltac req_inv H :=
  lazymatch type of H with
  | _ ≫= _ = Ok _ =>
      let Hs := fresh "Hs" in
      apply result_bind_Ok in H; destruct H as (? & Hs & H); req_inv Hs; req_inv H
  | _require _ = Ok _ => apply _require_Ok in H
  | require _ _ = Ok _ => apply require_Ok in H
  | _ => idtac
  end.

Lemma is_text_true s c : is_text s c = true ↔ c = CText s.
Proof.
  destruct c; simpl; split; try done.
  - intros ->%String.eqb_eq. done.
  - intros [= ->]. apply String.eqb_refl.
Qed.

(** Whether an update touches a column. *)
Lemma col_untouched u r k : u !! k = None → col (overlay u r) k = col r k.
Proof. intros H. by rewrite col_overlay, H. Qed.

(** Updates of a payload: allowed columns, no NaN. *)
Record updates_ok (u : Row) : Prop := {
  uo_sane : sane u;
  uo_fields : ∀ k, is_Some (u !! k) → mem k _UPDATE_FIELDS = true;
}.

Definition payload_ok (p : Payload) : Prop :=
  match p with
  | PUpdate u => updates_ok u
  | PHeartbeat status u => updates_ok u ∧ mem status _ACTIVE = true
  | PFailure f => updates_ok (fl_measures f)
  | _ => True
  end.

Lemma updates_untouched u k : updates_ok u → mem k _UPDATE_FIELDS = false → u !! k = None.
Proof.
  intros [_ H] Hk. destruct (u !! k) eqn:E; [|done]. rewrite H in Hk; [done|by rewrite E].
Qed.

(** ** Decoded payloads are valid *)

Section decoding.
Context (fromisoformat : string → result Z).

Lemma validate_update_sane name v c :
  validate_update fromisoformat name v = Ok c → cell_eqb c c = true.
Proof.
  intros H. apply cell_eqb_refl. intros f ->. unfold validate_update in H.
  destruct v; repeat case_match; simplify_eq/=; try done.
  - destruct (py_float_of_int z); simpl in H; [by case_match|done].
  - apply fisfinite_not_nan. by match goal with E : _ || _ = false |- _ =>
      apply orb_false_iff in E as [E%negb_false_iff _] end.
  - by destruct (fromisoformat s).
Qed.

Lemma validate_items_spec d l :
  validate_items fromisoformat d = Ok l →
  l.*1 = d.*1 ∧ ∀ k c, (k, c) ∈ l → cell_eqb c c = true ∧ k ∈ d.*1.
Proof.
  revert l. induction d as [|[name v] d IH]; intros l H; simpl in H.
  - injection H as <-. split; [done|]. intros k c Hin. by inversion Hin.
  - req_inv H. injection H as <-. destruct (IH _ Hs0) as [E HI]. split; [by rewrite !fmap_cons, E|].
    intros k c [[= -> ->]|Hin]%elem_of_cons; simpl.
    + split; [by eapply validate_update_sane|by left].
    + destruct (HI k c Hin). split; [done|by right].
Qed.

Lemma validate_updates_ok v u : _validate_updates fromisoformat v = Ok u → updates_ok u.
Proof.
  unfold _validate_updates. destruct v; try done. intros H. req_inv H. injection H as <-.
  destruct (validate_items_spec _ _ Hs0) as [_ HI]. split.
  - intros k c Hk%elem_of_list_to_map_2. by apply (HI k c).
  - intros k [c Hk%elem_of_list_to_map_2]. destruct (HI k c Hk) as [_ Hin].
    apply list_elem_of_fmap in Hin as (y&->&Hy%list_elem_of_In).
    rewrite forallb_forall in Hs. by apply Hs.
Qed.

Lemma validate_payload_ok kind v p : _validate_payload fromisoformat kind v = Ok p → payload_ok p.
Proof.
  unfold _validate_payload. intros H. req_inv H.
  repeat (case_match; [req_inv H; injection H as <-; try done|]).
  - unfold validated_updates in *. req_inv Hs2. simplify_eq. by eapply validate_updates_ok.
  - unfold validated_updates in *. req_inv Hs2. simplify_eq. split; [by eapply validate_updates_ok|].
    repeat case_match; by simplify_eq.
  - by eapply validate_updates_ok.
  - req_inv H. by injection H as <-.
Qed.

Lemma from_row_ok row c : from_row fromisoformat row = Ok c → payload_ok (cm_payload c).
Proof.
  unfold from_row. intros H. req_inv H. injection H as <-. by eapply validate_payload_ok.
Qed.

(** The normalised updates keep the columns. *)
Lemma normalise_times_spec l l' :
  normalise_times fromisoformat l = Ok l' →
  Forall2 (λ x y, x.1 = y.1 ∧ (y.2 = x.2 ∨ ∃ t, y.2 = CTime t)) l l'.
Proof.
  revert l'. induction l as [|[name v] l IH]; intros l' H; simpl in H; req_inv H; injection H as <-;
    constructor.
  - split; [done|]. simpl. case_match; simplify_eq; [|by left].
    destruct (_timestamp fromisoformat v); simplify_eq/=. eauto.
  - by apply IH.
Qed.

Lemma attempt_updates_ok u t u' :
  _attempt_updates fromisoformat u t = Ok u' → updates_ok u → updates_ok u'.
Proof.
  unfold _attempt_updates. intros H U. req_inv H. injection H as <-.
  apply normalise_times_spec in Hs. rename x into l.
  assert (updates_ok (list_to_map l)) as Ul.
  { split.
    - intros k c Hk%elem_of_list_to_map_2. apply list_elem_of_lookup in Hk as [i Hi].
      eapply Forall2_lookup_r in Hs as ([k0 c0]&Hk0&E1&E2); [|exact Hi]. simpl in *. subst k0.
      apply list_elem_of_lookup_2, elem_of_map_to_list in Hk0.
      destruct E2 as [->|[t' ->]]; [by eapply (uo_sane _ U)|apply Z.eqb_refl].
    - intros k [c Hk%elem_of_list_to_map_2]. apply list_elem_of_lookup in Hk as [i Hi].
      eapply Forall2_lookup_r in Hs as ([k0 c0]&Hk0&E1&E2); [|exact Hi]. simpl in *. subst k0.
      apply list_elem_of_lookup_2, elem_of_map_to_list in Hk0. eapply (uo_fields _ U). by rewrite Hk0. }
  assert (∀ k v, mem k _UPDATE_FIELDS = true → ∀ u0, updates_ok u0 → updates_ok (<[k := CTime v]> u0))
    as Hins.
  { intros k v Hk u0 [S F]. split.
    - intros k' c [[<- <-]|[? ?]]%lookup_insert_Some; [apply Z.eqb_refl|by eapply S].
    - intros k' [c [[<- <-]|[? ?]]%lookup_insert_Some]; [done|apply F; eauto]. }
  case_bool_decide; case_match; auto.
Qed.
End decoding.

(** ** Replaying a command *)

(** The lease of the work still runs. *)
Definition lease_runs (work : Row) (now : Z) : bool :=
  match instant (col work "lease_expires_at") with Some t => (now <? t)%Z | None => false end.

(** The writer stopped after it had written the attempt row, or both rows, of a
    plan: planning again and writing again gives the rows of the full plan. *)
Definition replays (f : Row → Row → result Plan) (work attempt : Row) (p : Plan) : Prop :=
  let work' := overlay (pl_work p) work in
  let attempt' := overlay (pl_attempt p) attempt in
  (∃ p1, f work attempt' = Ok p1 ∧ row_equiv (overlay (pl_work p1) work) work' ∧
     row_equiv (overlay (pl_attempt p1) attempt') attempt') ∧
  (∃ p2, f work' attempt' = Ok p2 ∧ row_equiv (overlay (pl_work p2) work') work' ∧
     row_equiv (overlay (pl_attempt p2) attempt') attempt').

Lemma replays_same (f : Row → Row → result Plan) work attempt p :
  f work (overlay (pl_attempt p) attempt) = Ok p → f (overlay (pl_work p) work)
    (overlay (pl_attempt p) attempt) = Ok p → replays f work attempt p.
Proof. intros H1 H2. split; exists p; by rewrite !overlay_twice. Qed.

Lemma replays_already (f : Row → Row → result Plan) work attempt :
  f work attempt = Ok already_applied → replays f work attempt already_applied.
Proof. intros H. apply replays_same; simpl; by rewrite !overlay_empty. Qed.

(** Both writes done and the plan recognised as applied. *)
Lemma replays_settled (f : Row → Row → result Plan) work attempt p :
  (f work (overlay (pl_attempt p) attempt) = Ok p ∨
   f work (overlay (pl_attempt p) attempt) = Ok already_applied ∧ _matches work (pl_work p) = true) →
  f (overlay (pl_work p) work) (overlay (pl_attempt p) attempt) = Ok already_applied →
  replays f work attempt p.
Proof.
  intros H1 H2. split; [|exists already_applied; by rewrite H2, !overlay_empty].
  destruct H1 as [H1|[H1 M]]; [by exists p; rewrite overlay_twice|].
  exists already_applied. simpl. rewrite !overlay_empty. split_and!; [done|by apply matches_equiv|done].
Qed.

(** Columns that no attempt update touches. *)
Lemma attempt_frame u attempt k :
  updates_ok u → mem k _UPDATE_FIELDS = false → col (overlay u attempt) k = col attempt k.
Proof. intros U Hk. by apply col_untouched, updates_untouched. Qed.

Lemma updates_ok_insert k c u :
  mem k _UPDATE_FIELDS = true → cell_eqb c c = true → updates_ok u → updates_ok (<[k := c]> u).
Proof.
  intros Hk Hc [S F]. split.
  - intros k' c' [[<- <-]|[? ?]]%lookup_insert_Some; [done|by eapply S].
  - intros k' [c' [[<- <-]|[? ?]]%lookup_insert_Some]; [done|apply F; eauto].
Qed.

Lemma updates_ok_empty : updates_ok ∅.
Proof. split; [intros ??|intros ? [??]]; by rewrite lookup_empty in *. Qed.

Lemma owner_frame c work attempt u :
  updates_ok u → _owner c work (overlay u attempt) = _owner c work attempt.
Proof. intros U. unfold _owner. by rewrite (attempt_frame u attempt "dispatcher_id"). Qed.

Lemma within_lease_Ok c work u :
  within_lease c work = Ok u ↔
  ∃ t, instant (col work "lease_acquired_at") = Some t ∧ (t ≤ cm_created_at c)%Z.
Proof.
  unfold within_lease. rewrite _require_Ok. destruct (instant _); [rewrite Z.leb_le|]; naive_solver.
Qed.

Lemma live_Ok c work now u :
  _live c work now = Ok u ↔
  lease_runs work (Z.max now (cm_created_at c)) = true ∧ within_lease c work = Ok tt ∧
  (cm_created_at c ≤ now)%Z.
Proof.
  unfold _live, lease_runs. split.
  - intros H. req_inv H. destruct x0. by rewrite Z.leb_le in H.
  - intros (H1&H2&H3%Z.leb_le). rewrite require_then by done. rewrite H2. simpl. rewrite H3. by destruct u.
Qed.

(** A live lease that still runs is live later. *)
Lemma live_later c work now now' u :
  _live c work now = Ok u → (now ≤ now')%Z → lease_runs work now' = true → _live c work now' = Ok tt.
Proof.
  rewrite !live_Ok. unfold lease_runs. destruct (instant (col work "lease_expires_at")); [|naive_solver].
  rewrite !Z.ltb_lt. intros (H1&H2&H3) ??. split_and!; [lia|done|lia].
Qed.

Lemma owner_status c work attempt u :
  _owner c work attempt = Ok u → ∃ s, col work "status" = CText s ∧ mem s _ACTIVE = true.
Proof.
  unfold _owner. intros H. req_inv H. destruct (col work "status"); try done. eauto.
Qed.

Lemma then_Ok {A} (m : result unit) (k : result A) a :
  (m;; k) = Ok a ↔ m = Ok tt ∧ k = Ok a.
Proof. destruct m as [[]|]; simpl; naive_solver. Qed.

(** The guards of a command as a conjunction. *)
Ltac guards := rewrite ?then_Ok, ?_require_Ok.

Section kinds.
Context (fromisoformat : string → result Z).

(** What each kind of command demands, and the plan it makes. *)
Lemma claim_execution_Ok c work attempt now p :
  _claim_execution c work attempt now = Ok p ↔
  _owner c work attempt = Ok tt ∧ _live c work now = Ok tt ∧
  is_text "LEASED" (col work "status") && is_text "LEASED" (col attempt "status") = true ∧
  is_null (col attempt "worker_execution_id")
    || is_text (cm_worker_execution_id c) (col attempt "worker_execution_id") = true ∧
  p = plan ∅ {["worker_execution_id" := CText (cm_worker_execution_id c)]}.
Proof. unfold _claim_execution. guards. naive_solver. Qed.

Lemma update_Ok c raw work attempt now p :
  _update fromisoformat c raw work attempt now = Ok p ↔
  ∃ u, _attempt_updates fromisoformat raw (cm_created_at c) = Ok u ∧
    if is_text "SUCCEEDED" (col attempt "status") then
      is_text "WRITING" (col work "status") && is_text "SUCCEEDED" (col u "status")
        && _matches attempt u && cell_eqb (col attempt "completed_at") (CTime (cm_created_at c)) = true ∧
      p = already_applied
    else
      let target := default (col attempt "status") (u !! "status") in
      _live c work now = Ok tt ∧
      text_in (col attempt "status") _ACTIVE && cell_eqb (col attempt "status") (col work "status") = true ∧
      cell_eqb target (col attempt "status")
        || (is_text "SUCCEEDED" target && is_text "WRITING" (col work "status")) = true ∧
      negb (bool_decide (is_Some (u !! "completed_at"))) || is_text "SUCCEEDED" target = true ∧
      p = plan ∅ u.
Proof.
  unfold _update. rewrite result_bind_Ok. f_equiv. intros u. f_equiv.
  destruct (is_text "SUCCEEDED" (col attempt "status")); guards; naive_solver.
Qed.

Definition committed_row (c : Command) : Row :=
  overlay {["status" := CText "SUCCEEDED"; "committed_attempt_id" := CText (cm_attempt_id c);
            "completed_at" := CTime (cm_created_at c); "not_before_at" := CNone;
            "last_error_category" := CNone; "last_error_type" := CNone;
            "last_error_message" := CNone]} _LEASE_CLEAR.

Lemma commit_Ok c work attempt now p :
  _commit c work attempt now = Ok p ↔
  is_text "SUCCEEDED" (col attempt "status") = true ∧
  if is_text "SUCCEEDED" (col work "status")
     && is_text (cm_attempt_id c) (col work "committed_attempt_id") then p = already_applied
  else _owner c work attempt = Ok tt ∧ _live c work now = Ok tt ∧
    is_text "WRITING" (col work "status") = true ∧ p = plan (committed_row c) ∅.
Proof.
  unfold _commit. guards. f_equiv. case_match; guards; fold (committed_row c); naive_solver.
Qed.

Definition heartbeat_attempt (c : Command) (status : string) (u : Row) : Row :=
  <["last_heartbeat_at" := CTime (cm_created_at c)]> (<["status" := CText status]> u).
Definition heartbeat_work (c : Command) (status : string) (expires : Z) : Row :=
  {["status" := CText status; "last_heartbeat_at" := CTime (cm_created_at c);
    "lease_expires_at" := CTime expires]}.
(** The lease end that a heartbeat asks for: never earlier than the present one. *)
Definition renewed_until (work : Row) (renewed : Z) : Z :=
  match instant (col work "lease_expires_at") with Some t => Z.max renewed t | None => renewed end.

Lemma heartbeat_Ok c status raw work attempt now p :
  _heartbeat fromisoformat c status raw work attempt now = Ok p ↔
  ∃ u renewed, _attempt_updates fromisoformat raw (cm_created_at c) = Ok u ∧
    add_minutes (cm_created_at c) (cm_lease_minutes c) = Ok renewed ∧
    let expires := renewed_until work renewed in
    if _matches work (heartbeat_work c status expires)
       && _matches attempt (heartbeat_attempt c status u) then p = already_applied
    else _live c work now = Ok tt ∧ _transition (col work "status") status = Ok tt ∧
      _transition (col attempt "status") status = Ok tt ∧
      match instant (col work "last_heartbeat_at") with
      | Some t => (t <=? cm_created_at c)%Z
      | None => true
      end = true ∧
      (now <? expires)%Z = true ∧
      p = plan (heartbeat_work c status expires) (heartbeat_attempt c status u).
Proof.
  unfold _heartbeat. rewrite result_bind_Ok. f_equiv. intros u. rewrite result_bind_Ok.
  split; [intros (Hu&r&Hr&H); exists r|intros (r&Hu&Hr&H); split; [done|]; exists r];
    (split_and!; [done..|]; revert H);
    fold (renewed_until work r) (heartbeat_attempt c status u);
    fold (heartbeat_work c status (renewed_until work r)); case_match; guards; intuition congruence.
Qed.

End kinds.

Lemma failure_Ok c f work attempt now p :
  _failure c f work attempt now = Ok p ↔
  ∃ ac mx nb, int_col work "attempt_count" = Ok ac ∧ int_col work "max_attempts" = Ok mx ∧
    let status := failure_status f ac mx in
    failure_not_before c status ac = Ok nb ∧
    is_null (col work "committed_attempt_id") = true ∧
    if _matches work (failure_work c f status nb) && _matches attempt (failure_attempt c f status)
    then p = already_applied
    else _owner c work attempt = Ok tt ∧ (cm_created_at c <=? now)%Z = true ∧
      within_lease c work = Ok tt ∧
      text_in (col attempt "status") _ACTIVE || _matches attempt (failure_attempt c f status) = true ∧
      p = plan (failure_work c f status nb) (failure_attempt c f status).
Proof.
  unfold _failure. rewrite result_bind_Ok. f_equiv. intros ac. rewrite result_bind_Ok.
  split; [intros (Hac&mx&Hmx&(nb&Hnb&H)%result_bind_Ok)|intros (mx&nb&Hac&Hmx&Hnb&H)].
  - exists mx, nb. revert H. cbv zeta. guards. intros [? H]. split_and!; [done..|]. revert H.
    case_match; guards; intuition congruence.
  - split; [done|]. exists mx. split; [done|]. apply result_bind_Ok. exists nb. split; [done|].
    revert H. cbv zeta. guards. intros [? H]. split; [done|]. revert H.
    case_match; guards; intuition congruence.
Qed.

Lemma release_Ok c reason work attempt now p :
  _release c reason work attempt now = Ok p ↔
  ∃ ac, int_col work "attempt_count" = Ok ac ∧
    let applied := _matches attempt (release_attempt c reason) in
    if applied && release_seen c work then p = already_applied
    else _owner c work attempt = Ok tt ∧
      (if applied then (cm_created_at c <=? now)%Z = true ∧ within_lease c work = Ok tt
       else _live c work now = Ok tt) ∧
      is_text "LEASED" (col work "status") = true ∧
      is_text "LEASED" (col attempt "status") || applied = true ∧
      is_null (col attempt "inference_started_at") = true ∧
      p = plan (released_work c ac) (release_attempt c reason).
Proof.
  unfold _release. rewrite result_bind_Ok. f_equiv. intros ac. f_equiv. cbv zeta.
  case_match; guards; [intuition congruence|].
  case_match; guards; intuition congruence.
Qed.

Lemma text_in_text c l : text_in c l = true → ∃ s, c = CText s ∧ mem s l = true.
Proof. destruct c; try done. eauto. Qed.

Lemma cell_eqb_text c s : cell_eqb c (CText s) = true → c = CText s.
Proof. destruct c; try done. by intros ->%String.eqb_eq. Qed.

Section replaying.
Context (fromisoformat : string → result Z).

(** A column of a row with concrete updates. *)
Lemma col_set u r k c : u !! k = Some c → col (overlay u r) k = c.
Proof. intros H. by rewrite col_overlay, H. Qed.

Lemma owner_cols c work attempt attempt' :
  col attempt' "dispatcher_id" = col attempt "dispatcher_id" →
  _owner c work attempt' = _owner c work attempt.
Proof. unfold _owner. by intros ->. Qed.

Lemma attempt_updates_completed u t u' :
  _attempt_updates fromisoformat u t = Ok u' → is_text "SUCCEEDED" (col u' "status") = true →
  u' !! "completed_at" = Some (CTime t).
Proof.
  unfold _attempt_updates. intros H. req_inv H. injection H as <-.
  case_match eqn:E; [by rewrite lookup_insert_eq|]. by rewrite E.
Qed.

Lemma claim_replays c work attempt now now' p :
  _claim_execution c work attempt now = Ok p → (now ≤ now')%Z → lease_runs work now' = true →
  replays (λ w a, _claim_execution c w a now') work attempt p.
Proof.
  intros (Ho&Hl&Hs&Hw&->)%claim_execution_Ok Hn Hr.
  pose proof (live_later _ _ _ _ _ Hl Hn Hr) as Hl'.
  apply replays_same; simpl; rewrite ?overlay_empty; apply claim_execution_Ok;
    (erewrite owner_cols by (by apply col_untouched));
    rewrite (col_untouched _ attempt "status") by done;
    (erewrite (col_set _ attempt "worker_execution_id") by done); simpl;
    rewrite String.eqb_refl; done.
Qed.

Lemma update_replays c raw work attempt now now' p :
  updates_ok raw → _owner c work attempt = Ok tt →
  _update fromisoformat c raw work attempt now = Ok p →
  (now ≤ now')%Z → lease_runs work now' = true →
  replays (λ w a, _owner c w a;; _update fromisoformat c raw w a now') work attempt p.
Proof.
  intros U Ho (u&Hu&H)%update_Ok Hn Hr. pose proof (attempt_updates_ok _ _ _ _ Hu U) as Uu.
  destruct (is_text "SUCCEEDED" (col attempt "status")) eqn:Hs.
  - destruct H as [Hm ->]. apply replays_already. rewrite Ho. apply update_Ok.
    exists u. by rewrite Hs.
  - destruct H as (Hl&Hst&Ht&Hc&->). pose proof (live_later _ _ _ _ _ Hl Hn Hr) as Hl'.
    pose proof Hst as Hst0. apply andb_true_iff in Hst as [Ha Hw].
    apply text_in_text in Ha as (s&Es&Ha). rewrite Es in *.
    set (target := default (CText s) (u !! "status")) in *.
    assert (col (overlay u attempt) "status" = target) as Et.
    { rewrite col_overlay, Es. unfold target. by destruct (u !! "status"). }
    destruct (is_text "SUCCEEDED" target) eqn:Htar.
    + assert (is_text "WRITING" (col work "status") = true) as HW.
      { apply orb_true_iff in Ht as [E|E]; [|done]. apply cell_eqb_text in E. congruence. }
      assert (u !! "status" = Some target) as Eu.
      { unfold target in *. destruct (u !! "status"); [done|]. simpl in *. congruence. }
      assert (∀ work', col work' "status" = col work "status" →
        _update fromisoformat c raw work' (overlay u attempt) now' = Ok already_applied) as Hrun.
      { intros work' E. apply update_Ok. exists u. split; [done|]. rewrite Et, Htar. split; [|done].
        unfold col at 2. rewrite E, HW, Eu. simpl. rewrite Htar, matches_overlay by apply Uu. simpl.
        rewrite (col_set u attempt "completed_at" (CTime (cm_created_at c))); [apply Z.eqb_refl|].
        eapply attempt_updates_completed; [done|]. unfold col. by rewrite Eu. }
      apply replays_settled; simpl; rewrite ?overlay_empty, owner_frame, Ho by done; simpl;
        [right; split; [|done]|]; by apply Hrun.
    + simpl in Ht. rewrite orb_false_r in *. apply cell_eqb_text in Ht as E.
      assert (_update fromisoformat c raw work (overlay u attempt) now' = Ok (plan ∅ u)) as Hrun.
      { apply update_Ok. exists u. split; [done|]. rewrite Et, E, Hs. 
        assert (default (CText s) (u !! "status") = CText s) as -> by done.
        cbv zeta. rewrite Hl', Hst0, Hc. simpl. by rewrite String.eqb_refl. }
      apply replays_same; simpl; rewrite ?overlay_empty, owner_frame, Ho by done; simpl; by apply Hrun.
Qed.

Lemma commit_replays c work attempt now now' p :
  _commit c work attempt now = Ok p → (now ≤ now')%Z → lease_runs work now' = true →
  replays (λ w a, _commit c w a now') work attempt p.
Proof.
  intros [Hs H]%commit_Ok Hn Hr. destruct (is_text "SUCCEEDED" (col work "status")
    && is_text (cm_attempt_id c) (col work "committed_attempt_id")) eqn:E.
  - subst p. apply replays_already. apply commit_Ok. by rewrite E.
  - destruct H as (Ho&Hl&Hw&->). pose proof (live_later _ _ _ _ _ Hl Hn Hr) as Hl'.
    apply replays_settled; simpl; rewrite overlay_empty.
    + left. apply commit_Ok. by rewrite E.
    + apply commit_Ok. rewrite Hs, (col_set _ work "status" (CText "SUCCEEDED")),
        (col_set _ work "committed_attempt_id" (CText (cm_attempt_id c))) by done.
      simpl. by rewrite String.eqb_refl.
Qed.

Lemma transition_stays status c :
  mem status _ACTIVE = true → c = CText status → _transition c status = Ok tt.
Proof.
  intros H ->. unfold _transition. simpl. rewrite H. simpl. by rewrite Z.sub_diag.
Qed.

Lemma heartbeat_attempt_ok c status u : updates_ok u → updates_ok (heartbeat_attempt c status u).
Proof.
  intros U. unfold heartbeat_attempt. apply updates_ok_insert; [done|apply Z.eqb_refl|].
  apply updates_ok_insert; [done|apply String.eqb_refl|done].
Qed.

Lemma renewed_until_later work renewed now :
  lease_runs work now = true → (now < renewed_until work renewed)%Z.
Proof.
  unfold lease_runs, renewed_until. destruct (instant _); [|done]. rewrite Z.ltb_lt. lia.
Qed.

Lemma renewed_until_ge work r : (r ≤ renewed_until work r)%Z.
Proof. unfold renewed_until. destruct (instant _); lia. Qed.

Lemma sane_heartbeat_work c status e : sane (heartbeat_work c status e).
Proof. unfold heartbeat_work. auto with sane. Qed.

Lemma heartbeat_replays c status raw work attempt now now' p :
  updates_ok raw → mem status _ACTIVE = true → _owner c work attempt = Ok tt →
  _heartbeat fromisoformat c status raw work attempt now = Ok p →
  (now ≤ now')%Z → lease_runs work now' = true →
  replays (λ w a, _owner c w a;; _heartbeat fromisoformat c status raw w a now') work attempt p.
Proof.
  intros U Hst Ho (u&r&Hu&Hr&H)%heartbeat_Ok Hn Hlr.
  pose proof (heartbeat_attempt_ok c status u (attempt_updates_ok _ _ _ _ Hu U)) as Ua.
  cbv zeta in H. destruct (_matches work _ && _) eqn:Hm.
  - subst p. apply replays_already. rewrite Ho. apply heartbeat_Ok. exists u, r.
    split_and!; [done..|]. cbv zeta. by rewrite Hm.
  - destruct H as (Hl&Ht&_&Hp&Hx&->). pose proof (live_later _ _ _ _ _ Hl Hn Hlr) as Hl'.
    set (e := renewed_until work r) in *.
    apply replays_settled; simpl; rewrite owner_frame by done.
    + rewrite Ho. destruct (_matches work (heartbeat_work c status e) &&
        _matches (overlay (heartbeat_attempt c status u) attempt) (heartbeat_attempt c status u)) eqn:Hm'.
      * right. pose proof Hm' as [M _]%andb_true_iff. split; [|exact M].
        apply heartbeat_Ok. exists u, r. split_and!; [done..|]. cbv zeta. fold e. by rewrite Hm'.
      * left. apply heartbeat_Ok. exists u, r. split_and!; [done..|]. cbv zeta. fold e. rewrite Hm'.
        split; [exact Hl'|]. split; [exact Ht|]. split.
        { apply transition_stays; [done|]. apply col_set. unfold heartbeat_attempt.
          by rewrite lookup_insert_ne, lookup_insert_eq. }
        split; [exact Hp|]. split; [|reflexivity]. by apply Z.ltb_lt, renewed_until_later.
    + assert (_owner c (overlay (heartbeat_work c status e) work) attempt = Ok tt) as ->.
      { unfold _owner in *. rewrite (col_untouched _ work "committed_attempt_id"),
          (col_untouched _ work "lease_owner_attempt_id"), (col_untouched _ work "lease_dispatcher_id"),
          (col_set _ work "status" (CText status)) by done. revert Ho. guards. simpl. tauto. }
      apply heartbeat_Ok. exists u, r. split_and!; [done..|].
      assert (renewed_until (overlay (heartbeat_work c status e) work) r = e) as ->.
      { pose proof (renewed_until_ge work r : (r ≤ e)%Z). unfold renewed_until.
        rewrite (col_set _ work "lease_expires_at" (CTime e)) by done. simpl. lia. }
      cbv zeta. rewrite (matches_overlay _ work (sane_heartbeat_work c status e)),
        (matches_overlay _ attempt (uo_sane _ Ua)). reflexivity.
Qed.

Lemma failure_attempt_ok c f status : updates_ok (fl_measures f) → updates_ok (failure_attempt c f status).
Proof.
  intros [S F]. unfold failure_attempt. split.
  - apply sane_overlay; [auto 10 with sane|done].
  - intros k [x [Hx|[_ Hx]]%lookup_union_Some_raw]; [|apply F; eauto].
    repeat (apply lookup_insert_Some in Hx as [[<- _]|[_ Hx]]; [done|]).
    by apply lookup_singleton_Some in Hx as [<- _].
Qed.

Lemma failure_work_sane c f status ac nb :
  failure_not_before c status ac = Ok nb → sane (failure_work c f status nb).
Proof.
  intros H. assert (cell_eqb nb nb = true).
  { unfold failure_not_before in H. case_match; [|by simplify_eq].
    destruct (add_minutes _ _); simplify_eq/=. apply Z.eqb_refl. }
  unfold failure_work. assert (sane _LEASE_CLEAR) by (unfold _LEASE_CLEAR; auto 10 with sane).
  case_match; [apply sane_insert; [apply Z.eqb_refl|]|]; apply sane_overlay; auto 10 with sane.
Qed.

(** A failure leaves alone the columns that plans are made from. *)
Lemma failure_work_frame c f status nb work k :
  k ∈ ["committed_attempt_id"; "attempt_count"; "max_attempts"] →
  col (overlay (failure_work c f status nb) work) k = col work k.
Proof.
  intros Hk. apply col_untouched. unfold failure_work.
  assert (∀ u : Row, u !! k = None → (<["queue_entered_at" := CTime (cm_created_at c)]> u) !! k = None)
    as Hins.
  { intros u Hu. rewrite lookup_insert_ne; [done|]. intros <-. by repeat (inversion Hk as [|? ? ? Hk']; subst; clear Hk; rename Hk' into Hk). }
  case_match; [apply Hins|];
    repeat (apply elem_of_cons in Hk as [->|Hk]; [vm_compute; reflexivity|]); by inversion Hk.
Qed.

Lemma failure_replays c f work attempt now now' p :
  updates_ok (fl_measures f) → _failure c f work attempt now = Ok p → (now ≤ now')%Z →
  replays (λ w a, _failure c f w a now') work attempt p.
Proof.
  intros U (ac&mx&nb&Hac&Hmx&Hnb&Hc&H)%failure_Ok Hn. cbv zeta in *.
  set (st := failure_status f ac mx) in *.
  pose proof (failure_attempt_ok c f st U) as Ua. pose proof (failure_work_sane _ f _ _ _ Hnb) as Sw.
  destruct (_matches work _ && _) eqn:Hm.
  - subst p. apply replays_already, failure_Ok. exists ac, mx, nb. cbv zeta. fold st.
    split_and!; [done..|]. by rewrite Hm.
  - destruct H as (Ho&Ht&Hl&Ha&->). apply Z.leb_le in Ht.
    pose proof (matches_overlay _ attempt (uo_sane _ Ua)) as Ma.
    apply replays_settled; simpl.
    + destruct (_matches work (failure_work c f st nb)) eqn:Mw.
      * right. split; [|reflexivity]. apply failure_Ok. exists ac, mx, nb. cbv zeta. fold st.
        rewrite Mw, Ma. split_and!; done.
      * left. apply failure_Ok. exists ac, mx, nb. cbv zeta. fold st.
        rewrite Mw, Ma, orb_true_r. simpl. rewrite owner_frame by exact Ua.
        split_and!; [done..|by apply Z.leb_le; lia|done|done|done].
    + apply failure_Ok. exists ac, mx, nb. cbv zeta. fold st. unfold int_col.
      rewrite !failure_work_frame by set_solver. rewrite (matches_overlay _ work Sw), Ma.
      split_and!; done.
Qed.

Lemma release_attempt_ok c reason : updates_ok (release_attempt c reason).
Proof.
  unfold release_attempt. repeat (apply updates_ok_insert; [done|auto with sane|]).
  apply updates_ok_empty.
Qed.

Lemma release_replays c reason work attempt now now' p :
  _release c reason work attempt now = Ok p → (now ≤ now')%Z →
  replays (λ w a, _release c reason w a now') work attempt p.
Proof.
  intros (ac&Hac&H)%release_Ok Hn. cbv zeta in H. pose proof (release_attempt_ok c reason) as Ua.
  destruct (_matches attempt (release_attempt c reason) && release_seen c work) eqn:Hm.
  - subst p. apply replays_already, release_Ok. exists ac. cbv zeta. split; [done|]. by rewrite Hm.
  - destruct H as (Ho&Hl&Hs&_&Hi&->).
    pose proof (matches_overlay _ attempt (uo_sane _ Ua)) as Ma.
    assert (release_seen c work = false) as Hns.
    { unfold release_seen. apply is_text_true in Hs as ->. done. }
    assert ((cm_created_at c <=? now')%Z = true ∧ within_lease c work = Ok tt) as Hl'.
    { destruct (_matches attempt _); [destruct Hl as [?%Z.leb_le ?]|
        apply live_Ok in Hl as (_&?&?)]; (split; [apply Z.leb_le; lia|done]). }
    apply replays_settled; simpl.
    + left. apply release_Ok. exists ac. cbv zeta. rewrite Hns, Ma, owner_frame by exact Ua.
      rewrite orb_true_r. simpl. rewrite (col_untouched _ attempt "inference_started_at") by done.
      split; [exact Hac|]. split; [exact Ho|]. split; [exact Hl'|]. split; [exact Hs|].
      split; [reflexivity|]. split; [exact Hi|reflexivity].
    + apply release_Ok. rewrite Ma.
      assert (release_seen c (overlay (released_work c ac) work) = true) as ->.
      { unfold release_seen. rewrite (col_set _ work "status" (CText "RETRY_WAIT")),
          (col_set _ work "lease_owner_attempt_id" CNone), (col_set _ work "lease_dispatcher_id" CNone),
          (col_set _ work "lease_acquired_at" CNone), (col_set _ work "lease_expires_at" CNone),
          (col_set _ work "not_before_at" (CTime (cm_created_at c))) by done. simpl. apply Z.eqb_refl. }
      exists (Z.max 0 (ac - 1)). split; [|done]. unfold int_col.
      by rewrite (col_set _ work "attempt_count" (CInt (Z.max 0 (ac - 1)))).
Qed.

Lemma identity_frame c work attempt w a :
  (∀ k, k ∈ ["work_id"; "capture_date"; "config_sha256"] → w !! k = None) → updates_ok a ∨
  a = {["worker_execution_id" := CText (cm_worker_execution_id c)]} →
  _identity c (overlay w work) (overlay a attempt) = _identity c work attempt.
Proof.
  intros Hw Ha. unfold _identity.
  rewrite !(col_untouched w work) by (apply Hw; set_solver).
  assert (∀ k, k ∈ ["work_id"; "attempt_id"; "capture_date"; "config_sha256"] →
    col (overlay a attempt) k = col attempt k) as Hf.
  { intros k Hk. apply col_untouched.
    destruct Ha as [U| ->]; [apply updates_untouched; [done|]|];
      repeat (apply elem_of_cons in Hk as [->|Hk]; [vm_compute; reflexivity|]); by inversion Hk. }
  by rewrite !Hf by set_solver.
Qed.
End replaying.

Section plans.
Context (fromisoformat : string → result Z).

(** The columns that a plan never writes. *)
Definition identity_columns : list string := ["work_id"; "capture_date"; "config_sha256"].

Record framed (c : Command) (p : Plan) : Prop := {
  fr_work : ∀ k, k ∈ identity_columns → pl_work p !! k = None;
  fr_attempt : updates_ok (pl_attempt p) ∨
    pl_attempt p = {["worker_execution_id" := CText (cm_worker_execution_id c)]};
}.

Ltac concrete_columns := intros k Hk;
  repeat (apply elem_of_cons in Hk as [->|Hk]; [vm_compute; reflexivity|]); by inversion Hk.

Lemma framed_already c : framed c already_applied.
Proof. split; [done|left; apply updates_ok_empty]. Qed.

Lemma plan_framed c work attempt now p :
  payload_ok (cm_payload c) → _plan fromisoformat c work attempt now = Ok p → framed c p.
Proof.
  intros P. unfold _plan. guards. intros [_ H]. destruct (cm_payload c) as [| |u|st u|f|r];
    [|rewrite then_Ok in H; destruct H as [_ H]..].
  - apply claim_execution_Ok in H as (_&_&_&_&->). split; [done|by right].
  - apply commit_Ok in H as [_ H]. case_match; [subst; apply framed_already|].
    destruct H as (_&_&_&->). split; [concrete_columns|left; apply updates_ok_empty].
  - apply then_Ok in H as [_ (v&Hv&H)%update_Ok]. case_match.
    + destruct H as [_ ->]. apply framed_already.
    + destruct H as (_&_&_&_&->). split; [done|left; by eapply attempt_updates_ok].
  - apply then_Ok in H as [_ (v&r&Hv&_&H)%heartbeat_Ok]. cbv zeta in H. case_match.
    + subst. apply framed_already.
    + destruct H as (_&_&_&_&_&->). split; [concrete_columns|left].
      eapply heartbeat_attempt_ok, attempt_updates_ok; [done|apply P].
  - apply failure_Ok in H as (ac&mx&nb&_&_&_&_&H). cbv zeta in H. case_match.
    + subst. apply framed_already.
    + destruct H as (_&_&_&_&->). split; [|left; by apply failure_attempt_ok].
      simpl. unfold failure_work. destruct (String.eqb _ _); concrete_columns.
  - apply release_Ok in H as (ac&_&H). cbv zeta in H. case_match.
    + subst. apply framed_already.
    + destruct H as (_&_&_&_&_&->). split; [concrete_columns|left; apply release_attempt_ok].
Qed.

Lemma replays_guarded (g : Row → Row → result unit) f work attempt p :
  g work (overlay (pl_attempt p) attempt) = Ok tt →
  g (overlay (pl_work p) work) (overlay (pl_attempt p) attempt) = Ok tt →
  replays f work attempt p → replays (λ w a, g w a;; f w a) work attempt p.
Proof.
  intros G1 G2 [(p1&H1&E1) (p2&H2&E2)]. split; [exists p1|exists p2]; by rewrite ?G1, ?G2.
Qed.

Lemma replays_worker c f work attempt p :
  framed c p → is_text (cm_worker_execution_id c) (col attempt "worker_execution_id") = true →
  replays f work attempt p →
  replays (λ w a, _require (is_text (cm_worker_execution_id c) (col a "worker_execution_id"));; f w a)
    work attempt p.
Proof.
  intros F Hw. assert (is_text (cm_worker_execution_id c)
    (col (overlay (pl_attempt p) attempt) "worker_execution_id") = true) as Hw'.
  { destruct (fr_attempt _ _ F) as [U| ->]; [by rewrite attempt_frame|].
    rewrite (col_set _ attempt "worker_execution_id" (CText (cm_worker_execution_id c))) by done.
    apply String.eqb_refl. }
  by apply replays_guarded with (g := λ _ a, _require (is_text (cm_worker_execution_id c)
    (col a "worker_execution_id"))); apply _require_Ok.
Qed.
End plans.

(** ** A concrete command *)

Definition demo_iso (s : string) : result Z := Err ValueError.
Definition demo_failure : pyval := VDict
  [("error_category", VStr "INFERENCE"); ("error_type", VStr "RuntimeError");
   ("error_message", VStr "boom"); ("retryable", VBool true); ("lease_lost", VBool false);
   ("processed_frames", VInt 12); ("processing_seconds", VNone)].
Definition demo_envelope (payload : pyval) (lease : Z) : string :=
  match json_dumps true (VDict [("payload", payload); ("lease_minutes", VInt lease)]) with
  | Ok s => s | Err _ => "" end.
Definition demo_row (kind : string) (sequence : Z) : EventRow := {|
  ev_event_id := Some (kind +:+ "-event"); ev_work_id := Some "w"; ev_attempt_id := Some "a";
  ev_worker_execution_id := Some "x"; ev_capture_date := Some 19000%Z; ev_sequence := Some sequence;
  ev_event_kind := Some kind;
  ev_payload_json :=
    Some (demo_envelope (if String.eqb kind "commit" then VDict [] else demo_failure) 5);
  ev_created_at := Some 50%Z |}.
Definition demo_work : Row :=
  {["work_id" := CText "w"; "capture_date" := CDate 19000; "config_sha256" := CText "c";
    "status" := CText "RUNNING"; "lease_owner_attempt_id" := CText "a";
    "lease_dispatcher_id" := CText "d"; "lease_acquired_at" := CTime 10;
    "lease_expires_at" := CTime 100; "attempt_count" := CInt 1; "max_attempts" := CInt 3]}.
Definition demo_attempt : Row :=
  {["work_id" := CText "w"; "attempt_id" := CText "a"; "capture_date" := CDate 19000;
    "config_sha256" := CText "c"; "status" := CText "RUNNING"; "dispatcher_id" := CText "d";
    "worker_execution_id" := CText "x"]}.

Definition demo_command : Command := Eval vm_compute in
  match from_row demo_iso (demo_row "failure" 1) with
  | Ok c => c
  | Err _ => {| cm_event_id := ""; cm_work_id := ""; cm_attempt_id := "";
                cm_worker_execution_id := ""; cm_capture_date := 0; cm_sequence := 0;
                cm_payload := PClaim; cm_created_at := 0; cm_lease_minutes := 0 |}
  end.
Lemma demo_command_eq : from_row demo_iso (demo_row "failure" 1) = Ok demo_command.
Proof. vm_compute. reflexivity. Qed.

Definition demo_plan : Plan := Eval vm_compute in
  match _plan demo_iso demo_command demo_work demo_attempt 60 with
  | Ok p => p | Err _ => already_applied end.
Lemma demo_plan_eq : _plan demo_iso demo_command demo_work demo_attempt 60 = Ok demo_plan.
Proof. vm_cast_no_check (eq_refl (Ok demo_plan : result Plan)). Qed.

(** The failed work waits a minute for its next attempt. *)
Example demo_plan_work :
  (col (pl_work demo_plan) "status", col (pl_work demo_plan) "not_before_at",
   col (pl_attempt demo_plan) "status") = (CText "RETRY_WAIT", CTime 60000050, CText "RETRY_WAIT").
Proof. vm_compute. reflexivity. Qed.

(** C24. Crash recovery of the exclusive writer.  If a command is planned and the
    writer stops before its receipt is stored, having written the attempt row, or
    both rows, then planning the same command again succeeds and ends with the rows
    of the uninterrupted run: nothing is lost and no attempt is counted, released
    or committed twice.  Failures and releases replay at any later time, the other
    commands while the lease runs. *)
Theorem replay_after_crash fromisoformat row c work attempt now now' p :
  from_row fromisoformat row = Ok c →
  _plan fromisoformat c work attempt now = Ok p → (now ≤ now')%Z →
  (lease_runs work now' = true ∨ (∃ f, cm_payload c = PFailure f) ∨ ∃ r, cm_payload c = PRelease r) →
  replays (λ w a, _plan fromisoformat c w a now') work attempt p.
Proof.
  intros P%from_row_ok H Hn Hl. pose proof (plan_framed _ _ _ _ _ _ P H) as F.
  unfold _plan in *. apply then_Ok in H as [Hi H]. apply replays_guarded.
  - rewrite <-(overlay_empty work), identity_frame; [done|done|apply F].
  - rewrite identity_frame; [done|apply F|apply F].
  - destruct (cm_payload c) as [| |u|st u|f|r];
      [|apply then_Ok in H as [Hw H]; apply _require_Ok in Hw; apply replays_worker; [done|done|]..];
      try (destruct Hl as [Hl|[(?&E)|(?&E)]]; try discriminate E; []).
    + by eapply claim_replays.
    + by eapply commit_replays.
    + apply then_Ok in H as [Ho H]. by eapply update_replays.
    + apply then_Ok in H as [Ho H]. eapply heartbeat_replays; try done; apply P.
    + by eapply failure_replays.
    + by eapply release_replays.
Qed.

(** The writer died in the middle of a failure and came back after the lease. *)
Lemma replay_after_crash_witness :
  replays (λ w a, _plan demo_iso demo_command w a 1000) demo_work demo_attempt demo_plan.
Proof.
  refine (replay_after_crash demo_iso (demo_row "failure" 1) demo_command demo_work
    demo_attempt 60 1000 demo_plan demo_command_eq demo_plan_eq _ _).
  - lia.
  - right. left. eexists. reflexivity.
Defined.

(** ** Fencing and the states of a work *)

(** The moves of a work's status that commands make. *)
Inductive status_edge : string → string → Prop :=
  | se_stay s : mem s _ACTIVE = true → status_edge s s
  | se_staging : status_edge "LEASED" "STAGING"
  | se_running : status_edge "STAGING" "RUNNING"
  | se_writing : status_edge "RUNNING" "WRITING"
  | se_commit : status_edge "WRITING" "SUCCEEDED"
  | se_release : status_edge "LEASED" "RETRY_WAIT"
  | se_fail s s' : mem s _ACTIVE = true →
      mem s' ["RETRY_WAIT"; "TERMINAL_FAILED"; "DEAD_LETTERED"] = true → status_edge s s'.

Lemma mem_In s l : mem s l = true ↔ s ∈ l.
Proof.
  unfold mem. rewrite existsb_exists. setoid_rewrite <-list_elem_of_In. split.
  - intros (x&Hx&->%String.eqb_eq). done.
  - intros H. exists s. by rewrite String.eqb_refl.
Qed.

Lemma transition_edge s target :
  _transition (CText s) target = Ok tt → status_edge s target.
Proof.
  unfold _transition. guards. simpl. intros [[Hs%mem_In Ht%mem_In]%andb_true_iff H].
  repeat (apply elem_of_cons in Hs as [->|Hs]); [..|by inversion Hs];
    repeat (apply elem_of_cons in Ht as [->|Ht]); try (by inversion Ht); try discriminate H;
    constructor; done.
Qed.

Lemma owner_spec c work attempt :
  _owner c work attempt = Ok tt →
  col work "committed_attempt_id" = CNone ∧
  col work "lease_owner_attempt_id" = CText (cm_attempt_id c) ∧
  ∃ s, col work "status" = CText s ∧ mem s _ACTIVE = true.
Proof.
  intros H. pose proof (owner_status _ _ _ _ H) as Hs. revert H. unfold _owner. guards.
  intros (Hc&Ho&_). split_and!; [by destruct (col work "committed_attempt_id")|by apply is_text_true|done].
Qed.

Lemma failure_work_status c f status nb work :
  col (overlay (failure_work c f status nb) work) "status" = CText status.
Proof.
  apply col_set. unfold failure_work. destruct (String.eqb status "RETRY_WAIT"); [|done].
  by rewrite lookup_insert_ne.
Qed.

(** The state of the work after the plan of a command. *)
Definition work_after (p : Plan) (work : Row) : cell := col (overlay (pl_work p) work) "status".

(** A plan that writes needs the owner, and moves the work along an edge. *)
Lemma plan_moves fromisoformat c work attempt now p :
  payload_ok (cm_payload c) → _plan fromisoformat c work attempt now = Ok p →
  p = already_applied ∨ (_owner c work attempt = Ok tt ∧
    ∃ s s', col work "status" = CText s ∧ mem s _ACTIVE = true ∧
      work_after p work = CText s' ∧ status_edge s s').
Proof.
  intros P. unfold _plan. guards. intros [_ H].
  assert (∀ s', _owner c work attempt = Ok tt → work_after p work = s' →
    (∀ s, col work "status" = CText s → mem s _ACTIVE = true → ∃ t, s' = CText t ∧ status_edge s t) →
    p = already_applied ∨ (_owner c work attempt = Ok tt ∧
      ∃ s s', col work "status" = CText s ∧ mem s _ACTIVE = true ∧
        work_after p work = CText s' ∧ status_edge s s')) as Hgo.
  { intros s' Ho E Hedge. right. split; [done|]. destruct (owner_status _ _ _ _ Ho) as (s&Es&Hs).
    destruct (Hedge s Es Hs) as (t&->&?). eauto 10. }
  destruct (cm_payload c) as [| |u|st u|f|r];
    [|rewrite then_Ok in H; destruct H as [_ H]..].
  - apply claim_execution_Ok in H as (Ho&_&_&_&->). eapply Hgo; [done|done|].
    intros s Es Hs. unfold work_after. simpl. rewrite overlay_empty. eauto using status_edge.
  - apply commit_Ok in H as [_ H]. case_match; [by left|]. destruct H as (Ho&_&Hs&->).
    eapply Hgo; [done|by apply col_set|]. apply is_text_true in Hs as ->.
    intros s [= <-] _. eauto using status_edge.
  - apply then_Ok in H as [Ho (v&Hv&H)%update_Ok]. case_match; [left; apply H|].
    destruct H as (_&_&_&_&->). eapply Hgo; [done|done|].
    intros s Es Hs. unfold work_after. simpl. rewrite overlay_empty. eauto using status_edge.
  - apply then_Ok in H as [Ho (v&r&Hv&_&H)%heartbeat_Ok]. cbv zeta in H. case_match; [by left|].
    destruct H as (_&Ht&_&_&_&->). eapply Hgo; [done|by apply col_set|].
    intros s Es Hs. rewrite Es in Ht. exists st. split; [done|by apply transition_edge].
  - apply failure_Ok in H as (ac&mx&nb&_&_&_&_&H). cbv zeta in H. case_match; [by left|].
    destruct H as (Ho&_&_&_&->). eapply Hgo; [done|apply failure_work_status|].
    intros s Es Hs. eexists. split; [done|]. apply se_fail; [done|].
    unfold failure_status. repeat case_match; done.
  - apply release_Ok in H as (ac&_&H). cbv zeta in H. case_match; [by left|].
    destruct H as (Ho&_&Hs&_&_&->). eapply Hgo; [done|by apply col_set|]. apply is_text_true in Hs as ->.
    intros s [= <-] _. eauto using status_edge.
Qed.

(** C27. Fencing.  A plan that writes anything is the plan of a command whose
    attempt owns the lease of an active, uncommitted work, and it moves the work
    along its state machine; every other accepted command writes nothing. *)
Theorem plan_fences_and_moves fromisoformat row c work attempt now p :
  from_row fromisoformat row = Ok c →
  _plan fromisoformat c work attempt now = Ok p →
  p = already_applied ∨
  (col work "committed_attempt_id" = CNone ∧
   col work "lease_owner_attempt_id" = CText (cm_attempt_id c) ∧
   col work "work_id" = CText (cm_work_id c) ∧ col attempt "attempt_id" = CText (cm_attempt_id c) ∧
   ∃ s s', col work "status" = CText s ∧ mem s _ACTIVE = true ∧
     work_after p work = CText s' ∧ status_edge s s').
Proof.
  intros P%from_row_ok H. pose proof H as Hi. unfold _plan in Hi. apply then_Ok in Hi as [Hi _].
  assert (col work "work_id" = CText (cm_work_id c) ∧ col attempt "attempt_id" = CText (cm_attempt_id c))
    as [Hw Ha].
  { revert Hi. unfold _identity. guards. intros [Hi _]. btrue. by rewrite <-!is_text_true. }
  apply plan_moves in H as [->|[(Hc&Ho&_)%owner_spec Hs]]; [by left|right|done]. split_and!; done.
Qed.

Lemma plan_fences_and_moves_witness :
  ∃ s, work_after demo_plan demo_work = CText s ∧ status_edge "RUNNING" s.
Proof.
  destruct (plan_fences_and_moves demo_iso (demo_row "failure" 1) demo_command demo_work
    demo_attempt 60 demo_plan demo_command_eq demo_plan_eq)
    as [E|(_&_&_&_&s&s'&Es&_&E&H)].
  - apply (f_equal (λ p, bool_decide (pl_work p = ∅))) in E. vm_compute in E. discriminate E.
  - exists s'. split; [exact E|]. vm_compute in Es. injection Es as <-. exact H.
Defined.
