(* ===== verification/WorkerEventsDrain.v ===== *)
(** * Correctness of the inbox drain

    Draining acknowledges every pending command exactly once, applies the commands
    of an execution in the order of their sequence numbers, and never touches
    committed work, also when a storage error interrupts it.  The last part shows a kind
    of command that stops the inbox. *)
From S2P Require Export Prelude PyVal ControlTypes WorkerEvents WorkerEventsTheorems.
Import Events.

(** ** Effects of calls that may fail *)

(** [R] relates the state before and after a call, however the call ends. *)
Definition respects {S A} (R : relation S) (m : tx S A) : Prop := ∀ s r s', m s = (r, s') → R s s'.

Section respects.
Context {S : Type} (R : relation S) `{!PreOrder R}.

Lemma respects_bind {A B} (m : tx S A) (f : A → tx S B) :
  respects R m → (∀ a, respects R (f a)) → respects R (m ≫= f).
Proof.
  intros Hm Hf s r s' H. unfold mbind, tx_bind in H. destruct (m s) as [[a|e] s1] eqn:E.
  - etrans; [by eapply Hm|by eapply Hf].
  - simplify_eq. by eapply Hm.
Qed.

Lemma respects_lift {A} (r : result A) : respects R (tx_lift r : tx S A).
Proof. intros s r' s' H. unfold tx_lift in H. by simplify_eq. Qed.

Lemma respects_ret {A} (a : A) : respects R (mret a : tx S A).
Proof. intros s r' s' H. unfold mret, tx_ret in H. by simplify_eq. Qed.

Lemma respects_get : respects R (tx_get : tx S S).
Proof. intros s r' s' H. unfold tx_get in H. by simplify_eq. Qed.

Lemma respects_modify f : (∀ s, R s (f s)) → respects R (tx_modify f).
Proof. intros Hf s r' s' H. unfold tx_modify in H. simplify_eq. apply Hf. Qed.
End respects.

(** ** Committed work *)

(** Rows of committed work stay. *)
Definition keeps_committed (l l' : Lake) : Prop :=
  ∀ i w, video_work l !! i = Some w → col w "committed_attempt_id"%string ≠ CNone →
    video_work l' !! i = Some w.

#[export] Instance keeps_committed_preorder : PreOrder keeps_committed.
Proof. split; [by intros l i w|]. intros a b c H1 H2 i w Hw Hc. by apply H2, Hc; apply H1. Qed.

(** The inbox and the acknowledged receipts stay. *)
Definition keeps_log (l l' : Lake) : Prop :=
  worker_events l' = worker_events l ∧ receipts l' = receipts l.

#[export] Instance keeps_log_preorder : PreOrder keeps_log.
Proof. split; [by split|]. intros a b c [] []. split; congruence. Qed.

Section draining.
Context (fromisoformat : string → result Z).
Context (cast : Table → string → cell → cell).

Lemma respects_unique R `{!PreOrder R} t key v : respects R (unique t key v).
Proof.
  apply respects_bind; [done|apply respects_get, _|]. intros l.
  destruct (List.filter _ _) as [|? []]; (apply respects_lift || apply respects_ret); apply _.
Qed.

Lemma respects_receipt R `{!PreOrder R} id : respects R (receipt id).
Proof.
  apply respects_bind; [done|apply respects_get, _|]. intros l.
  destruct (List.filter _ _) as [|? []]; (apply respects_lift || apply respects_ret); apply _.
Qed.

(** An update changes the rows that meet its condition. *)
Lemma respects_update R `{!PreOrder R} t before updates k :
  (∀ l, R l (set_rows t ((λ r, if update_condition t before updates (k_write k) r
      then overlay (cast_row cast t updates) r else r) <$> rows t l) l)) →
  respects R (update cast t before updates k).
Proof.
  intros Hr. unfold update. case_bool_decide; [apply respects_ret, _|].
  apply respects_bind; [done|by apply respects_modify|]. intros _.
  apply respects_bind; [done|apply respects_unique, _|]. intros r. apply respects_lift, _.
Qed.

Lemma update_keeps_log t before updates k : respects keeps_log (update cast t before updates k).
Proof. apply respects_update; [apply _|]. by destruct t. Qed.

Lemma update_attempts_committed before updates k :
  respects keeps_committed (update cast Attempts before updates k).
Proof. apply respects_update; [apply _|]. by intros l i w. Qed.

Lemma update_work_committed before updates k :
  col before "committed_attempt_id"%string = CNone →
  respects keeps_committed (update cast Work before updates k).
Proof.
  intros Hb. apply respects_update; [apply _|]. intros l i w Hw Hc. simpl.
  rewrite list_lookup_fmap, Hw. simpl. destruct (update_condition _ _ _ _ _) eqn:E; [|done].
  exfalso. unfold update_condition in E. apply andb_true_iff in E as [E _].
  rewrite forallb_forall in E. specialize (E "committed_attempt_id"%string). rewrite Hb in E.
  destruct (col w "committed_attempt_id"%string) eqn:Ec; try done; discriminate E; simpl; tauto.
Qed.

(** ** One command *)

Lemma respects_plan_command R `{!PreOrder R} row c now :
  respects R (plan_command fromisoformat row c now).
Proof.
  apply respects_bind; [done|apply respects_get, _|]. intros l.
  apply respects_bind; [done|apply respects_lift, _|]. intros _.
  apply respects_bind; [done|apply respects_unique, _|]. intros work.
  apply respects_bind; [done|apply respects_unique, _|]. intros attempt.
  apply respects_bind; [done|apply respects_lift, _|]. intros p. apply respects_ret, _.
Qed.

(** The rows of a planned command are left as read, and its plan is a plan. *)
Lemma plan_command_Ok row c now l work attempt p l' :
  plan_command fromisoformat row c now l = (Ok (work, attempt, p), l') →
  (highest_sequence row l < cm_sequence c)%Z ∧ _plan fromisoformat c work attempt now = Ok p ∧ l' = l.
Proof.
  unfold plan_command. intros H. apply tx_bind_Ok in H as (l0&l1&[-> ->]%tx_get_Ok&H).
  apply tx_bind_Ok in H as (u&l1&[Hs ->]%tx_require_Ok&H). apply Z.ltb_lt in Hs.
  apply tx_bind_Ok in H as (w&l1&Hw&H). apply tx_bind_Ok in H as (a&l2&Ha&H).
  apply tx_bind_Ok in H as (q&l3&[Hq ->]%tx_lift_Ok&H). apply tx_ret_Ok in H as [[= -> -> ->] ->].
  pose proof (respects_unique eq Work "work_id"%string (cm_work_id c) _ _ _ Hw) as <-.
  pose proof (respects_unique eq Attempts "attempt_id"%string (cm_attempt_id c) _ _ _ Ha) as <-. done.
Qed.

Lemma respects_apply_event R `{!PreOrder R} row k :
  (∀ c work attempt p, from_row fromisoformat row = Ok c →
     _plan fromisoformat c work attempt (k_plan k) = Ok p →
     respects R (update cast Attempts attempt (pl_attempt p) k) ∧
     respects R (update cast Work work (pl_work p) k)) →
  respects R (_apply_event fromisoformat cast row k).
Proof.
  intros Hu l r l' H. unfold _apply_event in H.
  destruct (from_row fromisoformat row) as [c|e] eqn:Hc; [|by destruct e; simplify_eq].
  destruct (plan_command fromisoformat row c (k_plan k) l) as [[[[work attempt] p]|e] l1] eqn:Hp.
  - apply plan_command_Ok in Hp as (_&Hp&->). destruct (Hu c work attempt p eq_refl Hp) as [H1 H2].
    revert H. apply (respects_bind R); [done|]. intros _. apply respects_bind; [done..|].
    intros _. apply respects_ret, _.
  - pose proof (respects_plan_command R _ _ _ _ _ _ Hp). by destruct e; simplify_eq.
Qed.

Lemma apply_event_keeps_log row k :
  respects keeps_log (_apply_event fromisoformat cast row k).
Proof. apply respects_apply_event; [apply _|]. intros. split; apply update_keeps_log. Qed.

Lemma update_empty t before k : respects keeps_committed (update cast t before ∅ k).
Proof. unfold update. rewrite bool_decide_eq_true_2 by done. apply respects_ret, _. Qed.

Lemma apply_event_keeps_committed row k :
  respects keeps_committed (_apply_event fromisoformat cast row k).
Proof.
  apply respects_apply_event; [apply _|]. intros c work attempt p Hc Hp.
  split; [apply update_attempts_committed|].
  destruct (plan_moves _ _ _ _ _ _ (from_row_ok _ _ _ Hc) Hp) as [->|[Ho _]]; [apply update_empty|].
  apply update_work_committed, (owner_spec _ _ _ Ho).
Qed.

(** A rejected command leaves the tables as they were. *)
Lemma apply_event_Ok row k l r l' :
  _apply_event fromisoformat cast row k l = (Ok r, l') →
  ∃ o, r = make_receipt row o k ∧ (o = REJECTED → l' = l) ∧
    (o = APPLIED → ∃ c work attempt p, from_row fromisoformat row = Ok c ∧
       (highest_sequence row l < cm_sequence c)%Z ∧
       _plan fromisoformat c work attempt (k_plan k) = Ok p).
Proof.
  unfold _apply_event. destruct (from_row fromisoformat row) as [c|e] eqn:Hc.
  - destruct (plan_command fromisoformat row c (k_plan k) l) as [[[[work attempt] p]|e] l1] eqn:Hp.
    + apply plan_command_Ok in Hp as (Hs&Hp&->). intros H.
      apply tx_bind_Ok in H as (?&?&_&H). apply tx_bind_Ok in H as (?&?&_&[-> ->]%tx_ret_Ok).
      exists APPLIED. split_and!; [done|done|]. intros _. by exists c, work, attempt, p.
    + intros H. pose proof (respects_plan_command eq _ _ _ _ _ _ Hp) as <-.
      destruct e; simplify_eq. by exists REJECTED.
  - intros H. destruct e; simplify_eq; by exists REJECTED.
Qed.

(** ** The loop *)

Lemma append_keeps_committed rs : respects keeps_committed (append_receipts rs).
Proof. apply respects_modify. by intros l i w. Qed.

Lemma drain_row_keeps_committed row k d :
  respects keeps_committed (drain_row fromisoformat cast row k d).
Proof.
  unfold drain_row. case_bool_decide; [apply respects_ret, _|].
  apply respects_bind; [apply _|apply respects_receipt, _|]. intros known.
  case_bool_decide; [apply respects_ret, _|].
  apply respects_bind; [apply _| |].
  - destruct (_ || _); [|apply respects_ret, _].
    apply respects_bind; [apply _|apply append_keeps_committed|]. intros _. apply respects_ret, _.
  - intros d1. apply respects_bind; [apply _|apply apply_event_keeps_committed|].
    intros r. apply respects_ret, _.
Qed.

Lemma drain_loop_keeps_committed rows clocks d :
  respects keeps_committed (drain_loop fromisoformat cast rows clocks d).
Proof.
  revert clocks d. induction rows as [|row rows IH]; intros clocks d; [apply respects_ret, _|].
  apply respects_bind; [apply _|apply drain_row_keeps_committed|]. intros d'. apply IH.
Qed.

(** What one turn does to the log: it skips the row, or it writes the batch when the
    row shares a work or an attempt with it, and adds a receipt to the batch. *)
Lemma drain_row_Ok row k d l d' l' :
  drain_row fromisoformat cast row k d l = (Ok d', l') →
  (d' = d ∧ l' = l ∧ (ev_event_id row ∈ d_seen d ∨
     (∃ r, r ∈ receipts l ∧ same_id (rc_event_id r) (ev_event_id row) = true))) ∨
  (∃ d1 l1 r, (ev_event_id row ∉ d_seen d) ∧
     Forall (λ r, same_id (rc_event_id r) (ev_event_id row) = false) (receipts l) ∧
     ((d1 = d ∧ l1 = l ∧ (ev_work_id row ∉ d_works d) ∧ (ev_attempt_id row ∉ d_attempts d)) ∨
      (d1 = flushed d ∧ receipts l1 = receipts l ++ d_batch d)) ∧
     worker_events l1 = worker_events l ∧
     _apply_event fromisoformat cast row k l1 = (Ok r, l') ∧ d' = drained row r d1).
Proof.
  unfold drain_row. case_bool_decide as Hs; [intros [-> ->]%tx_ret_Ok; left; auto|].
  intros (known&l0&Hk&H)%tx_bind_Ok.
  pose proof (respects_receipt eq _ _ _ _ Hk) as <-.
  unfold receipt in Hk. apply tx_bind_Ok in Hk as (?&?&[-> ->]%tx_get_Ok&Hk).
  destruct (List.filter _ _) as [|r0 [|]] eqn:Hf; [|..|by apply tx_raise_Ok in Hk];
    apply tx_ret_Ok in Hk as [-> _].
  - right. rewrite bool_decide_eq_false_2 in H by (by intros []).
    apply tx_bind_Ok in H as (d1&l1&Hd&(r&l2&Hr&[-> ->]%tx_ret_Ok)%tx_bind_Ok).
    exists d1, l1, r. split; [done|]. split.
    { apply Forall_forall. intros r' Hin. apply not_true_iff_false. intros E.
      assert (r' ∈ []) as Hb; [|by inversion Hb]. rewrite <-Hf.
      by apply (elem_of_sfilter (λ r, same_id (rc_event_id r) (ev_event_id row))). }
    destruct (_ || _) eqn:Hb.
    + apply tx_bind_Ok in Hd as (?&?&->%tx_modify_Ok&[-> ->]%tx_ret_Ok). simpl. eauto 10.
    + apply tx_ret_Ok in Hd as [-> ->]. apply orb_false_iff in Hb as [H1 H2]. btrue. eauto 10.
  - left. rewrite bool_decide_eq_true_2 in H by done. apply tx_ret_Ok in H as [-> ->].
    split_and!; [done..|right]. exists r0.
    apply (elem_of_sfilter (λ r, same_id (rc_event_id r) (ev_event_id row))). rewrite Hf. by left.
Qed.
End draining.

Lemma from_row_sequence fromisoformat row c :
  from_row fromisoformat row = Ok c → ev_sequence row = Some (cm_sequence c).
Proof.
  unfold from_row. intros H. req_inv H. injection H as <-. simpl.
  match goal with E : _positive_int (ev_sequence row) = _ |- _ => revert E end.
  unfold Events._positive_int. destruct (ev_sequence row) as [z|]; [|done].
  destruct (z <? 1)%Z; naive_solver.
Qed.

Lemma tx_bind_Err {S A B} (m : tx S A) (f : A → tx S B) s e s' :
  (m ≫= f) s = (Err e, s') ↔
  m s = (Err e, s') ∨ ∃ a s1, m s = (Ok a, s1) ∧ f a s1 = (Err e, s').
Proof. unfold mbind, tx_bind. destruct (m s) as [[]]; naive_solver. Qed.

(** ** Order of application *)

Definition same_execution (a b : Receipt) : bool :=
  same_id (rc_work_id a) (rc_work_id b) && same_id (rc_attempt_id a) (rc_attempt_id b)
  && same_id (rc_worker_execution_id a) (rc_worker_execution_id b).

(** An applied command has a higher sequence number than every receipt before it
    of the same execution. *)
Definition in_order (rs : list Receipt) : Prop :=
  ∀ i j a b x y, (i < j)%nat → rs !! i = Some a → rs !! j = Some b → same_execution a b = true →
    rc_outcome b = APPLIED → rc_sequence a = Some x → rc_sequence b = Some y → (x < y)%Z.

Lemma in_order_prefix rs rs' : in_order (rs ++ rs') → in_order rs.
Proof.
  intros H i j a b x y Hij Ha Hb. apply (H i j a b x y Hij); by apply lookup_app_l_Some.
Qed.

Lemma in_order_snoc rs b :
  in_order rs →
  (∀ a x y, a ∈ rs → same_execution a b = true → rc_outcome b = APPLIED →
     rc_sequence a = Some x → rc_sequence b = Some y → (x < y)%Z) →
  in_order (rs ++ [b]).
Proof.
  intros H Hb i j a' b' x y Hij Ha' Hb'. apply lookup_snoc_Some in Hb' as [[Hj Hb']|[Hj <-]].
  - rewrite lookup_app_l in Ha' by lia. by apply (H i j a' b' x y).
  - rewrite lookup_app_l in Ha' by lia. apply (Hb a'). by eapply list_elem_of_lookup_2.
Qed.

Lemma same_id_eq a b : same_id a b = true → a = b ∧ is_Some a.
Proof. destruct a, b; simpl; try done. intros ->%String.eqb_eq. done. Qed.

Lemma fold_max_ge l z : (z ≤ fold_left Z.max l z)%Z ∧ ∀ x, x ∈ l → (x ≤ fold_left Z.max l z)%Z.
Proof.
  revert z. induction l as [|y l IH]; intros z; simpl; [split; [lia|by intros x Hx; inversion Hx]|].
  destruct (IH (Z.max z y)) as [H1 H2]. split; [lia|]. intros x [->|Hx]%elem_of_cons; [lia|auto].
Qed.

Lemma highest_sequence_ge row l a x :
  a ∈ receipts l → rc_sequence a = Some x →
  same_id (rc_work_id a) (ev_work_id row) && same_id (rc_attempt_id a) (ev_attempt_id row)
    && same_id (rc_worker_execution_id a) (ev_worker_execution_id row) = true →
  (x ≤ highest_sequence row l)%Z.
Proof.
  intros Ha Hx Hs. unfold highest_sequence.
  assert (x ∈ acknowledged_sequences row l) as Hin.
  { unfold acknowledged_sequences. apply list_elem_of_omap. exists a. split; [|done].
    by apply elem_of_sfilter. }
  destruct (acknowledged_sequences row l) as [|z zs]; [by inversion Hin|].
  destruct (fold_max_ge zs z) as [H1 H2]. apply elem_of_cons in Hin as [->|Hin]; auto.
Qed.

Section theorems.
Context (fromisoformat : string → result Z).
Context (cast : Table → string → cell → cell).

(** The receipts that are written or wait in the batch. *)
Definition log (d : Draining) (l : Lake) : list Receipt := receipts l ++ d_batch d.

Record ordered (d : Draining) (l : Lake) : Prop := {
  or_log : in_order (log d l);
  or_batch : ∀ r, r ∈ d_batch d → rc_work_id r ∈ d_works d ∧ rc_attempt_id r ∈ d_attempts d;
}.

(** Before a command is applied, the receipts of its execution are written. *)
Lemma drain_row_ordered row k d l d' l' :
  ordered d l → drain_row fromisoformat cast row k d l = (Ok d', l') → ordered d' l'.
Proof.
  intros [Hl Hb] [(->&->&_)|(d1&l1&r&_&_&Hd&_&Ha&->)]%drain_row_Ok; [done|].
  destruct (apply_event_keeps_log _ _ _ _ _ _ _ Ha) as [_ Hr].
  apply apply_event_Ok in Ha as (o&->&_&Ha).
  assert (log d1 l1 = log d l ∧ (∀ a, a ∈ d_batch d1 → rc_work_id a ∈ d_works d1 ∧
    rc_attempt_id a ∈ d_attempts d1) ∧ (∀ a, a ∈ d_batch d1 →
    same_execution a (make_receipt row o k) = false)) as (El&Hb1&Hx).
  { destruct Hd as [(->&->&Hw&_)|(->&E)].
    - split_and!; [done|done|]. intros a Ha'. apply not_true_iff_false. unfold same_execution.
      intros [[E _]%andb_true_iff _]%andb_true_iff. apply same_id_eq in E as [E _]. simpl in E.
      apply Hw. rewrite <-E. by apply Hb.
    - unfold log, flushed. simpl. rewrite app_nil_r.
      split_and!; [done|..]; intros a Ha'; by inversion Ha'. }
  split.
  - unfold log in *. simpl. rewrite Hr, app_assoc, El. apply in_order_snoc; [exact Hl|].
    intros a x y Hin Hs Ho Hsx Hsy. simpl in Ho. destruct (Ha Ho) as (c&w&at'&p&Hc&Hseq&_).
    assert (a ∈ receipts l1) as Hal.
    { rewrite <-El in Hin. apply elem_of_app in Hin as [?|Hin]; [done|]. by rewrite (Hx a Hin) in Hs. }
    pose proof (highest_sequence_ge row l1 a x Hal Hsx Hs). simpl in Hsy.
    rewrite (from_row_sequence _ _ _ Hc) in Hsy. simplify_eq. lia.
  - simpl. intros a Hin. apply elem_of_app in Hin as [Hin|Hin].
    + destruct (Hb1 a Hin). split; by right.
    + apply list_elem_of_singleton in Hin as ->. split; by left.
Qed.

(** A turn that raises may have written the batch. *)
Lemma drain_row_Err_ordered row k d l e l' :
  ordered d l → drain_row fromisoformat cast row k d l = (Err e, l') →
  in_order (receipts l').
Proof.
  intros [Hl _]. unfold drain_row. case_bool_decide as Hs; [done|]. intros H.
  apply tx_bind_Err in H as [H|(known&l0&Hk&H)].
  { pose proof (respects_receipt keeps_log _ _ _ _ H) as [_ ->]. by eapply in_order_prefix. }
  pose proof (respects_receipt eq _ _ _ _ Hk) as <-. case_bool_decide as Hn; [done|].
  assert (∀ r0 l0, _apply_event fromisoformat cast row k l0 = (r0, l') →
    in_order (receipts l0) → in_order (receipts l')) as Ha.
  { intros r0 l0 Ha. by destruct (apply_event_keeps_log _ _ _ _ _ _ _ Ha) as [_ ->]. }
  apply tx_bind_Err in H as [H|(d1&l1&Hd&H)]; [by destruct (_ || _)|].
  apply tx_bind_Err in H as [H|(r&l2&_&H)]; [|done]. eapply Ha; [exact H|]. destruct (_ || _).
  - apply tx_bind_Ok in Hd as (?&?&->%tx_modify_Ok&[_ ->]%tx_ret_Ok). exact Hl.
  - apply tx_ret_Ok in Hd as [_ ->]. by eapply in_order_prefix.
Qed.

Lemma drain_loop_ordered rows clocks d l r l' :
  ordered d l → drain_loop fromisoformat cast rows clocks d l = (r, l') →
  in_order (receipts l') ∧ ∀ d', r = Ok d' → ordered d' l'.
Proof.
  revert clocks d l. induction rows as [|row rows IH]; intros clocks d l O H; simpl in H.
  - unfold mret, tx_ret in H. simplify_eq. split; [by eapply in_order_prefix, O|by intros ? [= <-]].
  - unfold mbind at 1, tx_bind in H.
    destruct (drain_row fromisoformat cast row (clocks 0) d l) as [[d1|e] l1] eqn:E.
    + eapply IH; [|exact H]. by eapply drain_row_ordered.
    + simplify_eq. split; [|done]. by eapply drain_row_Err_ordered.
Qed.

(** The receipts that the call has made so far, relative to the lake it began with. *)
Definition count (o : Outcome) (rs : list Receipt) : Z :=
  Z.of_nat (length (List.filter (λ r, bool_decide (rc_outcome r = o)) rs)).
Definition unknown (l : Lake) (id : option string) : Prop :=
  ∀ r, r ∈ receipts l → same_id (rc_event_id r) id = false.

Record acknowledging (l0 : Lake) (new : list Receipt) (d : Draining) (l : Lake) : Prop := {
  ak_log : log d l = receipts l0 ++ new;
  ak_events : worker_events l = worker_events l0;
  ak_seen : d_seen d = reverse (rc_event_id <$> new);
  ak_once : NoDup (rc_event_id <$> new);
  ak_unknown : ∀ r, r ∈ new → unknown l0 (rc_event_id r);
  ak_counts : d_processed d = Z.of_nat (length new) ∧ d_applied d = count APPLIED new ∧
    d_rejected d = count REJECTED new;
}.

Lemma count_snoc o rs r :
  count o (rs ++ [r]) = (count o rs + if bool_decide (rc_outcome r = o) then 1 else 0)%Z.
Proof.
  unfold count. rewrite List.filter_app, length_app. simpl. case_bool_decide; simpl; lia.
Qed.

Lemma drain_row_acknowledges l0 new row k d l d' l' :
  acknowledging l0 new d l → drain_row fromisoformat cast row k d l = (Ok d', l') →
  unknown l0 (ev_event_id row) →
  ∃ new', acknowledging l0 new' d' l' ∧ ev_event_id row ∈ rc_event_id <$> new' ∧
    (new' = new ∨ ∃ r, new' = new ++ [r] ∧ rc_event_id r = ev_event_id row).
Proof.
  intros A [(->&->&Hs)|(d1&l1&r&Hs&Hk&Hd&He&Ha&->)]%drain_row_Ok Hu.
  - exists new. split; [done|]. split; [|by left]. destruct Hs as [Hs|(r&Hr&E)].
    + rewrite (ak_seen _ _ _ _ A) in Hs. by apply elem_of_reverse.
    + assert (r ∈ log d l) as Hl by (apply elem_of_app; by left). rewrite (ak_log _ _ _ _ A) in Hl.
      apply elem_of_app in Hl as [Hl|Hl]; [by rewrite (Hu r Hl) in E|].
      apply same_id_eq in E as [<- _]. by apply list_elem_of_fmap_2.
  - destruct (apply_event_keeps_log _ _ _ _ _ _ _ Ha) as [He' Hr].
    apply apply_event_Ok in Ha as (o&->&_&_). set (r := make_receipt row o k).
    assert (log d1 l1 = log d l ∧ d_seen d1 = d_seen d ∧ d_processed d1 = d_processed d ∧
      d_applied d1 = d_applied d ∧ d_rejected d1 = d_rejected d) as (El&Es&Ep&Ea&Er).
    { destruct Hd as [(->&->&_)|(->&E)]; [done|]. unfold log, flushed. simpl. by rewrite app_nil_r, E. }
    exists (new ++ [r]). destruct A as [A1 A2 A3 A4 A5 (A6&A7&A8)].
    split; [|split; [rewrite fmap_app; set_solver|right; by exists r]]. split.
    + unfold log in *. simpl. by rewrite Hr, !app_assoc, El, A1.
    + congruence.
    + simpl. rewrite Es, A3, fmap_app. simpl. by rewrite reverse_snoc.
    + rewrite fmap_app. apply NoDup_app. split_and!; [done| |apply NoDup_singleton].
      intros id Hid ->%list_elem_of_singleton. simpl in Hid. apply Hs.
      by rewrite A3, elem_of_reverse.
    + intros r' [Hr'| ->%list_elem_of_singleton]%elem_of_app; [by apply A5|done].
    + simpl. rewrite !count_snoc, length_app, Ep, Ea, Er, A6, A7, A8. simpl. lia.
Qed.

Lemma drain_loop_acknowledges l0 new rows clocks d l d' l' :
  acknowledging l0 new d l → (∀ e, e ∈ rows → unknown l0 (ev_event_id e)) →
  drain_loop fromisoformat cast rows clocks d l = (Ok d', l') →
  ∃ new', acknowledging l0 new' d' l' ∧
    (∀ e, e ∈ rows → ev_event_id e ∈ rc_event_id <$> new') ∧
    (∃ more, new' = new ++ more ∧ ∀ r, r ∈ more → rc_event_id r ∈ ev_event_id <$> rows).
Proof.
  revert new clocks d l. induction rows as [|row rows IH]; intros new clocks d l A Hu H; simpl in H.
  - apply tx_ret_Ok in H as [-> ->]. exists new. split_and!; [done|by intros e He; inversion He|].
    exists []. rewrite app_nil_r. split; [done|]. intros r Hr. by inversion Hr.
  - apply tx_bind_Ok in H as (d1&l1&H1&H).
    destruct (drain_row_acknowledges _ _ _ _ _ _ _ _ A H1) as (n1&A1&Hin&Hn1); [apply Hu; by left|].
    destruct (IH _ _ _ _ A1 (λ e He, Hu e (list_elem_of_further _ _ _ He)) H)
      as (n2&A2&Hall&more&->&Hmore).
    exists (n1 ++ more). split; [done|]. split.
    + intros e [->|He]%elem_of_cons; [rewrite fmap_app; set_solver|by apply Hall].
    + destruct Hn1 as [->|(r&->&Er)].
      * exists more. split; [done|]. intros r Hr. simpl. right. by apply Hmore.
      * exists (r :: more). split; [by rewrite <-app_assoc|].
        intros r' [->|Hr']%elem_of_cons; simpl; [rewrite Er; left|right; by apply Hmore].
Qed.

Lemma acknowledging_start l : acknowledging l [] draining0 l.
Proof.
  split; try done; [constructor|].
  intros r Hr. by inversion Hr.
Qed.

Lemma unknown_unacknowledged l e :
  e ∈ unacknowledged l ↔ e ∈ worker_events l ∧ unknown l (ev_event_id e).
Proof.
  unfold unacknowledged. rewrite elem_of_sfilter, negb_true_iff, <-not_true_iff_false, existsb_exists.
  setoid_rewrite <-list_elem_of_In. unfold unknown. split; intros [H1 H2]; (split; [done|]).
  - intros r Hr. apply not_true_iff_false. intros E. apply H2. by exists r.
  - intros (r&Hr&E). by rewrite (H2 r Hr) in E.
Qed.

Lemma elem_of_pending limit l e : e ∈ pending limit l → e ∈ unacknowledged l.
Proof. unfold pending. intros H. apply elem_of_take in H as (i&Hi&_).
  by eapply elem_of_order_by, list_elem_of_lookup_2.
Qed.

(** The drain is its loop and a last write of the batch. *)
Lemma drain_Ok limit clocks l d l' :
  _drain fromisoformat cast limit clocks l = (Ok d, l') →
  ∃ l1, drain_loop fromisoformat cast (pending limit l) clocks draining0 l = (Ok d, l1) ∧
    receipts l' = log d l1 ∧ worker_events l' = worker_events l1.
Proof.
  unfold _drain. intros (?&?&[-> ->]%tx_get_Ok&H)%tx_bind_Ok.
  apply tx_bind_Ok in H as (d1&l1&H1&(u&l2&H2&[-> ->]%tx_ret_Ok)%tx_bind_Ok). exists l1.
  split; [done|]. unfold log. destruct (d_batch d1).
  - apply tx_ret_Ok in H2 as [_ ->]. by rewrite app_nil_r.
  - by apply tx_modify_Ok in H2 as ->.
Qed.

(** The drain, however it ends. *)
Lemma drain_cases limit clocks l r l' :
  _drain fromisoformat cast limit clocks l = (r, l') →
  ∃ r1 l1, drain_loop fromisoformat cast (pending limit l) clocks draining0 l = (r1, l1) ∧
    match r1 with
    | Ok d => video_work l' = video_work l1 ∧ receipts l' = log d l1
    | Err _ => l' = l1
    end.
Proof.
  unfold _drain, mbind, tx_bind, tx_get. destruct (drain_loop _ _ _ _ _ l) as [[d|e] l1].
  - intros H. exists (Ok d), l1. split; [done|]. unfold log. destruct (d_batch d) as [|r0 rs].
    + unfold mret, tx_ret in H. simplify_eq. by rewrite app_nil_r.
    + unfold append_receipts, tx_modify, mret, tx_ret in H. by simplify_eq.
  - intros H. exists (Err e), l1. by simplify_eq.
Qed.
End theorems.

(** C26. Exactly one acknowledgement.  A successful drain adds receipts behind the old
    ones: every pending command up to the limit gets one, no command gets two, no
    other command gets one, none had one before; and the returned counts are the
    counts of the new receipts. *)
Theorem drain_acknowledges_once fromisoformat cast limit clocks l d l' :
  _drain fromisoformat cast limit clocks l = (Ok d, l') →
  ∃ new, receipts l' = receipts l ++ new ∧ worker_events l' = worker_events l ∧
    NoDup (rc_event_id <$> new) ∧
    (∀ id, id ∈ rc_event_id <$> new ↔ id ∈ ev_event_id <$> pending limit l) ∧
    (∀ r, r ∈ new → unknown l (rc_event_id r)) ∧
    d_processed d = Z.of_nat (length new) ∧ d_applied d = count APPLIED new ∧
    d_rejected d = count REJECTED new ∧ (d_applied d + d_rejected d = d_processed d)%Z.
Proof.
  intros (l1&H&Hr&He)%drain_Ok.
  destruct (drain_loop_acknowledges _ _ _ [] _ _ _ _ _ _ (acknowledging_start l)
    (λ e He, proj2 (proj1 (unknown_unacknowledged l e) (elem_of_pending _ _ _ He))) H)
    as (new&[A1 A2 A3 A4 A5 (A6&A7&A8)]&Hall&more&->&Hmore).
  exists more. simpl in *. split_and!; try done; [congruence|congruence| |].
  - intros id. split; intros (x&->&Hx)%list_elem_of_fmap; [by apply Hmore|by apply Hall].
  - rewrite A6, A7, A8. unfold count. clear. induction more as [|r more IH]; [done|].
    simpl. repeat case_bool_decide; simpl; destruct (rc_outcome r); try congruence; lia.
Qed.

(** Commands of one execution are applied in the order of their sequence
    numbers, in every drain and also when the drain is interrupted: an applied
    command is newer than every command of its execution that has a receipt. *)
Theorem receipts_stay_ordered fromisoformat cast limit clocks l r l' :
  in_order (receipts l) → _drain fromisoformat cast limit clocks l = (r, l') →
  in_order (receipts l').
Proof.
  intros Ho (r1&l1&H&Hr)%drain_cases.
  assert (ordered draining0 l) as O.
  { split; [unfold log; by rewrite app_nil_r|]. intros x Hx. by inversion Hx. }
  destruct (drain_loop_ordered _ _ _ _ _ _ _ _ O H) as [H1 H2].
  destruct r1 as [d|e]; [destruct Hr as [_ ->]; by apply H2|by subst].
Qed.

(** Committed work is final: no drain changes the row of a work that has a
    committed attempt, whatever commands it finds and however it ends. *)
Theorem committed_work_is_final fromisoformat cast limit clocks l r l' i w :
  _drain fromisoformat cast limit clocks l = (r, l') →
  video_work l !! i = Some w → col w "committed_attempt_id"%string ≠ CNone →
  video_work l' !! i = Some w.
Proof.
  intros (r1&l1&H&Hr)%drain_cases Hw Hc.
  pose proof (drain_loop_keeps_committed _ _ _ _ _ _ _ _ H i w Hw Hc) as Hw1.
  destruct r1 as [d|e]; [destruct Hr as [-> _]; exact Hw1|by subst].
Qed.

(** ** A concrete drain *)

Definition demo_cast (t : Table) (k : string) (c : cell) : cell := c.
Definition demo_committed : Row :=
  {["work_id" := CText "v"; "status" := CText "SUCCEEDED"; "committed_attempt_id" := CText "b"]}%string.
Definition demo_lake : Lake := {|
  video_work := [demo_committed; demo_work]; video_attempts := [demo_attempt];
  worker_events := [demo_row "commit" 2; demo_row "failure" 1]%string; receipts := [] |}.
Definition demo_clocks (i : nat) : Clock :=
  {| k_plan := 60; k_write := 61; k_check := 62; k_receipt := 63 |}.
Definition demo_drain : E Draining := _drain demo_iso demo_cast 10 demo_clocks.
Definition demo_drained : result Draining * Lake := Eval vm_compute in demo_drain demo_lake.
Lemma demo_drain_eq : demo_drain demo_lake = demo_drained.
Proof. vm_cast_no_check (eq_refl demo_drained). Qed.

(** The failure is applied first; the later commit of the failed attempt is rejected. *)
Example demo_drain_receipts :
  (λ r, (rc_event_id r, rc_outcome r)) <$> receipts demo_drained.2 =
  [(Some "failure-event", APPLIED); (Some "commit-event", REJECTED)]%string.
Proof. vm_compute. reflexivity. Qed.

Lemma drain_acknowledges_once_witness :
  ∃ d new, demo_drained.1 = Ok d ∧ receipts demo_drained.2 = new ∧ NoDup (rc_event_id <$> new) ∧
    (d_applied d + d_rejected d = d_processed d)%Z.
Proof.
  destruct demo_drained as [[d|e] l'] eqn:E; [|discriminate E].
  destruct (drain_acknowledges_once demo_iso demo_cast 10 demo_clocks demo_lake d l'
    (eq_trans demo_drain_eq E)) as (new&Hr&_&Hn&_&_&_&_&_&Hc).
  exists d, new. split; [reflexivity|]. split; [exact Hr|]. split; [exact Hn|exact Hc].
Defined.

Lemma receipts_stay_ordered_witness : in_order (receipts demo_drained.2).
Proof.
  refine (receipts_stay_ordered demo_iso demo_cast 10 demo_clocks demo_lake
    demo_drained.1 demo_drained.2 _ _).
  - intros i j a b x y _ Ha. discriminate Ha.
  - exact (eq_trans demo_drain_eq (surjective_pairing demo_drained)).
Defined.

Lemma committed_work_is_final_witness :
  video_work demo_drained.2 !! 0%nat = Some demo_committed.
Proof.
  refine (committed_work_is_final demo_iso demo_cast 10 demo_clocks demo_lake
    demo_drained.1 demo_drained.2 0 demo_committed _ _ _).
  - exact (eq_trans demo_drain_eq (surjective_pairing demo_drained)).
  - reflexivity.
  - vm_compute. discriminate.
Defined.

(** ** A command that stops the inbox *)

Definition endless_row : EventRow :=
  let row := demo_row "heartbeat"%string 1 in
  {| row with ev_payload_json := Some (demo_envelope
       (VDict [("status", VStr "RUNNING"); ("updates", VDict [])]) (10 ^ 12))%string |}.
Definition endless_lake : Lake := {|
  video_work := [demo_work]; video_attempts := [demo_attempt];
  worker_events := [endless_row]; receipts := [] |}%string.

(** Every other waiting command was created later. *)
Definition first_in_line (row : EventRow) (l : Lake) : Prop :=
  row ∈ unacknowledged l ∧
  ∀ e, e ∈ unacknowledged l → e = row ∨ opt_lt Z.ltb (ev_created_at row) (ev_created_at e) = true.

Definition not_after (x y : EventRow) : Prop := opt_lt Z.ltb (ev_created_at y) (ev_created_at x) = false.

#[local] Instance not_after_trans : Transitive not_after.
Proof.
  intros x y z. unfold not_after. destruct (ev_created_at x), (ev_created_at y), (ev_created_at z); simpl;
    rewrite ?Z.ltb_ge; try done. lia.
Qed.

Lemma str_ltb_asym a b : str_ltb a b = true → str_ltb b a = false.
Proof. unfold str_ltb. rewrite negb_true_iff, negb_false_iff. intros H. destruct (str_leb_total a b); congruence. Qed.

Lemma opt_lt_asym {A} (lt : A → A → bool) a b :
  (∀ x y, lt x y = true → lt y x = false) → opt_lt lt a b = true → opt_lt lt b a = false.
Proof. intros H. destruct a, b; simpl; auto; done. Qed.

#[local] Instance event_order_total : Total (λ x y, Is_true (event_order x y)).
Proof.
  intros x y. rewrite !Is_true_true. unfold event_order.
  repeat match goal with |- context [opt_lt ?lt ?a ?b] =>
    lazymatch goal with H : opt_lt lt a b = _ |- _ => fail | _ => destruct (opt_lt lt a b) eqn:?; simpl end end;
    auto.
  by rewrite (opt_lt_asym _ _ _ str_ltb_asym Heqb5) in *.
Qed.

Lemma event_order_not_after x y : event_order x y = true → not_after x y.
Proof.
  unfold event_order, not_after. destruct (opt_lt Z.ltb (ev_created_at y) (ev_created_at x)) eqn:E; [|done].
  assert (opt_lt Z.ltb (ev_created_at x) (ev_created_at y) = false) as ->.
  { eapply opt_lt_asym; [|exact E]. intros a b. rewrite Z.ltb_lt, Z.ltb_ge. lia. }
  done.
Qed.

(** The first in line is the first that a drain takes. *)
Lemma pending_first row l limit :
  first_in_line row l → ∃ rest, pending (S limit) l = row :: rest.
Proof.
  intros [Hin Hall]. unfold pending.
  assert (Sorted (λ x y, Is_true (event_order x y)) (order_by event_order (unacknowledged l))) as Hs
    by (unfold order_by; apply Sorted_merge_sort, _).
  pose proof (order_by_Permutation event_order (unacknowledged l)) as Hp.
  destruct (order_by event_order (unacknowledged l)) as [|h k]; [by rewrite <-Hp in Hin; apply elem_of_nil in Hin|].
  simpl. exists (take limit k). f_equal.
  destruct (Hall h) as [->|Hlt]; [by rewrite <-Hp; left|done|exfalso].
  assert (StronglySorted not_after (h :: k)) as Hss.
  { apply Sorted_StronglySorted; [by intros ???; apply not_after_trans|].
    clear -Hs. induction Hs as [|x l1 _ IH Hx]; constructor; [done|].
    destruct Hx as [|y l2 ?%Is_true_true]; constructor. by apply event_order_not_after. }
  apply StronglySorted_inv in Hss as [_ Hf]. rewrite <-Hp in Hin. apply elem_of_cons in Hin as [->|Hin].
  - destruct (ev_created_at h); simpl in Hlt; [rewrite Z.ltb_lt in Hlt; lia|done].
  - rewrite Forall_forall in Hf. specialize (Hf row Hin). unfold not_after in Hf. congruence.
Qed.

Section endless.
Context (fromisoformat : string → result Z) (cast : Table → string → cell → cell).

(** A heartbeat of the owner of an active work, the oldest command that waits, whose
    renewed lease would end after the last datetime. *)
Record endless (row : EventRow) (l : Lake) : Prop := {
  en_first : first_in_line row l;
  en_plan : ∃ c work attempt status u u',
    from_row fromisoformat row = Ok c ∧ cm_payload c = PHeartbeat status u ∧
    _attempt_updates fromisoformat u (cm_created_at c) = Ok u' ∧
    (datetime_max < cm_created_at c + cm_lease_minutes c * 60000000)%Z ∧
    (highest_sequence row l < cm_sequence c)%Z ∧
    List.filter (λ r, is_text (cm_work_id c) (col r "work_id")) (video_work l) = [work] ∧
    List.filter (λ r, is_text (cm_attempt_id c) (col r "attempt_id")) (video_attempts l) = [attempt] ∧
    _identity c work attempt = Ok tt ∧
    is_text (cm_worker_execution_id c) (col attempt "worker_execution_id") = true ∧
    _owner c work attempt = Ok tt;
}.

(** Later commands arrive, and the writer drains. *)
Inductive inbox_step (row : EventRow) (l : Lake) : Lake → Prop :=
  | inbox_submit e :
      opt_lt Z.ltb (ev_created_at row) (ev_created_at e) = true →
      inbox_step row l {| l with worker_events := worker_events l ++ [e] |}
  | inbox_drain limit clocks r l' :
      _drain fromisoformat cast limit clocks l = (r, l') → inbox_step row l l'.

Lemma endless_plan row c now l :
  endless row l → from_row fromisoformat row = Ok c →
  plan_command fromisoformat row c now l = (Err OverflowError, l).
Proof.
  intros [_ (c'&work&attempt&status&u&u'&Hc&Hp&Hu&Hend&Hseq&Hw&Ha&Hid&Hex&Hown)] Hc'.
  assert (c' = c) as -> by congruence. unfold plan_command.
  eapply tx_bind_run; [done|]. unfold tx_require. rewrite (proj2 (Z.ltb_lt _ _) Hseq).
  eapply tx_bind_run; [done|]. eapply tx_bind_run; [unfold unique; eapply tx_bind_run; [done|by simpl; rewrite Hw]|].
  eapply tx_bind_run; [unfold unique; eapply tx_bind_run; [done|by simpl; rewrite Ha]|].
  apply tx_bind_raise. unfold tx_lift. f_equal. unfold _plan. rewrite Hid. simpl. rewrite Hp. simpl. rewrite Hex.
  simpl. rewrite Hown. simpl. unfold _heartbeat. rewrite Hu. simpl. unfold add_minutes.
  rewrite (proj2 (Z.leb_gt _ _) Hend), andb_false_r. done.
Qed.

Lemma endless_drain row l limit clocks :
  endless row l → _drain fromisoformat cast (S limit) clocks l = (Err OverflowError, l).
Proof.
  intros H. pose proof H as [Hf (c&_&_&_&_&_&Hc&_)].
  destruct (pending_first row l limit Hf) as [rest Hp].
  unfold _drain. eapply tx_bind_run; [done|]. apply tx_bind_raise. rewrite Hp. simpl. apply tx_bind_raise.
  unfold drain_row. simpl. eapply tx_bind_run.
  { unfold receipt. eapply tx_bind_run; [done|]. destruct Hf as [[_ Hun]%unknown_unacknowledged _].
    replace (List.filter _ (receipts l)) with (@nil Receipt); [done|]. symmetry.
    apply elem_of_nil_inv. intros r [Hr Hs]%elem_of_sfilter. by rewrite (Hun r Hr) in Hs. }
  simpl. eapply tx_bind_run; [done|]. apply tx_bind_raise. unfold _apply_event. rewrite Hc.
  by rewrite (endless_plan _ _ _ _ H Hc).
Qed.

Lemma endless_step row l l' : endless row l → inbox_step row l l' → endless row l' ∧ receipts l' = receipts l.
Proof.
  intros H [e He|[|limit] clocks r l'' Hd].
  - destruct H as [[Hin Hall] Hp]. split; [|done]. split; [|exact Hp].
    assert (∀ x, x ∈ unacknowledged {| l with worker_events := worker_events l ++ [e] |} ↔
      x ∈ unacknowledged l ∨ x = e ∧ unknown l (ev_event_id x)) as Hx.
    { intros x. rewrite !unknown_unacknowledged. simpl. rewrite elem_of_app, list_elem_of_singleton.
      unfold unknown. simpl. naive_solver. }
    split; [apply Hx; by left|]. intros x [?|[-> _]]%Hx; [by apply Hall|by right].
  - unfold _drain, pending in Hd. simpl in Hd. unfold mbind, tx_bind, tx_get in Hd. simpl in Hd.
    injection Hd as _ <-. done.
  - rewrite (endless_drain _ _ _ _ H) in Hd. injection Hd as _ <-. done.
Qed.

(** C31. A command can stop the inbox for good.  The lease length of a heartbeat is only
    checked to be positive.  If the heartbeat comes from the owner of an active work,
    with a new sequence number, and the renewed lease would end after the last datetime, its plan raises OverflowError,
    which is not a rejection.  So as soon as it is the oldest waiting command, every
    drain raises OverflowError and changes nothing, whatever commands created later arrive and
    however often the writer drains, as long as nobody else changes the rows of the
    work and the attempt: no receipt is ever written. *)
Theorem endless_lease_blocks_the_inbox row l l' :
  endless row l → rtc (inbox_step row) l l' →
  receipts l' = receipts l ∧
  ∀ limit clocks, _drain fromisoformat cast (S limit) clocks l' = (Err OverflowError, l').
Proof.
  intros H Hr. assert (endless row l' ∧ receipts l' = receipts l) as [H' E].
  { induction Hr as [l|l l1 l2 Hs _ IH]; [done|]. destruct (endless_step _ _ _ H Hs) as [H1 E1].
    destruct (IH H1) as [? ?]. split; [done|congruence]. }
  split; [done|]. intros. by apply (endless_drain row).
Qed.
End endless.

(** The heartbeat, then a later failure of the same attempt. *)
Definition later_row : EventRow :=
  let row := demo_row "failure"%string 2 in {| row with ev_created_at := Some 60%Z |}.
Definition later_lake : Lake :=
  {| endless_lake with worker_events := worker_events endless_lake ++ [later_row] |}.

Lemma endless_sample : endless demo_iso endless_row endless_lake.
Proof.
  split.
  - split; [apply list_elem_of_In; vm_compute; auto|].
    intros e He. left. apply list_elem_of_In in He. vm_compute in He. destruct He as [<-|[]]. reflexivity.
  - destruct (from_row demo_iso endless_row) as [c|] eqn:Hc; [|by vm_compute in Hc].
    pose proof Hc as Hc'. vm_compute in Hc'. injection Hc' as <-.
    eexists _, demo_work, demo_attempt, _, _, _. split_and!; [exact Hc|reflexivity..].
Qed.

Lemma endless_lease_blocks_the_inbox_witness :
  worker_events later_lake ≠ [] ∧ receipts later_lake = [] ∧
  ∀ limit clocks, _drain demo_iso demo_cast (S limit) clocks later_lake = (Err OverflowError, later_lake).
Proof.
  split; [discriminate|]. apply (endless_lease_blocks_the_inbox demo_iso demo_cast endless_row endless_lake).
  - exact endless_sample.
  - apply rtc_once. apply inbox_submit. vm_compute. reflexivity.
Defined.
