(* ===== verification/FabricLock.v ===== *)
(** * fabric_control.py: the durable control lock

    Every writer of the control tables runs its operation under one lock row of a
    Delta table.  A writer is the program counter of [ControlWriter.run]; one step
    is one read or one conditional update of the lock table, or one test of the
    deadline, so any interleaving of writers is a sequence of steps.  The storage
    answers each step: it may fail, and a failed update may have been committed.
    The second part proves mutual exclusion and progress. *)
From S2P Require Export Prelude PyFloat PyVal ControlTypes.

Module Lock.

Local Open Scope string_scope.

(** A row of the lock table: lock_name, owner_id, acquired_at. *)
Record LockRow := {
  lk_name : string;
  lk_owner_id : option string;
  lk_acquired_at : option Z;
}.
Abbreviation LockTable := (list LockRow).

(** [_LockState]. *)
Record LockState := { st_owner_id : option string; st_acquired_at : option Z }.

(** ** Delta's concurrency errors *)

Definition _OCC_NAMES : list string :=
  ["ConcurrentAppendException"; "ConcurrentDeleteReadException";
   "ConcurrentDeleteDeleteException"; "ConcurrentTransactionException";
   "ConcurrentWriteException"; "MetadataChangedException"; "ProtocolChangedException"].
Definition _OCC_ERROR_CLASSES : list string :=
  ["DELTA_CONCURRENT_APPEND"; "DELTA_CONCURRENT_DELETE_READ"; "DELTA_CONCURRENT_DELETE_DELETE";
   "DELTA_CONCURRENT_TRANSACTION"; "DELTA_CONCURRENT_WRITE"; "DELTA_METADATA_CHANGED";
   "DELTA_PROTOCOL_CHANGED"].
Definition _OCC_JAVA_CLASSES : list string :=
  package ← ["io.delta.exceptions"; "org.apache.spark.sql.delta"];
  name ← _OCC_NAMES;
  [package +:+ "." +:+ name].

(** An exception of the storage, as the code inspects it. *)
Record StorageError := {
  se_retryable : bool;               (* an instance of [_acquisition_error_types] *)
  se_module : string;
  se_name : string;
  se_error_class : option string;    (* getErrorClass(), when it has one *)
  se_java_class : option string;     (* java_exception.getClass().getName() *)
}.

Definition one_of (s : option string) (l : list string) : bool :=
  match s with Some x => existsb (String.eqb x) l | None => false end.
Definition _is_delta_occ (e : StorageError) : bool :=
  (String.eqb (se_module e) "delta.exceptions" && one_of (Some (se_name e)) _OCC_NAMES)
  || one_of (se_error_class e) _OCC_ERROR_CLASSES
  || one_of (se_java_class e) _OCC_JAVA_CLASSES.

(** ** The lock table *)

Definition _read_lock (t : LockTable) : result LockState :=
  match t with
  | [r] => if String.eqb (lk_name r) "global"
           then Ok {| st_owner_id := lk_owner_id r; st_acquired_at := lk_acquired_at r |}
           else Err ControlLockError
  | _ => Err ControlLockError
  end.

(** The conditional update of [_claim]. *)
Definition _claim (owner_id : string) (now : Z) (t : LockTable) : LockTable :=
  (λ r, if String.eqb (lk_name r) "global" && bool_decide (lk_owner_id r = None)
        then {| lk_name := lk_name r; lk_owner_id := Some owner_id; lk_acquired_at := Some now |}
        else r) <$> t.

(** The conditional update of [_release]. *)
Definition clear (owner_id : string) (t : LockTable) : LockTable :=
  (λ r, if String.eqb (lk_name r) "global" && bool_decide (lk_owner_id r = Some owner_id)
        then {| lk_name := lk_name r; lk_owner_id := None; lk_acquired_at := None |}
        else r) <$> t.

(** ** One writer *)

(** [ControlWriter.__init__]. *)
Definition check_writer (lock_table : string) (timeout_seconds : Float) : result unit :=
  require (negb (is_blank lock_table)) ValueError;;
  require (fisfinite timeout_seconds && negb (fleb timeout_seconds fzero)) ValueError.

Inductive failure := F_exn (e : exn) | F_storage (e : StorageError) | F_operation.

Inductive Pc :=
  | Starting                         (* [_acquire]: the first read *)
  | Waiting (s : LockState)          (* the head of the while loop *)
  | Claiming                         (* the update of [_claim] *)
  | Claimed                          (* the read after it *)
  | Sleeping                         (* the read after the pause *)
  | Running                          (* the operation *)
  | Releasing                        (* [_release]: the first read *)
  | Clearing                         (* its update *)
  | Verifying                        (* its last read *)
  | Returned
  | Raised (f : failure).

(** What the environment answers to a step: the call works, or (at the head of the
    loop) the deadline has passed, or the storage or the operation raises; [committed]
    tells whether an update that raised took effect. *)
Inductive Answer :=
  | Fine
  | Expired
  | Fails (e : StorageError) (committed : bool).

(** A read of the lock and what follows. *)
Definition reading (t : LockTable) (a : Answer) (k : LockState → Pc) : Pc :=
  match a with
  | Fails e _ => Raised (F_storage e)
  | _ => match _read_lock t with Ok s => k s | Err e => Raised (F_exn e) end
  end.

(** The tests at the end of an iteration: ours, or wait. *)
Definition owned (owner_id : string) (s : LockState) (next : Pc) : Pc :=
  if bool_decide (st_owner_id s = Some owner_id) then Running else next.

Definition writer_step (owner_id : string) (now : Z) (a : Answer) (pc : Pc) (t : LockTable)
    : option (Pc * LockTable) :=
  match pc with
  | Starting => Some (reading t a Waiting, t)
  | Waiting s =>
      match a with
      | Expired => Some (Raised (F_exn TimeoutError), t)
      | _ => Some (if bool_decide (st_owner_id s = None) then Claiming
                   else owned owner_id s Sleeping, t)
      end
  | Claiming =>
      match a with
      | Fails e committed =>
          let t' := if committed then _claim owner_id now t else t in
          Some (if se_retryable e && _is_delta_occ e then Claimed else Raised (F_storage e), t')
      | _ => Some (Claimed, _claim owner_id now t)
      end
  | Claimed => Some (reading t a (λ s, owned owner_id s Sleeping), t)
  | Sleeping => Some (reading t a Waiting, t)
  | Running =>
      match a with
      | Fails _ _ => Some (Raised F_operation, t)
      | _ => Some (Releasing, t)
      end
  | Releasing =>
      Some (reading t a (λ s,
        if bool_decide (st_owner_id s = Some owner_id) && bool_decide (is_Some (st_acquired_at s))
        then Clearing else Raised (F_exn ControlLockError)), t)
  | Clearing =>
      match a with
      | Fails e committed => Some (Raised (F_storage e), if committed then clear owner_id t else t)
      | _ => Some (Verifying, clear owner_id t)
      end
  | Verifying =>
      Some (reading t a (λ s,
        if bool_decide (st_owner_id s = Some owner_id)
           || negb (Bool.eqb (bool_decide (st_owner_id s = None))
                     (bool_decide (st_acquired_at s = None)))
        then Raised (F_exn ControlLockError) else Returned), t)
  | Returned | Raised _ => None
  end.

(** ** Many writers *)

(** The calls of [run] that were ever made, by their owner tokens. *)
Record System := { sy_writers : gmap string Pc; sy_table : LockTable }.

Inductive writers_step : System → System → Prop :=
  (* [run] draws a token that nobody used *)
  | ws_run s id :
      sy_writers s !! id = None → (∀ r, r ∈ sy_table s → lk_owner_id r ≠ Some id) →
      writers_step s {| sy_writers := <[id := Starting]> (sy_writers s); sy_table := sy_table s |}
  | ws_writer s id now a pc pc' t' :
      sy_writers s !! id = Some pc → writer_step id now a pc (sy_table s) = Some (pc', t') →
      writers_step s {| sy_writers := <[id := pc']> (sy_writers s); sy_table := t' |}.

(** An operator may clear the token of a writer that has stopped. *)
Inductive sys_step : System → System → Prop :=
  | ss_writers s s' : writers_step s s' → sys_step s s'
  | ss_operator s id f :
      sy_writers s !! id = Some (Raised f) →
      sys_step s {| sy_writers := sy_writers s; sy_table := clear id (sy_table s) |}.

(** The table that bootstrap creates. *)
Definition free_table : LockTable :=
  [{| lk_name := "global"; lk_owner_id := None; lk_acquired_at := None |}].
Definition boot : System := {| sy_writers := ∅; sy_table := free_table |}.
Definition sys_reachable (s : System) : Prop := rtc sys_step boot s.

(** Inside [operation], or between it and the release. *)
Definition inside (pc : Pc) : bool :=
  match pc with Running | Releasing | Clearing => true | _ => false end.

End Lock.

(** ** Correctness of the control lock

    Mutual exclusion of the operations, no spurious lock errors, no takeover from a
    writer that failed, and completion of a writer that is alone. *)
Import Lock.
Local Open Scope string_scope.

(** The one row of the table. *)
Definition the_row (owner : option string) (acquired : option Z) : LockTable :=
  [{| lk_name := "global"; lk_owner_id := owner; lk_acquired_at := acquired |}].

Definition owner_of (t : LockTable) : option string :=
  match t with [r] => lk_owner_id r | _ => None end.

Lemma claim_the_row owner acquired id now :
  _claim id now (the_row owner acquired) =
  match owner with None => the_row (Some id) (Some now) | Some _ => the_row owner acquired end.
Proof. destruct owner; done. Qed.

Lemma clear_the_row owner acquired id :
  clear id (the_row owner acquired) =
  if bool_decide (owner = Some id) then the_row None None else the_row owner acquired.
Proof. unfold clear, the_row. simpl. by case_bool_decide. Qed.

(** A writer that is about to start, waits, or has released. *)
Definition outside (pc : Pc) : bool :=
  match pc with
  | Starting | Waiting _ | Claiming | Sleeping | Verifying | Returned => true
  | _ => false
  end.

Record table_ok (t : LockTable) : Prop := {
  to_row : ∃ owner acquired, t = the_row owner acquired ∧ (owner = None ↔ acquired = None);
}.

(** What a writer at [pc] knows about the table. *)
Record writer_ok (t : LockTable) (id : string) (pc : Pc) : Prop := {
  wo_inside : inside pc = true → owner_of t = Some id;
  wo_outside : outside pc = true → owner_of t ≠ Some id;
  wo_stale : ∀ st, pc = Waiting st → st_owner_id st ≠ Some id;
}.

Record lock_ok (s : System) : Prop := {
  lo_table : table_ok (sy_table s);
  lo_writers : ∀ id pc, sy_writers s !! id = Some pc → writer_ok (sy_table s) id pc;
}.

(** How a step of [id] may move the table. *)
Inductive table_move (id : string) : LockTable → LockTable → Prop :=
  | tm_same t : table_move id t t
  | tm_claim now : table_move id (the_row None None) (the_row (Some id) (Some now))
  | tm_clear a : table_move id (the_row (Some id) a) (the_row None None).

Lemma claim_moves id now t : table_ok t → table_move id t (_claim id now t).
Proof.
  intros [(o&a&->&E)]. rewrite claim_the_row. destruct o; [constructor|].
  destruct a; [by destruct E as [E _]; specialize (E eq_refl)|constructor].
Qed.

Lemma clear_moves id t : table_ok t → table_move id t (clear id t).
Proof.
  intros [(o&a&->&E)]. rewrite clear_the_row. case_bool_decide; [subst|]; constructor.
Qed.

Lemma table_move_ok id t t' : table_ok t → table_move id t t' → table_ok t'.
Proof. intros T H. inversion H; subst; [done|..]; constructor; eexists _, _; (split; [reflexivity|naive_solver]). Qed.

(** The knowledge of the others is stable. *)
Lemma writer_ok_stable id j t t' pc :
  j ≠ id → table_move id t t' → writer_ok t j pc → writer_ok t' j pc.
Proof.
  intros Hne Hm [I O S]. destruct Hm as [|now|a]; [done|..]; (split; [|..|exact S]); simpl in *.
  - intros Hi. by specialize (I Hi).
  - intros _ [= ->]. done.
  - intros Hi. specialize (I Hi). congruence.
  - done.
Qed.

Lemma writer_step_moves id now a pc t pc' t' :
  table_ok t → writer_step id now a pc t = Some (pc', t') → table_move id t t'.
Proof.
  intros T H. destruct pc, a; simpl in H; repeat case_match; simplify_eq;
    first [constructor | by apply claim_moves | by apply clear_moves].
Qed.

(** The read of a well-formed table. *)
Lemma reading_ok t a k :
  table_ok t →
  (∃ e c, a = Fails e c ∧ reading t a k = Raised (F_storage e)) ∨
  (∃ st, _read_lock t = Ok st ∧ st_owner_id st = owner_of t ∧
     (st_owner_id st = None ↔ st_acquired_at st = None) ∧ reading t a k = k st).
Proof.
  intros [(o&q&->&E)]. destruct a as [| |e c]; simpl; [right; eexists; split_and!; done..|].
  left. eauto.
Qed.

Lemma writer_ok_raised t id f : writer_ok t id (Raised f).
Proof. split; done. Qed.

Lemma writer_step_ok id now a pc t pc' t' :
  table_ok t → writer_ok t id pc → writer_step id now a pc t = Some (pc', t') →
  writer_ok t' id pc'.
Proof.
  intros T [I O S] H.
  assert (∀ k, (∀ st, st_owner_id st = owner_of t → writer_ok t id (k st)) →
    writer_ok t id (reading t a k)) as Hread.
  { intros k Hk. destruct (reading_ok t a k T) as [(e&c&_&->)|(st&_&E&_&->)];
      [apply writer_ok_raised|by apply Hk]. }
  destruct pc; simpl in *; simplify_eq.
  - apply Hread. intros st E. split; simpl; [done|auto|]. intros ? [= <-]. rewrite E. auto.
  - destruct a; simplify_eq; try apply writer_ok_raised; unfold owned;
      repeat case_bool_decide; split; simpl; try done; try (by intros; auto);
      intros; exfalso; by eapply S.
  - destruct a; simplify_eq; [by split..|].
    destruct (_ && _); [by split|apply writer_ok_raised].
  - apply Hread. intros st E. unfold owned. case_bool_decide; split; simpl; congruence.
  - apply Hread. intros st E. split; simpl; [done|auto|]. intros ? [= <-]. rewrite E. auto.
  - destruct a; simplify_eq; [by split; auto..|apply writer_ok_raised].
  - apply Hread. intros st E. case_match; [|apply writer_ok_raised]. split; simpl; auto; done.
  - destruct a; simplify_eq; [..|apply writer_ok_raised]; (split; simpl; [done| |done]);
      destruct T as [(o&q&->&_)]; rewrite clear_the_row; case_bool_decide; done.
  - apply Hread. intros st E. case_match; [apply writer_ok_raised|]. split; simpl; auto; done.
Qed.

Lemma lock_ok_boot : lock_ok boot.
Proof.
  split; [|intros id pc H; simpl in H; by rewrite lookup_empty in H]. constructor. by exists None, None.
Qed.

Lemma sys_step_ok s s' : lock_ok s → sys_step s s' → lock_ok s'.
Proof.
  intros [T W] H. destruct H as [s s' [s0 id Hid Hfresh|s0 id now a pc pc' t' Hid Hs]|s id f Hid]; simpl in *.
  - split; simpl; [done|]. intros j pc [[<- <-]|[? ?]]%lookup_insert_Some; [|by auto].
    split; simpl; [done| |done]. intros _ E. destruct T as [(o&q&Et&_)]. rewrite Et in *.
    eapply (Hfresh {| lk_name := "global"; lk_owner_id := o; lk_acquired_at := q |}); [by left|done].
  - pose proof (writer_step_moves _ _ _ _ _ _ _ T Hs) as Hm. split; simpl; [by eapply table_move_ok|].
    intros j pc1 [[<- <-]|[Hne Hj]]%lookup_insert_Some.
    + eapply writer_step_ok; [done| |exact Hs]. by apply W.
    + eapply writer_ok_stable; [|exact Hm|by apply W]. congruence.
  - pose proof (clear_moves id _ T) as Hm. split; simpl; [by eapply table_move_ok|].
    intros j pc1 Hj. destruct (decide (j = id)) as [->|Hne].
    + rewrite Hid in Hj. simplify_eq. apply writer_ok_raised.
    + eapply writer_ok_stable; [done|exact Hm|by apply W].
Qed.

Lemma reachable_lock_ok s : sys_reachable s → lock_ok s.
Proof.
  unfold sys_reachable. intros H. apply rtc_nsteps in H as [n H].
  remember boot as s0 eqn:E. assert (lock_ok s0) as O by (rewrite E; apply lock_ok_boot). clear E.
  induction H as [|n s1 s2 s3 H1 _ IH]; [done|]. apply IH. by eapply sys_step_ok.
Qed.

(** ** Theorems *)

(** C25. Mutual exclusion: in every interleaving of any number of writers and of
    operator interventions, at most one writer is between the acquisition of the
    lock and its release, and the lock row carries that writer's token. *)
Theorem control_lock_excludes s id1 id2 pc1 pc2 :
  sys_reachable s → sy_writers s !! id1 = Some pc1 → sy_writers s !! id2 = Some pc2 →
  inside pc1 = true → inside pc2 = true →
  id1 = id2 ∧ ∃ acquired, sy_table s = the_row (Some id1) acquired.
Proof.
  intros [[(o&a&Et&_)] W]%reachable_lock_ok H1 H2 I1 I2.
  pose proof (wo_inside _ _ _ (W _ _ H1) I1) as E1. pose proof (wo_inside _ _ _ (W _ _ H2) I2) as E2.
  split; [congruence|]. exists a. rewrite Et in *. simpl in E1. by subst.
Qed.

(** A writer that runs step by step with the answers [as_]. *)
Fixpoint run_steps (id : string) (now : Z) (as_ : list Answer) (c : Pc * LockTable)
    : option (Pc * LockTable) :=
  match as_ with
  | [] => Some c
  | a :: as' => c' ← writer_step id now a c.1 c.2; run_steps id now as' c'
  end.

Lemma run_steps_reach id now answers s pc pc' t' :
  sy_writers s !! id = Some pc → run_steps id now answers (pc, sy_table s) = Some (pc', t') →
  rtc sys_step s {| sy_writers := <[id := pc']> (sy_writers s); sy_table := t' |}.
Proof.
  revert s pc. induction answers as [|a answers IH]; intros s pc Hpc H; simpl in H.
  - simplify_eq. destruct s as [w t]. simpl in *. by rewrite insert_id.
  - apply bind_Some in H as ([pc1 t1]&H1&H). eapply rtc_l; [by eapply ss_writers, ws_writer|].
    specialize (IH {| sy_writers := <[id := pc1]> (sy_writers s); sy_table := t1 |} pc1).
    simpl in IH. rewrite insert_insert_eq in IH. apply IH; [by rewrite lookup_insert_eq|done].
Qed.

Definition at_running (id : string) : System :=
  {| sy_writers := {[id := Running]}; sy_table := the_row (Some id) (Some 7%Z) |}.

Lemma at_running_reachable id : sys_reachable (at_running id).
Proof.
  eapply rtc_l.
  - apply ss_writers, (ws_run boot id); [apply lookup_empty|]. by intros r ->%list_elem_of_singleton.
  - pose proof (run_steps_reach id 7 [Fine; Fine; Fine; Fine]
      {| sy_writers := <[id := Starting]> ∅; sy_table := free_table |} Starting Running
      (the_row (Some id) (Some 7%Z))) as H.
    simpl in H. rewrite insert_insert_eq in H. apply H; [apply lookup_insert_eq|].
    unfold owned. simpl. by rewrite bool_decide_eq_true_2.
Qed.

Lemma control_lock_excludes_witness :
  sys_reachable (at_running "w1") ∧
  ∀ id pc, sy_writers (at_running "w1") !! id = Some pc → inside pc = true → "w1" = id.
Proof.
  split; [exact (at_running_reachable "w1")|]. intros id pc H I.
  refine (proj1 (control_lock_excludes (at_running "w1") "w1" id Running pc
    (at_running_reachable "w1") _ H _ I)); reflexivity.
Defined.

(** No spurious lock error: whatever the other writers and the operator do, a
    writer whose own storage calls work never sees ControlLockError, neither when it
    acquires, nor at its release, nor when it verifies the release while a successor
    may already hold the lock. *)
Theorem lock_never_looks_broken s id pc now a pc' t' :
  sys_reachable s → sy_writers s !! id = Some pc →
  writer_step id now a pc (sy_table s) = Some (pc', t') →
  pc' ≠ Raised (F_exn ControlLockError).
Proof.
  intros [T W]%reachable_lock_ok Hpc H ->. destruct (W _ _ Hpc) as [I O _].
  assert (∀ k, reading (sy_table s) a k = Raised (F_exn ControlLockError) →
    ∃ st, st_owner_id st = owner_of (sy_table s) ∧
      (st_owner_id st = None ↔ st_acquired_at st = None) ∧
      k st = Raised (F_exn ControlLockError)) as Hread.
  { intros k E. destruct (reading_ok (sy_table s) a k T) as [(e&c&->&E')|(st&_&E1&E2&E')];
      [congruence|]. rewrite E' in E. eauto. }
  destruct pc; simpl in H; try discriminate H; try (injection H as H _; apply Hread in H as (st&E1&E2&H)).
  - discriminate H.
  - destruct a; unfold owned in H; repeat case_bool_decide; discriminate H.
  - destruct a; [discriminate H..|]. destruct (_ && _); discriminate H.
  - unfold owned in H. case_bool_decide; discriminate H.
  - discriminate H.
  - destruct a; discriminate H.
  - assert (st_owner_id st = Some id) as Eo by (rewrite E1; auto).
    assert (is_Some (st_acquired_at st)) as Ha.
    { destruct (st_acquired_at st); [done|]. naive_solver. }
    by rewrite (bool_decide_eq_true_2 _ Eo), (bool_decide_eq_true_2 _ Ha) in H.
  - destruct a; discriminate H.
  - rewrite bool_decide_eq_false_2 in H by (rewrite E1; auto). simpl in H.
    rewrite (bool_decide_ext _ _ E2), Bool.eqb_reflx in H. discriminate H.
Qed.

Definition at_releasing (id : string) : System :=
  {| sy_writers := {[id := Releasing]}; sy_table := the_row (Some id) (Some 7%Z) |}.

Lemma at_releasing_reachable : sys_reachable (at_releasing "w1").
Proof.
  eapply rtc_r; [exact (at_running_reachable "w1")|].
  eapply ss_writers, (ws_writer (at_running "w1") "w1" 8 Fine Running Releasing); reflexivity.
Qed.

Lemma lock_never_looks_broken_witness :
  sys_reachable (at_releasing "w1") ∧
  ∀ pc' t', writer_step "w1" 9 Fine Releasing (the_row (Some "w1") (Some 7%Z)) = Some (pc', t') →
    pc' ≠ Raised (F_exn ControlLockError).
Proof.
  split; [exact at_releasing_reachable|]. intros pc' t' H.
  refine (lock_never_looks_broken (at_releasing "w1") "w1" Releasing 9 Fine pc' t'
    at_releasing_reachable _ H). reflexivity.
Defined.

(** No takeover: a writer that failed while it held the lock (its operation
    raised, or the storage raised before the release took effect) keeps it.  As long
    as no operator intervenes, no other writer is ever inside. *)
Theorem failed_writer_keeps_lock s s' id f acquired :
  sys_reachable s → sy_writers s !! id = Some (Raised f) →
  sy_table s = the_row (Some id) acquired → rtc writers_step s s' →
  sy_table s' = the_row (Some id) acquired ∧ sy_writers s' !! id = Some (Raised f) ∧
  ∀ id' pc, sy_writers s' !! id' = Some pc → inside pc = false.
Proof.
  intros R Hf Ht H.
  assert (sys_reachable s' ∧ sy_table s' = the_row (Some id) acquired ∧
    sy_writers s' !! id = Some (Raised f)) as (R'&Ht'&Hf').
  { induction H as [s|s1 s2 s3 Hs _ IH]; [done|].
    assert (sys_reachable s2) as R2 by (eapply rtc_r; [exact R|by apply ss_writers]).
    destruct Hs as [s j Hj Hfr|s j now a pc pc' t' Hj Hs].
    - apply IH; simpl; [done| |done]. rewrite lookup_insert_ne; [done|]. intros ->. congruence.
    - assert (j ≠ id) as Hne by (intros ->; rewrite Hf in Hj; by simplify_eq).
      apply IH; simpl; [done|by rewrite lookup_insert_ne|].
      pose proof (reachable_lock_ok _ R) as [T W].
      pose proof (writer_step_moves _ _ _ _ _ _ _ T Hs) as Hm. rewrite Ht in Hm.
      inversion Hm; subst; congruence. }
  split_and!; [done..|]. intros j pc Hj. pose proof (reachable_lock_ok _ R') as [_ W].
  destruct (inside pc) eqn:E; [|done]. pose proof (wo_inside _ _ _ (W _ _ Hj) E) as Ho.
  rewrite Ht' in Ho. simpl in Ho. injection Ho as <-. rewrite Hf' in Hj. by simplify_eq.
Qed.

Definition storage_down : StorageError :=
  {| se_retryable := true; se_module := "py4j.protocol"; se_name := "Py4JJavaError";
     se_error_class := None; se_java_class := Some "java.io.IOException" |}.

Definition after_failure (id : string) : System :=
  {| sy_writers := {[id := Raised F_operation]}; sy_table := the_row (Some id) (Some 7%Z) |}.

Lemma after_failure_reachable : sys_reachable (after_failure "w1").
Proof.
  eapply rtc_r; [exact (at_running_reachable "w1")|].
  eapply ss_writers, (ws_writer (at_running "w1") "w1" 8 (Fails storage_down false) Running
    (Raised F_operation)); reflexivity.
Qed.

Lemma failed_writer_keeps_lock_witness :
  sys_reachable (after_failure "w1") ∧
  ∀ s', rtc writers_step (after_failure "w1") s' → sy_table s' = the_row (Some "w1") (Some 7%Z).
Proof.
  split; [exact after_failure_reachable|]. intros s' H.
  refine (proj1 (failed_writer_keeps_lock (after_failure "w1") s' "w1" F_operation (Some 7%Z)
    after_failure_reachable _ _ H)); reflexivity.
Defined.

(** ** Progress *)











