(* ===== verification/ControlClaim.v ===== *)
(** * sjd_control.py: claim admission, registration and claims

    Which queue-ordered prefix of the ready work one claim may take: the scope
    and release filters, the worker limit of the process profile, and the
    longest-processing-time projection of the lease; then the calls that register
    works and claim a batch. *)
From S2P Require Export Prelude ControlTypes.

(** [require_release_compatibility(requests, expected)] on (work_id,
    release_digest) rows. *)
Definition require_release_compatibility (requests : list (string * string))
    (expected_release_digest : option pyval) : result unit :=
  match expected_release_digest with
  | None => Ok tt
  | Some v =>
      expected ← _required_text v;
      require (forallb (λ r, bool_decide (r.2 = expected)) requests) ImmutableConflictError
  end.

Fixpoint insert_uniq (s : string) (l : list string) : list string :=
  match l with
  | [] => [s]
  | x :: l' => if String.eqb s x then l
               else if str_leb s x then s :: l else x :: insert_uniq s l'
  end.

Fixpoint required_texts (l : list pyval) : result (list string) :=
  match l with
  | [] => Ok []
  | v :: l' => s ← _required_text v; r ← required_texts l'; Ok (s :: r)
  end.

(** [_allowed_work_scope]: None, or the sorted distinct identifiers. *)
Definition _allowed_work_scope (v : pyval) : result (option (list string)) :=
  let scope ids := l ← required_texts ids; Ok (Some (foldr insert_uniq [] l)) in
  match v with
  | VNone => Ok None
  | VList l => scope l
  | VDict d => scope (VStr ∘ fst <$> d)
  | _ => Err ValueError
  end.

Record Admission := {
  ad_speed : Float;
  ad_factor : Float;
  ad_margin : Float;
  ad_workers : Z;
  ad_profile_name : string;
}.

(** [value is not None and _finite(value, name) != expected]. *)
Definition no_conflict (value : pyval) (expected : Float) : result unit :=
  match value with
  | VNone => Ok tt
  | _ => v ← _finite value; require (feqb v expected) ValueError
  end.

Definition is_none (v : pyval) : bool := match v with VNone => true | _ => false end.

(** [_claim_admission_settings]: [process_profile] is None or the attributes of
    the profile object. *)
Definition _claim_admission_settings (process_profile : option (list (string * pyval)))
    (minimum_speed_x safety_factor margin_seconds peak_rss_bytes : pyval)
    : result Admission :=
  match process_profile with
  | None =>
      if is_none minimum_speed_x || is_none safety_factor || is_none margin_seconds
      then Err ValueError
      else if negb (is_none peak_rss_bytes) then Err ValueError
      else
        speed ← _positive_finite minimum_speed_x;
        factor ← _positive_finite safety_factor;
        margin ← _positive_finite margin_seconds;
        Ok {| ad_speed := speed; ad_factor := factor; ad_margin := margin;
              ad_workers := 1; ad_profile_name := "legacy-single-worker" |}
  | Some profile =>
      let getattr name := dict_get name profile in
      profile_speed ← _positive_finite (getattr "minimum_speed_x"%string);
      profile_factor ← _positive_finite (getattr "lease_safety_factor"%string);
      profile_margin ← _positive_finite (getattr "lease_margin_seconds"%string);
      profile_instances ← _positive_int (getattr "executor_instances"%string);
      profile_cores ← _positive_int (getattr "executor_cores"%string);
      task_cpus ← _positive_int (getattr "task_cpus"%string);
      let cpu_limit := (profile_instances * profile_cores / task_cpus)%Z in
      if (cpu_limit <? 1)%Z then Err ValueError else
      let worker_limit := Z.min profile_instances cpu_limit in
      worker_limit ←
        (if is_none peak_rss_bytes then Ok worker_limit else
           peak ← _positive_int peak_rss_bytes;
           memory ← _positive_int (getattr "executor_memory_bytes"%string);
           reserve ← _nonnegative_int (getattr "memory_reserve_bytes"%string);
           let usable := (memory - reserve)%Z in
           if (usable <? peak)%Z then Err LeaseBudgetError
           else Ok (Z.min worker_limit (profile_instances * (usable / peak))%Z));
      no_conflict minimum_speed_x profile_speed;;
      no_conflict safety_factor profile_factor;;
      no_conflict margin_seconds profile_margin;;
      profile_name ← _required_text (getattr "name"%string);
      Ok {| ad_speed := profile_speed; ad_factor := profile_factor;
            ad_margin := profile_margin; ad_workers := worker_limit;
            ad_profile_name := profile_name |}
  end.

(** ** Longest processing time first *)

(** [min(range(workers), key=lambda i: (costs[i], i))]: the first index of the
    smallest cost; [i] is the index of the head of [costs]. *)
Fixpoint argmin_from (i best : nat) (best_cost : Float) (costs : list Float) : nat :=
  match costs with
  | [] => best
  | c :: costs' =>
      if fltb c best_cost then argmin_from (S i) i c costs'
      else argmin_from (S i) best best_cost costs'
  end.
Definition argmin (costs : list Float) : nat :=
  match costs with [] => 0 | c :: costs' => argmin_from 1 0 c costs' end.

(** [max(costs)]. *)
Definition fmax_list (costs : list Float) : Float :=
  match costs with [] => fzero | c :: costs' => fold_left py_fmax costs' c end.

(** Sort key [(-duration, work_id)]. *)
Definition lpt_order (x y : string * WorkRow) : bool :=
  fltb (w_duration_seconds y.2) (w_duration_seconds x.2)
  || (negb (fltb (w_duration_seconds x.2) (w_duration_seconds y.2)) && str_leb x.1 y.1).

(** One iteration of the loop: the least loaded worker takes the duration. *)
Definition lpt_assign (costs : list Float) (d : Float) : list Float :=
  alter (λ c, fadd c d) (argmin costs) costs.

Definition _lpt_makespan_seconds (rows : list (string * WorkRow)) (worker_count : Z)
    : result Float :=
  workers ← _positive_int (VInt worker_count);
  let costs := fold_left lpt_assign
    ((λ r : string * WorkRow, w_duration_seconds r.2) <$> order_by lpt_order rows)
    (replicate (Z.to_nat workers) fzero) in
  Ok (fmax_list costs).

Section prefix.
Variables (profile_workers : Z) (minimum_speed_x safety_factor margin_seconds
  lease_seconds : Float).

(** [projection(prefix)]: workers, makespan, projected duration. *)
Definition projection (prefix : list (string * WorkRow)) : result (Z * Float * Float) :=
  let workers := Z.min (Z.of_nat (length prefix)) profile_workers in
  makespan ← _lpt_makespan_seconds prefix workers;
  Ok (workers, makespan, fmul (fdiv makespan minimum_speed_x) safety_factor).

(** [for count in range(len(rows), minimum_items, -1)]: the prefixes longer
    than the minimum, longest first; [n] counts down to the minimum. *)
Fixpoint widest_prefix (rows : list (string * WorkRow)) (minimum_items n : nat)
    : result (option (list (string * WorkRow) * Z * Float)) :=
  match n with
  | O => Ok None
  | S n' =>
      if (n <=? minimum_items)%nat then Ok None else
      '(workers, makespan, projected) ← projection (take n rows);
      if fltb (fadd projected margin_seconds) lease_seconds
      then Ok (Some (take n rows, workers, makespan))
      else widest_prefix rows minimum_items n'
  end.

Definition _largest_admissible_claim_prefix (rows : list (string * WorkRow))
    (minimum_items : nat) : result (list (string * WorkRow) * Z * Float) :=
  let minimum_prefix := take minimum_items rows in
  '(workers, makespan, projected) ← projection minimum_prefix;
  if fleb lease_seconds (fadd projected margin_seconds) then Err LeaseBudgetError else
  wider ← widest_prefix rows minimum_items (length rows);
  Ok (default (minimum_prefix, workers, makespan) wider).
End prefix.

(** ** sjd_control.py: registration and claims *)

(** ** Registration *)

Record RegisteredWork := {
  rw_work_id : string;
  rw_status : work_status;
  rw_payload_sha256 : string;
  rw_runtime_key : string;
  rw_duration_seconds : Float;
  rw_attempt_count : Z;
  rw_max_attempts : Z;
  rw_original_max_attempts : Z;
  rw_committed_attempt_id : option string;
  rw_publication_sequence : option Z;
  rw_last_replay_id : option string;
}.

Definition _registered (id : string) (w : WorkRow) : RegisteredWork := {|
  rw_work_id := id; rw_status := w_status w;
  rw_payload_sha256 := w_payload_sha256 w; rw_runtime_key := w_runtime_key w;
  rw_duration_seconds := w_duration_seconds w;
  rw_attempt_count := w_attempt_count w; rw_max_attempts := w_max_attempts w;
  rw_original_max_attempts := w_original_max_attempts w;
  rw_committed_attempt_id := w_committed_attempt_id w;
  rw_publication_sequence := w_publication_sequence w;
  rw_last_replay_id := w_last_replay_id w |}.

(** A validated registration item. *)
Record Request := {
  q_work_id : string;
  q_payload : list (string * pyval);
  q_runtime_key : string;
  q_duration_seconds : Float;
  q_config_sha256 : string;
  q_release_digest : string;
  q_max_attempts : Z;
  q_available_at : option Float;
}.

Definition optional_finite (v : pyval) : result (option Float) :=
  match v with VNone => Ok None | _ => f ← _finite v; Ok (Some f) end.

(** One iteration of [normalize_registration_requests]. *)
Definition normalize_request (raw : pyval) : result Request :=
  match raw with
  | VDict d =>
      match dict_get "payload" d with
      | VDict payload =>
          max_attempts ← int_between 1 100 (default (VInt 3) (dict_lookup "max_attempts" d));
          work_id ← _required_text (dict_get "work_id" d);
          runtime_key ← _required_text (dict_get "runtime_key" d);
          duration ← _positive_finite (dict_get "duration_seconds" d);
          config ← _required_text (dict_get "config_sha256" d);
          release ← _required_text (dict_get "release_digest" d);
          available_at ← optional_finite (dict_get "available_at" d);
          Ok {| q_work_id := work_id; q_payload := payload; q_runtime_key := runtime_key;
                q_duration_seconds := duration; q_config_sha256 := config;
                q_release_digest := release; q_max_attempts := max_attempts;
                q_available_at := available_at |}
      | _ => Err ValueError
      end
  | _ => Err ValueError
  end.

Fixpoint normalize_requests (l : list pyval) : result (list Request) :=
  match l with
  | [] => Ok []
  | x :: l' => r ← normalize_request x; rs ← normalize_requests l'; Ok (r :: rs)
  end.

Definition normalize_registration_requests (values : pyval) : result (list Request) :=
  match values with
  | VList ((_ :: _) as l) => normalize_requests l
  | _ => Err ValueError
  end.

(** The immutable columns: payload digest, runtime, duration, configuration,
    release, original attempt budget. *)
Definition identity : Type := string * string * Float * string * string * Z.

Definition identity_of (q : Request) (sha : string) : identity :=
  (sha, q_runtime_key q, q_duration_seconds q, q_config_sha256 q,
   q_release_digest q, q_max_attempts q).

Definition row_identity (w : WorkRow) : identity :=
  (w_payload_sha256 w, w_runtime_key w, w_duration_seconds w, w_config_sha256 w,
   w_release_digest w, w_original_max_attempts w).

(** Tuple equality; the floats are compared with [==]. *)
Definition identity_eqb (x y : identity) : bool :=
  let '(s1, r1, d1, c1, l1, m1) := x in
  let '(s2, r2, d2, c2, l2, m2) := y in
  bool_decide (s1 = s2) && bool_decide (r1 = r2) && feqb d1 d2
  && bool_decide (c1 = c2) && bool_decide (l1 = l2) && bool_decide (m1 = m2).

(** The row that a registration inserts. *)
Definition new_work (q : Request) (sha : string) (now : Float) : WorkRow := {|
  w_payload := VDict (q_payload q); w_payload_sha256 := sha;
  w_runtime_key := q_runtime_key q; w_duration_seconds := q_duration_seconds q;
  w_config_sha256 := q_config_sha256 q; w_release_digest := q_release_digest q;
  w_status := W_READY; w_attempt_count := 0;
  w_max_attempts := q_max_attempts q; w_original_max_attempts := q_max_attempts q;
  w_fence := 0; w_available_at := default now (q_available_at q);
  w_lease_owner := None; w_lease_attempt_id := None; w_lease_expires_at := None;
  w_committed_attempt_id := None; w_publication_sequence := None;
  w_replay_generation := 0; w_last_replay_id := None; w_last_error := None;
  w_created_at := now; w_updated_at := now |}.

(** Select the work, compare its identity, or insert it and read it back. *)
Definition register_row (q : Request) (sha : string) (now : Float) : Ctl RegisteredWork :=
  db ← get_db;
  match works db !! q_work_id q with
  | Some w =>
      tx_require (identity_eqb (row_identity w) (identity_of q sha)) ImmutableConflictError;;
      mret (_registered (q_work_id q) w)
  | None =>
      let w := new_work q sha now in
      insert_work (q_work_id q) w;;
      mret (_registered (q_work_id q) w)
  end.

(** The argument checks of [register], in the order of the code. *)
Definition check_register (work_id payload runtime_key duration_seconds config_sha256
    release_digest max_attempts available_at clock : pyval) : result (Request * string * Float) :=
  identity ← _required_text work_id;
  runtime ← _required_text runtime_key;
  config ← _required_text config_sha256;
  release ← _required_text release_digest;
  duration ← _positive_finite duration_seconds;
  max ← int_between 1 100 max_attempts;
  match payload with
  | VDict d =>
      text ← _canonical_json (VDict d);
      now ← _finite clock;
      ready_at ← optional_finite available_at;
      Ok ({| q_work_id := identity; q_payload := d; q_runtime_key := runtime;
             q_duration_seconds := duration; q_config_sha256 := config;
             q_release_digest := release; q_max_attempts := max;
             q_available_at := ready_at |}, _sha256_text text, now)
  | _ => Err ValueError
  end.

Definition register (work_id payload runtime_key duration_seconds config_sha256
    release_digest max_attempts available_at clock : pyval) : Ctl RegisteredWork :=
  '(q, sha, now) ← tx_lift (check_register work_id payload runtime_key duration_seconds
    config_sha256 release_digest max_attempts available_at clock);
  _transaction (register_row q sha now).

(** The loop of [register_many]; [seen] maps the identifiers of this call to
    their identities. *)
Fixpoint register_loop (now : Float) (seen : gmap string identity) (qs : list Request)
    : Ctl (list RegisteredWork) :=
  match qs with
  | [] => mret []
  | q :: qs' =>
      text ← tx_lift (_canonical_json (VDict (q_payload q)));
      let sha := _sha256_text text in
      match seen !! q_work_id q with
      | Some previous =>
          tx_require (identity_eqb previous (identity_of q sha)) ImmutableConflictError;;
          register_loop now seen qs'
      | None =>
          r ← register_row q sha now;
          rs ← register_loop now (<[q_work_id q := identity_of q sha]> seen) qs';
          mret (r :: rs)
      end
  end.

Definition register_many (requests clock : pyval) : Ctl (list RegisteredWork) :=
  '(normalized, now) ← tx_lift (
    qs ← normalize_registration_requests requests;
    now ← _finite clock;
    Ok (qs, now));
  _transaction (register_loop now ∅ normalized).

(** ** Claim *)

Record ClaimedWork := {
  c_work_id : string;
  c_attempt_id : string;
  c_fence : Z;
  c_payload_sha256 : string;
}.

Record ClaimedBatch := {
  cb_batch_id : string;
  cb_envelope_path : string;
  cb_envelope_sha256 : string;
  cb_runtime_key : string;
  cb_lease_expires_at : Float;
  cb_items : list ClaimedWork;
}.

Definition claimed_json (c : ClaimedWork) : pyval :=
  VDict [("work_id", VStr (c_work_id c)); ("attempt_id", VStr (c_attempt_id c));
         ("fence", VInt (c_fence c)); ("payload_sha256", VStr (c_payload_sha256 c))]%string.

Definition _membership_sha256 (items : list ClaimedWork) : result string :=
  _sha256_text <$> _canonical_json (VList (claimed_json <$> items)).

Record ClaimArgs := {
  ca_owner : pyval;
  ca_max_items : pyval;
  ca_lease_seconds : pyval;
  ca_maximum_active_batches : pyval;
  ca_minimum_speed_x : pyval;
  ca_safety_factor : pyval;
  ca_margin_seconds : pyval;
  ca_minimum_items : pyval;
  ca_allowed_work_ids : pyval;
  ca_process_profile : option (list (string * pyval));
  ca_peak_rss_bytes : pyval;
  ca_expected_release_digest : option pyval;
}.

(** What the checks before the transaction leave. *)
Record ClaimRequest := {
  cr_owner : string;
  cr_max_items : Z;
  cr_minimum_items : Z;
  cr_maximum_active : option Z;
  cr_lease : Float;
  cr_admission : Admission;
  cr_scope : option (list string);
  cr_now : Float;
}.

Definition check_claim (args : ClaimArgs) (clock : pyval) : result ClaimRequest :=
  owner ← _required_text (ca_owner args);
  max_items ← int_between 1 100 (ca_max_items args);
  minimum_items ← int_between 1 max_items (ca_minimum_items args);
  maximum_active ←
    (match ca_maximum_active_batches args with
     | VNone => Ok None
     | v => n ← int_between 1 100 v; Ok (Some n)
     end);
  lease ← _positive_finite (ca_lease_seconds args);
  admission ← _claim_admission_settings (ca_process_profile args)
    (ca_minimum_speed_x args) (ca_safety_factor args) (ca_margin_seconds args)
    (ca_peak_rss_bytes args);
  (if fltb (ad_factor admission) (float_of_Z 1) then Err ValueError else Ok tt);;
  scope ← _allowed_work_scope (ca_allowed_work_ids args);
  now ← _finite clock;
  Ok {| cr_owner := owner; cr_max_items := max_items;
        cr_minimum_items := minimum_items; cr_maximum_active := maximum_active;
        cr_lease := lease; cr_admission := admission; cr_scope := scope; cr_now := now |}.

Definition active_batch (b : BatchRow) : bool :=
  bool_decide (b_status b = B_LEASED) || bool_decide (b_status b = B_SEALED).

(** SELECT COUNT( * ) FROM batches WHERE status IN ('LEASED', 'SEALED'). *)
Definition count_active (db : Db) : Z :=
  Z.of_nat (length (List.filter (λ x, active_batch x.2) (map_to_list (batches db)))).

Definition in_scope (scope : option (list string)) (id : string) : bool :=
  match scope with None => true | Some l => bool_decide (id ∈ l) end.

Definition is_ready (now : Float) (w : WorkRow) : bool :=
  bool_decide (w_status w = W_READY) && fleb (w_available_at w) now.

(** READY rows that are available and in scope. *)
Definition eligible (scope : option (list string)) (now : Float) (db : Db)
    : list (string * WorkRow) :=
  List.filter (λ x, in_scope scope x.1 && is_ready now x.2) (map_to_list (works db)).

Definition has_runtime (k : string) (x : string * WorkRow) : bool :=
  String.eqb (w_runtime_key x.2) k.

(** MIN(created_at) of a group. *)
Definition first_created (rows : list (string * WorkRow)) : Float :=
  match rows with
  | [] => fzero
  | r :: rs => fold_left (λ acc x, py_fmin acc (w_created_at x.2)) rs (w_created_at r.2)
  end.

(** ORDER BY first_created, runtime_key. *)
Definition runtime_order (x y : Float * string) : bool :=
  fltb x.1 y.1 || (negb (fltb y.1 x.1) && str_leb x.2 y.2).

(** SELECT runtime_key, MIN(created_at) ... GROUP BY runtime_key
    HAVING COUNT( * ) >= minimum ORDER BY first_created, runtime_key LIMIT 1. *)
Definition select_runtime (rows : list (string * WorkRow)) (minimum : Z) : option string :=
  let keys := remove_dups ((λ x : string * WorkRow, w_runtime_key x.2) <$> rows) in
  let group k := List.filter (has_runtime k) rows in
  let large := List.filter (λ k, (minimum <=? Z.of_nat (length (group k)))%Z) keys in
  snd <$> head (order_by runtime_order ((λ k, (first_created (group k), k)) <$> large)).

(** [self._new_id()] for the [k]-th call in this operation. *)
Definition _new_id (id_factory : nat → pyval) (k : nat) : result string :=
  _required_text (id_factory k).

(** The claimed items; the batch id was the factory's value number 0. *)
Fixpoint claim_items (id_factory : nat → pyval) (k : nat) (rows : list (string * WorkRow))
    : result (list ClaimedWork) :=
  match rows with
  | [] => Ok []
  | (work_id, w) :: rows' =>
      attempt_id ← _new_id id_factory k;
      rest ← claim_items id_factory (S k) rows';
      Ok ({| c_work_id := work_id; c_attempt_id := attempt_id;
             c_fence := (w_fence w + 1)%Z; c_payload_sha256 := w_payload_sha256 w |} :: rest)
  end.

Definition CLAIM_ENVELOPE_VERSION : Z := 1.

Definition envelope_item (ordinal : nat) (w : WorkRow) (c : ClaimedWork) : pyval :=
  VDict [("ordinal", VInt (Z.of_nat ordinal)); ("work_id", VStr (c_work_id c));
         ("attempt_id", VStr (c_attempt_id c)); ("fence", VInt (c_fence c));
         ("payload_sha256", VStr (c_payload_sha256 c)); ("payload", w_payload w);
         ("config_sha256", VStr (w_config_sha256 w));
         ("release_digest", VStr (w_release_digest w));
         ("duration_seconds", VFloat (w_duration_seconds w))]%string.

(** The immutable claim envelope. *)
Definition claim_envelope (r : ClaimRequest) (batch_id runtime_key membership : string)
    (expires makespan : Float) (worker_count : Z) (rows : list (string * WorkRow))
    (claimed : list ClaimedWork) : pyval :=
  let ad := cr_admission r in
  VDict [("schema_version", VInt CLAIM_ENVELOPE_VERSION); ("batch_id", VStr batch_id);
         ("owner", VStr (cr_owner r)); ("runtime_key", VStr runtime_key);
         ("claimed_at", VFloat (cr_now r)); ("lease_expires_at", VFloat expires);
         ("membership_sha256", VStr membership);
         ("admission", VDict
            [("process_profile", VStr (ad_profile_name ad));
             ("worker_count", VInt worker_count);
             ("projected_makespan_seconds", VFloat makespan);
             ("minimum_speed_x", VFloat (ad_speed ad));
             ("safety_factor", VFloat (ad_factor ad));
             ("margin_seconds", VFloat (ad_margin ad))]);
         ("items", VList (imap (λ i wc, envelope_item i wc.1.2 wc.2) (zip rows claimed)))]%string.

(** [self.content.put_json] from inside the transaction. *)
Definition content_put_json (root : string) (v : pyval) : Ctl StoredObject := λ s,
  let '(r, fs) := put_json root v (s_files s) in
  (r, {| s with s_files := fs |}).

(** One iteration of the final loop: lease the work under its next fence and
    record the attempt and the membership. *)
Definition claim_row (r : ClaimRequest) (batch_id : string) (expires : Float)
    (ordinal : nat) (c : ClaimedWork) : Ctl unit :=
  n ← update_work (c_work_id c)
    (λ w, bool_decide (w_status w = W_READY) && (w_fence w =? c_fence c - 1)%Z)
    (λ w, {| w with w_status := W_LEASED;
                    w_attempt_count := (w_attempt_count w + 1)%Z;
                    w_fence := c_fence c;
                    w_lease_owner := Some (cr_owner r);
                    w_lease_attempt_id := Some (c_attempt_id c);
                    w_lease_expires_at := Some expires;
                    w_updated_at := cr_now r |});
  tx_require (n =? 1)%Z LeaseLostError;;
  insert_attempt (c_attempt_id c)
    {| a_work_id := c_work_id c; a_batch_id := batch_id; a_fence := c_fence c;
       a_status := A_LEASED; a_lease_expires_at := expires;
       a_payload_sha256 := c_payload_sha256 c; a_output_path := None;
       a_output_sha256 := None; a_terminal_succeeded := None; a_sealed_at := None;
       a_recovery_outcome := None; a_created_at := cr_now r |};;
  insert_member
    {| m_batch_id := batch_id; m_ordinal := Z.of_nat ordinal; m_work_id := c_work_id c;
       m_attempt_id := c_attempt_id c; m_fence := c_fence c;
       m_payload_sha256 := c_payload_sha256 c |}.

Definition claim_loop (r : ClaimRequest) (batch_id : string) (expires : Float)
    (claimed : list ClaimedWork) : Ctl unit :=
  tx_for (λ oc, claim_row r batch_id expires oc.1 oc.2)
    (imap (λ i c, (i, c)) claimed).

(** The part of the transaction after the rows are chosen. *)
Definition claim_rows (root : string) (id_factory : nat → pyval) (r : ClaimRequest)
    (runtime_key : string) (rows : list (string * WorkRow)) : Ctl ClaimedBatch :=
  let ad := cr_admission r in
  '(rows, worker_count, makespan) ← tx_lift
    (_largest_admissible_claim_prefix (ad_workers ad) (ad_speed ad) (ad_factor ad)
       (ad_margin ad) (cr_lease r) rows (Z.to_nat (cr_minimum_items r)));
  batch_id ← tx_lift (_new_id id_factory 0);
  let expires := fadd (cr_now r) (cr_lease r) in
  claimed ← tx_lift (claim_items id_factory 1 rows);
  membership ← tx_lift (_membership_sha256 claimed);
  stored ← content_put_json root
    (claim_envelope r batch_id runtime_key membership expires makespan worker_count
       rows claimed);
  insert_batch batch_id
    {| b_owner := cr_owner r; b_runtime_key := runtime_key; b_status := B_LEASED;
       b_lease_expires_at := expires; b_item_count := Z.of_nat (length claimed);
       b_membership_sha256 := membership; b_envelope_version := CLAIM_ENVELOPE_VERSION;
       b_envelope_path := so_path stored; b_envelope_sha256 := so_sha256 stored;
       b_created_at := cr_now r; b_sealed_at := None; b_committed_at := None |};;
  claim_loop r batch_id expires claimed;;
  mret {| cb_batch_id := batch_id; cb_envelope_path := so_path stored;
          cb_envelope_sha256 := so_sha256 stored; cb_runtime_key := runtime_key;
          cb_lease_expires_at := expires; cb_items := claimed |}.

(** [claim]: None when the active-batch limit is reached, the scope is empty or
    no runtime has enough eligible work. *)
Definition claim (root : string) (id_factory : nat → pyval) (args : ClaimArgs)
    (clock : pyval) : Ctl (option ClaimedBatch) :=
  r ← tx_lift (check_claim args clock);
  _transaction (
    db ← get_db;
    let full := match cr_maximum_active r with
      | Some limit => (limit <=? count_active db)%Z
      | None => false
      end in
    if full then mret None else
    if bool_decide (cr_scope r = Some []) then mret None else
    let rows := eligible (cr_scope r) (cr_now r) db in
    tx_lift (require_release_compatibility
      ((λ x : string * WorkRow, (x.1, w_release_digest x.2)) <$> rows)
      (ca_expected_release_digest args));;
    match select_runtime rows (cr_minimum_items r) with
    | None => mret None
    | Some runtime_key =>
        let rows := take (Z.to_nat (cr_max_items r))
          (order_by queue_order (List.filter (has_runtime runtime_key) rows)) in
        if bool_decide (rows = []) || (Z.of_nat (length rows) <? cr_minimum_items r)%Z
        then mret None
        else Some <$> claim_rows root id_factory r runtime_key rows
    end).
