(* ===== verification/ControlProcess.v ===== *)
(** * sjd_control.py: the process side of a claimed batch

    Fence checks and heartbeats, sealing the terminal outputs of a batch, and
    the commit that publishes every sealed attempt and advances the committed
    pointers. *)
From S2P Require Export Prelude ControlTypes ControlClaim.

(** What the operations read of a verified claim envelope. *)
Record Envelope := {
  e_batch_id : string;
  e_envelope_sha256 : string;
  e_membership_sha256 : string;
  e_items : list ClaimedWork;
}.

Record ControlBatchState := {
  bs_status : batch_status;
  bs_lease_expires_at : Float;
}.

(** [KeyError] for a batch that does not exist. *)
Definition get_batch (id : string) : Ctl BatchRow :=
  db ← get_db;
  match batches db !! id with
  | Some b => mret b
  | None => tx_raise KeyError
  end.

(** SELECT * FROM attempts WHERE batch_id = id. *)
Definition batch_attempts (id : string) (db : Db) : list (string * AttemptRow) :=
  List.filter (λ x, bool_decide (a_batch_id x.2 = id)) (map_to_list (attempts db)).

Definition item_key (c : ClaimedWork) : string * string * Z * string :=
  (c_work_id c, c_attempt_id c, c_fence c, c_payload_sha256 c).
Definition attempt_key (x : string * AttemptRow) : string * string * Z * string :=
  (a_work_id x.2, x.1, a_fence x.2, a_payload_sha256 x.2).

(** The work row of [w] still carries the lease of attempt [id]. *)
Definition owns_fence (id : string) (fence : Z) (w : WorkRow) : bool :=
  bool_decide (w_status w = W_LEASED)
  && bool_decide (w_lease_attempt_id w = Some id)
  && (w_fence w =? fence)%Z.

(** The checks on one joined row. *)
Definition check_process_row (e : Envelope) (batch_status : batch_status)
    (b : BatchRow) (db : Db) (x : string * AttemptRow) : result unit :=
  require (bool_decide (b_envelope_sha256 b = e_envelope_sha256 e)
           && bool_decide (b_membership_sha256 b = e_membership_sha256 e)) BatchValidationError;;
  if bool_decide (batch_status = B_LEASED) || bool_decide (batch_status = B_SEALED) then
    require (match works db !! a_work_id x.2 with
             | Some w => owns_fence x.1 (a_fence x.2) w
             | None => false
             end) LeaseLostError
  else Ok tt.

Fixpoint for_each {A} (f : A → result unit) (l : list A) : result unit :=
  match l with
  | [] => Ok tt
  | x :: l' => f x;; for_each f l'
  end.

(** The rows of the three-way join. *)
Definition process_rows (e : Envelope) (db : Db) : list (string * AttemptRow) :=
  List.filter (λ x, bool_decide (is_Some (works db !! a_work_id x.2))
                    && bool_decide (is_Some (batches db !! a_batch_id x.2)))
    (batch_attempts (e_batch_id e) db).

Definition _assert_process_rows (e : Envelope) (batch_status : batch_status)
    (b : BatchRow) (db : Db) : result unit :=
  let rows := process_rows e db in
  require (bool_decide ((list_to_set (attempt_key <$> rows) : gset _)
                        = list_to_set (item_key <$> e_items e))) LeaseLostError;;
  for_each (check_process_row e batch_status b db) rows.

Definition process_batch_state (e : Envelope) : Ctl ControlBatchState :=
  b ← get_batch (e_batch_id e);
  db ← get_db;
  tx_lift (_assert_process_rows e (b_status b) b db);;
  mret {| bs_status := b_status b; bs_lease_expires_at := b_lease_expires_at b |}.

Definition assert_process_fence (e : Envelope) (clock : pyval) : Ctl unit :=
  live ← process_batch_state e;
  if bool_decide (bs_status live = B_COMMITTED) then mret tt else
  if bool_decide (bs_status live = B_LEASED) || bool_decide (bs_status live = B_SEALED) then
    now ← tx_lift (_finite clock);
    tx_require (negb (fleb (bs_lease_expires_at live) now)) LeaseLostError
  else tx_raise LeaseLostError.

(** UPDATE attempts SET f WHERE guard, on every row. *)
Definition update_attempts (guard : AttemptRow → bool) (f : AttemptRow → AttemptRow)
    : Ctl unit :=
  modify_db (λ db, {| db with attempts :=
    (λ a, if guard a then f a else a) <$> attempts db |}).

Definition heartbeat_item (now expires : Float) (c : ClaimedWork) : Ctl unit :=
  n ← update_work (c_work_id c) (owns_fence (c_attempt_id c) (c_fence c))
        (λ w, {| w with w_lease_expires_at := Some expires; w_updated_at := now |});
  tx_require (n =? 1)%Z LeaseLostError.

Definition heartbeat_process (e : Envelope) (extension_seconds clock : pyval) : Ctl unit :=
  '(extension, now) ← tx_lift (
    extension ← _positive_finite extension_seconds;
    now ← _finite clock;
    Ok (extension, now));
  _transaction (
    db ← get_db;
    match batches db !! e_batch_id e with
    | None => tx_raise LeaseLostError
    | Some b =>
        tx_require (bool_decide (b_status b = B_LEASED)
                    && negb (fleb (b_lease_expires_at b) now)) LeaseLostError;;
        tx_lift (_assert_process_rows e B_LEASED b db);;
        let expires := py_fmax (b_lease_expires_at b) (fadd now extension) in
        update_batch (e_batch_id e) (λ _, true) (λ b, {| b with b_lease_expires_at := expires |});;
        update_attempts
          (λ a, bool_decide (a_batch_id a = e_batch_id e) && bool_decide (a_status a = A_LEASED))
          (λ a, {| a with a_lease_expires_at := expires |});;
        tx_for (heartbeat_item now expires) (e_items e)
    end).

(** ** Sealing *)

Record OutputRecord := {
  or_executor_identity : string;
  or_partition_id : Z;
  or_task_attempt_id : Z;
  or_record_sequence : Z;
}.

Record Output := {
  out_work_id : string;
  out_attempt_id : string;
  out_output_path : string;
  out_output_sha256 : string;
  out_succeeded : bool;
  out_records : list OutputRecord;
}.

Definition normalize_record (v : pyval) : result OutputRecord :=
  match v with
  | VDict d =>
      executor ← _required_text (dict_get "executor_identity" d);
      partition ← _nonnegative_int (dict_get "partition_id" d);
      task ← _nonnegative_int (dict_get "task_attempt_id" d);
      sequence ← _nonnegative_int (dict_get "record_sequence" d);
      Ok {| or_executor_identity := executor; or_partition_id := partition;
            or_task_attempt_id := task; or_record_sequence := sequence |}
  | _ => Err BatchValidationError
  end.

Fixpoint normalize_records (seen : list Z) (l : list pyval) : result (list OutputRecord) :=
  match l with
  | [] => Ok []
  | v :: l' =>
      r ← normalize_record v;
      require (bool_decide (or_record_sequence r ∉ seen)) BatchValidationError;;
      rs ← normalize_records (or_record_sequence r :: seen) l';
      Ok (r :: rs)
  end.

(** One output: identity, then its records, then the remaining fields. *)
Definition normalize_output (seen : list (string * string)) (v : pyval) : result Output :=
  match v with
  | VDict d =>
      work_id ← _required_text (dict_get "work_id" d);
      attempt_id ← _required_text (dict_get "attempt_id" d);
      require (bool_decide ((work_id, attempt_id) ∉ seen)) BatchValidationError;;
      match dict_get "records" d with
      | VList l =>
          records ← normalize_records [] l;
          require (negb (bool_decide (records = []))) BatchValidationError;;
          output_path ← _required_text (dict_get "output_path" d);
          output_sha256 ← _validated_sha256 (dict_get "output_sha256" d);
          succeeded ← _boolean (default (VBool true) (dict_lookup "succeeded" d));
          Ok {| out_work_id := work_id; out_attempt_id := attempt_id;
                out_output_path := output_path; out_output_sha256 := output_sha256;
                out_succeeded := succeeded; out_records := records |}
      | _ => Err BatchValidationError
      end
  | _ => Err ValueError
  end.

Fixpoint normalize_outputs_from (seen : list (string * string)) (l : list pyval)
    : result (list Output) :=
  match l with
  | [] => Ok []
  | v :: l' =>
      o ← normalize_output seen v;
      os ← normalize_outputs_from ((out_work_id o, out_attempt_id o) :: seen) l';
      Ok (o :: os)
  end.

Definition _normalize_outputs (l : list pyval) : result (list Output) :=
  normalize_outputs_from [] l.

Definition _validate_live_seal (b : BatchRow) (envelope_sha256 membership_sha256 : string)
    (now : Float) : result unit :=
  require (bool_decide (b_status b = B_LEASED) && negb (fleb (b_lease_expires_at b) now))
    LeaseLostError;;
  require (bool_decide (envelope_sha256 = b_envelope_sha256 b)
           && bool_decide (membership_sha256 = b_membership_sha256 b)) BatchValidationError.

(** The attempt is live in this batch and its work still carries its fence. *)
Definition seal_valid (batch_id attempt_id : string) (db : Db) : bool :=
  match attempts db !! attempt_id with
  | Some a =>
      match works db !! a_work_id a with
      | Some w => bool_decide (a_batch_id a = batch_id)
                  && bool_decide (a_status a = A_LEASED)
                  && owns_fence attempt_id (a_fence a) w
      | None => false
      end
  | None => false
  end.

Definition output_row (item : Output) (now : Float) (r : OutputRecord) (id : Z) : OutputRow := {|
  o_output_id := id; o_attempt_id := out_attempt_id item; o_work_id := out_work_id item;
  o_output_path := out_output_path item; o_output_sha256 := out_output_sha256 item;
  o_executor_identity := or_executor_identity r; o_partition_id := or_partition_id r;
  o_task_attempt_id := or_task_attempt_id r; o_record_sequence := or_record_sequence r;
  o_created_at := now |}.

Definition sealed_attempt (item : Output) (now : Float) (a : AttemptRow) : AttemptRow :=
  {| a with a_status := A_SEALED; a_output_path := Some (out_output_path item);
            a_output_sha256 := Some (out_output_sha256 item);
            a_terminal_succeeded := Some (out_succeeded item);
            a_sealed_at := Some now |}.

Definition _seal_item (batch_id : string) (now : Float) (item : Output) : Ctl unit :=
  db ← get_db;
  tx_require (seal_valid batch_id (out_attempt_id item) db) LeaseLostError;;
  update_attempt (out_attempt_id item) (λ a, bool_decide (a_status a = A_LEASED))
    (sealed_attempt item now);;
  tx_for (λ r, insert_output (output_row item now r)) (out_records item).

(** Rows of batch_members for a batch, by ordinal. *)
Definition members_of (id : string) (db : Db) : list MemberRow :=
  order_by (λ x y, (m_ordinal x <=? m_ordinal y)%Z)
    (List.filter (λ m, bool_decide (m_batch_id m = id)) (batch_members db)).

(** The output rows compared by [_verify_existing_seal], as a multiset. *)
Definition seal_tuple (o : Output) : string * string * option string * option string * option bool :=
  (out_work_id o, out_attempt_id o, Some (out_output_path o),
   Some (out_output_sha256 o), Some (out_succeeded o)).
Definition stored_tuple (x : string * AttemptRow)
    : string * string * option string * option string * option bool :=
  (a_work_id x.2, x.1, a_output_path x.2, a_output_sha256 x.2, a_terminal_succeeded x.2).
Definition record_tuple (o : Output) (r : OutputRecord) : string * string * string * Z * Z * Z :=
  (out_work_id o, out_attempt_id o, or_executor_identity r, or_partition_id r,
   or_task_attempt_id r, or_record_sequence r).
Definition output_tuple (o : OutputRow) : string * string * string * Z * Z * Z :=
  (o_work_id o, o_attempt_id o, o_executor_identity o, o_partition_id o,
   o_task_attempt_id o, o_record_sequence o).

(** [sorted(xs) == sorted(ys)]: equal as multisets. *)
Fixpoint remove_one {A} `{EqDecision A} (x : A) (l : list A) : option (list A) :=
  match l with
  | [] => None
  | y :: l' => if decide (x = y) then Some l' else cons y <$> remove_one x l'
  end.
Fixpoint multiset_eqb {A} `{EqDecision A} (xs ys : list A) : bool :=
  match xs with
  | [] => bool_decide (ys = [])
  | x :: xs' => match remove_one x ys with Some ys' => multiset_eqb xs' ys' | None => false end
  end.

Definition _verify_existing_seal (batch_id : string) (b : BatchRow) (outputs : list pyval)
    (digest membership : string) (db : Db) : result unit :=
  require (bool_decide (digest = b_envelope_sha256 b)
           && bool_decide (membership = b_membership_sha256 b)) ImmutableConflictError;;
  normalized ← _normalize_outputs outputs;
  let existing := batch_attempts batch_id db in
  require (multiset_eqb (seal_tuple <$> normalized) (stored_tuple <$> existing))
    ImmutableConflictError;;
  let records := List.filter (λ o, bool_decide (o_attempt_id o ∈ existing.*1)) (output_records db) in
  require (multiset_eqb
             (concat ((λ o, record_tuple o <$> out_records o) <$> normalized))
             (output_tuple <$> records)) ImmutableConflictError.

Definition seal_batch (batch_id outputs envelope_sha256 membership_sha256 clock : pyval)
    : Ctl unit :=
  '(identity, digest, membership, raw, now) ← tx_lift (
    identity ← _required_text batch_id;
    digest ← _validated_sha256 envelope_sha256;
    membership ← _validated_sha256 membership_sha256;
    match outputs with
    | VList l => now ← _finite clock; Ok (identity, digest, membership, l, now)
    | _ => Err ValueError
    end);
  _transaction (
    b ← get_batch identity;
    db ← get_db;
    if bool_decide (b_status b = B_SEALED)
    then tx_lift (_verify_existing_seal identity b raw digest membership db)
    else
      tx_lift (_validate_live_seal b digest membership now);;
      let members := members_of identity db in
      normalized ← tx_lift (_normalize_outputs raw);
      tx_require
        (bool_decide (length normalized = length members)
         && bool_decide ((list_to_set ((λ o, (out_work_id o, out_attempt_id o)) <$> normalized)
                          : gset (string * string))
                         = list_to_set ((λ m, (m_work_id m, m_attempt_id m)) <$> members)))
        BatchValidationError;;
      tx_for (_seal_item identity now) normalized;;
      update_batch identity (λ _, true)
        (λ b, {| b with b_status := B_SEALED; b_sealed_at := Some now |})).

(** ** Commit *)

(** An attempt row joined with its work, by attempt id. *)
Definition joined (id : string) (db : Db) : list (string * AttemptRow * WorkRow) :=
  omap (λ x, w ← works db !! a_work_id x.2; Some (x, w)) (batch_attempts id db).

(** ORDER BY a.work_id. *)
Definition joined_order (x y : string * AttemptRow * WorkRow) : bool :=
  str_leb (a_work_id x.1.2) (a_work_id y.1.2).

(** [valid] of [_commit_attempt], on the row read before the loop. *)
Definition commit_valid (row : string * AttemptRow * WorkRow) : bool :=
  let '(id, a, w) := row in
  bool_decide (a_status a = A_SEALED)
  && owns_fence id (a_fence a) w
  && bool_decide (w_committed_attempt_id w = None)
  && bool_decide (is_Some (a_output_path a))
  && bool_decide (is_Some (a_output_sha256 a)).

Definition release_work (status : work_status) (now : Float) (error : string) (w : WorkRow)
    : WorkRow :=
  {| w with w_status := status; w_available_at := now; w_lease_owner := None;
            w_lease_attempt_id := None; w_lease_expires_at := None;
            w_last_error := Some error; w_updated_at := now |}.

(** DEAD once the attempts are used up, otherwise READY again. *)
Definition retry_outcome (w : WorkRow) : work_status :=
  if (w_max_attempts w <=? w_attempt_count w)%Z then W_DEAD else W_READY.

Definition _commit_failed_attempt (now : Float) (row : string * AttemptRow * WorkRow)
    : Ctl unit :=
  let '(id, a, w) := row in
  n ← update_work (a_work_id a) (owns_fence id (a_fence a))
        (release_work (retry_outcome w) now "processing failed");
  tx_require (n =? 1)%Z LeaseLostError;;
  update_attempt id (λ _, true) (λ a, {| a with a_status := A_FAILED |}).

Definition publication (batch_id : string) (now : Float)
    (row : string * AttemptRow * WorkRow) (sequence : Z) : PublicationRow :=
  let '(id, a, w) := row in
  {| p_publication_sequence := sequence; p_work_id := a_work_id a; p_attempt_id := id;
     p_batch_id := batch_id; p_output_path := default ""%string (a_output_path a);
     p_output_sha256 := default ""%string (a_output_sha256 a); p_published_at := now |}.

Definition succeed_work (id : string) (sequence : Z) (now : Float) (w : WorkRow) : WorkRow :=
  {| w with w_status := W_SUCCEEDED; w_committed_attempt_id := Some id;
            w_publication_sequence := Some sequence; w_lease_owner := None;
            w_lease_attempt_id := None; w_lease_expires_at := None; w_updated_at := now |}.

Definition _commit_attempt (batch_id : string) (now : Float)
    (row : string * AttemptRow * WorkRow) : Ctl (option Z) :=
  let '(id, a, w) := row in
  tx_require (commit_valid row) LeaseLostError;;
  if negb (bool_decide (a_terminal_succeeded a = Some true)) then
    _commit_failed_attempt now row;; mret None
  else
    sequence ← insert_publication (publication batch_id now row);
    n ← update_work (a_work_id a) (owns_fence id (a_fence a)) (succeed_work id sequence now);
    tx_require (n =? 1)%Z LeaseLostError;;
    update_attempt id (λ _, true) (λ a, {| a with a_status := A_SUCCEEDED |});;
    mret (Some sequence).

(** SELECT publication_sequence ... WHERE batch_id = id ORDER BY it. *)
Definition batch_sequences (id : string) (db : Db) : list Z :=
  order_by Z.leb (p_publication_sequence <$>
    List.filter (λ p, bool_decide (p_batch_id p = id)) (publications db)).

Definition commit_batch (batch_id clock : pyval) : Ctl (list Z) :=
  '(identity, now) ← tx_lift (
    identity ← _required_text batch_id; now ← _finite clock; Ok (identity, now));
  _transaction (
    b ← get_batch identity;
    db ← get_db;
    if bool_decide (b_status b = B_COMMITTED) then mret (batch_sequences identity db) else
    tx_require (bool_decide (b_status b = B_SEALED) && negb (fleb (b_lease_expires_at b) now))
      LeaseLostError;;
    let rows := order_by joined_order (joined identity db) in
    tx_require (Z.of_nat (length rows) =? b_item_count b)%Z BatchValidationError;;
    sequences ← tx_map (_commit_attempt identity now) rows;
    update_batch identity (λ b, bool_decide (b_status b = B_SEALED))
      (λ b, {| b with b_status := B_COMMITTED; b_committed_at := Some now |});;
    mret (omap id sequences)).
