(* ===== verification/ControlEnvelope.v ===== *)
(** * sjd_control.py: reading a claim envelope back

    A process reads the claim envelope of its batch through the reference that
    the batch row holds: path, digest and batch identity must all match. *)
From S2P Require Export Prelude PyVal Json ControlTypes ControlClaim ControlProcess.

(** [envelope.get(name)]: AttributeError unless it is a dict. *)
Definition attr_get (name : string) (v : pyval) : result pyval :=
  match v with VDict d => Ok (dict_get name d) | _ => Err AttributeError end.

(** [value or default] on an optional text: an empty text is false. *)
Definition text_or (o : option string) (d : string) : string :=
  match o with Some s => if String.eqb s "" then d else s | None => d end.

Definition get_files : Ctl Files := λ s, (Ok (s_files s), s).

(** The part of [load_claim_envelope] after the reference has been matched. *)
Definition read_claim_envelope (identity path digest : string) (fs : Files) : result pyval :=
  content ← match fs !! path with Some c => Ok c | None => Err BatchValidationError end;
  require (bool_decide (hexdigest (sha256 content) = digest)) BatchValidationError;;
  envelope ← match json_loads_bytes content with
    | Err JSONDecodeError => Err BatchValidationError
    | r => r
    end;
  version ← attr_get "schema_version" envelope;
  require (py_eqb version (VInt CLAIM_ENVELOPE_VERSION)) BatchValidationError;;
  batch ← attr_get "batch_id" envelope;
  require (py_eqb batch (VStr identity)) BatchValidationError;;
  Ok envelope.

(** [load_claim_envelope]; the supplied path is resolved, as the stored one is. *)
Definition load_claim_envelope (batch_id : pyval) (envelope_path envelope_sha256 : option string)
    : Ctl pyval :=
  identity ← tx_lift (_required_text batch_id);
  b ← get_batch identity;
  let supplied_path := default (b_envelope_path b) envelope_path in
  let supplied_digest := text_or envelope_sha256 (b_envelope_sha256 b) in
  tx_require (bool_decide (supplied_path = b_envelope_path b)
              && bool_decide (supplied_digest = b_envelope_sha256 b)) BatchValidationError;;
  fs ← get_files;
  tx_lift (read_claim_envelope identity supplied_path supplied_digest fs).

Definition load_claim_envelope_with_digest (batch_id : pyval) : Ctl (pyval * string) :=
  identity ← tx_lift (_required_text batch_id);
  b ← get_batch identity;
  envelope ← load_claim_envelope (VStr identity) None (Some (b_envelope_sha256 b));
  mret (envelope, b_envelope_sha256 b).
