(* ===== verification/ControlAdmin.v ===== *)
(** * sjd_control.py: recovery, replay and quarantine *)
From S2P Require Export Prelude ControlTypes ControlClaim ControlProcess.

(** ** Recovery *)

Record RecoveryReport := {
  rr_recovered : Z;
  rr_retried : Z;
  rr_dead : Z;
}.

(** status = 'LEASED' AND lease_expires_at <= t. *)
Definition lease_expired (t : Float) (w : WorkRow) : bool :=
  bool_decide (w_status w = W_LEASED)
  && match w_lease_expires_at w with Some e => fleb e t | None => false end.

Definition expired_work (t : Float) (db : Db) : list (string * WorkRow) :=
  order_by key_order
    (List.filter (λ x, lease_expired t x.2) (map_to_list (works db))).

Definition live_attempt (a : AttemptRow) : bool :=
  bool_decide (a_status a = A_LEASED) || bool_decide (a_status a = A_SEALED).

(** One iteration of the loop, on a row read before it. *)
Definition recover_row (t : Float) (row : string * WorkRow) : Ctl unit :=
  let '(id, w) := row in
  let outcome := retry_outcome w in
  let attempt_id := default "None"%string (w_lease_attempt_id w) in
  update_attempt attempt_id live_attempt
    (λ a, {| a with a_status := A_EXPIRED; a_recovery_outcome := Some outcome |});;
  n ← update_work id (owns_fence attempt_id (w_fence w)) (release_work outcome t "lease expired");
  tx_require (n =? 1)%Z LeaseLostError.

(** UPDATE batches SET status = 'EXPIRED' WHERE status IN ('LEASED', 'SEALED')
    AND lease_expires_at <= t. *)
Definition expire_batches (t : Float) : Ctl unit :=
  modify_db (λ db, {| db with batches :=
    (λ b, if active_batch b && fleb (b_lease_expires_at b) t
          then {| b with b_status := B_EXPIRED |} else b) <$> batches db |}).

Definition count_if {A} (f : A → bool) (l : list A) : Z :=
  Z.of_nat (length (List.filter f l)).

Definition is_dead_outcome (x : string * WorkRow) : bool :=
  bool_decide (retry_outcome x.2 = W_DEAD).

Definition recover (now clock : pyval) : Ctl RecoveryReport :=
  timestamp ← tx_lift (match now with VNone => _finite clock | _ => _finite now end);
  _transaction (
    db ← get_db;
    let rows := expired_work timestamp db in
    tx_for (recover_row timestamp) rows;;
    expire_batches timestamp;;
    mret {| rr_recovered := Z.of_nat (length rows);
            rr_retried := count_if (negb ∘ is_dead_outcome) rows;
            rr_dead := count_if is_dead_outcome rows |}).

(** ** Replay *)

Record ReplayRequest := {
  rp_replay_id : string;
  rp_work_id : string;
  rp_operator : string;
  rp_reason : string;
  rp_generation : Z;
  rp_requested_at : Float;
}.

(** The previous replay, when the same request is repeated before the work is
    claimed again. *)
Definition _matching_last_replay (db : Db) (w : WorkRow) (operator reason : string)
    (additional_attempts : Z) : option ReplayRequest :=
  match w_last_replay_id w with
  | None => None
  | Some replay_id =>
      if negb (bool_decide (w_status w = W_READY)) then None else
      match replay_requests db !! replay_id with
      | None => None
      | Some r =>
          if bool_decide (r_operator r = operator) && bool_decide (r_reason r = reason)
             && (r_additional_attempts r =? additional_attempts)%Z
             && (w_attempt_count w + additional_attempts =? w_max_attempts w)%Z
          then Some {| rp_replay_id := replay_id; rp_work_id := r_work_id r;
                       rp_operator := r_operator r; rp_reason := r_reason r;
                       rp_generation := r_generation r; rp_requested_at := r_requested_at r |}
          else None
      end
  end.

Definition replay_key (work_id operator reason : string) (generation additional : Z) : pyval :=
  VDict [("version", VInt 1); ("work_id", VStr work_id); ("generation", VInt generation);
         ("operator", VStr operator); ("reason", VStr reason);
         ("additional_attempts", VInt additional)]%string.

(** INSERT INTO replay_requests: primary key, UNIQUE(work_id, generation) and
    the foreign key. *)
Definition insert_replay (id : string) (r : ReplayRow) : Ctl unit :=
  db ← get_db;
  tx_require
    (bool_decide (replay_requests db !! id = None)
     && forallb (λ x, negb (bool_decide (r_work_id x.2 = r_work_id r)
                            && (r_generation x.2 =? r_generation r)%Z))
          (map_to_list (replay_requests db))
     && bool_decide (is_Some (works db !! r_work_id r))) IntegrityError;;
  modify_db (λ db, {| db with replay_requests := <[id := r]> (replay_requests db) |}).

Definition replay (work_id operator reason additional_attempts clock : pyval)
    : Ctl ReplayRequest :=
  '(identity, actor, explanation, additional, now) ← tx_lift (
    identity ← _required_text work_id;
    actor ← _required_text operator;
    explanation ← _required_text reason;
    additional ← int_between 1 100 additional_attempts;
    now ← _finite clock;
    Ok (identity, actor, explanation, additional, now));
  _transaction (
    db ← get_db;
    match works db !! identity with
    | None => tx_raise KeyError
    | Some w =>
        if negb (bool_decide (w_status w = W_DEAD)) then
          match _matching_last_replay db w actor explanation additional with
          | Some previous => mret previous
          | None => tx_raise ControlError
          end
        else
          tx_require (bool_decide (w_committed_attempt_id w = None)) ControlError;;
          let generation := (w_replay_generation w + 1)%Z in
          text ← tx_lift (_canonical_json
            (replay_key identity actor explanation generation additional));
          let replay_id := ("replay-" +:+ _sha256_text text)%string in
          insert_replay replay_id
            {| r_work_id := identity; r_operator := actor; r_reason := explanation;
               r_generation := generation; r_requested_at := now; r_from_status := W_DEAD;
               r_additional_attempts := additional |};;
          update_work identity (λ w, bool_decide (w_status w = W_DEAD))
            (λ w, {| w with w_status := W_READY;
                            w_max_attempts := (w_attempt_count w + additional)%Z;
                            w_available_at := now; w_replay_generation := generation;
                            w_last_replay_id := Some replay_id; w_last_error := None;
                            w_updated_at := now |});;
          mret {| rp_replay_id := replay_id; rp_work_id := identity; rp_operator := actor;
                  rp_reason := explanation; rp_generation := generation;
                  rp_requested_at := now |}
    end).

(** ** Quarantine *)

Record QuarantineReport := {
  qr_work_ids : list string;
  qr_operator : string;
  qr_reason : string;
  qr_quarantined_at : Float;
}.

(** The validated mapping, by identifier; a dict comprehension keeps the last
    value of a repeated key, and here keys are unique. *)
Fixpoint expected_digests (d : list (string * pyval)) : result (list (string * string)) :=
  match d with
  | [] => Ok []
  | (id, v) :: d' =>
      work_id ← _required_text (VStr id);
      digest ← _validated_sha256 v;
      rest ← expected_digests d';
      Ok ((work_id, digest) :: rest)
  end.

Definition quarantine_marker (operator reason digest : string) : pyval :=
  VDict [("operation", VStr "quarantine"); ("operator", VStr operator);
         ("reason", VStr reason); ("release_digest", VStr digest)]%string.

(** One iteration of the loop; [db0] is the database the rows were read from. *)
Definition quarantine_row (db0 : Db) (operator reason : string) (now : Float)
    (x : string * string) : Ctl unit :=
  let '(work_id, digest) := x in
  match works db0 !! work_id with
  | None => tx_raise KeyError
  | Some w =>
      marker ← tx_lift (_canonical_json (quarantine_marker operator reason digest));
      tx_require (bool_decide (w_release_digest w = digest)) ImmutableConflictError;;
      if bool_decide (w_status w = W_DEAD) && bool_decide (w_last_error w = Some marker)
      then mret tt
      else
        tx_require (bool_decide (w_status w = W_READY)
                    && bool_decide (w_committed_attempt_id w = None)) ControlError;;
        update_work work_id
          (λ w, bool_decide (w_status w = W_READY) && bool_decide (w_release_digest w = digest)
                && bool_decide (w_committed_attempt_id w = None))
          (λ w, {| w with w_status := W_DEAD; w_available_at := now;
                          w_last_error := Some marker; w_updated_at := now |});;
        mret tt
  end.

Definition quarantine (expected_release_digests : list (string * pyval))
    (operator reason clock : pyval) : Ctl QuarantineReport :=
  '(expected, actor, explanation, now) ← tx_lift (
    require (negb (match expected_release_digests with [] => true | _ => false end)) ValueError;;
    expected ← expected_digests expected_release_digests;
    actor ← _required_text operator;
    explanation ← _required_text reason;
    now ← _finite clock;
    Ok (expected, actor, explanation, now));
  _transaction (
    db ← get_db;
    tx_require (forallb (λ x, bool_decide (is_Some (works db !! x.1))) expected) KeyError;;
    tx_for (quarantine_row db actor explanation now) expected;;
    db' ← get_db;
    tx_require (forallb (λ x, match works db' !! x.1 with
                              | Some w => bool_decide (w_status w = W_DEAD)
                              | None => false
                              end) expected) ControlError;;
    mret {| qr_work_ids := merge_sort (λ a b, Is_true (str_leb a b)) expected.*1;
            qr_operator := actor; qr_reason := explanation; qr_quarantined_at := now |}).
