(* ===== verification/ControlReconcile.v ===== *)
(** * sjd_control.py: reconciliation

    The integrity findings of the store, detected by outer joins and by reading the
    claim envelopes back, and recorded under stable identities. *)
From S2P Require Export Prelude PyVal Json ControlTypes ControlClaim ControlProcess ControlEnvelope ControlAdmin.

(** kind, severity, entity, details. *)
Definition Finding : Type := string * string * string * pyval.
Definition fi_kind (f : Finding) : string := f.1.1.1.
Definition fi_severity (f : Finding) : string := f.1.1.2.
Definition fi_entity (f : Finding) : string := f.1.2.

Definition opt_str (o : option string) : pyval :=
  match o with Some s => VStr s | None => VNone end.

Definition status_text (s : work_status) : string :=
  match s with
  | W_READY => "READY" | W_LEASED => "LEASED"
  | W_SUCCEEDED => "SUCCEEDED" | W_DEAD => "DEAD"
  end.

(** [_finding_id]. *)
Definition _finding_id (kind entity : string) : result string :=
  text ← _canonical_json
    (VDict [("version", VInt 1); ("type", VStr kind); ("entity", VStr entity)]%string);
  Ok ("finding-" +:+ _sha256_text text)%string.

(** The committed pointer of [w] does not name a SUCCEEDED attempt of this work
    with the publication that carries its sequence. *)
Definition pointer_invalid (db : Db) (id : string) (w : WorkRow) (attempt_id : string) : bool :=
  negb match attempts db !! attempt_id with
       | Some a =>
           bool_decide (a_work_id a = id) && bool_decide (a_status a = A_SUCCEEDED)
       | None => false
       end
  || match List.find (λ p, bool_decide (p_work_id p = id)
                           && bool_decide (p_attempt_id p = attempt_id)) (publications db) with
     | Some p => match w_publication_sequence w with
                 | Some s => negb (s =? p_publication_sequence p)%Z
                 | None => false
                 end
     | None => true
     end.

Definition invalid_pointers (db : Db) : list Finding :=
  omap (λ x : string * WorkRow, match w_committed_attempt_id x.2 with
    | Some a => if pointer_invalid db x.1 x.2 a
                then Some ("INVALID_COMMITTED_POINTER", "ERROR", x.1,
                           VDict [("committed_attempt_id", VStr a)])%string
                else None
    | None => None
    end) (map_to_list (works db)).

(** No pointer, although the work succeeded, was published, or has a succeeded
    attempt. *)
Definition pointer_missing (db : Db) (id : string) (w : WorkRow) : bool :=
  bool_decide (w_committed_attempt_id w = None)
  && (bool_decide (w_status w = W_SUCCEEDED)
      || existsb (λ p, bool_decide (p_work_id p = id)) (publications db)
      || existsb (λ x, bool_decide (a_work_id x.2 = id) && bool_decide (a_status x.2 = A_SUCCEEDED))
           (map_to_list (attempts db))).

Definition missing_pointers (db : Db) : list Finding :=
  omap (λ x : string * WorkRow,
    if pointer_missing db x.1 x.2
    then Some ("MISSING_COMMITTED_POINTER", "ERROR", x.1,
               VDict [("status", VStr (status_text (w_status x.2)))])%string
    else None) (map_to_list (works db)).

Definition sealed_uncommitted (db : Db) : list Finding :=
  omap (λ x : string * AttemptRow,
    if bool_decide (a_status x.2 = A_SEALED)
       && negb (existsb (λ p, bool_decide (p_attempt_id p = x.1)) (publications db))
    then Some ("SEALED_UNCOMMITTED_ATTEMPT", "WARN", x.1,
               VDict [("work_id", VStr (a_work_id x.2)); ("batch_id", VStr (a_batch_id x.2))])%string
    else None) (map_to_list (attempts db)).

Definition orphan_outputs (db : Db) : list Finding :=
  omap (λ o : OutputRow,
    if match attempts db !! o_attempt_id o with
       | Some a => negb (bool_decide (a_work_id a = o_work_id o))
       | None => true
       end
    then Some ("ORPHAN_OUTPUT", "ERROR", str_of_codes (int_codes (o_output_id o)),
               VDict [("attempt_id", VStr (o_attempt_id o)); ("work_id", VStr (o_work_id o));
                      ("output_path", VStr (o_output_path o))])%string
    else None) (output_records db).

Definition expired_leases (now : Float) (db : Db) : list Finding :=
  omap (λ x : string * WorkRow,
    if lease_expired now x.2
    then Some ("EXPIRED_LEASE", "ERROR", x.1,
               VDict [("attempt_id", opt_str (w_lease_attempt_id x.2));
                      ("lease_expires_at", match w_lease_expires_at x.2 with
                                           | Some e => VFloat e | None => VNone end)])%string
    else None) (map_to_list (works db)).

Definition output_identity (o : OutputRow) : string * string * Z :=
  (o_work_id o, o_attempt_id o, o_record_sequence o).

Definition duplicate_outputs (db : Db) : list Finding :=
  omap (λ k : string * string * Z,
    let count := count_if (λ o, bool_decide (output_identity o = k)) (output_records db) in
    if (1 <? count)%Z
    then Some ("DUPLICATE_OUTPUT_IDENTITY", "ERROR",
               k.1.1 +:+ ":" +:+ k.1.2 +:+ ":" +:+ str_of_codes (int_codes k.2),
               VDict [("count", VInt count)])%string
    else None) (remove_dups (output_identity <$> output_records db)).

(** [_detect_relational_findings], in the order of its queries. *)
Definition _detect_relational_findings (now : Float) (db : Db) : list Finding :=
  invalid_pointers db ++ missing_pointers db ++ sealed_uncommitted db
  ++ orphan_outputs db ++ expired_leases now db ++ duplicate_outputs db.

Definition member_claimed (m : MemberRow) : ClaimedWork := {|
  c_work_id := m_work_id m; c_attempt_id := m_attempt_id m;
  c_fence := m_fence m; c_payload_sha256 := m_payload_sha256 m |}.

(** Attempts of the batch without an identical membership row. *)
Definition attempt_mismatches (db : Db) (id : string) : list string :=
  fst <$> List.filter (λ x : string * AttemptRow,
    match List.find (λ m, bool_decide (m_attempt_id m = x.1)) (batch_members db) with
    | Some m => negb (bool_decide (m_work_id m = a_work_id x.2)
                      && (m_fence m =? a_fence x.2)%Z
                      && bool_decide (m_payload_sha256 m = a_payload_sha256 x.2))
    | None => true
    end) (batch_attempts id db).

(** [_detect_batch_findings]: the findings of one batch, in the order of their [add]. *)
Definition membership_mismatch (id : string) (details : list (string * pyval)) : Finding :=
  ("MEMBERSHIP_HASH_MISMATCH", "ERROR", id, VDict details)%string.

Definition membership_findings (db : Db) (id : string) (b : BatchRow) : result (list Finding) :=
  let members := members_of id db in
  let count := Z.of_nat (length members) in
  calculated ← _membership_sha256 (member_claimed <$> members);
  Ok (if (count =? b_item_count b)%Z && bool_decide (calculated = b_membership_sha256 b) then []
      else [membership_mismatch id
              [("expected_count", VInt (b_item_count b)); ("actual_count", VInt count);
               ("expected_sha256", VStr (b_membership_sha256 b));
               ("actual_sha256", VStr calculated)]])%string.

Definition attempt_findings (db : Db) (id : string) : list Finding :=
  match attempt_mismatches db id with
  | [] => []
  | ids => [membership_mismatch id
              [("reason", VStr "attempt rows differ from batch membership");
               ("attempt_ids", VList (VStr <$> ids))]]%string
  end.

(** [envelope["items"], envelope["membership_sha256"]]: a missing key and an envelope
    that cannot be indexed by a text both give None. *)
Definition envelope_index (content : list Z) : result (pyval * pyval) :=
  match json_loads_bytes content with
  | Ok (VDict d) =>
      Ok match dict_lookup "items" d, dict_lookup "membership_sha256" d with
         | Some items, Some membership => (items, membership)
         | _, _ => (VNone, VNone)
         end
  | Ok _ | Err JSONDecodeError => Ok (VNone, VNone)
  | Err e => Err e
  end.

Definition envelope_matches (b : BatchRow) (x : pyval * pyval) : bool :=
  match x.1 with
  | VList items => (Z.of_nat (length items) =? b_item_count b)%Z
                   && py_eqb x.2 (VStr (b_membership_sha256 b))
  | _ => false
  end.

Definition envelope_hash_mismatch (id : string) (b : BatchRow) (actual : option string) : Finding :=
  ("ENVELOPE_HASH_MISMATCH", "ERROR", id,
   VDict [("expected_sha256", VStr (b_envelope_sha256 b)); ("actual_sha256", opt_str actual);
          ("path", VStr (b_envelope_path b))])%string.

Definition envelope_findings (fs : Files) (id : string) (b : BatchRow) : result (list Finding) :=
  let actual := (λ c, hexdigest (sha256 c)) <$> fs !! b_envelope_path b in
  match fs !! b_envelope_path b with
  | Some content =>
      if bool_decide (actual = Some (b_envelope_sha256 b)) then
        index ← envelope_index content;
        Ok (if envelope_matches b index then []
            else [membership_mismatch id
                    [("reason", VStr "claim envelope membership differs from SQLite")%string]])
      else Ok [envelope_hash_mismatch id b actual]
  | None => Ok [envelope_hash_mismatch id b actual]
  end.

Definition batch_findings (db : Db) (fs : Files) (x : string * BatchRow) : result (list Finding) :=
  members ← membership_findings db x.1 x.2;
  envelope ← envelope_findings fs x.1 x.2;
  Ok (members ++ attempt_findings db x.1 ++ envelope).

Fixpoint all_batch_findings (db : Db) (fs : Files) (l : list (string * BatchRow))
    : result (list Finding) :=
  match l with
  | [] => Ok []
  | x :: l' => f ← batch_findings db fs x; rest ← all_batch_findings db fs l'; Ok (f ++ rest)
  end.

Definition _detect_batch_findings (db : Db) (fs : Files) : result (list Finding) :=
  all_batch_findings db fs (map_to_list (batches db)).

(** [detected[_finding_id(kind, entity)] = ...]: a later finding replaces an
    earlier one with the same identity. *)
Fixpoint detect (fs : list Finding) (m : gmap string Finding) : result (gmap string Finding) :=
  match fs with
  | [] => Ok m
  | f :: fs' => id ← _finding_id (fi_kind f) (fi_entity f); detect fs' (<[id := f]> m)
  end.

(** The findings become rows under their identities: a known finding keeps its
    first_seen_at and is reopened, a finding that is no longer detected is
    resolved. *)
Definition upsert_row (t : Float) (f : Finding) (old : option FindingRow) : FindingRow :=
  match old with
  | Some old => {| old with f_severity := fi_severity f; f_details := f.2;
                            f_last_seen_at := t; f_resolved_at := None |}
  | None => {| f_finding_type := fi_kind f; f_severity := fi_severity f;
               f_entity_key := fi_entity f; f_details := f.2;
               f_first_seen_at := t; f_last_seen_at := t; f_resolved_at := None |}
  end.
Definition upsert_finding (t : Float) (id : string) (f : Finding)
    (m : gmap string FindingRow) : gmap string FindingRow := <[id := upsert_row t f (m !! id)]> m.

Definition with_findings (f : gmap string FindingRow → gmap string FindingRow) (db : Db) : Db :=
  {| db with reconciliation_findings := f (reconciliation_findings db) |}.

(** One iteration: the details are serialised before the INSERT. *)
Definition record_finding (t : Float) (x : string * Finding) : Ctl unit :=
  tx_lift (_canonical_json x.2.2);;
  modify_db (with_findings (upsert_finding t x.1 x.2)).

Definition resolve_row (t : Float) (row : FindingRow) : FindingRow :=
  {| row with f_resolved_at := Some (default t (f_resolved_at row)) |}.

(** UPDATE ... SET resolved_at = t WHERE resolved_at IS NULL AND finding_id NOT IN current. *)
Definition resolve_findings (t : Float) (current : gmap string Finding)
    (m : gmap string FindingRow) : gmap string FindingRow :=
  map_imap (λ id r, Some (if bool_decide (current !! id = None) then resolve_row t r else r)) m.

Definition open_findings (db : Db) : list (string * FindingRow) :=
  List.filter (λ x, bool_decide (f_resolved_at x.2 = None))
    (map_to_list (reconciliation_findings db)).

Record ReconciliationFinding := {
  rf_finding_id : string;
  rf_finding_type : string;
  rf_severity : string;
  rf_entity_key : string;
  rf_details : pyval;
  rf_first_seen_at : Float;
  rf_last_seen_at : Float;
}.

(** ORDER BY severity, finding_type, entity_key. *)
Definition finding_before (x y : string * FindingRow) : bool :=
  if String.eqb (f_severity x.2) (f_severity y.2) then
    if String.eqb (f_finding_type x.2) (f_finding_type y.2)
    then str_leb (f_entity_key x.2) (f_entity_key y.2)
    else str_leb (f_finding_type x.2) (f_finding_type y.2)
  else str_leb (f_severity x.2) (f_severity y.2).

(** A row as it is returned, its details read back from details_json. *)
Definition finding_of (x : string * FindingRow) : result ReconciliationFinding :=
  text ← _canonical_json (f_details x.2);
  details ← json_loads_text text;
  Ok {| rf_finding_id := x.1; rf_finding_type := f_finding_type x.2;
        rf_severity := f_severity x.2; rf_entity_key := f_entity_key x.2;
        rf_details := details; rf_first_seen_at := f_first_seen_at x.2;
        rf_last_seen_at := f_last_seen_at x.2 |}.

Definition reconcile (now clock : pyval) : Ctl (list ReconciliationFinding) :=
  timestamp ← tx_lift (match now with VNone => _finite clock | _ => _finite now end);
  _transaction (
    db ← get_db;
    fs ← get_files;
    batch ← tx_lift (_detect_batch_findings db fs);
    detected ← tx_lift (detect (_detect_relational_findings timestamp db ++ batch) ∅);
    tx_for (record_finding timestamp) (order_by key_order (map_to_list detected));;
    modify_db (with_findings (resolve_findings timestamp detected));;
    db ← get_db;
    tx_map (λ x, tx_lift (finding_of x)) (order_by finding_before (open_findings db))).

(** ** Reads *)

Definition get_work (work_id : pyval) : Ctl RegisteredWork :=
  id ← tx_lift (_required_text work_id);
  db ← get_db;
  match works db !! id with
  | Some w => mret (_registered id w)
  | None => tx_raise KeyError
  end.

(** The counts that [status] reports; a status without rows has no entry. *)
Record StatusReport := {
  st_work : work_status → Z;
  st_batches : batch_status → Z;
  st_open_findings : Z;
  st_last_publication_sequence : option Z;
}.

Definition max_sequence (l : list PublicationRow) : option Z :=
  match l with
  | [] => None
  | p :: l' => Some (foldr (λ q m, Z.max (p_publication_sequence q) m) (p_publication_sequence p) l')
  end.

Definition status (db : Db) : StatusReport := {|
  st_work := λ st, count_if (λ x : string * WorkRow, bool_decide (w_status x.2 = st))
    (map_to_list (works db));
  st_batches := λ st, count_if (λ x : string * BatchRow, bool_decide (b_status x.2 = st))
    (map_to_list (batches db));
  st_open_findings := Z.of_nat (length (open_findings db));
  st_last_publication_sequence := max_sequence (publications db) |}.
