(* ===== verification/ControlInv.v ===== *)
(** * The invariant of the control store

    [core] states what holds of the tables after every row a statement loop
    processes; [coupled] ties a batch to its attempts and holds between
    operations.  The lemmas of this file say that each effect a statement group
    has on the tables preserves [core]. *)
From S2P Require Export Prelude ControlTypes ControlClaim ControlProcess ControlAdmin.

(** ** Statement *)

(** A work row on its own: the CHECK constraints, the attempt budget, and the
    committed pointer exactly on SUCCEEDED work.  Every claim raises the attempt
    count and the fence together. *)
Record work_wf (w : WorkRow) : Prop := {
  wf_check : work_check w = true;
  wf_fence : w_fence w = w_attempt_count w;
  wf_count : (0 ≤ w_attempt_count w ≤ w_max_attempts w)%Z;
  wf_ready : w_status w = W_READY → (w_attempt_count w < w_max_attempts w)%Z;
  wf_done : w_status w = W_SUCCEEDED ↔ is_Some (w_committed_attempt_id w);
  wf_sequence : is_Some (w_publication_sequence w) ↔ is_Some (w_committed_attempt_id w);
}.

Definition live (a : AttemptRow) : Prop := a_status a = A_LEASED ∨ a_status a = A_SEALED.
Definition active (b : BatchRow) : Prop := b_status b = B_LEASED ∨ b_status b = B_SEALED.

#[export] Instance live_dec a : Decision (live a).
Proof. unfold live. apply _. Defined.
#[export] Instance active_dec b : Decision (active b).
Proof. unfold active. apply _. Defined.

Record core (db : Db) : Prop := {
  core_work : ∀ id w, works db !! id = Some w → work_wf w;
  (** the lease of a LEASED work names a live attempt at the current fence *)
  core_lease : ∀ id w, works db !! id = Some w → w_status w = W_LEASED →
    ∃ a at_, w_lease_attempt_id w = Some a ∧ attempts db !! a = Some at_ ∧
      a_work_id at_ = id ∧ a_fence at_ = w_fence w ∧ live at_;
  (** a live attempt holds the lease of its work *)
  core_live : ∀ a at_, attempts db !! a = Some at_ → live at_ →
    ∃ w, works db !! a_work_id at_ = Some w ∧ w_status w = W_LEASED ∧
      w_lease_attempt_id w = Some a;
  core_attempt : ∀ a at_, attempts db !! a = Some at_ →
    (∃ w, works db !! a_work_id at_ = Some w ∧ (0 < a_fence at_ ≤ w_fence w)%Z ∧
      a_payload_sha256 at_ = w_payload_sha256 w) ∧
    is_Some (batches db !! a_batch_id at_);
  core_unique : ∀ a1 a2 at1 at2, attempts db !! a1 = Some at1 → attempts db !! a2 = Some at2 →
    a_work_id at1 = a_work_id at2 → a_fence at1 = a_fence at2 → a1 = a2;
  core_sealed : ∀ a at_, attempts db !! a = Some at_ → a_status at_ = A_SEALED →
    is_Some (a_output_path at_) ∧ is_Some (a_output_sha256 at_) ∧
    is_Some (a_terminal_succeeded at_);
  core_succeeded : ∀ a at_, attempts db !! a = Some at_ → a_status at_ = A_SUCCEEDED →
    ∃ w, works db !! a_work_id at_ = Some w ∧ w_committed_attempt_id w = Some a;
  core_pointer : ∀ id w a, works db !! id = Some w → w_committed_attempt_id w = Some a →
    ∃ at_ p, attempts db !! a = Some at_ ∧ a_work_id at_ = id ∧ a_status at_ = A_SUCCEEDED ∧
      p ∈ publications db ∧ p_work_id p = id ∧ p_attempt_id p = a ∧
      w_publication_sequence w = Some (p_publication_sequence p);
  core_publication : ∀ p, p ∈ publications db →
    ∃ w at_, works db !! p_work_id p = Some w ∧
      w_committed_attempt_id w = Some (p_attempt_id p) ∧
      attempts db !! p_attempt_id p = Some at_ ∧ a_batch_id at_ = p_batch_id p ∧
      Some (p_output_sha256 p) = a_output_sha256 at_;
  core_published_once : NoDup (p_work_id <$> publications db);
  core_sequences : StronglySorted Z.lt (p_publication_sequence <$> publications db) ∧
    (∀ p, p ∈ publications db → (p_publication_sequence p < publication_next db)%Z);
  core_output : ∀ o, o ∈ output_records db →
    ∃ at_, attempts db !! o_attempt_id o = Some at_ ∧ a_work_id at_ = o_work_id o;
  core_output_once : NoDup ((λ o, (o_work_id o, o_attempt_id o, o_record_sequence o))
    <$> output_records db);
  core_member : ∀ m, m ∈ batch_members db →
    ∃ at_, attempts db !! m_attempt_id m = Some at_ ∧ a_batch_id at_ = m_batch_id m ∧
      a_work_id at_ = m_work_id m ∧ a_fence at_ = m_fence m ∧
      a_payload_sha256 at_ = m_payload_sha256 m;
  core_enrolled : ∀ a at_, attempts db !! a = Some at_ →
    ∃ m, m ∈ batch_members db ∧ m_attempt_id m = a;
}.

(** The attempt status that an active batch imposes. *)
Definition expected_status (s : batch_status) : option attempt_status :=
  match s with
  | B_LEASED => Some A_LEASED
  | B_SEALED => Some A_SEALED
  | _ => None
  end.

(** An active batch has every attempt live, in step with the batch, and leases
    them all until the same instant; an inactive batch has no live attempt. *)
Definition coupled (db : Db) (id : string) (b : BatchRow) : Prop :=
  ∀ a at_, attempts db !! a = Some at_ → a_batch_id at_ = id →
    match expected_status (b_status b) with
    | Some s => a_status at_ = s ∧
        ∃ w, works db !! a_work_id at_ = Some w ∧ w_lease_expires_at w = Some (b_lease_expires_at b)
    | None => ¬ live at_
    end.

Record Inv (db : Db) : Prop := {
  inv_core : core db;
  inv_coupled : ∀ id b, batches db !! id = Some b → coupled db id b;
}.

Lemma Inv_empty : Inv empty_db.
Proof.
  split; [split|]; simpl;
    try (intros *; rewrite lookup_empty; done); try set_solver; try constructor.
  - constructor.
  - set_solver.
Qed.

(** ** Consequences of the invariant *)

Lemma live_attempt_true a : live_attempt a = true ↔ live a.
Proof.
  unfold live_attempt, live. by rewrite orb_true_iff, !bool_decide_eq_true.
Qed.

Lemma active_batch_true b : active_batch b = true ↔ active b.
Proof. unfold active_batch, active. by rewrite orb_true_iff, !bool_decide_eq_true. Qed.

Lemma owns_fence_true id f w :
  owns_fence id f w = true ↔
  w_status w = W_LEASED ∧ w_lease_attempt_id w = Some id ∧ w_fence w = f.
Proof.
  unfold owns_fence. rewrite !andb_true_iff, !bool_decide_eq_true, Z.eqb_eq. tauto.
Qed.

Lemma work_check_leased w :
  work_check w = true → w_status w = W_LEASED →
  ∃ o a e, w_lease_owner w = Some o ∧ w_lease_attempt_id w = Some a ∧
    w_lease_expires_at w = Some e.
Proof.
  unfold work_check. intros H E. rewrite E in H. btrue.
  destruct (w_lease_owner w), (w_lease_attempt_id w), (w_lease_expires_at w);
    try discriminate. eauto 10.
Qed.

Lemma work_check_unleased w :
  work_check w = true → w_status w ≠ W_LEASED →
  w_lease_owner w = None ∧ w_lease_attempt_id w = None ∧ w_lease_expires_at w = None.
Proof.
  unfold work_check. intros H E. btrue.
  destruct (w_status w), (w_lease_owner w), (w_lease_attempt_id w),
    (w_lease_expires_at w); try discriminate; done.
Qed.

Lemma work_check_leased_iff w :
  work_check w = true → is_Some (w_lease_attempt_id w) ↔ w_status w = W_LEASED.
Proof.
  intros H. split.
  - intros [a Ha]. destruct (decide (w_status w = W_LEASED)) as [|Hn]; [done|].
    destruct (work_check_unleased w H Hn) as (_ & ? & _). congruence.
  - intros E. destruct (work_check_leased w H E) as (?&?&?&?&->&?). eauto.
Qed.

(** ** Effects of the statements *)

(** [core] reads the batches only through their existence, and reads neither the
    findings nor the replay requests. *)
Lemma core_ext db db' :
  core db →
  works db' = works db → attempts db' = attempts db →
  (∀ id, is_Some (batches db !! id) → is_Some (batches db' !! id)) →
  batch_members db' = batch_members db → output_records db' = output_records db →
  publications db' = publications db → publication_next db' = publication_next db →
  core db'.
Proof.
  intros [] Hw Ha Hb Hm Ho Hp Hn.
  split; rewrite ?Hw, ?Ha, ?Hm, ?Ho, ?Hp, ?Hn; auto.
  intros a at_ Hat. destruct (core_attempt0 a at_ Hat). auto.
Qed.

(** A new READY work row. *)
Lemma core_insert_work db id w :
  core db → works db !! id = None → work_wf w →
  w_status w ≠ W_LEASED → w_committed_attempt_id w = None →
  core (set_work id w db).
Proof.
  intros C Hid Hwf Hst Hcm.
  assert (Hkeep : ∀ k x, works db !! k = Some x → <[id:=w]> (works db) !! k = Some x).
  { intros k x Hx. rewrite lookup_insert_ne; congruence. }
  destruct C. split; simpl; auto.
  - intros k x [[<- <-]|[? ?]]%lookup_insert_Some; eauto.
  - intros k x [[<- <-]|[? ?]]%lookup_insert_Some; [done|eauto].
  - intros a at_ Ha Hl. destruct (core_live0 a at_ Ha Hl) as (?&?&?&?); eauto 10.
  - intros a at_ Ha. destruct (core_attempt0 a at_ Ha) as [(?&?&?&?) ?]; eauto 10.
  - intros a at_ Ha Hs. destruct (core_succeeded0 a at_ Ha Hs) as (?&?&?); eauto 10.
  - intros k x a [[<- <-]|[? ?]]%lookup_insert_Some; [congruence|eauto].
  - intros p Hp. destruct (core_publication0 p Hp) as (?&?&?&?&?&?&?); eauto 10.
Qed.

(** An update of one work row that leaves its lease holder, its fence and its
    pointer alone. *)
Record same_holder (w w' : WorkRow) : Prop := {
  sh_leased : w_status w' = W_LEASED ↔ w_status w = W_LEASED;
  sh_attempt : w_lease_attempt_id w' = w_lease_attempt_id w;
  sh_fence : w_fence w' = w_fence w;
  sh_payload : w_payload_sha256 w' = w_payload_sha256 w;
  sh_committed : w_committed_attempt_id w' = w_committed_attempt_id w;
  sh_sequence : w_publication_sequence w' = w_publication_sequence w;
}.

Lemma core_update_work db id w w' :
  core db → works db !! id = Some w → work_wf w' → same_holder w w' →
  core (set_work id w' db).
Proof.
  intros C Hid Hwf [Hl Ha Hf Hp Hc Hs].
  assert (Hkeep : ∀ k x (P : WorkRow → Prop), works db !! k = Some x → P x →
    (k = id → P w → P w') →
    ∃ y, <[id:=w']> (works db) !! k = Some y ∧ P y).
  { intros k x P Hx HP Hw. destruct (decide (k = id)) as [->|Hne].
    - exists w'. rewrite lookup_insert_eq. split; [done|]. apply Hw; congruence.
    - exists x. rewrite lookup_insert_ne by done. done. }
  destruct C. split; simpl; auto.
  - intros k x [[<- <-]|[? ?]]%lookup_insert_Some; eauto.
  - intros k x [[<- <-]|[? ?]]%lookup_insert_Some; [|by eauto].
    rewrite Hl, Ha, Hf. eauto.
  - intros a at_ Hat Hlive. destruct (core_live0 a at_ Hat Hlive) as (x&Hx&H1&H2).
    eapply Hkeep; eauto; simpl. rewrite Hl, Ha. tauto.
  - intros a at_ Hat. destruct (core_attempt0 a at_ Hat) as [(x&Hx&H1&H2) ?].
    split; [|done]. eapply Hkeep; eauto; simpl. rewrite Hf, Hp. tauto.
  - intros a at_ Hat Hsu. destruct (core_succeeded0 a at_ Hat Hsu) as (x&Hx&H1).
    eapply Hkeep; eauto; simpl. by rewrite Hc.
  - intros k x a [[<- <-]|[? ?]]%lookup_insert_Some; [|by eauto].
    rewrite Hc, Hs. eauto.
  - intros p Hpub. destruct (core_publication0 p Hpub) as (x&at_&Hx&H1&H2).
    destruct (Hkeep _ x (λ y, w_committed_attempt_id y = Some (p_attempt_id p)) Hx H1)
      as (y&?&?); [by rewrite Hc|]. eauto 10.
Qed.

(** The columns of an attempt that no update writes. *)
Record same_attempt (a a' : AttemptRow) : Prop := {
  sa_work : a_work_id a' = a_work_id a;
  sa_batch : a_batch_id a' = a_batch_id a;
  sa_fence : a_fence a' = a_fence a;
  sa_payload : a_payload_sha256 a' = a_payload_sha256 a;
}.

Lemma insert_keeps {A} (m : gmap string A) k x x' (P : string → A → Prop) :
  m !! k = Some x → (P k x → P k x') →
  ∀ j y, m !! j = Some y → P j y → ∃ z, <[k:=x']> m !! j = Some z ∧ P j z.
Proof.
  intros Hk Himp j y Hj HP. destruct (decide (j = k)) as [->|Hne].
  - exists x'. rewrite lookup_insert_eq. split; [done|]. apply Himp. congruence.
  - exists y. by rewrite lookup_insert_ne.
Qed.

(** A live attempt ends without a publication: its work is released.  Commit of a
    failed attempt and recovery have this effect. *)
Lemma core_release db id a w at_ w' at' :
  core db → works db !! id = Some w → attempts db !! a = Some at_ →
  a_work_id at_ = id → w_status w = W_LEASED → w_lease_attempt_id w = Some a →
  work_wf w' → w_status w' ≠ W_LEASED → w_fence w' = w_fence w →
  w_payload_sha256 w' = w_payload_sha256 w →
  w_committed_attempt_id w' = w_committed_attempt_id w →
  w_publication_sequence w' = w_publication_sequence w →
  same_attempt at_ at' → a_status at' ∈ [A_FAILED; A_EXPIRED] →
  core (set_attempt a at' (set_work id w' db)).
Proof.
  intros C Hid Hat Hwk Hst Hla Hwf Hst' Hf Hp Hc Hs [S1 S2 S3 S4] Hend.
  assert (Hdead : ¬ live at' ∧ a_status at' ≠ A_SUCCEEDED).
  { unfold live. set_unfold. destruct Hend as [->|[->|[]]]; naive_solver. }
  destruct Hdead as [Hnl Hns].
  assert (Hnc : w_status w ≠ W_SUCCEEDED) by congruence.
  assert (Hnone : w_committed_attempt_id w = None).
  { apply eq_None_not_Some. intros ?. apply Hnc. by apply (wf_done w (core_work _ C _ _ Hid)). }
  pose proof (λ P, insert_keeps (works db) id w w' P Hid) as HW.
  pose proof (λ P, insert_keeps (attempts db) a at_ at' P Hat) as HA.
  destruct C. split; simpl; auto.
  - intros k x [[<- <-]|[? ?]]%lookup_insert_Some; eauto.
  - intros k x [[<- <-]|[Hne Hx]]%lookup_insert_Some; [done|].
    intros Hl. destruct (core_lease0 k x Hx Hl) as (b&bt&Hb1&Hb2&Hb3&?).
    exists b, bt. rewrite lookup_insert_ne; [naive_solver|]. congruence.
  - intros b bt [[<- <-]|[Hne Hx]]%lookup_insert_Some; [done|].
    intros Hl. destruct (core_live0 b bt Hx Hl) as (x&?&?&?).
    exists x. rewrite lookup_insert_ne; [done|]. congruence.
  - intros b bt [[<- <-]|[Hne Hx]]%lookup_insert_Some.
    + rewrite S1, S2, S3, S4. destruct (core_attempt0 a at_ Hat) as [(x&Hx&H1&H2) ?].
      split; [|done]. eapply (HW (λ _ y, _ ∧ _)); eauto; simpl. rewrite Hf, Hp. tauto.
    + destruct (core_attempt0 b bt Hx) as [(x&Hx'&H1&H2) ?].
      split; [|done]. eapply (HW (λ _ y, _ ∧ _)); eauto; simpl. rewrite Hf, Hp. tauto.
  - intros a1 a2 t1 t2 [[<- <-]|[? H1]]%lookup_insert_Some [[<- <-]|[? H2]]%lookup_insert_Some;
      rewrite ?S1, ?S3; eauto.
  - intros b bt [[<- <-]|[Hne Hx]]%lookup_insert_Some; [|by eauto].
    intros Hse. destruct Hnl. by right.
  - intros b bt [[<- <-]|[Hne Hx]]%lookup_insert_Some; [done|].
    intros Hsu. destruct (core_succeeded0 b bt Hx Hsu) as (x&Hx'&H1).
    eapply (HW (λ _ y, w_committed_attempt_id y = Some b)); eauto. by rewrite Hc.
  - intros k x b [[<- <-]|[Hne Hx]]%lookup_insert_Some Hxc; [congruence|].
    destruct (core_pointer0 k x b Hx Hxc) as (bt&p&Hbt&Hbw&?).
    exists bt, p. rewrite lookup_insert_ne; [naive_solver|]. congruence.
  - intros p Hpub. destruct (core_publication0 p Hpub) as (x&bt&Hx&H1&Hbt&H2).
    exists x, bt. rewrite !lookup_insert_ne; [done| |].
    + intros ->. destruct (core_pointer0 _ _ _ Hx H1) as (bt'&?&Hbt'&Hwk'&_).
      assert (at_ = bt') by congruence. subst. congruence.
    + intros ->. congruence.
  - intros o Ho. destruct (core_output0 o Ho) as (bt&Hbt&?).
    eapply (HA (λ _ y, a_work_id y = _)); eauto. by rewrite S1.
  - intros m Hm. destruct (core_member0 m Hm) as (bt&Hbt&?).
    eapply (HA (λ _ y, _ ∧ _)); eauto. by rewrite S1, S2, S3, S4.
  - intros b bt [[<- <-]|[Hne Hx]]%lookup_insert_Some; eauto.
Qed.

(** A live attempt ends with its publication: the committed pointer advances. *)
Lemma core_publish db id a w at_ w' at' p :
  core db → works db !! id = Some w → attempts db !! a = Some at_ →
  a_work_id at_ = id → w_status w = W_LEASED → w_lease_attempt_id w = Some a →
  work_wf w' → w_status w' ≠ W_LEASED → w_fence w' = w_fence w →
  w_payload_sha256 w' = w_payload_sha256 w →
  w_committed_attempt_id w' = Some a →
  w_publication_sequence w' = Some (publication_next db) →
  same_attempt at_ at' → a_status at' = A_SUCCEEDED →
  p_work_id p = id → p_attempt_id p = a → p_batch_id p = a_batch_id at_ →
  Some (p_output_sha256 p) = a_output_sha256 at' →
  p_publication_sequence p = publication_next db →
  core (set_attempt a at' (set_work id w'
    {| db with publications := publications db ++ [p];
               publication_next := (publication_next db + 1)%Z |})).
Proof.
  intros C Hid Hat Hwk Hst Hla Hwf Hst' Hf Hp Hc Hs [S1 S2 S3 S4] Hend P1 P2 P3 P4 P5.
  assert (Hnone : w_committed_attempt_id w = None).
  { apply eq_None_not_Some. intros Hs'.
    apply (wf_done w (core_work _ C _ _ Hid)) in Hs'. congruence. }
  assert (Hnl : ¬ live at') by (unfold live; rewrite Hend; naive_solver).
  assert (Hunpub : ∀ q, q ∈ publications db → p_work_id q ≠ id).
  { intros q Hq Hqi. destruct (core_publication _ C q Hq) as (x&?&Hx&Hcm&_).
    congruence. }
  assert (Hunatt : ∀ q, q ∈ publications db → p_attempt_id q ≠ a).
  { intros q Hq Hqa. apply (Hunpub q Hq).
    destruct (core_publication _ C q Hq) as (x&at2&Hx&Hcm&_).
    destruct (core_pointer _ C _ _ _ Hx Hcm) as (at3&?&Hat3&?&_). congruence. }
  pose proof (λ P, insert_keeps (works db) id w w' P Hid) as HW.
  pose proof (λ P, insert_keeps (attempts db) a at_ at' P Hat) as HA.
  destruct C. split; simpl.
  - intros k x [[<- <-]|[? ?]]%lookup_insert_Some; eauto.
  - intros k x [[<- <-]|[Hne Hx]]%lookup_insert_Some; [done|].
    intros Hl. destruct (core_lease0 k x Hx Hl) as (b&bt&Hb1&Hb2&Hb3&?).
    exists b, bt. rewrite lookup_insert_ne; [naive_solver|]. congruence.
  - intros b bt [[<- <-]|[Hne Hx]]%lookup_insert_Some; [done|].
    intros Hl. destruct (core_live0 b bt Hx Hl) as (x&?&?&?).
    exists x. rewrite lookup_insert_ne; [done|]. congruence.
  - intros b bt [[<- <-]|[Hne Hx]]%lookup_insert_Some.
    + rewrite S1, S2, S3, S4. destruct (core_attempt0 a at_ Hat) as [(x&Hx&H1&H2) ?].
      split; [|done]. eapply (HW (λ _ y, _ ∧ _)); eauto; simpl. rewrite Hf, Hp. tauto.
    + destruct (core_attempt0 b bt Hx) as [(x&Hx'&H1&H2) ?].
      split; [|done]. eapply (HW (λ _ y, _ ∧ _)); eauto; simpl. rewrite Hf, Hp. tauto.
  - intros a1 a2 t1 t2 [[<- <-]|[? H1]]%lookup_insert_Some [[<- <-]|[? H2]]%lookup_insert_Some;
      rewrite ?S1, ?S3; eauto.
  - intros b bt [[<- <-]|[Hne Hx]]%lookup_insert_Some; [|by eauto]. congruence.
  - intros b bt [[<- <-]|[Hne Hx]]%lookup_insert_Some.
    + intros _. exists w'. by rewrite S1, Hwk, lookup_insert_eq.
    + intros Hsu. destruct (core_succeeded0 b bt Hx Hsu) as (x&Hx'&H1).
      exists x. rewrite lookup_insert_ne; [done|]. congruence.
  - intros k x b [[<- <-]|[Hne Hx]]%lookup_insert_Some Hxc.
    + assert (b = a) as -> by congruence. exists at', p.
      rewrite lookup_insert_eq, S1, P5. set_solver.
    + destruct (core_pointer0 k x b Hx Hxc) as (bt&q&Hbt&Hbw&?&?&?&?&?).
      exists bt, q. rewrite lookup_insert_ne by congruence. set_solver.
  - intros q [Hq| ->%list_elem_of_singleton]%elem_of_app.
    + destruct (core_publication0 q Hq) as (x&bt&Hx&H1&Hbt&H2).
      exists x, bt. specialize (Hunpub q Hq). specialize (Hunatt q Hq).
      by rewrite !lookup_insert_ne by congruence.
    + exists w', at'. rewrite P1, P2, !lookup_insert_eq. split_and!; congruence.
  - rewrite fmap_app. apply NoDup_app. split; [done|]. split; [|apply NoDup_singleton].
    intros x (q&->&Hq)%list_elem_of_fmap. simpl. rewrite list_elem_of_singleton, P1. auto.
  - destruct core_sequences0 as [Hss Hlt]. split.
    + rewrite fmap_app. simpl. apply StronglySorted_app_2; [|done|repeat constructor].
      intros x y (q&->&Hq)%list_elem_of_fmap ->%list_elem_of_singleton. rewrite P5. auto.
    + intros q [Hq| ->%list_elem_of_singleton]%elem_of_app; [|lia].
      specialize (Hlt q Hq). lia.
  - intros o Ho. destruct (core_output0 o Ho) as (bt&Hbt&?).
    eapply (HA (λ _ y, a_work_id y = _)); eauto. by rewrite S1.
  - done.
  - intros m Hm. destruct (core_member0 m Hm) as (bt&Hbt&?).
    eapply (HA (λ _ y, _ ∧ _)); eauto. by rewrite S1, S2, S3, S4.
  - intros b bt [[<- <-]|[Hne Hx]]%lookup_insert_Some; eauto.
Qed.

(** A LEASED attempt is sealed with its outputs. *)
Lemma core_seal db a at_ at' os next :
  core db → attempts db !! a = Some at_ → a_status at_ = A_LEASED →
  same_attempt at_ at' → a_status at' = A_SEALED →
  is_Some (a_output_path at') → is_Some (a_output_sha256 at') →
  is_Some (a_terminal_succeeded at') →
  (∀ o, o ∈ os → o_attempt_id o = a ∧ o_work_id o = a_work_id at_) →
  NoDup ((λ o, (o_work_id o, o_attempt_id o, o_record_sequence o))
    <$> (output_records db ++ os)) →
  core (set_attempt a at'
    {| db with output_records := output_records db ++ os; output_next := next |}).
Proof.
  intros C Hat Hst [S1 S2 S3 S4] Hst' Hp Hsh Ht Hos Hnd.
  assert (Hl : live at_) by (by left).
  pose proof (λ P, insert_keeps (attempts db) a at_ at' P Hat) as HA.
  destruct C. split; simpl; auto.
  - intros k x Hx Hle. destruct (core_lease0 k x Hx Hle) as (b&bt&Hb1&Hb2&Hb3&Hb4&Hb5).
    destruct (HA (λ j y, a_work_id y = k ∧ a_fence y = w_fence x ∧ live y)
      ltac:(unfold live; rewrite S1, S3; naive_solver) b bt Hb2) as (z&?&?); eauto 10.
  - intros b bt [[<- <-]|[Hne Hx]]%lookup_insert_Some; [|by eauto].
    intros _. rewrite S1. eauto.
  - intros b bt [[<- <-]|[Hne Hx]]%lookup_insert_Some; [|by eauto].
    rewrite S1, S2, S3, S4. eauto.
  - intros a1 a2 t1 t2 [[<- <-]|[? H1]]%lookup_insert_Some [[<- <-]|[? H2]]%lookup_insert_Some;
      rewrite ?S1, ?S3; eauto.
  - intros b bt [[<- <-]|[Hne Hx]]%lookup_insert_Some; eauto.
  - intros b bt [[<- <-]|[Hne Hx]]%lookup_insert_Some; [congruence|eauto].
  - intros k x b Hx Hxc. destruct (core_pointer0 k x b Hx Hxc) as (bt&p&Hbt&?&?&?).
    exists bt, p. rewrite lookup_insert_ne; [done|]. intros <-. congruence.
  - intros p Hpub. destruct (core_publication0 p Hpub) as (x&bt&Hx&H1&Hbt&H2).
    exists x, bt. rewrite lookup_insert_ne; [done|]. intros Ea.
    destruct (core_pointer0 _ _ _ Hx H1) as (bt'&?&Hbt'&_&Hsu&_). congruence.
  - intros o [Ho|Ho]%elem_of_app.
    + destruct (core_output0 o Ho) as (bt&Hbt&?).
      eapply (HA (λ _ y, a_work_id y = _)); eauto. by rewrite S1.
    + destruct (Hos o Ho) as [-> ->]. exists at'. by rewrite lookup_insert_eq.
  - intros m Hm. destruct (core_member0 m Hm) as (bt&Hbt&?).
    eapply (HA (λ _ y, _ ∧ _)); eauto. by rewrite S1, S2, S3, S4.
  - intros b bt [[<- <-]|[Hne Hx]]%lookup_insert_Some; eauto.
Qed.

(** A READY work is leased to a new attempt of an existing batch. *)
Lemma core_claim db id w w' a at_ m :
  core db → works db !! id = Some w → attempts db !! a = None →
  w_status w = W_READY → work_wf w' → w_status w' = W_LEASED →
  w_lease_attempt_id w' = Some a → w_fence w' = (w_fence w + 1)%Z →
  w_payload_sha256 w' = w_payload_sha256 w →
  w_committed_attempt_id w' = w_committed_attempt_id w →
  w_publication_sequence w' = w_publication_sequence w →
  a_work_id at_ = id → a_fence at_ = w_fence w' → a_status at_ = A_LEASED →
  a_payload_sha256 at_ = w_payload_sha256 w → is_Some (batches db !! a_batch_id at_) →
  m_attempt_id m = a → m_batch_id m = a_batch_id at_ → m_work_id m = id →
  m_fence m = a_fence at_ → m_payload_sha256 m = a_payload_sha256 at_ →
  let db' := set_attempt a at_ (set_work id w' db) in
  core {| db' with batch_members := batch_members db ++ [m] |}.
Proof.
  intros C Hid Hnew Hst Hwf Hst' Hla Hf Hp Hc Hs A1 A2 A3 A4 A5 M1 M2 M3 M4 M5 db'.
  assert (Hkeep : ∀ k x, attempts db !! k = Some x → <[a:=at_]> (attempts db) !! k = Some x).
  { intros k x Hx. rewrite lookup_insert_ne; congruence. }
  assert (Hpos : (0 ≤ w_fence w)%Z).
  { destruct (core_work _ C _ _ Hid). lia. }
  pose proof (λ P, insert_keeps (works db) id w w' P Hid) as HW.
  destruct C. split; simpl; auto.
  - intros k x [[<- <-]|[? ?]]%lookup_insert_Some; eauto.
  - intros k x [[<- <-]|[Hne Hx]]%lookup_insert_Some Hl.
    + exists a, at_. rewrite lookup_insert_eq. unfold live. naive_solver.
    + destruct (core_lease0 k x Hx Hl) as (b&bt&?&?&?&?&?). eauto 10.
  - intros b bt [[<- <-]|[Hne Hx]]%lookup_insert_Some Hl.
    + exists w'. by rewrite A1, lookup_insert_eq.
    + destruct (core_live0 b bt Hx Hl) as (x&?&?&?).
      exists x. rewrite lookup_insert_ne; [done|]. congruence.
  - intros b bt [[<- <-]|[Hne Hx]]%lookup_insert_Some.
    + split; [|done]. exists w'. rewrite A1, lookup_insert_eq. split_and!; [done|lia|lia|congruence].
    + destruct (core_attempt0 b bt Hx) as [(x&Hx'&H1&H2) ?].
      split; [|done]. eapply (HW (λ _ y, _ ∧ _)); eauto; simpl. rewrite Hf, Hp.
      intros [? ?]; split; [lia|done].
  - assert (Hfresh : ∀ b bt, attempts db !! b = Some bt → a_work_id bt = id →
      a_fence bt ≠ a_fence at_).
    { intros b bt Hb Hbw. destruct (core_attempt0 b bt Hb) as [(x&Hx&?&?) ?].
      assert (x = w) as -> by congruence. lia. }
    intros a1 a2 t1 t2 [[<- <-]|[? H1]]%lookup_insert_Some [[<- <-]|[? H2]]%lookup_insert_Some
      E1 E2; eauto; exfalso.
    + apply (Hfresh a2 t2); congruence.
    + apply (Hfresh a1 t1); congruence.
  - intros b bt [[<- <-]|[Hne Hx]]%lookup_insert_Some; [congruence|eauto].
  - intros b bt [[<- <-]|[Hne Hx]]%lookup_insert_Some; [congruence|].
    intros Hsu. destruct (core_succeeded0 b bt Hx Hsu) as (x&Hx'&H1).
    eapply (HW (λ _ y, w_committed_attempt_id y = Some b)); eauto. by rewrite Hc.
  - intros k x b [[<- <-]|[Hne Hx]]%lookup_insert_Some Hxc.
    + rewrite Hc in Hxc. destruct (core_pointer0 id w b Hid Hxc) as (bt&p&?&?&?&?&?&?&?).
      exists bt, p. rewrite Hs. eauto 10.
    + destruct (core_pointer0 k x b Hx Hxc) as (bt&p&?&?&?&?&?&?&?). eauto 15.
  - intros p Hpub. destruct (core_publication0 p Hpub) as (x&bt&Hx&H1&Hbt&H2).
    destruct (HW (λ _ y, w_committed_attempt_id y = Some (p_attempt_id p))
      ltac:(simpl; by rewrite Hc) _ _ Hx H1) as (z&?&?). eauto 10.
  - intros o Ho. destruct (core_output0 o Ho) as (bt&?&?). eauto.
  - intros n [Hn| ->%list_elem_of_singleton]%elem_of_app.
    + destruct (core_member0 n Hn) as (bt&?&?). eauto.
    + exists at_. rewrite M1, lookup_insert_eq. split_and!; congruence.
  - intros b bt [[<- <-]|[Hne Hx]]%lookup_insert_Some; [set_solver|].
    destruct (core_enrolled0 b bt Hx) as (n&?&?). set_solver.
Qed.
