(* ===== verification/ControlSafety.v ===== *)
(** * Every operation of the control store preserves the invariant *)
From S2P Require Export Prelude ControlTypes ControlClaim ControlProcess ControlAdmin ControlReconcile ControlInv.

(** ** Inversion of the statements *)

Definition with_db (s : Store) (db : Db) : Store := {| s with s_db := db |}.

Lemma get_db_Ok s db s' : get_db s = (Ok db, s') ↔ db = s_db s ∧ s' = s.
Proof. unfold get_db. naive_solver. Qed.

Lemma modify_db_Ok f s u s' : modify_db f s = (Ok u, s') ↔ s' = with_db s (f (s_db s)).
Proof. unfold modify_db. by rewrite tx_modify_Ok. Qed.

Ltac ctl_inv H :=
  tx_inv H;
  repeat match goal with
  | E : get_db _ = (Ok _, _) |- _ => apply get_db_Ok in E; destruct E
  | E : modify_db _ _ = (Ok _, _) |- _ => apply modify_db_Ok in E
  end; simplify_eq.

Lemma update_work_Ok id g f s n s' :
  update_work id g f s = (Ok n, s') →
  (∃ w, works (s_db s) !! id = Some w ∧ g w = true ∧ work_check (f w) = true ∧
     n = 1%Z ∧ s' = with_db s (set_work id (f w) (s_db s))) ∨
  (n = 0%Z ∧ s' = s ∧ ∀ w, works (s_db s) !! id = Some w → g w = false).
Proof.
  unfold update_work. intros H. ctl_inv H.
  destruct (works (s_db s) !! id) as [w|]; [|ctl_inv H; right; naive_solver].
  destruct (g w) eqn:Hg; [|ctl_inv H; right; naive_solver].
  ctl_inv H. left. eauto 10.
Qed.

Lemma update_work_1 id g f s n s' :
  update_work id g f s = (Ok n, s') → (n =? 1)%Z = true →
  ∃ w, works (s_db s) !! id = Some w ∧ g w = true ∧ work_check (f w) = true ∧
    s' = with_db s (set_work id (f w) (s_db s)).
Proof.
  intros [(w&?&?&?&->&->)|(->&_)]%update_work_Ok Hn; [eauto 10|discriminate].
Qed.

Lemma insert_attempt_Ok id a s u s' :
  insert_attempt id a s = (Ok u, s') →
  attempts (s_db s) !! id = None ∧ (0 < a_fence a)%Z ∧
  is_Some (works (s_db s) !! a_work_id a) ∧ is_Some (batches (s_db s) !! a_batch_id a) ∧
  s' = with_db s (set_attempt id a (s_db s)).
Proof.
  unfold insert_attempt. intros H. ctl_inv H. btrue. done.
Qed.

Lemma insert_member_Ok m s u s' :
  insert_member m s = (Ok u, s') →
  s' = with_db s (let db := s_db s in {| db with batch_members := batch_members db ++ [m] |}).
Proof.
  unfold insert_member. intros H. by ctl_inv H.
Qed.

Lemma insert_publication_Ok f s n s' :
  insert_publication f s = (Ok n, s') →
  n = publication_next (s_db s) ∧
  s' = with_db s (let db := s_db s in
    {| db with publications := publications db ++ [f (publication_next db)];
               publication_next := (publication_next db + 1)%Z |}).
Proof.
  unfold insert_publication. intros H. by ctl_inv H.
Qed.

(** A run that only rewrites the database leaves the files alone; a failed
    transaction leaves the database alone. *)
Lemma _transaction_Ok {A} (m : Ctl A) s a s' :
  _transaction m s = (Ok a, s') → m s = (Ok a, s').
Proof. apply transaction_Ok. Qed.

Lemma _transaction_Err {A} (m : Ctl A) s e s' :
  _transaction m s = (Err e, s') → s_db s' = s_db s.
Proof.
  unfold _transaction, transaction. destruct (m s) as [[a|e'] s1]; [done|].
  by intros [= _ <-].
Qed.

(** ** Frame lemmas *)

Lemma Inv_ext db db' :
  Inv db →
  works db' = works db → attempts db' = attempts db → batches db' = batches db →
  batch_members db' = batch_members db → output_records db' = output_records db →
  publications db' = publications db → publication_next db' = publication_next db →
  Inv db'.
Proof.
  intros [C K] Hw Ha Hb Hm Ho Hp Hn. split.
  - apply (core_ext db); auto. by rewrite Hb.
  - unfold coupled in *. rewrite Hw, Ha, Hb. done.
Qed.

(** What [coupled] says of one attempt survives when the lease of its work does. *)
Lemma coupled_attempt db (m : gmap string WorkRow) id b a at_ :
  core db → coupled db id b → attempts db !! a = Some at_ → a_batch_id at_ = id →
  (∀ w, works db !! a_work_id at_ = Some w → w_status w = W_LEASED →
     w_lease_attempt_id w = Some a →
     ∃ w', m !! a_work_id at_ = Some w' ∧ w_lease_expires_at w' = w_lease_expires_at w) →
  match expected_status (b_status b) with
  | Some s => a_status at_ = s ∧
      ∃ w, m !! a_work_id at_ = Some w ∧ w_lease_expires_at w = Some (b_lease_expires_at b)
  | None => ¬ live at_
  end.
Proof.
  intros C K Hat Hb Hm. specialize (K a at_ Hat Hb).
  destruct (expected_status (b_status b)) as [s|] eqn:Es; [|done].
  destruct K as [Hs (w&Hwk&Hle)]. split; [done|].
  assert (Hl : live at_).
  { unfold live. rewrite Hs. destruct (b_status b); simplify_eq/=; auto. }
  destruct (core_live _ C a at_ Hat Hl) as (w1&?&?&?).
  assert (w1 = w) as -> by congruence.
  destruct (Hm w) as (w'&?&?); [done..|]. exists w'. split; congruence.
Qed.

(** [coupled] of one batch only reads the attempts of the batch and the leases of
    the works they hold. *)
Lemma coupled_frame db db' id b :
  core db → coupled db id b →
  (∀ a at_, attempts db' !! a = Some at_ → a_batch_id at_ = id → attempts db !! a = Some at_) →
  (∀ a at_ w, attempts db !! a = Some at_ → a_batch_id at_ = id → live at_ →
     works db !! a_work_id at_ = Some w → w_status w = W_LEASED →
     w_lease_attempt_id w = Some a →
     ∃ w', works db' !! a_work_id at_ = Some w' ∧ w_lease_expires_at w' = w_lease_expires_at w) →
  coupled db' id b.
Proof.
  intros C K Ha Hw a at_ Hat Hb. specialize (Ha a at_ Hat Hb).
  eapply coupled_attempt; [done..|]. intros w Hx Hl Hla.
  destruct (decide (live at_)); [by eapply Hw|].
  destruct (core_lease _ C _ _ Hx Hl) as (a'&?&?&?&?&?&?). congruence.
Qed.

(** Rewriting one work row that is not leased. *)
Lemma Inv_update_idle db id w w' :
  Inv db → works db !! id = Some w → w_status w ≠ W_LEASED → w_status w' ≠ W_LEASED →
  work_wf w' → w_fence w' = w_fence w → w_payload_sha256 w' = w_payload_sha256 w →
  w_committed_attempt_id w' = w_committed_attempt_id w →
  w_publication_sequence w' = w_publication_sequence w →
  Inv (set_work id w' db).
Proof.
  intros [C K] Hid Hn Hn' Hwf Hf Hp Hc Hs. split.
  - apply (core_update_work db id w); [done..|]. split; try done.
    pose proof (wf_check _ (core_work _ C _ _ Hid)) as H1.
    pose proof (wf_check _ Hwf) as H2.
    destruct (work_check_unleased _ H1 Hn) as (?&?&?).
    destruct (work_check_unleased _ H2 Hn') as (?&?&?). congruence.
  - intros k b Hb. apply (coupled_frame db); simpl; auto.
    intros a at_ x Hat _ _ Hx Hl _. exists x.
    rewrite lookup_insert_ne; [done|]. intros ->. congruence.
Qed.

(** ** Registration *)

Lemma new_work_wf q sha now :
  fltb fzero (q_duration_seconds q) = true → (0 < q_max_attempts q)%Z →
  work_wf (new_work q sha now).
Proof.
  intros Hd Hm. split; simpl; try done; try lia.
  unfold work_check, new_work; simpl. rewrite Hd. by rewrite (proj2 (Z.ltb_lt _ _)).
Qed.

Lemma register_row_inv q sha now s r s' :
  Inv (s_db s) → register_row q sha now s = (Ok r, s') → Inv (s_db s').
Proof.
  unfold register_row, insert_work. intros I H. ctl_inv H.
  destruct (works (s_db s) !! q_work_id q) as [w|] eqn:Hw; ctl_inv H; [done|].
  btrue. match goal with Hc : work_check _ = true |- _ => pose proof Hc as Hck end. unfold work_check in Hck. simpl in Hck. btrue.
  destruct I as [C K]. split; simpl.
  - apply core_insert_work; try done. by apply new_work_wf.
  - intros k b Hb. apply (coupled_frame (s_db s)); simpl; auto.
    intros a at_ x Hat _ _ Hx _ _. exists x. rewrite lookup_insert_ne; [done|]. congruence.
Qed.

Lemma register_loop_inv now seen qs s r s' :
  Inv (s_db s) → register_loop now seen qs s = (Ok r, s') → Inv (s_db s').
Proof.
  revert seen s r. induction qs as [|q qs IH]; simpl; intros seen s r I H; [by tx_inv H|].
  tx_step H. subst. destruct (seen !! q_work_id q).
  - tx_inv H. by eapply IH.
  - tx_inv H. eapply IH; [|done]. by eapply register_row_inv.
Qed.

(** ** Claim *)

(** The batch a claim opens exists, is LEASED and expires with the claim. *)
Definition opened (id : string) (expires : Float) (db : Db) : Prop :=
  ∃ b, batches db !! id = Some b ∧ b_status b = B_LEASED ∧ b_lease_expires_at b = expires.

(** One claimed row: the effect on the tables. *)
Definition leased_work (r : ClaimRequest) (c : ClaimedWork) (expires : Float) (w : WorkRow)
    : WorkRow :=
  {| w with w_status := W_LEASED; w_attempt_count := (w_attempt_count w + 1)%Z;
            w_fence := c_fence c; w_lease_owner := Some (cr_owner r);
            w_lease_attempt_id := Some (c_attempt_id c);
            w_lease_expires_at := Some expires; w_updated_at := cr_now r |}.

Lemma claim_row_Ok r id expires i c s s' :
  claim_row r id expires i c s = (Ok tt, s') →
  ∃ w at_ m,
    works (s_db s) !! c_work_id c = Some w ∧ w_status w = W_READY ∧
    c_fence c = (w_fence w + 1)%Z ∧ work_check (leased_work r c expires w) = true ∧
    attempts (s_db s) !! c_attempt_id c = None ∧ (0 < a_fence at_)%Z ∧
    is_Some (batches (s_db s) !! a_batch_id at_) ∧
    a_work_id at_ = c_work_id c ∧ a_batch_id at_ = id ∧ a_fence at_ = c_fence c ∧
    a_status at_ = A_LEASED ∧ a_payload_sha256 at_ = c_payload_sha256 c ∧
    m_attempt_id m = c_attempt_id c ∧ m_batch_id m = id ∧ m_work_id m = c_work_id c ∧
    m_fence m = c_fence c ∧ m_payload_sha256 m = c_payload_sha256 c ∧
    s' = with_db s (let db' := set_attempt (c_attempt_id c) at_
                      (set_work (c_work_id c) (leased_work r c expires w) (s_db s)) in
                    {| db' with batch_members := batch_members (s_db s) ++ [m] |}).
Proof.
  unfold claim_row. intros H. tx_inv H.
  eapply update_work_1 in Hs as (w&Hw&Hg&Hck&->); [|done]. btrue.
  apply insert_attempt_Ok in Hs1 as (?&?&?&?&->).
  apply insert_member_Ok in H as ->. simpl in *.
  eexists w, _, _. split_and!; try done; [lia|by simpl..].
Qed.

Lemma leased_work_wf r c expires w :
  work_wf w → w_status w = W_READY → c_fence c = (w_fence w + 1)%Z →
  work_check (leased_work r c expires w) = true → work_wf (leased_work r c expires w).
Proof.
  intros [_ Hfe Hcnt Hrd Hdn Hsq] Hst Hf Hck. specialize (Hrd Hst).
  assert (w_committed_attempt_id w = None) as Hnone.
  { apply eq_None_not_Some. intros Hc%Hdn. congruence. }
  split; simpl; try done; try lia. rewrite Hnone. split; [done|by intros []].
Qed.

Lemma claim_row_inv r id expires i c s s' :
  Inv (s_db s) → opened id expires (s_db s) →
  (∀ w, works (s_db s) !! c_work_id c = Some w → c_payload_sha256 c = w_payload_sha256 w) →
  claim_row r id expires i c s = (Ok tt, s') →
  Inv (s_db s') ∧ opened id expires (s_db s').
Proof.
  intros [C K] Hop Hpay H.
  apply claim_row_Ok in H as (w&at_&m&Hw&Hst&Hf&Hck&Hnew&?&?&A1&A2&A3&A4&A5&?&?&?&?&?&->).
  specialize (Hpay w Hw). simpl in *. split; [|done].
  pose proof (leased_work_wf r c expires w (core_work _ C _ _ Hw) Hst Hf Hck) as Hwf.
  split.
  - eapply (core_claim (s_db s) _ w (leased_work r c expires w) _ at_ m); simpl; eauto; congruence.
  - intros k b Hb a t. simpl in *. intros [[<- <-]|[Hne Ht]]%lookup_insert_Some Hbk.
    + destruct Hop as (b'&Hb'&Hs'&He). assert (b' = b) as -> by congruence.
      rewrite Hs'. split; [done|]. exists (leased_work r c expires w).
      rewrite A1, lookup_insert_eq. simpl. by rewrite He.
    + eapply coupled_attempt; [done|by apply K|done..|]. intros w' Hw' Hl _.
      exists w'. rewrite lookup_insert_ne; [done|]. congruence.
Qed.

Definition claim_of (x : string * WorkRow) (c : ClaimedWork) : Prop :=
  c_work_id c = x.1 ∧ c_fence c = (w_fence x.2 + 1)%Z ∧
  c_payload_sha256 c = w_payload_sha256 x.2.

Lemma claim_items_Ok f k rows cs : claim_items f k rows = Ok cs → Forall2 claim_of rows cs.
Proof.
  revert k cs. induction rows as [|[id w] rows IH]; simpl; intros k cs H.
  - injection H as <-. constructor.
  - res_inv H. subst. constructor; [done|]. by eapply IH.
Qed.

(** The claimed items still carry the payload digests of their works. *)
Definition payloads_match (cs : list ClaimedWork) (db : Db) : Prop :=
  ∀ c w, c ∈ cs → works db !! c_work_id c = Some w → c_payload_sha256 c = w_payload_sha256 w.

Lemma claim_loop_inv r id expires cs s s' :
  Inv (s_db s) → opened id expires (s_db s) → payloads_match cs (s_db s) →
  claim_loop r id expires cs s = (Ok tt, s') →
  Inv (s_db s') ∧ opened id expires (s_db s').
Proof.
  intros I Ho Hp H. unfold claim_loop in H.
  eapply (tx_for_ind (λ s, (Inv (s_db s) ∧ opened id expires (s_db s)) ∧
    payloads_match cs (s_db s))) in H as [? ?]; [done| |done].
  intros [i c] s1 s2 Hin [[I1 O1] P1] Hrow.
  assert (Hc : c ∈ cs).
  { apply elem_of_lookup_imap in Hin as (j&y&[= -> ->]&Hl).
    by eapply list_elem_of_lookup_2. }
  pose proof Hrow as Hrow'.
  eapply claim_row_inv in Hrow as [? ?]; [|done..|by eauto].
  split; [done|].
  apply claim_row_Ok in Hrow' as (w&at_&m&Hw&_&_&_&_&_&_&_&_&_&_&_&_&_&_&_&_&->).
  intros c' w' Hc'. simpl. intros [[E <-]|[? ?]]%lookup_insert_Some; [|by eauto].
  simpl. apply P1; [done|]. by rewrite <-E.
Qed.

Lemma content_put_json_Ok root v s so s' :
  content_put_json root v s = (Ok so, s') → s_db s' = s_db s.
Proof.
  unfold content_put_json. destruct (put_json root v (s_files s)). by intros [= _ <-].
Qed.

Lemma insert_batch_Ok id b s u s' :
  insert_batch id b s = (Ok u, s') →
  batches (s_db s) !! id = None ∧ (0 < b_item_count b)%Z ∧
  s' = with_db s (set_batch id b (s_db s)).
Proof. unfold insert_batch. intros H. ctl_inv H. btrue. done. Qed.

(** A new batch has no attempt yet. *)
Lemma Inv_insert_batch db id b :
  Inv db → batches db !! id = None → Inv (set_batch id b db).
Proof.
  intros [C K] Hid. split; simpl.
  - apply (core_ext db); try done. intros k Hk. simpl.
    rewrite lookup_insert_is_Some. destruct (decide (id = k)); auto.
  - intros k x. simpl. intros [[<- <-]|[Hne Hx]]%lookup_insert_Some.
    + intros a at_ Hat Hb. destruct (core_attempt _ C a at_ Hat) as [_ [y Hy]]. congruence.
    + by apply (coupled_frame db); [done|by apply K| |eauto].
Qed.

Lemma largest_prefix_sublist pw sp sf ms ls rows n r :
  _largest_admissible_claim_prefix pw sp sf ms ls rows n = Ok r →
  ∃ k, r.1.1 = take k rows ∧ (n ≤ k ∨ k = n)%nat.
Proof.
  unfold _largest_admissible_claim_prefix. intros H. res_inv H.
  destruct x as [[w m] p]. destruct (fleb _ _); [done|]. res_inv H. subst.
  assert (Hw : ∀ j t, widest_prefix pw sp sf ms ls rows n j = Ok (Some t) →
    ∃ k, t.1.1 = take k rows ∧ (n ≤ k)%nat).
  { induction j as [|j IH]; intros t Ht; [done|]. cbn [widest_prefix] in Ht.
    destruct (S j <=? n)%nat eqn:E; [done|]. apply Nat.leb_gt in E. res_inv Ht.
    destruct x0 as [[w' m'] p']. destruct (fltb _ _); [|by apply IH].
    injection Ht as <-. simpl. exists (S j). split; [done|lia]. }
  destruct x as [t|]; simpl; [|by exists n; auto].
  destruct (Hw _ _ Hs0) as (k&?&?). eauto.
Qed.

Lemma claim_rows_inv root ids r key rows s cb s' :
  Inv (s_db s) → (∀ x, x ∈ rows → works (s_db s) !! x.1 = Some x.2) →
  claim_rows root ids r key rows s = (Ok cb, s') → Inv (s_db s').
Proof.
  unfold claim_rows. intros I Hrows H. tx_step H. destruct x as [[rows' wc] mk].
  apply largest_prefix_sublist in Hs as (k&Hk&_). simpl in Hk. subst.
  tx_inv H.
  match goal with E : claim_items _ _ _ = Ok _ |- _ => apply claim_items_Ok in E as Hcl end.
  match goal with E : content_put_json _ _ _ = _ |- _ => apply content_put_json_Ok in E as Hdb end.
  match goal with E : insert_batch _ _ _ = _ |- _ => apply insert_batch_Ok in E as (Hid&_&->) end.
  rewrite Hdb in Hid.
  match goal with E : claim_loop _ _ _ _ _ = _ |- _ => apply claim_loop_inv in E as [? _]; auto end.
  - simpl. rewrite Hdb. by apply Inv_insert_batch.
  - eexists. simpl. by rewrite lookup_insert_eq.
  - simpl. rewrite Hdb. intros c w Hc Hw. simpl in Hw.
    apply list_elem_of_lookup in Hc as [i Hi].
    eapply Forall2_lookup_r in Hcl as (y&Hx&E1&_&E3); [|exact Hi].
    assert (y ∈ rows) as Hin.
    { eapply list_elem_of_lookup_2. by eapply lookup_take_Some in Hx as [? _]. }
    apply Hrows in Hin. rewrite E3. congruence.
Qed.

Lemma eligible_lookup scope now db x :
  x ∈ eligible scope now db ↔
  works db !! x.1 = Some x.2 ∧ in_scope scope x.1 = true ∧ is_ready now x.2 = true.
Proof. unfold eligible. by rewrite elem_of_select, andb_true_iff. Qed.

Lemma claim_inv root ids args clock s r s' :
  Inv (s_db s) → claim root ids args clock s = (Ok r, s') → Inv (s_db s').
Proof.
  unfold claim. intros I H. tx_step H. apply _transaction_Ok in H. ctl_inv H.
  if_inv H; [by ctl_inv H|]. if_inv H; [by ctl_inv H|]. ctl_inv H.
  destruct (select_runtime _ _) as [key|]; [|by ctl_inv H].
  if_inv H; [by ctl_inv H|]. tx_step H.
  match goal with E : claim_rows _ _ _ _ _ _ = _ |- _ =>
    eapply claim_rows_inv in E; [done..|] end.
  intros y Hy.
  apply list_elem_of_lookup in Hy as [i Hi]. apply lookup_take_Some in Hi as [Hi _].
  apply list_elem_of_lookup_2, elem_of_order_by, elem_of_sfilter in Hi as [Hi _].
  by apply eligible_lookup in Hi as [? _].
Qed.

(** ** Fences and heartbeats *)

Lemma get_batch_Ok id s b s' :
  get_batch id s = (Ok b, s') → batches (s_db s) !! id = Some b ∧ s' = s.
Proof.
  unfold get_batch. intros H. ctl_inv H. destruct (batches (s_db s) !! id); by ctl_inv H.
Qed.

Lemma elem_of_batch_attempts id db x :
  x ∈ batch_attempts id db ↔ attempts db !! x.1 = Some x.2 ∧ a_batch_id x.2 = id.
Proof. unfold batch_attempts. by rewrite elem_of_select, bool_decide_eq_true. Qed.

(** The envelope lists exactly the attempts of the batch. *)
Definition lists_attempts (e : Envelope) (db : Db) : Prop :=
  (∀ c, c ∈ e_items e → ∃ at_, attempts db !! c_attempt_id c = Some at_ ∧
     a_batch_id at_ = e_batch_id e ∧ a_work_id at_ = c_work_id c ∧ a_fence at_ = c_fence c) ∧
  (∀ a at_, attempts db !! a = Some at_ → a_batch_id at_ = e_batch_id e →
     ∃ c, c ∈ e_items e ∧ c_attempt_id c = a ∧ c_work_id c = a_work_id at_).

Lemma assert_process_rows_Ok e bs b db :
  core db → _assert_process_rows e bs b db = Ok tt → lists_attempts e db.
Proof.
  unfold _assert_process_rows. intros C H. res_inv H. btrue.
  assert (Hset : ∀ k, k ∈ attempt_key <$> process_rows e db ↔ k ∈ item_key <$> e_items e).
  { intros k. rewrite <-(elem_of_list_to_set (C := gset _)),
      <-(elem_of_list_to_set (C := gset _) k (item_key <$> _)). by rewrite Hs. }
  split.
  - intros c Hc. assert (item_key c ∈ attempt_key <$> process_rows e db) as Hk.
    { apply Hset, list_elem_of_fmap. eauto. }
    apply list_elem_of_fmap in Hk as ([a at_]&Hk&Hx).
    apply elem_of_sfilter in Hx as [[Hx Hb]%elem_of_batch_attempts _].
    unfold item_key, attempt_key in Hk. simplify_eq/=. eauto 10.
  - intros a at_ Hat Hb. assert (attempt_key (a, at_) ∈ item_key <$> e_items e) as Hk.
    { apply Hset, list_elem_of_fmap. exists (a, at_). split; [done|].
      apply elem_of_sfilter. split; [by apply elem_of_batch_attempts|].
      destruct (core_attempt _ C a at_ Hat) as [(w&?&?) ?]. simpl.
      rewrite andb_true_iff, !bool_decide_eq_true. eauto. }
    apply list_elem_of_fmap in Hk as (c&Hk&Hc).
    unfold item_key, attempt_key in Hk. simplify_eq/=. eauto.
Qed.

(** The claimed works of an active batch, one lease each: extending them all by
    the loop of [heartbeat_process]. *)
Definition beat (now expires : Float) (w : WorkRow) : WorkRow :=
  {| w with w_lease_expires_at := Some expires; w_updated_at := now |}.

Lemma beat_wf now expires w : work_wf w → work_check (beat now expires w) = true →
  work_wf (beat now expires w).
Proof. by intros []. Qed.

Lemma heartbeat_item_Ok now expires c s s' :
  heartbeat_item now expires c s = (Ok tt, s') →
  ∃ w, works (s_db s) !! c_work_id c = Some w ∧
    owns_fence (c_attempt_id c) (c_fence c) w = true ∧
    work_check (beat now expires w) = true ∧
    s' = with_db s (set_work (c_work_id c) (beat now expires w) (s_db s)).
Proof.
  unfold heartbeat_item. intros H. tx_inv H. by eapply update_work_1 in Hs.
Qed.

(** The state between the beats: the batch, its attempts and the beaten works. *)
Record beating (e : Envelope) (expires : Float) (done : list ClaimedWork) (db : Db) : Prop := {
  be_core : core db;
  be_items : lists_attempts e db;
  be_others : ∀ id b, batches db !! id = Some b → id ≠ e_batch_id e → coupled db id b;
  be_batch : ∃ b, batches db !! e_batch_id e = Some b ∧ b_status b = B_LEASED ∧
    b_lease_expires_at b = expires;
  be_leased : ∀ a at_, attempts db !! a = Some at_ → a_batch_id at_ = e_batch_id e →
    a_status at_ = A_LEASED;
  be_done : ∀ c, c ∈ done → ∃ w, works db !! c_work_id c = Some w ∧
    w_lease_expires_at w = Some expires;
}.

Lemma beating_step e now expires done c s s' :
  c ∈ e_items e → beating e expires done (s_db s) →
  heartbeat_item now expires c s = (Ok tt, s') → beating e expires (done ++ [c]) (s_db s').
Proof.
  intros Hc [C L O B S D] H.
  apply heartbeat_item_Ok in H as (w&Hw&Hf&Hck&->).
  apply owns_fence_true in Hf as (Hst&Hla&_). simpl.
  destruct L as [L1 L2]. destruct (L1 c Hc) as (at_&Hat&Hb&Hwk&_).
  split; simpl; try done.
  - apply (core_update_work _ _ w); [done..| |].
    + apply beat_wf; [by eapply core_work|done].
    + by split.
  - intros id b Hid Hne. apply (coupled_frame (s_db s)); simpl; auto.
    intros a' at' w' Hat' Hb' _ Hw' _ Hla'. exists w'.
    rewrite lookup_insert_ne; [done|]. intros E. rewrite <-E in Hw'.
    assert (w' = w) as -> by congruence. congruence.
  - intros c' [Hc'| ->%list_elem_of_singleton]%elem_of_app.
    + destruct (D c' Hc') as (w'&Hw'&?). destruct (decide (c_work_id c' = c_work_id c)) as [->|].
      * eexists. by rewrite lookup_insert_eq.
      * exists w'. by rewrite lookup_insert_ne.
    + eexists. by rewrite lookup_insert_eq.
Qed.

Lemma beating_Inv e expires db : beating e expires (e_items e) db → Inv db.
Proof.
  intros [C L O (b0&Hb0&Hs0&He0) S D]. split; [done|].
  intros id b Hb. destruct (decide (id = e_batch_id e)) as [->|]; [|by apply O].
  assert (b0 = b) as -> by congruence. intros a at_ Hat Hba. rewrite Hs0. simpl.
  split; [by eapply S|].
  destruct (proj2 L a at_ Hat Hba) as (c&Hc&_&<-). rewrite He0. by apply D.
Qed.

(** Attempts of a table mapped row by row. *)
Lemma lookup_map_rows {A} (f : A → A) (m : gmap string A) k y :
  (f <$> m) !! k = Some y ↔ ∃ x, m !! k = Some x ∧ y = f x.
Proof. rewrite lookup_fmap, fmap_Some. done. Qed.

Definition extend_attempt (e : Envelope) (expires : Float) (a : AttemptRow) : AttemptRow :=
  if bool_decide (a_batch_id a = e_batch_id e) && bool_decide (a_status a = A_LEASED)
  then {| a with a_lease_expires_at := expires |} else a.

Lemma extend_attempt_same e x a :
  same_attempt a (extend_attempt e x a) ∧ a_status (extend_attempt e x a) = a_status a ∧
  a_output_path (extend_attempt e x a) = a_output_path a ∧
  a_output_sha256 (extend_attempt e x a) = a_output_sha256 a ∧
  a_terminal_succeeded (extend_attempt e x a) = a_terminal_succeeded a.
Proof. unfold extend_attempt. by destruct (_ && _). Qed.

(** Rewriting the attempts without touching status, identity or outputs. *)
Lemma core_map_attempts db f :
  core db →
  (∀ a, same_attempt a (f a) ∧ a_status (f a) = a_status a ∧
     a_output_path (f a) = a_output_path a ∧ a_output_sha256 (f a) = a_output_sha256 a ∧
     a_terminal_succeeded (f a) = a_terminal_succeeded a) →
  core {| db with attempts := f <$> attempts db |}.
Proof.
  intros C Hf.
  assert (Hup : ∀ a x, attempts db !! a = Some x → (f <$> attempts db) !! a = Some (f x)).
  { intros a x Hx. by rewrite lookup_fmap, Hx. }
  assert (Hlive : ∀ x, live (f x) ↔ live x).
  { intros x. unfold live. by destruct (Hf x) as (_&->&_). }
  split; simpl; try apply C.
  - intros id w Hw Hl. destruct (core_lease _ C id w Hw Hl) as (a&x&?&Hx&?&?&?).
    exists a, (f x). destruct (Hf x) as ([E1 E2 E3 E4]&_). rewrite E1, E3, Hlive. eauto 10.
  - intros a y (x&Hx&->)%lookup_map_rows. destruct (Hf x) as ([E1 E2 E3 E4]&_).
    rewrite E1, Hlive. eapply C; eauto.
  - intros a y (x&Hx&->)%lookup_map_rows. destruct (Hf x) as ([E1 E2 E3 E4]&_).
    rewrite E1, E2, E3, E4. eapply C; eauto.
  - intros a1 a2 y1 y2 (x1&H1&->)%lookup_map_rows (x2&H2&->)%lookup_map_rows.
    destruct (Hf x1) as ([E1 E2 E3 E4]&_), (Hf x2) as ([F1 F2 F3 F4]&_).
    rewrite E1, E3, F1, F3. eapply C; eauto.
  - intros a y (x&Hx&->)%lookup_map_rows. destruct (Hf x) as (_&->&->&->&->). eapply C; eauto.
  - intros a y (x&Hx&->)%lookup_map_rows. destruct (Hf x) as ([E1 _ _ _]&->&_).
    rewrite E1. eapply C; eauto.
  - intros id w a Hw Hc. destruct (core_pointer _ C id w a Hw Hc) as (x&p&Hx&?&?&?).
    exists (f x), p. destruct (Hf x) as ([E1 _ _ _]&->&_). rewrite E1. auto.
  - intros p Hp. destruct (core_publication _ C p Hp) as (w&x&?&?&Hx&?&?).
    exists w, (f x). destruct (Hf x) as ([_ E2 _ _]&_&_&->&_). rewrite E2. auto.
  - intros o Ho. destruct (core_output _ C o Ho) as (x&Hx&?).
    exists (f x). destruct (Hf x) as ([E1 _ _ _]&_). rewrite E1. auto.
  - intros m Hm. destruct (core_member _ C m Hm) as (x&Hx&?).
    exists (f x). destruct (Hf x) as ([E1 E2 E3 E4]&_). rewrite E1, E2, E3, E4. auto.
  - intros a y (x&Hx&->)%lookup_map_rows. eapply C; eauto.
Qed.

Lemma heartbeat_process_inv e ext clock s u s' :
  Inv (s_db s) → heartbeat_process e ext clock s = (Ok u, s') → Inv (s_db s').
Proof.
  unfold heartbeat_process. intros [C K] H. tx_step H. destruct x as [extension now].
  apply _transaction_Ok in H. ctl_inv H.
  destruct (batches (s_db s) !! e_batch_id e) as [b|] eqn:Hb; [|by ctl_inv H].
  tx_inv H. btrue.
  match goal with E : _assert_process_rows _ _ _ _ = Ok ?x |- _ =>
    destruct x; apply assert_process_rows_Ok in E as L; [|done] end.
  repeat match goal with
  | E : update_batch _ _ _ _ = _ |- _ => apply modify_db_Ok in E
  | E : update_attempts _ _ _ = _ |- _ => apply modify_db_Ok in E
  end. subst. simpl in H. rewrite Hb in H. simpl in H.
  set (expires := py_fmax _ _) in H.
  apply (beating_Inv e expires).
  eapply (tx_for_prefix (λ done s, beating e expires done (s_db s))); [| |exact H].
  - intros done c rest s1 s2 Hl P Hrow. eapply beating_step; [|done|done].
    rewrite Hl. set_solver.
  - clear H. fold (extend_attempt e expires). split; simpl.
    + apply (core_map_attempts (set_batch (e_batch_id e) _ (s_db s)));
        [|apply extend_attempt_same].
      apply (core_ext (s_db s)); try done. intros k Hk. simpl.
      rewrite lookup_insert_is_Some. destruct (decide (e_batch_id e = k)); auto.
    + destruct L as [L1 L2]. split; simpl.
      * intros c Hc. destruct (L1 c Hc) as (x&Hx&E).
        exists (extend_attempt e expires x). rewrite lookup_fmap, Hx.
        destruct (extend_attempt_same e expires x) as ([-> -> -> _]&_). done.
      * intros a y (x&Hx&->)%lookup_map_rows.
        destruct (extend_attempt_same e expires x) as ([-> -> _ _]&_). eauto.
    + intros id x [[<- <-]|[? Hx]]%lookup_insert_Some Hne; [done|].
      intros a y (z&Hz&->)%lookup_map_rows.
      destruct (extend_attempt_same e expires z) as ([-> -> _ _]&Hst&_).
      intros Ha. specialize (K id x Hx a z Hz Ha). unfold live in *. by rewrite Hst.
    + eexists. by rewrite lookup_insert_eq.
    + intros a y (x&Hx&->)%lookup_map_rows.
      destruct (extend_attempt_same e expires x) as ([_ -> _ _]&->&_).
      intros Ha. specialize (K _ b Hb a x Hx Ha).
      match goal with E : b_status b = _ |- _ => rewrite E in K end. by destruct K.
    + intros c Hc. set_solver.
Qed.

(** ** Seal *)

Definition okey (o : OutputRow) : string * string * Z :=
  (o_work_id o, o_attempt_id o, o_record_sequence o).

Lemma insert_output_Ok f s u s' :
  insert_output f s = (Ok u, s') →
  (okey (f (output_next (s_db s))) ∉ okey <$> output_records (s_db s)) ∧
  s' = with_db s (let db := s_db s in
    {| db with output_records := output_records db ++ [f (output_next db)];
               output_next := (output_next db + 1)%Z |}).
Proof.
  unfold insert_output. intros H. ctl_inv H. split; [|done].
  match goal with E : forallb _ _ = true |- _ => rename E into Hall end.
  intros (x&Hk&Hx)%list_elem_of_fmap. rewrite forallb_forall in Hall.
  specialize (Hall x (proj1 (list_elem_of_In _ _) Hx)).
  injection Hk as E1 E2 E3. apply negb_true_iff, andb_false_iff in Hall as [[Hn|Hn]%andb_false_iff|Hn];
    apply bool_decide_eq_false in Hn; congruence.
Qed.

(** Appending the output rows of one sealed item. *)
Definition appended (item : Output) (db0 db : Db) : Prop :=
  ∃ os next, db = {| db0 with output_records := output_records db0 ++ os; output_next := next |} ∧
    (∀ o, o ∈ os → o_attempt_id o = out_attempt_id item ∧ o_work_id o = out_work_id item) ∧
    NoDup (okey <$> (output_records db0 ++ os)).

Lemma insert_outputs_Ok item now rs s s' :
  NoDup (okey <$> output_records (s_db s)) →
  tx_for (λ r, insert_output (output_row item now r)) rs s = (Ok tt, s') →
  appended item (s_db s) (s_db s').
Proof.
  intros Hnd H. eapply (tx_for_ind (λ s1, appended item (s_db s) (s_db s1))); [| |exact H].
  - intros r s1 s2 _ (os&next&E&Hos&Hn) Hr. apply insert_output_Ok in Hr as [Hk ->].
    rewrite E in Hk |- *. simpl in *. eexists (os ++ [_]), _.
    split; [by rewrite app_assoc|]. split.
    + intros o [?| ->%list_elem_of_singleton]%elem_of_app; auto.
    + rewrite app_assoc, fmap_app. apply NoDup_app. split; [done|].
      split; [|apply NoDup_singleton].
      intros y Hy ->%list_elem_of_singleton. by apply Hk.
  - exists [], (output_next (s_db s)). split; [by destruct s as [[]]; simpl; rewrite app_nil_r|].
    split; [set_solver|by rewrite app_nil_r].
Qed.

Lemma seal_item_Ok id now item s s' :
  NoDup (okey <$> output_records (s_db s)) →
  _seal_item id now item s = (Ok tt, s') →
  ∃ at_ w, attempts (s_db s) !! out_attempt_id item = Some at_ ∧
    works (s_db s) !! a_work_id at_ = Some w ∧ a_batch_id at_ = id ∧ a_status at_ = A_LEASED ∧
    owns_fence (out_attempt_id item) (a_fence at_) w = true ∧
    appended item (set_attempt (out_attempt_id item) (sealed_attempt item now at_) (s_db s))
      (s_db s').
Proof.
  unfold _seal_item. intros Hnd H. ctl_inv H.
  match goal with E : seal_valid _ _ _ = true |- _ => rename E into Hv end.
  unfold seal_valid in Hv.
  destruct (attempts (s_db s) !! out_attempt_id item) as [at_|] eqn:Hat; [|done].
  destruct (works (s_db s) !! a_work_id at_) as [w|] eqn:Hw; [|done]. btrue.
  match goal with E : update_attempt _ _ _ _ = _ |- _ => apply modify_db_Ok in E as -> end.
  rewrite Hat in H.
  match goal with E : a_status at_ = _ |- _ => rewrite (bool_decide_eq_true_2 _ E) in H end.
  exists at_, w. split_and!; try done. by apply insert_outputs_Ok in H.
Qed.

(** The state between the sealed items. *)
Record sealing (db0 : Db) (id : string) (done : list Output) (db : Db) : Prop := {
  se_core : core db;
  se_others : ∀ k b, batches db !! k = Some b → k ≠ id → coupled db k b;
  se_batch : ∃ b, batches db !! id = Some b ∧ b_status b = B_LEASED ∧
    ∀ a at_, attempts db !! a = Some at_ → a_batch_id at_ = id → live at_ ∧
      ∃ w, works db !! a_work_id at_ = Some w ∧ w_lease_expires_at w = Some (b_lease_expires_at b);
  se_done : ∀ o at_, o ∈ done → attempts db !! out_attempt_id o = Some at_ → a_status at_ = A_SEALED;
  se_same : ∀ a at_, attempts db !! a = Some at_ →
    ∃ at0, attempts db0 !! a = Some at0 ∧ same_attempt at0 at_;
}.

Lemma same_attempt_refl a : same_attempt a a.
Proof. done. Qed.

Lemma sealing_step db0 id now done o s s' :
  (∀ at_, attempts db0 !! out_attempt_id o = Some at_ → a_work_id at_ = out_work_id o) →
  sealing db0 id done (s_db s) → _seal_item id now o s = (Ok tt, s') →
  sealing db0 id (done ++ [o]) (s_db s').
Proof.
  intros Hwk [C O (b&Hb&Hst&B) D F] H.
  apply seal_item_Ok in H as (at_&w&Hat&Hw&Hab&Has&_&os&next&E&Hos&Hnd); [|by apply C].
  rewrite E. destruct (F _ _ Hat) as (at0&Hat0&Sm). specialize (Hwk at0 Hat0).
  rewrite <-(sa_work _ _ Sm) in Hwk. split; simpl.
  - apply (core_seal (s_db s) _ at_); try done. intros x Hx. rewrite Hwk. by apply Hos.
  - intros k x Hx Hne. apply (coupled_frame (s_db s)); simpl; [done|by apply O| |by eauto].
    intros a t [[<- <-]|[? ?]]%lookup_insert_Some Ht; [|done]. simpl in Ht. congruence.
  - exists b. split_and!; [done..|]. intros a t [[<- <-]|[? ?]]%lookup_insert_Some Ht; [|by eapply B].
    split; [by right|]. simpl. by destruct (B (out_attempt_id o) at_ Hat Hab) as (_&?).
  - intros x t Hx [[E1 <-]|[Hne Ht]]%lookup_insert_Some; [done|].
    apply elem_of_app in Hx as [Hx| ->%list_elem_of_singleton]; [by eapply D|done].
  - intros a t [[<- <-]|[? ?]]%lookup_insert_Some; [|by apply F].
    exists at0. split; [done|]. by destruct Sm.
Qed.

Lemma elem_of_members id db m :
  m ∈ members_of id db ↔ m ∈ batch_members db ∧ m_batch_id m = id.
Proof.
  unfold members_of. by rewrite elem_of_order_by, elem_of_sfilter, bool_decide_eq_true.
Qed.

(** The normalized outputs name the enrolled attempts of the batch, with their
    works. *)
Lemma outputs_cover id (os : list Output) db :
  core db →
  (list_to_set ((λ o, (out_work_id o, out_attempt_id o)) <$> os) : gset (string * string))
    = list_to_set ((λ m, (m_work_id m, m_attempt_id m)) <$> members_of id db) →
  (∀ o at_, o ∈ os → attempts db !! out_attempt_id o = Some at_ → a_work_id at_ = out_work_id o) ∧
  (∀ a at_, attempts db !! a = Some at_ → a_batch_id at_ = id →
     ∃ o, o ∈ os ∧ out_attempt_id o = a).
Proof.
  intros C Hset.
  assert (Hmem : ∀ k, k ∈ (λ o, (out_work_id o, out_attempt_id o)) <$> os ↔
    k ∈ (λ m, (m_work_id m, m_attempt_id m)) <$> members_of id db).
  { intros k. rewrite <-!(elem_of_list_to_set (C := gset _)). by rewrite Hset. }
  split.
  - intros o at_ Ho Hat.
    assert ((out_work_id o, out_attempt_id o) ∈
      (λ m, (m_work_id m, m_attempt_id m)) <$> members_of id db) as Hk.
    { apply Hmem, list_elem_of_fmap. eauto. }
    apply list_elem_of_fmap in Hk as (m&[= -> E]&[Hm _]%elem_of_members).
    destruct (core_member _ C m Hm) as (x&Hx&_&?&_). congruence.
  - intros a at_ Hat Hb. destruct (core_enrolled _ C a at_ Hat) as (m&Hm&<-).
    destruct (core_member _ C m Hm) as (x&Hx&Hxb&_).
    assert ((m_work_id m, m_attempt_id m) ∈
      (λ o, (out_work_id o, out_attempt_id o)) <$> os) as Hk.
    { apply Hmem, list_elem_of_fmap. exists m. split; [done|].
      apply elem_of_members. split; [done|congruence]. }
    apply list_elem_of_fmap in Hk as (o&[= _ ->]&Ho). eauto.
Qed.

Lemma seal_batch_inv id outputs env mem clock s u s' :
  Inv (s_db s) → seal_batch id outputs env mem clock s = (Ok u, s') → Inv (s_db s').
Proof.
  unfold seal_batch. intros I H. tx_step H. destruct x as [[[[b0 e] m] raw] now].
  apply _transaction_Ok in H. tx_step H. apply get_batch_Ok in Hs0 as [Hb ->].
  apply get_db_Ok in Hs1 as [-> ->]. if_inv H; [by ctl_inv H|].
  ctl_inv H. btrue.
  match goal with E : _validate_live_seal _ _ _ _ = _ |- _ => unfold _validate_live_seal in E; res_inv E end.
  btrue. destruct I as [C K].
  match goal with E : list_to_set _ = _ |- _ => apply (outputs_cover _ _ _ C) in E as [O1 O2] end.
  unfold update_batch in H. apply modify_db_Ok in H. simpl in H.
  eapply (tx_for_prefix (λ done s1, sealing (s_db s) b0 done (s_db s1))) in Hs3.
  - destruct Hs3 as [C' O (b'&Hb'&_&B) D F]. rewrite Hb' in H. subst s'. split; simpl.
    + apply (core_ext (s_db x8)); try done. intros k Hk. simpl.
      rewrite lookup_insert_is_Some. destruct (decide (b0 = k)); auto.
    + intros k y [[<- <-]|[Hne Hy]]%lookup_insert_Some; [|by apply O].
      intros a at_ Hat Hab. simpl in *. destruct (B a at_ Hat Hab) as (_&?). split; [|done].
      destruct (F a at_ Hat) as (at0&Hat0&Sm).
      destruct (O2 a at0 Hat0) as (o&Ho&<-); [by rewrite <-(sa_batch _ _ Sm)|]. by eapply D.
  - intros done o rest s1 s2 Hl P Hrow. eapply sealing_step; [|done|done].
    intros at_ Hat. apply O1; [|done]. rewrite Hl. set_solver.
  - split; simpl; [done|auto| |set_solver|].
    + exists x. split_and!; [done..|]. intros a at_ Hat Hab.
      specialize (K _ _ Hb a at_ Hat Hab).
      match goal with E : b_status x = _ |- _ => rewrite E in K end. simpl in K.
      unfold live. tauto.
    + intros a at_ Hat. by exists at_.
Qed.

(** ** Commit *)

(** The attempt that held the lease of a work ends: other batches do not notice. *)
Lemma coupled_end db db' k b a at_ at' w w' :
  core db → coupled db k b → attempts db !! a = Some at_ → a_batch_id at_ ≠ k →
  works db !! a_work_id at_ = Some w → w_lease_attempt_id w = Some a →
  a_batch_id at' = a_batch_id at_ → attempts db' = <[a := at']> (attempts db) →
  works db' = <[a_work_id at_ := w']> (works db) → coupled db' k b.
Proof.
  intros C K Hat Hne Hw Hla Hb' Ha' Hw'. apply (coupled_frame db); [done..| |].
  - rewrite Ha'. intros x t [[<- <-]|[? ?]]%lookup_insert_Some ?; [congruence|done].
  - rewrite Hw'. intros x t y Hx Hxb Hl Hy _ Hyl. exists y.
    rewrite lookup_insert_ne; [done|]. intros E. rewrite E in Hw.
    assert (w = y) as -> by congruence. congruence.
Qed.

Lemma update_attempt_Ok a f at_ s u s' :
  attempts (s_db s) !! a = Some at_ → update_attempt a (λ _, true) f s = (Ok u, s') →
  s' = with_db s (set_attempt a (f at_) (s_db s)).
Proof. unfold update_attempt. intros Hat H%modify_db_Ok. by rewrite Hat in H. Qed.

Definition failed_attempt (a : AttemptRow) : AttemptRow := {| a with a_status := A_FAILED |}.
Definition succeeded_attempt (a : AttemptRow) : AttemptRow := {| a with a_status := A_SUCCEEDED |}.

(** The two effects of one committed row: a failed execution releases the work,
    a successful one publishes its output. *)
Definition failed_db (now : Float) (a : string) (at_ : AttemptRow) (w : WorkRow) (db : Db) : Db :=
  set_attempt a (failed_attempt at_)
    (set_work (a_work_id at_) (release_work (retry_outcome w) now "processing failed" w) db).

Definition published_db (id : string) (now : Float) (a : string) (at_ : AttemptRow)
    (w : WorkRow) (db : Db) : Db :=
  set_attempt a (succeeded_attempt at_)
    (set_work (a_work_id at_) (succeed_work a (publication_next db) now w)
      {| db with publications := publications db ++ [publication id now (a, at_, w) (publication_next db)];
                 publication_next := (publication_next db + 1)%Z |}).

Lemma commit_attempt_Ok id now a at_ w s r s' :
  attempts (s_db s) !! a = Some at_ → works (s_db s) !! a_work_id at_ = Some w →
  _commit_attempt id now (a, at_, w) s = (Ok r, s') →
  commit_valid (a, at_, w) = true ∧
  ((a_terminal_succeeded at_ ≠ Some true ∧ r = None ∧
    work_check (release_work (retry_outcome w) now "processing failed" w) = true ∧
    s' = with_db s (failed_db now a at_ w (s_db s))) ∨
   (a_terminal_succeeded at_ = Some true ∧ r = Some (publication_next (s_db s)) ∧
    work_check (succeed_work a (publication_next (s_db s)) now w) = true ∧
    s' = with_db s (published_db id now a at_ w (s_db s)))).
Proof.
  intros Hat Hw H. unfold _commit_attempt, _commit_failed_attempt in H.
  tx_step H. subst. split; [done|]. if_inv H; tx_inv H; btrue.
  - left. eapply update_work_1 in Hs1 as (w'&Hw'&_&Hck&->); [|by subst]. simplify_eq.
    by eapply update_attempt_Ok in Hs0 as ->.
  - right. rename select (negb _ = false) into Ht. apply negb_false_iff, bool_decide_eq_true in Ht.
    eapply insert_publication_Ok in Hs0 as [-> ->].
    eapply update_work_1 in Hs1 as (w'&Hw'&_&Hck&->); [|by subst]. simpl in *. simplify_eq.
    eapply update_attempt_Ok in Hs3 as ->; done.
Qed.

Lemma leased_uncommitted w : work_wf w → w_status w = W_LEASED →
  w_committed_attempt_id w = None ∧ w_publication_sequence w = None.
Proof.
  intros Hwf Hst.
  assert (w_committed_attempt_id w = None) as Hc.
  { apply eq_None_not_Some. intros Hs%(wf_done _ Hwf). congruence. }
  split; [done|]. apply eq_None_not_Some. intros Hs%(wf_sequence _ Hwf). rewrite Hc in Hs.
  by destruct Hs.
Qed.

Lemma retry_outcome_cases w :
  (retry_outcome w = W_DEAD ∧ (w_max_attempts w ≤ w_attempt_count w)%Z) ∨
  (retry_outcome w = W_READY ∧ (w_attempt_count w < w_max_attempts w)%Z).
Proof. unfold retry_outcome. destruct (Z.leb_spec (w_max_attempts w) (w_attempt_count w)); auto. Qed.

Lemma release_wf now e w :
  work_wf w → w_status w = W_LEASED →
  work_check (release_work (retry_outcome w) now e w) = true →
  work_wf (release_work (retry_outcome w) now e w).
Proof.
  intros Hwf Hst Hck. destruct (leased_uncommitted w Hwf Hst) as [Hc _].
  destruct Hwf as [_ Hf Hn _ _ Hsq]. split; simpl; [done..| | |done].
  - by destruct (retry_outcome_cases w) as [[-> ?]|[-> ?]].
  - rewrite Hc. destruct (retry_outcome_cases w) as [[-> ?]|[-> ?]];
      (split; [done|by intros []]).
Qed.

Lemma succeed_wf a n now w :
  work_wf w → work_check (succeed_work a n now w) = true → work_wf (succeed_work a n now w).
Proof. intros [_ ? ? _ _ _] Hck. split; simpl; naive_solver. Qed.

Lemma commit_valid_true a at_ w :
  commit_valid (a, at_, w) = true →
  a_status at_ = A_SEALED ∧ w_status w = W_LEASED ∧ w_lease_attempt_id w = Some a ∧
  w_fence w = a_fence at_ ∧ is_Some (a_output_sha256 at_).
Proof.
  unfold commit_valid, owns_fence. intros H. btrue. done.
Qed.

(** The state between the committed rows. *)
Record committing (db0 : Db) (id : string) (done : list string) (db : Db) : Prop := {
  co_core : core db;
  co_others : ∀ k b, batches db !! k = Some b → k ≠ id → coupled db k b;
  co_batches : batches db = batches db0;
  co_rest : ∀ a at_ w, attempts db0 !! a = Some at_ → a_batch_id at_ = id → a ∉ done →
    works db0 !! a_work_id at_ = Some w →
    attempts db !! a = Some at_ ∧ works db !! a_work_id at_ = Some w;
  co_done : ∀ a at_, a ∈ done → attempts db !! a = Some at_ → ¬ live at_;
  co_same : ∀ a at_, attempts db !! a = Some at_ →
    ∃ at0, attempts db0 !! a = Some at0 ∧ same_attempt at0 at_;
}.

(** Ending one attempt of the batch with core preserved. *)
Lemma committing_end db0 db id done a at_ w at' w' db' :
  (∀ x t, attempts db0 !! x = Some t → a_batch_id t = id → live t) →
  committing db0 id done db →
  attempts db0 !! a = Some at_ → works db0 !! a_work_id at_ = Some w →
  attempts db !! a = Some at_ → works db !! a_work_id at_ = Some w → a_batch_id at_ = id →
  w_lease_attempt_id w = Some a → core db' → same_attempt at_ at' → ¬ live at' →
  attempts db' = <[a := at']> (attempts db) →
  works db' = <[a_work_id at_ := w']> (works db) → batches db' = batches db →
  committing db0 id (done ++ [a]) db'.
Proof.
  intros Hlive [C O B R D F] Hat0 Hw0 Hat Hw Hb Hla C' Sm Hnl Ea Ew Eb. split.
  - done.
  - rewrite Eb. intros k b Hk Hne. apply (coupled_end db _ _ _ a at_ at' w w'); try done; [by apply O|congruence|by apply Sm].
  - congruence.
  - intros x t y Hx Hxb Hnd Hy.
    destruct (R x t y Hx Hxb) as [Hx' Hy']; [set_solver|done|].
    assert (x ≠ a) as Hne by set_solver.
    rewrite Ea, Ew, !lookup_insert_ne; [done| |done].
    intros E. destruct (core_live _ C x t Hx') as (z&?&_&?); [by eapply Hlive|]. congruence.
  - rewrite Ea. intros x t Hx [[<- <-]|[Hne Ht]]%lookup_insert_Some; [done|].
    apply elem_of_app in Hx as [Hx| ->%list_elem_of_singleton]; [by eapply D|done].
  - rewrite Ea. intros x t [[<- <-]|[Hne Ht]]%lookup_insert_Some; [by exists at_|by apply F].
Qed.

Lemma committing_step db0 id now done a at_ w s r s' :
  (∀ x t, attempts db0 !! x = Some t → a_batch_id t = id → live t) →
  attempts db0 !! a = Some at_ → works db0 !! a_work_id at_ = Some w → a_batch_id at_ = id →
  a ∉ done → committing db0 id done (s_db s) →
  _commit_attempt id now (a, at_, w) s = (Ok r, s') →
  committing db0 id (done ++ [a]) (s_db s').
Proof.
  intros Hlive Hat0 Hw0 Hb Hnd Co H. destruct (co_rest _ _ _ _ Co a at_ w) as [Hat Hw]; [done..|].
  pose proof (co_core _ _ _ _ Co) as C. pose proof (core_work _ C _ _ Hw) as Hwf.
  apply commit_attempt_Ok in H as [Hv Hcase]; [|done..].
  apply commit_valid_true in Hv as (Hse&Hst&Hla&Hf&[sha Hsha]).
  destruct Hcase as [(Ht&_&Hck&->)|(Ht&_&Hck&->)]; simpl.
  - eapply (committing_end _ (s_db s) _ _ _ _ w (failed_attempt at_)); simpl; try done;
      [|by intros [|]].
    eapply (core_release _ _ _ w at_); try done; [by apply release_wf| |simpl; set_solver].
    simpl. by destruct (retry_outcome_cases w) as [[-> _]|[-> _]].
  - eapply (committing_end _ (s_db s) _ _ _ _ w (succeeded_attempt at_)); simpl; try done;
      [|by intros [|]].
    eapply (core_publish _ _ _ w at_); try done; [by apply succeed_wf|simpl; by rewrite Hsha].
Qed.

Lemma elem_of_joined id db x :
  x ∈ joined id db ↔ attempts db !! x.1.1 = Some x.1.2 ∧ a_batch_id x.1.2 = id ∧
    works db !! a_work_id x.1.2 = Some x.2.
Proof.
  unfold joined. rewrite list_elem_of_omap. split.
  - intros ([a at_]&[Hat Hb]%elem_of_batch_attempts&E). simpl in *.
    destruct (works db !! _) eqn:Hw; by simplify_eq/=.
  - destruct x as [[a at_] w]; simpl. intros (?&?&Hw). exists (a, at_).
    rewrite elem_of_batch_attempts. simpl. by rewrite Hw.
Qed.

Lemma NoDup_joined id db : NoDup ((λ x, x.1.1) <$> joined id db).
Proof.
  unfold joined, batch_attempts.
  pose proof (NoDup_select_keys (λ x, bool_decide (a_batch_id x.2 = id)) (attempts db)) as H.
  induction (List.filter _ _) as [|x l IH]; simpl; [constructor|].
  inversion_clear H as [|? ? Hx Hl].
  destruct (works db !! a_work_id x.2); simpl; [|by apply IH].
  constructor; [|by apply IH]. intros (y&E&Hy)%list_elem_of_fmap.
  apply list_elem_of_omap in Hy as (z&Hz&Ez).
  destruct (works db !! a_work_id z.2); simplify_eq/=. apply Hx, list_elem_of_fmap. eauto.
Qed.

Lemma coupled_live db id b a at_ :
  coupled db id b → active b → attempts db !! a = Some at_ → a_batch_id at_ = id → live at_.
Proof.
  intros K [Hs|Hs] Hat Hb; specialize (K a at_ Hat Hb); rewrite Hs in K; destruct K as [E _]; unfold live; rewrite E; auto.
Qed.

(** The rows of the commit loop are the attempts of the batch with their works. *)
Lemma commit_loop_committing id now db0 b s rs s' :
  Inv db0 → s_db s = db0 → batches db0 !! id = Some b → active b →
  tx_map (_commit_attempt id now) (order_by joined_order (joined id db0)) s = (Ok rs, s') →
  committing db0 id ((λ x, x.1.1) <$> order_by joined_order (joined id db0)) (s_db s').
Proof.
  intros [C K] Es Hb Hact H.
  assert (Hlive : ∀ x t, attempts db0 !! x = Some t → a_batch_id t = id → live t).
  { intros x t. eapply coupled_live; [by eapply K|done]. }
  eapply (tx_map_prefix (λ done _ s1, committing db0 id ((λ x, x.1.1) <$> done) (s_db s1))) in H;
    [done| |].
  - intros done bs [[a at_] w] rest s1 y s2 Hl Co Hrow. rewrite fmap_app. simpl.
    assert (Hin : (a, at_, w) ∈ joined id db0).
    { rewrite <-(elem_of_order_by joined_order), Hl. set_solver. }
    apply elem_of_joined in Hin as (?&?&?). eapply committing_step; [done..| |done|done].
    pose proof (NoDup_joined id db0) as Hnd.
    rewrite <-(order_by_Permutation joined_order), Hl, fmap_app in Hnd.
    apply NoDup_app in Hnd as (_&Hnd&_). intros Hd. specialize (Hnd _ Hd). set_solver.
  - rewrite Es. split; try done; [by auto|set_solver|]. intros a at_ Hat. by exists at_.
Qed.

(** The cases of a successful commit. *)
Definition committed_batch (now : Float) (b : BatchRow) : BatchRow :=
  {| b with b_status := B_COMMITTED; b_committed_at := Some now |}.

Lemma commit_batch_Ok v clock s r s' :
  commit_batch v clock s = (Ok r, s') →
  ∃ k now b, _required_text v = Ok k ∧ _finite clock = Ok now ∧ batches (s_db s) !! k = Some b ∧
    ((b_status b = B_COMMITTED ∧ r = batch_sequences k (s_db s) ∧ s' = s) ∨
     (b_status b = B_SEALED ∧ fleb (b_lease_expires_at b) now = false ∧
      ∃ rs s1, tx_map (_commit_attempt k now) (order_by joined_order (joined k (s_db s))) s
                 = (Ok rs, s1) ∧ r = omap id rs ∧
        s' = with_db s1 (match batches (s_db s1) !! k with
          | Some b1 => if bool_decide (b_status b1 = B_SEALED)
                       then set_batch k (committed_batch now b1) (s_db s1) else s_db s1
          | None => s_db s1 end))).
Proof.
  unfold commit_batch. intros H. apply tx_bind_Ok in H as ([k now]&s0&Hargs&H).
  apply tx_lift_Ok in Hargs as [Hargs ->]. res_inv Hargs. simplify_eq. exists k, now.
  apply _transaction_Ok in H. tx_step H.
  match goal with E : get_batch _ _ = _ |- _ => apply get_batch_Ok in E as [Hb ->] end.
  match goal with E : get_db _ = _ |- _ => apply get_db_Ok in E as [-> ->] end. exists x. split_and!; try done. if_inv H.
  - left. btrue. by apply tx_ret_Ok in H as [-> ->].
  - right. tx_inv H. btrue. split_and!; try done. eexists _, _. split_and!; try done.
    match goal with E : update_batch _ _ _ _ = _ |- _ => by apply modify_db_Ok in E end.
Qed.

Lemma commit_batch_inv v clock s r s' :
  Inv (s_db s) → commit_batch v clock s = (Ok r, s') → Inv (s_db s').
Proof.
  intros I H. apply commit_batch_Ok in H as (k&now&b&_&_&Hb&[(_&_&->)|(Hse&_&rs&s1&H&_&->)]); [done|].
  eapply commit_loop_committing in H as [C O B R D F]; [|done|done|done|by right].
  rewrite B, Hb, (bool_decide_eq_true_2 _ Hse). split; simpl.
  - apply (core_ext (s_db s1)); try done. intros j Hj. simpl.
    rewrite lookup_insert_is_Some. destruct (decide (k = j)); auto.
  - intros j y [[<- <-]|[Hne Hy]]%lookup_insert_Some; [|apply O; congruence].
    intros a at_ Hat Hab. simpl. eapply D; [|done].
    destruct (F a at_ Hat) as (at0&Hat0&Sm).
    destruct (core_attempt _ (inv_core _ I) a at0 Hat0) as [(w&Hw&_) _].
    apply list_elem_of_fmap. exists (a, at0, w). split; [done|].
    apply elem_of_order_by, elem_of_joined. split_and!; try done. pose proof (sa_batch _ _ Sm); simpl; congruence.
Qed.

(** ** Recovery *)

Definition expired_attempt (w : WorkRow) (a : AttemptRow) : AttemptRow :=
  {| a with a_status := A_EXPIRED; a_recovery_outcome := Some (retry_outcome w) |}.

Definition recovered_db (t : Float) (k : string) (w : WorkRow) (a : string) (at_ : AttemptRow)
    (db : Db) : Db :=
  set_attempt a (expired_attempt w at_)
    (set_work k (release_work (retry_outcome w) t "lease expired" w) db).

Lemma recover_row_Ok t k w a at_ s u s' :
  works (s_db s) !! k = Some w → w_lease_attempt_id w = Some a →
  attempts (s_db s) !! a = Some at_ → live at_ →
  recover_row t (k, w) s = (Ok u, s') →
  work_check (release_work (retry_outcome w) t "lease expired" w) = true ∧
  s' = with_db s (recovered_db t k w a at_ (s_db s)).
Proof.
  intros Hw Hla Hat Hl H. unfold recover_row in H. rewrite Hla in H. tx_inv H. simpl in *.
  match goal with E : update_attempt _ _ _ _ = _ |- _ => apply modify_db_Ok in E as -> end.
  rewrite Hat, (proj2 (live_attempt_true at_) Hl) in *.
  match goal with E : update_work _ _ _ _ = _ |- _ =>
    eapply update_work_1 in E as (w'&Hw'&_&Hck&->); [|done] end.
  simpl in *. simplify_eq. done.
Qed.

Lemma elem_of_expired_work t db x :
  x ∈ expired_work t db ↔ works db !! x.1 = Some x.2 ∧ lease_expired t x.2 = true.
Proof. unfold expired_work. by rewrite elem_of_order_by, elem_of_select. Qed.

Lemma NoDup_expired_work t db : NoDup (expired_work t db).*1.
Proof.
  unfold expired_work. rewrite order_by_Permutation. apply NoDup_select_keys.
Qed.

Lemma lease_expired_true t w :
  lease_expired t w = true ↔
  w_status w = W_LEASED ∧ ∃ e, w_lease_expires_at w = Some e ∧ fleb e t = true.
Proof.
  unfold lease_expired. rewrite andb_true_iff, bool_decide_eq_true.
  destruct (w_lease_expires_at w); naive_solver.
Qed.

(** The state between the recovered rows. *)
Record recovering (t : Float) (db0 : Db) (done : list string) (db : Db) : Prop := {
  rc_core : core db;
  rc_batches : batches db = batches db0;
  rc_works : ∀ k w, works db0 !! k = Some w → k ∉ done → works db !! k = Some w;
  rc_only : ∀ k, works db0 !! k = None → works db !! k = None;
  rc_done : ∀ k w, k ∈ done → works db !! k = Some w → w_status w ≠ W_LEASED;
  rc_attempts : ∀ a at_, attempts db !! a = Some at_ → ∃ at0, attempts db0 !! a = Some at0 ∧
    same_attempt at0 at_ ∧ (at_ = at0 ∨ a_work_id at_ ∈ done ∧ a_status at_ = A_EXPIRED ∧
      ∃ w, works db0 !! a_work_id at_ = Some w ∧ w_lease_attempt_id w = Some a ∧
        lease_expired t w = true);
}.

Lemma recovering_step t db0 done k w s u s' :
  works db0 !! k = Some w → lease_expired t w = true → k ∉ done →
  recovering t db0 done (s_db s) → recover_row t (k, w) s = (Ok u, s') →
  recovering t db0 (done ++ [k]) (s_db s').
Proof.
  intros Hw0 Hexp Hnd [C B W N D A] H. pose proof (W k w Hw0 Hnd) as Hw.
  pose proof (proj1 (lease_expired_true t w) Hexp) as (Hst&_).
  destruct (core_lease _ C k w Hw Hst) as (a&at_&Hla&Hat&Hk&Hf&Hl).
  eapply recover_row_Ok in H as [Hck ->]; [|done..].
  split; simpl.
  - apply (core_release _ _ _ w at_); try done.
    + apply release_wf; [by eapply core_work|done..].
    + simpl. by destruct (retry_outcome_cases w) as [[-> _]|[-> _]].
    + simpl. set_solver.
  - done.
  - intros j x Hx Hj. rewrite lookup_insert_ne; [apply W; set_solver|set_solver].
  - intros j Hj. rewrite lookup_insert_ne; [by apply N|congruence].
  - intros j x Hj [[<- <-]|[Hne Hx]]%lookup_insert_Some.
    + simpl. by destruct (retry_outcome_cases w) as [[-> _]|[-> _]].
    + eapply D; [|done]. set_solver.
  - intros b bt [[<- <-]|[Hne Hx]]%lookup_insert_Some.
    + destruct (A a at_ Hat) as (at0&Hat0&Sm&[<-|(_&E&_)]).
      * exists at_. split; [done|]. split; [done|]. right. simpl. rewrite Hk. set_solver.
      * unfold live in Hl. rewrite E in Hl. by destruct Hl.
    + destruct (A b bt Hx) as (at0&?&?&[?|(?&?&?)]); exists at0; split_and!; auto.
      right. split_and!; auto. set_solver.
Qed.

Lemma expire_batches_Ok t s u s' :
  expire_batches t s = (Ok u, s') →
  s' = with_db s (let db := s_db s in {| db with batches :=
    (λ b, if active_batch b && fleb (b_lease_expires_at b) t
          then {| b with b_status := B_EXPIRED |} else b) <$> batches db |}).
Proof. unfold expire_batches. by intros H%modify_db_Ok. Qed.

(** The cases of a successful recovery. *)
Lemma recover_Ok v clock s r s' :
  recover v clock s = (Ok r, s') →
  ∃ t s1, tx_for (recover_row t) (expired_work t (s_db s)) s = (Ok tt, s1) ∧
    (match v with VNone => _finite clock | _ => _finite v end) = Ok t ∧
    expire_batches t s1 = (Ok tt, s') ∧
    rr_recovered r = Z.of_nat (length (expired_work t (s_db s))) ∧
    rr_retried r = count_if (negb ∘ is_dead_outcome) (expired_work t (s_db s)) ∧
    rr_dead r = count_if is_dead_outcome (expired_work t (s_db s)).
Proof.
  unfold recover. intros H. apply tx_bind_Ok in H as (t&s0&Hargs&H).
  apply tx_lift_Ok in Hargs as [Hargs ->].
  apply _transaction_Ok in H. ctl_inv H. eauto 10.
Qed.

Lemma recover_loop_recovering t db0 s s' :
  Inv db0 → s_db s = db0 → tx_for (recover_row t) (expired_work t db0) s = (Ok tt, s') →
  recovering t db0 (expired_work t db0).*1 (s_db s').
Proof.
  intros [C K] Es H.
  eapply (tx_for_prefix (λ done s1, recovering t db0 done.*1 (s_db s1))) in H; [done| |].
  - intros done [k w] rest s1 s2 Hl R Hrow. rewrite fmap_app. simpl.
    assert (Hin : (k, w) ∈ expired_work t db0) by (rewrite Hl; set_solver).
    apply elem_of_expired_work in Hin as [??]. eapply recovering_step; [done..| |done|done].
    pose proof (NoDup_expired_work t db0) as Hnd. rewrite Hl, fmap_app in Hnd.
    apply NoDup_app in Hnd as (_&Hnd&_). intros Hd. specialize (Hnd _ Hd). set_solver.
  - rewrite Es. split; try done; [set_solver|]. intros a at_ Hat. exists at_. split_and!; [done..|by left].
Qed.

Lemma recovering_Inv t db0 db :
  Inv db0 → recovering t db0 (expired_work t db0).*1 db →
  Inv {| db with batches :=
    (λ b, if active_batch b && fleb (b_lease_expires_at b) t
          then {| b with b_status := B_EXPIRED |} else b) <$> batches db |}.
Proof.
  intros [C0 K] [C B W _ D A]. split.
  - apply (core_ext db); try done. intros k [b Hb]. simpl. rewrite lookup_fmap, Hb. eauto.
  - intros k b' Hb'. simpl in *. apply lookup_fmap_Some in Hb' as (b&<-&Hb).
    rewrite B in Hb. specialize (K k b Hb). intros a at_ Hat Hab. simpl in Hat |- *.
    destruct (A a at_ Hat) as (at0&Hat0&Sm&Hcase).
    assert (Hab0 : a_batch_id at0 = k) by (pose proof (sa_batch _ _ Sm); congruence).
    pose proof (K a at0 Hat0 Hab0) as Ka.
    (* a live attempt of an active batch is unchanged and its work is not expired *)
    assert (Hunexp : live at_ → at_ = at0 ∧ ∀ w, works db0 !! a_work_id at_ = Some w →
      lease_expired t w = true → False).
    { intros Hl. destruct (core_live _ C a at_ Hat Hl) as (w&Hw&Hst&Hla).
      destruct Hcase as [->|(Hd&E&_)]; [|unfold live in Hl; rewrite E in Hl; by destruct Hl].
      split; [done|]. intros w0 Hw0 He.
      eapply (D (a_work_id at0) w); [|done|done]. apply list_elem_of_fmap.
      exists (a_work_id at0, w0). split; [done|]. by apply elem_of_expired_work. }
    destruct (decide (active b)) as [Hact|Hina].
    + pose proof (coupled_live _ _ _ _ _ K Hact Hat0 Hab0) as Hl0.
      assert (∃ s, expected_status (b_status b) = Some s) as [s Hs].
      { destruct Hact as [->| ->]; eauto. }
      rewrite Hs in Ka. destruct Ka as [Hsa (w&Hw&Hle)].
      destruct (core_live _ C0 a at0 Hat0 Hl0) as (w1&?&Hst&Hla).
      assert (w1 = w) as -> by congruence.
      rewrite (proj2 (active_batch_true b) Hact). simpl.
      destruct (fleb (b_lease_expires_at b) t) eqn:He.
      * intros Hl. destruct (Hunexp Hl) as [-> Hn]. apply (Hn w); [done|].
        apply lease_expired_true. eauto.
      * assert (Hne : lease_expired t w = false).
        { apply not_true_is_false. intros (_&e&?&?)%lease_expired_true. congruence. }
        destruct Hcase as [->|(_&_&w'&Hw'&_&He')].
        -- rewrite Hs. split; [done|]. exists w. split; [|done]. apply W; [done|].
           intros (x&Ex&Hx)%list_elem_of_fmap. apply elem_of_expired_work in Hx as [Hx1 Hx2].
           rewrite <-Ex in Hx1. congruence.
        -- rewrite (sa_work _ _ Sm) in Hw'. congruence.
    + rewrite (not_true_is_false _ (λ E, Hina (proj1 (active_batch_true b) E))). simpl.
      assert (expected_status (b_status b) = None) as Hs.
      { unfold active in Hina. destruct (b_status b); naive_solver. }
      rewrite Hs in *. intros Hl. destruct (Hunexp Hl) as [-> _]. done.
Qed.

Lemma recover_inv v clock s r s' :
  Inv (s_db s) → recover v clock s = (Ok r, s') → Inv (s_db s').
Proof.
  intros I H. apply recover_Ok in H as (t&s1&H&_&->%expire_batches_Ok&_).
  eapply recover_loop_recovering in H; [|done|done]. by eapply recovering_Inv.
Qed.

(** ** Replay and quarantine *)

Lemma wf_unleased_check w w' :
  work_check w = true → w_status w ≠ W_LEASED → w_status w' ≠ W_LEASED →
  w_duration_seconds w' = w_duration_seconds w → (0 < w_max_attempts w')%Z →
  w_original_max_attempts w' = w_original_max_attempts w →
  w_lease_owner w' = w_lease_owner w → w_lease_attempt_id w' = w_lease_attempt_id w →
  w_lease_expires_at w' = w_lease_expires_at w → work_check w' = true.
Proof.
  intros Hck Hn Hn' Ed Em Eo E1 E2 E3.
  destruct (work_check_unleased w Hck Hn) as (L1&L2&L3).
  unfold work_check in *. rewrite Ed, Eo, E1, E2, E3, L1, L2, L3. rewrite L1, L2, L3 in Hck.
  rewrite (proj2 (Z.ltb_lt _ _) Em). btrue.
  repeat match goal with E : ?x = true |- context [?x] => rewrite E end.
  rewrite (proj2 (Z.ltb_lt _ _)) by done. by destruct (w_status w').
Qed.

Definition replayed_work (additional generation : Z) (rid : string) (now : Float) (w : WorkRow)
    : WorkRow :=
  {| w with w_status := W_READY; w_max_attempts := (w_attempt_count w + additional)%Z;
            w_available_at := now; w_replay_generation := generation;
            w_last_replay_id := Some rid; w_last_error := None; w_updated_at := now |}.

(** The cases of a successful replay: the previous request again, or a DEAD work
    made READY. *)
Lemma replay_Ok work_id operator reason additional clock s r s' :
  replay work_id operator reason additional clock s = (Ok r, s') →
  (∃ k actor why n w, _required_text work_id = Ok k ∧ _required_text operator = Ok actor ∧
     _required_text reason = Ok why ∧ int_between 1 100 additional = Ok n ∧
     works (s_db s) !! k = Some w ∧ w_status w ≠ W_DEAD ∧
     _matching_last_replay (s_db s) w actor why n = Some r ∧ s' = s) ∨
  (∃ k actor why n w row now, _required_text work_id = Ok k ∧ _required_text operator = Ok actor ∧
     _required_text reason = Ok why ∧ int_between 1 100 additional = Ok n ∧
     works (s_db s) !! k = Some w ∧ w_status w = W_DEAD ∧ w_committed_attempt_id w = None ∧
     replay_requests (s_db s) !! rp_replay_id r = None ∧
     row = {| r_work_id := k; r_operator := actor; r_reason := why;
              r_generation := (w_replay_generation w + 1)%Z; r_requested_at := now;
              r_from_status := W_DEAD; r_additional_attempts := n |} ∧
     r = {| rp_replay_id := rp_replay_id r; rp_work_id := k; rp_operator := actor;
            rp_reason := why; rp_generation := (w_replay_generation w + 1)%Z;
            rp_requested_at := now |} ∧
     s' = with_db s (set_work k
       (replayed_work n (w_replay_generation w + 1) (rp_replay_id r) now w)
       (let db := s_db s in
        {| db with replay_requests := <[rp_replay_id r := row]> (replay_requests db) |}))).
Proof.
  unfold replay. intros H. apply tx_bind_Ok in H as ([[[[k actor] why] n] now]&s0&Hargs&H).
  apply tx_lift_Ok in Hargs as [Hargs ->]. res_inv Hargs. simplify_eq.
  apply _transaction_Ok in H. ctl_inv H.
  destruct (works (s_db s) !! k) as [w|] eqn:Hw; [|by ctl_inv H]. if_inv H.
  - left. btrue. destruct (_matching_last_replay _ _ _ _ _) as [p|] eqn:Hp; ctl_inv H.
    eexists k, actor, why, n, w. done.
  - right. apply negb_false_iff, bool_decide_eq_true in Heqb. tx_inv H. btrue.
    match goal with E : insert_replay _ _ _ = _ |- _ => unfold insert_replay in E; ctl_inv E end.
    btrue. match goal with E : update_work _ _ _ _ = _ |- _ => apply update_work_Ok in E;
      destruct E as [(w'&Hw'&_&_&_&->)|(_&_&Hno)] end.
    + simpl in *. simplify_eq. eexists k, actor, why, n, w, _, now. split_and!; try done.
    + specialize (Hno w Hw). btrue. done.
Qed.

Lemma int_between_Ok lo hi v n : int_between lo hi v = Ok n → v = VInt n ∧ (lo ≤ n ≤ hi)%Z.
Proof.
  unfold int_between. destruct v; try done. destruct (_ && _) eqn:E; [|done].
  intros [= ->]. btrue. done.
Qed.

(** A DEAD work may be made READY with a budget above its attempts. *)
Lemma replayed_wf n g rid now w :
  work_wf w → w_status w = W_DEAD → w_committed_attempt_id w = None → (1 ≤ n)%Z →
  work_wf (replayed_work n g rid now w).
Proof.
  intros [Hck Hf Hc _ Hd Hsq] Hst Hnone Hn. split; simpl; try done; try lia.
  - apply (wf_unleased_check w); simpl; try done; [congruence|lia].
  - rewrite Hnone. split; [done|by intros []].
Qed.

Lemma replay_inv work_id operator reason additional clock s r s' :
  Inv (s_db s) → replay work_id operator reason additional clock s = (Ok r, s') →
  Inv (s_db s').
Proof.
  intros I H.
  apply replay_Ok in H as [(?&?&?&?&?&_&_&_&_&_&_&_&->)|
    (k&actor&why&n&w&row&now&_&_&_&Hn&Hw&Hst&Hc&_&_&_&->)]; [done|].
  apply int_between_Ok in Hn as [_ Hn]. simpl.
  eapply (Inv_update_idle _ k w); simpl; try done; [|congruence|apply replayed_wf; try done; [|lia]].
  - by eapply Inv_ext; [exact I|..].
  - by eapply core_work; [apply I|].
Qed.

Definition quarantined_work (marker : string) (now : Float) (w : WorkRow) : WorkRow :=
  {| w with w_status := W_DEAD; w_available_at := now; w_last_error := Some marker;
            w_updated_at := now |}.

Lemma quarantined_wf m now w :
  work_wf w → w_status w = W_READY → w_committed_attempt_id w = None →
  work_wf (quarantined_work m now w).
Proof.
  intros [Hck Hf Hc Hr Hd Hsq] Hst Hnone. specialize (Hr Hst). split; simpl; try done; try lia.
  - apply (wf_unleased_check w); simpl; try done; [congruence|lia].
  - rewrite Hnone. split; [done|by intros []].
Qed.

Lemma quarantine_row_Ok db0 actor why now k d s u s' :
  quarantine_row db0 actor why now (k, d) s = (Ok u, s') →
  s' = s ∨ ∃ w marker, works (s_db s) !! k = Some w ∧ w_status w = W_READY ∧
    w_committed_attempt_id w = None ∧ w_release_digest w = d ∧
    s' = with_db s (set_work k (quarantined_work marker now w) (s_db s)).
Proof.
  unfold quarantine_row. intros H. destruct (works db0 !! k) as [w0|]; [|by ctl_inv H].
  tx_step H. if_inv H; [ctl_inv H; by left|]. tx_inv H.
  match goal with E : update_work _ _ _ _ = _ |- _ => apply update_work_Ok in E;
    destruct E as [(w'&Hw'&Hg&_&_&->)|(_&->&_)] end; [|by left].
  right. btrue. eexists w', _. split_and!; done.
Qed.

Lemma quarantine_row_inv db0 actor why now x s u s' :
  Inv (s_db s) → quarantine_row db0 actor why now x s = (Ok u, s') → Inv (s_db s').
Proof.
  destruct x as [k d]. intros I [->|(w&m&Hw&Hst&Hc&_&->)]%quarantine_row_Ok; [done|]. simpl.
  apply (Inv_update_idle _ k w); try done; [congruence|].
  apply quarantined_wf; try done. by eapply core_work; [apply I|].
Qed.

Lemma quarantine_inv expected operator reason clock s r s' :
  Inv (s_db s) → quarantine expected operator reason clock s = (Ok r, s') → Inv (s_db s').
Proof.
  unfold quarantine. intros I H. apply tx_bind_Ok in H as ([[[l actor] why] now]&s0&Hargs&H).
  apply tx_lift_Ok in Hargs as [_ ->]. apply _transaction_Ok in H. ctl_inv H.
  match goal with E : tx_for _ _ _ = _ |- _ => eapply (tx_for_ind (λ s, Inv (s_db s))) in E end;
    [done| |done].
  intros x s1 s2 _ I1 Hrow. by eapply quarantine_row_inv.
Qed.

Lemma register_inv a b c d e f g h clock s r s' :
  Inv (s_db s) → register a b c d e f g h clock s = (Ok r, s') → Inv (s_db s').
Proof.
  unfold register. intros I H. apply tx_bind_Ok in H as ([[q sha] now]&s0&Hargs&H).
  apply tx_lift_Ok in Hargs as [_ ->]. apply _transaction_Ok in H.
  by eapply register_row_inv.
Qed.

Lemma register_many_inv rs clock s r s' :
  Inv (s_db s) → register_many rs clock s = (Ok r, s') → Inv (s_db s').
Proof.
  unfold register_many. intros I H. apply tx_bind_Ok in H as ([qs now]&s0&Hargs&H).
  apply tx_lift_Ok in Hargs as [_ ->]. apply _transaction_Ok in H.
  by eapply register_loop_inv.
Qed.

(** ** Reconciliation *)

(** The rows after every finding of [l] was recorded. *)
Definition upserted (t : Float) (l : list (string * Finding)) (m : gmap string FindingRow)
    : gmap string FindingRow :=
  fold_left (λ m x, upsert_finding t x.1 x.2 m) l m.

Lemma with_findings_id db : with_findings (λ m, m) db = db.
Proof. by destruct db. Qed.

Lemma record_loop_Ok t l s u s' :
  tx_for (record_finding t) l s = (Ok u, s') →
  s' = with_db s (with_findings (upserted t l) (s_db s)).
Proof.
  revert s. induction l as [|x l IH]; intros s; cbn [tx_for]; intros H.
  - ctl_inv H. unfold upserted. simpl. rewrite with_findings_id. by destruct s.
  - apply tx_bind_Ok in H as ([]&s1&Hx&H). apply IH in H. subst s'.
    unfold record_finding in Hx. apply tx_bind_Ok in Hx as (text&s0&Ht&Hx).
    apply tx_lift_Ok in Ht as [_ ->]. apply modify_db_Ok in Hx. by subst s1.
Qed.

Lemma tx_map_lift_Ok {S A B} (f : A → result B) l (s : S) r s' :
  tx_map (λ x, tx_lift (f x)) l s = (Ok r, s') → s' = s ∧ Forall2 (λ x y, f x = Ok y) l r.
Proof.
  revert r s'. induction l as [|x l IH]; intros r s'; cbn [tx_map]; intros H.
  - injection H as <- <-. done.
  - apply tx_bind_Ok in H as (y&s1&Hy&H). apply tx_lift_Ok in Hy as [Hy ->].
    apply tx_bind_Ok in H as (ys&s1&Hys&H). apply IH in Hys as [-> Hys].
    injection H as <- <-. split; [done|]. by constructor.
Qed.

Lemma reconcile_Ok now clock s r s' :
  reconcile now clock s = (Ok r, s') →
  ∃ t batch found,
    (match now with VNone => _finite clock | _ => _finite now end) = Ok t ∧
    _detect_batch_findings (s_db s) (s_files s) = Ok batch ∧
    detect (_detect_relational_findings t (s_db s) ++ batch) ∅ = Ok found ∧
    s' = with_db s (with_findings (λ m, resolve_findings t found
           (upserted t (order_by key_order (map_to_list found)) m)) (s_db s)) ∧
    Forall2 (λ x y, finding_of x = Ok y) (order_by finding_before (open_findings (s_db s'))) r.
Proof.
  unfold reconcile. intros H. apply tx_bind_Ok in H as (t&s0&Ht&H).
  apply tx_lift_Ok in Ht as [Ht ->]. apply _transaction_Ok in H.
  apply tx_bind_Ok in H as (db&s0&[= <- <-]&H). apply tx_bind_Ok in H as (fs&s0&[= <- <-]&H).
  apply tx_bind_Ok in H as (batch&s0&Hb&H). apply tx_lift_Ok in Hb as [Hb ->].
  apply tx_bind_Ok in H as (found&s0&Hf&H). apply tx_lift_Ok in Hf as [Hf ->].
  apply tx_bind_Ok in H as ([]&s1&Hl&H). apply record_loop_Ok in Hl. subst s1.
  apply tx_bind_Ok in H as ([]&s1&Hm&H). apply modify_db_Ok in Hm. subst s1.
  apply tx_bind_Ok in H as (db&s0&[= <- <-]&H). apply tx_map_lift_Ok in H as [-> H].
  exists t, batch, found. done.
Qed.

Lemma reconcile_inv now clock s r s' :
  Inv (s_db s) → reconcile now clock s = (Ok r, s') → Inv (s_db s').
Proof. intros I (t&batch&found&_&_&_&->&_)%reconcile_Ok. by eapply Inv_ext; [exact I|..]. Qed.
