(* ===== verification/ControlSpec.v ===== *)
(** * The control store as a state machine

    The operations as one command type, the reachable stores, and the abstract
    machine that the store implements: how a work, an attempt and a batch may
    evolve.  The simulation of this file says that every operation, successful or
    not, moves every row along that machine. *)
From S2P Require Export Prelude ControlTypes ControlClaim ControlProcess ControlAdmin ControlReconcile ControlInv ControlSafety.

(** ** Operations *)

Inductive ctl_op :=
  | OpRegister (work_id payload runtime_key duration_seconds config_sha256
      release_digest max_attempts available_at clock : pyval)
  | OpRegisterMany (requests clock : pyval)
  | OpClaim (root : string) (id_factory : nat → pyval) (args : ClaimArgs) (clock : pyval)
  | OpProcessState (e : Envelope)
  | OpAssertFence (e : Envelope) (clock : pyval)
  | OpHeartbeat (e : Envelope) (extension clock : pyval)
  | OpSeal (batch_id outputs envelope_sha256 membership_sha256 clock : pyval)
  | OpCommit (batch_id clock : pyval)
  | OpRecover (now clock : pyval)
  | OpReplay (work_id operator reason additional clock : pyval)
  | OpQuarantine (expected : list (string * pyval)) (operator reason clock : pyval)
  | OpReconcile (now clock : pyval).

Definition drop {A} (m : Ctl A) : Ctl unit := m;; mret tt.

Definition run_op (op : ctl_op) : Ctl unit :=
  match op with
  | OpRegister a b c d e f g h clock => drop (register a b c d e f g h clock)
  | OpRegisterMany rs clock => drop (register_many rs clock)
  | OpClaim root ids args clock => drop (claim root ids args clock)
  | OpProcessState e => drop (process_batch_state e)
  | OpAssertFence e clock => assert_process_fence e clock
  | OpHeartbeat e ext clock => heartbeat_process e ext clock
  | OpSeal b o e m clock => seal_batch b o e m clock
  | OpCommit b clock => drop (commit_batch b clock)
  | OpRecover now clock => drop (recover now clock)
  | OpReplay w o r n clock => drop (replay w o r n clock)
  | OpQuarantine l o r clock => drop (quarantine l o r clock)
  | OpReconcile now clock => drop (reconcile now clock)
  end.

(** One call, whether it returns or raises. *)
Definition ctl_step (s s' : Store) : Prop := ∃ op r, run_op op s = (r, s').

Definition bootstrapped (s : Store) : Prop := s_db s = empty_db.

Definition reachable (s : Store) : Prop := ∃ s0, bootstrapped s0 ∧ rtc ctl_step s0 s.

(** ** Failed calls *)

Lemma drop_Ok {A} (m : Ctl A) s u s' :
  drop m s = (Ok u, s') → ∃ a, m s = (Ok a, s').
Proof. unfold drop. intros (a&s1&H&[_ ->]%tx_ret_Ok)%tx_bind_Ok. eauto. Qed.

Lemma drop_Err {A} (m : Ctl A) s e s' : drop m s = (Err e, s') → m s = (Err e, s').
Proof. unfold drop, mbind, tx_bind, mret, tx_ret. destruct (m s) as [[]]; naive_solver. Qed.

(** The arguments are checked before the transaction, the transaction rolls
    back. *)
Lemma checked_Err {A B} (r : result A) (f : A → Ctl B) s e s' :
  (∀ a, ∃ m : Ctl B, f a = _transaction m) →
  (tx_lift r ≫= f) s = (Err e, s') → s_db s' = s_db s.
Proof.
  intros Hf. destruct r as [a|]; simpl.
  - destruct (Hf a) as [m E]. unfold mbind, tx_bind, tx_lift. rewrite E.
    apply _transaction_Err.
  - by intros [= _ <-].
Qed.

Lemma get_batch_state k s r s' : get_batch k s = (r, s') → s' = s.
Proof.
  unfold get_batch, get_db, mbind, tx_bind. destruct (batches (s_db s) !! k); by intros [= _ <-].
Qed.

Lemma process_batch_state_state e s r s' : process_batch_state e s = (r, s') → s' = s.
Proof.
  unfold process_batch_state. unfold mbind at 1, tx_bind at 1.
  destruct (get_batch (e_batch_id e) s) as [[b|x] s1] eqn:E;
    apply get_batch_state in E as ->; [|by intros [= _ <-]].
  unfold get_db, tx_lift, mbind, tx_bind. destruct (_assert_process_rows _ _ _ _);
    by intros [= _ <-].
Qed.

Lemma assert_process_fence_state e c s r s' : assert_process_fence e c s = (r, s') → s' = s.
Proof.
  unfold assert_process_fence. unfold mbind at 1, tx_bind at 1.
  destruct (process_batch_state e s) as [[b|x] s1] eqn:E;
    apply process_batch_state_state in E as ->; [|by intros [= _ <-]].
  repeat case_match; try by intros [= _ <-].
  unfold tx_lift, tx_require, mbind, tx_bind. destruct (_finite c); [|by intros [= _ <-]].
  unfold tx_lift. by intros [= _ <-].
Qed.

(** A call that raises leaves the database as it was. *)
Lemma run_op_Err op s e s' : run_op op s = (Err e, s') → s_db s' = s_db s.
Proof.
  destruct op; simpl; intros H;
    first [apply drop_Err in H | idtac];
    first [by apply process_batch_state_state in H as ->
          |by apply assert_process_fence_state in H as -> | idtac];
    (eapply checked_Err; [|exact H]);
    intros; repeat match goal with x : (_ * _)%type |- _ => destruct x end; simpl; eauto.
Qed.

Lemma run_op_inv op s r s' : Inv (s_db s) → run_op op s = (r, s') → Inv (s_db s').
Proof.
  intros I H. destruct r as [[]|e]; [|by rewrite (run_op_Err _ _ _ _ H)].
  destruct op; simpl in H; try apply drop_Ok in H as [? H].
  - by eapply register_inv.
  - by eapply register_many_inv.
  - by eapply claim_inv.
  - by apply process_batch_state_state in H as ->.
  - by apply assert_process_fence_state in H as ->.
  - by eapply heartbeat_process_inv.
  - by eapply seal_batch_inv.
  - by eapply commit_batch_inv.
  - by eapply recover_inv.
  - by eapply replay_inv.
  - by eapply quarantine_inv.
  - by eapply reconcile_inv.
Qed.

Lemma reachable_step s s' : reachable s → ctl_step s s' → reachable s'.
Proof. intros (s0&?&?) ?. exists s0. split; [done|]. by eapply rtc_r. Qed.

Lemma reachable_Inv s : reachable s → Inv (s_db s).
Proof.
  intros (s0&E&H). assert (Inv (s_db s0)) as I by (rewrite E; apply Inv_empty).
  clear E. induction H as [|s1 s2 s3 (op&r&Hop) _ IH]; [done|]. apply IH. by eapply run_op_inv.
Qed.

(** ** The abstract machine *)

(** The columns of a work row that are fixed at registration. *)
Record same_spec (w w' : WorkRow) : Prop := {
  ss_identity : row_identity w' = row_identity w;
  ss_payload : w_payload w' = w_payload w;
  ss_created : w_created_at w' = w_created_at w;
}.

(** What registration guarantees of a row: no blank text, a positive finite
    duration, and the digest of the canonical payload. *)
Record sound_spec (k : string) (w : WorkRow) : Prop := {
  so_key : is_blank k = false;
  so_runtime : is_blank (w_runtime_key w) = false;
  so_config : is_blank (w_config_sha256 w) = false;
  so_release : is_blank (w_release_digest w) = false;
  so_duration : fisfinite (w_duration_seconds w) = true ∧ fleb (w_duration_seconds w) fzero = false;
  so_payload : ∃ d text, w_payload w = VDict d ∧ _canonical_json (VDict d) = Ok text ∧
    w_payload_sha256 w = _sha256_text text;
}.

(** One move of the work [k]: registered, leased under the next fence, renewed, ended
    with a publication or with a retry, replayed by an operator, quarantined. *)
Inductive work_move (k : string) : option WorkRow → option WorkRow → Prop :=
  | wm_register w :
      sound_spec k w → w_status w = W_READY → w_fence w = 0%Z → w_committed_attempt_id w = None →
      work_move k None (Some w)
  | wm_claim w w' a :
      same_spec w w' → w_status w = W_READY → w_status w' = W_LEASED →
      w_lease_attempt_id w' = Some a → w_fence w' = (w_fence w + 1)%Z →
      w_committed_attempt_id w' = w_committed_attempt_id w →
      w_publication_sequence w' = w_publication_sequence w →
      work_move k (Some w) (Some w')
  | wm_renew w w' :
      same_spec w w' → w_status w = W_LEASED → w_status w' = W_LEASED →
      w_lease_attempt_id w' = w_lease_attempt_id w → w_fence w' = w_fence w →
      w_committed_attempt_id w' = w_committed_attempt_id w →
      w_publication_sequence w' = w_publication_sequence w →
      work_move k (Some w) (Some w')
  | wm_succeed w w' a n :
      same_spec w w' → w_status w = W_LEASED → w_lease_attempt_id w = Some a →
      w_status w' = W_SUCCEEDED → w_fence w' = w_fence w →
      w_committed_attempt_id w' = Some a → w_publication_sequence w' = Some n →
      work_move k (Some w) (Some w')
  | wm_release w w' :
      same_spec w w' → w_status w = W_LEASED → w_status w' = retry_outcome w →
      w_fence w' = w_fence w →
      w_committed_attempt_id w' = w_committed_attempt_id w →
      w_publication_sequence w' = w_publication_sequence w →
      work_move k (Some w) (Some w')
  | wm_replay w w' :
      same_spec w w' → w_status w = W_DEAD → w_status w' = W_READY →
      w_fence w' = w_fence w →
      w_committed_attempt_id w' = w_committed_attempt_id w →
      w_publication_sequence w' = w_publication_sequence w →
      work_move k (Some w) (Some w')
  | wm_quarantine w w' :
      same_spec w w' → w_status w = W_READY → w_status w' = W_DEAD →
      w_fence w' = w_fence w →
      w_committed_attempt_id w' = w_committed_attempt_id w →
      w_publication_sequence w' = w_publication_sequence w →
      work_move k (Some w) (Some w').

Inductive attempt_next : attempt_status → attempt_status → Prop :=
  | an_renew : attempt_next A_LEASED A_LEASED
  | an_seal : attempt_next A_LEASED A_SEALED
  | an_succeed : attempt_next A_SEALED A_SUCCEEDED
  | an_fail : attempt_next A_SEALED A_FAILED
  | an_expire a : a = A_LEASED ∨ a = A_SEALED → attempt_next a A_EXPIRED.

(** The sealed output of an attempt does not change any more. *)
Inductive attempt_move : option AttemptRow → option AttemptRow → Prop :=
  | am_lease a : a_status a = A_LEASED → attempt_move None (Some a)
  | am_next a a' :
      same_attempt a a' → attempt_next (a_status a) (a_status a') →
      (a_status a ≠ A_LEASED → a_output_path a' = a_output_path a ∧
         a_output_sha256 a' = a_output_sha256 a ∧
         a_terminal_succeeded a' = a_terminal_succeeded a) →
      attempt_move (Some a) (Some a').

Record same_batch (b b' : BatchRow) : Prop := {
  sb_owner : b_owner b' = b_owner b;
  sb_runtime : b_runtime_key b' = b_runtime_key b;
  sb_count : b_item_count b' = b_item_count b;
  sb_membership : b_membership_sha256 b' = b_membership_sha256 b;
  sb_path : b_envelope_path b' = b_envelope_path b;
  sb_envelope : b_envelope_sha256 b' = b_envelope_sha256 b;
}.

Inductive batch_next : batch_status → batch_status → Prop :=
  | bn_renew : batch_next B_LEASED B_LEASED
  | bn_seal : batch_next B_LEASED B_SEALED
  | bn_commit : batch_next B_SEALED B_COMMITTED
  | bn_expire b : b = B_LEASED ∨ b = B_SEALED → batch_next b B_EXPIRED.

Inductive batch_move : option BatchRow → option BatchRow → Prop :=
  | bm_claim b : b_status b = B_LEASED → batch_move None (Some b)
  | bm_next b b' : same_batch b b' → batch_next (b_status b) (b_status b') →
      batch_move (Some b) (Some b').

(** Every row moves along its machine; publications, memberships and outputs are
    only appended. *)
Record evolves (db db' : Db) : Prop := {
  ev_work : ∀ k, rtc (work_move k) (works db !! k) (works db' !! k);
  ev_attempt : ∀ a, rtc attempt_move (attempts db !! a) (attempts db' !! a);
  ev_batch : ∀ k, rtc batch_move (batches db !! k) (batches db' !! k);
  ev_publications : ∃ ps, publications db' = publications db ++ ps;
  ev_members : ∃ ms, batch_members db' = batch_members db ++ ms;
  ev_outputs : ∃ os, output_records db' = output_records db ++ os;
}.

(** The enrollment: the batch of every attempt, and the item counts. *)
Definition enrollment (db : Db) : gmap string string := a_batch_id <$> attempts db.
Definition counts (db : Db) : gmap string Z := b_item_count <$> batches db.

(** Every operation but a claim evolves the rows and keeps the enrollment. *)
Record moves (db db' : Db) : Prop := {
  mv_evolves : evolves db db';
  mv_enrollment : enrollment db' = enrollment db;
  mv_counts : counts db' = counts db;
  mv_members : batch_members db' = batch_members db;
}.

Lemma app_nothing {A} (l : list A) : ∃ l', l = l ++ l'.
Proof. exists []. by rewrite app_nil_r. Qed.

Lemma app_tail_trans {A} (l1 l2 l3 : list A) :
  (∃ t, l2 = l1 ++ t) → (∃ t, l3 = l2 ++ t) → ∃ t, l3 = l1 ++ t.
Proof. intros [t1 ->] [t2 ->]. exists (t1 ++ t2). by rewrite app_assoc. Qed.

#[export] Instance evolves_preorder : PreOrder evolves.
Proof.
  split.
  - intros db. split; intros; try reflexivity; apply app_nothing.
  - intros db1 db2 db3 [W1 A1 B1 P1 M1 O1] [W2 A2 B2 P2 M2 O2].
    split; [intros k; etrans; [apply W1|apply W2]|intros k; etrans; [apply A1|apply A2]|
      intros k; etrans; [apply B1|apply B2]|by eapply app_tail_trans..].
Qed.

#[export] Instance moves_preorder : PreOrder moves.
Proof.
  split; [by split|]. intros db1 db2 db3 [E1 ? ?] [E2 ? ?]. split; [|congruence..].
  by transitivity db2.
Qed.

(** Changing one row of one table. *)
Lemma lookup_insert_rtc {A} (R : string → relation (option A)) (m : gmap string A) k x j :
  R k (m !! k) (Some x) → rtc (R j) (m !! j) (<[k := x]> m !! j).
Proof.
  intros H. destruct (decide (j = k)) as [->|].
  - rewrite lookup_insert_eq. by apply rtc_once.
  - by rewrite lookup_insert_ne.
Qed.

Lemma lookup_fmap_rtc {A} (R : relation (option A)) (f : A → A) (m : gmap string A) j :
  (∀ x, m !! j = Some x → rtc R (Some x) (Some (f x))) → rtc R (m !! j) ((f <$> m) !! j).
Proof. rewrite lookup_fmap. destruct (m !! j); simpl; [by auto|reflexivity]. Qed.

Lemma fmap_insert_same {A B} (f : A → B) (m : gmap string A) k x y :
  m !! k = Some x → f y = f x → f <$> <[k := y]> m = f <$> m.
Proof.
  intros Hx E. rewrite fmap_insert. apply insert_id. by rewrite lookup_fmap, Hx, E.
Qed.

Lemma evolves_work k w db :
  work_move k (works db !! k) (Some w) → evolves db (set_work k w db).
Proof.
  intros H. split; simpl; intros; try reflexivity; try apply app_nothing.
  by apply (lookup_insert_rtc work_move).
Qed.

Lemma moves_work k w db :
  work_move k (works db !! k) (Some w) → moves db (set_work k w db).
Proof. intros H. split; [by apply evolves_work|done..]. Qed.

Lemma evolves_attempt a x db :
  attempt_move (attempts db !! a) (Some x) → evolves db (set_attempt a x db).
Proof.
  intros H. split; simpl; intros; try reflexivity; try apply app_nothing.
  by apply (lookup_insert_rtc (λ _, attempt_move)).
Qed.

Lemma moves_attempt a x y db :
  attempts db !! a = Some x → attempt_move (Some x) (Some y) → same_attempt x y →
  moves db (set_attempt a y db).
Proof.
  intros Hx H Sm. split; [|by eapply fmap_insert_same, Sm|done|done].
  apply evolves_attempt. by rewrite Hx.
Qed.

(** A work and its attempt move together. *)
Lemma moves_both k w a x y db :
  work_move k (works db !! k) (Some w) → attempts db !! a = Some x → same_attempt x y →
  attempt_next (a_status x) (a_status y) →
  (a_status x ≠ A_LEASED → a_output_path y = a_output_path x ∧
     a_output_sha256 y = a_output_sha256 x ∧ a_terminal_succeeded y = a_terminal_succeeded x) →
  moves db (set_attempt a y (set_work k w db)).
Proof.
  intros Hw Hx Sm Hn Ho. transitivity (set_work k w db); [by apply moves_work|].
  eapply moves_attempt; [done| |done]. by apply am_next.
Qed.

Lemma evolves_batch k b db :
  batch_move (batches db !! k) (Some b) → evolves db (set_batch k b db).
Proof.
  intros H. split; simpl; intros; try reflexivity; try apply app_nothing.
  by apply (lookup_insert_rtc (λ _, batch_move)).
Qed.

Lemma moves_batch k b b' db :
  batches db !! k = Some b → same_batch b b' → batch_next (b_status b) (b_status b') →
  moves db (set_batch k b' db).
Proof.
  intros Hb Sb Hn. split; [|done|by eapply fmap_insert_same, Sb|done].
  apply evolves_batch. rewrite Hb. by constructor.
Qed.

(** ** Simulation *)

(** The checks of a registration make a sound row. *)
Record valid_request (q : Request) : Prop := {
  vq_key : is_blank (q_work_id q) = false;
  vq_runtime : is_blank (q_runtime_key q) = false;
  vq_config : is_blank (q_config_sha256 q) = false;
  vq_release : is_blank (q_release_digest q) = false;
  vq_duration : fisfinite (q_duration_seconds q) = true ∧ fleb (q_duration_seconds q) fzero = false;
}.

Lemma _required_text_Ok v s : _required_text v = Ok s → v = VStr s ∧ is_blank s = false.
Proof. destruct v; try done. simpl. destruct (is_blank s0) eqn:E; [done|]. by intros [= <-]. Qed.

Lemma _finite_Ok v x : _finite v = Ok x → fisfinite x = true.
Proof.
  destruct v; try done; simpl.
  - unfold py_float_of_int. by case_match; intros [= <-].
  - by case_match; intros [= <-].
Qed.

Lemma _positive_finite_Ok v x :
  _positive_finite v = Ok x → fisfinite x = true ∧ fleb x fzero = false.
Proof.
  unfold _positive_finite. intros H. res_inv H. destruct (fleb x0 fzero) eqn:E; [done|].
  injection H as <-. split; [by eapply _finite_Ok|done].
Qed.

Lemma sound_new_work q now text :
  valid_request q → _canonical_json (VDict (q_payload q)) = Ok text →
  sound_spec (q_work_id q) (new_work q (_sha256_text text) now).
Proof. intros [] H. split; eauto. Qed.

Lemma check_register_valid a b c d e f g h clock q sha now :
  check_register a b c d e f g h clock = Ok (q, sha, now) →
  valid_request q ∧ ∃ text, _canonical_json (VDict (q_payload q)) = Ok text ∧ sha = _sha256_text text.
Proof.
  unfold check_register. intros H. res_inv H. destruct b; try discriminate. res_inv H. simplify_eq/=.
  repeat match goal with E : _required_text _ = Ok _ |- _ => apply _required_text_Ok in E as [_ ?] end.
  rename select (_positive_finite _ = Ok _) into E. apply _positive_finite_Ok in E.
  split; [by split|eauto].
Qed.

Lemma normalize_request_valid v q : normalize_request v = Ok q → valid_request q.
Proof.
  destruct v; try done. cbn [normalize_request]. destruct (dict_get "payload" d); try done.
  intros H. res_inv H. simplify_eq/=.
  repeat match goal with E : _required_text _ = Ok _ |- _ => apply _required_text_Ok in E as [_ ?] end.
  rename select (_positive_finite _ = Ok _) into E. apply _positive_finite_Ok in E. by split.
Qed.

Lemma normalize_requests_valid l qs : normalize_requests l = Ok qs → Forall valid_request qs.
Proof.
  revert qs. induction l as [|v l IH]; simpl; intros qs H; res_inv H; subst; constructor.
  - by eapply normalize_request_valid.
  - by apply IH.
Qed.

Lemma normalize_registration_requests_valid v qs :
  normalize_registration_requests v = Ok qs → Forall valid_request qs.
Proof.
  destruct v as [| | | | |[|x l]|]; try done.
  exact (normalize_requests_valid (x :: l) qs).
Qed.

Lemma register_row_evolves q sha now s r s' :
  sound_spec (q_work_id q) (new_work q sha now) →
  register_row q sha now s = (Ok r, s') → moves (s_db s) (s_db s').
Proof.
  unfold register_row, insert_work. intros Hq H. ctl_inv H.
  destruct (works (s_db s) !! q_work_id q) as [w|] eqn:Hw; ctl_inv H; [done|].
  simpl. apply moves_work. rewrite Hw. by constructor.
Qed.

Lemma register_loop_evolves now seen qs s r s' :
  Forall valid_request qs →
  register_loop now seen qs s = (Ok r, s') → moves (s_db s) (s_db s').
Proof.
  intros V. revert seen s r. induction V as [|q qs Hq _ IH]; simpl; intros seen s r H; [by tx_inv H|].
  tx_step H. subst. destruct (seen !! q_work_id q).
  - tx_inv H. by eapply IH.
  - tx_inv H. etrans; [eapply register_row_evolves; [by apply sound_new_work|done]|by eapply IH].
Qed.

Lemma heartbeat_item_evolves now expires c s s' :
  heartbeat_item now expires c s = (Ok tt, s') → moves (s_db s) (s_db s').
Proof.
  intros (w&Hw&(Hst&Hla&Hf)%owns_fence_true&_&->)%heartbeat_item_Ok. simpl.
  apply moves_work. rewrite Hw. by apply wm_renew.
Qed.

(** UPDATE batches SET f WHERE batch_id = k. *)
Lemma update_batch_evolves k g f s u s' :
  (∀ b, batches (s_db s) !! k = Some b → g b = true →
     same_batch b (f b) ∧ batch_next (b_status b) (b_status (f b))) →
  update_batch k g f s = (Ok u, s') → moves (s_db s) (s_db s').
Proof.
  intros Hf H%modify_db_Ok. subst s'. simpl.
  destruct (batches (s_db s) !! k) as [b|] eqn:Hb; [|done].
  destruct (g b) eqn:Hg; [|done]. destruct (Hf b); [done..|]. by eapply moves_batch.
Qed.

Lemma heartbeat_process_evolves e ext clock s u s' :
  heartbeat_process e ext clock s = (Ok u, s') → moves (s_db s) (s_db s').
Proof.
  unfold heartbeat_process. intros H. apply tx_bind_Ok in H as ([x now]&s0&Hargs&H).
  apply tx_lift_Ok in Hargs as [_ ->]. apply _transaction_Ok in H. ctl_inv H.
  destruct (batches (s_db s) !! e_batch_id e) as [b|] eqn:Hb; [|by ctl_inv H].
  tx_step H. subst. btrue.
  match goal with E : update_batch _ _ _ _ = _ |- _ => apply update_batch_evolves in E as M1 end.
  - etrans; [exact M1|].
    match goal with E : update_attempts _ _ _ = _ |- _ => apply modify_db_Ok in E as -> end.
    etrans; [|eapply (tx_for_ind (λ s, moves _ (s_db s))); [| |exact H]].
    2: { intros c s1 s2 _ M Hc. etrans; [exact M|by eapply heartbeat_item_evolves]. }
    2: reflexivity.
    simpl. split; [split|..]; simpl; intros; try reflexivity; try apply app_nothing.
    + apply lookup_fmap_rtc. intros y Hy. case_match; [|reflexivity]. btrue.
      apply rtc_once, am_next; simpl; try done.
      match goal with E : a_status y = _ |- _ => rewrite E end. constructor.
    + unfold enrollment. simpl. rewrite <-map_fmap_compose. apply map_fmap_ext.
      intros ? y _. simpl. by case_match.
  - intros b' Hb' _. simplify_eq. split; [done|]. simpl.
    match goal with E : b_status _ = _ |- _ => rewrite E end. constructor.
Qed.

Lemma appended_moves item db0 db : appended item db0 db → moves db0 db.
Proof.
  intros (os&next&->&_). split; [split|..]; simpl; intros; try reflexivity; try apply app_nothing.
  by eexists.
Qed.

Lemma seal_item_evolves k now item s s' :
  Inv (s_db s) ∨ NoDup (okey <$> output_records (s_db s)) →
  _seal_item k now item s = (Ok tt, s') → moves (s_db s) (s_db s').
Proof.
  intros Hnd H. assert (NoDup (okey <$> output_records (s_db s))) as Hn.
  { destruct Hnd as [[C _]|]; [apply C|done]. }
  apply seal_item_Ok in H as (at_&w&Hat&_&_&Hst&_&Happ); [|done].
  etrans; [|by eapply appended_moves]. eapply moves_attempt; [done| |done].
  apply am_next; simpl; [done|rewrite Hst; constructor|done].
Qed.

(** The cases of a successful seal. *)
Definition sealed_batch (now : Float) (b : BatchRow) : BatchRow :=
  {| b with b_status := B_SEALED; b_sealed_at := Some now |}.

Lemma seal_batch_Ok v outputs env mem clock s u s' :
  seal_batch v outputs env mem clock s = (Ok u, s') →
  ∃ k raw d m now b, _required_text v = Ok k ∧ outputs = VList raw ∧ _finite clock = Ok now ∧
    _validated_sha256 env = Ok d ∧ _validated_sha256 mem = Ok m ∧
    batches (s_db s) !! k = Some b ∧
    ((b_status b = B_SEALED ∧ _verify_existing_seal k b raw d m (s_db s) = Ok tt ∧ s' = s) ∨
     (b_status b = B_LEASED ∧ fleb (b_lease_expires_at b) now = false ∧
      d = b_envelope_sha256 b ∧ m = b_membership_sha256 b ∧
      ∃ os s1, _normalize_outputs raw = Ok os ∧ length os = length (members_of k (s_db s)) ∧
        (list_to_set ((λ o, (out_work_id o, out_attempt_id o)) <$> os) : gset (string * string))
          = list_to_set ((λ m, (m_work_id m, m_attempt_id m)) <$> members_of k (s_db s)) ∧
        tx_for (_seal_item k now) os s = (Ok tt, s1) ∧
        update_batch k (λ _, true) (sealed_batch now) s1 = (Ok tt, s'))).
Proof.
  unfold seal_batch. intros H. apply tx_bind_Ok in H as ([[[[k d] m] raw] now]&s0&Hargs&H).
  apply tx_lift_Ok in Hargs as [Hargs ->]. res_inv Hargs. destruct outputs; try done.
  res_inv Hargs. simplify_eq. exists k, raw, d, m, now.
  apply _transaction_Ok in H. tx_step H.
  match goal with E : get_batch _ _ = _ |- _ => apply get_batch_Ok in E as [Hb ->] end.
  match goal with E : get_db _ = _ |- _ => apply get_db_Ok in E as [-> ->] end.
  eexists. split_and!; try done. if_inv H.
  - left. btrue. apply tx_lift_Ok in H as [Hv ->]. by destruct u.
  - right. tx_inv H. btrue.
    match goal with E : _validate_live_seal _ _ _ _ = _ |- _ =>
      unfold _validate_live_seal in E; res_inv E end.
    btrue. split_and!; try done. eauto 10.
Qed.

Lemma sealing_loop db0 k now os s b s' :
  Inv db0 → s_db s = db0 → batches db0 !! k = Some b → b_status b = B_LEASED →
  (∀ o at_, o ∈ os → attempts db0 !! out_attempt_id o = Some at_ → a_work_id at_ = out_work_id o) →
  tx_for (_seal_item k now) os s = (Ok tt, s') →
  sealing db0 k os (s_db s') ∧ moves db0 (s_db s').
Proof.
  intros [C K] Es Hb Hst O1 H.
  eapply (tx_for_prefix (λ done s1, sealing db0 k done (s_db s1) ∧ moves db0 (s_db s1))) in H;
    [done| |].
  - intros done o rest s1 s2 Hl [P M] Hrow. split.
    + eapply sealing_step; [|done|done]. intros at_ Hat. apply O1; [|done]. rewrite Hl. set_solver.
    + etrans; [exact M|]. eapply seal_item_evolves; [|done]. right. apply P.
  - rewrite Es. split; [|reflexivity]. split; simpl; [done|auto| |set_solver|].
    + exists b. split_and!; [done..|]. intros a at_ Hat Hab.
      specialize (K _ _ Hb a at_ Hat Hab). rewrite Hst in K. simpl in K. unfold live. tauto.
    + intros a at_ Hat. by exists at_.
Qed.

Lemma seal_batch_evolves v outputs env mem clock s u s' :
  Inv (s_db s) → seal_batch v outputs env mem clock s = (Ok u, s') → moves (s_db s) (s_db s').
Proof.
  intros I H. apply seal_batch_Ok in H as (k&raw&d&m&now&b&_&_&_&_&_&Hb&[(_&_&->)|
    (Hst&_&_&_&os&s1&_&_&Hset&H&Hup)]); [done|].
  apply (outputs_cover _ _ _ (inv_core _ I)) in Hset as [O1 O2].
  eapply sealing_loop in H as [S M]; [|done..|exact O1]. etrans; [exact M|].
  eapply update_batch_evolves; [|exact Hup]. intros b1 Hb1 _. split; [done|]. simpl.
  destruct (se_batch _ _ _ _ S) as (b2&Hb2&E&_). simplify_eq. rewrite E. constructor.
Qed.

Lemma commit_attempt_evolves k now a at_ w s r s' :
  attempts (s_db s) !! a = Some at_ → works (s_db s) !! a_work_id at_ = Some w →
  _commit_attempt k now (a, at_, w) s = (Ok r, s') → moves (s_db s) (s_db s').
Proof.
  intros Hat Hw H. apply commit_attempt_Ok in H as [Hv H]; [|done..].
  apply commit_valid_true in Hv as (Hse&Hst&Hla&_&_).
  destruct H as [(_&_&_&->)|(_&_&_&->)]; simpl.
  - eapply moves_both; simpl; try done; [rewrite Hw; by apply wm_release|rewrite Hse; constructor].
  - transitivity (let db := s_db s in {| db with
      publications := publications db ++ [publication k now (a, at_, w) (publication_next db)];
      publication_next := (publication_next db + 1)%Z |}).
    { split; [split|..]; simpl; intros; try reflexivity; try apply app_nothing. by eexists. }
    eapply moves_both; simpl; try done; [rewrite Hw; by eapply wm_succeed|rewrite Hse; constructor].
Qed.

(** The commit loop keeps its invariant and evolves the rows. *)
Lemma commit_loop_evolves k now db0 b s rs s' :
  Inv db0 → s_db s = db0 → batches db0 !! k = Some b → active b →
  tx_map (_commit_attempt k now) (order_by joined_order (joined k db0)) s = (Ok rs, s') →
  moves db0 (s_db s').
Proof.
  intros [C K] Es Hb Hact H.
  assert (Hlive : ∀ x t, attempts db0 !! x = Some t → a_batch_id t = k → live t).
  { intros x t. eapply coupled_live; [by eapply K|done]. }
  eapply (tx_map_prefix (λ done _ s1, committing db0 k ((λ x, x.1.1) <$> done) (s_db s1) ∧
    moves db0 (s_db s1))) in H; [apply H| |].
  - intros done bs [[a at_] w] rest s1 y s2 Hl [Co M] Hrow. rewrite fmap_app. simpl.
    assert (Hin : (a, at_, w) ∈ joined k db0).
    { rewrite <-(elem_of_order_by joined_order), Hl. set_solver. }
    apply elem_of_joined in Hin as (?&?&?).
    assert (Hnd : a ∉ (λ x, x.1.1) <$> done).
    { pose proof (NoDup_joined k db0) as Hnd.
      rewrite <-(order_by_Permutation joined_order), Hl, fmap_app in Hnd.
      apply NoDup_app in Hnd as (_&Hnd&_). intros Hd. specialize (Hnd _ Hd). set_solver. }
    split; [by eapply committing_step|]. etrans; [exact M|].
    destruct (co_rest _ _ _ _ Co a at_ w) as [Hat Hw]; [done..|].
    by eapply commit_attempt_evolves.
  - rewrite Es. split; [|reflexivity].
    split; try done; [by auto|set_solver|]. intros a at_ Hat. by exists at_.
Qed.

Lemma commit_batch_evolves v clock s r s' :
  Inv (s_db s) → commit_batch v clock s = (Ok r, s') → moves (s_db s) (s_db s').
Proof.
  intros I H. apply commit_batch_Ok in H as (k&now&b&_&_&Hb&[(_&_&->)|(Hse&_&rs&s1&H&_&->)]); [done|].
  eapply commit_loop_evolves in H as M; [|done|done|done|by right]. etrans; [exact M|]. simpl.
  destruct (batches (s_db s1) !! k) as [b1|] eqn:Hb1; [|done]. case_bool_decide as E; [|done].
  eapply moves_batch; [done..|]. simpl. rewrite E. constructor.
Qed.

Lemma recover_row_evolves t k w a at_ s u s' :
  works (s_db s) !! k = Some w → w_status w = W_LEASED → w_lease_attempt_id w = Some a →
  attempts (s_db s) !! a = Some at_ → live at_ →
  recover_row t (k, w) s = (Ok u, s') → moves (s_db s) (s_db s').
Proof.
  intros Hw Hst Hla Hat Hl H. eapply recover_row_Ok in H as [_ ->]; [|done..]. simpl.
  eapply moves_both; simpl; try done; [rewrite Hw; by apply wm_release|by constructor].
Qed.

Lemma recover_loop_evolves t db0 s s' :
  Inv db0 → s_db s = db0 → tx_for (recover_row t) (expired_work t db0) s = (Ok tt, s') →
  moves db0 (s_db s').
Proof.
  intros [C K] Es H.
  eapply (tx_for_prefix (λ done s1, recovering t db0 done.*1 (s_db s1) ∧ moves db0 (s_db s1))) in H;
    [apply H| |].
  - intros done [k w] rest s1 s2 Hl [R M] Hrow. rewrite fmap_app. simpl.
    assert (Hin : (k, w) ∈ expired_work t db0) by (rewrite Hl; set_solver).
    apply elem_of_expired_work in Hin as [? He].
    assert (Hnd : k ∉ done.*1).
    { pose proof (NoDup_expired_work t db0) as Hnd. rewrite Hl, fmap_app in Hnd.
      apply NoDup_app in Hnd as (_&Hnd&_). intros Hd. specialize (Hnd _ Hd). set_solver. }
    split; [by eapply recovering_step|]. etrans; [exact M|].
    pose proof (rc_works _ _ _ _ R k w) as Hw. apply lease_expired_true in He as (Hst&_).
    destruct (core_lease _ (rc_core _ _ _ _ R) k w) as (a&at_&?&?&?&?&?); [by apply Hw|done|].
    eapply recover_row_evolves; [by apply Hw|done..].
  - rewrite Es. split; [|reflexivity]. split; try done; [set_solver|].
    intros a at_ Hat. exists at_. split_and!; [done..|by left].
Qed.

Lemma recover_evolves v clock s r s' :
  Inv (s_db s) → recover v clock s = (Ok r, s') → moves (s_db s) (s_db s').
Proof.
  intros I H. apply recover_Ok in H as (t&s1&H&_&->%expire_batches_Ok&_).
  eapply recover_loop_evolves in H; [|done..]. etrans; [exact H|].
  split; [split|..]; simpl; intros; try reflexivity; try apply app_nothing.
  - apply lookup_fmap_rtc. intros b _. case_match eqn:E; [|reflexivity]. btrue.
    apply rtc_once, bm_next; [done|]. constructor.
    rename select (active_batch b = true) into Ha. by apply active_batch_true in Ha.
  - unfold counts. simpl. rewrite <-map_fmap_compose. apply map_fmap_ext.
    intros ? y _. simpl. by case_match.
Qed.

Lemma replay_evolves a b c d clock s r s' :
  replay a b c d clock s = (Ok r, s') → moves (s_db s) (s_db s').
Proof.
  intros H. apply replay_Ok in H as [(?&?&?&?&?&_&_&_&_&_&_&_&->)|
    (k&actor&why&n&w&row&now&_&_&_&Hn&Hw&Hst&Hc&_&_&_&->)]; [done|]. simpl.
  etrans; [|apply moves_work; simpl; rewrite Hw; by apply wm_replay].
  split; [split|..]; simpl; intros; try reflexivity; apply app_nothing.
Qed.

Lemma quarantine_row_evolves db0 actor why now x s u s' :
  quarantine_row db0 actor why now x s = (Ok u, s') → moves (s_db s) (s_db s').
Proof.
  destruct x as [k d]. intros [->|(w&m&Hw&Hst&_&_&->)]%quarantine_row_Ok; [done|]. simpl.
  apply moves_work. rewrite Hw. by apply wm_quarantine.
Qed.

Lemma quarantine_evolves l o c clock s r s' :
  quarantine l o c clock s = (Ok r, s') → moves (s_db s) (s_db s').
Proof.
  unfold quarantine. intros H. apply tx_bind_Ok in H as ([[[l' actor] why] now]&s0&Hargs&H).
  apply tx_lift_Ok in Hargs as [_ ->]. apply _transaction_Ok in H. ctl_inv H.
  match goal with E : tx_for _ _ _ = _ |- _ =>
    eapply (tx_for_ind (λ s1, moves (s_db s) (s_db s1))) in E end; [done| |reflexivity].
  intros x s1 s2 _ M Hrow. etrans; [exact M|]. by eapply quarantine_row_evolves.
Qed.

(** *** Claims *)

(** The number of attempts enrolled in a batch. *)
Definition enrolled (k : string) (db : Db) : nat :=
  size (filter (λ x : string * string, x.2 = k) (enrollment db)).

Lemma enrolled_ext k db db' : attempts db = attempts db' → enrolled k db = enrolled k db'.
Proof. unfold enrolled, enrollment. by intros ->. Qed.

Lemma enrolled_insert k a at_ db :
  attempts db !! a = None →
  enrolled k (set_attempt a at_ db) =
    (enrolled k db + if decide (a_batch_id at_ = k) then 1 else 0)%nat.
Proof.
  intros Hn. unfold enrolled, enrollment. simpl. rewrite fmap_insert.
  assert (Hf : (a_batch_id <$> attempts db) !! a = None) by (by rewrite lookup_fmap, Hn).
  case_decide as E.
  - rewrite map_filter_insert_True, map_size_insert_None; [lia| |done].
    apply map_lookup_filter_None. by left.
  - rewrite map_filter_insert_False, delete_id; [lia|done|done].
Qed.

(** The state between the claimed rows. *)
Record claiming (r : ClaimRequest) (id : string) (expires : Float) (db0 : Db)
    (done : list ClaimedWork) (db : Db) : Prop := {
  cl_evolves : evolves db0 db;
  cl_batches : batches db = batches db0;
  cl_publications : publications db = publications db0;
  cl_other : ∀ k, k ∉ c_work_id <$> done → works db !! k = works db0 !! k;
  cl_done : ∀ c, c ∈ done → ∃ w at_, works db0 !! c_work_id c = Some w ∧ w_status w = W_READY ∧
    c_fence c = (w_fence w + 1)%Z ∧
    works db !! c_work_id c = Some (leased_work r c expires w) ∧
    attempts db0 !! c_attempt_id c = None ∧
    attempts db !! c_attempt_id c = Some at_ ∧ a_status at_ = A_LEASED ∧
    a_batch_id at_ = id ∧ a_work_id at_ = c_work_id c ∧ a_fence at_ = c_fence c;
  cl_attempts : ∀ a at_, attempts db0 !! a = Some at_ → attempts db !! a = Some at_;
  cl_nodup : NoDup (c_work_id <$> done) ∧ NoDup (c_attempt_id <$> done);
  cl_enrolled : ∀ k, enrolled k db = (enrolled k db0 + if decide (id = k) then length done else 0)%nat;
}.

Lemma claiming_step r id expires db0 done i c s s' :
  claiming r id expires db0 done (s_db s) → claim_row r id expires i c s = (Ok tt, s') →
  claiming r id expires db0 (done ++ [c]) (s_db s').
Proof.
  intros [E B P O D A [N1 N2] S] H.
  apply claim_row_Ok in H as (w&at_&m&Hw&Hst&Hf&Hck&Hnew&?&?&A1&A2&A3&A4&A5&?&?&?&?&?&->).
  simpl in *.
  assert (Hnd : ∀ c', c' ∈ done → c_work_id c' ≠ c_work_id c ∧ c_attempt_id c' ≠ c_attempt_id c).
  { intros c' Hc'. destruct (D c' Hc') as (w'&at'&_&_&_&Hw'&_&Hat'&_).
    split; intros Ec; [|congruence]. rewrite Ec, Hw in Hw'. simplify_eq. }
  assert (Hc : c_work_id c ∉ c_work_id <$> done).
  { intros (c'&?&Hc')%list_elem_of_fmap. by destruct (Hnd c' Hc'). }
  assert (Ha : c_attempt_id c ∉ c_attempt_id <$> done).
  { intros (c'&?&Hc')%list_elem_of_fmap. by destruct (Hnd c' Hc'). }
  pose proof (O _ Hc) as Hw0. rewrite Hw in Hw0. symmetry in Hw0.
  assert (Hnew0 : attempts db0 !! c_attempt_id c = None).
  { apply eq_None_not_Some. intros [y Hy]. apply A in Hy. congruence. }
  split; simpl; try done.
  - etrans; [exact E|].
    transitivity (set_work (c_work_id c) (leased_work r c expires w) (s_db s)).
    { apply evolves_work. rewrite Hw. by eapply wm_claim. }
    etrans; [apply (evolves_attempt (c_attempt_id c) at_); simpl; rewrite Hnew; by constructor|].
    split; simpl; intros; try reflexivity; try apply app_nothing. by eexists.
  - intros k Hk. rewrite fmap_app in Hk. simpl in Hk.
    rewrite lookup_insert_ne; [apply O; set_solver|set_solver].
  - intros c' [Hc'| ->%list_elem_of_singleton]%elem_of_app.
    + destruct (D c' Hc') as (w'&at'&?&?&?&?&?&?&?). destruct (Hnd c' Hc').
      exists w', at'. by rewrite !lookup_insert_ne.
    + exists w, at_. by rewrite !lookup_insert_eq.
  - intros a x Hx. rewrite lookup_insert_ne; [by apply A|]. intros <-. congruence.
  - rewrite !fmap_app. simpl. split; apply NoDup_app; split_and!; try done;
      try apply NoDup_singleton; intros x Hx ->%list_elem_of_singleton; done.
  - intros k. erewrite (enrolled_ext k _ (set_attempt (c_attempt_id c) at_ (s_db s))) by done.
    rewrite enrolled_insert by done. rewrite S, A2, length_app.
    simpl. destruct (decide (id = k)); lia.
Qed.

Lemma claim_loop_claiming r id expires cs s s' :
  claim_loop r id expires cs s = (Ok tt, s') →
  claiming r id expires (s_db s) cs (s_db s').
Proof.
  unfold claim_loop. intros H.
  eapply (tx_for_prefix (λ done s1, claiming r id expires (s_db s) done.*2 (s_db s1))) in H.
  - rewrite fmap_imap in H. simpl in H.
    unfold compose in H. simpl in H. by rewrite imap_const_id in H.
  - intros done [i c] rest s1 s2 _ P Hrow. rewrite fmap_app. by eapply claiming_step.
  - simpl. split; try done; try set_solver; try (split; constructor).
    intros k. case_decide; simpl; lia.
Qed.

(** The candidate rows of a claim: ready, in scope, of the oldest runtime with
    enough rows, in queue order. *)
Definition candidates (q : ClaimRequest) (key : string) (db : Db) : list (string * WorkRow) :=
  take (Z.to_nat (cr_max_items q))
    (order_by queue_order (List.filter (has_runtime key) (eligible (cr_scope q) (cr_now q) db))).

(** A successful claim of a batch. *)
Record claimed (q : ClaimRequest) (db : Db) (cb : ClaimedBatch) (db' : Db) : Prop := {
  cd_limit : ∀ limit, cr_maximum_active q = Some limit → (count_active db < limit)%Z;
  cd_runtime : select_runtime (eligible (cr_scope q) (cr_now q) db) (cr_minimum_items q)
    = Some (cb_runtime_key cb);
  cd_expires : cb_lease_expires_at cb = fadd (cr_now q) (cr_lease q);
  cd_rows : ∃ n workers makespan, let ad := cr_admission q in
    let rows := candidates q (cb_runtime_key cb) db in
    _largest_admissible_claim_prefix (ad_workers ad) (ad_speed ad) (ad_factor ad) (ad_margin ad)
      (cr_lease q) rows (Z.to_nat (cr_minimum_items q)) = Ok (take n rows, workers, makespan) ∧
    (cr_minimum_items q ≤ Z.of_nat (length rows))%Z ∧ rows ≠ [] ∧
    Forall2 claim_of (take n rows) (cb_items cb);
  cd_fresh : batches db !! cb_batch_id cb = None;
  cd_batch : ∃ b, batches db' = <[cb_batch_id cb := b]> (batches db) ∧ b_status b = B_LEASED ∧
    b_owner b = cr_owner q ∧ b_runtime_key b = cb_runtime_key cb ∧
    b_lease_expires_at b = cb_lease_expires_at cb ∧
    b_item_count b = Z.of_nat (length (cb_items cb)) ∧ (0 < b_item_count b)%Z ∧
    b_envelope_sha256 b = cb_envelope_sha256 cb ∧ b_envelope_path b = cb_envelope_path cb ∧
    claiming q (cb_batch_id cb) (cb_lease_expires_at cb)
      (set_batch (cb_batch_id cb) b db) (cb_items cb) db';
}.

Lemma claim_rows_Ok root ids q key rows s cb s' :
  claim_rows root ids q key rows s = (Ok cb, s') →
  cb_runtime_key cb = key ∧ cb_lease_expires_at cb = fadd (cr_now q) (cr_lease q) ∧
  batches (s_db s) !! cb_batch_id cb = None ∧
  ∃ n workers makespan b, let ad := cr_admission q in
    _largest_admissible_claim_prefix (ad_workers ad) (ad_speed ad) (ad_factor ad) (ad_margin ad)
      (cr_lease q) rows (Z.to_nat (cr_minimum_items q)) = Ok (take n rows, workers, makespan) ∧
    Forall2 claim_of (take n rows) (cb_items cb) ∧
    b_status b = B_LEASED ∧ b_owner b = cr_owner q ∧ b_runtime_key b = cb_runtime_key cb ∧
    b_lease_expires_at b = cb_lease_expires_at cb ∧
    b_item_count b = Z.of_nat (length (cb_items cb)) ∧ (0 < b_item_count b)%Z ∧
    b_envelope_sha256 b = cb_envelope_sha256 cb ∧ b_envelope_path b = cb_envelope_path cb ∧
    claiming q (cb_batch_id cb) (cb_lease_expires_at cb)
      (set_batch (cb_batch_id cb) b (s_db s)) (cb_items cb) (s_db s').
Proof.
  unfold claim_rows. intros H. tx_step H. destruct x as [[rows' wc] mk].
  pose proof Hs as Hk. apply largest_prefix_sublist in Hk as (n&Hk&_). simpl in Hk. subst.
  tx_inv H. simpl.
  match goal with E : claim_items _ _ _ = Ok _ |- _ => apply claim_items_Ok in E end.
  match goal with E : content_put_json _ _ _ = _ |- _ => apply content_put_json_Ok in E as Hdb end.
  match goal with E : insert_batch _ _ _ = _ |- _ => apply insert_batch_Ok in E as (Hid&Hpos&->) end.
  rewrite Hdb in *.
  match goal with E : claim_loop _ _ _ _ _ = _ |- _ => apply claim_loop_claiming in E end.
  split_and!; try done. eexists n, wc, mk, _. split_and!; try done; done.
Qed.

Lemma claim_Ok root ids args clock s r s' :
  claim root ids args clock s = (Ok r, s') →
  ∃ q, check_claim args clock = Ok q ∧
    match r with
    | None => s' = s
    | Some cb => claimed q (s_db s) cb (s_db s')
    end.
Proof.
  unfold claim. intros H. apply tx_bind_Ok in H as (q&s0&Hargs&H).
  apply tx_lift_Ok in Hargs as [Hargs ->]. exists q. split; [done|].
  apply _transaction_Ok in H. ctl_inv H. if_inv H; [by ctl_inv H|]. if_inv H; [by ctl_inv H|].
  ctl_inv H. destruct (select_runtime _ _) as [key|] eqn:Hkey; [|by ctl_inv H].
  if_inv H; [by ctl_inv H|]. tx_step H. subst r.
  match goal with E : claim_rows _ _ _ _ _ _ = _ |- _ => apply claim_rows_Ok in E
    as (<-&?&?&n&wc&mk&b&Hp&?&?&?&?&?&?&?&?&?&Hc) end.
  rename select (_ || _ = false) into Hne. apply orb_false_iff in Hne as [Hne Hmin]. btrue.
  split; try done.
  - intros limit E. rewrite E in *. by btrue.
  - exists n, wc, mk. done.
  - exists b. split_and!; try done. apply Hc.
Qed.

Lemma claimed_evolves q db cb db' : claimed q db cb db' → evolves db db'.
Proof.
  intros [_ _ _ _ Hf (b&_&Hst&_&_&_&_&_&_&_&C)]. etrans; [|apply C].
  apply evolves_batch. rewrite Hf. by constructor.
Qed.

(** ** Every step evolves the rows and keeps the item counts *)

Definition counted (db : Db) : Prop :=
  ∀ k b, batches db !! k = Some b → b_item_count b = Z.of_nat (enrolled k db).

Lemma moves_counted db db' : moves db db' → counted db → counted db'.
Proof.
  intros [_ E N] C k b Hb. unfold enrolled. rewrite E.
  assert (counts db !! k = Some (b_item_count b)) as Hc.
  { rewrite <-N. unfold counts. by rewrite lookup_fmap, Hb. }
  unfold counts in Hc. rewrite lookup_fmap in Hc.
  destruct (batches db !! k) as [b0|] eqn:Hb0; simplify_eq/=. rewrite <-Hc. by apply C.
Qed.

Lemma reconcile_evolves now clock s r s' :
  reconcile now clock s = (Ok r, s') → moves (s_db s) (s_db s').
Proof.
  intros (t&batch&found&_&_&_&->&_)%reconcile_Ok. split; [|done..].
  split; intros; try reflexivity; apply app_nothing.
Qed.

Lemma claimed_counted q db cb db' :
  core db → claimed q db cb db' → counted db → counted db'.
Proof.
  intros I [_ _ _ _ Hf (b&Hbs&_&_&_&_&Hn&_&_&_&C)] K k x. rewrite Hbs.
  rewrite (cl_enrolled _ _ _ _ _ _ C), (enrolled_ext k _ db) by done.
  intros [[<- <-]|[Hne Hx]]%lookup_insert_Some.
  - rewrite decide_True by done. rewrite Hn.
    assert (enrolled (cb_batch_id cb) db = 0%nat) as ->; [|lia].
    apply map_size_empty_iff, map_eq. intros a. rewrite lookup_empty.
    apply map_lookup_filter_None. right. intros y Hy. simpl. intros Ey. subst y.
    unfold enrollment in Hy. apply lookup_fmap_Some in Hy as (t&Ht&Hat).
    destruct (core_attempt _ I a t Hat) as [_ [z Hz]]. congruence.
  - rewrite decide_False by done. rewrite Nat.add_0_r. by apply K.
Qed.

(** A call that returned a new claim. *)
Definition claim_call (op : ctl_op) (s : Store) (cb : ClaimedBatch) (s' : Store) : Prop :=
  ∃ root ids args clock,
    op = OpClaim root ids args clock ∧ claim root ids args clock s = (Ok (Some cb), s').

Lemma run_op_cases op s r s' :
  Inv (s_db s) → run_op op s = (r, s') →
  moves (s_db s) (s_db s') ∨
  ∃ q cb, claim_call op s cb s' ∧ claimed q (s_db s) cb (s_db s').
Proof.
  intros I H. destruct r as [[]|e]; [|left; by rewrite (run_op_Err _ _ _ _ H)].
  destruct op; simpl in H; try apply drop_Ok in H as [x H].
  - left. unfold register in H. apply tx_bind_Ok in H as ([[q sha] now]&s0&Hargs&H).
    apply tx_lift_Ok in Hargs as [Hargs ->]. apply _transaction_Ok in H.
    apply check_register_valid in Hargs as (V&text&Ht&->).
    eapply register_row_evolves; [by apply sound_new_work|done].
  - left. unfold register_many in H. apply tx_bind_Ok in H as ([qs now]&s0&Hargs&H).
    apply tx_lift_Ok in Hargs as [Hargs ->]. apply _transaction_Ok in H. res_inv Hargs. simplify_eq.
    eapply register_loop_evolves; [by eapply normalize_registration_requests_valid|done].
  - pose proof H as Hc. apply claim_Ok in H as (q&_&H).
    destruct x as [cb|]; [right|left; by rewrite H]. exists q, cb. split; [|done].
    by exists root, id_factory, args, clock.
  - left. by apply process_batch_state_state in H as ->.
  - left. by apply assert_process_fence_state in H as ->.
  - left. by eapply heartbeat_process_evolves.
  - left. by eapply seal_batch_evolves.
  - left. by eapply commit_batch_evolves.
  - left. by eapply recover_evolves.
  - left. by eapply replay_evolves.
  - left. by eapply quarantine_evolves.
  - left. by eapply reconcile_evolves.
Qed.

Lemma run_op_moves op s r s' :
  Inv (s_db s) → run_op op s = (r, s') →
  moves (s_db s) (s_db s') ∨ ∃ q cb, claimed q (s_db s) cb (s_db s').
Proof. intros I H. destruct (run_op_cases _ _ _ _ I H) as [M|(q&cb&_&C)]; eauto. Qed.

Lemma step_evolves s s' : Inv (s_db s) → ctl_step s s' → evolves (s_db s) (s_db s').
Proof.
  intros I (op&r&H). apply run_op_moves in H as [[E _ _ _]|(q&cb&E)]; [done| |done].
  by eapply claimed_evolves.
Qed.

Lemma steps_evolves s s' :
  Inv (s_db s) → rtc ctl_step s s' → evolves (s_db s) (s_db s') ∧ Inv (s_db s').
Proof.
  intros I H. induction H as [|s1 s2 s3 Hs _ IH]; [done|].
  pose proof (step_evolves _ _ I Hs) as E. destruct Hs as (op&r&Hop).
  destruct IH as [E' I']; [by eapply run_op_inv|]. split; [by etrans|done].
Qed.

Lemma steps_counted s s' :
  Inv (s_db s) → counted (s_db s) → rtc ctl_step s s' → counted (s_db s').
Proof.
  intros I C H. induction H as [|s1 s2 s3 (op&r&Hop) _ IH]; [done|].
  apply IH; [by eapply run_op_inv|].
  apply run_op_moves in Hop as [M|(q&cb&E)]; [by eapply moves_counted| |done].
  eapply claimed_counted; [apply I|done..].
Qed.

Lemma counted_empty : counted empty_db.
Proof. intros k b. simpl. by rewrite lookup_empty. Qed.

Lemma reachable_counted s : reachable s → counted (s_db s).
Proof.
  intros (s0&E&H). eapply steps_counted; [| |exact H]; rewrite E; [apply Inv_empty|apply counted_empty].
Qed.

(** ** What the machine guarantees over any number of steps *)

(** What a later row of the same work keeps. *)
Record work_kept (w w' : WorkRow) : Prop := {
  wk_spec : same_spec w w';
  wk_fence : (w_fence w ≤ w_fence w')%Z;
  wk_done : w_status w = W_SUCCEEDED →
    w_status w' = W_SUCCEEDED ∧ w_committed_attempt_id w' = w_committed_attempt_id w ∧
    w_publication_sequence w' = w_publication_sequence w ∧ w_fence w' = w_fence w;
}.

Lemma same_spec_trans w1 w2 w3 : same_spec w1 w2 → same_spec w2 w3 → same_spec w1 w3.
Proof. intros [] []. split; congruence. Qed.

Lemma work_move_kept k w x : work_move k (Some w) x → ∃ w', x = Some w' ∧ work_kept w w'.
Proof.
  intros H. inversion H; subst;
    (eexists; split; [reflexivity|split; [done|lia|intros; congruence]]).
Qed.

Lemma work_moves_kept k w x :
  rtc (work_move k) (Some w) x → ∃ w', x = Some w' ∧ work_kept w w'.
Proof.
  intros H. remember (Some w) as y eqn:E. revert w E.
  induction H as [|x y z Hm _ IH]; intros w ->.
  - exists w. split; [done|]. by split; [split|lia|].
  - apply work_move_kept in Hm as (w1&->&[S1 F1 D1]).
    destruct (IH w1 eq_refl) as (w2&->&[S2 F2 D2]). exists w2. split; [done|].
    split; [by eapply same_spec_trans|lia|].
    intros Hd. destruct (D1 Hd) as (E1&?&?&?). destruct (D2 E1) as (?&?&?&?).
    split_and!; congruence.
Qed.

Definition ended (a : attempt_status) : Prop := a = A_SUCCEEDED ∨ a = A_FAILED ∨ a = A_EXPIRED.

Record attempt_kept (a a' : AttemptRow) : Prop := {
  ak_same : same_attempt a a';
  ak_ended : ended (a_status a) → a_status a' = a_status a;
  ak_output : a_status a ≠ A_LEASED → a_output_path a' = a_output_path a ∧
    a_output_sha256 a' = a_output_sha256 a ∧ a_terminal_succeeded a' = a_terminal_succeeded a;
  ak_started : a_status a' = A_LEASED → a_status a = A_LEASED;
}.

Lemma attempt_moves_kept a x :
  rtc attempt_move (Some a) x → ∃ a', x = Some a' ∧ attempt_kept a a'.
Proof.
  intros H. remember (Some a) as y eqn:E. revert a E.
  induction H as [|x y z Hm _ IH]; intros a ->.
  - exists a. split; [done|]. by split.
  - inversion Hm as [|? a1 Sm Hn Ho]; subst.
    destruct (IH a1 eq_refl) as (a2&->&[[S1 S2 S3 S4] E2 O2 L2]). exists a2. split; [done|].
    destruct Sm as [T1 T2 T3 T4]. split.
    + split; congruence.
    + intros [Hs|[Hs|Hs]]; rewrite Hs in Hn; inversion Hn; naive_solver.
    + intros Hs. destruct (Ho Hs) as (?&?&?). destruct O2 as (?&?&?); [|split_and!; congruence].
      intros Hc. rewrite Hc in Hn. inversion Hn. congruence.
    + intros Hl. specialize (L2 Hl). rewrite L2 in Hn. by inversion Hn.
Qed.

Definition closed (b : batch_status) : Prop := b = B_COMMITTED ∨ b = B_EXPIRED.

Record batch_kept (b b' : BatchRow) : Prop := {
  bk_same : same_batch b b';
  bk_closed : closed (b_status b) → b_status b' = b_status b;
}.

Lemma batch_moves_kept b x :
  rtc batch_move (Some b) x → ∃ b', x = Some b' ∧ batch_kept b b'.
Proof.
  intros H. remember (Some b) as y eqn:E. revert b E.
  induction H as [|x y z Hm _ IH]; intros b ->.
  - exists b. split; [done|]. by split.
  - inversion Hm as [|? b1 Sb Hn]; subst.
    destruct (IH b1 eq_refl) as (b2&->&[[] E2]). exists b2. split; [done|].
    destruct Sb. split; [split; congruence|].
    intros [Hs|Hs]; rewrite Hs in Hn; inversion Hn; naive_solver.
Qed.

Lemma evolves_works db db' k w :
  evolves db db' → works db !! k = Some w → ∃ w', works db' !! k = Some w' ∧ work_kept w w'.
Proof. intros E Hw. apply (work_moves_kept k). rewrite <-Hw. apply E. Qed.

(** Every row keeps what its registration guaranteed. *)
Definition sound_works (db : Db) : Prop := ∀ k w, works db !! k = Some w → sound_spec k w.

Lemma sound_spec_same k w w' : same_spec w w' → sound_spec k w → sound_spec k w'.
Proof.
  intros [Ei Ep _] []. unfold row_identity in Ei. injection Ei as E1 E2 E3 E4 E5 _.
  split; by rewrite ?Ep, ?E1, ?E2, ?E3, ?E4, ?E5.
Qed.

Lemma work_move_sound k x y :
  work_move k x y → (∀ w, x = Some w → sound_spec k w) → ∀ w, y = Some w → sound_spec k w.
Proof. intros H Hx w ->. inversion H; subst; try done; by eapply sound_spec_same; [|apply Hx]. Qed.

Lemma evolves_sound db db' : evolves db db' → sound_works db → sound_works db'.
Proof.
  intros E S k. pose proof (ev_work _ _ E k) as H. specialize (S k).
  remember (works db !! k) as x. clear Heqx. induction H as [|x y z Hm _ IH]; [done|].
  apply IH. by eapply work_move_sound.
Qed.

Lemma reachable_sound s : reachable s → sound_works (s_db s).
Proof.
  intros (s0&E&H). eapply evolves_sound; [apply (steps_evolves s0); [|done]|].
  - rewrite E. apply Inv_empty.
  - rewrite E. by intros k w Hw.
Qed.

Lemma evolves_attempts db db' a x :
  evolves db db' → attempts db !! a = Some x →
  ∃ x', attempts db' !! a = Some x' ∧ attempt_kept x x'.
Proof. intros E Hx. apply attempt_moves_kept. rewrite <-Hx. apply E. Qed.

Lemma evolves_batches db db' k b :
  evolves db db' → batches db !! k = Some b →
  ∃ b', batches db' !! k = Some b' ∧ batch_kept b b'.
Proof. intros E Hb. apply batch_moves_kept. rewrite <-Hb. apply E. Qed.

Lemma evolves_published db db' p :
  evolves db db' → p ∈ publications db → p ∈ publications db'.
Proof. intros E Hp. destruct (ev_publications _ _ E) as [ps ->]. set_solver. Qed.

(** A batch that exists never enrolls another attempt. *)
Lemma batch_closed_enrollment db db' k b a x :
  evolves db db' → counted db → counted db' → batches db !! k = Some b →
  attempts db' !! a = Some x → a_batch_id x = k → is_Some (attempts db !! a).
Proof.
  intros E C C' Hb Hx Hk.
  destruct (evolves_batches _ _ _ _ E Hb) as (b'&Hb'&[Sb _]).
  pose proof (C k b Hb) as N. pose proof (C' k b' Hb') as N'. rewrite (sb_count _ _ Sb), N in N'.
  apply Nat2Z.inj in N'. unfold enrolled in N'.
  set (m := filter (λ x : string * string, x.2 = k) (enrollment db)) in *.
  set (m' := filter (λ x : string * string, x.2 = k) (enrollment db')) in *.
  assert (m ⊆ m') as Hsub.
  { apply map_subseteq_spec. intros j y. unfold m, m', enrollment.
    rewrite !map_lookup_filter_Some, !lookup_fmap_Some. intros ((t&Et&Ht)&Ey).
    destruct (evolves_attempts _ _ _ _ E Ht) as (t'&Ht'&[Sm _ _ _]).
    split; [|done]. exists t'. split; [|done]. by rewrite (sa_batch _ _ Sm). }
  assert (m = m') as Em by (apply map_subseteq_size_eq; [done|lia]).
  assert (m' !! a = Some k) as Ha.
  { apply map_lookup_filter_Some. split; [|done]. unfold enrollment.
    by rewrite lookup_fmap, Hx, <-Hk. }
  rewrite <-Em in Ha. apply map_lookup_filter_Some in Ha as [Ha _].
  unfold enrollment in Ha. apply lookup_fmap_Some in Ha as (t&_&Ht). eauto.
Qed.

(** A publication belongs to a SUCCEEDED attempt of its batch. *)
Lemma publication_attempt db p :
  core db → p ∈ publications db → ∃ x, attempts db !! p_attempt_id p = Some x ∧
    a_status x = A_SUCCEEDED ∧ a_batch_id x = p_batch_id p ∧ a_work_id x = p_work_id p.
Proof.
  intros C Hp. destruct (core_publication _ C p Hp) as (w&x&Hw&Hc&Hx&Hb&_).
  destruct (core_pointer _ C _ _ _ Hw Hc) as (x'&_&Hx'&Hwk&Hs&_). simplify_eq. eauto.
Qed.

(** A closed batch: its attempts have ended and nothing more is published. *)
Lemma closed_attempts db db' k b a x :
  evolves db db' → Inv db → counted db → counted db' →
  batches db !! k = Some b → closed (b_status b) →
  attempts db' !! a = Some x → a_batch_id x = k →
  ∃ x0, attempts db !! a = Some x0 ∧ same_attempt x0 x ∧ a_status x = a_status x0.
Proof.
  intros E I N N' Hb Hcl Hx Hk.
  destruct (batch_closed_enrollment _ _ k b a x E N N') as [x0 Hx0]; [done..|].
  destruct (evolves_attempts _ _ _ _ E Hx0) as (x'&Hx'&[Sm En _ _]). simplify_eq.
  exists x0. split_and!; [done..|]. apply En.
  pose proof (inv_coupled _ I _ _ Hb a x0 Hx0 (eq_sym (sa_batch _ _ Sm))) as K.
  assert (expected_status (b_status b) = None) as Hn by (by destruct Hcl as [->| ->]).
  rewrite Hn in K. unfold live in K. unfold ended. destruct (a_status x0); naive_solver.
Qed.

Lemma closed_publications db db' k b p :
  evolves db db' → Inv db → Inv db' → counted db → counted db' →
  batches db !! k = Some b → closed (b_status b) →
  p ∈ publications db' → p_batch_id p = k → p ∈ publications db.
Proof.
  intros E I I' N N' Hb Hcl Hp Hk. pose proof (inv_core _ I) as C. pose proof (inv_core _ I') as C'.
  destruct (publication_attempt _ p C' Hp) as (x&Hx&Hs&Hxb&Hwk).
  destruct (closed_attempts _ _ k b _ x E I N N' Hb Hcl Hx) as (x0&Hx0&Sm&Es); [congruence|].
  rewrite Hs in Es. destruct (core_succeeded _ C _ _ Hx0 (eq_sym Es)) as (w&Hw&Hc).
  destruct (core_pointer _ C _ _ _ Hw Hc) as (_&q&_&_&_&Hq&Hqw&_&_).
  assert (q = p) as ->; [|done].
  eapply (NoDup_fmap_eq p_work_id); [apply C'|by eapply evolves_published|done|].
  rewrite Hqw. pose proof (sa_work _ _ Sm). congruence.
Qed.

Lemma closed_sequences db db' k b :
  evolves db db' → Inv db → Inv db' → counted db → counted db' →
  batches db !! k = Some b → closed (b_status b) →
  batch_sequences k db' = batch_sequences k db.
Proof.
  intros E I I' N N' Hb Hcl. unfold batch_sequences.
  destruct (ev_publications _ _ E) as [ps Eps]. rewrite Eps, List.filter_app.
  assert (Hnew : ∀ p, p ∈ ps → p_batch_id p ≠ k).
  { intros p Hp Hk. pose proof (core_published_once _ (inv_core _ I')) as Hnd.
    rewrite Eps, fmap_app in Hnd. apply NoDup_app in Hnd as (_&Hnd&_).
    apply (Hnd (p_work_id p)); [|by apply list_elem_of_fmap_2].
    apply list_elem_of_fmap_2. eapply closed_publications; [done..| |done].
    rewrite Eps. set_solver. }
  assert (List.filter (λ p, bool_decide (p_batch_id p = k)) ps = []) as ->; [|by rewrite app_nil_r].
  clear -Hnew. induction ps as [|p ps IH]; simpl; [done|].
  rewrite bool_decide_eq_false_2 by (apply Hnew; left). apply IH. intros q ?. apply Hnew. by right.
Qed.
