(* ===== verification/ControlFiles.v ===== *)
(** * The files of the control store

    Every call leaves the content files it found in place and unchanged, and a
    claim leaves the envelope it wrote at the path of its batch. *)
From S2P Require Export Prelude PyVal Json LocalStorage JsonTheorems ControlTypes ControlClaim ControlProcess ControlEnvelope ControlAdmin ControlReconcile ControlInv ControlSafety ControlSpec.

(** ** Files only grow *)

Definition grows {A} (m : Ctl A) : Prop :=
  ∀ s r s', m s = (r, s') → s_files s ⊆ s_files s'.

Create HintDb grows.

Lemma grows_bind {A B} (m : Ctl A) (f : A → Ctl B) : grows m → (∀ a, grows (f a)) → grows (m ≫= f).
Proof.
  intros Hm Hf s r s'. unfold mbind, tx_bind. destruct (m s) as [[a|e] s1] eqn:E; intros H.
  - etrans; [by eapply Hm|by eapply Hf].
  - injection H as <- <-. by eapply Hm.
Qed.

Lemma grows_fmap {A B} (f : A → B) (m : Ctl A) : grows m → grows (f <$> m).
Proof.
  intros Hm s r s'. unfold fmap, tx_fmap. destruct (m s) as [[a|e] s1] eqn:E;
    intros [= <- <-]; by eapply Hm.
Qed.

Lemma grows_ret {A} (a : A) : grows (mret a).
Proof. by intros s r s' [= <- <-]. Qed.
Lemma grows_lift {A} (x : result A) : grows (tx_lift x).
Proof. by intros s r s' [= <- <-]. Qed.
Lemma grows_require b e : grows (tx_require b e).
Proof. apply grows_lift. Qed.
Lemma grows_raise {A} e : grows (tx_raise (A := A) e).
Proof. apply grows_lift. Qed.
Lemma grows_get_db : grows get_db.
Proof. by intros s r s' [= <- <-]. Qed.
Lemma grows_get_files : grows get_files.
Proof. by intros s r s' [= <- <-]. Qed.
Lemma grows_modify_db f : grows (modify_db f).
Proof. by intros s r s' [= <- <-]. Qed.

Lemma grows_transaction {A} (m : Ctl A) : grows m → grows (_transaction m).
Proof.
  intros Hm s r s'. unfold _transaction, transaction. destruct (m s) as [[a|e] s1] eqn:E;
    intros [= <- <-]; by apply (Hm _ _ _ E).
Qed.

Lemma grows_for {A} (f : A → Ctl unit) l : (∀ x, grows (f x)) → grows (tx_for f l).
Proof. intros H. induction l; simpl; [apply grows_ret|]. by apply grows_bind. Qed.

Lemma grows_map {A B} (f : A → Ctl B) l : (∀ x, grows (f x)) → grows (tx_map f l).
Proof.
  intros H. induction l; simpl; [apply grows_ret|].
  apply grows_bind; [done|]. intros b. apply grows_bind; [done|]. intros. apply grows_ret.
Qed.

Lemma grows_put root v : grows (content_put_json root v).
Proof.
  intros s r s'. unfold content_put_json, put_json.
  destruct (json_dumps true v) as [t|e]; [|by intros [= <- <-]].
  destruct (put_bytes root (codes_of_str t) None (s_files s)) as [x fs] eqn:E. intros [= <- <-]. simpl.
  apply put_bytes_cases in E as [(e&->&->)|(o&->&_&_&_&E)]; [done|].
  unfold stored in E. case_match eqn:Hs; [by destruct E as [-> _]|]. subst. by apply insert_subseteq.
Qed.

#[export] Hint Resolve grows_ret grows_lift grows_require grows_raise
  grows_get_db grows_get_files grows_modify_db grows_put : grows.

(** Walk through the structure of a call. *)
Ltac grow :=
  repeat first
    [ solve [auto 2 with grows nocore]
    | progress intros | progress cbv zeta
    | match goal with
      | |- grows (_ ≫= _) => apply grows_bind
      | |- grows (_ <$> _) => apply grows_fmap
      | |- grows (_transaction _) => apply grows_transaction
      | |- grows (tx_for _ _) => apply grows_for
      | |- grows (tx_map _ _) => apply grows_map
      | |- grows (match ?x with _ => _ end) => destruct x
      | |- grows (let '(_, _) := ?x in _) => destruct x
      end ].

Lemma grows_update_work id g f : grows (update_work id g f).
Proof. unfold update_work. grow. Qed.
Lemma grows_insert_work id w : grows (insert_work id w).
Proof. unfold insert_work. grow. Qed.
Lemma grows_insert_attempt id a : grows (insert_attempt id a).
Proof. unfold insert_attempt. grow. Qed.
Lemma grows_insert_member m : grows (insert_member m).
Proof. unfold insert_member. grow. Qed.
Lemma grows_insert_batch id b : grows (insert_batch id b).
Proof. unfold insert_batch. grow. Qed.
Lemma grows_insert_output f : grows (insert_output f).
Proof. unfold insert_output. grow. Qed.
Lemma grows_insert_publication f : grows (insert_publication f).
Proof. unfold insert_publication. grow. Qed.
Lemma grows_insert_replay id r : grows (insert_replay id r).
Proof. unfold insert_replay. grow. Qed.
Lemma grows_update_batch id g f : grows (update_batch id g f).
Proof. unfold update_batch. grow. Qed.
Lemma grows_update_attempt id g f : grows (update_attempt id g f).
Proof. unfold update_attempt. grow. Qed.
Lemma grows_update_attempts g f : grows (update_attempts g f).
Proof. unfold update_attempts. grow. Qed.
Lemma grows_get_batch id : grows (get_batch id).
Proof. unfold get_batch. grow. Qed.
#[export] Hint Resolve grows_update_work grows_insert_work grows_insert_attempt grows_insert_member
  grows_insert_batch grows_insert_output grows_insert_publication grows_insert_replay
  grows_update_batch grows_update_attempt grows_update_attempts grows_get_batch : grows.

Lemma grows_register_row q sha now : grows (register_row q sha now).
Proof. unfold register_row. grow. Qed.
Lemma grows_register_loop now seen qs : grows (register_loop now seen qs).
Proof.
  revert seen. induction qs as [|q qs IH]; intros seen; simpl; [grow|].
  pose proof (grows_register_row q). grow.
Qed.
Lemma grows_claim_row r id x i c : grows (claim_row r id x i c).
Proof. unfold claim_row. grow. Qed.
Lemma grows_claim_loop r id x cs : grows (claim_loop r id x cs).
Proof. unfold claim_loop. pose proof grows_claim_row. grow. Qed.
#[export] Hint Resolve grows_register_row grows_register_loop grows_claim_row grows_claim_loop : grows.

Lemma grows_process_batch_state e : grows (process_batch_state e).
Proof. unfold process_batch_state. grow. Qed.
Lemma grows_commit_attempt k now row : grows (_commit_attempt k now row).
Proof. destruct row as [[id a] w]. unfold _commit_attempt, _commit_failed_attempt. grow. Qed.
Lemma grows_recover_row t row : grows (recover_row t row).
Proof. destruct row as [id w]. unfold recover_row. grow. Qed.
#[export] Hint Resolve grows_process_batch_state grows_commit_attempt grows_recover_row : grows.

Lemma grows_run_op op : grows (run_op op).
Proof.
  destruct op; simpl; unfold drop.
  - unfold register. grow.
  - unfold register_many. grow.
  - unfold claim, claim_rows. grow.
  - grow.
  - unfold assert_process_fence. grow.
  - unfold heartbeat_process, heartbeat_item. grow.
  - unfold seal_batch, _seal_item. grow.
  - unfold commit_batch. grow.
  - unfold recover, expire_batches. grow.
  - unfold replay. grow.
  - unfold quarantine, quarantine_row. grow.
  - unfold reconcile, record_finding. grow.
Qed.

Lemma steps_files s s' : rtc ctl_step s s' → s_files s ⊆ s_files s'.
Proof.
  induction 1 as [|s1 s2 s3 (op&r&H) _ IH]; [done|]. etrans; [by eapply grows_run_op|done].
Qed.

(** ** The membership of a batch *)

Definition member_row (id : string) (i : nat) (c : ClaimedWork) : MemberRow := {|
  m_batch_id := id; m_ordinal := Z.of_nat i; m_work_id := c_work_id c;
  m_attempt_id := c_attempt_id c; m_fence := c_fence c; m_payload_sha256 := c_payload_sha256 c |}.

Lemma claim_row_members r id expires i c s s' :
  claim_row r id expires i c s = (Ok tt, s') →
  batch_members (s_db s') = batch_members (s_db s) ++ [member_row id i c].
Proof.
  unfold claim_row. intros H. tx_inv H.
  eapply update_work_1 in Hs as (w&Hw&Hg&Hck&->); [|done].
  apply insert_attempt_Ok in Hs1 as (?&?&?&?&->).
  by apply insert_member_Ok in H as ->.
Qed.

Lemma claim_loop_members r id expires cs s s' :
  claim_loop r id expires cs s = (Ok tt, s') →
  batch_members (s_db s') = batch_members (s_db s) ++ imap (member_row id) cs.
Proof.
  unfold claim_loop. intros H.
  eapply (tx_for_prefix (λ done s1, batch_members (s_db s1) =
    batch_members (s_db s) ++ ((λ x, member_row id x.1 x.2) <$> done))) in H.
  - rewrite H, fmap_imap. done.
  - intros done [i c] rest s1 s2 _ P Hrow. simpl in Hrow. apply claim_row_members in Hrow.
    by rewrite Hrow, P, fmap_app, app_assoc.
  - by rewrite app_nil_r.
Qed.

Definition in_batch (id : string) (m : MemberRow) : bool := bool_decide (m_batch_id m = id).

Lemma members_sorted id n cs :
  StronglySorted (λ x y, Is_true (m_ordinal x <=? m_ordinal y)%Z)
    (imap (λ i, member_row id (n + i)) cs).
Proof.
  revert n. induction cs as [|c cs IH]; intros n; [constructor|]. rewrite imap_cons. constructor.
  - specialize (IH (S n)). erewrite imap_ext; [exact IH|]. intros i x _. simpl. by rewrite Nat.add_succ_r.
  - apply Forall_forall. intros m (i&x&->&_)%elem_of_lookup_imap. apply Is_true_true, Z.leb_le. simpl. lia.
Qed.

(** The members that a claim appends are the members of its batch. *)
Lemma members_of_claim id cs db db' :
  (∀ m, m ∈ batch_members db → m_batch_id m ≠ id) →
  batch_members db' = batch_members db ++ imap (member_row id) cs →
  (member_claimed <$> members_of id db') = cs ∧
  ∀ k, k ≠ id → members_of k db' = members_of k db.
Proof.
  intros Hnew E.
  assert (Hin : ∀ k, List.filter (in_batch k) (imap (member_row id) cs) =
    if decide (k = id) then imap (member_row id) cs else []).
  { intros k. destruct (decide (k = id)) as [->|Hk].
    - apply list_filter_all. intros m (i&c&->&_)%elem_of_lookup_imap. by apply bool_decide_eq_true.
    - apply list_filter_none. intros m (i&c&->&_)%elem_of_lookup_imap.
      apply bool_decide_eq_false. simpl. congruence. }
  split.
  - unfold members_of. fold (in_batch id). rewrite E, List.filter_app, Hin, decide_True by done.
    rewrite list_filter_none by (intros m Hm; by apply bool_decide_eq_false, Hnew). simpl.
    rewrite order_by_sorted.
    + rewrite fmap_imap. transitivity (imap (λ _ c, c) cs); [|apply imap_const_id].
      apply imap_ext. by intros i [].
    + intros x y. destruct (Z.leb_spec (m_ordinal x) (m_ordinal y)); [by left|right].
      apply Is_true_true, Z.leb_le. lia.
    + intros x y z. lia.
    + intros x y (i&c&->&Hi)%elem_of_lookup_imap (j&c'&->&Hj)%elem_of_lookup_imap. simpl.
      intros ? ?. assert (i = j) as -> by lia. by simplify_eq.
    + apply (members_sorted id 0).
  - intros k Hk. unfold members_of. fold (in_batch k).
    by rewrite E, List.filter_app, Hin, decide_False, app_nil_r.
Qed.

(** ** What a claim writes *)

(** The envelope file and the batch row of a claim. *)
Record wrote (root : string) (q : ClaimRequest) (s : Store) (cb : ClaimedBatch) (s' : Store)
    (rows : list (string * WorkRow)) (membership : string) (makespan : Float) (workers : Z)
    : Prop := {
  wr_rows : ∀ x, x ∈ rows → works (s_db s) !! x.1 = Some x.2 ∧ w_runtime_key x.2 = cb_runtime_key cb;
  wr_items : Forall2 claim_of rows (cb_items cb);
  wr_id : is_blank (cb_batch_id cb) = false;
  wr_some : cb_items cb ≠ [];
  wr_nodup : NoDup (c_work_id <$> cb_items cb);
  wr_attempts : Forall (λ c, is_blank (c_attempt_id c) = false) (cb_items cb);
  wr_membership : _membership_sha256 (cb_items cb) = Ok membership;
  wr_file : ∃ text so fs,
    json_dumps true (claim_envelope q (cb_batch_id cb) (cb_runtime_key cb) membership
      (cb_lease_expires_at cb) makespan workers rows (cb_items cb)) = Ok text ∧
    put_bytes root (codes_of_str text) None (s_files s) = (Ok so, fs) ∧ fs ⊆ s_files s' ∧
    so_path so = cb_envelope_path cb ∧ so_sha256 so = cb_envelope_sha256 cb;
  wr_members : batch_members (s_db s') =
    batch_members (s_db s) ++ imap (member_row (cb_batch_id cb)) (cb_items cb);
  wr_batch : ∃ b, batches (s_db s') !! cb_batch_id cb = Some b ∧
    b_envelope_path b = cb_envelope_path cb ∧ b_envelope_sha256 b = cb_envelope_sha256 cb ∧
    b_membership_sha256 b = membership ∧ b_lease_expires_at b = cb_lease_expires_at cb;
}.

Lemma claim_items_attempts f k rows cs :
  claim_items f k rows = Ok cs → Forall (λ c, is_blank (c_attempt_id c) = false) cs.
Proof.
  revert k cs. induction rows as [|[id w] rows IH]; simpl; intros k cs H.
  - injection H as <-. constructor.
  - res_inv H. subst. constructor; [|by eapply IH].
    by match goal with E : _new_id _ _ = Ok _ |- _ => apply _required_text_Ok in E as [_ ?] end.
Qed.

Lemma claim_rows_wrote root ids q key rows s cb s' :
  (∀ x, x ∈ rows → works (s_db s) !! x.1 = Some x.2 ∧ w_runtime_key x.2 = key) →
  claim_rows root ids q key rows s = (Ok cb, s') →
  ∃ rows' membership makespan workers, wrote root q s cb s' rows' membership makespan workers.
Proof.
  intros Hrows H. unfold claim_rows in H. tx_step H. destruct x as [[rows' wc] mk].
  apply largest_prefix_sublist in Hs as (n&Hk&_). simpl in Hk. subst rows'.
  tx_inv H. exists (take n rows).
  rename select (claim_items _ _ _ = Ok _) into Hit.
  pose proof (claim_items_attempts _ _ _ _ Hit) as Ha. apply claim_items_Ok in Hit.
  rename select (claim_loop _ _ _ _ _ = _) into Hl.
  pose proof (grows_claim_loop _ _ _ _ _ _ _ Hl) as Hg.
  pose proof (claim_loop_members _ _ _ _ _ _ Hl) as Hms. apply claim_loop_claiming in Hl.
  rename select (insert_batch _ _ _ = _) into Hb.
  pose proof (grows_insert_batch _ _ _ _ _ Hb) as Hg'. apply insert_batch_Ok in Hb as (_&Hpos&->).
  rename select (content_put_json _ _ _ = _) into Hc.
  do 3 eexists. split; simpl; try done.
  - intros y Hy%elem_of_take. apply Hrows. destruct Hy as (i&Hy&_). by eapply list_elem_of_lookup_2.
  - by match goal with E : _new_id _ 0 = Ok _ |- _ => apply _required_text_Ok in E as [_ ?] end.
  - intros E. simpl in Hpos. by rewrite E in Hpos.
  - apply Hl.
  - unfold content_put_json, put_json in Hc. destruct (json_dumps true _) as [text|e] eqn:Ht; [|done].
    destruct (put_bytes root (codes_of_str text) None (s_files s)) as [r fs] eqn:Hp. simplify_eq.
    by eexists text, _, fs.
  - rewrite Hms. simpl. f_equal. unfold content_put_json in Hc.
    destruct (put_json root _ (s_files s)) as [o fs]. by simplify_eq.
  - eexists. rewrite (cl_batches _ _ _ _ _ _ Hl). simpl. split; [apply lookup_insert_eq|done].
Qed.

Lemma claim_wrote root ids args clock s cb s' :
  claim root ids args clock s = (Ok (Some cb), s') →
  ∃ q rows membership makespan workers, check_claim args clock = Ok q ∧
    wrote root q s cb s' rows membership makespan workers.
Proof.
  unfold claim. intros H. apply tx_bind_Ok in H as (q&s0&Hargs&H).
  apply tx_lift_Ok in Hargs as [Hargs ->]. exists q.
  apply _transaction_Ok in H. ctl_inv H. if_inv H; [by ctl_inv H|]. if_inv H; [by ctl_inv H|].
  ctl_inv H. destruct (select_runtime _ _) as [key|] eqn:Hkey; [|by ctl_inv H].
  if_inv H; [by ctl_inv H|]. tx_step H. simplify_eq.
  match goal with E : claim_rows _ _ _ _ _ _ = (Ok ?c, _) |- _ => rename c into cb0, E into Hr end.
  assert (Hcb : cb_runtime_key cb0 = key) by by apply claim_rows_Ok in Hr as [? _].
  apply claim_rows_wrote in Hr as (rows&membership&makespan&workers&W).
  - by exists rows, membership, makespan, workers.
  - intros x Hx%elem_of_take. destruct Hx as (i&Hx&_). apply list_elem_of_lookup_2 in Hx.
    apply elem_of_order_by, elem_of_sfilter in Hx as [Hx Hk]. apply elem_of_select in Hx as [Hx _].
    split; [done|]. unfold has_runtime in Hk. by apply String.eqb_eq in Hk.
Qed.

(** Every batch row refers to a file with the digest it records. *)
Definition enveloped (s : Store) : Prop := ∀ k b, batches (s_db s) !! k = Some b →
  ∃ c, s_files s !! b_envelope_path b = Some c ∧ hexdigest (sha256 c) = b_envelope_sha256 b.

Lemma moves_batch_inv db db' k b' :
  moves db db' → batches db' !! k = Some b' → ∃ b, batches db !! k = Some b ∧ same_batch b b'.
Proof.
  intros [Me _ Mc _] Hb'.
  assert (is_Some (counts db !! k)) as [z Hz].
  { rewrite <-Mc. unfold counts. by rewrite lookup_fmap, Hb'. }
  unfold counts in Hz. apply lookup_fmap_Some in Hz as (b&_&Hb).
  destruct (evolves_batches _ _ _ _ Me Hb) as (b1&Hb1&[S _]).
  rewrite Hb' in Hb1. injection Hb1 as <-. eauto.
Qed.

Lemma same_envelope (fs fs' : Files) b b' :
  fs ⊆ fs' → b_envelope_path b' = b_envelope_path b → b_envelope_sha256 b' = b_envelope_sha256 b →
  (∃ c, fs !! b_envelope_path b = Some c ∧ hexdigest (sha256 c) = b_envelope_sha256 b) →
  ∃ c, fs' !! b_envelope_path b' = Some c ∧ hexdigest (sha256 c) = b_envelope_sha256 b'.
Proof. intros Hf -> -> (c&?&?). exists c. split; [by eapply lookup_weaken|done]. Qed.

Lemma wrote_envelope root q s cb s' rows membership makespan workers :
  wrote root q s cb s' rows membership makespan workers →
  ∃ c, s_files s' !! cb_envelope_path cb = Some c ∧ hexdigest (sha256 c) = cb_envelope_sha256 cb.
Proof.
  intros [_ _ _ _ _ _ _ (text&so&fs&_&Hp&Hfs&<-&<-) _ _].
  apply put_bytes_cases in Hp as [(e&?&_)|(o&[= <-]&->&->&_&Hfile)]; [done|].
  destruct (stored _ _ (s_files s)) as [c|] eqn:Hs.
  - destruct Hfile as (->&?&_). exists c. split; [by eapply lookup_weaken|done].
  - subst fs. exists (codes_of_str text). split; [|done].
    eapply lookup_weaken; [|exact Hfs]. apply lookup_insert_eq.
Qed.

Lemma run_op_enveloped op s r s' :
  Inv (s_db s) → run_op op s = (r, s') → enveloped s → enveloped s'.
Proof.
  intros I H E k b' Hb'. pose proof (grows_run_op _ _ _ _ H) as Hf.
  destruct (run_op_cases _ _ _ _ I H) as [M|(q&cb&(root&ids&args&clock&->&Hc)&C)].
  - destruct (moves_batch_inv _ _ _ _ M Hb') as (b&Hb&S).
    eapply same_envelope; [exact Hf|apply S|apply S|by eapply E].
  - destruct (claim_wrote _ _ _ _ _ _ _ Hc) as (q'&rows&membership&makespan&workers&_&W).
    destruct C as [_ _ _ _ _ (b&Hbs&_&_&_&_&_&_&Hsha&Hpath&_)].
    rewrite Hbs in Hb'. apply lookup_insert_Some in Hb' as [[<- <-]|[_ Hb']].
    + rewrite Hpath, Hsha. by eapply wrote_envelope.
    + eapply same_envelope; [exact Hf|done|done|by eapply E].
Qed.

(** What every call preserves, starting from a bootstrapped store, holds of every
    reachable store. *)
Lemma reachable_ind (P : Store → Prop) :
  (∀ s, bootstrapped s → P s) →
  (∀ op s r s', Inv (s_db s) → run_op op s = (r, s') → P s → P s') →
  ∀ s, reachable s → P s.
Proof.
  intros H0 Hstep s (s0&Hb&H). assert (Inv (s_db s0)) as I by (rewrite Hb; apply Inv_empty).
  specialize (H0 s0 Hb). clear Hb. induction H as [|s1 s2 s3 (op&r&Hop) _ IH]; [done|]. apply IH.
  - by eapply Hstep.
  - by eapply run_op_inv.
Qed.

Lemma reachable_enveloped s : reachable s → enveloped s.
Proof.
  apply reachable_ind; [|intros; by eapply run_op_enveloped].
  intros s0 E k b Hb. rewrite E in Hb. simpl in Hb. by rewrite lookup_empty in Hb.
Qed.

(** The members of every batch are as many as its row says and hash to its digest. *)
Definition digested (db : Db) : Prop := ∀ k b, batches db !! k = Some b →
  _membership_sha256 (member_claimed <$> members_of k db) = Ok (b_membership_sha256 b) ∧
  Z.of_nat (length (members_of k db)) = b_item_count b.

Lemma run_op_digested op s r s' :
  Inv (s_db s) → run_op op s = (r, s') → digested (s_db s) → digested (s_db s').
Proof.
  intros I H D k b' Hb'.
  destruct (run_op_cases _ _ _ _ I H) as [M|(q&cb&(root&ids&args&clock&->&Hc)&C)].
  - destruct (moves_batch_inv _ _ _ _ M Hb') as (b&Hb&[]).
    unfold members_of. rewrite (mv_members _ _ M), sb_membership, sb_count. by apply D.
  - destruct (claim_wrote _ _ _ _ _ _ _ Hc) as (q'&rows&membership&makespan&workers&_&W).
    destruct (members_of_claim (cb_batch_id cb) (cb_items cb) (s_db s) (s_db s')) as [E1 E2].
    + intros m Hm. destruct (core_member _ (inv_core _ I) m Hm) as (x&Hx&<-&_).
      destruct (core_attempt _ (inv_core _ I) _ _ Hx) as [_ [y Hy]]. intros E.
      rewrite E, (cd_fresh _ _ _ _ C) in Hy. done.
    + apply W.
    + destruct (cd_batch _ _ _ _ C) as (b&Hbs&_&_&_&_&Hn&_). pose proof Hb' as Hb0. rewrite Hbs in Hb'.
      apply lookup_insert_Some in Hb' as [[<- <-]|[Hne Hb']].
      * rewrite E1. destruct (wr_batch _ _ _ _ _ _ _ _ _ W) as (b0&Hb1&_&_&<-&_).
        rewrite Hb0 in Hb1. injection Hb1 as <-. split; [apply W|].
        by rewrite Hn, <-E1, length_fmap.
      * rewrite E2 by done. by apply D.
Qed.

Lemma reachable_digested s : reachable s → digested (s_db s).
Proof.
  apply (reachable_ind (λ s, digested (s_db s))); [|intros; by eapply run_op_digested].
  intros s0 E k b Hb. rewrite E in Hb. simpl in Hb. by rewrite lookup_empty in Hb.
Qed.

(** The envelope of a claim is loaded at any later time: the batch row keeps its
    reference, and the file keeps its content. *)
Lemma wrote_loads root q s cb s' rows membership makespan workers s2 :
  let env := claim_envelope q (cb_batch_id cb) (cb_runtime_key cb) membership
      (cb_lease_expires_at cb) makespan workers rows (cb_items cb) in
  Inv (s_db s') →
  s_files s !! cb_envelope_path cb = None → json_unique env = true →
  wrote root q s cb s' rows membership makespan workers → rtc ctl_step s' s2 →
  load_claim_envelope_with_digest (VStr (cb_batch_id cb)) s2
    = (Ok (json_read env, cb_envelope_sha256 cb), s2).
Proof.
  intros env I Hnew Hu W H.
  destruct W as [_ _ Hid _ _ _ _ (text&so&fs&Ht&Hp&Hfs&Epath&Esha) _ (b&Hb&Bp&Bs&_&_)].
  fold env in Ht. apply put_bytes_cases in Hp as [(e&?&_)|(o&[= <-]&Es&Ep&_&Hfile)]; [done|].
  assert (Hf : s_files s2 !! cb_envelope_path cb = Some (codes_of_str text)).
  { eapply lookup_weaken; [|by apply (steps_files s')]. eapply lookup_weaken; [|exact Hfs].
    unfold stored in Hfile. rewrite <-Ep, Epath, Hnew in Hfile. rewrite Hfile. apply lookup_insert_eq. }
  destruct (steps_evolves _ _ I H) as [E _].
  destruct (evolves_batches _ _ _ _ E Hb) as (b2&Hb2&[[] _]).
  assert (Hget : get_batch (cb_batch_id cb) s2 = (Ok b2, s2)).
  { unfold get_batch, get_db, mbind, tx_bind. by rewrite Hb2. }
  assert (Hreq : _required_text (VStr (cb_batch_id cb)) = Ok (cb_batch_id cb)) by (simpl; by rewrite Hid).
  assert (Hdig : b_envelope_sha256 b2 = cb_envelope_sha256 cb) by congruence.
  assert (Hpath : b_envelope_path b2 = cb_envelope_path cb) by congruence.
  assert (Hcontent : hexdigest (sha256 (codes_of_str text)) = cb_envelope_sha256 cb) by congruence.
  assert (Hne : String.eqb (cb_envelope_sha256 cb) "" = false).
  { rewrite <-Hcontent. apply String.eqb_neq. intros E0.
    pose proof (is_sha256_length _ (is_sha256_digest (codes_of_str text))) as Hl.
    rewrite E0 in Hl. discriminate Hl. }
  assert (Hread : read_claim_envelope (cb_batch_id cb) (cb_envelope_path cb) (cb_envelope_sha256 cb)
    (s_files s2) = Ok (json_read env)).
  { unfold read_claim_envelope. rewrite Hf. cbn [mbind result_bind].
    rewrite Hcontent, bool_decide_eq_true_2 by done. cbn [mbind result_bind require].
    rewrite (json_loads_bytes_dumps _ _ _ Hu Ht). cbn [mbind result_bind].
    assert (Hn : NoDup (match env with VDict d => d.*1 | _ => [] end)).
    { unfold env, claim_envelope in *. cbn [json_unique] in Hu.
      apply andb_true_iff in Hu as [Hu _]. by apply bool_decide_eq_true in Hu. }
    unfold env, claim_envelope in *.
    destruct (json_read_dict _ Hn) as (d'&->&_&Hd). unfold attr_get, dict_get. cbn [mbind result_bind].
    rewrite !Hd.
    match goal with |- context [dict_lookup "schema_version" ?d] =>
      change (dict_lookup "schema_version" d) with (Some (VInt CLAIM_ENVELOPE_VERSION));
      change (dict_lookup "batch_id" d) with (Some (VStr (cb_batch_id cb))) end.
    simpl. by rewrite String.eqb_refl. }
  unfold load_claim_envelope_with_digest, load_claim_envelope, get_files.
  rewrite Hreq. unfold mbind, tx_bind, tx_lift, tx_require, tx_lift. rewrite Hget, Hreq. cbv beta iota.
  rewrite Hget. cbv beta iota zeta. cbn [default from_option].
  rewrite Hdig, Hpath. unfold text_or. rewrite Hne. rewrite !bool_decide_eq_true_2 by done.
  cbn [andb require]. by rewrite Hread.
Qed.
