(* ===== verification/ControlTotal.v ===== *)
(** * Operations of the control store that succeed, and committed batches

    Forward reasoning on the loops: in a reachable store a sealed batch commits
    within its lease and recovery always completes, with the effect on every
    row.  Then what sealing records, and the outcome of committed batches in every
    reachable store. *)
From S2P Require Export Prelude PyVal ControlTypes ControlClaim ControlProcess ControlAdmin ControlReconcile ControlInv ControlSafety ControlSpec ControlFiles.

(** ** Statements that succeed *)

Lemma update_work_run k g f w s :
  works (s_db s) !! k = Some w → g w = true → work_check (f w) = true →
  update_work k g f s = (Ok 1%Z, with_db s (set_work k (f w) (s_db s))).
Proof.
  intros Hw Hg Hc. unfold update_work, get_db, mbind, tx_bind. rewrite Hw, Hg.
  unfold tx_require, require. by rewrite Hc.
Qed.

Lemma update_attempt_run a g f x s :
  attempts (s_db s) !! a = Some x → g x = true →
  update_attempt a g f s = (Ok tt, with_db s (set_attempt a (f x) (s_db s))).
Proof.
  intros Hx Hg. unfold update_attempt, modify_db, tx_modify. by rewrite Hx, Hg.
Qed.

Lemma insert_publication_run f s :
  (∀ p, p ∈ publications (s_db s) →
     p_work_id p ≠ p_work_id (f (publication_next (s_db s))) ∧
     p_attempt_id p ≠ p_attempt_id (f (publication_next (s_db s)))) →
  insert_publication f s = (Ok (publication_next (s_db s)), with_db s (let db := s_db s in
    {| db with publications := publications db ++ [f (publication_next db)];
               publication_next := (publication_next db + 1)%Z |})).
Proof.
  intros H. unfold insert_publication, get_db, mbind, tx_bind, tx_require, require.
  assert (forallb (λ x, negb (bool_decide (p_work_id x = p_work_id (f (publication_next (s_db s))))
    || bool_decide (p_attempt_id x = p_attempt_id (f (publication_next (s_db s))))))
    (publications (s_db s)) = true) as ->; [|done].
  apply forallb_forall. intros p Hp%list_elem_of_In. destruct (H p Hp) as [H1 H2].
  by rewrite !bool_decide_eq_false_2.
Qed.

(** Rows that leave the lease pass the CHECK constraint. *)
Lemma unleased_check w w' :
  work_check w = true → w_status w' ≠ W_LEASED →
  w_duration_seconds w' = w_duration_seconds w → w_max_attempts w' = w_max_attempts w →
  w_original_max_attempts w' = w_original_max_attempts w →
  w_lease_owner w' = None → w_lease_attempt_id w' = None → w_lease_expires_at w' = None →
  work_check w' = true.
Proof.
  unfold work_check. intros Hck Hn Ed Em Eo E1 E2 E3. rewrite Ed, Em, Eo, E1, E2, E3. btrue.
  repeat match goal with E : ?x = true |- context [?x] => rewrite E end.
  rewrite !(proj2 (Z.ltb_lt _ _)) by done. by destruct (w_status w').
Qed.

Lemma release_check now e w :
  work_check w = true → work_check (release_work (retry_outcome w) now e w) = true.
Proof.
  intros H. apply (unleased_check w); try done.
  simpl. by destruct (retry_outcome_cases w) as [[-> _]|[-> _]].
Qed.

Lemma succeed_check a n now w :
  work_check w = true → work_check (succeed_work a n now w) = true.
Proof. intros H. by apply (unleased_check w). Qed.

(** ** Commit *)

Lemma _transaction_run {A} (m : Ctl A) s a s' :
  m s = (Ok a, s') → _transaction m s = (Ok a, s').
Proof. unfold _transaction, transaction. by intros ->. Qed.

(** A call that raises before it writes. *)
Lemma _transaction_raise {A} (m : Ctl A) s e :
  m s = (Err e, s) → _transaction m s = (Err e, s).
Proof. unfold _transaction, transaction. intros ->. by destruct s. Qed.

(** One sealed attempt whose work it leases commits. *)
Lemma commit_attempt_run k now a at_ w s :
  core (s_db s) → attempts (s_db s) !! a = Some at_ → works (s_db s) !! a_work_id at_ = Some w →
  a_status at_ = A_SEALED →
  _commit_attempt k now (a, at_, w) s =
    if bool_decide (a_terminal_succeeded at_ = Some true)
    then (Ok (Some (publication_next (s_db s))), with_db s (published_db k now a at_ w (s_db s)))
    else (Ok None, with_db s (failed_db now a at_ w (s_db s))).
Proof.
  intros C Hat Hw Hse. assert (live at_) as Hl by (by right).
  destruct (core_live _ C a at_ Hat Hl) as (w1&Hw1&Hst&Hla). simplify_eq.
  destruct (core_lease _ C _ _ Hw Hst) as (a'&at'&?&?&_&Hf&_). simplify_eq.
  pose proof (core_work _ C _ _ Hw) as Hwf. destruct (leased_uncommitted w Hwf Hst) as [Hc _].
  destruct (core_sealed _ C a at_ Hat Hse) as ([op Hop]&[sh Hsh]&_).
  assert (Hown : owns_fence a (a_fence at_) w = true) by (by apply owns_fence_true).
  assert (Hv : commit_valid (a, at_, w) = true).
  { unfold commit_valid. rewrite Hown, Hse, Hc, Hop, Hsh. done. }
  unfold _commit_attempt. cbv beta iota.
  eapply tx_bind_run; [by unfold tx_require, require; rewrite Hv|].
  case_bool_decide as Ht; simpl.
  - eapply tx_bind_run; [apply insert_publication_run|].
    + intros p Hp. simpl. destruct (core_publication _ C p Hp) as (wp&xp&Hwp&Hcp&Hxp&_).
      destruct (core_pointer _ C _ _ _ Hwp Hcp) as (xp'&_&Hxp'&_&Hsp&_).
      split; intros E; [rewrite E in Hwp; congruence|]. rewrite E in Hxp'. congruence.
    + eapply tx_bind_run; [apply (update_work_run _ _ _ w); [done..|by apply succeed_check, Hwf]|].
      eapply tx_bind_run; [done|]. eapply tx_bind_run; [by eapply update_attempt_run|]. done.
  - eapply tx_bind_run.
    + unfold _commit_failed_attempt. cbv beta iota.
      eapply tx_bind_run; [apply (update_work_run _ _ _ w); [done..|by apply release_check, Hwf]|].
      eapply tx_bind_run; [done|]. by apply update_attempt_run.
    + done.
Qed.

(** How a committed row ends. *)
Definition commit_outcome (k : string) (now : Float) (db0 db : Db) (a : string) : Prop :=
  ∀ at_ w, attempts db0 !! a = Some at_ → works db0 !! a_work_id at_ = Some w →
  if bool_decide (a_terminal_succeeded at_ = Some true)
  then attempts db !! a = Some (succeeded_attempt at_) ∧
       ∃ n, works db !! a_work_id at_ = Some (succeed_work a n now w) ∧
         publication k now (a, at_, w) n ∈ publications db
  else attempts db !! a = Some (failed_attempt at_) ∧
       works db !! a_work_id at_ = Some (release_work (retry_outcome w) now "processing failed" w).

(** The sequences that the loop returned, against the publications it made. *)
Record committed_so_far (k : string) (now : Float) (db0 : Db) (done : list string)
    (rs : list (option Z)) (db : Db) : Prop := {
  cf_committing : committing db0 k done db;
  cf_outcome : ∀ a, a ∈ done → commit_outcome k now db0 db a;
  cf_publications : ∃ ps, publications db = publications db0 ++ ps ∧
    Forall (λ p, p_batch_id p = k) ps ∧ omap id rs = p_publication_sequence <$> ps;
}.

(** Sealed rows of an active batch: their works hold distinct leases. *)
Lemma distinct_works db a1 a2 x1 x2 :
  core db → attempts db !! a1 = Some x1 → attempts db !! a2 = Some x2 → live x1 → live x2 →
  a1 ≠ a2 → a_work_id x1 ≠ a_work_id x2.
Proof.
  intros C H1 H2 L1 L2 Hne E.
  destruct (core_live _ C a1 x1 H1 L1) as (w1&Hw1&_&?).
  destruct (core_live _ C a2 x2 H2 L2) as (w2&Hw2&_&?). rewrite E in Hw1. congruence.
Qed.

(** The outcome of a row is not touched by a row of another work. *)
Lemma commit_outcome_frame k now db0 db db' a b at_ x' w' :
  commit_outcome k now db0 db a → attempts db0 !! a = Some at_ → a ≠ b →
  attempts db' = <[b := x']> (attempts db) → works db' = <[a_work_id x' := w']> (works db) →
  a_work_id x' ≠ a_work_id at_ → (∀ p, p ∈ publications db → p ∈ publications db') →
  commit_outcome k now db0 db' a.
Proof.
  intros H Hat Hne Ea Ew Hwk Hsub y w Hy Hw. rewrite Hat in Hy. injection Hy as <-.
  specialize (H at_ w Hat Hw). rewrite Ea, Ew, !lookup_insert_ne by done.
  case_bool_decide; [|done]. destruct H as [? (n&?&Hp)]. eauto.
Qed.

#[local] Arguments _commit_attempt : simpl never.

(** The commit loop of a sealed batch succeeds. *)
Lemma commit_loop_run k now db0 b s :
  Inv db0 → s_db s = db0 → batches db0 !! k = Some b → b_status b = B_SEALED →
  let rows := order_by joined_order (joined k db0) in
  ∃ rs s', tx_map (_commit_attempt k now) rows s = (Ok rs, s') ∧
    committed_so_far k now db0 ((λ x, x.1.1) <$> rows) rs (s_db s').
Proof.
  intros [C K] Es Hb Hse rows.
  assert (Hsealed : ∀ x t, attempts db0 !! x = Some t → a_batch_id t = k → a_status t = A_SEALED).
  { intros x t Hx Ht. specialize (K k b Hb x t Hx Ht). rewrite Hse in K. by destruct K. }
  eapply (tx_map_total (λ done rs s1,
    committed_so_far k now db0 ((λ x, x.1.1) <$> done) rs (s_db s1))).
  - intros done bs [[a at_] w] rest s1 Hl [Co Out (ps&Eps&Fps&Ers)]. rewrite fmap_app. simpl.
    assert (Hin : (a, at_, w) ∈ joined k db0).
    { rewrite <-(elem_of_order_by joined_order). fold rows. rewrite Hl. set_solver. }
    apply elem_of_joined in Hin as (Hat0&Hbk&Hw0). simpl in *.
    assert (Hnd : a ∉ (λ x, x.1.1) <$> done).
    { pose proof (NoDup_joined k db0) as Hnd. rewrite <-(order_by_Permutation joined_order) in Hnd.
      fold rows in Hnd. rewrite Hl, fmap_app in Hnd.
      apply NoDup_app in Hnd as (_&Hnd&_). intros Hd. specialize (Hnd _ Hd). set_solver. }
    destruct (co_rest _ _ _ _ Co a at_ w) as [Hat Hw]; [done..|].
    pose proof (commit_attempt_run k now a at_ w s1 (co_core _ _ _ _ Co) Hat Hw
      (Hsealed _ _ Hat0 Hbk)) as Hrun.
    assert (Hframe : ∀ x db' x' w', x ∈ (λ x, x.1.1) <$> done → a_work_id x' = a_work_id at_ →
      attempts db' = <[a := x']> (attempts (s_db s1)) →
      works db' = <[a_work_id x' := w']> (works (s_db s1)) →
      (∀ p, p ∈ publications (s_db s1) → p ∈ publications db') →
      commit_outcome k now db0 db' x).
    { intros x db' x' w' Hx Ewk Ea Ew Hsub.
      assert (x ≠ a) by (by intros ->). pose proof (Out x Hx) as Hox.
      apply list_elem_of_fmap in Hx as ([[x0 y] wy]&->&Hx). simpl in *.
      assert (Hin : (x0, y, wy) ∈ joined k db0).
      { rewrite <-(elem_of_order_by joined_order). fold rows. rewrite Hl. set_solver. }
      apply elem_of_joined in Hin as (Hy&Hyk&_). simpl in *.
      eapply (commit_outcome_frame _ _ _ _ _ _ a); [done..| |done]. rewrite Ewk.
      apply not_eq_sym. eapply (distinct_works db0); [done..| | |done]; right; eauto. }
    case_bool_decide as Ht; eexists _, _; (split; [exact Hrun|]);
      (split; [eapply committing_step; try done; intros; right; eauto| |]); simpl.
    + intros x [Hx| ->%list_elem_of_singleton]%elem_of_app.
      * eapply (Hframe x _ (succeeded_attempt at_)); [done..|]. simpl. set_solver.
      * intros y wy Hy Hwy. simplify_eq. rewrite bool_decide_eq_true_2 by done. simpl.
        rewrite !lookup_insert_eq. split; [done|]. eexists. split; [done|]. set_solver.
    + exists (ps ++ [publication k now (a, at_, w) (publication_next (s_db s1))]).
      rewrite Eps, app_assoc. split; [done|]. split; [by apply Forall_app_2; [|constructor]|].
      by rewrite omap_app, fmap_app, Ers.
    + intros x [Hx| ->%list_elem_of_singleton]%elem_of_app.
      * eapply (Hframe x _ (failed_attempt at_)); [done..|]. done.
      * intros y wy Hy Hwy. simplify_eq. rewrite bool_decide_eq_false_2 by done. simpl.
        by rewrite !lookup_insert_eq.
    + exists ps. split; [done|]. split; [done|]. by rewrite omap_app, Ers, app_nil_r.
  - rewrite Es. split.
    + split; try done; [by auto|set_solver|]. intros a at_ Hat. by exists at_.
    + simpl. set_solver.
    + exists []. by rewrite app_nil_r.
Qed.

(** The rows of the join number the enrolled attempts. *)
Lemma sfilter_Permutation {A} (f : A → bool) (l l' : list A) :
  l ≡ₚ l' → List.filter f l ≡ₚ List.filter f l'.
Proof.
  induction 1; simpl; repeat case_match; try done; try by constructor.
  by etrans.
Qed.

Lemma length_batch_attempts k db : length (batch_attempts k db) = enrolled k db.
Proof.
  unfold batch_attempts, enrolled, enrollment. generalize (attempts db). intros m.
  induction m as [|a x m Hn IH] using map_ind; [done|].
  assert (Hf : (a_batch_id <$> m) !! a = None) by (by rewrite lookup_fmap, Hn).
  rewrite (sfilter_Permutation _ _ _ (map_to_list_insert _ _ _ Hn)), fmap_insert. simpl.
  case_bool_decide as E.
  - rewrite map_filter_insert_True, map_size_insert_None; [simpl; lia| |done].
    apply map_lookup_filter_None. by left.
  - by rewrite map_filter_insert_False, delete_id.
Qed.

Lemma omap_all_length {A B} (f : A → option B) l :
  (∀ x, x ∈ l → is_Some (f x)) → length (omap f l) = length l.
Proof.
  induction l as [|x l IH]; intros H; [done|]. destruct (H x) as [y Hy]; [by left|].
  simpl. rewrite Hy. simpl. f_equal. apply IH. intros z ?. apply H. by right.
Qed.

Lemma length_joined k db : core db → length (joined k db) = enrolled k db.
Proof.
  intros C. rewrite <-length_batch_attempts. apply omap_all_length.
  intros [a x] [Hx _]%elem_of_batch_attempts. simpl in *.
  destruct (core_attempt _ C a x Hx) as [(w&->&_) _]. simpl. eauto.
Qed.

(** No publication of a batch that is still active. *)
Lemma active_unpublished db k b p :
  Inv db → batches db !! k = Some b → active b → p ∈ publications db → p_batch_id p ≠ k.
Proof.
  intros [C K] Hb Ha Hp E. destruct (publication_attempt _ p C Hp) as (x&Hx&Hs&Hk&_).
  destruct (coupled_live _ _ _ _ _ (K k b Hb) Ha Hx) as [|]; [congruence..].
Qed.

Lemma order_by_increasing (l : list Z) : StronglySorted Z.lt l → order_by Z.leb l = l.
Proof.
  intros H. apply order_by_sorted.
  - intros x y. rewrite !Is_true_true. lia.
  - intros x y z. lia.
  - intros x y _ _. lia.
  - rewrite <-(list_fmap_id l). eapply StronglySorted_fmap; [|exact H].
    intros x y ?. apply Is_true_true. simpl. lia.
Qed.

(** The publications of a batch, as a repeated commit reads them. *)
Lemma batch_sequences_app k db db0 ps :
  core db → publications db = publications db0 ++ ps →
  (∀ p, p ∈ publications db0 → p_batch_id p ≠ k) → Forall (λ p, p_batch_id p = k) ps →
  batch_sequences k db = p_publication_sequence <$> ps.
Proof.
  intros C E Hold Hnew. unfold batch_sequences.
  assert (List.filter (λ p, bool_decide (p_batch_id p = k)) (publications db) = ps) as ->.
  { rewrite E, List.filter_app. replace (List.filter _ (publications db0)) with (@nil PublicationRow).
    - simpl. clear -Hnew. induction Hnew as [|p ps Hp _ IH]; simpl; [done|].
      by rewrite bool_decide_eq_true_2, IH.
    - clear -Hold. induction (publications db0) as [|p l IH]; simpl; [done|].
      rewrite bool_decide_eq_false_2; [|apply Hold; left]. apply IH. intros q ?. apply Hold. by right. }
  apply order_by_increasing. destruct (core_sequences _ C) as [Hss _]. rewrite E, fmap_app in Hss.
  by apply StronglySorted_app_1_r in Hss.
Qed.

(** A sealed batch commits within its lease. *)
Lemma commit_batch_run v clock k now b s :
  Inv (s_db s) → counted (s_db s) → _required_text v = Ok k → _finite clock = Ok now →
  batches (s_db s) !! k = Some b → b_status b = B_SEALED → fleb (b_lease_expires_at b) now = false →
  ∃ seqs s', commit_batch v clock s = (Ok seqs, s') ∧
    batches (s_db s') = <[k := committed_batch now b]> (batches (s_db s)) ∧
    (∀ a at_, attempts (s_db s) !! a = Some at_ → a_batch_id at_ = k →
       commit_outcome k now (s_db s) (s_db s') a) ∧
    batch_sequences k (s_db s') = seqs.
Proof.
  intros I N Hv Hc Hb Hse Hlease. pose proof (inv_core _ I) as C.
  destruct (commit_loop_run k now (s_db s) b s I eq_refl Hb Hse) as (rs&s1&Hrun&[Co Out (ps&Eps&Fps&Ers)]).
  pose proof (co_batches _ _ _ _ Co) as Ebs.
  exists (omap id rs), (with_db s1 (set_batch k (committed_batch now b) (s_db s1))). split_and!.
  - unfold commit_batch. rewrite Hv. simpl. rewrite Hc. simpl.
    eapply tx_bind_run; [done|]. cbv beta iota. apply _transaction_run. eapply tx_bind_run.
    + unfold get_batch, get_db. eapply tx_bind_run; [done|]. by rewrite Hb.
    + eapply tx_bind_run; [done|]. rewrite Hse. simpl. rewrite Hlease. simpl.
      eapply tx_bind_run; [done|]. eapply tx_bind_run.
      * unfold tx_require, require. rewrite (proj2 (Z.eqb_eq _ _)); [done|].
        rewrite (N k b Hb). f_equal. rewrite <-(length_joined k _ C).
        apply Permutation_length, order_by_Permutation.
      * eapply tx_bind_run; [exact Hrun|]. unfold update_batch, modify_db, tx_modify.
        eapply tx_bind_run; [done|]. by rewrite Ebs, Hb, Hse.
  - simpl. by rewrite Ebs.
  - intros a at_ Hat Hk. simpl. apply Out.
    destruct (core_attempt _ C a at_ Hat) as [(w&Hw&_) _].
    apply list_elem_of_fmap. exists (a, at_, w). split; [done|].
    by apply elem_of_order_by, elem_of_joined.
  - simpl. rewrite Ers. eapply batch_sequences_app; [|exact Eps| |done].
    + apply (core_ext (s_db s1)); try done; [apply Co|]. intros j Hj. simpl.
      rewrite lookup_insert_is_Some. destruct (decide (k = j)); auto.
    + intros p Hp. eapply active_unpublished; [done..| |done]. by right.
Qed.

(** ** Recovery *)

Lemma recover_row_run t k w s :
  core (s_db s) → works (s_db s) !! k = Some w → w_status w = W_LEASED →
  ∃ a at_, w_lease_attempt_id w = Some a ∧ attempts (s_db s) !! a = Some at_ ∧
    recover_row t (k, w) s = (Ok tt, with_db s (recovered_db t k w a at_ (s_db s))).
Proof.
  intros C Hw Hst. destruct (core_lease _ C k w Hw Hst) as (a&at_&Hla&Hat&Hk&Hf&Hl).
  exists a, at_. split_and!; [done..|]. unfold recover_row. rewrite Hla. simpl.
  eapply tx_bind_run.
  { eapply update_attempt_run; [done|]. by apply live_attempt_true. }
  eapply tx_bind_run.
  { apply (update_work_run _ _ _ w); [done| |].
    - by apply owns_fence_true.
    - apply release_check. by apply (core_work _ C _ _ Hw). }
  done.
Qed.

(** How an expired work ends. *)
Definition recovered_outcome (t : Float) (db0 db : Db) (k : string) : Prop :=
  ∀ w, works db0 !! k = Some w →
    works db !! k = Some (release_work (retry_outcome w) t "lease expired" w).

Lemma recover_loop_run t db0 s :
  Inv db0 → s_db s = db0 →
  ∃ s', tx_for (recover_row t) (expired_work t db0) s = (Ok tt, s') ∧
    recovering t db0 (expired_work t db0).*1 (s_db s') ∧
    (∀ k, k ∈ (expired_work t db0).*1 → recovered_outcome t db0 (s_db s') k) ∧
    publications (s_db s') = publications db0.
Proof.
  intros [C K] Es.
  apply (tx_for_total (λ done s1, recovering t db0 done.*1 (s_db s1) ∧
    (∀ k, k ∈ done.*1 → recovered_outcome t db0 (s_db s1) k) ∧
    publications (s_db s1) = publications db0)).
  - intros done [k w] rest s1 Hl (R&Out&Hp). rewrite fmap_app. simpl.
    assert (Hin : (k, w) ∈ expired_work t db0) by (rewrite Hl; set_solver).
    apply elem_of_expired_work in Hin as [Hw0 He].
    assert (Hnd : k ∉ done.*1).
    { pose proof (NoDup_expired_work t db0) as Hnd. rewrite Hl, fmap_app in Hnd.
      apply NoDup_app in Hnd as (_&Hnd&_). intros Hd. specialize (Hnd _ Hd). set_solver. }
    pose proof (rc_works _ _ _ _ R k w Hw0 Hnd) as Hw.
    pose proof (proj1 (lease_expired_true t w) He) as (Hst&_).
    destruct (recover_row_run t k w s1 (rc_core _ _ _ _ R) Hw Hst) as (a&at_&Hla&Hat&Hrun).
    eexists. split; [exact Hrun|]. split; [by eapply recovering_step|]. simpl. split; [|done].
    intros j [Hj| ->%list_elem_of_singleton]%elem_of_app x Hx; simpl.
    + rewrite lookup_insert_ne by (intros ->; done). by apply Out.
    + simplify_eq/=. by rewrite lookup_insert_eq.
  - rewrite Es. split; [|split; [simpl; set_solver|done]]. split; try done; [set_solver|].
    intros a at_ Hat. exists at_. split_and!; [done..|by left].
Qed.

Lemma count_if_split {A} (f : A → bool) l :
  Z.of_nat (length l) = (count_if (negb ∘ f) l + count_if f l)%Z.
Proof.
  unfold count_if. induction l as [|x l IH]; [done|]. cbn [List.filter].
  unfold compose at 1. destruct (f x); cbn [negb length]; lia.
Qed.

(** What the argument checks leave. *)
Lemma finite_Ok v x : _finite v = Ok x → fisnan x = false.
Proof.
  unfold _finite. destruct v; try done.
  - unfold py_float_of_int. case_match eqn:E; [|done]. intros [= <-]. by apply fisfinite_not_nan.
  - case_match; [|done]. intros [= <-]. by apply fisfinite_not_nan.
Qed.

Lemma positive_finite_Ok v x :
  _positive_finite v = Ok x → fltb fzero x = true ∧ fisnan x = false.
Proof.
  unfold _positive_finite. intros H. res_inv H. pose proof (finite_Ok _ _ Hs) as Hn.
  destruct (fleb x0 fzero) eqn:E; [done|]. injection H as <-. split; [|done].
  rewrite fltb_negb_fleb; [by rewrite E|done..].
Qed.

(** A successful registration leaves a row with the identity of the request. *)
Lemma register_Ok_row a p rt du cf rel mx av clock s r s1 q sha now :
  check_register a p rt du cf rel mx av clock = Ok (q, sha, now) →
  register a p rt du cf rel mx av clock s = (Ok r, s1) →
  ∃ w, works (s_db s1) !! q_work_id q = Some w ∧
    identity_eqb (row_identity w) (identity_of q sha) = true ∧ r = _registered (q_work_id q) w.
Proof.
  intros Hc H. unfold register in H. apply tx_bind_Ok in H as (x&s0&[Hx ->]%tx_lift_Ok&H).
  rewrite Hc in Hx. injection Hx as <-. apply _transaction_Ok in H.
  unfold register_row, insert_work in H. ctl_inv H.
  destruct (works (s_db s) !! q_work_id q) as [w|] eqn:Hw; ctl_inv H; [by exists w|].
  exists (new_work q sha now). simpl. rewrite lookup_insert_eq. split_and!; try done. btrue.
  match goal with E : work_check _ = true |- _ => unfold work_check in E; simpl in E end. btrue.
  match goal with E : fltb fzero _ = true |- _ => apply fltb_not_nan in E as [_ Hn] end.
  unfold identity_eqb, row_identity, identity_of. simpl. rewrite feqb_refl by done.
  by rewrite !bool_decide_eq_true_2.
Qed.

(** ** Reconciliation of tables that satisfy the invariant *)

Lemma omap_nil {A B} (f : A → option B) l : (∀ x, x ∈ l → f x = None) → omap f l = [].
Proof.
  induction l as [|x l IH]; intros H; [done|]. simpl. rewrite H by left.
  apply IH. intros y ?. apply H. by right.
Qed.

Lemma find_unique {A} (f : A → bool) l x :
  x ∈ l → f x = true → (∀ y, y ∈ l → f y = true → y = x) → List.find f l = Some x.
Proof.
  intros Hx Hf Hu. destruct (List.find f l) as [y|] eqn:E.
  - apply List.find_some in E as [Hy%list_elem_of_In Hfy]. by rewrite (Hu y Hy Hfy).
  - exfalso. apply list_elem_of_In in Hx. rewrite (List.find_none _ _ E x Hx) in Hf. done.
Qed.

Lemma existsb_false {A} (f : A → bool) l : (∀ x, x ∈ l → f x = false) → existsb f l = false.
Proof.
  intros H. apply not_true_is_false. intros (x&Hx%list_elem_of_In&Hf)%existsb_exists.
  rewrite (H x Hx) in Hf. done.
Qed.

Lemma core_invalid_pointers db : core db → invalid_pointers db = [].
Proof.
  intros C. apply omap_nil. intros [k w] Hk%elem_of_map_to_list. simpl.
  destruct (w_committed_attempt_id w) as [a|] eqn:Hc; [|done].
  destruct (core_pointer _ C k w a Hk Hc) as (x&p&Hx&Hwk&Hs&Hp&Ep&Ea&Esq).
  unfold pointer_invalid. rewrite Hx, !bool_decide_eq_true_2 by done. simpl.
  erewrite (find_unique _ _ p); [|done|by rewrite !bool_decide_eq_true_2|].
  - by rewrite Esq, Z.eqb_refl.
  - intros q Hq Hf. btrue. eapply (NoDup_fmap_eq p_work_id); [apply C|done|done|congruence].
Qed.

Lemma core_missing_pointers db : core db → missing_pointers db = [].
Proof.
  intros C. apply omap_nil. intros [k w] Hk%elem_of_map_to_list. simpl.
  unfold pointer_missing. case_bool_decide as Hc; [|done]. simpl.
  rewrite bool_decide_eq_false_2; simpl.
  - rewrite !existsb_false; [done| |].
    + intros [a x] Hx%elem_of_map_to_list. simpl. apply not_true_is_false. intros Hb. btrue.
      destruct (core_succeeded _ C a x Hx) as (w'&?&?); [done|]. congruence.
    + intros p Hp. apply bool_decide_eq_false_2. intros E.
      destruct (core_publication _ C p Hp) as (w'&?&?&?&_). congruence.
  - intros Hs. apply (wf_done _ (core_work _ C k w Hk)) in Hs. rewrite Hc in Hs. by destruct Hs.
Qed.

Lemma core_orphan_outputs db : core db → orphan_outputs db = [].
Proof.
  intros C. apply omap_nil. intros o Ho. destruct (core_output _ C o Ho) as (x&->&E).
  by rewrite bool_decide_eq_true_2.
Qed.

Lemma NoDup_count {A B} `{EqDecision B} (f : A → B) l k :
  NoDup (f <$> l) → (length (List.filter (λ x, bool_decide (f x = k)) l) ≤ 1)%nat.
Proof.
  induction l as [|x l IH]; simpl; [lia|]. intros [Hx Hl]%NoDup_cons. specialize (IH Hl).
  case_bool_decide as E; [|done]. simpl.
  assert (List.filter (λ x, bool_decide (f x = k)) l = []) as ->; [|simpl; lia].
  clear IH Hl. induction l as [|y l IH]; [done|]. simpl in *.
  rewrite bool_decide_eq_false_2 by set_solver. apply IH. set_solver.
Qed.

Lemma core_duplicate_outputs db : core db → duplicate_outputs db = [].
Proof.
  intros C. apply omap_nil. intros k _. unfold count_if.
  pose proof (NoDup_count output_identity (output_records db) k (core_output_once _ C)).
  rewrite (proj2 (Z.ltb_ge _ _)); [done|lia].
Qed.

Lemma core_attempt_mismatches db k : core db → attempt_mismatches db k = [].
Proof.
  intros C. unfold attempt_mismatches.
  assert (∀ l, (∀ x, x ∈ l → x ∈ batch_attempts k db) → List.filter (λ x : string * AttemptRow,
    match List.find (λ m, bool_decide (m_attempt_id m = x.1)) (batch_members db) with
    | Some m => negb (bool_decide (m_work_id m = a_work_id x.2) && (m_fence m =? a_fence x.2)%Z
                      && bool_decide (m_payload_sha256 m = a_payload_sha256 x.2))
    | None => true end) l = []) as Hnil; [|by rewrite Hnil].
  induction l as [|[a x] l IH]; intros Hl; [done|]. cbn [List.filter].
  rewrite IH by (intros; apply Hl; by right).
  destruct (proj1 (elem_of_batch_attempts k db (a, x)) (Hl _ (list_elem_of_here _ _))) as [Hx _].
  simpl in *. destruct (core_enrolled _ C a x Hx) as (m&Hm&Em).
  destruct (List.find _ _) as [m'|] eqn:Hf.
  - apply List.find_some in Hf as [Hm'%list_elem_of_In Hf]. btrue.
    destruct (core_member _ C m' Hm') as (x'&Hx'&_&E1&E2&E3). subst a.
    rewrite !bool_decide_eq_true_2, (proj2 (Z.eqb_eq _ _)) by congruence. done.
  - exfalso. pose proof (List.find_none _ _ Hf m (proj1 (list_elem_of_In _ _) Hm)) as Hn.
    simpl in Hn. btrue. done.
Qed.

(** ** What sealing records *)

(** The attempt and the output rows carry the sealed output. *)
Definition carries (o : Output) (db : Db) : Prop :=
  (∃ x, attempts db !! out_attempt_id o = Some x ∧ a_status x = A_SEALED ∧
     a_output_path x = Some (out_output_path o) ∧ a_output_sha256 x = Some (out_output_sha256 o) ∧
     a_terminal_succeeded x = Some (out_succeeded o)) ∧
  ∀ r, r ∈ out_records o → record_tuple o r ∈ output_tuple <$> output_records db.

Lemma insert_outputs_rows item now rs s s' :
  tx_for (λ r, insert_output (output_row item now r)) rs s = (Ok tt, s') →
  (output_tuple <$> output_records (s_db s')) =
    (output_tuple <$> output_records (s_db s)) ++ (record_tuple item <$> rs) ∧
  attempts (s_db s') = attempts (s_db s).
Proof.
  intros H. eapply (tx_for_prefix (λ done s1,
    (output_tuple <$> output_records (s_db s1)) =
      (output_tuple <$> output_records (s_db s)) ++ (record_tuple item <$> done) ∧
    attempts (s_db s1) = attempts (s_db s))) in H; [done| |by rewrite app_nil_r].
  intros done r rest s1 s2 _ [E1 E2] Hr. apply insert_output_Ok in Hr as [_ ->]. simpl.
  by rewrite !fmap_app, E1, app_assoc.
Qed.

Lemma seal_item_carries k now o s s' :
  _seal_item k now o s = (Ok tt, s') →
  carries o (s_db s') ∧ ∀ o', out_attempt_id o' ≠ out_attempt_id o →
    carries o' (s_db s) → carries o' (s_db s').
Proof.
  unfold _seal_item. intros H. ctl_inv H.
  match goal with E : seal_valid _ _ _ = true |- _ => unfold seal_valid in E; rename E into Hv end.
  destruct (attempts (s_db s) !! out_attempt_id o) as [x|] eqn:Hx; [|done].
  destruct (works (s_db s) !! a_work_id x) as [w|]; [|done]. btrue.
  match goal with E : update_attempt _ _ _ _ = _ |- _ => apply modify_db_Ok in E as -> end.
  apply insert_outputs_rows in H as [E1 E2]. rewrite Hx in *.
  match goal with E : a_status x = A_LEASED |- _ =>
    rewrite (bool_decide_eq_true_2 _ E) in E1, E2 end. simpl in *.
  split; [split|].
  - exists (sealed_attempt o now x). rewrite E2, lookup_insert_eq. done.
  - intros r Hr. rewrite E1. apply elem_of_app. right. by apply list_elem_of_fmap_2.
  - intros o' Hne [(y&Hy&?) Hrec]. split.
    + exists y. by rewrite E2, lookup_insert_ne.
    + intros r Hr. rewrite E1. apply elem_of_app. left. by apply Hrec.
Qed.

Lemma seal_loop_carries k now os s s' :
  tx_for (_seal_item k now) os s = (Ok tt, s') → ∀ o, o ∈ os → carries o (s_db s').
Proof.
  intros H. apply (tx_for_prefix (λ done s1, ∀ o, o ∈ done → carries o (s_db s1))
    (_seal_item k now) os s tt s'); [|set_solver|exact H].
  intros done o rest s1 s2 _ P Hrow o' [Ho'| ->%list_elem_of_singleton]%elem_of_app;
    [|by apply seal_item_carries in Hrow as [? _]].
  specialize (P o' Ho'). pose proof Hrow as Hc. apply seal_item_carries in Hc as [_ Hc].
  apply Hc; [|done]. intros E. destruct P as [(x&Hx&Hs&_) _].
  unfold _seal_item in Hrow. ctl_inv Hrow.
  match goal with E : seal_valid _ _ _ = true |- _ => unfold seal_valid in E; rename E into Hv end.
  rewrite <-E, Hx in Hv. destruct (works (s_db s1) !! a_work_id x); [|done]. btrue. congruence.
Qed.

(** The tuples of the execution records of the outputs, in their order. *)
Definition sealed_tuples (os : list Output) : list (string * string * string * Z * Z * Z) :=
  concat ((λ o, record_tuple o <$> out_records o) <$> os).

(** The output rows of the outputs, numbered from [next]. *)
Definition sealed_rows (now : Float) (next : Z) (os : list Output) : list OutputRow :=
  imap (λ i p, output_row p.1 now p.2 (next + Z.of_nat i))
    (concat ((λ o, (λ r, (o, r)) <$> out_records o) <$> os)).

(** The database once the outputs are sealed. *)
Definition sealed_items (now : Float) (os : list Output) (db : Db) : Db :=
  let rows := sealed_rows now (output_next db) os in
  {| db with attempts := foldl (λ m o, alter (sealed_attempt o now) (out_attempt_id o) m) (attempts db) os;
             output_records := output_records db ++ rows;
             output_next := (output_next db + Z.of_nat (length rows))%Z |}.
Definition sealed_db (now : Float) (k : string) (b : BatchRow) (os : list Output) (db : Db) : Db :=
  set_batch k (sealed_batch now b) (sealed_items now os db).

Lemma sealed_rows_app now next l1 l2 :
  sealed_rows now next (l1 ++ l2) =
  sealed_rows now next l1 ++ sealed_rows now (next + Z.of_nat (length (sealed_rows now next l1))) l2.
Proof.
  unfold sealed_rows. rewrite fmap_app, concat_app, imap_app. f_equal. apply imap_ext.
  intros i p _. simpl. f_equal. rewrite length_imap. lia.
Qed.

Lemma sealed_rows_tuples now next os : output_tuple <$> sealed_rows now next os = sealed_tuples os.
Proof.
  unfold sealed_rows, sealed_tuples. rewrite fmap_imap. unfold compose.
  rewrite (imap_ext _ (λ _ p, record_tuple p.1 p.2)) by done.
  induction os as [|o os IH]; [done|]. simpl. rewrite imap_app. unfold compose. f_equal; [|exact IH].
  generalize (out_records o). intros l. induction l as [|r l IHl]; [done|]. simpl. by f_equal.
Qed.

Lemma insert_outputs_exact item now rs s s' :
  tx_for (λ r, insert_output (output_row item now r)) rs s = (Ok tt, s') →
  s' = with_db s (let db := s_db s in
    {| db with output_records := output_records db ++
                 imap (λ i r, output_row item now r (output_next db + Z.of_nat i)) rs;
               output_next := (output_next db + Z.of_nat (length rs))%Z |}).
Proof.
  intros H. eapply (tx_for_prefix (λ done s1, s1 = with_db s (let db := s_db s in
    {| db with output_records := output_records db ++
                 imap (λ i r, output_row item now r (output_next db + Z.of_nat i)) done;
               output_next := (output_next db + Z.of_nat (length done))%Z |}))) in H; [done| |].
  - intros done r rest s1 s2 _ -> Hr. apply insert_output_Ok in Hr as [_ ->]. destruct s as [[] ?]; unfold with_db; simpl.
    rewrite imap_app, app_assoc, length_app, Nat2Z.inj_add, Z.add_assoc. simpl. by rewrite Nat.add_0_r.
  - destruct s as [[] ?]; unfold with_db; simpl. by rewrite app_nil_r, Z.add_0_r.
Qed.

Lemma seal_item_exact k now o s s' :
  _seal_item k now o s = (Ok tt, s') → s' = with_db s (sealed_items now [o] (s_db s)).
Proof.
  unfold _seal_item. intros H. ctl_inv H.
  match goal with E : seal_valid _ _ _ = true |- _ => unfold seal_valid in E; rename E into Hv end.
  destruct (attempts (s_db s) !! out_attempt_id o) as [x|] eqn:Hx; [|done].
  destruct (works (s_db s) !! a_work_id x) as [w|]; [|done]. btrue.
  match goal with E : update_attempt _ _ _ _ = _ |- _ => apply modify_db_Ok in E as -> end.
  apply insert_outputs_exact in H. rewrite H, Hx.
  match goal with E : a_status x = A_LEASED |- _ => rewrite (bool_decide_eq_true_2 _ E) end.
  unfold sealed_items, sealed_rows. simpl. rewrite app_nil_r, length_imap, length_fmap.
  assert (alter (sealed_attempt o now) (out_attempt_id o) (attempts (s_db s)) =
    <[out_attempt_id o := sealed_attempt o now x]> (attempts (s_db s))) as ->.
  { apply map_eq. intros i. destruct (decide (i = out_attempt_id o)) as [->|?].
    - by rewrite lookup_alter_eq, lookup_insert_eq, Hx.
    - by rewrite lookup_alter_ne, lookup_insert_ne. }
  destruct s as [[] ?]; unfold with_db; simpl. by rewrite imap_fmap.
Qed.

Lemma seal_loop_exact k now os s s' :
  tx_for (_seal_item k now) os s = (Ok tt, s') → s' = with_db s (sealed_items now os (s_db s)).
Proof.
  intros H. eapply (tx_for_prefix (λ done s1, s1 = with_db s (sealed_items now done (s_db s)))) in H;
    [done| |].
  - intros done o rest s1 s2 _ -> Hrow. apply seal_item_exact in Hrow as ->.
    destruct s as [[] ?]; unfold with_db, sealed_items; simpl.
    by rewrite sealed_rows_app, foldl_app, app_assoc, length_app, Nat2Z.inj_add, Z.add_assoc.
  - destruct s as [[] ?]; unfold with_db, sealed_items; simpl. by rewrite app_nil_r, Z.add_0_r.
Qed.

Lemma remove_one_Permutation {A} `{EqDecision A} (x : A) l l' :
  remove_one x l = Some l' → l ≡ₚ x :: l'.
Proof.
  revert l'. induction l as [|y l IH]; intros l' H; simpl in H; [done|].
  case_decide as E; [by simplify_eq|]. destruct (remove_one x l) as [k|]; [|done].
  injection H as <-. rewrite (IH k) by done. apply Permutation_swap.
Qed.

Lemma multiset_eqb_Permutation {A} `{EqDecision A} (xs ys : list A) :
  multiset_eqb xs ys = true → xs ≡ₚ ys.
Proof.
  revert ys. induction xs as [|x xs IH]; intros ys H; simpl in H; [by btrue; subst|].
  destruct (remove_one x ys) as [k|] eqn:E; [|done]. apply remove_one_Permutation in E as ->.
  by rewrite <-(IH k).
Qed.

(** The output rows of the attempts of a batch. *)
Definition batch_outputs (k : string) (db : Db) : list OutputRow :=
  List.filter (λ o, bool_decide (o_attempt_id o ∈ (batch_attempts k db).*1)) (output_records db).

(** What a repeated seal has compared. *)
Lemma verify_existing_seal_Ok k b raw d m db :
  _verify_existing_seal k b raw d m db = Ok tt →
  ∃ os, _normalize_outputs raw = Ok os ∧ d = b_envelope_sha256 b ∧ m = b_membership_sha256 b ∧
    (seal_tuple <$> os) ≡ₚ (stored_tuple <$> batch_attempts k db) ∧
    sealed_tuples os ≡ₚ (output_tuple <$> batch_outputs k db).
Proof.
  unfold _verify_existing_seal. intros H. res_inv H. btrue. eexists. split; [done|].
  split_and!; try done; by apply multiset_eqb_Permutation.
Qed.

(** The outputs of a repeated seal are those that the batch carries. *)
Lemma sealed_again k b os db :
  Inv db → batches db !! k = Some b → b_status b = B_SEALED →
  (seal_tuple <$> os) ≡ₚ (stored_tuple <$> batch_attempts k db) →
  sealed_tuples os ≡ₚ (output_tuple <$> batch_outputs k db) →
  (∀ a x, attempts db !! a = Some x → a_batch_id x = k →
     ∃ o, o ∈ os ∧ out_attempt_id o = a ∧ out_work_id o = a_work_id x) ∧
  (∀ o, o ∈ os → (∃ x, attempts db !! out_attempt_id o = Some x ∧ a_batch_id x = k ∧
     a_work_id x = out_work_id o) ∧ carries o db).
Proof.
  intros I Hb Hst Hp Hr. split.
  - intros a x Hx Hk. assert (stored_tuple (a, x) ∈ seal_tuple <$> os) as Ho.
    { rewrite Hp. apply list_elem_of_fmap_2. by apply elem_of_batch_attempts. }
    apply list_elem_of_fmap in Ho as (o&E&Ho). injection E as E1 E2 _ _ _. by exists o.
  - intros o Ho. assert (seal_tuple o ∈ stored_tuple <$> batch_attempts k db) as Hx.
    { rewrite <-Hp. by apply list_elem_of_fmap_2. }
    apply list_elem_of_fmap in Hx as ([a x]&E&[Hx Hk]%elem_of_batch_attempts).
    injection E as E1 E2 E3 E4 E5. simpl in *. rewrite E2. split; [by exists x|]. split.
    + exists x. rewrite E2. split_and!; try done. pose proof (inv_coupled _ I _ _ Hb _ x Hx Hk) as K.
      rewrite Hst in K. apply K.
    + intros r Hrec. assert (record_tuple o r ∈ output_tuple <$> batch_outputs k db) as Hin.
      { rewrite <-Hr. unfold sealed_tuples. apply list_elem_of_In, in_concat.
        exists (record_tuple o <$> out_records o). split; apply list_elem_of_In.
        - by apply (list_elem_of_fmap_2 (λ o, record_tuple o <$> out_records o)).
        - by apply list_elem_of_fmap_2. }
      apply list_elem_of_fmap in Hin as (row&->&[Hin _]%elem_of_sfilter). by apply list_elem_of_fmap_2.
Qed.

(** ** The outcome of committed batches

    Only [commit_batch] publishes and only it makes a batch COMMITTED.  In every
    reachable store the attempts of a COMMITTED batch have ended as their terminal
    outcome says, and every publication carries the output path of its attempt. *)

(** ** Calls that neither publish nor commit *)

Definition plain {A} (m : Ctl A) : Prop :=
  ∀ s r s', m s = (r, s') →
    publications (s_db s') = publications (s_db s) ∧
    ∀ k b', batches (s_db s') !! k = Some b' → b_status b' = B_COMMITTED →
      ∃ b, batches (s_db s) !! k = Some b ∧ b_status b = B_COMMITTED.

Create HintDb plain.

Lemma plain_same {A} (m : Ctl A) :
  (∀ s r s', m s = (r, s') → publications (s_db s') = publications (s_db s) ∧
     batches (s_db s') = batches (s_db s)) → plain m.
Proof. intros H s r s' Hm. destruct (H _ _ _ Hm) as [-> ->]. eauto. Qed.

Lemma plain_bind {A B} (m : Ctl A) (f : A → Ctl B) : plain m → (∀ a, plain (f a)) → plain (m ≫= f).
Proof.
  intros Hm Hf s r s'. unfold mbind, tx_bind. destruct (m s) as [[a|e] s1] eqn:E; intros H.
  - destruct (Hm _ _ _ E) as [P1 B1]. destruct (Hf _ _ _ _ H) as [P2 B2]. split; [congruence|].
    intros k b' Hb Hs. destruct (B2 _ _ Hb Hs) as (b1&?&?). by eapply B1.
  - injection H as <- <-. by eapply Hm.
Qed.

Lemma plain_fmap {A B} (f : A → B) (m : Ctl A) : plain m → plain (f <$> m).
Proof.
  intros Hm s r s'. unfold fmap, tx_fmap. destruct (m s) as [[a|e] s1] eqn:E;
    intros [= <- <-]; by eapply Hm.
Qed.

Lemma plain_lift {A} (x : result A) : plain (tx_lift x).
Proof. apply plain_same. by intros s r s' [= <- <-]. Qed.
Lemma plain_ret {A} (a : A) : plain (mret a).
Proof. apply plain_same. by intros s r s' [= <- <-]. Qed.
Lemma plain_require b e : plain (tx_require b e).
Proof. apply plain_lift. Qed.
Lemma plain_raise {A} e : plain (tx_raise (A := A) e).
Proof. apply plain_lift. Qed.
Lemma plain_get_db : plain get_db.
Proof. apply plain_same. by intros s r s' [= <- <-]. Qed.
Lemma plain_get_files : plain get_files.
Proof. apply plain_same. by intros s r s' [= <- <-]. Qed.

Lemma plain_modify_db f :
  (∀ db, publications (f db) = publications db ∧ batches (f db) = batches db) → plain (modify_db f).
Proof. intros H. apply plain_same. intros s r s' [= <- <-]. apply H. Qed.

Lemma plain_transaction {A} (m : Ctl A) : plain m → plain (_transaction m).
Proof.
  intros Hm s r s'. unfold _transaction, transaction. destruct (m s) as [[a|e] s1] eqn:E; intros [= <- <-].
  - by apply (Hm _ _ _ E).
  - simpl. eauto.
Qed.

Lemma plain_for {A} (f : A → Ctl unit) l : (∀ x, plain (f x)) → plain (tx_for f l).
Proof. intros H. induction l; simpl; [apply plain_ret|]. by apply plain_bind. Qed.

Lemma plain_map {A B} (f : A → Ctl B) l : (∀ x, plain (f x)) → plain (tx_map f l).
Proof.
  intros H. induction l; simpl; [apply plain_ret|].
  apply plain_bind; [done|]. intros b. apply plain_bind; [done|]. intros. apply plain_ret.
Qed.

Lemma plain_put root v : plain (content_put_json root v).
Proof.
  apply plain_same. intros s r s'. unfold content_put_json. destruct (put_json _ _ _).
  by intros [= <- <-].
Qed.

(** A batch row that is rewritten with a status other than COMMITTED. *)
Lemma plain_update_batch k g f :
  (∀ b, b_status (f b) = B_COMMITTED → b_status b = B_COMMITTED) → plain (update_batch k g f).
Proof.
  intros Hf s r s' [= <- <-]. simpl. destruct (batches (s_db s) !! k) as [b|] eqn:Hb; [|eauto].
  destruct (g b); [|eauto]. split; [done|]. intros j b'. simpl. rewrite lookup_insert.
  case_decide as E; [subst|eauto]. intros [= <-] Hs. eauto.
Qed.

Lemma plain_insert_batch k b : b_status b ≠ B_COMMITTED → plain (insert_batch k b).
Proof.
  intros Hs. unfold insert_batch. apply plain_bind; [apply plain_get_db|]. intros db.
  apply plain_bind; [apply plain_require|]. intros _ s r s' [= <- <-]. split; [done|].
  intros j b'. simpl. rewrite lookup_insert. case_decide; [by intros [= <-] ?|eauto].
Qed.

#[export] Hint Resolve plain_ret plain_lift plain_require plain_raise
  plain_get_db plain_get_files plain_put : plain.

Ltac plainly :=
  repeat first
    [ solve [auto 2 with plain nocore]
    | progress intros | progress cbv zeta
    | match goal with
      | |- plain (_ ≫= _) => apply plain_bind
      | |- plain (_ <$> _) => apply plain_fmap
      | |- plain (_transaction _) => apply plain_transaction
      | |- plain (tx_for _ _) => apply plain_for
      | |- plain (tx_map _ _) => apply plain_map
      | |- plain (modify_db _) => apply plain_modify_db
      | |- plain (update_batch _ _ _) => apply plain_update_batch
      | |- plain (insert_batch _ _) => apply plain_insert_batch
      | |- plain (match ?x with _ => _ end) => destruct x
      | |- plain (let '(_, _) := ?x in _) => destruct x
      | |- _ ∧ _ => split
      | |- _ = _ => solve [simpl in *; congruence]
      | |- _ ≠ _ => done
      | |- context [match ?x with _ => _ end] => destruct x
      end ].

Lemma plain_update_work id g f : plain (update_work id g f).
Proof. unfold update_work. plainly. Qed.
Lemma plain_insert_work id w : plain (insert_work id w).
Proof. unfold insert_work. plainly. Qed.
Lemma plain_insert_attempt id a : plain (insert_attempt id a).
Proof. unfold insert_attempt. plainly. Qed.
Lemma plain_insert_member m : plain (insert_member m).
Proof. unfold insert_member. plainly. Qed.
Lemma plain_insert_output f : plain (insert_output f).
Proof. unfold insert_output. plainly. Qed.
Lemma plain_insert_replay id r : plain (insert_replay id r).
Proof. unfold insert_replay. plainly. Qed.
Lemma plain_update_attempt id g f : plain (update_attempt id g f).
Proof. unfold update_attempt. plainly. Qed.
Lemma plain_update_attempts g f : plain (update_attempts g f).
Proof. unfold update_attempts. plainly. Qed.
Lemma plain_get_batch id : plain (get_batch id).
Proof. unfold get_batch. plainly. Qed.
#[export] Hint Resolve plain_update_work plain_insert_work plain_insert_attempt plain_insert_member
  plain_insert_output plain_insert_replay plain_update_attempt plain_update_attempts
  plain_get_batch : plain.

Lemma plain_register_row q sha now : plain (register_row q sha now).
Proof. unfold register_row. plainly. Qed.
Lemma plain_register_loop now seen qs : plain (register_loop now seen qs).
Proof.
  revert seen. induction qs as [|q qs IH]; intros seen; simpl; [plainly|].
  pose proof (plain_register_row q). plainly.
Qed.
Lemma plain_claim_row r id x i c : plain (claim_row r id x i c).
Proof. unfold claim_row. plainly. Qed.
Lemma plain_claim_loop r id x cs : plain (claim_loop r id x cs).
Proof. unfold claim_loop. pose proof plain_claim_row. plainly. Qed.
Lemma plain_process_batch_state e : plain (process_batch_state e).
Proof. unfold process_batch_state. plainly. Qed.
Lemma plain_recover_row t row : plain (recover_row t row).
Proof. destruct row as [id w]. unfold recover_row. plainly. Qed.
#[export] Hint Resolve plain_register_row plain_register_loop plain_claim_row plain_claim_loop
  plain_process_batch_state plain_recover_row : plain.

Lemma plain_expire_batches t : plain (expire_batches t).
Proof.
  intros s r s' [= <- <-]. split; [done|]. intros k b' (b&Hb&->)%lookup_map_rows.
  destruct (active_batch b && _) eqn:E; [by intros|eauto].
Qed.

Lemma plain_run_op op : (∀ v clock, op ≠ OpCommit v clock) → plain (run_op op).
Proof.
  intros Hop. destruct op; simpl; unfold drop.
  - unfold register. plainly.
  - unfold register_many. plainly.
  - unfold claim, claim_rows. plainly.
  - plainly.
  - unfold assert_process_fence. plainly.
  - unfold heartbeat_process, heartbeat_item. plainly.
  - unfold seal_batch, _seal_item. plainly.
  - by destruct (Hop batch_id clock).
  - unfold recover. pose proof plain_expire_batches. plainly.
  - unfold replay. plainly.
  - unfold quarantine, quarantine_row. plainly.
  - unfold reconcile, record_finding. plainly.
Qed.

(** ** What committing leaves *)

(** The status in which an attempt of a committed batch has ended. *)
Definition settled_status (x : AttemptRow) : attempt_status :=
  if bool_decide (a_terminal_succeeded x = Some true) then A_SUCCEEDED else A_FAILED.

Definition settled (db : Db) : Prop :=
  (∀ k b a x, batches db !! k = Some b → b_status b = B_COMMITTED →
     attempts db !! a = Some x → a_batch_id x = k → a_status x = settled_status x) ∧
  (∀ p, p ∈ publications db → ∃ x, attempts db !! p_attempt_id p = Some x ∧
     a_output_path x = Some (p_output_path p) ∧ a_terminal_succeeded x = Some true).

(** An ended attempt does not change. *)
Lemma settled_kept x x' :
  attempt_kept x x' → a_status x = settled_status x → a_status x' = settled_status x'.
Proof.
  intros [_ En Ou _] H. unfold settled_status in *.
  assert (ended (a_status x) ∧ a_status x ≠ A_LEASED) as [He Hl].
  { rewrite H. unfold ended. case_bool_decide; split; auto. }
  destruct (Ou Hl) as (_&_&->). by rewrite (En He).
Qed.

Lemma plain_settled db db' :
  Inv db → evolves db db' → counted db → counted db' → settled db →
  publications db' = publications db →
  (∀ k b', batches db' !! k = Some b' → b_status b' = B_COMMITTED →
     ∃ b, batches db !! k = Some b ∧ b_status b = B_COMMITTED) → settled db'.
Proof.
  intros I E N N' [S P] Ep Eb. split.
  - intros k b' a x' Hb' Hs Hx' Hk. destruct (Eb _ _ Hb' Hs) as (b&Hb&Hsb).
    destruct (batch_closed_enrollment _ _ k b a x' E N N') as [x Hx]; [done..|].
    destruct (evolves_attempts _ _ _ _ E Hx) as (y&Hy&K). simplify_eq.
    eapply settled_kept; [exact K|]. eapply S; [exact Hb|done|done|].
    symmetry. apply (sa_batch _ _ (ak_same _ _ K)).
  - intros p Hp. rewrite Ep in Hp. destruct (P p Hp) as (x&Hx&Hpath&Hsucc).
    destruct (evolves_attempts _ _ _ _ E Hx) as (y&Hy&K). exists y. split; [done|].
    destruct (publication_attempt _ p (inv_core _ I) Hp) as (x1&Hx1&Hs1&_).
    assert (x1 = x) as -> by congruence.
    destruct (ak_output _ _ K) as (->&_&->); [congruence|done].
Qed.

(** What a commit publishes belongs to its batch. *)
Lemma commit_publications v clock s r s' k p :
  Inv (s_db s) → _required_text v = Ok k → commit_batch v clock s = (Ok r, s') →
  p ∈ publications (s_db s') → p ∈ publications (s_db s) ∨ p_batch_id p = k.
Proof.
  intros I Hv H Hp. apply commit_batch_Ok in H as (k'&now&b&Hv'&_&Hb&[(_&_&->)|(Hse&_&rs&s1&Hrun&_&->)]);
    [by left|]. assert (k' = k) as -> by congruence.
  destruct (commit_loop_run k now (s_db s) b s I eq_refl Hb Hse) as (rs'&s1'&Hrun'&[_ _ (ps&Eps&Fps&_)]).
  rewrite Hrun in Hrun'. simplify_eq.
  assert (p ∈ publications (s_db s1')) as Hp1.
  { revert Hp. simpl. repeat case_match; done. }
  rewrite Eps in Hp1. apply elem_of_app in Hp1 as [?|Hp1]; [by left|right].
  by eapply (proj1 (Forall_forall _ _) Fps).
Qed.

Lemma commit_settled v clock s r s' :
  Inv (s_db s) → counted (s_db s) → Inv (s_db s') → counted (s_db s') →
  evolves (s_db s) (s_db s') → settled (s_db s) →
  commit_batch v clock s = (Ok r, s') → settled (s_db s').
Proof.
  intros I N I' N' E [S P] H. pose proof H as Hok.
  apply commit_batch_Ok in Hok as (k&now&b&Hv&Hc&Hb&[(_&_&->)|(Hse&Hl&_)]); [done|].
  destruct (commit_batch_run v clock k now b s I N Hv Hc Hb Hse Hl) as (seqs&s1&Hrun&Hbs&Hout&_).
  rewrite H in Hrun. injection Hrun as <- <-.
  assert (Hback : ∀ a x', attempts (s_db s') !! a = Some x' → is_Some (batches (s_db s) !! a_batch_id x') →
    ∃ x w, attempts (s_db s) !! a = Some x ∧ attempt_kept x x' ∧ a_batch_id x = a_batch_id x' ∧
      works (s_db s) !! a_work_id x = Some w).
  { intros a x' Hx' [b0 Hb0].
    destruct (batch_closed_enrollment _ _ _ b0 a x' E N N' Hb0 Hx' eq_refl) as [x Hx].
    destruct (evolves_attempts _ _ _ _ E Hx) as (y&Hy&K). simplify_eq.
    destruct (core_attempt _ (inv_core _ I) a x Hx) as [(w&Hw&_) _]. exists x, w.
    split_and!; try done. symmetry. apply (sa_batch _ _ (ak_same _ _ K)). }
  split.
  - intros j b' a x' Hb' Hs Hx' Hj. rewrite Hbs in Hb'.
    destruct (Hback a x' Hx') as (x&w&Hx&K&Ebk&Hw).
    { rewrite Hj. apply lookup_insert_Some in Hb' as [[<- _]|[_ ?]]; eauto. }
    apply lookup_insert_Some in Hb' as [[<- _]|[Hne Hb']].
    + specialize (Hout a x Hx (eq_trans Ebk Hj) x w Hx Hw). unfold settled_status.
      case_bool_decide as Ht.
      * destruct Hout as [Hy _]. simplify_eq. by rewrite bool_decide_eq_true_2.
      * destruct Hout as [Hy _]. simplify_eq. by rewrite bool_decide_eq_false_2.
    + eapply settled_kept; [exact K|]. eapply S; [exact Hb'|done|done|congruence].
  - intros p Hp. destruct (publication_attempt _ p (inv_core _ I') Hp) as (x'&Hx'&Hs'&Hk'&Ew).
    destruct (Hback _ _ Hx') as (x&w&Hx&K&Ebk&Hw).
    { destruct (core_attempt _ (inv_core _ I') _ _ Hx') as [_ [b' Hb']]. rewrite Hbs in Hb'.
      apply lookup_insert_Some in Hb' as [[<- _]|[_ ?]]; eauto. }
    exists x'. split; [done|]. destruct (decide (p_batch_id p = k)) as [Ek|Hne].
    + specialize (Hout _ x Hx) as Ho. specialize (Ho ltac:(congruence) x w Hx Hw).
      case_bool_decide as Ht; [|destruct Ho as [Hy _]; rewrite Hx' in Hy; injection Hy as ->; by simpl in Hs'].
      destruct Ho as [Hy (n&_&Hq)].
      assert (p = publication k now (p_attempt_id p, x, w) n) as Epub.
      { eapply (NoDup_fmap_eq p_work_id); [apply (core_published_once _ (inv_core _ I'))|done|done|].
        simpl. rewrite <-Ew. by rewrite (sa_work _ _ (ak_same _ _ K)). }
      pose proof (inv_coupled _ I _ _ Hb _ x Hx ltac:(congruence)) as Kc. rewrite Hse in Kc.
      destruct Kc as [Kc _]. simpl in Kc.
      destruct (core_sealed _ (inv_core _ I) _ _ Hx Kc) as ([path Hpath]&_).
      rewrite Hx' in Hy. injection Hy as ->. simpl. rewrite Epub. simpl. by rewrite Hpath.
    + destruct (commit_publications _ _ _ _ _ _ _ I Hv H Hp) as [Hp0|?]; [|done].
      destruct (P p Hp0) as (y&Hy&Hpath&Hsucc). simplify_eq.
      destruct (publication_attempt _ p (inv_core _ I) Hp0) as (x1&Hx1&Hs1&_). simplify_eq.
      destruct (ak_output _ _ K) as (->&_&->); [congruence|done].
Qed.

Lemma reachable_settled s : reachable s → settled (s_db s).
Proof.
  intros (s0&Eb&H). assert (R0 : reachable s0) by by exists s0.
  assert (settled (s_db s0)) as S.
  { rewrite Eb. split; [intros k b a x Hb; simpl in Hb; by rewrite lookup_empty in Hb|by intros p Hp%elem_of_nil]. }
  clear Eb. induction H as [|s1 s2 s3 Hs _ IH]; [done|].
  assert (R2 : reachable s2) by by eapply reachable_step. apply IH; [done|].
  pose proof (reachable_Inv _ R0) as I. pose proof (step_evolves _ _ I Hs) as E.
  destruct Hs as (op&r&Hop). destruct r as [[]|e]; [|by rewrite (run_op_Err _ _ _ _ Hop)].
  assert ((∃ v clock, op = OpCommit v clock) ∨ ∀ v clock, op ≠ OpCommit v clock) as [(v&c&->)|Hne].
  { destruct op; try (right; by intros); left; eauto. }
  - simpl in Hop. apply drop_Ok in Hop as [x Hop].
    eapply (commit_settled v c s1 x s2); try done; [by apply reachable_counted|by apply reachable_Inv|by apply reachable_counted].
  - destruct (plain_run_op op Hne _ _ _ Hop) as [P B].
    eapply (plain_settled (s_db s1)); try done; by apply reachable_counted.
Qed.

(** ** What sealing leaves *)

Lemma seal_outputs s v outputs env mem clock s' k b :
  reachable s → seal_batch v outputs env mem clock s = (Ok tt, s') →
  _required_text v = Ok k → batches (s_db s) !! k = Some b → b_status b = B_LEASED →
  ∃ raw os b', outputs = VList raw ∧ _normalize_outputs raw = Ok os ∧
    _validated_sha256 env = Ok (b_envelope_sha256 b) ∧
    _validated_sha256 mem = Ok (b_membership_sha256 b) ∧
    (∀ a x, attempts (s_db s) !! a = Some x → a_batch_id x = k →
       ∃ o, o ∈ os ∧ out_attempt_id o = a ∧ out_work_id o = a_work_id x) ∧
    (∀ o, o ∈ os → (∃ x, attempts (s_db s) !! out_attempt_id o = Some x ∧ a_batch_id x = k ∧
       a_work_id x = out_work_id o) ∧
       carries o (s_db s')) ∧
    batches (s_db s') !! k = Some b' ∧ b_status b' = B_SEALED.
Proof.
  intros R H Hv Hb Hst. pose proof (reachable_Inv _ R) as I.
  apply seal_batch_Ok in H as (k'&raw&d&m&now&b0&Hv'&->&_&Hd&Hm&Hb0&Hcase).
  assert (k' = k) as -> by congruence. assert (b0 = b) as -> by congruence.
  destruct Hcase as [(E&_)|(_&_&->&->&os&s1&Hn&_&Hset&Hloop&Hup)]; [congruence|].
  pose proof (outputs_cover _ _ _ (inv_core _ I) Hset) as [O1 O2].
  pose proof Hloop as Hl. eapply sealing_loop in Hl as [Sl M]; [|done..|exact O1].
  pose proof (seal_loop_carries _ _ _ _ _ Hloop) as Hc.
  destruct (se_batch _ _ _ _ Sl) as (b1&Hb1&_).
  apply modify_db_Ok in Hup. rewrite Hb1 in Hup. subst s'.
  exists raw, os, (sealed_batch now b1). simpl. rewrite lookup_insert_eq.
  split_and!; try done.
  - intros a x Hx Hk. destruct (O2 a x Hx Hk) as (o&Ho&<-). exists o.
    split_and!; [done..|]. symmetry. by eapply O1.
  - intros o Ho. split; [|by apply Hc].
    assert ((out_work_id o, out_attempt_id o) ∈
      (λ m, (m_work_id m, m_attempt_id m)) <$> members_of k (s_db s)) as Hmem.
    { rewrite <-(elem_of_list_to_set (C := gset (string * string))), <-Hset, elem_of_list_to_set.
      apply list_elem_of_fmap. eauto. }
    apply list_elem_of_fmap in Hmem as (mm&[= _ Ea]&[Hmm Hmk]%elem_of_members).
    destruct (core_member _ (inv_core _ I) mm Hmm) as (x&Hx&?&_). rewrite <-Ea in Hx.
    exists x. split_and!; [done|congruence|by eapply O1].
Qed.
