(* ===== verification/ControlScenario.v ===== *)
(** * A run of the control store

    A concrete history that the examples and the concrete instances of the
    theorems use: two works are registered, claimed, sealed with one success and
    one failure, committed; the failed work is claimed again and recovered. *)
From S2P Require Export Prelude ControlTypes ControlClaim ControlProcess ControlAdmin ControlReconcile ControlInv ControlSafety ControlSpec.

Definition flt (z : Z) : pyval := VFloat (float_of_Z z).

Definition store0 : Store := {| s_db := empty_db; s_files := ∅ |}.

Definition sha_a : string := "aaaaaaaaaaaaaaaaaaaaaaaaaaaaaaaaaaaaaaaaaaaaaaaaaaaaaaaaaaaaaaaa".

Definition op_register (id : string) (t : Z) : ctl_op :=
  OpRegister (VStr id) (VDict [("path", VStr id)]%string) (VStr "cpu") (flt 10)
    (VStr "cfg") (VStr "rel") (VInt 2) VNone (flt t).

Definition claim_args : ClaimArgs := {|
  ca_owner := VStr "worker"; ca_max_items := VInt 8; ca_lease_seconds := flt 100;
  ca_maximum_active_batches := VInt 2; ca_minimum_speed_x := flt 1;
  ca_safety_factor := flt 2; ca_margin_seconds := flt 5; ca_minimum_items := VInt 1;
  ca_allowed_work_ids := VNone; ca_process_profile := None; ca_peak_rss_bytes := VNone;
  ca_expected_release_digest := Some (VStr "rel") |}.

(** The identifier factory of a run: a prefix per call of [claim]. *)
Definition ids (prefix : string) (k : nat) : pyval :=
  VStr (prefix +:+ str_of_codes (int_codes (Z.of_nat k))).

Definition op_claim (prefix : string) (t : Z) : ctl_op :=
  OpClaim "/root" (ids prefix) claim_args (flt t).

Definition run (ops : list ctl_op) (s : Store) : Store :=
  fold_left (λ s op, (run_op op s).2) ops s.

Lemma run_steps ops s : rtc ctl_step s (run ops s).
Proof.
  revert s. induction ops as [|op ops IH]; intros s; [reflexivity|].
  simpl. eapply rtc_l; [|apply IH]. eexists op, _. apply surjective_pairing.
Qed.

Definition store1 : Store := Eval vm_compute in
  run [op_register "w1" 1; op_register "w2" 2; op_claim "b" 3] store0.

Definition batch_digests (k : string) (s : Store) : string * string :=
  match batches (s_db s) !! k with
  | Some b => (b_envelope_sha256 b, b_membership_sha256 b)
  | None => (""%string, ""%string)
  end.

Definition output (work attempt : string) (ok : bool) : pyval :=
  VDict [("work_id", VStr work); ("attempt_id", VStr attempt);
         ("output_path", VStr ("/out/" +:+ attempt)); ("output_sha256", VStr sha_a);
         ("succeeded", VBool ok);
         ("records", VList [VDict [("executor_identity", VStr "e");
            ("partition_id", VInt 0); ("task_attempt_id", VInt 7);
            ("record_sequence", VInt 0)]])]%string.

Definition outputs0 : pyval := VList [output "w1" "b1" true; output "w2" "b2" false].

Definition op_seal (k : string) (outputs : pyval) (s : Store) (t : Z) : ctl_op :=
  OpSeal (VStr k) outputs (VStr (batch_digests k s).1) (VStr (batch_digests k s).2) (flt t).

(** Both outputs sealed. *)
Definition store2 : Store := Eval vm_compute in run [op_seal "b0" outputs0 store1 10] store1.
(** Committed: w1 succeeded, w2 is READY again. *)
Definition store3 : Store := Eval vm_compute in run [OpCommit (VStr "b0") (flt 20)] store2.
(** w2 claimed again. *)
Definition store4 : Store := Eval vm_compute in run [op_claim "c" 30] store3.
(** The lease ran out: the budget of w2 is used up. *)
Definition store5 : Store := Eval vm_compute in run [OpRecover (flt 1000) VNone] store4.

(** Each stage is the run of its operations on the previous one. *)
Definition stage (ops : list ctl_op) (s s' : Store) : Prop := run ops s = s'.

Lemma stage1 : stage [op_register "w1" 1; op_register "w2" 2; op_claim "b" 3] store0 store1.
Proof. vm_cast_no_check (eq_refl store1). Qed.
Lemma stage2 : stage [op_seal "b0" outputs0 store1 10] store1 store2.
Proof. vm_cast_no_check (eq_refl store2). Qed.
Lemma stage3 : stage [OpCommit (VStr "b0") (flt 20)] store2 store3.
Proof. vm_cast_no_check (eq_refl store3). Qed.
Lemma stage4 : stage [op_claim "c" 30] store3 store4.
Proof. vm_cast_no_check (eq_refl store4). Qed.
Lemma stage5 : stage [OpRecover (flt 1000) VNone] store4 store5.
Proof. vm_cast_no_check (eq_refl store5). Qed.

Lemma stage_steps ops s s' : stage ops s s' → rtc ctl_step s s'.
Proof. intros <-. apply run_steps. Qed.

Lemma reachable_steps s s' : reachable s → rtc ctl_step s s' → reachable s'.
Proof. intros (s0&?&?) ?. exists s0. split; [done|]. by etrans. Qed.

Lemma stage_reachable ops s s' : reachable s → stage ops s s' → reachable s'.
Proof. intros ? H%stage_steps. by eapply reachable_steps. Qed.

Lemma store0_reachable : reachable store0.
Proof. by exists store0. Qed.
Lemma store1_reachable : reachable store1.
Proof. exact (stage_reachable _ _ _ store0_reachable stage1). Qed.
Lemma store2_reachable : reachable store2.
Proof. exact (stage_reachable _ _ _ store1_reachable stage2). Qed.
Lemma store3_reachable : reachable store3.
Proof. exact (stage_reachable _ _ _ store2_reachable stage3). Qed.
Lemma store4_reachable : reachable store4.
Proof. exact (stage_reachable _ _ _ store3_reachable stage4). Qed.
Lemma store5_reachable : reachable store5.
Proof. exact (stage_reachable _ _ _ store4_reachable stage5). Qed.

(** What each stage holds: the works, the attempts, the batches. *)
Definition summary (s : Store) : list (string * work_status * Z) * list (string * attempt_status)
    * list (string * batch_status) * list (string * string * Z) :=
  ((λ x : string * WorkRow, (x.1, w_status x.2, w_fence x.2)) <$> map_to_list (works (s_db s)),
   (λ x : string * AttemptRow, (x.1, a_status x.2)) <$> map_to_list (attempts (s_db s)),
   (λ x : string * BatchRow, (x.1, b_status x.2)) <$> map_to_list (batches (s_db s)),
   (λ p, (p_work_id p, p_attempt_id p, p_publication_sequence p)) <$> publications (s_db s)).

Example scenario_committed : summary store3 =
  ([("w1", W_SUCCEEDED, 1); ("w2", W_READY, 1)],
   [("b1", A_SUCCEEDED); ("b2", A_FAILED)], [("b0", B_COMMITTED)], [("w1", "b1", 1)])%string%Z.
Proof. vm_compute. reflexivity. Qed.

Example scenario_recovered : summary store5 =
  ([("w1", W_SUCCEEDED, 1); ("w2", W_DEAD, 2)],
   [("c1", A_EXPIRED); ("b1", A_SUCCEEDED); ("b2", A_FAILED)],
   [("c0", B_EXPIRED); ("b0", B_COMMITTED)], [("w1", "b1", 1)])%string%Z.
Proof. vm_compute. reflexivity. Qed.

(** The batch that the second claim returns. *)
Definition batch_c : ClaimedBatch := {|
  cb_batch_id := "c0";
  cb_envelope_path := "/root/sha256/75/75762dc83163e96381737ce2a7c24d8c0eecaa44dbbfdd4018f5ab09a3868d31";
  cb_envelope_sha256 := "75762dc83163e96381737ce2a7c24d8c0eecaa44dbbfdd4018f5ab09a3868d31";
  cb_runtime_key := "cpu";
  cb_lease_expires_at := float_of_Z 130;
  cb_items := [{| c_work_id := "w2"; c_attempt_id := "c1"; c_fence := 2;
    c_payload_sha256 := "2712d0a4d3308411394309df94b9bc9f3b2f06e47972f71971fc681e9434c1bc" |}] |}.

Lemma claim_c : claim "/root" (ids "c") claim_args (flt 30) store3 = (Ok (Some batch_c), store4).
Proof. vm_cast_no_check (@eq_refl (result (option ClaimedBatch) * Store) (Ok (Some batch_c), store4)). Qed.

(** The first commit, with its sequence. *)
Lemma commit_b0 : commit_batch (VStr "b0") (flt 20) store2 = (Ok [1%Z], store3).
Proof. vm_cast_no_check (@eq_refl (result (list Z) * Store) (Ok [1%Z], store3)). Qed.

(** w2 replayed by an operator. *)
Definition store6 : Store := Eval vm_compute in
  run [OpReplay (VStr "w2") (VStr "op") (VStr "why") (VInt 1) (flt 2000)] store5.

Definition replay_w2 : ReplayRequest := {|
  rp_replay_id := "replay-364f89d8a80bb1cfba6b8a7a9f4d63ddc7ef445b5611370cb1040200fbbdf4b3";
  rp_work_id := "w2"; rp_operator := "op"; rp_reason := "why"; rp_generation := 1;
  rp_requested_at := float_of_Z 2000 |}.

Lemma replayed_w2 :
  replay (VStr "w2") (VStr "op") (VStr "why") (VInt 1) (flt 2000) store5 = (Ok replay_w2, store6).
Proof. vm_cast_no_check (@eq_refl (result ReplayRequest * Store) (Ok replay_w2, store6)). Qed.
