(* ===== verification/ControlFindings.v ===== *)
(** * Reconciliation

    What [reconcile] records and returns, and which findings a reachable store can
    have at all. *)
From S2P Require Export Prelude PyVal Json ControlTypes ControlClaim ControlProcess ControlEnvelope ControlAdmin ControlReconcile ControlInv ControlSafety ControlSpec ControlFiles ControlTotal ControlScenario.

(** ** The findings table *)

Lemma upserted_lookup t (l : list (string * Finding)) m id :
  NoDup l.*1 →
  upserted t l m !! id =
    match (list_to_map l : gmap string Finding) !! id with
    | Some f => Some (upsert_row t f (m !! id))
    | None => m !! id
    end.
Proof.
  unfold upserted. revert m. induction l as [|[k f] l IH]; intros m Hn; [done|].
  csimpl. apply NoDup_cons in Hn as [Hk Hn]. rewrite IH by done. unfold upsert_finding. simpl.
  destruct (decide (id = k)) as [->|Hne].
  - rewrite not_elem_of_list_to_map_1 by done. by rewrite !lookup_insert_eq.
  - by rewrite !lookup_insert_ne.
Qed.

Lemma sorted_findings (found : gmap string Finding) :
  let l := order_by key_order (map_to_list found) in
  NoDup l.*1 ∧ (list_to_map l : gmap string Finding) = found.
Proof.
  intros l. assert (Hp : l ≡ₚ map_to_list found) by apply order_by_Permutation.
  assert (Hn : NoDup l.*1) by (rewrite Hp; apply NoDup_fst_map_to_list).
  split; [done|]. rewrite (list_to_map_proper _ _ Hn Hp). apply list_to_map_to_list.
Qed.

(** The row of a finding after [reconcile]. *)
Definition reconciled_row (t : Float) (f : option Finding) (old : option FindingRow)
    : option FindingRow :=
  match f with Some f => Some (upsert_row t f old) | None => resolve_row t <$> old end.

Lemma reconciled_lookup t found m id :
  resolve_findings t found (upserted t (order_by key_order (map_to_list found)) m) !! id =
    reconciled_row t (found !! id) (m !! id).
Proof.
  destruct (sorted_findings found) as [Hn E]. unfold resolve_findings, reconciled_row.
  rewrite map_lookup_imap, upserted_lookup, E by done.
  destruct (found !! id) as [f|] eqn:Hf; simpl.
  - done.
  - by destruct (m !! id).
Qed.

Lemma elem_of_open db id row :
  (id, row) ∈ open_findings db ↔ reconciliation_findings db !! id = Some row ∧ f_resolved_at row = None.
Proof.
  unfold open_findings. rewrite elem_of_sfilter, bool_decide_eq_true, elem_of_map_to_list. naive_solver.
Qed.

Lemma finding_of_Ok x f :
  finding_of x = Ok f →
  rf_finding_id f = x.1 ∧ rf_finding_type f = f_finding_type x.2 ∧
  rf_severity f = f_severity x.2 ∧ rf_entity_key f = f_entity_key x.2 ∧
  rf_first_seen_at f = f_first_seen_at x.2 ∧ rf_last_seen_at f = f_last_seen_at x.2.
Proof. unfold finding_of. intros H. by res_inv H; simplify_eq. Qed.

Lemma open_found t (found : gmap string Finding) (m : gmap string FindingRow) id row :
  reconciled_row t (found !! id) (m !! id) = Some row → f_resolved_at row = None →
  ∃ f, found !! id = Some f ∧ row = upsert_row t f (m !! id).
Proof.
  unfold reconciled_row. destruct (found !! id) as [f|]; [intros [= <-] _; by exists f|].
  destruct (m !! id); [|done]. by intros [= <-].
Qed.

Lemma upsert_row_open t f old : f_resolved_at (upsert_row t f old) = None.
Proof. by destruct old. Qed.

(** [reconcile] records exactly what it detects.  It returns one entry per detected
    finding, with the time it was first seen, now seen again; it resolves every
    other finding of the table, at the earliest time it was found resolved; no finding
    is ever removed; and it changes no other table and no file. *)
Theorem reconcile_records_findings s now clock r s' :
  reconcile now clock s = (Ok r, s') →
  ∃ t batch found,
    (match now with VNone => _finite clock | _ => _finite now end) = Ok t ∧
    _detect_batch_findings (s_db s) (s_files s) = Ok batch ∧
    detect (_detect_relational_findings t (s_db s) ++ batch) ∅ = Ok found ∧
    NoDup (rf_finding_id <$> r) ∧
    (∀ id, id ∈ rf_finding_id <$> r ↔ is_Some (found !! id)) ∧
    (∀ f, f ∈ r → rf_last_seen_at f = t ∧
       rf_first_seen_at f = match reconciliation_findings (s_db s) !! rf_finding_id f with
                            | Some old => f_first_seen_at old | None => t end) ∧
    (∀ id old, reconciliation_findings (s_db s) !! id = Some old → found !! id = None →
       reconciliation_findings (s_db s') !! id = Some (resolve_row t old)) ∧
    s' = with_db s (with_findings (λ _, reconciliation_findings (s_db s')) (s_db s)).
Proof.
  intros H. apply reconcile_Ok in H as (t&batch&found&Ht&Hb&Hf&->&Hr).
  set (m := reconciliation_findings (s_db s)).
  assert (Hlook : ∀ id, reconciliation_findings (s_db (with_db s (with_findings (λ m,
      resolve_findings t found (upserted t (order_by key_order (map_to_list found)) m)) (s_db s)))) !! id
    = reconciled_row t (found !! id) (m !! id)) by (intros id; apply reconciled_lookup).
  set (s' := with_db s _) in *. set (opened := order_by finding_before (open_findings (s_db s'))) in *.
  assert (Hids : rf_finding_id <$> r = opened.*1).
  { clear -Hr. induction Hr as [|x y l k E _ IH]; [done|]. csimpl. rewrite IH.
    by apply finding_of_Ok in E as [-> _]. }
  assert (Hopen : ∀ id row, (id, row) ∈ opened ↔
    reconciled_row t (found !! id) (m !! id) = Some row ∧ f_resolved_at row = None).
  { intros id row. unfold opened. by rewrite elem_of_order_by, elem_of_open, Hlook. }
  exists t, batch, found. split; [done|]. split; [done|]. split; [done|]. rewrite Hids.
  split; [|split; [|split; [|split]]].
  - unfold opened, open_findings. rewrite order_by_Permutation.
    by apply NoDup_fst_sfilter, NoDup_fst_map_to_list.
  - intros id. split.
    + intros ([id' row]&->&Hrow%Hopen)%list_elem_of_fmap. simpl.
      destruct Hrow as [Hrow Ho]. destruct (open_found _ _ _ _ _ Hrow Ho) as (f&->&_). done.
    + intros [f Hid]. apply list_elem_of_fmap. exists (id, upsert_row t f (m !! id)). split; [done|].
      apply Hopen. rewrite Hid. split; [done|]. apply upsert_row_open.
  - intros f Hin. apply list_elem_of_lookup_1 in Hin as [i Hi].
    destruct (Forall2_lookup_r _ _ _ _ _ Hr Hi) as ([id row]&Hrow%list_elem_of_lookup_2%Hopen&E).
    apply finding_of_Ok in E as (->&_&_&_&->&->). simpl.
    destruct Hrow as [Hrow Ho]. destruct (open_found _ _ _ _ _ Hrow Ho) as (g&_&->).
    fold m. by destruct (m !! id).
  - intros id old Hold Hnone. rewrite Hlook, Hnone. fold m in Hold. by rewrite Hold.
  - done.
Qed.

(** The lease of [c0] ran out at 40; at 1000 reconciliation reports it, and once recovery
    has released the work the finding is resolved. *)
Definition reconciled4 : result (list ReconciliationFinding) * Store := Eval vm_compute in
  reconcile VNone (flt 1000) store4.
Lemma reconciled4_eq : reconcile VNone (flt 1000) store4 = reconciled4.
Proof. vm_cast_no_check (@eq_refl (result (list ReconciliationFinding) * Store) reconciled4). Qed.

Definition reported (r : result (list ReconciliationFinding)) : list (string * string) :=
  match r with Ok l => (λ f, (rf_finding_type f, rf_entity_key f)) <$> l | Err _ => [] end.

Example reconcile_reports_lease : reported reconciled4.1 = [("EXPIRED_LEASE", "w2")]%string.
Proof. reflexivity. Qed.

Example reconcile_resolves_lease :
  reported (reconcile VNone (flt 1001) (run [OpRecover (flt 1000) VNone] reconciled4.2)).1 = [].
Proof. vm_cast_no_check (@eq_refl (list (string * string)) []). Qed.

Lemma reconcile_records_findings_witness :
  ∃ r found, reconciled4.1 = Ok r ∧
    detect (_detect_relational_findings (float_of_Z 1000) (s_db store4)) ∅ = Ok found ∧
    ∀ id, id ∈ rf_finding_id <$> r ↔ is_Some (found !! id).
Proof.
  destruct reconciled4 as [[r|e] s'] eqn:E; [|discriminate E].
  destruct (reconcile_records_findings store4 VNone (flt 1000) r s' (eq_trans reconciled4_eq E))
    as (t&batch&found&Ht&Hb&Hf&_&H&_).
  exists r, found. split; [reflexivity|]. split; [|exact H].
  assert (batch = []) as ->.
  { assert (E2 : _detect_batch_findings (s_db store4) (s_files store4) = Ok []).
    { vm_cast_no_check (@eq_refl (result (list Finding)) (Ok [])). }
    rewrite E2 in Hb. by injection Hb. }
  rewrite app_nil_r in Hf. injection Ht as <-. exact Hf.
Defined.

(** ** Reachable stores *)

Lemma reachable_core_rows s : reachable s → core (s_db s).
Proof. intros R. apply inv_core, reachable_Inv, R. Qed.

Definition envelope_differs (k : string) : Finding :=
  membership_mismatch k [("reason", VStr "claim envelope membership differs from SQLite")]%string.

Lemma reachable_batch_findings s k b :
  reachable s → batches (s_db s) !! k = Some b →
  membership_findings (s_db s) k b = Ok [] ∧ attempt_findings (s_db s) k = [] ∧
  ∀ l, envelope_findings (s_files s) k b = Ok l → l = [] ∨ l = [envelope_differs k].
Proof.
  intros R Hb. split; [|split].
  - unfold membership_findings. destruct (reachable_digested _ R k b Hb) as [-> ->]. simpl.
    by rewrite bool_decide_eq_true_2, Z.eqb_refl.
  - unfold attempt_findings. by rewrite core_attempt_mismatches by by apply reachable_core_rows.
  - intros l. destruct (reachable_enveloped _ R k b Hb) as (c&Hc&Hd). unfold envelope_findings.
    rewrite Hc. simpl. rewrite Hd, bool_decide_eq_true_2 by done.
    destruct (envelope_index c) as [x|e]; [|done]. simpl. destruct (envelope_matches b x); intros [= <-]; auto.
Qed.

(** C23. Reconciliation is sound: in a reachable store no broken pointer, no orphan or
    duplicated output, no wrong membership row or digest and no missing or altered
    envelope file is ever detected.  It can report a sealed attempt that waits
    for its commit, a lease that ran out, and an envelope whose digest is right but
    whose content is not the one claimed. *)
Theorem reachable_store_reconciles s now :
  reachable s →
  (∀ f, f ∈ _detect_relational_findings now (s_db s) →
     fi_kind f = "SEALED_UNCOMMITTED_ATTEMPT"%string ∨ fi_kind f = "EXPIRED_LEASE"%string) ∧
  ∀ batch f, _detect_batch_findings (s_db s) (s_files s) = Ok batch → f ∈ batch →
    ∃ k b, batches (s_db s) !! k = Some b ∧ f = envelope_differs k.
Proof.
  intros R. split.
  - pose proof (reachable_core_rows _ R) as C. intros f. unfold _detect_relational_findings.
    rewrite core_invalid_pointers, core_missing_pointers, core_orphan_outputs, core_duplicate_outputs
      by done. simpl. rewrite app_nil_r. intros [Hf|Hf]%elem_of_app.
    + left. apply list_elem_of_omap in Hf as (x&_&E). by case_match; simplify_eq.
    + right. apply list_elem_of_omap in Hf as (x&_&E). by case_match; simplify_eq.
  - intros batch f. unfold _detect_batch_findings.
    assert (Hl : ∀ x, x ∈ map_to_list (batches (s_db s)) → batches (s_db s) !! x.1 = Some x.2).
    { intros [k b] Hx. by apply elem_of_map_to_list. }
    revert batch. induction (map_to_list (batches (s_db s))) as [|[k b] l IH]; intros batch H Hf.
    + injection H as <-. by apply elem_of_nil in Hf.
    + simpl in H. res_inv H. subst batch. specialize (Hl (k, b) ltac:(left)) as Hb.
      apply elem_of_app in Hf as [Hf|Hf]; [|eapply IH; [|done..]; intros y Hy; apply Hl; by right].
      unfold batch_findings in Hs.
      destruct (reachable_batch_findings _ _ _ R Hb) as (E1&E2&E3). cbn [fst snd] in *.
      rewrite E1, E2 in Hs. simpl in Hs. res_inv Hs. subst.
      exists k, b. split; [done|].
      match goal with E : envelope_findings _ _ _ = Ok _ |- _ => apply E3 in E as [-> | ->] end.
      * by apply elem_of_nil in Hf.
      * by apply list_elem_of_singleton in Hf.
Qed.

Lemma reachable_store_reconciles_witness :
  (λ f, (fi_kind f, fi_entity f)) <$> _detect_relational_findings (float_of_Z 1000) (s_db store4) =
    [("EXPIRED_LEASE", "w2")]%string ∧
  ∀ f, f ∈ _detect_relational_findings (float_of_Z 1000) (s_db store4) →
    fi_kind f = "SEALED_UNCOMMITTED_ATTEMPT"%string ∨ fi_kind f = "EXPIRED_LEASE"%string.
Proof.
  split; [vm_cast_no_check (eq_refl [("EXPIRED_LEASE", "w2")]%string)|].
  exact (proj1 (reachable_store_reconciles store4 (float_of_Z 1000) store4_reachable)).
Defined.
