(* ===== verification/ControlTheorems.v ===== *)
(** * Correctness of the control store

    The theorems about the SQLite control store: what holds of every reachable
    store and of every history, then what each operation does.  Every theorem
    with hypotheses is followed by an instance on the run of [ControlScenario]. *)
From S2P Require Export Prelude ControlTypes ControlClaim ControlProcess ControlAdmin ControlReconcile ControlInv ControlSafety ControlSpec ControlTotal ControlScenario.

Lemma reachable_core s : reachable s → core (s_db s).
Proof. intros H%reachable_Inv. apply H. Qed.

Lemma history s s' : reachable s → rtc ctl_step s s' →
  evolves (s_db s) (s_db s') ∧ reachable s'.
Proof.
  intros R H. split; [|by eapply reachable_steps]. by apply steps_evolves; [apply reachable_Inv|].
Qed.

(** ** Histories *)

(** C1. Exactly-once publication: a publication stays for ever, it is the only one
    of its work, and the work is SUCCEEDED with its committed pointer on the
    published attempt and sequence. *)
Theorem publication_exactly_once s s' p :
  reachable s → p ∈ publications (s_db s) → rtc ctl_step s s' →
  p ∈ publications (s_db s') ∧
  (∀ q, q ∈ publications (s_db s') → p_work_id q = p_work_id p → q = p) ∧
  ∃ w, works (s_db s') !! p_work_id p = Some w ∧ w_status w = W_SUCCEEDED ∧
    w_committed_attempt_id w = Some (p_attempt_id p) ∧
    w_publication_sequence w = Some (p_publication_sequence p).
Proof.
  intros R Hp H. destruct (history _ _ R H) as [E R']. pose proof (reachable_core _ R') as C.
  pose proof (evolves_published _ _ _ E Hp) as Hp'. split; [done|]. split.
  - intros q Hq Ew. by eapply (NoDup_fmap_eq p_work_id); [apply C|..].
  - destruct (core_publication _ C p Hp') as (w&x&Hw&Hc&_). exists w. split; [done|].
    destruct (core_pointer _ C _ _ _ Hw Hc) as (y&q&_&_&_&Hq&Eq&_&Hs).
    split; [apply (wf_done _ (core_work _ C _ _ Hw)); eauto|]. split; [done|].
    rewrite Hs. do 2 f_equal. by eapply (NoDup_fmap_eq p_work_id); [apply C|..].
Qed.

Lemma publication_exactly_once_witness :
  ∃ p, p ∈ publications (s_db store3) ∧ p_work_id p = "w1"%string ∧
    p ∈ publications (s_db store5).
Proof.
  destruct (publications (s_db store3)) as [|p l] eqn:E; [discriminate E|].
  exists p. split; [left|]. split; [vm_compute in E; by injection E as <- _|].
  apply (publication_exactly_once store3 store5 p store3_reachable).
  - rewrite E. left.
  - etrans; [exact (stage_steps _ _ _ stage4)|exact (stage_steps _ _ _ stage5)].
Defined.

(** C3. The store invariant: in every reachable store the tables satisfy [Inv]
    (lease holder, fence, committed pointer, publication, membership and batch
    coupling) and every batch has as many attempts as its item count. *)
Theorem control_invariant s : reachable s → Inv (s_db s) ∧ counted (s_db s).
Proof. intros R. split; [by apply reachable_Inv|by apply reachable_counted]. Qed.

Lemma control_invariant_witness : Inv (s_db store5) ∧ counted (s_db store5).
Proof. exact (control_invariant store5 store5_reachable). Defined.

(** A call that raises leaves the database exactly as it was (an unfinished
    transaction is rolled back; only content files may remain). *)
Theorem failed_call_leaves_database op s e s' :
  run_op op s = (Err e, s') → s_db s' = s_db s.
Proof. apply run_op_Err. Qed.

Lemma failed_call_leaves_database_witness :
  (run_op (OpCommit (VStr "b0") (flt 20)) store1).1 = Err LeaseLostError ∧
  s_db (run_op (OpCommit (VStr "b0") (flt 20)) store1).2 = s_db store1.
Proof.
  split; [vm_compute; reflexivity|].
  apply (failed_call_leaves_database (OpCommit (VStr "b0") (flt 20)) store1 LeaseLostError).
  vm_compute. reflexivity.
Defined.

(** A work row never loses its identity (payload, digests, runtime, duration,
    release, original budget), its fence never goes back, and once SUCCEEDED it is
    frozen with its committed attempt. *)
Theorem work_history s s' k w :
  reachable s → works (s_db s) !! k = Some w → rtc ctl_step s s' →
  ∃ w', works (s_db s') !! k = Some w' ∧ w_payload w' = w_payload w ∧
    row_identity w' = row_identity w ∧ (w_fence w ≤ w_fence w')%Z ∧
    (w_status w = W_SUCCEEDED → w_status w' = W_SUCCEEDED ∧
       w_committed_attempt_id w' = w_committed_attempt_id w ∧ w_fence w' = w_fence w).
Proof.
  intros R Hw H. destruct (history _ _ R H) as [E _].
  destruct (evolves_works _ _ _ _ E Hw) as (w'&Hw'&[[S1 S2 _] F D]).
  exists w'. split_and!; [done..|]. intros Hs. by destruct (D Hs) as (?&?&_&?).
Qed.

Lemma work_history_witness :
  ∃ w w', works (s_db store3) !! "w2"%string = Some w ∧ works (s_db store5) !! "w2"%string = Some w' ∧
    (w_fence w ≤ w_fence w')%Z.
Proof.
  destruct (works (s_db store3) !! "w2"%string) as [w|] eqn:E; [|discriminate E].
  destruct (work_history store3 store5 "w2" w store3_reachable E) as (w'&Hw'&_&_&F&_).
  - etrans; [exact (stage_steps _ _ _ stage4)|exact (stage_steps _ _ _ stage5)].
  - by exists w, w'.
Defined.

(** Mutual exclusion: a work has at most one live attempt; that attempt holds
    the lease of the work and carries its current fence. *)
Theorem one_live_attempt s a at_ :
  reachable s → attempts (s_db s) !! a = Some at_ → live at_ →
  (∃ w, works (s_db s) !! a_work_id at_ = Some w ∧ w_status w = W_LEASED ∧
     w_lease_attempt_id w = Some a ∧ w_fence w = a_fence at_) ∧
  (∀ b bt, attempts (s_db s) !! b = Some bt → live bt → a_work_id bt = a_work_id at_ → b = a).
Proof.
  intros R%reachable_core Hat Hl. destruct (core_live _ R a at_ Hat Hl) as (w&Hw&Hst&Hla). split.
  - exists w. split_and!; try done.
    destruct (core_lease _ R _ _ Hw Hst) as (a'&at'&?&?&_&?&_). naive_solver.
  - intros b bt Hbt Hlb E. destruct (core_live _ R b bt Hbt Hlb) as (w'&Hw'&_&Hlb').
    rewrite E in Hw'. congruence.
Qed.

Lemma one_live_attempt_witness :
  ∃ at_ w, attempts (s_db store1) !! "b1"%string = Some at_ ∧
    works (s_db store1) !! "w1"%string = Some w ∧ w_fence w = a_fence at_.
Proof.
  destruct (attempts (s_db store1) !! "b1"%string) as [at_|] eqn:E; [|discriminate E].
  destruct (one_live_attempt store1 "b1" at_ store1_reachable E) as [(w&Hw&_&_&F) _].
  - vm_compute in E. injection E as <-. by left.
  - exists at_, w. split_and!; try done. vm_compute in E. injection E as <-. exact Hw.
Defined.

(** C7. Fencing of closed batches: a batch that expired (or committed) keeps its
    status, enrolls no further attempt, and no later call publishes anything of
    it. *)
Theorem closed_batch_never_publishes s s' k b :
  reachable s → batches (s_db s) !! k = Some b → closed (b_status b) → rtc ctl_step s s' →
  (∃ b', batches (s_db s') !! k = Some b' ∧ b_status b' = b_status b) ∧
  (∀ a x, attempts (s_db s') !! a = Some x → a_batch_id x = k →
     ∃ x0, attempts (s_db s) !! a = Some x0 ∧ a_status x = a_status x0) ∧
  (∀ p, p ∈ publications (s_db s') → p_batch_id p = k → p ∈ publications (s_db s)).
Proof.
  intros R Hb Hcl H. destruct (history _ _ R H) as [E R'].
  pose proof (reachable_Inv _ R) as I. pose proof (reachable_Inv _ R') as I'.
  pose proof (reachable_counted _ R) as N. pose proof (reachable_counted _ R') as N'. split_and!.
  - destruct (evolves_batches _ _ _ _ E Hb) as (b'&Hb'&[_ Hc]). eauto.
  - intros a x Hx Hk. destruct (closed_attempts _ _ k b a x E I N N') as (x0&?&_&?); eauto.
  - intros p Hp Hk. by apply (closed_publications (s_db s) (s_db s') k b p).
Qed.

Lemma closed_batch_never_publishes_witness :
  ∃ b, batches (s_db store3) !! "b0"%string = Some b ∧ b_status b = B_COMMITTED ∧
    ∀ p, p ∈ publications (s_db store5) → p_batch_id p = "b0"%string →
      p ∈ publications (s_db store3).
Proof.
  destruct (batches (s_db store3) !! "b0"%string) as [b|] eqn:E; [|discriminate E].
  assert (b_status b = B_COMMITTED) as Hs by (vm_compute in E; by injection E as <-).
  exists b. split; [done|]. split; [done|].
  apply (closed_batch_never_publishes store3 store5 "b0" b store3_reachable E).
  - by left.
  - etrans; [exact (stage_steps _ _ _ stage4)|exact (stage_steps _ _ _ stage5)].
Defined.

(** ** Operations *)

(** C4. A sealed batch commits: within its lease, [commit_batch] in a reachable
    store succeeds; the batch becomes COMMITTED, every attempt with a successful
    execution is published once and its work SUCCEEDED, every other attempt is
    FAILED and its work released for a retry (or DEAD). *)
Theorem commit_sealed_batch s v clock k now b :
  reachable s → _required_text v = Ok k → _finite clock = Ok now →
  batches (s_db s) !! k = Some b → b_status b = B_SEALED →
  fleb (b_lease_expires_at b) now = false →
  ∃ seqs s', commit_batch v clock s = (Ok seqs, s') ∧
    batches (s_db s') = <[k := committed_batch now b]> (batches (s_db s)) ∧
    ∀ a at_ w, attempts (s_db s) !! a = Some at_ → a_batch_id at_ = k →
      works (s_db s) !! a_work_id at_ = Some w →
      if bool_decide (a_terminal_succeeded at_ = Some true)
      then attempts (s_db s') !! a = Some (succeeded_attempt at_) ∧
        ∃ n, works (s_db s') !! a_work_id at_ = Some (succeed_work a n now w) ∧
          publication k now (a, at_, w) n ∈ publications (s_db s')
      else attempts (s_db s') !! a = Some (failed_attempt at_) ∧
        works (s_db s') !! a_work_id at_
          = Some (release_work (retry_outcome w) now "processing failed" w).
Proof.
  intros R Hv Hc Hb Hs Hl.
  destruct (commit_batch_run v clock k now b s (reachable_Inv _ R) (reachable_counted _ R))
    as (seqs&s'&Hrun&Hbs&Hout&_); [done..|].
  exists seqs, s'. split_and!; [done..|]. intros a at_ w Hat Hk Hw. by apply (Hout a at_).
Qed.

Lemma commit_sealed_batch_witness :
  ∃ seqs s', commit_batch (VStr "b0") (flt 20) store2 = (Ok seqs, s').
Proof.
  destruct (batches (s_db store2) !! "b0"%string) as [b|] eqn:E; [|discriminate E].
  destruct (commit_sealed_batch store2 (VStr "b0") (flt 20) "b0" (float_of_Z 20) b)
    as (seqs&s'&H&_).
  - exact store2_reachable.
  - reflexivity.
  - vm_compute. reflexivity.
  - exact E.
  - vm_compute in E. injection E as <-. reflexivity.
  - vm_compute in E. injection E as <-. vm_compute. reflexivity.
  - by exists seqs, s'.
Defined.

(** Commit is idempotent for ever: after a successful [commit_batch], the same
    call at any later time returns the same publication sequences and changes
    nothing. *)
Theorem commit_repeats s v clock seqs s1 s2 clock' now' :
  reachable s → commit_batch v clock s = (Ok seqs, s1) → rtc ctl_step s1 s2 →
  _finite clock' = Ok now' → commit_batch v clock' s2 = (Ok seqs, s2).
Proof.
  intros R H Hst Hnow.
  assert (R1 : reachable s1).
  { eapply reachable_step; [exact R|]. exists (OpCommit v clock), (Ok tt). simpl.
    unfold drop. by eapply tx_bind_run. }
  assert (∃ k b1, _required_text v = Ok k ∧ batches (s_db s1) !! k = Some b1 ∧
    b_status b1 = B_COMMITTED ∧ batch_sequences k (s_db s1) = seqs) as (k&b1&Hv&Hb1&Hs1&Hseq).
  { apply commit_batch_Ok in H as Hcases. destruct Hcases as (k&now&b&Hv&Hc&Hb&[(Hs&->&->)|(Hs&Hl&_)]).
    - by exists k, b.
    - destruct (commit_batch_run v clock k now b s (reachable_Inv _ R) (reachable_counted _ R))
        as (seqs'&s'&Hrun&Hbs&_&Hsq); [done..|]. rewrite H in Hrun. simplify_eq.
      exists k, (committed_batch now b). by rewrite Hbs, lookup_insert_eq. }
  destruct (history _ _ R1 Hst) as [E R2].
  destruct (evolves_batches _ _ _ _ E Hb1) as (b2&Hb2&[_ Hcl]).
  unfold commit_batch. eapply tx_bind_run; [by rewrite Hv; simpl; rewrite Hnow|].
  apply _transaction_run. eapply tx_bind_run.
  { unfold get_batch. eapply tx_bind_run; [done|]. by rewrite Hb2. }
  eapply tx_bind_run; [done|]. rewrite Hcl, Hs1 by (left; done). simpl. unfold mret, tx_ret.
  do 2 f_equal. rewrite <-Hseq. apply (closed_sequences _ _ k b1); try done.
  - by apply reachable_Inv.
  - by apply reachable_Inv.
  - by apply reachable_counted.
  - by apply reachable_counted.
  - by left.
Qed.

Lemma commit_repeats_witness :
  commit_batch (VStr "b0") (flt 500) store4 = (Ok [1%Z], store4).
Proof.
  apply (commit_repeats store2 (VStr "b0") (flt 20) [1%Z] store3 store4 (flt 500) (float_of_Z 500)).
  - exact store2_reachable.
  - exact commit_b0.
  - exact (stage_steps _ _ _ stage4).
  - vm_compute. reflexivity.
Defined.

(** C5. Recovery always completes: in a reachable store [recover] at a finite time
    t succeeds; every work whose lease ran out by t is released (READY while
    attempts are left, otherwise DEAD) and its attempt EXPIRED, no lease that ran
    out remains, every other work is untouched and nothing is published. *)
Theorem recover_completes s v clock t :
  reachable s → (match v with VNone => _finite clock | _ => _finite v end) = Ok t →
  ∃ r s', recover v clock s = (Ok r, s') ∧
    rr_recovered r = (rr_retried r + rr_dead r)%Z ∧
    publications (s_db s') = publications (s_db s) ∧
    (∀ k w, works (s_db s) !! k = Some w →
       works (s_db s') !! k = Some (if lease_expired t w
         then release_work (if (w_max_attempts w <=? w_attempt_count w)%Z then W_DEAD else W_READY)
                t "lease expired" w
         else w)) ∧
    (∀ k w, works (s_db s') !! k = Some w → lease_expired t w = false) ∧
    (∀ a at_ w, attempts (s_db s) !! a = Some at_ → live at_ →
       works (s_db s) !! a_work_id at_ = Some w → lease_expired t w = true →
       ∃ at', attempts (s_db s') !! a = Some at' ∧ a_status at' = A_EXPIRED).
Proof.
  intros R Ht. pose proof (reachable_Inv _ R) as I.
  destruct (recover_loop_run t (s_db s) s I eq_refl) as (s1&Hrun&Rec&Out&Hpub).
  eexists _, _. split.
  { unfold recover. eapply tx_bind_run; [by unfold tx_lift; rewrite Ht|].
    apply _transaction_run. eapply tx_bind_run; [done|].
    eapply tx_bind_run; [exact Hrun|]. eapply tx_bind_run; [done|]. done. }
  simpl. split.
  { apply count_if_split. }
  assert (Hw : ∀ k w, works (s_db s) !! k = Some w →
    works (s_db s1) !! k = Some (if lease_expired t w
      then release_work (retry_outcome w) t "lease expired" w else w)).
  { intros k w Hk. destruct (lease_expired t w) eqn:He.
    - apply Out; [|done]. apply list_elem_of_fmap. exists (k, w). by rewrite elem_of_expired_work.
    - apply (rc_works _ _ _ _ Rec); [done|]. intros ([j y]&->&Hj)%list_elem_of_fmap.
      apply elem_of_expired_work in Hj as [??]. simplify_eq/=. congruence. }
  split; [done|]. split; [done|]. split.
  - intros k w Hk. destruct (works (s_db s) !! k) as [w0|] eqn:Hk0.
    + rewrite (Hw k w0 Hk0) in Hk. simplify_eq. destruct (lease_expired t w0) eqn:He; [|done].
      unfold lease_expired. simpl. rewrite bool_decide_eq_false_2; [done|].
      by destruct (retry_outcome_cases w0) as [[-> _]|[-> _]].
    + by rewrite (rc_only _ _ _ _ Rec k Hk0) in Hk.
  - intros a at_ w Hat Hl Hwk He.
    destruct (evolves_attempts (s_db s) (s_db s1) a at_) as (at'&Hat'&_); [|done|].
    { apply (recover_loop_evolves t (s_db s) s s1 I eq_refl Hrun). }
    exists at'. split; [done|].
    destruct (rc_attempts _ _ _ _ Rec a at' Hat') as (at0&?&_&[->|(_&?&_)]); [|done].
    exfalso. assert (at0 = at_) as -> by congruence.
    destruct (core_live _ (rc_core _ _ _ _ Rec) a at_ Hat' Hl) as (w'&Hw'&Hst&_).
    rewrite (Hw _ _ Hwk), He in Hw'. simplify_eq/=.
    destruct (retry_outcome_cases w) as [[E _]|[E _]]; rewrite E in Hst; done.
Qed.

Lemma recover_completes_witness :
  ∃ r s' w, recover (flt 1000) VNone store4 = (Ok r, s') ∧
    works (s_db s') !! "w2"%string = Some w ∧ w_status w = W_DEAD.
Proof.
  destruct (works (s_db store4) !! "w2"%string) as [w|] eqn:E; [|discriminate E].
  destruct (recover_completes store4 (flt 1000) VNone (float_of_Z 1000))
    as (r&s'&H&_&_&Hw&_); [exact store4_reachable|vm_compute; reflexivity|].
  exists r, s'. rewrite (Hw _ _ E). eexists. split; [done|]. split; [reflexivity|].
  vm_compute in E. injection E as <-. vm_compute. reflexivity.
Defined.

(** C6. The store refines the row machines: one call, whatever it is and whether it
    returns or raises, moves every work, attempt and batch along its machine
    ([work_move], [attempt_move], [batch_move]) and only appends publications,
    memberships and outputs. *)
Theorem store_refines_row_machines s s' :
  reachable s → ctl_step s s' →
  (∀ k, rtc (work_move k) (works (s_db s) !! k) (works (s_db s') !! k)) ∧
  (∀ a, rtc attempt_move (attempts (s_db s) !! a) (attempts (s_db s') !! a)) ∧
  (∀ k, rtc batch_move (batches (s_db s) !! k) (batches (s_db s') !! k)) ∧
  (∃ ps, publications (s_db s') = publications (s_db s) ++ ps) ∧
  (∃ ms, batch_members (s_db s') = batch_members (s_db s) ++ ms) ∧
  (∃ os, output_records (s_db s') = output_records (s_db s) ++ os).
Proof.
  intros R H. destruct (step_evolves s s' (reachable_Inv _ R) H) as [W A B P M O].
  split_and!; done.
Qed.

Lemma store_refines_row_machines_witness :
  rtc (work_move "w1") (works (s_db store2) !! "w1"%string)
    (works (s_db (run_op (OpCommit (VStr "b0") (flt 20)) store2).2) !! "w1"%string).
Proof.
  apply (store_refines_row_machines store2
    (run_op (OpCommit (VStr "b0") (flt 20)) store2).2 store2_reachable).
  eexists (OpCommit (VStr "b0") (flt 20)), _. apply surjective_pairing.
Defined.

(** C22. Late calls change nothing: once a batch is EXPIRED, or active with its lease run
    out at [now], [commit_batch] and [heartbeat_process] raise LeaseLostError and
    [assert_process_fence] raises.  [seal_batch] raises LeaseLostError too, unless the
    batch is already sealed: then it does not look at the lease, and only compares its
    arguments with the stored outputs.  None of them changes the store. *)
Theorem late_calls_raise s k b now v clock :
  _required_text v = Ok k → _finite clock = Ok now →
  batches (s_db s) !! k = Some b →
  (b_status b = B_EXPIRED ∨ (active b ∧ fleb (b_lease_expires_at b) now = true)) →
  commit_batch v clock s = (Err LeaseLostError, s) ∧
  (∀ raw d m, _validated_sha256 d = Ok (b_envelope_sha256 b) →
     _validated_sha256 m = Ok (b_membership_sha256 b) → b_status b ≠ B_SEALED →
     seal_batch v (VList raw) d m clock s = (Err LeaseLostError, s)) ∧
  (b_status b = B_SEALED → ∀ raw d m dig mem, _validated_sha256 d = Ok dig →
     _validated_sha256 m = Ok mem →
     seal_batch v (VList raw) d m clock s = (_verify_existing_seal k b raw dig mem (s_db s), s)) ∧
  (∀ e ext x, e_batch_id e = k → _positive_finite ext = Ok x →
     heartbeat_process e ext clock s = (Err LeaseLostError, s)) ∧
  (∀ e, e_batch_id e = k → ∃ x, assert_process_fence e clock s = (Err x, s)).
Proof.
  intros Hv Hc Hb Hst.
  assert (Hget : get_batch k s = (Ok b, s)).
  { unfold get_batch. eapply tx_bind_run; [done|]. by rewrite Hb. }
  assert (Hlive : b_status b = B_LEASED ∨ b_status b = B_SEALED →
    fleb (b_lease_expires_at b) now = true).
  { intros [E|E]; destruct Hst as [Ee|[_ ?]]; congruence. }
  assert (Hnc : b_status b ≠ B_COMMITTED).
  { destruct Hst as [->|[[->| ->] _]]; done. }
  assert (Hone : ∀ st, bool_decide (b_status b = st) && negb (fleb (b_lease_expires_at b) now) = false
    ∨ (st = B_EXPIRED ∨ st = B_COMMITTED)).
  { intros st. case_bool_decide as E; [|by left]. destruct st; auto; left; simpl;
      by rewrite Hlive by auto. }
  assert (Hno : ∀ st, st = B_LEASED ∨ st = B_SEALED →
    bool_decide (b_status b = st) && negb (fleb (b_lease_expires_at b) now) = false).
  { intros st Hs. destruct (Hone st) as [?|[->| ->]]; [done|by destruct Hs..]. }
  split_and!.
  - unfold commit_batch. eapply tx_bind_run; [by rewrite Hv; simpl; rewrite Hc|].
    apply _transaction_raise. eapply tx_bind_run; [exact Hget|]. eapply tx_bind_run; [done|].
    rewrite bool_decide_eq_false_2 by done. apply tx_bind_raise, tx_require_raise, Hno. auto.
  - intros raw d m Hd Hm Hns. unfold seal_batch.
    eapply tx_bind_run; [by rewrite Hv; simpl; rewrite Hd; simpl; rewrite Hm; simpl; rewrite Hc|].
    apply _transaction_raise. eapply tx_bind_run; [exact Hget|]. eapply tx_bind_run; [done|].
    rewrite bool_decide_eq_false_2 by done. apply tx_bind_raise. unfold _validate_live_seal.
    by rewrite Hno by auto.
  - intros Hse raw d m dig mem Hd Hm. unfold seal_batch.
    eapply tx_bind_run; [by rewrite Hv; simpl; rewrite Hd; simpl; rewrite Hm; simpl; rewrite Hc|].
    unfold _transaction, transaction. unfold mbind, tx_bind. rewrite Hget. simpl.
    rewrite bool_decide_eq_true_2 by done. unfold tx_lift.
    destruct (_verify_existing_seal _ _ _ _ _ _) as [[]|]; [done|by destruct s].
  - intros e ext x Ee Hx. unfold heartbeat_process.
    eapply tx_bind_run; [by rewrite Hx; simpl; rewrite Hc|].
    apply _transaction_raise. eapply tx_bind_run; [done|]. rewrite Ee, Hb.
    apply tx_bind_raise, tx_require_raise, Hno. auto.
  - intros e Ee. unfold assert_process_fence, process_batch_state. rewrite Ee.
    destruct (_assert_process_rows e (b_status b) b (s_db s)) as [[]|x] eqn:Ha.
    + exists LeaseLostError. eapply tx_bind_run.
      { eapply tx_bind_run; [exact Hget|]. eapply tx_bind_run; [done|].
        eapply tx_bind_run; [by rewrite Ha|]. done. }
      simpl. rewrite bool_decide_eq_false_2 by done. destruct (bool_decide _ || _) eqn:El; [|done].
      eapply tx_bind_run; [by rewrite Hc|]. apply tx_require_raise. rewrite Hlive; [done|].
      apply orb_true_iff in El as [El|El]; btrue; auto.
    + exists x. apply tx_bind_raise. eapply tx_bind_run; [exact Hget|]. eapply tx_bind_run; [done|].
      apply tx_bind_raise. by rewrite Ha.
Qed.

Lemma late_calls_raise_witness :
  commit_batch (VStr "c0") (flt 2000) store5 = (Err LeaseLostError, store5).
Proof.
  destruct (batches (s_db store5) !! "c0"%string) as [b|] eqn:E; [|discriminate E].
  apply (late_calls_raise store5 "c0" b (float_of_Z 2000)).
  - reflexivity.
  - vm_compute. reflexivity.
  - exact E.
  - left. vm_compute in E. injection E as <-. reflexivity.
Defined.

(** C8. The functional specification of a claim that returns a batch: its items are
    a prefix, in queue order, of the ready works in scope of one runtime; there
    are between [minimum_items] and [max_items] of them; each work was READY and
    is now LEASED by the new attempt of its item under the next fence until
    now + lease; the batch is new; no other work and no publication changes. *)
Theorem claim_leases_its_items root ids args clock s cb s' :
  claim root ids args clock s = (Ok (Some cb), s') →
  ∃ q rows, check_claim args clock = Ok q ∧
    cb_lease_expires_at cb = fadd (cr_now q) (cr_lease q) ∧
    rows `prefix_of` order_by queue_order
      (List.filter (has_runtime (cb_runtime_key cb)) (eligible (cr_scope q) (cr_now q) (s_db s))) ∧
    Forall2 claim_of rows (cb_items cb) ∧
    (cr_minimum_items q ≤ Z.of_nat (length (cb_items cb)) ≤ cr_max_items q)%Z ∧
    (∀ limit, cr_maximum_active q = Some limit → (count_active (s_db s) < limit)%Z) ∧
    batches (s_db s) !! cb_batch_id cb = None ∧
    (∃ b, batches (s_db s') = <[cb_batch_id cb := b]> (batches (s_db s)) ∧
       b_status b = B_LEASED ∧ b_owner b = cr_owner q ∧
       b_envelope_sha256 b = cb_envelope_sha256 cb) ∧
    (∀ c, c ∈ cb_items cb → ∃ w at_,
       works (s_db s) !! c_work_id c = Some w ∧ w_status w = W_READY ∧
       works (s_db s') !! c_work_id c = Some (leased_work q c (cb_lease_expires_at cb) w) ∧
       attempts (s_db s) !! c_attempt_id c = None ∧
       attempts (s_db s') !! c_attempt_id c = Some at_ ∧ a_status at_ = A_LEASED ∧
       a_batch_id at_ = cb_batch_id cb ∧ a_fence at_ = (w_fence w + 1)%Z) ∧
    (∀ k, k ∉ c_work_id <$> cb_items cb → works (s_db s') !! k = works (s_db s) !! k) ∧
    publications (s_db s') = publications (s_db s).
Proof.
  intros H. apply claim_Ok in H as (q&Hq&[Hlim Hrt Hexp (n&wc&mk&Hp&Hmin&Hne&Hf2)
    Hfresh (b&Hbs&Hst&Hown&_&_&_&_&Henv&_&Cl)]).
  exists q, (take n (candidates q (cb_runtime_key cb) (s_db s))). split_and!; try done.
  - etrans; [apply prefix_take|]. apply prefix_take.
  - rewrite <-(Forall2_length _ _ _ Hf2).
    apply largest_prefix_sublist in Hp as (k&Hk&Hkm). simpl in Hk. rewrite Hk, length_take. lia.
  - rewrite <-(Forall2_length _ _ _ Hf2), length_take. unfold candidates. rewrite length_take.
    assert (0 ≤ cr_max_items q)%Z; [|lia].
    unfold check_claim in Hq. res_inv Hq. simplify_eq/=.
    match goal with E : int_between 1 100 _ = Ok _ |- _ => apply int_between_Ok in E; lia end.
  - eauto 10.
  - intros c Hc. destruct (cl_done _ _ _ _ _ _ Cl c Hc) as (w&at_&?&?&Hfe&?&?&?&?&?&?&?).
    exists w, at_. split_and!; try done. congruence.
  - intros k Hk. by apply (cl_other _ _ _ _ _ _ Cl).
  - apply (cl_publications _ _ _ _ _ _ Cl).
Qed.

Lemma claim_leases_its_items_witness :
  batches (s_db store3) !! cb_batch_id batch_c = None ∧
  publications (s_db store4) = publications (s_db store3).
Proof.
  destruct (claim_leases_its_items "/root" (ids "c") claim_args (flt 30) store3 batch_c store4
    claim_c) as (q&rows&_&_&_&_&_&_&Hf&_&_&_&Hp). exact (conj Hf Hp).
Defined.

(** C20. Claim admission takes the widest prefix that fits the lease: the chosen
    prefix is at least the minimum, its projected duration plus the margin stays
    below the lease, and no longer prefix of the rows does. *)
Theorem claim_prefix_is_widest workers speed factor margin lease rows minimum p w mk :
  _largest_admissible_claim_prefix workers speed factor margin lease rows minimum
    = Ok (p, w, mk) →
  ∃ n projected, p = take n rows ∧ (n = minimum ∨ minimum < n ≤ length rows)%nat ∧
    projection workers speed factor p = Ok (w, mk, projected) ∧
    fleb lease (fadd projected margin) = false ∧
    ∀ m w' mk' projected', (n < m ≤ length rows)%nat →
      projection workers speed factor (take m rows) = Ok (w', mk', projected') →
      fltb (fadd projected' margin) lease = false.
Proof.
  unfold _largest_admissible_claim_prefix. intros H. res_inv H. destruct x as [[w0 mk0] pr0].
  destruct (fleb lease _) eqn:Hfit; [done|]. res_inv H.
  assert (Hwide : ∀ j t, widest_prefix workers speed factor margin lease rows minimum j = Ok t →
    match t with
    | Some (p, w, mk) => ∃ n projected, p = take n rows ∧ (minimum < n ≤ j)%nat ∧
        projection workers speed factor p = Ok (w, mk, projected) ∧
        fltb (fadd projected margin) lease = true ∧
        ∀ m w' mk' projected', (n < m ≤ j)%nat →
          projection workers speed factor (take m rows) = Ok (w', mk', projected') →
          fltb (fadd projected' margin) lease = false
    | None => ∀ m w' mk' projected', (minimum < m ≤ j)%nat →
          projection workers speed factor (take m rows) = Ok (w', mk', projected') →
          fltb (fadd projected' margin) lease = false
    end).
  { induction j as [|j IH]; intros t Ht; cbn [widest_prefix] in Ht.
    - injection Ht as <-. intros. lia.
    - destruct (S j <=? minimum)%nat eqn:E.
      { apply Nat.leb_le in E. injection Ht as <-. intros. lia. }
      apply Nat.leb_gt in E. res_inv Ht. destruct x0 as [[w1 mk1] pr1].
      destruct (fltb (fadd pr1 margin) lease) eqn:Hlt.
      + injection Ht as <-. exists (S j), pr1. split_and!; try done; [lia..|]. intros; lia.
      + specialize (IH t Ht).
        assert (Hnew : ∀ m w' mk' projected', m = S j →
          projection workers speed factor (take m rows) = Ok (w', mk', projected') →
          fltb (fadd projected' margin) lease = false) by (intros; subst; congruence).
        destruct t as [[[p' w'] mk']|].
        * destruct IH as (n&pr&?&?&?&?&Hmax). exists n, pr. split_and!; try done; [lia..|].
          intros m ??? Hm Hpr. destruct (decide (m = S j)); [by eapply Hnew|].
          eapply Hmax; [|done]. lia.
        * intros m ??? Hm Hpr. destruct (decide (m = S j)); [by eapply Hnew|].
          eapply IH; [|done]. lia. }
  match goal with E : widest_prefix _ _ _ _ _ _ _ _ = Ok _ |- _ => apply Hwide in E as Hw end.
  match goal with x : option _ |- _ => destruct x as [[[p' w'] mk']|] end; simplify_eq/=.
  - destruct Hw as (n&pr&->&?&Hpr&Hlt&Hmax). exists n, pr. split_and!; try done; [lia|].
    by apply fltb_not_fleb.
  - exists minimum, pr0. split_and!; try done. by left.
Qed.

Lemma claim_prefix_is_widest_witness :
  let rows := [("a"%string, new_work {| q_work_id := "a"; q_payload := []; q_runtime_key := "cpu";
      q_duration_seconds := float_of_Z 10; q_config_sha256 := "c"; q_release_digest := "r";
      q_max_attempts := 2; q_available_at := None |} sha_a fzero)]%string in
  ∃ n, rows = take n rows ∧ n = 1%nat.
Proof.
  intros rows.
  destruct (claim_prefix_is_widest 1 (float_of_Z 1) (float_of_Z 2) (float_of_Z 5) (float_of_Z 100)
    rows 1 rows 1 (float_of_Z 10)) as (n&pr&Hn&Hb&_); [vm_compute; reflexivity|].
  exists n. split; [exact Hn|]. destruct Hb as [Hb|Hb]; [exact Hb|simpl in Hb; lia].
Defined.

(** Registration: with valid arguments [register] inserts an unknown work as
    READY with fence 0 and no attempt, returns the stored row of a work with the
    same immutable identity and changes nothing, and raises
    ImmutableConflictError for any other identity. *)
Theorem register_decides a p rt du cf rel mx av clock s q sha now :
  check_register a p rt du cf rel mx av clock = Ok (q, sha, now) →
  register a p rt du cf rel mx av clock s =
    match works (s_db s) !! q_work_id q with
    | Some w => if identity_eqb (row_identity w) (identity_of q sha)
                then (Ok (_registered (q_work_id q) w), s)
                else (Err ImmutableConflictError, s)
    | None => (Ok (_registered (q_work_id q) (new_work q sha now)),
               with_db s (set_work (q_work_id q) (new_work q sha now) (s_db s)))
    end.
Proof.
  intros Hc. unfold register. eapply tx_bind_run; [by rewrite Hc|]. cbv beta iota.
  destruct (works (s_db s) !! q_work_id q) as [w|] eqn:Hw.
  - destruct (identity_eqb _ _) eqn:Hi.
    + apply _transaction_run. unfold register_row. eapply tx_bind_run; [done|]. rewrite Hw.
      eapply tx_bind_run; [by rewrite Hi|]. done.
    + apply _transaction_raise. unfold register_row. eapply tx_bind_run; [done|]. rewrite Hw.
      by apply tx_bind_raise, tx_require_raise.
  - apply _transaction_run. unfold register_row. eapply tx_bind_run; [done|]. rewrite Hw.
    eapply tx_bind_run; [|done]. unfold insert_work. eapply tx_bind_run; [done|].
    eapply tx_bind_run; [|done]. unfold tx_require, require. rewrite Hw. simpl.
    unfold check_register in Hc. res_inv Hc. destruct p; try done. res_inv Hc. simplify_eq.
    match goal with E : int_between _ _ _ = Ok _ |- _ => apply int_between_Ok in E as [_ E] end.
    match goal with E : _positive_finite _ = Ok _ |- _ => apply positive_finite_Ok in E as [Hd _] end.
    unfold work_check. simpl. rewrite Hd, !(proj2 (Z.ltb_lt _ _)) by lia. done.
Qed.

Lemma register_decides_witness :
  (register (VStr "w1") (VDict [("path", VStr "w1")]%string) (VStr "cpu") (flt 10)
    (VStr "cfg") (VStr "other") (VInt 2) VNone (flt 50) store3).1 = Err ImmutableConflictError.
Proof.
  erewrite (register_decides _ _ _ _ _ _ _ _ _ store3); [|vm_compute; reflexivity].
  vm_compute. reflexivity.
Defined.

(** Registration is idempotent for ever: a registration that succeeded can be
    repeated at any later time; it returns the same work under the same digest and
    changes nothing. *)
Theorem register_repeats a p rt du cf rel mx av clock s r s1 s2 clock' q sha now :
  reachable s → register a p rt du cf rel mx av clock s = (Ok r, s1) → rtc ctl_step s1 s2 →
  check_register a p rt du cf rel mx av clock' = Ok (q, sha, now) →
  ∃ r2, register a p rt du cf rel mx av clock' s2 = (Ok r2, s2) ∧
    rw_work_id r2 = rw_work_id r ∧ rw_payload_sha256 r2 = rw_payload_sha256 r.
Proof.
  intros R H Hst Hc'.
  assert (R1 : reachable s1).
  { eapply reachable_step; [exact R|]. exists (OpRegister a p rt du cf rel mx av clock), (Ok tt).
    simpl. unfold drop. by eapply tx_bind_run. }
  assert (∃ now0, check_register a p rt du cf rel mx av clock = Ok (q, sha, now0)) as [now0 Hc].
  { unfold register in H. apply tx_bind_Ok in H as ([[q0 sha0] now0]&s0&[Hc _]%tx_lift_Ok&_).
    exists now0. rewrite Hc. unfold check_register in Hc, Hc'. res_inv Hc. res_inv Hc'.
    destruct p; try done. res_inv Hc. res_inv Hc'. congruence. }
  pose proof (register_Ok_row _ _ _ _ _ _ _ _ _ _ _ _ _ _ _ Hc H) as (w1&Hw1&Hid1&Er).
  destruct (history _ _ R1 Hst) as [E R2].
  destruct (evolves_works _ _ _ _ E Hw1) as (w2&Hw2&[[Hs _ _] _ _]).
  exists (_registered (q_work_id q) w2). split.
  - unfold register. eapply tx_bind_run; [by rewrite Hc'|]. apply _transaction_run.
    unfold register_row. eapply tx_bind_run; [done|]. rewrite Hw2.
    eapply tx_bind_run; [by rewrite Hs, Hid1|]. done.
  - rewrite Er. simpl. split; [done|]. by injection Hs.
Qed.

Lemma register_repeats_witness :
  ∃ r r2, register (VStr "w3") (VDict []) (VStr "cpu") (flt 10) (VStr "cfg") (VStr "rel")
      (VInt 2) VNone (flt 50) store0 = (Ok r, with_db store0 (set_work "w3" (new_work
        {| q_work_id := "w3"; q_payload := []; q_runtime_key := "cpu";
           q_duration_seconds := float_of_Z 10; q_config_sha256 := "cfg";
           q_release_digest := "rel"; q_max_attempts := 2; q_available_at := None |}
        (sha256_text "{}") (float_of_Z 50)) empty_db)) ∧ rw_work_id r2 = rw_work_id r.
Proof.
  eexists. edestruct (register_repeats (VStr "w3") (VDict []) (VStr "cpu") (flt 10) (VStr "cfg")
    (VStr "rel") (VInt 2) VNone (flt 50) store0) as (r2&_&Hid&_).
  - exact store0_reachable.
  - vm_compute. reflexivity.
  - reflexivity.
  - instantiate (4 := flt 60). vm_compute. reflexivity.
  - exists r2. split; [|exact Hid]. vm_compute. reflexivity.
Defined.

(** Replay is idempotent: after a successful [replay] the same request repeated
    at once returns the very same replay record and changes nothing. *)
Theorem replay_repeats work_id operator reason additional clock s r s' clock' now' :
  replay work_id operator reason additional clock s = (Ok r, s') →
  _finite clock' = Ok now' →
  replay work_id operator reason additional clock' s' = (Ok r, s').
Proof.
  intros H Hc'.
  assert (∃ k actor why n w, _required_text work_id = Ok k ∧ _required_text operator = Ok actor ∧
    _required_text reason = Ok why ∧ int_between 1 100 additional = Ok n ∧
    works (s_db s') !! k = Some w ∧ w_status w ≠ W_DEAD ∧
    _matching_last_replay (s_db s') w actor why n = Some r)
    as (k&actor&why&n&w&H1&H2&H3&H4&Hw&Hst&Hm).
  { apply replay_Ok in H as [(k&actor&why&n&w&?&?&?&?&?&?&?&->)|
      (k&actor&why&n&w&row&now&?&?&?&Hn&Hw&Hst&Hc&Hfresh&Erow&Er&->)].
    - by exists k, actor, why, n, w.
    - exists k, actor, why, n, (replayed_work n (w_replay_generation w + 1) (rp_replay_id r) now w).
      simpl. rewrite lookup_insert_eq. split_and!; try done.
      unfold _matching_last_replay. simpl. rewrite lookup_insert_eq, Erow. simpl.
      rewrite !bool_decide_eq_true_2, !Z.eqb_refl by done. simpl. by rewrite Er at 2. }
  unfold replay. eapply tx_bind_run; [by rewrite H1; simpl; rewrite H2; simpl; rewrite H3; simpl;
    rewrite H4; simpl; rewrite Hc'|].
  apply _transaction_run. eapply tx_bind_run; [done|]. rewrite Hw.
  rewrite bool_decide_eq_false_2 by done. simpl. by rewrite Hm.
Qed.

Lemma replay_repeats_witness :
  replay (VStr "w2") (VStr "op") (VStr "why") (VInt 1) (flt 3000) store6 = (Ok replay_w2, store6).
Proof.
  apply (replay_repeats (VStr "w2") (VStr "op") (VStr "why") (VInt 1) (flt 2000) store5 replay_w2
    store6 (flt 3000) (float_of_Z 3000) replayed_w2).
  vm_compute. reflexivity.
Defined.

(** C21. Sealing records exactly the terminal outputs.  Whenever [seal_batch] succeeds,
    under the envelope and membership digests of the batch, the outputs name every
    attempt of the batch and nothing else; each attempt is SEALED with the path, digest
    and outcome given for it, every execution record is stored, and the batch is SEALED.
    If the batch was LEASED, the whole effect is to seal those attempts and the batch and
    to append one output row per execution record, numbered in order, and nothing else.
    If it was SEALED before, nothing changes, and the outputs and their records are those
    stored, as multisets. *)
Theorem seal_records_outputs s v outputs env mem clock s' k b :
  reachable s → seal_batch v outputs env mem clock s = (Ok tt, s') →
  _required_text v = Ok k → batches (s_db s) !! k = Some b →
  ∃ raw os now b', outputs = VList raw ∧ _normalize_outputs raw = Ok os ∧ _finite clock = Ok now ∧
    _validated_sha256 env = Ok (b_envelope_sha256 b) ∧
    _validated_sha256 mem = Ok (b_membership_sha256 b) ∧
    (∀ a x, attempts (s_db s) !! a = Some x → a_batch_id x = k →
       ∃ o, o ∈ os ∧ out_attempt_id o = a ∧ out_work_id o = a_work_id x) ∧
    (∀ o, o ∈ os → (∃ x, attempts (s_db s) !! out_attempt_id o = Some x ∧ a_batch_id x = k ∧
       a_work_id x = out_work_id o) ∧
       carries o (s_db s')) ∧
    batches (s_db s') !! k = Some b' ∧ b_status b' = B_SEALED ∧
    (b_status b = B_LEASED ∧ fleb (b_lease_expires_at b) now = false ∧
       s' = with_db s (sealed_db now k b os (s_db s)) ∧
       output_tuple <$> output_records (s_db s') =
         (output_tuple <$> output_records (s_db s)) ++ sealed_tuples os
     ∨ b_status b = B_SEALED ∧ s' = s ∧
       (seal_tuple <$> os) ≡ₚ (stored_tuple <$> batch_attempts k (s_db s)) ∧
       sealed_tuples os ≡ₚ (output_tuple <$> batch_outputs k (s_db s))).
Proof.
  intros R H Hv Hb. pose proof (reachable_Inv _ R) as I. pose proof H as Hok.
  apply seal_batch_Ok in Hok as (k'&raw&d&m&now&b0&Hv'&->&Hc&Hd&Hm&Hb0&Hcase).
  assert (k' = k) as -> by congruence. assert (b0 = b) as -> by congruence.
  destruct Hcase as [(Hst&Hver&->)|(Hst&Hl&_&_&os&s1&Hn&_&_&Hloop&Hup)].
  - apply verify_existing_seal_Ok in Hver as (os&Hn&->&->&Hp&Hr).
    destruct (sealed_again k b os _ I Hb Hst Hp Hr) as [H1 H2].
    exists raw, os, now, b. split_and!; try done. right. done.
  - destruct (seal_outputs _ _ _ _ _ _ _ _ _ R H Hv Hb Hst)
      as (raw'&os'&b'&[= <-]&Hn'&Hd'&Hm'&H1&H2&Hb'&Hst').
    assert (os' = os) as -> by congruence. exists raw, os, now, b'. split_and!; try done. left.
    apply seal_loop_exact in Hloop as ->. apply modify_db_Ok in Hup. simpl in Hup. rewrite Hb in Hup.
    assert (s' = with_db s (sealed_db now k b os (s_db s))) as -> by exact Hup.
    split_and!; [done..|]. simpl. by rewrite fmap_app, sealed_rows_tuples.
Qed.

Lemma sealed_b0 : seal_batch (VStr "b0") outputs0 (VStr (batch_digests "b0" store1).1)
  (VStr (batch_digests "b0" store1).2) (flt 10) store1 = (Ok tt, store2).
Proof. vm_cast_no_check (@eq_refl (result unit * Store) (Ok tt, store2)). Qed.

Lemma seal_records_outputs_witness :
  ∃ raw os, outputs0 = VList raw ∧ _normalize_outputs raw = Ok os ∧
    (∀ o, o ∈ os → carries o (s_db store2)) ∧
    output_tuple <$> output_records (s_db store2) =
      (output_tuple <$> output_records (s_db store1)) ++ sealed_tuples os.
Proof.
  destruct (batches (s_db store1) !! "b0"%string) as [b|] eqn:E; [|discriminate E].
  destruct (seal_records_outputs store1 (VStr "b0") outputs0 (VStr (batch_digests "b0" store1).1)
    (VStr (batch_digests "b0" store1).2) (flt 10) store2 "b0" b)
    as (raw&os&now&b'&H1&H2&_&_&_&_&H3&_&_&[(_&_&_&H4)|(H4&_)]).
  - exact store1_reachable.
  - exact sealed_b0.
  - reflexivity.
  - exact E.
  - exists raw, os. split; [exact H1|]. split; [exact H2|]. split; [|exact H4].
    intros o Ho. apply (H3 o Ho).
  - exfalso. vm_compute in E. injection E as <-. discriminate H4.
Defined.
