(* ===== verification/PyNum.v ===== *)
(** * Numbers of Python texts

    [int(text)] and [float(text)], and [float] of a dynamic value. *)
From S2P Require Export Prelude PyVal Json.

(** Digits with single underscores between them, and the rest. *)
Fixpoint digit_run (l : list Z) : list Z * list Z :=
  match l with
  | z :: l' =>
      if is_digit z then let '(ds, r) := digit_run l' in (z :: ds, r)
      else if (z =? 95)%Z
      then match l' with
           | y :: _ => if is_digit y then let '(ds, r) := digit_run l' in
                                          match ds with [] => ([], l) | _ => (ds, r) end
                       else ([], l)
           | [] => ([], l)
           end
      else ([], l)
  | [] => ([], [])
  end.

(** A run that starts with a digit. *)
Definition digit_part (l : list Z) : option (list Z * list Z) :=
  match l with
  | z :: _ => if is_digit z then Some (digit_run l) else None
  | [] => None
  end.

(** The sign, and the rest. *)
Definition signed (l : list Z) : bool * list Z :=
  match l with
  | 45%Z :: l' => (true, l')
  | 43%Z :: l' => (false, l')
  | _ => (false, l)
  end.

(** [int(text)]. *)
Definition py_int_of_text (s : string) : result Z :=
  let '(neg, l) := signed (codes_of_str (str_strip s)) in
  match digit_part l with
  | Some (ds, []) => Ok (if neg then - dec_value ds else dec_value ds)%Z
  | _ => Err ValueError
  end.

Definition lower_ascii (z : Z) : Z := if ((65 <=? z) && (z <=? 90))%Z then (z + 32)%Z else z.

Definition named_float (neg : bool) (l : list Z) : option Float :=
  let t := str_of_codes (lower_ascii <$> l) in
  if String.eqb t "inf" || String.eqb t "infinity" then Some (SpecFloat.S754_infinity neg)
  else if String.eqb t "nan" then Some SpecFloat.S754_nan else None.

(** [.ddd], after the digits before the point. *)
Definition point_part (l : list Z) : list Z * list Z :=
  match l with
  | 46%Z :: l' => match digit_part l' with Some (ds, r) => (ds, r) | None => ([], l') end
  | _ => ([], l)
  end.

(** The exponent; None is a syntax error. *)
Definition exponent_part (l : list Z) : option (Z * list Z) :=
  match l with
  | z :: l' =>
      if ((z =? 101) || (z =? 69))%Z then
        let '(neg, l'') := signed l' in
        match digit_part l'' with
        | Some (ds, r) => Some ((if neg then - dec_value ds else dec_value ds)%Z, r)
        | None => None
        end
      else Some (0%Z, l)
  | [] => Some (0%Z, [])
  end.

(** [float(text)]. *)
Definition py_float_of_text (s : string) : result Float :=
  let '(neg, l) := signed (codes_of_str (str_strip s)) in
  match named_float neg l with
  | Some x => Ok x
  | None =>
      let '(whole, l1) := default ([], l) (digit_part l) in
      let '(fraction, l2) := point_part l1 in
      match whole ++ fraction, exponent_part l2 with
      | (_ :: _) as ds, Some (e, []) =>
          Ok (decimal_float neg (dec_value ds) (e - Z.of_nat (length fraction)))
      | _, _ => Err ValueError
      end
  end.

(** [float(v)]. *)
Definition py_float (v : pyval) : result Float :=
  match v with
  | VInt z => py_float_of_int z
  | VFloat f => Ok f
  | VBool b => Ok (float_of_Z (if b then 1 else 0))
  | VStr s => py_float_of_text s
  | _ => Err TypeError
  end.

Example float_texts : py_float_of_text " 1_0.5e-1 " = Ok (flit 105 100) ∧
  py_float_of_text "-.5" = Ok (flit (-1) 2) ∧ py_float_of_text "1." = Ok (float_of_Z 1) ∧
  py_float_of_text "." = Err ValueError ∧ py_float_of_text "1__0" = Err ValueError ∧
  py_float_of_text "-Inf" = Ok (SpecFloat.S754_infinity true).
Proof. vm_compute. repeat split. Qed.
