(* ===== verification/CpuRuntime.v ===== *)
(** * cpu_runtime.py: native thread budgets

    How many native threads one worker of an executor may use, the limits that the
    process applies to its libraries, and the readback that rejects more.  PyTorch,
    OpenCV and their settings are a parameter. *)
From S2P Require Export Prelude PyDict PyVal PyNum.

Module Cpu.

Record ThreadBudget := {
  tb_driver_cores : Z;
  tb_active_workers : Z;
  tb_threads_per_worker : Z;
  tb_interop_threads_configured : option bool;
}.

(** [type(v) is not int or v < 1: raise ValueError]. *)
Definition positive (v : pyval) : result Z :=
  match v with
  | VInt z => if (z <? 1)%Z then Err ValueError else Ok z
  | _ => Err ValueError
  end.

Definition calculate_thread_budget (driver_cores active_workers : pyval) : result ThreadBudget :=
  cores ← positive driver_cores;
  workers ← positive active_workers;
  Ok {| tb_driver_cores := cores; tb_active_workers := workers;
        tb_threads_per_worker := Z.max 1 (cores / workers);
        tb_interop_threads_configured := None |}.

(** The budgets of the executors on which a task can run. *)
Fixpoint candidate_budgets (task_cpus planned_concurrency : Z) (executor_cores : list pyval)
    : result (list ThreadBudget) :=
  match executor_cores with
  | [] => Ok []
  | c :: executor_cores' =>
      cores ← positive c;
      let scheduler_slots := (cores / task_cpus)%Z in
      if (scheduler_slots <? 1)%Z then candidate_budgets task_cpus planned_concurrency executor_cores'
      else
        budget ← calculate_thread_budget (VInt cores) (VInt (Z.min planned_concurrency scheduler_slots));
        rest ← candidate_budgets task_cpus planned_concurrency executor_cores';
        Ok (budget :: rest)
  end.

(** The key tuples of [min], in order. *)
Definition budget_ltb (a b : ThreadBudget) : bool :=
  if negb (tb_threads_per_worker a =? tb_threads_per_worker b)%Z
  then (tb_threads_per_worker a <? tb_threads_per_worker b)%Z
  else if negb (tb_driver_cores a =? tb_driver_cores b)%Z
  then (tb_driver_cores a <? tb_driver_cores b)%Z
  else (tb_active_workers a <? tb_active_workers b)%Z.

(** [min(...)]: the first of the least. *)
Definition least_budget (first : ThreadBudget) (rest : list ThreadBudget) : ThreadBudget :=
  fold_left (λ best b, if budget_ltb b best then b else best) rest first.

Definition calculate_placement_safe_thread_budget (executor_cores : list pyval)
    (task_cpus planned_concurrency : pyval) : result ThreadBudget :=
  cpus ← positive task_cpus;
  planned ← positive planned_concurrency;
  candidates ← candidate_budgets cpus planned executor_cores;
  match candidates with
  | [] => Err ValueError
  | first :: rest => Ok (least_budget first rest)
  end.

(** ** The process *)

(** PyTorch and OpenCV: their state, its setters and getters.  The number of
    inter-operation threads can no longer be set once the pool has started. *)
Class NativeLibraries (Libs : Type) := {
  torch_set_num_threads : Z → Libs → Libs;
  torch_set_num_interop_threads : Z → Libs → option Libs;
  cv2_setNumThreads : Z → Libs → Libs;
  torch_get_num_threads : Libs → Z;
  torch_get_num_interop_threads : Libs → Z;
  cv2_getNumThreads : Libs → Z;
}.

Definition _THREAD_ENVIRONMENT_VARIABLES : list string :=
  ["OMP_NUM_THREADS"; "MKL_NUM_THREADS"; "OPENBLAS_NUM_THREADS"; "NUMEXPR_NUM_THREADS";
   "VECLIB_MAXIMUM_THREADS"]%string.

Section process.
Context {Libs : Type} {NL : NativeLibraries Libs}.

(** The module's budget, the environment, the libraries. *)
Record Process := {
  ps_budget : option ThreadBudget;
  ps_environ : gmap string string;
  ps_libs : Libs;
}.

(** Decimal text of an integer: [str(n)]. *)
Definition threads_text (n : Z) : string := str_of_codes (int_codes n).

(** The part that sets the limits of the libraries, once. *)
Definition native_limits (budget : ThreadBudget) (p : Process) : Process :=
  let n := tb_threads_per_worker budget in
  let libs := torch_set_num_threads n (ps_libs p) in
  let '(configured, libs) :=
    match torch_set_num_interop_threads 1 libs with
    | Some libs' => (true, libs')
    | None => (bool_decide (torch_get_num_interop_threads libs = 1%Z), libs)
    end in
  {| ps_budget := Some {| budget with tb_interop_threads_configured := Some configured |};
     ps_environ := ps_environ p;
     ps_libs := cv2_setNumThreads n libs |}.

Definition same_threads (budget : ThreadBudget) (o : option ThreadBudget) : bool :=
  match o with
  | None => true
  | Some b => (tb_threads_per_worker b =? tb_threads_per_worker budget)%Z
  end.

Definition _apply_thread_budget (budget : ThreadBudget) (apply_native_limits : bool)
    : tx Process ThreadBudget :=
  p ← tx_get;
  tx_require (negb apply_native_limits || same_threads budget (ps_budget p)) ValueError;;
  let threads := threads_text (tb_threads_per_worker budget) in
  tx_modify (λ p, {| p with ps_environ :=
    fold_left (λ env name, <[name := threads]> env) _THREAD_ENVIRONMENT_VARIABLES (ps_environ p) |});;
  if apply_native_limits then
    tx_modify (λ p, match ps_budget p with None => native_limits budget p | Some _ => p end);;
    p' ← tx_get;
    mret (default budget (ps_budget p'))
  else mret budget.

Definition configure_cpu_runtime (driver_cores active_workers : pyval) (apply_native_limits : bool)
    : tx Process ThreadBudget :=
  budget ← tx_lift (calculate_thread_budget driver_cores active_workers);
  _apply_thread_budget budget apply_native_limits.

Definition configure_placement_safe_cpu_runtime (executor_cores : list pyval)
    (task_cpus planned_concurrency : pyval) (apply_native_limits : bool) : tx Process ThreadBudget :=
  budget ← tx_lift (calculate_placement_safe_thread_budget executor_cores task_cpus planned_concurrency);
  _apply_thread_budget budget apply_native_limits.

(** ** Readback *)

Record EffectiveThreadSettings := {
  et_environment_variables : list (string * option string);
  et_torch_num_threads : Z;
  et_torch_num_interop_threads : Z;
  et_opencv_num_threads : Z;
  et_onnx_intra_op_threads : option Z;
  et_onnx_inter_op_threads : option Z;
}.

Definition _onnx_thread_override (environ : gmap string string) (name : string) : option Z :=
  match environ !! name with
  | None => None
  | Some raw => match py_int_of_text raw with Ok z => Some z | Err _ => None end
  end.

Definition read_effective_thread_settings (p : Process) : EffectiveThreadSettings := {|
  et_environment_variables := (λ name, (name, ps_environ p !! name)) <$> _THREAD_ENVIRONMENT_VARIABLES;
  et_torch_num_threads := torch_get_num_threads (ps_libs p);
  et_torch_num_interop_threads := torch_get_num_interop_threads (ps_libs p);
  et_opencv_num_threads := cv2_getNumThreads (ps_libs p);
  et_onnx_intra_op_threads := _onnx_thread_override (ps_environ p) "PC_ONNX_INTRA_OP_THREADS";
  et_onnx_inter_op_threads := _onnx_thread_override (ps_environ p) "PC_ONNX_INTER_OP_THREADS" |}.

Definition above (limit : Z) (o : option Z) : bool :=
  match o with Some z => (limit <? z)%Z | None => false end.

(** The names of the settings above the budget. *)
Definition thread_offenders (budget : ThreadBudget) (s : EffectiveThreadSettings)
    : result (list string) :=
  let limit := tb_threads_per_worker budget in
  variables ← filter_result (λ nv, match nv.2 with
    | None => Ok false
    | Some value => z ← py_int_of_text value; Ok (limit <? z)%Z
    end) (et_environment_variables s);
  let offender b name := if (b : bool) then [name] else [] in
  Ok (concat [offender (limit <? et_torch_num_threads s)%Z "torch_num_threads"%string;
              offender (1 <? et_torch_num_interop_threads s)%Z "torch_num_interop_threads"%string;
              offender (limit <? et_opencv_num_threads s)%Z "opencv_num_threads"%string;
              variables.*1;
              offender (above limit (et_onnx_intra_op_threads s)) "onnx_intra_op_threads"%string;
              offender (above limit (et_onnx_inter_op_threads s)) "onnx_inter_op_threads"%string]).

(** ThreadOversubscriptionError is a RuntimeError. *)
Definition verify_effective_thread_settings (budget : ThreadBudget) (p : Process)
    : result EffectiveThreadSettings :=
  let settings := read_effective_thread_settings p in
  offenders ← thread_offenders budget settings;
  match offenders with
  | [] => Ok settings
  | _ => Err ThreadOversubscriptionError
  end.
End process.

End Cpu.
