(* ===== verification/ProcessEnvelope.v ===== *)
(** * sjd_process.py: the claim envelope of a process batch

    Argument checks of the module, and [verify_envelope], which turns the JSON of
    a claim into a [VerifiedEnvelope] after re-deriving every digest. *)
From S2P Require Export Prelude PyVal Json Sha256 ControlTypes ControlClaim ControlProcess ControlEnvelope.

Module Process.

(** ** Checks: every failure is a [ProcessValidationError] *)

Definition _text (v : pyval) : result string :=
  match v with
  | VStr s => if is_blank s then Err ProcessValidationError else Ok s
  | _ => Err ProcessValidationError
  end.

Definition _sha_text (v : pyval) : result string :=
  s ← _text v; if is_sha256 s then Ok s else Err ProcessValidationError.

(** [float(value)] of an int can overflow. *)
Definition _finite (v : pyval) : result Float :=
  match v with
  | VInt z => py_float_of_int z
  | VFloat f => if fisfinite f then Ok f else Err ProcessValidationError
  | _ => Err ProcessValidationError
  end.

Definition _positive_float (v : pyval) : result Float :=
  r ← _finite v; if fleb r fzero then Err ProcessValidationError else Ok r.

Definition _nonnegative_float (v : pyval) : result Float :=
  r ← _finite v; if fltb r fzero then Err ProcessValidationError else Ok r.

Definition _positive_int (v : pyval) : result Z :=
  match v with
  | VInt z => if (z <? 1)%Z then Err ProcessValidationError else Ok z
  | _ => Err ProcessValidationError
  end.

Definition _nonnegative_int (v : pyval) : result Z :=
  match v with
  | VInt z => if (z <? 0)%Z then Err ProcessValidationError else Ok z
  | _ => Err ProcessValidationError
  end.

Definition _boolean (v : pyval) : result bool :=
  match v with VBool b => Ok b | _ => Err ProcessValidationError end.

(** No separator and no dot segment; [Path(text).name != text] adds nothing to
    the test on separators. *)
Definition _path_segment (v : string) : result string :=
  t ← _text (VStr v);
  if String.eqb t "." || String.eqb t ".."
     || existsb (λ z, (z =? 47) || (z =? 92))%Z (codes_of_str t)
  then Err ProcessValidationError else Ok t.

Definition _canonical (v : pyval) : result string :=
  match json_dumps false v with Ok s => Ok s | Err _ => Err ProcessValidationError end.

Definition _sha256 (v : pyval) : result string := sha256_text <$> _canonical v.

(** ** Verified envelopes *)

Record EnvelopeItem := {
  i_ordinal : Z;
  i_work_id : string;
  i_attempt_id : string;
  i_fence : Z;
  i_payload_sha256 : string;
  i_payload : list (string * pyval);
  i_config_sha256 : string;
  i_release_digest : string;
  i_duration_seconds : Float;
  i_runtime_key : string;
}.

Record VerifiedEnvelope := {
  v_batch_id : string;
  v_owner : string;
  v_runtime_key : string;
  v_claimed_at : Float;
  v_lease_expires_at : Float;
  v_membership_sha256 : string;
  v_envelope_sha256 : string;
  v_items : list EnvelopeItem;
}.

(** The property [execution_attempt_id]. *)
Definition execution_attempt_id (e : VerifiedEnvelope) : result string :=
  sha ← _sha256 (VDict [("batch_id", VStr (v_batch_id e));
                        ("membership_sha256", VStr (v_membership_sha256 e));
                        ("attempt_ids", VList (VStr ∘ i_attempt_id <$> v_items e))])%string;
  Ok ("process-" +:+ String.substring 0 24 sha)%string.

(** What the control store reads of an envelope. *)
Definition claimed_work (i : EnvelopeItem) : ClaimedWork := {|
  c_work_id := i_work_id i; c_attempt_id := i_attempt_id i; c_fence := i_fence i;
  c_payload_sha256 := i_payload_sha256 i |}.
Definition control_envelope (e : VerifiedEnvelope) : Envelope := {|
  e_batch_id := v_batch_id e; e_envelope_sha256 := v_envelope_sha256 e;
  e_membership_sha256 := v_membership_sha256 e; e_items := claimed_work <$> v_items e |}.

(** [type(batch_size) is int and batch_size in DETECTOR_BATCH_SIZES]. *)
Definition detector_batch_size (v : pyval) : bool :=
  match v with VInt z => ((z =? 1) || (z =? 2) || (z =? 4))%Z | _ => false end.

(** One iteration of the loop: the item, and its identity for the next ones. *)
Definition verify_item (runtime_key : string) (expected_ordinal : nat)
    (identities : list (string * string)) (raw : pyval) : result EnvelopeItem :=
  match raw with
  | VDict d =>
      ordinal ← _nonnegative_int (dict_get "ordinal" d);
      require (ordinal =? Z.of_nat expected_ordinal)%Z BatchValidationError;;
      match dict_get "payload" d with
      | VDict payload =>
          payload_sha256 ← _sha_text (dict_get "payload_sha256" d);
          actual ← _sha256 (VDict payload);
          require (bool_decide (actual = payload_sha256)) BatchValidationError;;
          work_id ← _text (dict_get "work_id" d);
          attempt_id ← _text (dict_get "attempt_id" d);
          require (bool_decide ((work_id, attempt_id) ∉ identities)) BatchValidationError;;
          let item_runtime := py_str (default (VStr runtime_key) (dict_lookup "runtime_key" d)) in
          require (bool_decide (item_runtime = runtime_key)) BatchValidationError;;
          require (detector_batch_size (default (VInt 1) (dict_lookup "batch_size" payload)))
            ProcessValidationError;;
          fence ← _positive_int (dict_get "fence" d);
          config ← _text (dict_get "config_sha256" d);
          release ← _text (dict_get "release_digest" d);
          duration ← _positive_float (dict_get "duration_seconds" d);
          Ok {| i_ordinal := ordinal; i_work_id := work_id; i_attempt_id := attempt_id;
                i_fence := fence; i_payload_sha256 := payload_sha256; i_payload := payload;
                i_config_sha256 := config; i_release_digest := release;
                i_duration_seconds := duration; i_runtime_key := item_runtime |}
      | _ => Err BatchValidationError
      end
  | _ => Err BatchValidationError
  end.

Fixpoint verify_items (runtime_key : string) (n : nat) (identities : list (string * string))
    (raws : list pyval) : result (list EnvelopeItem) :=
  match raws with
  | [] => Ok []
  | raw :: raws' =>
      i ← verify_item runtime_key n identities raw;
      rest ← verify_items runtime_key (S n) ((i_work_id i, i_attempt_id i) :: identities) raws';
      Ok (i :: rest)
  end.

(** [verify_envelope]; the envelope is a mapping, as [load_claim_envelope] returns. *)
Definition verify_envelope (envelope : list (string * pyval)) (batch_id envelope_sha256 : string)
    : result VerifiedEnvelope :=
  require (py_eqb (dict_get "schema_version" envelope) (VInt 1)
           && py_eqb (dict_get "batch_id" envelope) (VStr batch_id)) BatchValidationError;;
  owner ← _text (dict_get "owner" envelope);
  runtime_key ← _text (dict_get "runtime_key" envelope);
  membership ← _sha_text (dict_get "membership_sha256" envelope);
  match dict_get "items" envelope with
  | VList ((_ :: _) as raws) =>
      items ← verify_items runtime_key 0 [] raws;
      calculated ← _sha256 (VList (claimed_json ∘ claimed_work <$> items));
      require (bool_decide (calculated = membership)) BatchValidationError;;
      claimed_at ← _finite (dict_get "claimed_at" envelope);
      lease_expires_at ← _finite (dict_get "lease_expires_at" envelope);
      digest ← _sha_text (VStr envelope_sha256);
      Ok {| v_batch_id := batch_id; v_owner := owner; v_runtime_key := runtime_key;
            v_claimed_at := claimed_at; v_lease_expires_at := lease_expires_at;
            v_membership_sha256 := membership; v_envelope_sha256 := digest; v_items := items |}
  | _ => Err BatchValidationError
  end.

End Process.
