(* ===== verification/ProcessEnvelopeTheorems.v ===== *)
(** * A claimed envelope verifies

    The composition of the claim, the content store, the JSON codec, the loader and
    the verifier: what [claim] wrote is what [verify_envelope] accepts. *)
From S2P Require Export Prelude PyVal Json LocalStorage JsonTheorems ControlTypes ControlClaim ControlProcess ControlEnvelope ControlInv ControlSafety ControlSpec ControlFiles ControlScenario ProcessEnvelope.
Import Process.

(** ** Digests are texts *)

Lemma is_hex_not_space z : is_hex z = true → is_space z = false.
Proof.
  unfold is_hex, is_space. intros H. apply orb_true_iff in H. rewrite !andb_true_iff, !Z.leb_le in H.
  rewrite !orb_false_iff, !andb_false_iff, !Z.leb_gt, !Z.eqb_neq. lia.
Qed.

Lemma is_sha256_not_blank s : is_sha256 s = true → is_blank s = false.
Proof.
  unfold is_sha256. intros [Hl%bool_decide_eq_true Hh]%andb_true_iff.
  unfold is_blank. apply String.eqb_neq. unfold str_strip. intros E.
  assert (Hs : ∀ l, forallb is_hex l = true → drop_space l = l).
  { intros [|z l]; simpl; [done|]. intros [Hz _]%andb_true_iff. by rewrite is_hex_not_space. }
  assert (Hr : forallb is_hex (rev (codes_of_str s)) = true).
  { apply forallb_forall. intros z Hz%in_rev. by apply (proj1 (forallb_forall _ _) Hh). }
  rewrite (Hs _ Hh), (Hs _ Hr), rev_involutive in E. rewrite str_of_codes_of_str in E.
  subst s. discriminate Hl.
Qed.

Lemma sha_text_digest m : _sha_text (VStr (hexdigest (sha256 m))) = Ok (hexdigest (sha256 m)).
Proof.
  unfold _sha_text, _text. pose proof (is_sha256_digest m) as H.
  rewrite is_sha256_not_blank by done. cbn [mbind result_bind]. by rewrite H.
Qed.

Lemma text_Ok s : is_blank s = false → _text (VStr s) = Ok s.
Proof. intros H. unfold _text. by rewrite H. Qed.

(** ** One item *)

(** A work whose claim a process accepts: JSON data that reads back exactly, and a
    reviewed detector batch size. *)
Definition process_ready (w : WorkRow) : bool :=
  json_safe (w_payload w) && reads_back (w_duration_seconds w)
  && match w_payload w with
     | VDict d => detector_batch_size (default (VInt 1) (dict_lookup "batch_size" d))
     | _ => false
     end.

(** What the verifier makes of a claimed work. *)
Definition item_of (i : EnvelopeItem) (x : string * WorkRow) (c : ClaimedWork) : Prop :=
  claimed_work i = c ∧ json_sorted (w_payload x.2) = VDict (i_payload i) ∧
  i_duration_seconds i = w_duration_seconds x.2 ∧ i_config_sha256 i = w_config_sha256 x.2 ∧
  i_release_digest i = w_release_digest x.2 ∧ i_runtime_key i = w_runtime_key x.2.

Lemma verify_item_claimed key n ids x c :
  claim_of x c → sound_spec x.1 x.2 → process_ready x.2 = true →
  is_blank (c_attempt_id c) = false → (0 ≤ w_fence x.2)%Z → w_runtime_key x.2 = key →
  (c_work_id c, c_attempt_id c) ∉ ids →
  ∃ i, verify_item key n ids (json_read (envelope_item n x.2 c)) = Ok i ∧ item_of i x c.
Proof.
  intros (Ew&Ef&Es) S Hr Ha Hf Hk Hids. destruct S as [Sk _ Sc Sr [Sfin Sd] (d&text&Ep&Ht&Esha)].
  unfold process_ready in Hr. rewrite Ep in Hr.
  apply andb_true_iff in Hr as [Hr Hb]. apply andb_true_iff in Hr as [Hj Hd].
  destruct (json_safe_read _ Hj) as [_ Erd].
  destruct (json_read_dict ([("ordinal", VInt (Z.of_nat n)); ("work_id", VStr (c_work_id c));
         ("attempt_id", VStr (c_attempt_id c)); ("fence", VInt (c_fence c));
         ("payload_sha256", VStr (c_payload_sha256 c)); ("payload", w_payload x.2);
         ("config_sha256", VStr (w_config_sha256 x.2));
         ("release_digest", VStr (w_release_digest x.2));
         ("duration_seconds", VFloat (w_duration_seconds x.2))]%string)) as (d'&E&_&Hget).
  { apply (bool_decide_eq_true_1 _). vm_compute. reflexivity. }
  pose proof Hj as Hsafe. cbn [json_safe] in Hj. apply andb_true_iff in Hj as [Hn%bool_decide_eq_true _].
  destruct (json_read_dict d Hn) as (dp&Edp&_&Hdp).
  assert (Epay : json_read (w_payload x.2) = VDict dp) by by rewrite Ep.
  assert (Esorted : json_sorted (VDict d) = VDict dp) by by rewrite <-Erd.
  assert (Hbatch : detector_batch_size (default (VInt 1) (dict_lookup "batch_size" dp)) = true).
  { rewrite Hdp. destruct (dict_lookup "batch_size" d) as [[| |z| | | |]|]; try done. }
  assert (Hpos : (0 < c_fence c)%Z) by lia.
  assert (Hsha : _sha256 (VDict dp) = Ok (c_payload_sha256 c)).
  { unfold _sha256, _canonical. rewrite Es, Esha. unfold _canonical_json, json_dumps in *. res_inv Ht.
    rewrite <-Esorted, (json_codes_sorted false (VDict d) _ Hsafe Hs). by subst. }
  assert (Hdigest : _sha_text (VStr (c_payload_sha256 c)) = Ok (c_payload_sha256 c)).
  { rewrite Es, Esha. apply sha_text_digest. }
  eexists. split.
  - unfold envelope_item. rewrite E. unfold verify_item, dict_get. rewrite !Hget.
    cbn [dict_lookup String.eqb Ascii.eqb Bool.eqb fmap option_fmap option_map json_read default from_option id].
    unfold _nonnegative_int. rewrite (proj2 (Z.ltb_ge _ 0)) by lia. cbn [mbind result_bind].
    rewrite Z.eqb_refl. cbn [mbind result_bind require]. rewrite Epay, Hdigest. cbn [mbind result_bind].
    rewrite Hsha. cbn [mbind result_bind]. rewrite bool_decide_eq_true_2 by done. cbn [mbind result_bind require].
    rewrite !text_Ok by congruence. cbn [mbind result_bind].
    rewrite bool_decide_eq_true_2 by done. cbn [mbind result_bind require py_str].
    rewrite bool_decide_eq_true_2 by done. cbn [mbind result_bind require].
    rewrite Hbatch. cbn [mbind result_bind require].
    unfold _positive_int. rewrite (proj2 (Z.ltb_ge _ 1)) by lia. cbn [mbind result_bind].
    rewrite (reads_back_eq _ Hd). unfold _positive_float, _finite. rewrite Sfin.
    cbn [mbind result_bind]. by rewrite Sd.
  - split; [by destruct c|]. rewrite Ep. by split_and!.
Qed.

(** *** All items *)

Lemma verify_items_claimed key n ids rows cs :
  Forall2 claim_of rows cs →
  Forall (λ x, sound_spec x.1 x.2 ∧ process_ready x.2 = true ∧ (0 ≤ w_fence x.2)%Z ∧
    w_runtime_key x.2 = key) rows →
  Forall (λ c, is_blank (c_attempt_id c) = false) cs → NoDup (c_work_id <$> cs) →
  (∀ c, c ∈ cs → c_work_id c ∉ ids.*1) →
  ∃ js, verify_items key n ids
      (json_read <$> imap (λ i wc, envelope_item (n + i) wc.1.2 wc.2) (zip rows cs)) = Ok js ∧
    Forall2 (λ i xc, item_of i xc.1 xc.2) js (zip rows cs).
Proof.
  intros H. revert n ids. induction H as [|x c rows cs Hc H IH]; intros n ids Hr Ha Hn Hids.
  - by exists [].
  - apply Forall_cons in Hr as [(Sp&P&F&K) Hr]. apply Forall_cons in Ha as [Ha1 Ha].
    apply NoDup_cons in Hn as [Hn1 Hn].
    assert (Hnew : (c_work_id c, c_attempt_id c) ∉ ids).
    { intros Hin. apply (Hids c); [left|]. by apply (list_elem_of_fmap_2 fst) in Hin. }
    destruct (verify_item_claimed key n ids x c Hc Sp P Ha1 F K Hnew) as (i&Ei&Hi).
    destruct (IH (S n) ((c_work_id c, c_attempt_id c) :: ids)) as (js&Eis&His); try done.
    { intros c' Hc'. simpl. apply not_elem_of_cons. split; [|apply Hids; by right].
      intros Eq. apply Hn1. rewrite <-Eq. by apply list_elem_of_fmap_2. }
    exists (i :: js). split; [|by constructor].
    cbn [zip zip_with]. rewrite imap_cons, fmap_cons, Nat.add_0_r. cbn [verify_items fst snd].
    rewrite Ei. cbn [mbind result_bind].
    destruct Hi as (Ecw&_). assert (i_work_id i = c_work_id c ∧ i_attempt_id i = c_attempt_id c) as [-> ->].
    { by rewrite <-Ecw. }
    erewrite imap_ext; [by rewrite Eis|]. intros j y _. simpl. f_equal. lia.
Qed.


Lemma claimed_items rows cs js :
  length rows = length cs → Forall2 (λ i xc, item_of i xc.1 xc.2) js (zip rows cs) →
  claimed_work <$> js = cs.
Proof.
  revert cs js. induction rows as [|x rows IH]; intros [|c cs] js Hl H; try discriminate Hl;
    inversion H as [|i y js' k Hi Hjs]; subst; [done|].
  csimpl. destruct Hi as [-> _]. f_equal. apply IH; [by injection Hl|done].
Qed.

(** ** The envelope *)

Lemma claim_envelope_unique r id key membership expires makespan workers rows cs :
  Forall (λ x : string * WorkRow, process_ready x.2 = true) rows →
  json_unique (claim_envelope r id key membership expires makespan workers rows cs) = true.
Proof.
  intros H. assert (Hitems : forallb json_unique
    (imap (λ i wc, envelope_item i wc.1.2 wc.2) (zip rows cs)) = true).
  { apply forallb_forall. intros v Hv%list_elem_of_In. apply elem_of_lookup_imap in Hv as (i&[x c]&->&Hx).
    apply lookup_zip_Some in Hx as [Hx _].
    apply (proj1 (Forall_lookup _ _) H) in Hx. unfold process_ready in Hx. simpl.
    apply andb_true_iff in Hx as [[Hx _]%andb_true_iff _].
    by rewrite (proj1 (json_safe_read _ Hx)). }
  unfold claim_envelope. cbn [json_unique forallb snd]. by rewrite Hitems.
Qed.

Lemma check_claim_facts args clock q :
  check_claim args clock = Ok q → is_blank (cr_owner q) = false ∧
  fisfinite (cr_now q) = true ∧ ControlTypes._finite clock = Ok (cr_now q).
Proof.
  unfold check_claim. intros H. res_inv H. simplify_eq/=.
  repeat match goal with E : _required_text _ = Ok _ |- _ => apply _required_text_Ok in E as [_ ?] end.
  rename select (ControlTypes._finite clock = Ok _) into E. split; [done|].
  split; [by eapply _finite_Ok|done].
Qed.

(** A finite float that reads back is read as itself by [_finite]. *)
Lemma finite_reread x : fisfinite x = true → reads_back x = true → _finite (reread x) = Ok x.
Proof. intros H R. rewrite (reads_back_eq _ R). unfold _finite. by rewrite H. Qed.

Lemma verify_envelope_wrote root q s cb s' rows membership makespan workers args clock d :
  check_claim args clock = Ok q → Inv (s_db s) → sound_works (s_db s) →
  wrote root q s cb s' rows membership makespan workers →
  Forall (λ x, process_ready x.2 = true) rows →
  reads_back (cr_now q) = true → reads_back (cb_lease_expires_at cb) = true →
  fisfinite (cb_lease_expires_at cb) = true →
  json_read (claim_envelope q (cb_batch_id cb) (cb_runtime_key cb) membership
      (cb_lease_expires_at cb) makespan workers rows (cb_items cb)) = VDict d →
  ∃ v, verify_envelope d (cb_batch_id cb) (cb_envelope_sha256 cb) = Ok v ∧
    v_batch_id v = cb_batch_id cb ∧ v_runtime_key v = cb_runtime_key cb ∧
    v_lease_expires_at v = cb_lease_expires_at cb ∧ v_membership_sha256 v = membership ∧
    v_envelope_sha256 v = cb_envelope_sha256 cb ∧
    Forall2 (λ i xc, item_of i xc.1 xc.2) (v_items v) (zip rows (cb_items cb)).
Proof.
  intros Hq I Hsound W Hready Hnow Hexp Hfin Ed. destruct (check_claim_facts _ _ _ Hq) as (Hown&Hfn&_).
  destruct W as [Hrows Hits Hid Hsome Hnd Hatt Hmem (text&so&fs&Ht&Hp&_&_&Esha) _].
  apply put_bytes_cases in Hp as [(e&?&_)|(o&[= <-]&Es&_)]; [done|].
  assert (Hsha : _sha_text (VStr (cb_envelope_sha256 cb)) = Ok (cb_envelope_sha256 cb)).
  { rewrite <-Esha, Es. apply sha_text_digest. }
  assert (Hmsha : _sha_text (VStr membership) = Ok membership).
  { unfold _membership_sha256 in Hmem. res_inv Hmem. subst. apply sha_text_digest. }
  assert (Hkey : is_blank (cb_runtime_key cb) = false).
  { destruct rows as [|x rows]; [inversion Hits; by destruct Hsome|].
    destruct (Hrows x (list_elem_of_here x rows)) as [Hx Hk]. rewrite <-Hk.
    exact (so_runtime _ _ (Hsound _ _ Hx)). }
  assert (Hall : Forall (λ x, sound_spec x.1 x.2 ∧ process_ready x.2 = true ∧ (0 ≤ w_fence x.2)%Z ∧
    w_runtime_key x.2 = cb_runtime_key cb) rows).
  { apply Forall_forall. intros x Hx. destruct (Hrows x Hx) as [Hw Hk].
    split; [by apply Hsound|]. split; [by eapply (proj1 (Forall_forall _ _)) in Hready|]. split; [|done].
    pose proof (core_work _ (inv_core _ I) _ _ Hw) as [_ F [? ?] _ _ _]. lia. }
  assert (Hno : ∀ c, c ∈ cb_items cb → c_work_id c ∉ ([] : list (string * string)).*1).
  { intros c _. cbn. apply not_elem_of_nil. }
  destruct (verify_items_claimed _ 0 [] _ _ Hits Hall Hatt Hnd Hno) as (js&Hjs&Hitems).
  assert (Hcw : claimed_work <$> js = cb_items cb).
  { apply (claimed_items rows); [by eapply Forall2_length|done]. }
  unfold claim_envelope in Ed.
  match type of Ed with json_read (VDict ?e) = _ => set (env := e) in Ed end.
  destruct (json_read_dict env) as (d'&Ed'&_&Hget).
  { apply (bool_decide_eq_true_1 _). vm_compute. reflexivity. }
  assert (d' = d) as -> by congruence. clear Ed'.
  exists {| v_batch_id := cb_batch_id cb; v_owner := cr_owner q; v_runtime_key := cb_runtime_key cb;
    v_claimed_at := cr_now q; v_lease_expires_at := cb_lease_expires_at cb;
    v_membership_sha256 := membership; v_envelope_sha256 := cb_envelope_sha256 cb; v_items := js |}.
  split; [|by split_and!].
  unfold verify_envelope, dict_get. rewrite !Hget. unfold env.
  cbn [dict_lookup String.eqb Ascii.eqb Bool.eqb fmap option_fmap option_map json_read default from_option id].
  assert (py_eqb (VInt CLAIM_ENVELOPE_VERSION) (VInt 1) = true) as -> by reflexivity.
  assert (py_eqb (VStr (cb_batch_id cb)) (VStr (cb_batch_id cb)) = true) as -> by apply String.eqb_refl.
  cbn [andb require mbind result_bind]. rewrite !text_Ok by done. cbn [mbind result_bind].
  rewrite Hmsha. cbn [mbind result_bind].
  assert (∃ r rs, json_read <$> imap (λ i wc, envelope_item i wc.1.2 wc.2) (zip rows (cb_items cb)) = r :: rs)
    as (r&rs&Er).
  { destruct Hits; [by destruct Hsome|]. cbn. eauto. }
  change (list_fmap pyval pyval json_read) with (fmap (M := list) json_read) in *.
  rewrite Er, <-Er. cbn [Nat.add] in Hjs. rewrite Hjs. cbn [mbind result_bind].
  assert (Hm : _sha256 (VList (claimed_json ∘ claimed_work <$> js)) = Ok membership).
  { unfold _membership_sha256, _canonical_json in Hmem. rewrite <-Hcw, <-list_fmap_compose in Hmem.
    unfold _sha256, _canonical. res_inv Hmem. rewrite Hs. simpl. by subst. }
  rewrite Hm. cbn [mbind result_bind]. rewrite bool_decide_eq_true_2 by done.
  cbn [require mbind result_bind]. rewrite (finite_reread _ Hfn Hnow), (finite_reread _ Hfin Hexp).
  cbn [mbind result_bind]. by rewrite Hsha.
Qed.

(** C32. Claim, store, load, verify: the envelope that a claim wrote is loaded at any
    later time through the reference of its batch, and the process verifies it into
    exactly the claimed items, with the payloads, durations, configurations and
    releases of their works.  The claimed works must be [process_ready], the two
    instants of the envelope must survive their [repr], and the envelope file must
    be new to the store. *)
Theorem claimed_envelope_verifies root ids args clock s cb s1 s2 :
  reachable s → claim root ids args clock s = (Ok (Some cb), s1) → rtc ctl_step s1 s2 →
  s_files s !! cb_envelope_path cb = None →
  (∀ c w, c ∈ cb_items cb → works (s_db s) !! c_work_id c = Some w → process_ready w = true) →
  (∀ now, ControlTypes._finite clock = Ok now → reads_back now = true) →
  reads_back (cb_lease_expires_at cb) = true → fisfinite (cb_lease_expires_at cb) = true →
  ∃ d v,
    load_claim_envelope_with_digest (VStr (cb_batch_id cb)) s2
      = (Ok (VDict d, cb_envelope_sha256 cb), s2) ∧
    verify_envelope d (cb_batch_id cb) (cb_envelope_sha256 cb) = Ok v ∧
    claimed_work <$> v_items v = cb_items cb ∧ v_runtime_key v = cb_runtime_key cb ∧
    v_lease_expires_at v = cb_lease_expires_at cb ∧
    (∃ b, batches (s_db s2) !! cb_batch_id cb = Some b ∧
       b_membership_sha256 b = v_membership_sha256 v ∧ b_envelope_sha256 b = v_envelope_sha256 v) ∧
    ∀ i, i ∈ v_items v → ∃ w, works (s_db s) !! i_work_id i = Some w ∧
      json_sorted (w_payload w) = VDict (i_payload i) ∧
      i_duration_seconds i = w_duration_seconds w ∧ i_config_sha256 i = w_config_sha256 w ∧
      i_release_digest i = w_release_digest w.
Proof.
  intros R Hc Hlater Hnew Hready Hnow Hexp Hfin.
  pose proof (reachable_Inv _ R) as I. pose proof (reachable_sound _ R) as Hsound.
  assert (I1 : Inv (s_db s1)) by by eapply claim_inv.
  destruct (claim_wrote _ _ _ _ _ _ _ Hc) as (q&rows&membership&makespan&workers&Hq&W).
  destruct (check_claim_facts _ _ _ Hq) as (_&_&Hclock).
  assert (Hrows : Forall (λ x, process_ready x.2 = true) rows).
  { pose proof (wr_items _ _ _ _ _ _ _ _ _ W) as H2. pose proof (wr_rows _ _ _ _ _ _ _ _ _ W) as Hw.
    apply Forall_forall. intros x Hx. apply list_elem_of_lookup in Hx as Hi. destruct Hi as [i Hi].
    destruct (Forall2_lookup_l _ _ _ _ _ H2 Hi) as (c&Hci&Ew&_).
    apply (Hready c); [by eapply list_elem_of_lookup_2|]. rewrite Ew. by apply Hw. }
  set (env := claim_envelope q (cb_batch_id cb) (cb_runtime_key cb) membership
    (cb_lease_expires_at cb) makespan workers rows (cb_items cb)).
  assert (Hu : json_unique env = true) by by apply claim_envelope_unique.
  destruct (json_read env) as [| | | | | |d] eqn:Ed; try discriminate Ed.
  destruct (verify_envelope_wrote _ _ _ _ _ _ _ _ _ _ _ d Hq I Hsound W Hrows (Hnow _ Hclock) Hexp Hfin Ed)
    as (v&Hv&_&Ek&El&Em&Es&Hitems).
  exists d, v. split; [rewrite <-Ed; by eapply wrote_loads|]. split; [done|].
  pose proof (Forall2_length _ _ _ (wr_items _ _ _ _ _ _ _ _ _ W)) as Hlen.
  split; [by apply (claimed_items rows)|]. split; [done|]. split; [done|]. split.
  - destruct (wr_batch _ _ _ _ _ _ _ _ _ W) as (b&Hb&_&Bs&Bm&_).
    destruct (steps_evolves _ _ I1 Hlater) as [E _].
    destruct (evolves_batches _ _ _ _ E Hb) as (b2&Hb2&[[] _]). exists b2.
    split; [done|]. rewrite Em, Es. split; congruence.
  - intros i Hi. apply list_elem_of_lookup in Hi as [j Hi].
    destruct (Forall2_lookup_l _ _ _ _ _ Hitems Hi) as ([x c]&Hxc&Ecw&Hp&Hd&Hcf&Hrl&_).
    apply lookup_zip_Some in Hxc as [Hx Hcj]. simpl in *. exists x.2.
    destruct (wr_rows _ _ _ _ _ _ _ _ _ W x ltac:(by eapply list_elem_of_lookup_2)) as [Hw _].
    destruct (Forall2_lookup_lr _ _ _ _ _ _ (wr_items _ _ _ _ _ _ _ _ _ W) Hx Hcj) as (Ex&_).
    assert (i_work_id i = x.1) as ->; [by rewrite <-Ecw in Ex|]. done.
Qed.

Lemma claimed_envelope_verifies_witness :
  ∃ d v, (load_claim_envelope_with_digest (VStr "c0") store5).1
      = Ok (VDict d, cb_envelope_sha256 batch_c) ∧
    verify_envelope d "c0" (cb_envelope_sha256 batch_c) = Ok v ∧
    claimed_work <$> v_items v = cb_items batch_c.
Proof.
  destruct (claimed_envelope_verifies "/root" (ids "c") claim_args (flt 30) store3 batch_c store4 store5
    store3_reachable claim_c (stage_steps _ _ _ stage5)) as (d&v&Hl&Hv&Hi&_).
  - vm_compute. reflexivity.
  - intros c w Hc%list_elem_of_singleton Hw. subst c. vm_compute in Hw. injection Hw as <-.
    vm_compute. reflexivity.
  - intros now H. injection H as <-. vm_compute. reflexivity.
  - vm_compute. reflexivity.
  - vm_compute. reflexivity.
  - exists d, v. split; [exact (f_equal fst Hl)|]. split; [exact Hv|exact Hi].
Defined.
