(* ===== verification/ProcessPlan.v ===== *)
(** * sjd_process.py: execution profiles, LPT plans and lease admission

    A verified envelope is planned over at most [planned_task_count] physical Spark
    partitions: longest duration first, each item to the bucket with the least
    planned cost.  The plan is admitted when it finishes before the lease. *)
From S2P Require Export Prelude PyRound PyVal ControlTypes ControlClaim ProcessEnvelope.

Module Plan.
Import Process.

(** ** Profiles *)

Record ExecutionProfile := {
  ep_name : string;
  ep_executor_instances : Z;
  ep_executor_cores : Z;
  ep_executor_memory_bytes : Z;
  ep_task_cpus : Z;
  ep_fixed_allocation : bool;
  ep_speculation : bool;
  ep_memory_reserve_bytes : Z;
  ep_heartbeat_seconds : Float;
  ep_minimum_speed_x : Float;
  ep_lease_safety_factor : Float;
  ep_lease_margin_seconds : Float;
  ep_planned_task_count : Z;
  ep_peak_rss_bytes : option Z;
  ep_rss_headroom_fraction : Float;
}.

(** [__post_init__]: an omitted task count is the number of executors. *)
Definition __post_init__ (p : ExecutionProfile) (planned_task_count : option Z)
    : result ExecutionProfile :=
  let p := {| p with ep_planned_task_count := default (ep_executor_instances p) planned_task_count |} in
  require (negb (ep_planned_task_count p <? 1)%Z) ProcessValidationError;;
  require (fleb fzero (ep_rss_headroom_fraction p) && fltb (ep_rss_headroom_fraction p) (float_of_Z 1))
    ProcessValidationError;;
  Ok p.

Definition physical_partitions (p : ExecutionProfile) : list Z :=
  Z.of_nat <$> seq 0 (Z.to_nat (ep_planned_task_count p)).

Definition int_str (z : Z) : string := str_of_codes (int_codes z).

Definition spark_settings (p : ExecutionProfile) : list (string * string) :=
  [("spark.dynamicAllocation.enabled", "false"); ("spark.speculation", "false");
   ("spark.executor.instances", int_str (ep_executor_instances p));
   ("spark.executor.cores", int_str (ep_executor_cores p));
   ("spark.executor.memory", "1g"); ("spark.task.cpus", int_str (ep_task_cpus p))]%string.

Definition MIB : Z := 1024 * 1024.
Definition GIB : Z := 1024 * MIB.

Definition LOCAL_TWO_WORKERS : ExecutionProfile := {|
  ep_name := "local-two-workers"; ep_executor_instances := 2; ep_executor_cores := 1;
  ep_executor_memory_bytes := GIB; ep_task_cpus := 1; ep_fixed_allocation := true;
  ep_speculation := false; ep_memory_reserve_bytes := 256 * MIB;
  ep_heartbeat_seconds := float_of_Z 10; ep_minimum_speed_x := float_of_Z 1;
  ep_lease_safety_factor := flit 125 100; ep_lease_margin_seconds := float_of_Z 30;
  ep_planned_task_count := 2; ep_peak_rss_bytes := None;
  ep_rss_headroom_fraction := flit 20 100 |}.

(** [str.lower()] on code points below 256. *)
Definition lower_code (z : Z) : Z :=
  (if (65 <=? z) && (z <=? 90) || (192 <=? z) && (z <=? 222) && negb (z =? 215)
   then z + 32 else z)%Z.
Definition str_lower (s : string) : string := str_of_codes (lower_code <$> codes_of_str s).

Fixpoint assoc (k : string) (l : list (string * string)) : option string :=
  match l with
  | [] => None
  | (k', v) :: l' => if String.eqb k k' then Some v else assoc k l'
  end.

Definition resolve_profile (name : string) (spark_overrides : list (string * pyval))
    : result ExecutionProfile :=
  require (bool_decide (name ∈ ["local-two-workers"; "sjd-local"]%string)) ProcessValidationError;;
  let profile := LOCAL_TWO_WORKERS in
  let settings := spark_settings profile in
  let supplied := (λ kv, (kv.1, str_lower (py_str kv.2))) <$> spark_overrides in
  require (forallb (λ kv, bool_decide (is_Some (assoc kv.1 settings))) supplied) ProcessValidationError;;
  require (forallb (λ kv, bool_decide (Some kv.2 = str_lower <$> assoc kv.1 settings)) supplied)
    ProcessValidationError;;
  require (ep_fixed_allocation profile && negb (ep_speculation profile)
           && (ep_executor_instances profile =? 2) && (ep_executor_cores profile =? 1)
           && (ep_task_cpus profile =? 1))%Z ProcessValidationError;;
  Ok profile.

(** ** Concurrency *)

Record ConcurrencyDecision := {
  cd_concurrency : Z;
  cd_item_limit : Z;
  cd_profile_limit : Z;
  cd_cpu_limit : Z;
  cd_memory_limit : option Z;
  cd_peak_rss_bytes : option Z;
  cd_duration_only_fallback : bool;
}.

(** [a // b]. *)
Definition floordiv (a b : Z) : result Z :=
  if (b =? 0)%Z then Err ZeroDivisionError else Ok (a / b)%Z.

Definition conservative_concurrency (item_count : Z) (profile : ExecutionProfile)
    (peak_rss_bytes : option Z) : result ConcurrencyDecision :=
  count ← _positive_int (VInt item_count);
  let profile_limit := ep_planned_task_count profile in
  cpu_limit ← floordiv (ep_executor_instances profile * ep_executor_cores profile)
    (ep_task_cpus profile);
  memory_limit ←
    match peak_rss_bytes with
    | None => Ok None
    | Some rss =>
        peak ← _positive_int (VInt rss);
        let usable := (ep_executor_memory_bytes profile - ep_memory_reserve_bytes profile)%Z in
        require (negb (usable <? peak)%Z) ProcessValidationError;;
        Ok (Some (ep_executor_instances profile * (usable / peak))%Z)
    end;
  Ok {| cd_concurrency := Z.min (Z.min (Z.min count profile_limit) cpu_limit)
          (default count memory_limit);
        cd_item_limit := count; cd_profile_limit := profile_limit; cd_cpu_limit := cpu_limit;
        cd_memory_limit := memory_limit; cd_peak_rss_bytes := peak_rss_bytes;
        cd_duration_only_fallback := bool_decide (peak_rss_bytes = None) |}.

(** ** Plans *)

Record PlannedItem := {
  pi_item : EnvelopeItem;
  pi_bucket_id : Z;
  pi_physical_partition : Z;
  pi_wave_index : Z;
  pi_planned_cost_seconds : Float;
}.

Record BucketPlan := {
  bp_bucket_id : Z;
  bp_runtime_key : string;
  bp_physical_partition : Z;
  bp_total_cost_seconds : Float;
  bp_items : list PlannedItem;
}.

Record WavePlan := {
  wp_index : Z;
  wp_projected_cost_seconds : Float;
  wp_items : list PlannedItem;
}.

Record ExecutionPlan := {
  xp_concurrency : ConcurrencyDecision;
  xp_buckets : list BucketPlan;
  xp_waves : list WavePlan;
  xp_projected_makespan_seconds : Float;
}.

(** [(-x.duration_seconds, x.work_id) < (-y.duration_seconds, y.work_id)]. *)
Definition lpt_key_lt (x y : EnvelopeItem) : bool :=
  let a := fopp (i_duration_seconds x) in
  let b := fopp (i_duration_seconds y) in
  if feqb a b then negb (str_leb (i_work_id y) (i_work_id x)) else fltb a b.

(** [sorted(group, key=...)]. *)
Definition lpt_order (l : list EnvelopeItem) : list EnvelopeItem :=
  order_by (λ x y, negb (lpt_key_lt y x)) l.

(** [min(range(len(costs)), key=lambda i: (costs[i], i))]: the best index so far is
    replaced by a strictly smaller cost. *)
Fixpoint argmin_from (i : nat) (best : nat) (best_cost : Float) (costs : list Float) : nat :=
  match costs with
  | [] => best
  | c :: costs' => if fltb c best_cost then argmin_from (S i) i c costs'
                   else argmin_from (S i) best best_cost costs'
  end.
Definition least_loaded (costs : list Float) : option nat :=
  match costs with [] => None | c :: costs' => Some (argmin_from 1 0 c costs') end.

(** The buckets and their costs. *)
Definition Loads : Type := list (list EnvelopeItem) * list Float.

(** [buckets[target].append(item); costs[target] += item.duration_seconds]. *)
Definition place (item : EnvelopeItem) (st : Loads) : result Loads :=
  match least_loaded st.2 with
  | None => Err ValueError
  | Some target =>
      Ok (alter (λ b, b ++ [item]) target st.1,
          alter (λ c, fadd c (i_duration_seconds item)) target st.2)
  end.

Fixpoint place_all (items : list EnvelopeItem) (st : Loads) : result Loads :=
  match items with
  | [] => Ok st
  | item :: items' => st' ← place item st; place_all items' st'
  end.

Definition no_load (n : nat) : Loads := (replicate n [], replicate n fzero).

(** fabric_executor_inventory.assert_minimum_videos_per_group, whose error the
    planner reports as a [ProcessValidationError]. *)
Definition assert_minimum_videos_per_group (group_sizes : list Z) (total_items : Z)
    (minimum_videos_per_group : pyval) : result unit :=
  match minimum_videos_per_group with
  | VInt minimum =>
      if (minimum <? 1)%Z then Err ProcessValidationError else
      let group_count := Z.of_nat (length group_sizes) in
      if (group_count =? 0)%Z then Ok tt else
      if (total_items <? group_count * minimum)%Z then Ok tt else
      require (forallb (λ size, negb (size <? minimum)%Z) group_sizes) ProcessValidationError
  | _ => Err ProcessValidationError
  end.

Definition planned_item (bucket_id physical : Z) (wave : nat) (item : EnvelopeItem) : PlannedItem := {|
  pi_item := item; pi_bucket_id := bucket_id; pi_physical_partition := physical;
  pi_wave_index := Z.of_nat wave; pi_planned_cost_seconds := i_duration_seconds item |}.

(** One iteration of the loop over the buckets. *)
Definition bucket_plan (profile : ExecutionProfile) (runtime_key : string) (bucket_id : nat)
    (bc : list EnvelopeItem * Float) : result BucketPlan :=
  match physical_partitions profile !! bucket_id with
  | None => Err IndexError
  | Some physical =>
      Ok {| bp_bucket_id := Z.of_nat bucket_id; bp_runtime_key := runtime_key;
            bp_physical_partition := physical; bp_total_cost_seconds := bc.2;
            bp_items := imap (planned_item (Z.of_nat bucket_id) physical) bc.1 |}
  end.

Fixpoint bucket_plans (profile : ExecutionProfile) (runtime_key : string) (bucket_id : nat)
    (l : list (list EnvelopeItem * Float)) : result (list BucketPlan) :=
  match l with
  | [] => Ok []
  | bc :: l' =>
      b ← bucket_plan profile runtime_key bucket_id bc;
      bs ← bucket_plans profile runtime_key (S bucket_id) l';
      Ok (b :: bs)
  end.

(** [max(...)] of a non-empty sequence: the first of the largest. *)
Definition fmax_of (l : list Float) : Float :=
  match l with [] => fzero | x :: l' => fold_left (λ acc y, if fltb acc y then y else acc) l' x end.

(** One wave: the items of that index, by bucket. *)
Definition wave_plan (planned : list PlannedItem) (index : Z) : WavePlan :=
  let items := List.filter (λ p, (pi_wave_index p =? index)%Z) planned in
  {| wp_index := index; wp_projected_cost_seconds := fmax_of (pi_planned_cost_seconds <$> items);
     wp_items := order_by (λ x y, (pi_bucket_id x <=? pi_bucket_id y)%Z) items |}.

Definition wave_plans (planned : list PlannedItem) : list WavePlan :=
  wave_plan planned <$> order_by Z.leb (remove_dups (pi_wave_index <$> planned)).

Definition plan_duration_lpt (items : list EnvelopeItem) (profile : ExecutionProfile)
    (peak_rss_bytes : option Z) (minimum_videos_per_group : option pyval) : result ExecutionPlan :=
  match items with
  | [] => Err ProcessValidationError
  | first :: _ =>
      decision ← conservative_concurrency (Z.of_nat (length items)) profile peak_rss_bytes;
      require (forallb (λ i, bool_decide (i_runtime_key i = i_runtime_key first)) items)
        ProcessValidationError;;
      loads ← place_all (lpt_order items) (no_load (Z.to_nat (cd_concurrency decision)));
      match minimum_videos_per_group with
      | None => Ok tt
      | Some m => assert_minimum_videos_per_group (Z.of_nat ∘ length <$> loads.1)
                    (Z.of_nat (length items)) m
      end;;
      buckets ← bucket_plans profile (i_runtime_key first) 0 (zip loads.1 loads.2);
      Ok {| xp_concurrency := decision; xp_buckets := buckets;
            xp_waves := wave_plans (concat (bp_items <$> buckets));
            xp_projected_makespan_seconds := fmax_of loads.2 |}
  end.

(** ** Lease admission *)

Definition admit_lease (plan : ExecutionPlan) (profile : ExecutionProfile)
    (lease_expires_at now : Float) : result Float :=
  expires ← _finite (VFloat lease_expires_at);
  current ← _finite (VFloat now);
  let remaining := fsub expires current in
  ratio ← py_fdiv (xp_projected_makespan_seconds plan) (ep_minimum_speed_x profile);
  let projected := fmul ratio (ep_lease_safety_factor profile) in
  let required := fadd projected (ep_lease_margin_seconds profile) in
  if fleb remaining required then Err LeaseAdmissionError else Ok projected.

End Plan.
