(* ===== verification/ProcessPlanTheorems.v ===== *)
(** * What a plan promises

    Every claimed item is planned exactly once, no planned partition is idle, the
    concurrency respects every limit, and the plan does not depend on the order in
    which the items are listed. *)
From S2P Require Export Prelude PyFloat PyVal ControlTypes ControlClaim ProcessEnvelope ProcessPlan.
Import Process Plan.

(** ** Sorting by (-duration, work_id) *)

(** The durations that [verify_envelope] lets through. *)
Definition proper_duration (i : EnvelopeItem) : Prop :=
  fisfinite (i_duration_seconds i) = true ∧ fltb fzero (i_duration_seconds i) = true.

#[export] Instance lpt_total : Total (λ x y, Is_true (negb (lpt_key_lt y x))).
Proof.
  intros x y. unfold lpt_key_lt. rewrite (feqb_sym (fopp (i_duration_seconds y))).
  destruct (feqb _ _).
  - rewrite !negb_involutive. destruct (str_leb_total (i_work_id x) (i_work_id y)) as [->| ->]; auto.
  - destruct (fltb (fopp (i_duration_seconds y)) _) eqn:E; [|by left].
    right. by rewrite (fleb_not_fltb _ _ (fltb_fleb _ _ E)).
Qed.

Definition timed (i : EnvelopeItem) : Prop := fisnan (i_duration_seconds i) = false.

Lemma proper_timed i : proper_duration i → timed i.
Proof. intros [H _]. by apply fisfinite_not_nan. Qed.

Lemma fisnan_opp x : fisnan (fopp x) = fisnan x.
Proof. by destruct x. Qed.

Lemma lpt_trans x y z :
  timed x → timed y → timed z →
  negb (lpt_key_lt y x) = true → negb (lpt_key_lt z y) = true → negb (lpt_key_lt z x) = true.
Proof.
  unfold timed, lpt_key_lt. rewrite <-!(fisnan_opp (i_duration_seconds _)).
  generalize (fopp (i_duration_seconds x)), (fopp (i_duration_seconds y)), (fopp (i_duration_seconds z)).
  intros a b c Ha Hb Hc. rewrite !negb_true_iff.
  assert (Hcase : ∀ u v w, fisnan u = false → fisnan v = false →
    (if feqb u v then negb w else fltb u v) = false ↔
    fkey_lt (fkey v) (fkey u) ∨ (fkey u = fkey v ∧ w = true)).
  { intros u v w Hu Hv. destruct (feqb u v) eqn:E.
    - apply feqb_spec in E; [|done..]. rewrite E, negb_false_iff. unfold fkey_lt. split; [auto|].
      intros [H|[_ H]]; [lia|done].
    - rewrite <-not_true_iff_false, fltb_spec by done.
      assert (fkey u ≠ fkey v) as Hne by (intros H; apply feqb_spec in H; congruence).
      unfold fkey_lt. destruct (fkey u) as [[u1 u2] u3], (fkey v) as [[v1 v2] v3]. simpl.
      split; [|intros [H|[H _]]; [lia|done]]. intros H. left.
      assert (u1 ≠ v1 ∨ u2 ≠ v2 ∨ u3 ≠ v3) by (destruct (decide (u1 = v1)); [|by left];
        destruct (decide (u2 = v2)); [|by auto]; right; right; naive_solver). lia. }
  rewrite !Hcase by done. unfold fkey_lt.
  intros [H1|[H1 S1]] [H2|[H2 S2]].
  - left. lia.
  - left. rewrite H2. done.
  - left. rewrite <-H1. done.
  - right. split; [congruence|]. by eapply str_leb_trans.
Qed.

Lemma lpt_antisym x y :
  timed x → timed y → negb (lpt_key_lt y x) = true → negb (lpt_key_lt x y) = true →
  i_work_id x = i_work_id y.
Proof.
  unfold timed, lpt_key_lt. rewrite <-!(fisnan_opp (i_duration_seconds _)).
  generalize (fopp (i_duration_seconds x)), (fopp (i_duration_seconds y)).
  intros a b Ha Hb. rewrite (feqb_sym b a). destruct (feqb a b) eqn:E.
  - rewrite !negb_involutive. intros H1 H2. by apply str_leb_antisymm.
  - rewrite !negb_true_iff, !fltb_negb_fleb by done. rewrite !negb_false_iff. intros H1 H2.
    apply not_true_iff_false in E. destruct E. apply feqb_spec; [done..|].
    rewrite fleb_spec in H1, H2 by done. unfold fkey_lt in *.
    destruct (fkey a) as [[a1 a2] a3], (fkey b) as [[b1 b2] b3]. simpl in *.
    assert (a1 = b1) by lia. assert (a2 = b2) by lia. assert (a3 = b3) by lia. congruence.
Qed.

(** Items with distinct works are planned in one order. *)
Lemma lpt_order_unique l k :
  NoDup (i_work_id <$> l) → Forall timed l → l ≡ₚ k → lpt_order l = lpt_order k.
Proof.
  intros Hn Ht Hp. apply (order_by_unique timed); [apply lpt_total|apply lpt_trans| |done..].
  intros x y Hx Hy H1 H2. eapply (NoDup_fmap_eq i_work_id); [done..|].
  rewrite Forall_forall in Ht. apply lpt_antisym; auto.
Qed.

(** ** Placing the items *)

Lemma argmin_from_spec i best bc costs :
  (argmin_from i best bc costs = best ∧ ∀ j c, costs !! j = Some c → fltb c bc = false) ∨
  (∃ j c, argmin_from i best bc costs = (i + j)%nat ∧ costs !! j = Some c ∧ fltb c bc = true ∧
     ∀ j' c', costs !! j' = Some c' → fltb c' c = false).
Proof.
  revert i best bc. induction costs as [|c0 costs IH]; intros i best bc; simpl.
  - left. split; [done|]. by intros [].
  - destruct (fltb c0 bc) eqn:E0.
    + right. destruct (IH (S i) i c0) as [[-> H]|(j&c&->&Hj&Hlt&H)].
      * exists 0%nat, c0. split; [lia|]. split; [done|]. split; [done|].
        intros [|j] c; simpl; [intros [= <-]; apply fltb_irrefl|apply H].
      * exists (S j), c. split; [lia|]. split; [done|]. split; [by eapply fltb_trans|].
        intros [|j'] c'; simpl; [intros [= <-]|apply H].
        apply fleb_not_fltb, fltb_fleb. done.
    + destruct (IH (S i) best bc) as [[-> H]|(j&c&->&Hj&Hlt&H)].
      * left. split; [done|]. intros [|j] c; simpl; [by intros [= <-]|apply H].
      * right. exists (S j), c. split; [lia|]. split; [done|]. split; [done|].
        intros [|j'] c'; simpl; [intros [= <-]|apply H].
        destruct (fltb c0 c) eqn:E; [|done]. by rewrite (fltb_trans _ _ _ E Hlt) in E0.
Qed.

(** No cost is below the chosen one. *)
Lemma least_loaded_spec costs t :
  least_loaded costs = Some t →
  ∃ c, costs !! t = Some c ∧ ∀ j c', costs !! j = Some c' → fltb c' c = false.
Proof.
  destruct costs as [|c0 costs]; [done|]. intros [= <-].
  destruct (argmin_from_spec 1 0 c0 costs) as [[-> H]|(j&c&->&Hj&Hlt&H)].
  - exists c0. split; [done|]. intros [|j] c; simpl; [intros [= <-]; apply fltb_irrefl|apply H].
  - exists c. split; [done|]. intros [|j'] c'; simpl; [intros [= <-]|apply H].
    by apply fleb_not_fltb, fltb_fleb.
Qed.

(** The planned cost of a bucket. *)
Definition total_cost (l : list EnvelopeItem) : Float :=
  fold_left (λ c i, fadd c (i_duration_seconds i)) l fzero.

(** The buckets hold the placed items; while one is empty, none holds two. *)
Record loaded (n : nat) (done : list EnvelopeItem) (st : Loads) : Prop := {
  ld_buckets : length st.1 = n;
  ld_costs : st.2 = total_cost <$> st.1;
  ld_items : concat st.1 ≡ₚ done;
  ld_even : (∃ b, st.1 !! b = Some []) → ∀ b l, st.1 !! b = Some l → (length l ≤ 1)%nat;
}.

Lemma loaded_start n : loaded n [] (no_load n).
Proof.
  split; simpl.
  - apply length_replicate.
  - by rewrite fmap_replicate.
  - by induction n.
  - intros _ b l [-> _]%lookup_replicate. simpl. lia.
Qed.

Lemma concat_alter_app {A} (ll : list (list A)) t (x : A) :
  (t < length ll)%nat → concat (alter (λ b, b ++ [x]) t ll) ≡ₚ concat ll ++ [x].
Proof.
  revert t. induction ll as [|l ll IH]; intros t; simpl; [lia|].
  destruct t as [|t]; simpl; intros Ht.
  - rewrite <-!app_assoc. f_equiv. apply Permutation_app_comm.
  - rewrite <-app_assoc. f_equiv. apply IH. lia.
Qed.

Lemma place_loaded n done item st st' :
  proper_duration item → Forall proper_duration done → loaded n done st →
  place item st = Ok st' →
  loaded n (done ++ [item]) st'.
Proof.
  intros _ Hdone [Hn Hc Hi He]. unfold place.
  destruct (least_loaded st.2) as [t|] eqn:Ht; [|done]. intros [= <-].
  apply least_loaded_spec in Ht as (c&Hct&Hleast). rewrite Hc in Hct, Hleast.
  apply list_lookup_fmap_Some in Hct as (l&->&Hl).
  split; simpl.
  - by rewrite length_alter.
  - rewrite Hc. apply list_eq. intros j. rewrite !list_lookup_fmap.
    destruct (decide (j = t)) as [->|Hne].
    + rewrite !list_lookup_alter_eq, list_lookup_fmap, Hl. simpl.
      unfold total_cost. by rewrite fold_left_app.
    + rewrite !list_lookup_alter_ne, list_lookup_fmap by done. done.
  - rewrite concat_alter_app, Hi; [done|]. by eapply lookup_lt_Some.
  - intros [b Hb] b' l'. destruct (decide (b = t)) as [->|Hbt].
    { rewrite list_lookup_alter_eq, Hl in Hb. simpl in Hb. by destruct l. }
    rewrite list_lookup_alter_ne in Hb by done.
    assert (Hone := He (ex_intro _ _ Hb)).
    destruct (decide (b' = t)) as [->|Hne]; [|rewrite list_lookup_alter_ne by done; apply Hone].
    rewrite list_lookup_alter_eq, Hl. intros [= <-]. destruct l as [|i [|i' l]]; [simpl; lia| |].
    + exfalso. assert (fltb fzero (total_cost [i]) = false) as Hz.
      { apply (Hleast b). by rewrite list_lookup_fmap, Hb. }
      assert (proper_duration i) as [_ Hi0].
      { eapply Forall_forall; [exact Hdone|]. rewrite <-Hi. apply list_elem_of_In, in_concat.
        exists [i]. split; [|by left]. apply list_elem_of_In. by eapply list_elem_of_lookup_2. }
      change (total_cost [i]) with (fadd (float_of_Z 0) (i_duration_seconds i)) in Hz.
      destruct (fadd_zero_l (i_duration_seconds i)) as [Ez|[z Ez]]; [by rewrite Ez, Hi0 in Hz|].
      rewrite Ez in Hi0. by destruct z.
    + specialize (Hone t _ Hl). simpl in Hone. lia.
Qed.

Lemma place_all_loaded n items done st st' :
  Forall proper_duration items → Forall proper_duration done → loaded n done st →
  place_all items st = Ok st' → loaded n (done ++ items) st'.
Proof.
  intros H. revert done st. induction H as [|item items Hitem _ IH]; simpl; intros done st Hd L E.
  - injection E as <-. by rewrite app_nil_r.
  - res_inv E. rewrite cons_middle, app_assoc. eapply IH; [|by eapply place_loaded|done].
    apply Forall_app. by rewrite Forall_singleton.
Qed.

Lemma place_all_total n items done st :
  (0 < n)%nat → Forall proper_duration items → Forall proper_duration done → loaded n done st →
  ∃ st', place_all items st = Ok st'.
Proof.
  intros Hn H. revert done st. induction H as [|item items Hitem Hs IH]; simpl; intros done st Hd L; [by eauto|].
  assert (∃ st1, place item st = Ok st1) as [st1 E].
  { unfold place. destruct L as [Hb Hc _ _]. rewrite Hc. destruct st.1; [simpl in Hb; lia|]. simpl. eauto. }
  rewrite E. simpl. apply (IH (done ++ [item])); [|by eapply place_loaded].
  apply Forall_app. by rewrite Forall_singleton.
Qed.

(** With enough items no bucket stays empty. *)
Lemma loaded_full n done st b l :
  loaded n done st → (n ≤ length done)%nat → st.1 !! b = Some l → l ≠ [].
Proof.
  intros [Hn _ Hi He] Hlen Hb ->. specialize (He (ex_intro _ _ Hb)).
  assert (Hall : Forall (λ l, length l ≤ 1)%nat st.1).
  { apply Forall_lookup. eauto. }
  apply Permutation_length in Hi. rewrite <-Hi, <-Hn in Hlen. clear -Hall Hb Hlen.
  assert (∀ ll : list (list EnvelopeItem), Forall (λ l, length l ≤ 1)%nat ll →
    length (concat ll) ≤ length ll)%nat as Hle.
  { induction 1; simpl; [lia|]. rewrite length_app. lia. }
  revert b Hb Hlen. induction Hall as [|l ll Hl Hll IH]; intros [|b] Hb Hlen; simplify_eq/=.
  - specialize (Hle ll Hll). lia.
  - rewrite length_app in Hlen. eapply IH; [done|]. lia.
Qed.

(** ** Buckets and waves *)

Lemma physical_partitions_lookup p b ph :
  physical_partitions p !! b = Some ph →
  ph = Z.of_nat b ∧ (Z.of_nat b < ep_planned_task_count p)%Z.
Proof.
  unfold physical_partitions. intros H. apply list_lookup_fmap_Some in H as (x&->&H).
  apply lookup_seq in H as [-> H]. simpl. split; [done|]. lia.
Qed.

(** The plan of bucket [b] with the items [l]. *)
Definition bucket_of (key : string) (b : nat) (l : list EnvelopeItem) : BucketPlan := {|
  bp_bucket_id := Z.of_nat b; bp_runtime_key := key; bp_physical_partition := Z.of_nat b;
  bp_total_cost_seconds := total_cost l;
  bp_items := imap (planned_item (Z.of_nat b) (Z.of_nat b)) l |}.

Lemma bucket_plans_Ok p key n ll bs :
  bucket_plans p key n (zip ll (total_cost <$> ll)) = Ok bs →
  bs = imap (λ i l, bucket_of key (n + i) l) ll ∧
  (ll ≠ [] → (Z.of_nat (n + length ll) ≤ ep_planned_task_count p)%Z).
Proof.
  revert n bs. induction ll as [|l ll IH]; intros n bs H.
  - injection H as <-. done.
  - simpl in H. res_inv H. subst. destruct (IH _ _ Hs0) as [-> Hlen].
    unfold bucket_plan in Hs. destruct (physical_partitions p !! n) as [ph|] eqn:Hp; [|done].
    apply physical_partitions_lookup in Hp as [-> Hn]. injection Hs as <-. split.
    + rewrite imap_cons, Nat.add_0_r. f_equal. apply imap_ext. intros i x _. simpl. f_equal. lia.
    + intros _. simpl. destruct ll as [|l' ll]; [simpl; lia|]. specialize (Hlen ltac:(done)).
      simpl in *. lia.
Qed.

Lemma planned_items b ph l : pi_item <$> imap (planned_item b ph) l = l.
Proof.
  rewrite fmap_imap. apply imap_const_id.
Qed.

Lemma bucket_items key n ll :
  pi_item <$> concat (bp_items <$> imap (λ i l, bucket_of key (n + i) l) ll) = concat ll.
Proof.
  revert n. induction ll as [|l ll IH]; intros n; [done|].
  rewrite imap_cons, fmap_cons. cbn [concat]. rewrite fmap_app. f_equal; [apply planned_items|].
  rewrite <-(IH (S n)). do 3 f_equal. apply imap_ext. intros i x _. simpl. f_equal. lia.
Qed.

Lemma filter_split {A} (p : A → bool) (l : list A) :
  List.filter p l ++ List.filter (λ x, negb (p x)) l ≡ₚ l.
Proof.
  induction l as [|x l IH]; simpl; [done|]. destruct (p x); simpl; [by rewrite IH|].
  by rewrite <-Permutation_middle, IH.
Qed.

Lemma filter_filter {A} (p q : A → bool) (l : list A) :
  (∀ x, p x = true → q x = true) → List.filter p (List.filter q l) = List.filter p l.
Proof.
  intros H. induction l as [|x l IH]; simpl; [done|].
  destruct (q x) eqn:E; simpl; [by rewrite IH|]. rewrite IH.
  destruct (p x) eqn:E'; [|done]. by rewrite H in E.
Qed.

(** Grouping by a key loses nothing. *)
Lemma group_Permutation {A} (f : A → Z) (keys : list Z) (l : list A) :
  NoDup keys → (∀ x, x ∈ l → f x ∈ keys) →
  concat ((λ k, List.filter (λ x, (f x =? k)%Z) l) <$> keys) ≡ₚ l.
Proof.
  intros Hn. revert l. induction Hn as [|k keys Hk Hn IH]; intros l Hl.
  - destruct l as [|x l]; [done|]. specialize (Hl x ltac:(left)). by apply elem_of_nil in Hl.
  - csimpl. etransitivity; [|apply (filter_split (λ x, (f x =? k)%Z))]. f_equiv.
    rewrite <-(IH (List.filter (λ x, negb (f x =? k)%Z) l)).
    + erewrite list_fmap_ext; [reflexivity|]. intros i k' Hk'. simpl. symmetry.
      apply filter_filter. intros x ->%Z.eqb_eq. apply negb_true_iff, Z.eqb_neq. intros <-.
      by apply Hk, (list_elem_of_lookup_2 _ i).
    + intros x [Hx Hne]%elem_of_sfilter. apply negb_true_iff, Z.eqb_neq in Hne.
      specialize (Hl x Hx). by apply elem_of_cons in Hl as [?|].
Qed.

Lemma wave_plans_Permutation planned : concat (wp_items <$> wave_plans planned) ≡ₚ planned.
Proof.
  unfold wave_plans. rewrite <-list_fmap_compose.
  set (keys := order_by Z.leb (remove_dups (pi_wave_index <$> planned))).
  transitivity (concat ((λ k, List.filter (λ x, (pi_wave_index x =? k)%Z) planned) <$> keys)).
  - induction keys as [|k keys IH]; [done|]. csimpl. rewrite IH, order_by_Permutation. done.
  - apply group_Permutation.
    + unfold keys. rewrite order_by_Permutation. apply NoDup_remove_dups.
    + intros x Hx. unfold keys. apply elem_of_order_by, elem_of_remove_dups.
      by apply list_elem_of_fmap_2.
Qed.

(** ** Concurrency *)

Lemma conservative_concurrency_bounds n p peak d :
  conservative_concurrency n p peak = Ok d →
  (cd_concurrency d ≤ n ∧ cd_concurrency d ≤ ep_planned_task_count p ∧
   cd_concurrency d ≤ ep_executor_instances p * ep_executor_cores p / ep_task_cpus p)%Z ∧
  (∀ rss, peak = Some rss → (0 < rss)%Z ∧ (cd_concurrency d ≤ ep_executor_instances p *
     ((ep_executor_memory_bytes p - ep_memory_reserve_bytes p) / rss))%Z) ∧
  cd_peak_rss_bytes d = peak.
Proof.
  unfold conservative_concurrency, floordiv, _positive_int. intros H. res_inv H.
  destruct (n <? 1)%Z; simplify_eq. destruct (ep_task_cpus p =? 0)%Z; simplify_eq/=.
  destruct peak as [rss|].
  - res_inv Hs1. destruct (rss <? 1)%Z eqn:E; simplify_eq/=. apply Z.ltb_ge in E.
    split; [lia|]. split; [|done]. intros r [= <-]. lia.
  - simplify_eq/=. split; [lia|]. split; [done|done].
Qed.

(** ** Verified items *)

Lemma process_finite_Ok v x : _finite v = Ok x → fisfinite x = true.
Proof.
  destruct v; try done; simpl.
  - unfold py_float_of_int. by case_match; intros [= <-].
  - by case_match; intros [= <-].
Qed.

Lemma positive_float_Ok v x : _positive_float v = Ok x → fisfinite x = true ∧ fltb fzero x = true.
Proof.
  unfold _positive_float. intros H. res_inv H. destruct (fleb x0 fzero) eqn:E; [done|].
  injection H as <-. apply process_finite_Ok in Hs. split; [done|].
  rewrite fltb_negb_fleb; [by rewrite E|done|]. by apply fisfinite_not_nan.
Qed.

Lemma verify_item_proper key n ids raw i :
  verify_item key n ids raw = Ok i → proper_duration i ∧ i_runtime_key i = key.
Proof.
  destruct raw as [| | | | | |d]; try done. cbn [verify_item]. intros H. res_inv H.
  destruct (dict_get "payload" d) as [| | | | | |pl]; try done. res_inv H.
  simplify_eq. btrue. split; [by eapply positive_float_Ok|done].
Qed.

Lemma verify_items_proper key n ids raws l :
  verify_items key n ids raws = Ok l → Forall (λ i, proper_duration i ∧ i_runtime_key i = key) l.
Proof.
  revert n ids l. induction raws as [|raw raws IH]; simpl; intros n ids l H.
  - injection H as <-. constructor.
  - res_inv H. subst. constructor; [by eapply verify_item_proper|by eapply IH].
Qed.

Lemma verify_envelope_proper d id sha v :
  verify_envelope d id sha = Ok v →
  v_items v ≠ [] ∧ Forall (λ i, proper_duration i ∧ i_runtime_key i = v_runtime_key v) (v_items v).
Proof.
  unfold verify_envelope. intros H. res_inv H.
  destruct (dict_get "items" d) as [| | | | |[|r raws]|]; try done. res_inv H. simplify_eq. simpl.
  rename select (verify_items _ _ _ _ = Ok _) into E. split.
  - simpl in E. res_inv E. by simplify_eq.
  - by eapply verify_items_proper.
Qed.

(** ** The plan *)

Definition bucket_durations (b : BucketPlan) : list EnvelopeItem := pi_item <$> bp_items b.

Lemma plan_inv items profile peak m plan :
  plan_duration_lpt items profile peak m = Ok plan →
  ∃ st, place_all (lpt_order items) (no_load (Z.to_nat (cd_concurrency (xp_concurrency plan)))) = Ok st ∧
    conservative_concurrency (Z.of_nat (length items)) profile peak = Ok (xp_concurrency plan) ∧
    items ≠ [] ∧ xp_projected_makespan_seconds plan = fmax_of st.2 ∧
    xp_waves plan = wave_plans (concat (bp_items <$> xp_buckets plan)) ∧
    ∃ key, Forall (λ i, i_runtime_key i = key) items ∧
      bucket_plans profile key 0 (zip st.1 st.2) = Ok (xp_buckets plan).
Proof.
  destruct items as [|first items]; [done|]. unfold plan_duration_lpt. intros H. res_inv H. subst plan.
  simpl. exists x1. split_and!; try done. exists (i_runtime_key first). split; [|done].
  apply Forall_forall. intros i Hi. rename select (forallb _ _ = true) into E.
  apply (bool_decide_eq_true_1 _), (proj1 (forallb_forall _ _) E i (proj1 (list_elem_of_In _ _) Hi)).
Qed.

Lemma plan_facts d id sha v profile peak m plan :
  verify_envelope d id sha = Ok v → plan_duration_lpt (v_items v) profile peak m = Ok plan →
  let c := cd_concurrency (xp_concurrency plan) in
  pi_item <$> concat (bp_items <$> xp_buckets plan) ≡ₚ v_items v ∧
  concat (wp_items <$> xp_waves plan) ≡ₚ concat (bp_items <$> xp_buckets plan) ∧
  Z.of_nat (length (xp_buckets plan)) = c ∧
  (0 < c ≤ Z.of_nat (length (v_items v)) ∧ c ≤ ep_planned_task_count profile ∧
   c ≤ ep_executor_instances profile * ep_executor_cores profile / ep_task_cpus profile)%Z ∧
  (∀ rss, peak = Some rss → (c ≤ ep_executor_instances profile *
     ((ep_executor_memory_bytes profile - ep_memory_reserve_bytes profile) / rss))%Z) ∧
  ∀ b bp, xp_buckets plan !! b = Some bp →
    bp = bucket_of (v_runtime_key v) b (bucket_durations bp) ∧ bp_items bp ≠ [].
Proof.
  intros Hv H c. destruct (verify_envelope_proper _ _ _ _ Hv) as [Hne Hall].
  apply plan_inv in H as (st&Hst&Hc&_&_&Hw&key&Hkey&Hb). fold c in Hst.
  assert (Hp : Forall proper_duration (lpt_order (v_items v))).
  { unfold lpt_order. rewrite order_by_Permutation. eapply Forall_impl; [exact Hall|]. by intros i []. }
  pose proof (place_all_loaded _ _ [] _ _ Hp (Forall_nil_2 _) (loaded_start _) Hst) as L.
  simpl in L. pose proof L as [Hn Hcosts Hitems _].
  assert (Hc0 : (0 < c)%Z).
  { destruct (Z.le_gt_cases c 0) as [Hle|]; [|done]. exfalso.
    assert (E : lpt_order (v_items v) ≡ₚ []).
    { rewrite <-Hitems. destruct st.1 as [|? ?]; [done|]. simpl in Hn. lia. }
    unfold lpt_order in E. rewrite order_by_Permutation in E. by apply Permutation_nil_r in E. }
  rewrite Hcosts in Hb. apply bucket_plans_Ok in Hb as [Hb _].
  apply conservative_concurrency_bounds in Hc as ((B1&B2&B3)&Bm&_). fold c in B1, B2, B3, Bm.
  assert (key = v_runtime_key v) as ->.
  { destruct (v_items v) as [|i l]; [done|]. apply Forall_inv in Hkey, Hall. destruct Hall. congruence. }
  split; [|split; [|split; [|split; [done|split]]]].
  - rewrite Hb. rewrite (bucket_items (v_runtime_key v) 0), Hitems. apply order_by_Permutation.
  - rewrite Hw. apply wave_plans_Permutation.
  - rewrite Hb, length_imap, Hn. lia.
  - intros rss Hr. by apply Bm.
  - intros b bp. rewrite Hb, list_lookup_imap. intros (l&Hl&->)%fmap_Some. simpl.
    unfold bucket_durations. simpl. rewrite planned_items. split; [done|].
    assert (l ≠ []) as Hl0; [|by destruct l].
    eapply loaded_full; [exact L| |done]. unfold lpt_order. rewrite order_by_Permutation. lia.
Qed.

(** C33. The LPT plan of a verified envelope loses no item and idles no partition.
    Every item is planned exactly once, in exactly one wave; bucket [b] runs on the
    physical partition [b] of the profile, its items in waves 0, 1, ... without
    gaps, its cost the sum of its durations; no bucket is empty; and the number of
    buckets respects the item, profile, CPU and memory limits. *)
Theorem lpt_plans_every_item d id sha v profile peak m plan :
  verify_envelope d id sha = Ok v → plan_duration_lpt (v_items v) profile peak m = Ok plan →
  let c := cd_concurrency (xp_concurrency plan) in
  pi_item <$> concat (bp_items <$> xp_buckets plan) ≡ₚ v_items v ∧
  concat (wp_items <$> xp_waves plan) ≡ₚ concat (bp_items <$> xp_buckets plan) ∧
  Z.of_nat (length (xp_buckets plan)) = c ∧
  (0 < c ≤ Z.of_nat (length (v_items v)) ∧ c ≤ ep_planned_task_count profile ∧
   c ≤ ep_executor_instances profile * ep_executor_cores profile / ep_task_cpus profile)%Z ∧
  (∀ rss, peak = Some rss → (c ≤ ep_executor_instances profile *
     ((ep_executor_memory_bytes profile - ep_memory_reserve_bytes profile) / rss))%Z) ∧
  ∀ b bp, xp_buckets plan !! b = Some bp →
    bp = bucket_of (v_runtime_key v) b (bucket_durations bp) ∧ bp_items bp ≠ [].
Proof. apply plan_facts. Qed.

(** [{item.runtime_key for item in items} == {key}]. *)
Definition one_key (key : string) (l : list EnvelopeItem) : bool :=
  forallb (λ j, bool_decide (i_runtime_key j = key)) l.

Lemma one_key_spec key l : one_key key l = true ↔ ∀ j, j ∈ l → i_runtime_key j = key.
Proof.
  unfold one_key. rewrite forallb_forall. setoid_rewrite bool_decide_eq_true.
  by setoid_rewrite list_elem_of_In.
Qed.

Lemma one_key_perm l k key : l ≡ₚ k → one_key key l = one_key key k.
Proof. intros H. apply eq_true_iff_eq. rewrite !one_key_spec. by setoid_rewrite H. Qed.

(** The plan does not depend on the order of the items: two listings of the same
    works get the same plan, or the same error. *)
Theorem plan_ignores_listing_order items items' profile peak m :
  items ≡ₚ items' → NoDup (i_work_id <$> items) → Forall proper_duration items →
  plan_duration_lpt items profile peak m = plan_duration_lpt items' profile peak m.
Proof.
  intros Hp Hn Hd.
  assert (Ho : lpt_order items = lpt_order items').
  { apply lpt_order_unique; [done| |done]. eapply Forall_impl; [exact Hd|]. apply proper_timed. }
  assert (Hl : length items = length items') by by rewrite Hp.
  destruct items as [|i l], items' as [|i' l']; try done.
  unfold plan_duration_lpt. rewrite Ho, Hl.
  destruct (conservative_concurrency _ _ _) as [dec|e]; [|done]. cbn [mbind result_bind].
  change (forallb (λ j, bool_decide (i_runtime_key j = ?k)) ?x) with (one_key k x).
  assert (Hi : i ∈ i' :: l') by (rewrite <-Hp; left).
  pose proof (one_key_perm _ _ (i_runtime_key i') Hp) as E'.
  destruct (one_key (i_runtime_key i) (i :: l)) eqn:E.
  - assert (i_runtime_key i' = i_runtime_key i) as ->.
    { rewrite one_key_spec in E. apply E. rewrite Hp. left. }
    by rewrite <-(one_key_perm _ _ _ Hp), E.
  - rewrite <-E'. destruct (one_key (i_runtime_key i') (i :: l)) eqn:E2; [|done].
    rewrite one_key_spec in E2. rewrite <-(E2 i ltac:(left)) in E'.
    rewrite <-not_true_iff_false, one_key_spec in E. destruct E. intros j Hj.
    by rewrite (E2 j Hj), (E2 i ltac:(left)).
Qed.

(** ** Plans exist *)

Lemma bucket_plans_total p key n l :
  (Z.of_nat (n + length l) ≤ ep_planned_task_count p)%Z → ∃ bs, bucket_plans p key n l = Ok bs.
Proof.
  revert n. induction l as [|bc l IH]; intros n Hn; [by eauto|]. cbn [bucket_plans length] in *.
  assert (∃ b, bucket_plan p key n bc = Ok b) as [b ->].
  { unfold bucket_plan. destruct (physical_partitions p !! n) eqn:E; [eauto|].
    apply lookup_ge_None in E. unfold physical_partitions in E.
    rewrite length_fmap, length_seq in E. lia. }
  destruct (IH (S n)) as [bs ->]; [lia|]. simpl. eauto.
Qed.

(** A profile with room for one task, on its executors and under its memory limit. *)
Definition runnable (p : ExecutionProfile) (peak : option Z) : Prop :=
  (1 ≤ ep_planned_task_count p ∧ 1 ≤ ep_task_cpus p ≤ ep_executor_instances p * ep_executor_cores p)%Z ∧
  ∀ rss, peak = Some rss → (1 ≤ rss ≤ ep_executor_memory_bytes p - ep_memory_reserve_bytes p ∧
                            1 ≤ ep_executor_instances p)%Z.

Lemma conservative_concurrency_total n p peak :
  (1 ≤ n)%Z → runnable p peak →
  ∃ d, conservative_concurrency n p peak = Ok d ∧ (1 ≤ cd_concurrency d)%Z.
Proof.
  intros Hn [[Hp Hc] Hm]. unfold conservative_concurrency, floordiv, _positive_int.
  destruct (Z.ltb_spec n 1); [lia|]. destruct (Z.eqb_spec (ep_task_cpus p) 0); [lia|]. simpl.
  assert (1 ≤ ep_executor_instances p * ep_executor_cores p / ep_task_cpus p)%Z
    by (apply Z.div_le_lower_bound; lia).
  destruct peak as [rss|]; simpl.
  - destruct (Hm rss eq_refl) as [[Hr1 Hr2] Hi]. destruct (Z.ltb_spec rss 1); [lia|]. simpl.
    destruct (Z.ltb_spec (ep_executor_memory_bytes p - ep_memory_reserve_bytes p) rss); [lia|]. simpl.
    eexists. split; [done|]. simpl.
    assert (1 ≤ (ep_executor_memory_bytes p - ep_memory_reserve_bytes p) / rss)%Z
      by (apply Z.div_le_lower_bound; lia).
    assert (1 * 1 ≤ ep_executor_instances p *
      ((ep_executor_memory_bytes p - ep_memory_reserve_bytes p) / rss))%Z by (apply Z.mul_le_mono_nonneg; lia).
    lia.
  - eexists. split; [done|]. simpl. lia.
Qed.

(** Every verified envelope gets a plan on a profile that can run one task. *)
Theorem verified_envelope_is_planned d id sha v profile peak :
  verify_envelope d id sha = Ok v → runnable profile peak →
  ∃ plan, plan_duration_lpt (v_items v) profile peak None = Ok plan.
Proof.
  intros Hv Hr. destruct (verify_envelope_proper _ _ _ _ Hv) as [Hne Hall].
  destruct (conservative_concurrency_total (Z.of_nat (length (v_items v))) profile peak)
    as (dec&E&Hc); [destruct (v_items v); [done|simpl; lia]|done|].
  assert (Hp : Forall proper_duration (lpt_order (v_items v))).
  { unfold lpt_order. rewrite order_by_Permutation. eapply Forall_impl; [exact Hall|]. by intros i []. }
  destruct (place_all_total (Z.to_nat (cd_concurrency dec)) _ [] _ ltac:(lia) Hp (Forall_nil_2 _)
    (loaded_start (Z.to_nat (cd_concurrency dec)))) as [st Hst].
  pose proof (place_all_loaded _ _ [] _ _ Hp (Forall_nil_2 _) (loaded_start _) Hst) as [Hn Hcosts _ _].
  destruct (v_items v) as [|i l] eqn:Ev; [done|]. unfold plan_duration_lpt. rewrite E. cbn [mbind result_bind].
  change (forallb _ (i :: l)) with (one_key (i_runtime_key i) (i :: l)).
  assert (one_key (i_runtime_key i) (i :: l) = true) as ->.
  { apply one_key_spec. intros j Hj. rewrite Forall_forall in Hall.
    destruct (Hall j Hj) as [_ ->]. by destruct (Hall i ltac:(left)) as [_ ->]. }
  cbn [require mbind result_bind]. rewrite Hst. cbn [mbind result_bind].
  destruct (bucket_plans_total profile (i_runtime_key i) 0 (zip st.1 st.2)) as [bs ->]; [|simpl; eauto].
  rewrite length_zip, Hcosts, length_fmap, Nat.min_id, Hn.
  apply conservative_concurrency_bounds in E as [(_&?&_) _]. lia.
Qed.

(** ** A sample envelope *)

Definition sha_of (v : pyval) : string := match _sha256 v with Ok sha => sha | Err _ => "" end.

Definition sample_raw (k : nat) (work : string) (seconds : Z) : pyval :=
  let payload := VDict [("video", VStr work)] in
  VDict [("ordinal", VInt (Z.of_nat k)); ("work_id", VStr work); ("attempt_id", VStr ("a-" +:+ work));
         ("fence", VInt 1); ("payload_sha256", VStr (sha_of payload));
         ("payload", payload); ("config_sha256", VStr "cfg"); ("release_digest", VStr "rel");
         ("duration_seconds", VInt seconds)]%string.

Definition sample_raws : list pyval :=
  [sample_raw 0 "w1" 30; sample_raw 1 "w2" 50; sample_raw 2 "w3" 30]%string.

Definition sample_digest (raws : list pyval) : string :=
  match verify_items "spark" 0 [] raws with
  | Ok items => sha_of (VList (claimed_json ∘ claimed_work <$> items))
  | Err _ => ""
  end.

Definition sample_envelope (raws : list pyval) : list (string * pyval) :=
  [("schema_version", VInt 1); ("batch_id", VStr "b"); ("owner", VStr "worker");
   ("runtime_key", VStr "spark"); ("membership_sha256", VStr (sample_digest raws));
   ("items", VList raws); ("claimed_at", VInt 10); ("lease_expires_at", VInt 500)]%string.

Definition sample_sha : string := String.concat "" (replicate 64 "a"%string).
Definition sample_verified : result VerifiedEnvelope := Eval vm_compute in
  verify_envelope (sample_envelope sample_raws) "b" sample_sha.
Definition sample_items : list EnvelopeItem := Eval vm_compute in
  match sample_verified with Ok v => v_items v | Err _ => [] end.

Definition sample : VerifiedEnvelope := Eval vm_compute in
  match sample_verified with
  | Ok v => v
  | Err _ => {| v_batch_id := ""; v_owner := ""; v_runtime_key := ""; v_claimed_at := fzero;
                v_lease_expires_at := fzero; v_membership_sha256 := ""; v_envelope_sha256 := "";
                v_items := [] |}
  end.

Lemma sample_verifies : verify_envelope (sample_envelope sample_raws) "b" sample_sha = Ok sample.
Proof. vm_cast_no_check (@eq_refl (result VerifiedEnvelope) (Ok sample)). Qed.

Definition sample_plan : ExecutionPlan := Eval vm_compute in
  match plan_duration_lpt (v_items sample) LOCAL_TWO_WORKERS None None with
  | Ok plan => plan
  | Err _ => {| xp_concurrency := {| cd_concurrency := 0; cd_item_limit := 0; cd_profile_limit := 0;
      cd_cpu_limit := 0; cd_memory_limit := None; cd_peak_rss_bytes := None;
      cd_duration_only_fallback := true |}; xp_buckets := []; xp_waves := [];
      xp_projected_makespan_seconds := fzero |}
  end.

Lemma sample_planned : plan_duration_lpt (v_items sample) LOCAL_TWO_WORKERS None None = Ok sample_plan.
Proof. vm_cast_no_check (@eq_refl (result ExecutionPlan) (Ok sample_plan)). Qed.

(** Two buckets: the longest video alone, the two shorter ones together, in waves 0 and 1. *)
Lemma lpt_plans_every_item_witness :
  pi_item <$> concat (bp_items <$> xp_buckets sample_plan) ≡ₚ v_items sample ∧
  (λ b, i_work_id <$> bucket_durations b) <$> xp_buckets sample_plan = [["w2"]; ["w1"; "w3"]]%string.
Proof.
  destruct (lpt_plans_every_item _ _ _ _ LOCAL_TWO_WORKERS None None _ sample_verifies sample_planned)
    as [H _].
  split; [exact H|reflexivity].
Defined.

Lemma plan_ignores_listing_order_witness :
  plan_duration_lpt (reverse (v_items sample)) LOCAL_TWO_WORKERS None None = Ok sample_plan.
Proof.
  rewrite <-sample_planned. symmetry. apply plan_ignores_listing_order.
  - symmetry. apply reverse_Permutation.
  - apply (bool_decide_unpack _). vm_compute. exact I.
  - repeat (apply Forall_cons_2; [split; vm_compute; reflexivity|]). apply Forall_nil_2.
Defined.

Lemma verified_envelope_is_planned_witness :
  ∃ plan, plan_duration_lpt (v_items sample) LOCAL_TWO_WORKERS None None = Ok plan.
Proof.
  apply (verified_envelope_is_planned _ _ _ _ _ _ sample_verifies).
  split; [vm_compute; repeat split; discriminate|discriminate].
Defined.
