(* ===== verification/ProcessRecords.v ===== *)
(** * sjd_process.py: staged records

    Records are dicts.  The driver orders them, a task writes those of one physical
    partition to a staging file of its own and returns a receipt, and the driver
    reads one receipt per partition back.  A directory tree maps the paths of text
    files, as lists of segments, to their contents. *)
From S2P Require Export Prelude PyDict PyVal Json Sha256 ControlTypes ProcessEnvelope ProcessPlan.

Module Records.
Import Process Plan.

Abbreviation Dict := (list (string * pyval)).

(** ** Python's [dict] and iteration on dynamic values *)

(** [iter(v)]; a text yields its characters, a dict its keys. *)
Definition py_iter (v : pyval) : result (list pyval) :=
  match v with
  | VList l => Ok l
  | VDict d => Ok ((λ kv, VStr kv.1) <$> d)
  | VStr s => Ok ((λ z, VStr (str_of_codes [z])) <$> codes_of_str s)
  | _ => Err TypeError
  end.

(** One element of [dict(pairs)]: a sequence of length two.  Only keys that are
    texts have a counterpart among the modelled dicts. *)
Definition py_pair (v : pyval) : result (string * pyval) :=
  l ← py_iter v;
  match l with
  | [VStr k; x] => Ok (k, x)
  | [_; _] => Err TypeError
  | _ => Err ValueError
  end.

(** [dict(v)]. *)
Definition py_dict (v : pyval) : result Dict :=
  match v with
  | VDict d => Ok d
  | _ => l ← py_iter v; ps ← map_result py_pair l; Ok (dict_of_pairs ps)
  end.

(** ** Order *)

(** [(0, n)] of an integer sequence, [(1, repr(v))] of anything else. *)
Inductive seq_key := SeqInt (z : Z) | SeqRepr (s : string).

Definition seq_leb (a b : seq_key) : bool :=
  match a, b with
  | SeqInt x, SeqInt y => (x <=? y)%Z
  | SeqInt _, SeqRepr _ => true
  | SeqRepr _, SeqInt _ => false
  | SeqRepr x, SeqRepr y => str_leb x y
  end.

Definition sequence_key (r : Dict) : seq_key :=
  match dict_get "record_sequence" r with
  | VInt z => SeqInt z
  | v => SeqRepr (str_of_codes (py_repr v))
  end.

(** [str(record.get(name, ""))]. *)
Definition record_text (name : string) (r : Dict) : string :=
  py_str (default (VStr "") (dict_lookup name r)).

(** Comparison of the key tuples: the first components that differ decide. *)
Definition record_leb (a b : Dict) : bool :=
  let by_text name rest :=
    if String.eqb (record_text name a) (record_text name b) then rest
    else str_leb (record_text name a) (record_text name b) in
  by_text "work_id"%string (by_text "attempt_id"%string (by_text "record_type"%string
    (seq_leb (sequence_key a) (sequence_key b)))).

Definition order_records (l : list Dict) : list Dict := order_by record_leb l.

(** [_ordered_records] on the items of a JSON document. *)
Definition _ordered_records (l : list pyval) : result (list Dict) :=
  order_records <$> map_result py_dict l.

Definition records_value (l : list Dict) : pyval := VList (VDict <$> l).

(** ** Directory trees *)

Abbreviation Path := (list string).

Record Disk := {
  d_dirs : gset Path;
  d_texts : gmap Path string;
}.

Definition no_files : Disk := {| d_dirs := ∅; d_texts := ∅ |}.

(** [str(path)] of an absolute path. *)
Definition path_text (p : Path) : string := foldr (λ s acc, ("/" +:+ s +:+ acc)%string) ""%string p.

(** [path.exists()], [path.is_file()]. *)
Definition path_exists (p : Path) (d : Disk) : bool :=
  bool_decide (p ∈ d_dirs d) || bool_decide (is_Some (d_texts d !! p)).
Definition is_file (p : Path) (d : Disk) : bool := bool_decide (is_Some (d_texts d !! p)).

(** [path.mkdir(parents=True, exist_ok=True)]: the path and its parents. *)
Definition ancestors (p : Path) : list Path := (λ n, take n p) <$> seq 1 (length p).
Definition mkdirs (p : Path) (d : Disk) : Disk :=
  {| d with d_dirs := list_to_set (ancestors p) ∪ d_dirs d |}.

Definition put_text (p : Path) (s : string) (d : Disk) : Disk :=
  {| d with d_texts := <[p := s]> (d_texts d) |}.

(** [os.replace(temporary, destination)]. *)
Definition rename (from to : Path) (d : Disk) : Disk :=
  match d_texts d !! from with
  | Some s => {| d with d_texts := <[to := s]> (delete from (d_texts d)) |}
  | None => d
  end.

(** ** Partition staging *)

Record PartitionStagingReceipt := {
  ps_physical_partition : Z;
  ps_task_attempt_id : Z;
  ps_attempt_number : Z;
  ps_record_count : Z;
  ps_work_ids : list string;
  ps_content_sha256 : string;
  ps_content_size_bytes : Z;
}.

(** [f"{z:04d}"]: zeros after the sign up to width four. *)
Definition pad4 (z : Z) : string :=
  let ds := dec_digits (Z.abs z) in
  let width := (if (z <? 0)%Z then 3 else 4)%nat in
  str_of_codes ((if (z <? 0)%Z then [45%Z] else [])
                ++ replicate (width - length ds) 48%Z ++ ds).

Definition _partition_staging_directory (root : Path)
    (physical_partition task_attempt_id attempt_number : Z) : Path :=
  root ++ ["partition-" +:+ pad4 physical_partition;
           "task-attempt-" +:+ int_str task_attempt_id;
           "attempt-" +:+ int_str attempt_number]%string.

Definition _partition_staging_path (root : Path)
    (physical_partition task_attempt_id attempt_number : Z) : Path :=
  _partition_staging_directory root physical_partition task_attempt_id attempt_number
  ++ ["records.jsonl"%string].

(** [record[name]]. *)
Definition record_item (name : string) (r : Dict) : result pyval :=
  match dict_lookup name r with Some v => Ok v | None => Err KeyError end.

(** [sorted({...})] on texts. *)
Definition sorted_set (l : list string) : list string := order_by str_leb (remove_dups l).

Definition _partition_receipt (physical_partition task_attempt_id attempt_number : Z)
    (ordered : list Dict) (content : string) : result PartitionStagingReceipt :=
  works ← map_result (λ r, py_str <$> record_item "work_id" r) ordered;
  Ok {| ps_physical_partition := physical_partition; ps_task_attempt_id := task_attempt_id;
        ps_attempt_number := attempt_number; ps_record_count := Z.of_nat (length ordered);
        ps_work_ids := sorted_set works; ps_content_sha256 := sha256_text content;
        ps_content_size_bytes := Z.of_nat (length (utf8 content)) |}.

(** [process] is the suffix of the temporary file, with the process and thread. *)
Definition stage_partition_records (process : string) (root : Path) (physical_partition : Z)
    (records : list Dict) (task_attempt_id attempt_number : Z) : tx Disk PartitionStagingReceipt :=
  let ordered := order_records records in
  content ← tx_lift (_canonical (records_value ordered));
  receipt ← tx_lift (_partition_receipt physical_partition task_attempt_id attempt_number ordered content);
  let directory := _partition_staging_directory root physical_partition task_attempt_id attempt_number in
  let destination := _partition_staging_path root physical_partition task_attempt_id attempt_number in
  tx_modify (mkdirs directory);;
  d ← tx_get;
  match d_texts d !! destination with
  | Some existing =>
      tx_require (bool_decide (existing = content)) StagingConflictError;;
      mret receipt
  | None =>
      let temporary := directory ++ ["records.jsonl.tmp-" +:+ process]%string in
      tx_require (negb (path_exists temporary d)) FileExistsError;;
      tx_modify (put_text temporary content);;
      tx_modify (rename temporary destination);;
      mret receipt
  end.

Definition read_staged_partition_records (root : Path) (receipt : PartitionStagingReceipt)
    (d : Disk) : result (list Dict) :=
  let destination := _partition_staging_path root (ps_physical_partition receipt)
    (ps_task_attempt_id receipt) (ps_attempt_number receipt) in
  match d_texts d !! destination with
  | None => Err StagingConflictError
  | Some content =>
      require (negb ((0 <? ps_content_size_bytes receipt)%Z
        && negb (Z.of_nat (length (utf8 content)) =? ps_content_size_bytes receipt)%Z))
        StagingConflictError;;
      require (bool_decide (sha256_text content = ps_content_sha256 receipt)) StagingConflictError;;
      value ← json_loads_text content;
      items ← py_iter value;
      records ← _ordered_records items;
      require (Z.of_nat (length records) =? ps_record_count receipt)%Z StagingConflictError;;
      Ok records
  end.

(** ** One receipt per partition *)

Definition content_identity (r : PartitionStagingReceipt) : Z * list string * string * Z :=
  (ps_record_count r, ps_work_ids r, ps_content_sha256 r, ps_content_size_bytes r).

(** [(attempt_number, task_attempt_id)] of [y] after that of [x]. *)
Definition later (x y : PartitionStagingReceipt) : bool :=
  if (ps_attempt_number x =? ps_attempt_number y)%Z
  then (ps_task_attempt_id x <? ps_task_attempt_id y)%Z
  else (ps_attempt_number x <? ps_attempt_number y)%Z.

(** [max(candidates, key=...)]: the first of the largest. *)
Definition winner (first : PartitionStagingReceipt) (rest : list PartitionStagingReceipt)
    : PartitionStagingReceipt :=
  fold_left (λ best r, if later best r then r else best) rest first.

Definition select_partition (candidates : list PartitionStagingReceipt)
    : result PartitionStagingReceipt :=
  match candidates with
  | [] => Err ValueError
  | first :: rest =>
      require (bool_decide (length (remove_dups (content_identity <$> candidates)) = 1%nat))
        StagingConflictError;;
      Ok (winner first rest)
  end.

(** [by_partition.setdefault(partition, []).append(receipt)]. *)
Definition by_partition (receipts : list PartitionStagingReceipt)
    : list (Z * list PartitionStagingReceipt) :=
  fold_left (λ d r, dset (ps_physical_partition r)
    (default [] (dget (ps_physical_partition r) d) ++ [r]) d) receipts [].

Definition select_one_receipt_per_partition (receipts : list PartitionStagingReceipt)
    : result (list PartitionStagingReceipt) :=
  let groups := by_partition receipts in
  map_result (λ p, candidates ← dindex p groups; select_partition candidates)
    (order_by Z.leb groups.*1).

End Records.
