(* ===== verification/ProcessRecordsTheorems.v ===== *)
(** * Theorems on staged records

    Records come back from a file as they were written, up to the order of their
    keys; a task's staging file is written once; and the driver selects the latest
    of the equivalent receipts of each partition. *)
From S2P Require Export Prelude PyDict PyVal Json Sha256 JsonTheorems ControlTypes ProcessEnvelope ProcessPlan ProcessRecords.
Import Process Plan Records.

(** ** Reading a value back *)

Lemma py_eqb_list l k :
  Forall2 (λ x y, py_eqb x y = true) l k → py_eqb (VList l) (VList k) = true.
Proof. induction 1 as [|x y l k Hx _ IH]; [done|]. simpl in *. by rewrite Hx. Qed.

Lemma py_eqb_dict d e : py_eqb (VDict d) (VDict e) =
  (length d =? length e)%nat &&
  forallb (λ kv, match dict_lookup kv.1 e with Some y => py_eqb kv.2 y | None => false end) d.
Proof.
  simpl. f_equal. induction d as [|[k x] d IH]; simpl; [done|]. by rewrite IH.
Qed.

(** A value that has a canonical text equals its sorted copy. *)
Lemma py_eqb_sorted v : ∀ t,
  json_safe v = true → json_codes false v = Ok t → py_eqb (json_sorted v) v = true.
Proof.
  induction v as [|b|z|x|s|l IH|d IH] using pyval_nested_ind; intros t Hs Ht; try done.
  - simpl. by destruct b.
  - simpl. apply Z.eqb_refl.
  - simpl. apply feqb_refl. unfold json_codes, json_float in Ht. by destruct x.
  - simpl. apply String.eqb_refl.
  - apply json_codes_list in Ht as (ts&Hts&_). simpl json_sorted. apply py_eqb_list. simpl in Hs.
    revert Hs IH. induction Hts as [|v c l ts Hc _ IHl]; [constructor|].
    simpl. intros [Hs1 Hs2]%andb_true_iff [Hv IH]%Forall_cons. csimpl. constructor; eauto.
  - apply json_codes_dict in Ht as (ts&Hts&_). simpl json_sorted. rewrite py_eqb_dict.
    rewrite (Permutation_length (sort_keys_Permutation _)), length_fmap, Nat.eqb_refl. simpl.
    simpl in Hs. apply andb_true_iff in Hs as [Hn%bool_decide_eq_true Hs].
    apply forallb_forall. intros [k y] Hin%list_elem_of_In. rewrite sort_keys_Permutation in Hin.
    apply list_elem_of_fmap in Hin as ([k' v]&[= -> ->]&Hin). simpl.
    rewrite (proj2 (dict_lookup_elem k' v d Hn) Hin).
    apply list_elem_of_lookup in Hin as [i Hi].
    destruct (Forall2_lookup_l _ _ _ _ _ Hts Hi) as ([k2 c]&_&[_ Hc]). simpl in Hc.
    rewrite Forall_lookup in IH. eapply (IH i _ Hi); [|exact Hc].
    rewrite forallb_forall in Hs. apply (Hs (k', v)), list_elem_of_In. by eapply list_elem_of_lookup_2.
Qed.

Lemma canonical_codes v s : _canonical v = Ok s → ∃ t, json_codes false v = Ok t ∧ s = str_of_codes t.
Proof.
  unfold _canonical, json_dumps. destruct (json_codes false v) as [t|]; simpl; [|done]. intros [= <-]. eauto.
Qed.

(** [json.loads] of a canonical text. *)
Lemma canonical_reads v s :
  json_safe v = true → _canonical v = Ok s → json_loads_text s = Ok (json_sorted v).
Proof.
  intros Hs H. apply canonical_codes in H as (t&Ht&->). destruct (json_safe_read v Hs) as [Hu Er].
  unfold json_loads_text. rewrite codes_of_codes.
  - by rewrite (json_loads_codes _ _ _ Hu Ht), Er.
  - eapply Forall_impl; [by eapply json_codes_ascii|]. unfold ascii. intros; lia.
Qed.

Lemma canonical_sorted v s : json_safe v = true → _canonical v = Ok s → _canonical (json_sorted v) = Ok s.
Proof.
  intros Hs H. apply canonical_codes in H as (t&Ht&->). unfold _canonical, json_dumps.
  by rewrite (json_codes_sorted false v t Hs Ht).
Qed.

Lemma canonical_equal v s :
  json_safe v = true → _canonical v = Ok s → py_eqb (json_sorted v) v = true.
Proof. intros Hs H. apply canonical_codes in H as (t&Ht&_). by eapply py_eqb_sorted. Qed.

(** ** Records as they are read back *)

Definition stored_dict (r : Dict) : Dict :=
  sort_keys ((λ kv, (kv.1, json_sorted kv.2)) <$> r).

Lemma stored_value l : json_sorted (records_value l) = records_value (stored_dict <$> l).
Proof. unfold records_value. simpl. f_equal. by rewrite <-!list_fmap_compose. Qed.

Lemma stored_lookup k r : NoDup r.*1 → dict_lookup k (stored_dict r) = json_sorted <$> dict_lookup k r.
Proof.
  intros Hn. unfold stored_dict. rewrite dict_lookup_sorted; [apply dict_lookup_map|].
  by rewrite <-list_fmap_compose.
Qed.

(** The order columns hold texts and an integer. *)
Definition keyed (r : Dict) : Prop :=
  NoDup r.*1 ∧ (∃ w a t, dict_lookup "work_id" r = Some (VStr w) ∧
    dict_lookup "attempt_id" r = Some (VStr a) ∧ dict_lookup "record_type" r = Some (VStr t)) ∧
  ∃ z, dict_lookup "record_sequence" r = Some (VInt z).

Definition record_key (r : Dict) : string * string * string * seq_key :=
  (record_text "work_id" r, record_text "attempt_id" r, record_text "record_type" r, sequence_key r).

Lemma stored_key r : keyed r → record_key (stored_dict r) = record_key r.
Proof.
  intros (Hn&(w&a&t&Hw&Ha&Ht)&z&Hz). unfold record_key, record_text, sequence_key, dict_get.
  by rewrite !stored_lookup, Hw, Ha, Ht, Hz by done.
Qed.

Lemma seq_leb_total a b : seq_leb a b = true ∨ seq_leb b a = true.
Proof.
  destruct a as [x|x], b as [y|y]; simpl; auto; [|apply str_leb_total].
  rewrite !Z.leb_le. lia.
Qed.
Lemma seq_leb_trans a b c : seq_leb a b = true → seq_leb b c = true → seq_leb a c = true.
Proof.
  destruct a as [x|x], b as [y|y], c as [z|z]; simpl; try done; [|apply str_leb_trans].
  rewrite !Z.leb_le. lia.
Qed.
Lemma seq_leb_antisymm a b : seq_leb a b = true → seq_leb b a = true → a = b.
Proof.
  destruct a as [x|x], b as [y|y]; simpl; try done.
  - rewrite !Z.leb_le. intros. f_equal. lia.
  - intros. f_equal. by apply str_leb_antisymm.
Qed.

(** Lexicographic extension of an order by a text. *)
Definition lex_leb (x y : string) (rest : bool) : bool := if String.eqb x y then rest else str_leb x y.

Lemma lex_total x y r1 r2 :
  r1 = true ∨ r2 = true → lex_leb x y r1 = true ∨ lex_leb y x r2 = true.
Proof.
  unfold lex_leb. rewrite (String.eqb_sym y x). destruct (String.eqb x y); [done|]. intros _. apply str_leb_total.
Qed.
Lemma lex_trans x y z r1 r2 r3 :
  (r1 = true → r2 = true → r3 = true) →
  lex_leb x y r1 = true → lex_leb y z r2 = true → lex_leb x z r3 = true.
Proof.
  unfold lex_leb. intros Hr.
  repeat match goal with |- context [String.eqb ?a ?b] => destruct (String.eqb_spec a b); subst end;
    try done; auto; intros.
  - match goal with H : _ ≠ _ |- _ => destruct H; by apply str_leb_antisymm end.
  - by eapply str_leb_trans.
Qed.
Lemma lex_antisymm x y r1 r2 : lex_leb x y r1 = true → lex_leb y x r2 = true → x = y ∧ r1 = true ∧ r2 = true.
Proof.
  unfold lex_leb. rewrite (String.eqb_sym y x). destruct (String.eqb_spec x y) as [->|Hne]; [done|].
  intros H1 H2. destruct Hne. by apply str_leb_antisymm.
Qed.

Lemma record_leb_lex a b : record_leb a b =
  lex_leb (record_text "work_id" a) (record_text "work_id" b)
    (lex_leb (record_text "attempt_id" a) (record_text "attempt_id" b)
      (lex_leb (record_text "record_type" a) (record_text "record_type" b)
        (seq_leb (sequence_key a) (sequence_key b)))).
Proof. done. Qed.

#[export] Instance record_leb_total : Total (λ x y, Is_true (record_leb x y)).
Proof.
  intros a b. rewrite !Is_true_true, !record_leb_lex. do 3 apply lex_total. apply seq_leb_total.
Qed.

Lemma record_leb_trans a b c : record_leb a b = true → record_leb b c = true → record_leb a c = true.
Proof. rewrite !record_leb_lex. do 3 apply lex_trans. apply seq_leb_trans. Qed.

Lemma record_leb_antisymm a b : record_leb a b = true → record_leb b a = true → record_key a = record_key b.
Proof.
  rewrite !record_leb_lex. unfold record_key.
  intros H1 H2. destruct (lex_antisymm _ _ _ _ H1 H2) as (->&H3&H4).
  destruct (lex_antisymm _ _ _ _ H3 H4) as (->&H5&H6).
  destruct (lex_antisymm _ _ _ _ H5 H6) as (->&H7&H8). by rewrite (seq_leb_antisymm _ _ H7 H8).
Qed.

Lemma record_leb_key a b a' b' :
  record_key a = record_key a' → record_key b = record_key b' → record_leb a b = record_leb a' b'.
Proof. unfold record_key. intros [= E1 E2 E3 E4] [= F1 F2 F3 F4]. rewrite !record_leb_lex. congruence. Qed.

Lemma order_records_sorted l : StronglySorted (λ x y, Is_true (record_leb x y)) (order_records l).
Proof.
  apply (Sorted_StronglySorted_on (λ _, True)).
  - intros x y z _ _ _. rewrite !Is_true_true. apply record_leb_trans.
  - by apply Forall_forall.
  - unfold order_records, order_by. apply Sorted_merge_sort, _.
Qed.

Lemma order_records_Permutation l : order_records l ≡ₚ l.
Proof. apply order_by_Permutation. Qed.

Lemma sorted_same_keys l k :
  record_key <$> l = record_key <$> k → StronglySorted (λ x y, Is_true (record_leb x y)) k →
  StronglySorted (λ x y, Is_true (record_leb x y)) l.
Proof.
  revert l. induction k as [|y k IH]; intros [|x l] E H; try discriminate E; [constructor|].
  csimpl in E. pose proof (f_equal head E) as Ex. pose proof (f_equal tail E) as El.
  simpl in Ex, El. apply (inj Some) in Ex.
  apply StronglySorted_cons in H as [Hy H]. apply StronglySorted_cons. split; [|by apply IH].
  rewrite Forall_lookup in Hy |- *. intros i z Hz.
  assert ((record_key <$> k) !! i = Some (record_key z)) as Hi by by rewrite <-El, list_lookup_fmap, Hz.
  rewrite list_lookup_fmap in Hi. apply fmap_Some in Hi as (z'&Hz'&Ez).
  specialize (Hy i z' Hz'). by rewrite (record_leb_key x z y z').
Qed.

(** Ordered records with distinct keys stay in their order after a round trip. *)
Lemma order_stored l :
  Forall keyed l → NoDup (record_key <$> l) →
  order_records (stored_dict <$> order_records l) = stored_dict <$> order_records l.
Proof.
  intros Hk Hn. assert (Forall keyed (order_records l)) as Hk' by by rewrite order_records_Permutation.
  assert (Ekey : record_key <$> (stored_dict <$> order_records l) = record_key <$> order_records l).
  { rewrite <-list_fmap_compose. apply list_fmap_ext. intros i r Hr.
    apply stored_key. by eapply (proj1 (Forall_lookup _ _) Hk'). }
  apply order_by_sorted.
  - apply _.
  - apply record_leb_trans.
  - intros x y Hx Hy H1 H2. eapply (NoDup_fmap_eq record_key); [|done|done|by apply record_leb_antisymm].
    rewrite Ekey. by rewrite order_records_Permutation.
  - eapply sorted_same_keys; [exact Ekey|]. apply order_records_sorted.
Qed.

Lemma map_result_id {A} (f : A → result A) l : (∀ x, f x = Ok x) → map_result f l = Ok l.
Proof. intros H. apply map_result_Ok, Forall_Forall2_diag, Forall_forall. auto. Qed.

Lemma dicts_of_values l : map_result py_dict (VDict <$> l) = Ok l.
Proof. apply map_result_Ok, Forall2_fmap_l, Forall_Forall2_diag, Forall_forall. done. Qed.

(** [_ordered_records] of what a file with ordered records holds. *)
Lemma ordered_stored l :
  Forall keyed l → NoDup (record_key <$> l) →
  _ordered_records (VDict <$> (stored_dict <$> order_records l)) = Ok (stored_dict <$> order_records l).
Proof.
  intros Hk Hn. unfold _ordered_records. rewrite dicts_of_values. cbn. f_equal. by apply order_stored.
Qed.

(** The text of ordered records, read, decoded and ordered again. *)
Lemma records_read_back l content :
  json_safe (records_value (order_records l)) = true → Forall keyed l → NoDup (record_key <$> l) →
  _canonical (records_value (order_records l)) = Ok content →
  json_loads_text content = Ok (VList (VDict <$> (stored_dict <$> order_records l))) ∧
  _ordered_records (VDict <$> (stored_dict <$> order_records l)) = Ok (stored_dict <$> order_records l).
Proof.
  intros Hs Hk Hn Hc. split; [|by apply ordered_stored].
  rewrite (canonical_reads _ _ Hs Hc), stored_value. done.
Qed.

(** ** A staging file is written once and read back *)

(** What staging leaves: the ordered records under the path of the attempt. *)
Lemma stage_Ok process root p records t a d receipt d' :
  stage_partition_records process root p records t a d = (Ok receipt, d') →
  ∃ content, _canonical (records_value (order_records records)) = Ok content ∧
    _partition_receipt p t a (order_records records) content = Ok receipt ∧
    d_texts d' !! _partition_staging_path root p t a = Some content.
Proof.
  unfold stage_partition_records. intros H. cbv zeta in H. tx_step H. subst.
  rename select (_canonical _ = Ok _) into Hc. eexists. split; [exact Hc|].
  match type of H with (match ?x with _ => _ end) _ = _ => destruct x as [existing|] eqn:E end.
  - tx_inv H. btrue. subst. done.
  - tx_inv H. split; [done|]. unfold rename, put_text. simpl.
    rewrite lookup_insert_eq. simpl. by rewrite lookup_insert_eq.
Qed.

(** Any later staging call, of this attempt or of another one. *)
Definition staging_step (root : Path) (d d' : Disk) : Prop :=
  ∃ process p records t a r, stage_partition_records process root p records t a d = (r, d').

Lemma stage_keeps_text root d d' p t a content :
  staging_step root d d' → d_texts d !! _partition_staging_path root p t a = Some content →
  d_texts d' !! _partition_staging_path root p t a = Some content.
Proof.
  intros (process&p'&records&t'&a'&r&H) E. unfold stage_partition_records in H. cbv zeta in H.
  unfold mbind, tx_bind, tx_lift, mret, tx_ret in H.
  destruct (_canonical _) as [text|]; [|by simplify_eq].
  destruct (_partition_receipt _ _ _ _ _) as [receipt|]; [|by simplify_eq]. simpl in H.
  destruct (d_texts d !! _partition_staging_path root p' t' a') as [existing|] eqn:Ed.
  - unfold tx_require, tx_lift, require in H. case_bool_decide; simplify_eq; exact E.
  - unfold tx_require, tx_lift, require in H. case_match; [|simplify_eq; exact E].
    simplify_eq. simpl. unfold rename, put_text. simpl. rewrite lookup_insert_eq. simpl.
    assert (∀ dir, (dir ++ ["records.jsonl.tmp-" +:+ process]%string)
      ≠ _partition_staging_path root p t a) as Htmp.
    { intros dir E'. unfold _partition_staging_path in E'. apply app_inj_tail in E' as [_ E'].
      discriminate E'. }
    rewrite lookup_insert_ne, lookup_delete_ne, lookup_insert_ne; [done|apply Htmp..|congruence].
Qed.

Lemma read_staged_run root p t a receipt records content d :
  json_safe (records_value (order_records records)) = true →
  Forall keyed records → NoDup (record_key <$> records) →
  _canonical (records_value (order_records records)) = Ok content →
  _partition_receipt p t a (order_records records) content = Ok receipt →
  d_texts d !! _partition_staging_path root p t a = Some content →
  read_staged_partition_records root receipt d = Ok (stored_dict <$> order_records records).
Proof.
  intros Hs Hk Hn Hc Hr Hd. unfold _partition_receipt in Hr. apply result_bind_Ok in Hr as (ws&_&[= <-]).
  unfold read_staged_partition_records. simpl. rewrite Hd.
  rewrite Z.eqb_refl. simpl. rewrite andb_false_r. simpl. rewrite bool_decide_eq_true_2 by done. simpl.
  destruct (records_read_back _ _ Hs Hk Hn Hc) as [-> E]. simpl. rewrite E. simpl.
  by rewrite length_fmap, Z.eqb_refl.
Qed.

(** ** The selected receipts *)

Abbreviation partition := ps_physical_partition.

Lemma by_partition_get l p :
  dget p (by_partition l) =
    match List.filter (λ r, (partition r =? p)%Z) l with [] => None | rs => Some rs end.
Proof.
  unfold by_partition.
  assert (∀ d, (∀ q, dget q d ≠ Some []) → dget p (fold_left (λ d r, dset (partition r)
      (default [] (dget (partition r) d) ++ [r]) d) l d) =
    match default [] (dget p d) ++ List.filter (λ r, (partition r =? p)%Z) l with
    | [] => None | rs => Some rs end) as Hgen; [|by rewrite Hgen].
  induction l as [|r l IH]; intros d Hd; simpl.
  - rewrite app_nil_r. destruct (dget p d) as [[|x xs]|] eqn:E; [by destruct (Hd p)|done..].
  - rewrite IH.
    + rewrite dget_dset. case_decide as E.
      * subst p. simpl. rewrite Z.eqb_refl. by rewrite <-app_assoc.
      * by rewrite (proj2 (Z.eqb_neq _ _)) by congruence.
    + intros q. rewrite dget_dset. case_decide; [|apply Hd]. by destruct (default _ _).
Qed.

Lemma by_partition_keys l : NoDup (by_partition l).*1.
Proof.
  unfold by_partition. assert (∀ d : list (Z * list PartitionStagingReceipt), NoDup d.*1 →
    NoDup (fold_left (λ d r, dset (partition r) (default [] (dget (partition r) d) ++ [r]) d) l d).*1) as H;
    [|apply H; constructor].
  induction l as [|r l IH]; intros d Hd; simpl; [done|]. by apply IH, dset_NoDup.
Qed.

Lemma elem_of_partitions l p : p ∈ (by_partition l).*1 ↔ p ∈ partition <$> l.
Proof.
  rewrite <-dget_is_Some, by_partition_get, list_elem_of_fmap. split.
  - destruct (List.filter _ l) as [|r rs] eqn:E; [by intros []|]. intros _.
    assert (r ∈ List.filter (λ r, (partition r =? p)%Z) l) as Hr by (rewrite E; left).
    apply elem_of_sfilter in Hr as [Hr Hp]. apply Z.eqb_eq in Hp. eauto.
  - intros (r&->&Hr). destruct (List.filter _ l) as [|x xs] eqn:E; [|eauto].
    assert (r ∈ List.filter (λ x, (partition x =? partition r)%Z) l) as Hin.
    { apply elem_of_sfilter. split; [done|apply Z.eqb_refl]. }
    rewrite E in Hin. by apply elem_of_nil in Hin.
Qed.

Lemma later_irrefl x : later x x = false.
Proof. unfold later. rewrite Z.eqb_refl. apply Z.ltb_irrefl. Qed.

Lemma later_trans_not x y z : later x y = false → later y z = false → later x z = false.
Proof.
  unfold later. repeat match goal with |- context [(?a =? ?b)%Z] => destruct (Z.eqb_spec a b) end;
    rewrite ?Z.ltb_ge; lia.
Qed.

Lemma later_asymm x y : later x y = true → later y x = false.
Proof.
  unfold later. rewrite (Z.eqb_sym (ps_attempt_number y)). destruct (Z.eqb_spec (ps_attempt_number x) (ps_attempt_number y));
    rewrite Z.ltb_lt, Z.ltb_ge; lia.
Qed.

Lemma later_antisymm x y :
  later x y = false → later y x = false →
  ps_attempt_number x = ps_attempt_number y ∧ ps_task_attempt_id x = ps_task_attempt_id y.
Proof.
  unfold later. rewrite (Z.eqb_sym (ps_attempt_number y)). destruct (Z.eqb_spec (ps_attempt_number x) (ps_attempt_number y));
    rewrite !Z.ltb_ge; lia.
Qed.

Lemma winner_spec first rest :
  winner first rest ∈ first :: rest ∧ ∀ r, r ∈ first :: rest → later (winner first rest) r = false.
Proof.
  unfold winner. revert first. induction rest as [|x rest IH]; intros first; simpl.
  - split; [left|]. intros r ->%list_elem_of_singleton. apply later_irrefl.
  - destruct (IH (if later first x then x else first)) as [Hin Hmax]. split.
    + apply elem_of_cons in Hin as [->|Hin]; [case_match; [right; left|left]|by do 2 right].
    + assert (later (if later first x then x else first) first = false ∧
        later (if later first x then x else first) x = false) as [Hf Hx].
      { destruct (later first x) eqn:E; [|by rewrite later_irrefl].
        split; [by apply later_asymm|apply later_irrefl]. }
      pose proof (Hmax _ (list_elem_of_here _ _)) as Hb.
      intros r [->|[->|Hr]%elem_of_cons]%elem_of_cons; [by eapply later_trans_not..|].
      apply Hmax. by right.
Qed.

(** The receipts of a partition all describe the same output. *)
Definition agreeing (l : list PartitionStagingReceipt) : Prop :=
  ∀ x y, x ∈ l → y ∈ l → partition x = partition y → content_identity x = content_identity y.

Lemma one_identity (l : list PartitionStagingReceipt) :
  l ≠ [] → length (remove_dups (content_identity <$> l)) = 1%nat ↔
  ∀ x y, x ∈ l → y ∈ l → content_identity x = content_identity y.
Proof.
  intros Hl. split.
  - intros H x y Hx Hy. destruct (remove_dups (content_identity <$> l)) as [|c [|]] eqn:E; try done.
    assert (∀ z, z ∈ l → content_identity z = c) as Hc; [|by rewrite !Hc].
    intros z Hz. assert (content_identity z ∈ remove_dups (content_identity <$> l)) as Hin.
    { apply elem_of_remove_dups. by apply list_elem_of_fmap_2. }
    rewrite E in Hin. by apply list_elem_of_singleton in Hin.
  - intros H. destruct l as [|x l]; [done|].
    assert (∀ c, c ∈ content_identity <$> x :: l → c = content_identity x) as Hc.
    { intros c (y&->&Hy)%list_elem_of_fmap. apply H; [done|left]. }
    assert (remove_dups (content_identity <$> x :: l) ≡ₚ [content_identity x]) as Hp.
    { apply NoDup_Permutation; [apply NoDup_remove_dups|apply NoDup_singleton|]. intros c.
      rewrite elem_of_remove_dups, list_elem_of_singleton. split; [apply Hc|intros ->; left]. }
    by rewrite Hp.
Qed.

(** The winner of partition [p] among [l]. *)
Definition wins (l : list PartitionStagingReceipt) (p : Z) (r : PartitionStagingReceipt) : Prop :=
  r ∈ l ∧ partition r = p ∧ ∀ x, x ∈ l → partition x = p →
    content_identity x = content_identity r ∧ later r x = false.

Lemma select_candidates l p :
  p ∈ partition <$> l →
  ((∀ x y, x ∈ l → y ∈ l → partition x = p → partition y = p → content_identity x = content_identity y) ∧
     ∃ r, (candidates ← dindex p (by_partition l); select_partition candidates) = Ok r ∧ wins l p r) ∨
  ((∃ x y, x ∈ l ∧ y ∈ l ∧ partition x = p ∧ partition y = p ∧ content_identity x ≠ content_identity y) ∧
     (candidates ← dindex p (by_partition l); select_partition candidates) = Err StagingConflictError).
Proof.
  intros Hp. unfold dindex. rewrite by_partition_get. set (c := List.filter _ l).
  assert (Hc : ∀ x, x ∈ c ↔ x ∈ l ∧ partition x = p) by (intros x; unfold c; by rewrite elem_of_sfilter, Z.eqb_eq).
  apply list_elem_of_fmap in Hp as (r0&->&Hr0).
  clearbody c. assert (r0 ∈ c) as Hr by by apply Hc.
  destruct c as [|first rest]; [by apply elem_of_nil in Hr|].
  cbn [mbind result_bind select_partition].
  pose proof (one_identity (first :: rest) ltac:(done)) as Hone.
  case_bool_decide as Hd; cbn [require mbind result_bind].
  - left. pose proof (proj1 Hone Hd) as Hall. split.
    + intros x y Hx Hy Ex Ey. apply Hall; by apply Hc.
    + exists (winner first rest). split; [done|]. destruct (winner_spec first rest) as [Hin Hmax].
      split; [by apply Hc|]. split; [by apply Hc|]. intros x Hx Ex.
      assert (x ∈ first :: rest) as Hxc by by apply Hc. split; [by apply Hall|by apply Hmax].
  - right. split; [|done].
    assert (¬ Forall (λ x, content_identity x = content_identity first) (first :: rest)) as Hnot.
    { intros Hall. apply Hd, Hone. intros x y Hx Hy.
      rewrite Forall_forall in Hall. by rewrite (Hall x), (Hall y). }
    apply not_Forall_Exists in Hnot; [|apply _]. apply Exists_exists in Hnot as (x&Hx&Hne').
    assert (first ∈ first :: rest) as Hf by left. apply Hc in Hx as [Hx Ex]. apply Hc in Hf as [Hf Ef].
    exists x, first. split_and!; done.
Qed.

Lemma map_result_Err_split {A B} (f : A → result B) l e :
  map_result f l = Err e → ∃ x, x ∈ l ∧ f x = Err e.
Proof.
  induction l as [|x l IH]; simpl; [done|]. destruct (f x) as [y|e'] eqn:E; simpl.
  - destruct (map_result f l); simpl; [done|]. intros [= <-]. destruct IH as (z&?&?); [done|].
    exists z. split; [by right|done].
  - intros [= <-]. exists x. split; [left|done].
Qed.

(** A receipt is determined by its partition, attempt and content. *)
Lemma wins_unique l k p x y : (∀ r, r ∈ l ↔ r ∈ k) → wins l p x → wins k p y → x = y.
Proof.
  intros Hlk (Hx&Ex&Wx) (Hy&Ey&Wy). destruct (Wx y) as [Ec L1]; [by apply Hlk|done|].
  destruct (Wy x) as [_ L2]; [by apply Hlk|done|]. destruct (later_antisymm _ _ L1 L2).
  destruct x, y. unfold content_identity in Ec. simpl in *. simplify_eq. done.
Qed.

Lemma select_Ok receipts sel :
  select_one_receipt_per_partition receipts = Ok sel →
  agreeing receipts ∧ Forall2 (wins receipts) (order_by Z.leb (by_partition receipts).*1) sel.
Proof.
  unfold select_one_receipt_per_partition. cbv zeta. intros H. apply map_result_Ok in H.
  assert (Forall2 (wins receipts) (order_by Z.leb (by_partition receipts).*1) sel) as Hw.
  { eapply Forall2_impl_in; [exact H|]. intros p r Hp Hr. simpl in Hr.
    rewrite elem_of_order_by, elem_of_partitions in Hp.
    destruct (select_candidates receipts p Hp) as [(_&r'&Er&W)|(_&Er)]; congruence. }
  split; [|done]. intros x y Hx Hy E.
  assert (partition x ∈ order_by Z.leb (by_partition receipts).*1) as Hp.
  { rewrite elem_of_order_by, elem_of_partitions. by apply list_elem_of_fmap_2. }
  apply list_elem_of_lookup in Hp as [i Hi].
  destruct (Forall2_lookup_l _ _ _ _ _ Hw Hi) as (r&_&_&_&W).
  by rewrite (proj1 (W x Hx eq_refl)), (proj1 (W y Hy (eq_sym E))).
Qed.

Lemma select_total receipts :
  (∃ sel, select_one_receipt_per_partition receipts = Ok sel) ∨
  (¬ agreeing receipts ∧ select_one_receipt_per_partition receipts = Err StagingConflictError).
Proof.
  destruct (select_one_receipt_per_partition receipts) as [sel|e] eqn:E; [eauto|right].
  unfold select_one_receipt_per_partition in E. cbv zeta in E.
  apply map_result_Err_split in E as (p&Hp&Ep). rewrite elem_of_order_by, elem_of_partitions in Hp.
  destruct (select_candidates receipts p Hp) as [(_&r'&Er&_)|((x&y&Hx&Hy&Ex&Ey&Hne)&Er)]; [congruence|].
  split; [|congruence]. intros Ha. apply Hne. apply (Ha x y); [done..|congruence].
Qed.

Lemma partitions_sorted receipts : StronglySorted Z.lt (order_by Z.leb (by_partition receipts).*1).
Proof.
  assert (NoDup (order_by Z.leb (by_partition receipts).*1)) as Hn.
  { rewrite order_by_Permutation. apply by_partition_keys. }
  assert (StronglySorted (λ x y, Is_true (x <=? y)%Z) (order_by Z.leb (by_partition receipts).*1)) as Hs.
  { apply (Sorted_StronglySorted_on (λ _, True)); [|by apply Forall_forall|].
    - intros x y z _ _ _. rewrite !Is_true_true, !Z.leb_le. lia.
    - apply Sorted_merge_sort. intros x y. rewrite !Is_true_true, !Z.leb_le. lia. }
  induction Hs as [|p l Hl IH Hp]; [constructor|]. apply NoDup_cons in Hn as [Hnp Hn].
  constructor; [by apply IH|]. rewrite Forall_forall in Hp |- *. intros q Hq. specialize (Hp q Hq).
  rewrite Is_true_true, Z.leb_le in Hp. assert (p ≠ q) by (intros ->; done). lia.
Qed.

(** ** The claims *)

(** C40. A partition's records are staged once and come back.  After a task attempt
    has staged its records, every later staging call, of the same attempt or of
    another one, leaves its file alone, and the driver reads exactly the ordered
    records through the receipt.  The same attempt staging again gets the same
    receipt when its records are the same, and a conflict when they are not. *)
Theorem staged_records_read_back process root p records t a d receipt d' :
  stage_partition_records process root p records t a d = (Ok receipt, d') →
  json_safe (records_value (order_records records)) = true →
  Forall keyed records → NoDup (record_key <$> records) →
  ∀ d2, rtc (staging_step root) d' d2 →
    read_staged_partition_records root receipt d2 = Ok (stored_dict <$> order_records records) ∧
    (∀ process', (stage_partition_records process' root p records t a d2).1 = Ok receipt) ∧
    ∀ process' records' e,
      _canonical (records_value (order_records records')) ≠ _canonical (records_value (order_records records)) →
      (stage_partition_records process' root p records' t a d2).1 ≠ Ok e.
Proof.
  intros H Hs Hk Hn d2 Hd2. apply stage_Ok in H as (content&Hc&Hr&Ht).
  assert (d_texts d2 !! _partition_staging_path root p t a = Some content) as Ht2.
  { clear Hr Hc. induction Hd2 as [|d1 d2 d3 Hstep _ IH]; [done|]. apply IH. by eapply stage_keeps_text. }
  split; [by eapply read_staged_run|]. split.
  - intros process'. unfold stage_partition_records. cbv zeta. unfold mbind, tx_bind, tx_lift, tx_modify, tx_get, mret, tx_ret.
    rewrite Hc, Hr. simpl. rewrite Ht2. unfold tx_require, tx_lift, require. by rewrite bool_decide_eq_true_2.
  - intros process' records' e Hne H. apply Hne.
    destruct (stage_partition_records process' root p records' t a d2) as [r d3] eqn:E. simpl in H. subst r.
    assert (staging_step root d2 d3) as Hstep by by repeat eexists.
    apply stage_Ok in E as (content'&Hc'&_&Ht').
    rewrite (stage_keeps_text _ _ _ _ _ _ _ Hstep Ht2) in Ht'. congruence.
Qed.

(** Two records of a work, staged in the wrong order; a later attempt of the task
    stages the same. *)
Definition sample_record (work : string) (n : Z) : Dict :=
  [("record_type", VStr "telemetry"); ("work_id", VStr work); ("attempt_id", VStr "a1");
   ("record_sequence", VInt n)]%string.
Definition sample_records : list Dict := [sample_record "w1" 1; sample_record "w1" 0].
Definition sample_stage (process : string) (attempt : Z) (d : Disk) : result PartitionStagingReceipt * Disk :=
  stage_partition_records process ["staging"%string] 3 sample_records 7 attempt d.
Definition no_receipt : PartitionStagingReceipt := {|
  ps_physical_partition := 0; ps_task_attempt_id := 0; ps_attempt_number := 0; ps_record_count := 0;
  ps_work_ids := []; ps_content_sha256 := ""; ps_content_size_bytes := 0 |}.
Definition sample_receipt : PartitionStagingReceipt := Eval vm_compute in
  match (sample_stage "p1" 0 no_files).1 with Ok r => r | Err _ => no_receipt end.
Definition sample_disk : Disk := Eval vm_compute in (sample_stage "p1" 0 no_files).2.
Definition sample_later : Disk := Eval vm_compute in (sample_stage "p2" 1 sample_disk).2.

#[export] Instance seq_key_eq_dec : EqDecision seq_key.
Proof. solve_decision. Defined.

Lemma sample_keyed : Forall keyed sample_records.
Proof.
  repeat constructor; try (apply (bool_decide_unpack _); vm_compute; exact I);
    first [by eexists _, _, _|by eexists].
Qed.

Lemma staged_records_read_back_witness :
  read_staged_partition_records ["staging"%string] sample_receipt sample_later =
    Ok (stored_dict <$> [sample_record "w1" 0; sample_record "w1" 1]).
Proof.
  apply (staged_records_read_back "p1" ["staging"%string] 3 sample_records 7 0 no_files sample_receipt sample_disk).
  - vm_cast_no_check (eq_refl (Ok sample_receipt, sample_disk)).
  - vm_compute. reflexivity.
  - exact sample_keyed.
  - apply (bool_decide_unpack _). vm_compute. exact I.
  - apply rtc_once. exists "p2"%string, 3%Z, sample_records, 7%Z, 1%Z, (sample_stage "p2" 1 sample_disk).1.
    vm_cast_no_check (eq_refl ((sample_stage "p2" 1 sample_disk).1, sample_later)).
Defined.

(** The driver reads one receipt per partition, in the order of the partitions.
    The receipts are accepted exactly when all successful attempts of a partition
    describe the same output; the winner is the latest attempt; and the order in
    which Spark delivers the receipts does not matter. *)
Theorem selection_keeps_the_latest receipts :
  ((∃ sel, select_one_receipt_per_partition receipts = Ok sel) ↔ agreeing receipts) ∧
  (¬ agreeing receipts → select_one_receipt_per_partition receipts = Err StagingConflictError) ∧
  (∀ sel, select_one_receipt_per_partition receipts = Ok sel →
     StronglySorted Z.lt (partition <$> sel) ∧
     (∀ p, p ∈ partition <$> sel ↔ p ∈ partition <$> receipts) ∧
     ∀ r, r ∈ sel → wins receipts (partition r) r) ∧
  ∀ receipts', receipts ≡ₚ receipts' →
    select_one_receipt_per_partition receipts' = select_one_receipt_per_partition receipts.
Proof.
  assert (Hpart : ∀ l sel, Forall2 (wins l) (order_by Z.leb (by_partition l).*1) sel →
    partition <$> sel = order_by Z.leb (by_partition l).*1).
  { intros l sel H. induction H as [|p r ps sel Hr _ IH]; csimpl; [done|]. rewrite IH.
    by destruct Hr as (_&->&_). }
  split; [|split; [|split]].
  - split; [intros [sel H]; by apply select_Ok in H as [? _]|]. intros Ha.
    destruct (select_total receipts) as [?|[Hna _]]; [done|by destruct Hna].
  - intros Ha. destruct (select_total receipts) as [[sel H]|[_ ?]]; [|done].
    by apply select_Ok in H as [? _].
  - intros sel H. apply select_Ok in H as [_ H]. rewrite (Hpart _ _ H). split; [apply partitions_sorted|].
    split; [intros p; by rewrite elem_of_order_by, elem_of_partitions|].
    intros r Hr. apply list_elem_of_lookup in Hr as [i Hi].
    destruct (Forall2_lookup_r _ _ _ _ _ H Hi) as (p&_&W). pose proof W as (_&E&_). by rewrite E.
  - intros receipts' Hp.
    assert (Hel : ∀ r, r ∈ receipts' ↔ r ∈ receipts) by (intros r; by rewrite Hp).
    destruct (select_total receipts) as [[sel H]|[Hna ->]].
    + destruct (select_total receipts') as [[sel' H']|[Hna _]].
      * rewrite H, H'. f_equal. apply select_Ok in H as [_ W], H' as [_ W'].
        assert (order_by Z.leb (by_partition receipts').*1 = order_by Z.leb (by_partition receipts).*1) as E.
        { apply (StronglySorted_unique_strong Z.lt); [intros; lia|apply partitions_sorted..|].
          rewrite !order_by_Permutation. apply NoDup_Permutation; [apply by_partition_keys..|].
          intros p. by rewrite !elem_of_partitions, Hp. }
        rewrite E in W'. clear -W W' Hel. revert sel' W'.
        induction W as [|p x ps sel Hx _ IH]; intros sel' W'; inversion W' as [|? y ? sel2 Hy W2]; subst; [done|].
        f_equal; [|by apply IH]. by eapply wins_unique.
      * destruct Hna. apply select_Ok in H as [Ha _]. intros x y Hx Hy. apply Ha; by apply Hel.
    + destruct (select_total receipts') as [[sel' H']|[_ ->]]; [|done].
      destruct Hna. apply select_Ok in H' as [Ha _]. intros x y Hx Hy. apply Ha; by apply Hel.
Qed.
