(* ===== verification/ProcessValidate.v ===== *)
(** * sjd_process.py: validation of staged records

    Before a batch is sealed, every staged record is checked against the verified
    envelope and the plan: its columns, its identity, its provenance and its
    digests, and each item must have exactly one terminal record.  The success
    marker fixes the records of an attempt. *)
From S2P Require Export Prelude PyDict PyVal Json Sha256 ControlTypes ControlProcess ProcessEnvelope ProcessPlan ProcessRecords.

Module Validate.
Import Process Plan Records.

Definition TERMINAL_TYPES : list string := ["video_result"; "error"]%string.
Definition RECORD_TYPES : list string := ["video_result"; "error"; "telemetry"; "line_count"]%string.

(** ** One record *)

Definition _required_staged_value (r : Dict) (name : string) : result pyval :=
  match dict_lookup name r with Some v => Ok v | None => Err ProcessValidationError end.

Definition _validate_nullable_staged_value {A} (r : Dict) (name : string)
    (validator : pyval → result A) : result unit :=
  v ← _required_staged_value r name;
  match v with VNone => Ok tt | _ => validator v;; Ok tt end.

Definition text_fields : list string :=
  ["record_type"; "work_id"; "attempt_id"; "source_video"; "status"; "payload_json";
   "emitted_at_utc"; "batch_id"; "process_attempt_id"; "config_sha256"; "release_digest";
   "package_version"; "runtime_key"; "executor_identity"; "executor_host"]%string.
Definition sha_fields : list string :=
  ["envelope_sha256"; "manifest_sha256"; "membership_sha256"; "input_payload_sha256";
   "record_payload_sha256"; "model_identity"]%string.
Definition positive_int_fields : list string :=
  ["fence"; "planned_concurrency"; "detector_batch_size"; "cpu_threads"]%string.
Definition nonnegative_int_fields : list string :=
  ["bucket_id"; "wave_index"; "physical_partition"; "physical_partition_id"; "stage_id";
   "partition_id"; "task_attempt_id"; "task_attempt_number"; "record_sequence";
   "runtime_loads"; "runtime_cache_hits"]%string.

(** [validator(_required_staged_value(record, name), name)]. *)
Definition check_field {A} (validator : pyval → result A) (r : Dict) (name : string) : result unit :=
  v ← _required_staged_value r name; validator v;; Ok tt.

(** [record["detector_batch_size"] not in DETECTOR_BATCH_SIZES]. *)
Definition in_batch_sizes (v : pyval) : bool :=
  py_eqb v (VInt 1) || py_eqb v (VInt 2) || py_eqb v (VInt 4).

Definition _validate_staged_record_semantics (r : Dict) (record_type : string) : result unit :=
  require (bool_decide (record_type ∈ RECORD_TYPES)) ProcessValidationError;;
  let is_error := bool_decide (record_type = "error"%string) in
  status ← record_item "status" r;
  require (py_eqb status (VStr (if is_error then "FAILED" else "SUCCEEDED"))) ProcessValidationError;;
  (if is_error then
     t ← record_item "error_type" r; _text t;;
     m ← record_item "error_message" r; _text m;;
     b ← record_item "retryable" r; _boolean b;; Ok tt
   else Ok tt);;
  (if bool_decide (record_type = "video_result"%string) then
     f ← record_item "processed_frames" r; _nonnegative_int f;;
     s ← record_item "processing_seconds" r; _nonnegative_float s;; Ok tt
   else Ok tt);;
  size ← record_item "detector_batch_size" r;
  require (in_batch_sizes size) ProcessValidationError.

(** [text.split("@")]: the rest of the first part, and the other parts. *)
Fixpoint split_codes (sep : Z) (l : list Z) : list (list Z) :=
  match l with
  | [] => [[]]
  | z :: l' =>
      if (z =? sep)%Z then [] :: split_codes sep l'
      else match split_codes sep l' with p :: ps => (z :: p) :: ps | [] => [[z]] end
  end.

Definition _validate_executor_provenance (r : Dict) : result unit :=
  identity ← record_item "executor_identity" r;
  host ← record_item "executor_host" r;
  match split_codes 64 (codes_of_str (py_str identity)) with
  | [name; tail] =>
      require (negb (bool_decide (name = [])) && py_eqb (VStr (str_of_codes tail)) host)
        ProcessValidationError
  | _ => Err ProcessValidationError
  end.

Definition _staged_payload (r : Dict) : result Dict :=
  text ← record_item "payload_json" r;
  match json_loads_text (py_str text) with
  | Err _ => Err ProcessValidationError
  | Ok (VDict payload) => Ok payload
  | Ok _ => Err ProcessValidationError
  end.

Definition _validate_staged_record_schema (r : Dict) : result (string * Z * Dict) :=
  for_each (check_field _text r) text_fields;;
  for_each (check_field _sha_text r) sha_fields;;
  for_each (check_field _positive_int r) positive_int_fields;;
  for_each (check_field _nonnegative_int r) nonnegative_int_fields;;
  for_each (check_field _positive_float r) ["duration_seconds"; "planned_cost_seconds"]%string;;
  check_field _boolean r "duration_only_fallback";;
  _validate_nullable_staged_value r "peak_rss_bytes" _positive_int;;
  _validate_nullable_staged_value r "error_type" _text;;
  _validate_nullable_staged_value r "error_message" _text;;
  _validate_nullable_staged_value r "retryable" _boolean;;
  _validate_nullable_staged_value r "processed_frames" _nonnegative_int;;
  _validate_nullable_staged_value r "processing_seconds" _nonnegative_float;;
  raw_type ← record_item "record_type" r;
  record_type ← _text raw_type;
  _validate_staged_record_semantics r record_type;;
  _validate_executor_provenance r;;
  payload ← _staged_payload r;
  raw_sequence ← record_item "record_sequence" r;
  sequence ← _nonnegative_int raw_sequence;
  Ok (record_type, sequence, payload).

(** ** All records *)

(** The model that a payload asks for. *)
Definition _model_identity (payload : Dict) : result string :=
  _sha256 (VDict ((λ k, (k, dict_get k payload)) <$>
    ["pipeline"; "detector_model"; "model_format"; "models_dir"; "device_variant"]%string)).

(** [{k: v for ...}]: a later pair replaces an earlier one. *)
Definition map_of {K A} `{Countable K} (l : list (K * A)) : gmap K A :=
  fold_left (λ m kv, <[kv.1 := kv.2]> m) l ∅.

Definition item_identity (i : EnvelopeItem) : string * string := (i_work_id i, i_attempt_id i).

Definition opt_int (o : option Z) : pyval := match o with Some z => VInt z | None => VNone end.

(** What the loop of [validate_staged_records] accumulates. *)
Record Checked := {
  ck_groups : gmap (string * string) (list Dict);
  ck_logical : gset (string * string * Z);
  ck_terminal : gmap (string * string) Z;
}.

Section validate.
(** The version of the installed distribution, or why it has none. *)
Context (_package_version : result string).

Definition staged_checks (envelope : VerifiedEnvelope) (plan : ExecutionPlan) (item : EnvelopeItem)
    (planned : PlannedItem) : result (list (string * pyval)) :=
  attempt ← execution_attempt_id envelope;
  model ← _model_identity (i_payload item);
  version ← _package_version;
  let c := xp_concurrency plan in
  Ok [("batch_id", VStr (v_batch_id envelope));
      ("process_attempt_id", VStr attempt);
      ("envelope_sha256", VStr (v_envelope_sha256 envelope));
      ("manifest_sha256", VStr (v_envelope_sha256 envelope));
      ("membership_sha256", VStr (v_membership_sha256 envelope));
      ("fence", VInt (i_fence item));
      ("input_payload_sha256", VStr (i_payload_sha256 item));
      ("config_sha256", VStr (i_config_sha256 item));
      ("model_identity", VStr model);
      ("release_digest", VStr (i_release_digest item));
      ("package_version", VStr version);
      ("runtime_key", VStr (i_runtime_key item));
      ("source_video", dict_get "source_video" (i_payload item));
      ("duration_seconds", VFloat (i_duration_seconds item));
      ("planned_cost_seconds", VFloat (pi_planned_cost_seconds planned));
      ("detector_batch_size", default (VInt 1) (dict_lookup "batch_size" (i_payload item)));
      ("bucket_id", VInt (pi_bucket_id planned));
      ("wave_index", VInt (pi_wave_index planned));
      ("physical_partition", VInt (pi_physical_partition planned));
      ("physical_partition_id", VInt (pi_physical_partition planned));
      ("partition_id", VInt (pi_physical_partition planned));
      ("planned_concurrency", VInt (cd_concurrency c));
      ("peak_rss_bytes", opt_int (cd_peak_rss_bytes c));
      ("duration_only_fallback", VBool (cd_duration_only_fallback c))]%string.

(** One iteration of the loop. *)
Definition check_record (envelope : VerifiedEnvelope) (plan : ExecutionPlan)
    (expected : gmap (string * string) EnvelopeItem) (mapping : gmap (string * string) PlannedItem)
    (ck : Checked) (r : Dict) : result Checked :=
  '(record_type, sequence, payload) ← _validate_staged_record_schema r;
  work ← _text (dict_get "work_id" r);
  attempt ← _text (dict_get "attempt_id" r);
  let identity := (work, attempt) in
  match expected !! identity with
  | None => Err ProcessValidationError
  | Some item =>
  match mapping !! identity with
  | None => Err KeyError
  | Some planned =>
      require (bool_decide ((identity, sequence) ∉ ck_logical ck)) ProcessValidationError;;
      checks ← staged_checks envelope plan item planned;
      require (forallb (λ nv, py_eqb (dict_get nv.1 r) nv.2) checks) ProcessValidationError;;
      digest ← _sha256 (VDict payload);
      require (py_eqb (dict_get "record_payload_sha256" r) (VStr digest)) ProcessValidationError;;
      let terminal := bool_decide (record_type ∈ TERMINAL_TYPES) in
      require (negb terminal
        || Bool.eqb (bool_decide (record_type = "error"%string)) (py_eqb (dict_get "status" r) (VStr "FAILED")))
        ProcessValidationError;;
      Ok {| ck_groups := alter (λ l, l ++ [r]) identity (ck_groups ck);
            ck_logical := {[ (identity, sequence) ]} ∪ ck_logical ck;
            ck_terminal := if terminal then alter Z.succ identity (ck_terminal ck)
                           else ck_terminal ck |}
  end end.

Fixpoint check_records (envelope : VerifiedEnvelope) (plan : ExecutionPlan)
    (expected : gmap (string * string) EnvelopeItem) (mapping : gmap (string * string) PlannedItem)
    (ck : Checked) (l : list Dict) : result Checked :=
  match l with
  | [] => Ok ck
  | r :: l' =>
      ck' ← check_record envelope plan expected mapping ck r;
      check_records envelope plan expected mapping ck' l'
  end.

Definition expected_items (envelope : VerifiedEnvelope) : gmap (string * string) EnvelopeItem :=
  map_of ((λ i, (item_identity i, i)) <$> v_items envelope).
Definition planned_items (plan : ExecutionPlan) : gmap (string * string) PlannedItem :=
  map_of ((λ p, (item_identity (pi_item p), p)) <$> concat (bp_items <$> xp_buckets plan)).

(** [{item.work_id: by_identity[...] for item in envelope.items}]. *)
Definition grouped_by_work (groups : gmap (string * string) (list Dict))
    (items : list EnvelopeItem) : result (list (string * list Dict)) :=
  pairs ← map_result (λ i, match groups !! item_identity i with
                           | Some l => Ok (i_work_id i, l)
                           | None => Err KeyError
                           end) items;
  Ok (fold_left (λ d kv, dset kv.1 kv.2 d) pairs []).

Definition validate_staged_records (records : list Dict) (envelope : VerifiedEnvelope)
    (plan : ExecutionPlan) : result (list (string * list Dict)) :=
  let expected := expected_items envelope in
  ck ← check_records envelope plan expected (planned_items plan)
    {| ck_groups := (λ _, []) <$> expected; ck_logical := ∅; ck_terminal := (λ _, 0%Z) <$> expected |}
    records;
  require (forallb (λ kv, (kv.2 =? 1)%Z) (map_to_list (ck_terminal ck))) ProcessValidationError;;
  grouped_by_work (ck_groups ck) (v_items envelope).

(** ** The success marker *)

(** [sorted(str(record["work_id"]) for record in records if record is an error)]. *)
Definition failed_works (records : list Dict) : result (list string) :=
  errors ← filter_result (λ r, t ← record_item "record_type" r; Ok (py_eqb t (VStr "error"))) records;
  works ← map_result (λ r, py_str <$> record_item "work_id" r) errors;
  Ok (order_by str_leb works).

Definition _success_marker (envelope : VerifiedEnvelope) (records : list Dict) : result Dict :=
  failures ← failed_works records;
  attempt ← execution_attempt_id envelope;
  digest ← _sha256 (records_value records);
  Ok [("schema_version", VInt 1);
      ("batch_id", VStr (v_batch_id envelope));
      ("process_attempt_id", VStr attempt);
      ("envelope_sha256", VStr (v_envelope_sha256 envelope));
      ("membership_sha256", VStr (v_membership_sha256 envelope));
      ("record_count", VInt (Z.of_nat (length records)));
      ("records_sha256", VStr digest);
      ("failed_work_ids", VList (VStr <$> failures))]%string.

Definition _verify_marker (marker : Dict) (records : list Dict) (envelope : VerifiedEnvelope)
    : result unit :=
  expected ← _success_marker envelope records;
  require (py_eqb (VDict marker) (VDict expected)) StagingConflictError.

(** ** The plan of a committed batch *)

(** What a validated record says of the concurrency decision. *)
Definition decision_fields (r : Dict) : result (Z * option Z * bool) :=
  _validate_staged_record_schema r;;
  concurrency ← _positive_int (dict_get "planned_concurrency" r);
  peak ← match dict_get "peak_rss_bytes" r with
         | VNone => Ok None
         | v => Some <$> _positive_int v
         end;
  fallback ← _boolean (dict_get "duration_only_fallback" r);
  Ok (concurrency, peak, fallback).

(** [replace(LOCAL_TWO_WORKERS, ...)]. *)
Definition committed_profile (concurrency : Z) (peak : option Z) : result ExecutionProfile :=
  __post_init__ {| LOCAL_TWO_WORKERS with
    ep_name := "committed-staging"; ep_executor_instances := 1; ep_executor_cores := concurrency;
    ep_executor_memory_bytes := match peak with None => GIB | Some p => (p * concurrency)%Z end;
    ep_memory_reserve_bytes := 0 |} (Some concurrency).

Definition _committed_plan (records : list Dict) (envelope : VerifiedEnvelope) : result ExecutionPlan :=
  require (negb (bool_decide (records = []))) StagingConflictError;;
  decisions ← map_result decision_fields records;
  match remove_dups decisions with
  | [(concurrency, peak, fallback)] =>
      require (Bool.eqb fallback (bool_decide (peak = None))) StagingConflictError;;
      profile ← committed_profile concurrency peak;
      plan_duration_lpt (v_items envelope) profile peak None
  | _ => Err StagingConflictError
  end.
End validate.

End Validate.
