(* ===== verification/ProcessExecutor.v ===== *)
(** * The executor of a process batch

    fabric_executor_partition.py turns one video into records; sjd_process.py runs the
    rows of one bucket on an executor, adds the identity of the work to every
    record, and the direct harness runs all buckets.  The processing of one video is
    the pipelines' (PipelineRun); reading the files of a work and loading the models
    are parameters. *)
From S2P Require Export Prelude PyFloat PyDict PyVal Json VideoSampling Tracking FrameProcessing PipelineRun Sha256 ControlTypes PyNum CpuRuntime ProcessEnvelope ProcessPlan ProcessRecords ProcessValidate.

Module Executor.
Import Video Tracking Frames Pipeline Cpu Process Plan Records Validate.

(** ** Exceptions with their causes *)

(** [str(error)] and the name of its type. *)
Record Raise := { rs_text : string; rs_type : string }.

(** An exception and the chain of its causes and contexts, up to a repetition. *)
Record Failure := { fl_error : Raise; fl_causes : list Raise }.

Inductive Outcome (A : Type) := Returned (a : A) | Raised (f : Failure).
Arguments Returned {A} a.
Arguments Raised {A} f.

Definition raise_message (r : Raise) : string :=
  if String.eqb (str_strip (rs_text r)) "" then rs_type r else str_strip (rs_text r).

(** [" | caused by: ".join(...)] of the first five messages. *)
Definition _exception_message (f : Failure) : string :=
  String.concat " | caused by: " (raise_message <$> take 5 (fl_error f :: fl_causes f)).

(** ** api.py *)

Definition _ensure_initialized (r : RunResult) : result unit := require (initialized r) RuntimeError.

Definition seconds_at (fps : Float) (frame : Z) : result Float :=
  x ← py_float_of_int frame; py_fdiv x fps.

Definition telemetry_record (r : RunResult) (pt : Z * PersonTelemetry) : result Dict :=
  let '(person_id, t) := pt in
  entry_seconds ← seconds_at (result_fps r) (pt_entry_frame t);
  exit_seconds ← seconds_at (result_fps r) (pt_last_seen_frame t);
  entry_timestamp ← format_video_timestamp (pt_entry_frame t) (result_fps r);
  exit_timestamp ← format_video_timestamp (pt_last_seen_frame t) (result_fps r);
  Ok [("person_id", VInt person_id);
      ("entry_frame", VInt (pt_entry_frame t));
      ("exit_frame", VInt (pt_last_seen_frame t));
      ("entry_seconds", VFloat entry_seconds);
      ("exit_seconds", VFloat exit_seconds);
      ("entry_timestamp", VStr entry_timestamp);
      ("exit_timestamp", VStr exit_timestamp);
      ("duration_seconds", VFloat (fsub exit_seconds entry_seconds))]%string.

(** [for person_id in sorted(result.telemetry)]. *)
Definition telemetry_records (r : RunResult) : result (list Dict) :=
  _ensure_initialized r;;
  require (negb (fleb (result_fps r) fzero)) ValueError;;
  map_result (telemetry_record r) (order_by (λ x y, x.1 <=? y.1)%Z (telemetry r)).

Definition line_count_record (l : LineCountRecord) : Dict :=
  let '(x1, y1, x2, y2) := lc_line l in
  [("frame", VInt (lc_frame l));
   ("video_seconds", VStr (lc_video_seconds l));
   ("video_timestamp", VStr (lc_video_timestamp l));
   ("frame_in_count", VInt (lc_frame_in_count l));
   ("frame_out_count", VInt (lc_frame_out_count l));
   ("cumulative_in_count", VInt (lc_cumulative_in_count l));
   ("cumulative_out_count", VInt (lc_cumulative_out_count l));
   ("line_start_x", VInt x1);
   ("line_start_y", VInt y1);
   ("line_end_x", VInt x2);
   ("line_end_y", VInt y2)]%string.

Definition line_count_records (r : RunResult) : result (list Dict) :=
  _ensure_initialized r;; Ok (line_count_record <$> line_counts r).

(** ** Records of one video *)

(** [{**d, **updates}]. *)
Definition merge (d updates : Dict) : Dict :=
  fold_left (λ d kv, dict_put kv.1 kv.2 d) updates d.

Definition opt_text (o : option string) : pyval := match o with Some s => VStr s | None => VNone end.

Definition _required_text (work : Dict) (name : string) : result string :=
  match dict_get name work with
  | VStr s => if is_blank s then Err ValueError else Ok (str_strip s)
  | _ => Err ValueError
  end.

Definition _optional_text (v : pyval) : result pyval :=
  match v with
  | VNone => Ok VNone
  | VStr s => if is_blank s then Err ValueError else Ok (VStr (str_strip s))
  | _ => Err ValueError
  end.

(** The first of the names that holds a text; the rows of a batch hold no [Path]. *)
Definition _source_video (work : Dict) : result string :=
  match omap (λ name, match dict_get name work with
                      | VStr s => if is_blank s then None else Some (str_strip s)
                      | _ => None
                      end) ["source_video"; "video"; "source_uri"]%string with
  | s :: _ => Ok s
  | [] => Err ValueError
  end.

(** The nullable columns of a record. *)
Record Details := {
  dt_error_type : option string;
  dt_error_message : option string;
  dt_retryable : option bool;
  dt_processed_frames : option Z;
  dt_processing_seconds : option Float;
}.
Definition no_details : Details := {| dt_error_type := None; dt_error_message := None;
  dt_retryable := None; dt_processed_frames := None; dt_processing_seconds := None |}.

Definition opt_val {A} (f : A → pyval) (o : option A) : pyval := match o with Some a => f a | None => VNone end.

(** [now] is [datetime.now(timezone.utc)] in its ISO form, in which the record leaves
    the executor. *)
Definition _record (now : string) (record_type : string) (work : Dict) (status : string)
    (payload : Dict) (d : Details) : result Dict :=
  work_id ← _required_text work "work_id";
  attempt_id ← _optional_text (dict_get "attempt_id" work);
  source_video ← _source_video work;
  payload_json ← json_dumps true (VDict payload);
  Ok [("record_type", VStr record_type);
      ("work_id", VStr work_id);
      ("attempt_id", attempt_id);
      ("source_video", VStr source_video);
      ("status", VStr status);
      ("payload_json", VStr payload_json);
      ("error_type", opt_text (dt_error_type d));
      ("error_message", opt_text (dt_error_message d));
      ("retryable", opt_val VBool (dt_retryable d));
      ("processed_frames", opt_val VInt (dt_processed_frames d));
      ("processing_seconds", opt_val VFloat (dt_processing_seconds d));
      ("emitted_at_utc", VStr now)]%string.

(** The result of a video and the time it took. *)
Record VideoRun := { vr_result : RunResult; vr_processing_seconds : Float }.

Definition video_summary (r : RunResult) : Dict :=
  [("total_source_frames", VInt (total_source_frames r));
   ("total_sampled_frames", VInt (total_sampled_frames r));
   ("source_frames_read", VInt (source_frames_read r));
   ("effective_sample_fps", VFloat (effective_sample_fps r));
   ("distinct_people", VInt (Z.of_nat (length (telemetry r))));
   ("line_in_count", VInt (line_in_count r));
   ("line_out_count", VInt (line_out_count r));
   ("ended_early", VBool (ended_early r))]%string.

(** The records of one row, given the outcome of its processing and the times at
    which they are made.  No classifier is supplied on this path. *)
Definition process_video_row (now : nat → string) (work : Dict) (outcome : Outcome VideoRun)
    : result (list Dict) :=
  match outcome with
  | Raised f =>
      let message := _exception_message f in
      let error_type := rs_type (fl_error f) in
      r ← _record (now 0%nat) "error" work "FAILED"
        [("error_category", VStr "RUNTIME"); ("error_type", VStr error_type);
         ("error_message", VStr message)]%string
        {| no_details with dt_error_type := Some error_type; dt_error_message := Some message;
           dt_retryable := Some true |};
      Ok [r]
  | Returned run =>
      let r := vr_result run in
      head ← _record (now 0%nat) "video_result" work "SUCCEEDED" (video_summary r)
        {| no_details with dt_processed_frames := Some (processed_frames r);
           dt_processing_seconds := Some (vr_processing_seconds run) |};
      telemetry ← telemetry_records r;
      people ← map_result (λ kp, _record (now (1 + kp.1)%nat) "telemetry" work "SUCCEEDED" kp.2 no_details)
        (imap pair telemetry);
      counts ← line_count_records r;
      lines ← map_result (λ kp, _record (now (1 + length people + kp.1)%nat) "line_count" work "SUCCEEDED"
          kp.2 no_details) (imap pair counts);
      Ok (head :: people ++ lines)
  end.

(** ** fabric_executor_production.select_production_line_counts *)

(** [v > 0]. *)
Definition exceeds_zero (v : pyval) : result bool :=
  match v with
  | VInt z => Ok (0 <? z)%Z
  | VBool b => Ok b
  | VFloat f => Ok (fltb fzero f)
  | _ => Err TypeError
  end.

Definition is_selected (n : nat) (ir : nat * Dict) : result bool :=
  inward ← exceeds_zero (default (VInt 0) (dict_lookup "frame_in_count" ir.2));
  if (inward : bool) then Ok true else
  outward ← exceeds_zero (default (VInt 0) (dict_lookup "frame_out_count" ir.2));
  Ok (outward || (S ir.1 =? n)%nat).

Definition select_production_line_counts (records : list Dict) : result (list Dict) :=
  kept ← filter_result (is_selected (length records)) (imap pair records);
  Ok (kept.*2).

Definition sparse_line_records (records : list Dict) : result (list Dict) :=
  select_production_line_counts records.

(** [{int(payload["_sjd_position"]) for payload in sparse_line_records(...)}]. *)
Definition selected_positions (line_rows : list Dict) : result (list Z) :=
  selected ← sparse_line_records
    (imap (λ i payload, merge payload [("_sjd_position", VInt (Z.of_nat i))])%string line_rows);
  map_result (λ payload, v ← record_item "_sjd_position" payload;
                         match v with VInt z => Ok z | _ => Err TypeError end) selected.

(** ** sjd_process.py: the rows of one bucket *)

Record TaskIdentity := {
  ti_stage_id : Z;
  ti_partition_id : Z;
  ti_task_attempt_id : Z;
  ti_attempt_number : Z;
  ti_executor_identity : string;
  ti_executor_host : string;
}.

Definition _native_thread_budget_concurrency (executor_cores task_cpus planned_concurrency : Z) : Z :=
  Z.max planned_concurrency (Z.max 1 (executor_cores / task_cpus)).

Definition REVIEWED_TASK_CPU_WIDTHS : list Z := [1; 2; 4]%Z.

(** [text.rpartition("@")[2]]: what follows the last separator, or all of it. *)
Definition after_last (sep : Z) (s : string) : string :=
  str_of_codes (List.last (split_codes sep (codes_of_str s)) []).

(** [row.get(name, default)]. *)
Definition get_or (name : string) (v : pyval) (d : Dict) : pyval := default v (dict_lookup name d).

Section executor.
(** The identity that Spark gives a task, or None outside of Spark. *)
Context (task_context : option TaskIdentity).
(** The configuration of a work, for which its files are read; the key of its
    runtime; loading the runtime and running it. *)
Context {C K R : Type} `{!EqDecision K}.
Context (_config_from_work : Dict → Outcome C) (_runtime_cache_key : C → K).
Context (load_runtime : C → Outcome R) (run_with_runtime : C → R → Outcome VideoRun).
(** [time.sleep]: the exception for a length that it refuses. *)
Context (sleep : Float → option Failure).
(** The clock, for the n-th record of a work and attempt. *)
Context (utc_now : pyval → pyval → nat → string).
Context {Libs : Type} {NL : NativeLibraries Libs}.
Context (_package_version : result string).

Definition _task_identity (row : Dict) : result TaskIdentity :=
  match dict_get "_task_identity" row with
  | VDict injected =>
      executor_identity ← _text (get_or "executor_identity" (VStr "direct@localhost") injected);
      let default_host := after_last 64 executor_identity in
      stage ← _nonnegative_int (get_or "stage_id" (VInt 0) injected);
      partition ← _nonnegative_int (dict_get "partition_id" injected);
      task ← _nonnegative_int (get_or "task_attempt_id" (VInt 0) injected);
      number ← _nonnegative_int (get_or "attempt_number" (VInt 0) injected);
      host ← _text (get_or "executor_host" (VStr default_host) injected);
      Ok {| ti_stage_id := stage; ti_partition_id := partition; ti_task_attempt_id := task;
            ti_attempt_number := number; ti_executor_identity := executor_identity;
            ti_executor_host := host |}
  | _ => match task_context with Some i => Ok i | None => Err ProcessValidationError end
  end.

(** ExecutorRuntimeCache, with its counters. *)
Record RuntimeCache := { rc_items : list (K * R); rc_loads : Z; rc_hits : Z }.
Definition empty_cache : RuntimeCache := {| rc_items := []; rc_loads := 0; rc_hits := 0 |}.

Definition get_or_load (key : K) (loader : Outcome R) (c : RuntimeCache) : Outcome R * RuntimeCache :=
  match dget key (rc_items c) with
  | Some runtime => (Returned runtime, {| c with rc_hits := rc_hits c + 1 |})
  | None =>
      match loader with
      | Raised f => (Raised f, c)
      | Returned loaded =>
          (Returned loaded, {| rc_items := dset key loaded (rc_items c);
                               rc_loads := rc_loads c + 1; rc_hits := rc_hits c |})
      end
  end.

(** SdkRuntimeProcessor.run. *)
Definition sdk_run (config : C) (c : RuntimeCache) : Outcome VideoRun * RuntimeCache :=
  match get_or_load (_runtime_cache_key config) (load_runtime config) c with
  | (Raised f, c') => (Raised f, c')
  | (Returned runtime, c') => (run_with_runtime config runtime, c')
  end.

(** local_spark.ProbeRuntimeProcessor.run, on the fresh result of its configuration. *)
Definition probe_result : RunResult := {| fresh_result with
  started := true; initialized := true; result_fps := float_of_Z 30; total_source_frames := 1;
  total_sampled_frames := 1; source_frames_read := 1; processed_frames := 1;
  effective_sample_fps := float_of_Z 1 |}.

Definition probe_run (delay : Float) : Outcome VideoRun :=
  match (if feqb delay fzero then None else sleep delay) with
  | Some f => Raised f
  | None => Returned {| vr_result := probe_result; vr_processing_seconds := delay |}
  end.

Inductive Processor := Sdk | Probe (delay : Float).

Definition run_processor (p : Processor) (row : Dict) (c : RuntimeCache) : Outcome VideoRun * RuntimeCache :=
  match _config_from_work row with
  | Raised f => (Raised f, c)
  | Returned config =>
      match p with
      | Sdk => sdk_run config c
      | Probe delay => (probe_run delay, c)
      end
  end.

(** What [execute_sjd_partition] adds to a record. *)
Definition executor_fields (row : Dict) (identity : TaskIdentity) (threads : Z) (c : RuntimeCache)
    (payload : Dict) (sequence : nat) : result Dict :=
  let copied names := map_result (λ name, v ← record_item name row; Ok (name, v)) names in
  first ← copied ["batch_id"; "process_attempt_id"; "envelope_sha256"; "manifest_sha256";
                  "membership_sha256"; "fence"; "input_payload_sha256"]%string;
  digest ← _sha256 (VDict payload);
  second ← copied ["config_sha256"; "model_identity"; "release_digest"]%string;
  version ← _package_version;
  third ← copied ["runtime_key"; "duration_seconds"; "planned_cost_seconds"; "planned_concurrency";
                  "peak_rss_bytes"; "duration_only_fallback"; "bucket_id"; "wave_index";
                  "physical_partition"]%string;
  physical ← record_item "physical_partition" row;
  Ok (first ++ [("record_payload_sha256", VStr digest)] ++ second ++ [("package_version", VStr version)]
      ++ third ++
      [("physical_partition_id", physical);
       ("stage_id", VInt (ti_stage_id identity));
       ("partition_id", VInt (ti_partition_id identity));
       ("task_attempt_id", VInt (ti_task_attempt_id identity));
       ("task_attempt_number", VInt (ti_attempt_number identity));
       ("executor_identity", VStr (ti_executor_identity identity));
       ("executor_host", VStr (ti_executor_host identity));
       ("record_sequence", VInt (Z.of_nat sequence));
       ("detector_batch_size", get_or "batch_size" (VInt 1) row);
       ("cpu_threads", VInt threads);
       ("runtime_loads", VInt (rc_loads c));
       ("runtime_cache_hits", VInt (rc_hits c))]%string).

(** [json.loads(record["payload_json"])]; the payloads of records are dicts. *)
Definition record_payload (r : Dict) : result Dict :=
  text ← record_item "payload_json" r;
  match text with
  | VStr s => v ← json_loads_text s; match v with VDict d => Ok d | _ => Err TypeError end
  | _ => Err TypeError
  end.

Definition is_line_count (r : Dict) : bool := py_eqb (dict_get "record_type" r) (VStr "line_count").

(** The loop over the records of one row. *)
Fixpoint normalize_records (row : Dict) (identity : TaskIdentity) (threads : Z) (c : RuntimeCache)
    (selected : list Z) (line_position : Z) (sequence : nat) (raw : list Dict) : result (list Dict) :=
  match raw with
  | [] => Ok []
  | r :: raw' =>
      payload ← record_payload r;
      let next := if is_line_count r then (line_position + 1)%Z else line_position in
      if is_line_count r && negb (bool_decide (line_position ∈ selected))
      then normalize_records row identity threads c selected next sequence raw'
      else
        fields ← executor_fields row identity threads c payload sequence;
        rest ← normalize_records row identity threads c selected next (S sequence) raw';
        Ok (merge r fields :: rest)
  end.

(** One row: its records, of which the sparse line counts are kept. *)
Definition execute_row (p : Processor) (identity : TaskIdentity) (threads : Z) (row : Dict)
    (c : RuntimeCache) : result (list Dict) * RuntimeCache :=
  let '(outcome, c') := run_processor p row c in
  (raw ← process_video_row (utc_now (dict_get "work_id" row) (dict_get "attempt_id" row)) row outcome;
   line_rows ← map_result record_payload (List.filter is_line_count raw);
   selected ← selected_positions line_rows;
   normalize_records row identity threads c' selected 0 0 raw, c').

Fixpoint execute_rows (p : Processor) (identity : TaskIdentity) (threads : Z) (rows : list Dict)
    (c : RuntimeCache) : result (list Dict) :=
  match rows with
  | [] => Ok []
  | row :: rows' =>
      let '(r, c') := execute_row p identity threads row c in
      emitted ← r;
      rest ← execute_rows p identity threads rows' c';
      Ok (emitted ++ rest)
  end.

(** [mode not in {"probe", "sdk"}]; a list or a dict has no hash. *)
Definition processor_mode (v : pyval) : result bool :=
  match v with
  | VStr s => if String.eqb s "sdk" then Ok true else if String.eqb s "probe" then Ok false
              else Err ProcessValidationError
  | VList _ | VDict _ => Err TypeError
  | _ => Err ProcessValidationError
  end.

(** The release that detached evidence expects, when the first row carries it. *)
Definition check_expected_release (first : Dict) (rows : list Dict) (observed : string) : result unit :=
  match dict_get "_expected_release_package_version" first with
  | VNone => Ok tt
  | expected =>
      require (py_eqb (VStr observed) expected) ProcessValidationError;;
      require (forallb (λ row, py_eqb (dict_get "release_digest" row)
                 (dict_get "_expected_release_manifest_sha256" first)) rows) ProcessValidationError
  end.

Definition probe_delay (rows : list Dict) : result Float :=
  delays ← map_result (λ row, py_float (get_or "probe_delay_seconds" (VFloat fzero) row)) rows;
  Ok (fmax_of delays).

(** On the native thread state of the process. *)
Definition execute_sjd_partition (rows : list Dict) : tx (@Cpu.Process Libs) (list Dict) :=
  match rows with
  | [] => mret []
  | first :: _ =>
      identity ← tx_lift (_task_identity first);
      expected ← tx_lift (map_result (λ row, _nonnegative_int (dict_get "physical_partition" row)) rows);
      tx_require (forallb (λ z, z =? ti_partition_id identity)%Z expected) ProcessValidationError;;
      cores ← tx_lift (_positive_int (dict_get "executor_cores" first));
      cpus ← tx_lift (_positive_int (dict_get "task_cpus" first));
      tx_require (bool_decide (cpus ∈ REVIEWED_TASK_CPU_WIDTHS)) ProcessValidationError;;
      tx_require (negb (cores <? cpus)%Z) ProcessValidationError;;
      observed ← tx_lift _package_version;
      tx_lift (check_expected_release first rows observed);;
      planned ← tx_lift (_positive_int (dict_get "planned_concurrency" first));
      sdk ← tx_lift (processor_mode (dict_get "mode" first));
      budget ← configure_placement_safe_cpu_runtime [VInt cores] (VInt cpus)
        (VInt (_native_thread_budget_concurrency cores cpus planned)) sdk;
      (if (sdk : bool) then p ← tx_get; tx_lift (verify_effective_thread_settings budget p);; mret tt
       else mret tt);;
      processor ← tx_lift (if (sdk : bool) then Ok Sdk else Probe <$> probe_delay rows);
      tx_lift (execute_rows processor identity (tb_threads_per_worker budget) rows empty_cache)
  end.

(** A container of one bucket: the value under "rows", when there is one. *)
Definition execute_sjd_bucket_partition (containers : list (option Dict))
    : tx (@Cpu.Process Libs) (list Dict) :=
  match containers with
  | [] | None :: _ => mret []
  | Some d :: rest =>
      match rest, dict_get "rows" d with
      | [], VList rows => rs ← tx_lift (map_result py_dict rows); execute_sjd_partition rs
      | _, _ => tx_raise ProcessValidationError
      end
  end.

(** ** Harnesses *)

Definition _executor_row (planned : PlannedItem) (envelope : VerifiedEnvelope)
    (profile : ExecutionProfile) (mode : string) (c : ConcurrencyDecision) : result Dict :=
  let item := pi_item planned in
  attempt ← execution_attempt_id envelope;
  model ← _model_identity (i_payload item);
  version ← _package_version;
  Ok (merge (i_payload item)
    [("work_id", VStr (i_work_id item));
     ("attempt_id", VStr (i_attempt_id item));
     ("batch_id", VStr (v_batch_id envelope));
     ("process_attempt_id", VStr attempt);
     ("envelope_sha256", VStr (v_envelope_sha256 envelope));
     ("manifest_sha256", VStr (v_envelope_sha256 envelope));
     ("membership_sha256", VStr (v_membership_sha256 envelope));
     ("fence", VInt (i_fence item));
     ("input_payload_sha256", VStr (i_payload_sha256 item));
     ("config_sha256", VStr (i_config_sha256 item));
     ("model_identity", VStr model);
     ("release_digest", VStr (i_release_digest item));
     ("package_version", VStr version);
     ("runtime_key", VStr (i_runtime_key item));
     ("duration_seconds", VFloat (i_duration_seconds item));
     ("planned_cost_seconds", VFloat (pi_planned_cost_seconds planned));
     ("planned_concurrency", VInt (cd_concurrency c));
     ("peak_rss_bytes", opt_int (cd_peak_rss_bytes c));
     ("duration_only_fallback", VBool (cd_duration_only_fallback c));
     ("bucket_id", VInt (pi_bucket_id planned));
     ("wave_index", VInt (pi_wave_index planned));
     ("physical_partition", VInt (pi_physical_partition planned));
     ("physical_partition_id", VInt (pi_physical_partition planned));
     ("executor_cores", VInt (ep_executor_cores profile));
     ("task_cpus", VInt (ep_task_cpus profile));
     ("mode", VStr mode)]%string).

Definition direct_identity (b : BucketPlan) : Dict :=
  [("stage_id", VInt 0);
   ("partition_id", VInt (bp_physical_partition b));
   ("task_attempt_id", VInt (bp_bucket_id b));
   ("attempt_number", VInt 0);
   ("executor_identity", VStr ("direct-" +:+ int_str (bp_physical_partition b) +:+ "@localhost"));
   ("executor_host", VStr "localhost")]%string.

Definition direct_rows (envelope : VerifiedEnvelope) (plan : ExecutionPlan) (profile : ExecutionProfile)
    (mode : string) (b : BucketPlan) : result (list Dict) :=
  map_result (λ item, row ← _executor_row item envelope profile mode (xp_concurrency plan);
                      Ok (merge row [("_task_identity", VDict (direct_identity b))%string]))
    (bp_items b).

(** DirectExecutionHarness.execute. *)
Fixpoint direct_buckets (envelope : VerifiedEnvelope) (plan : ExecutionPlan) (profile : ExecutionProfile)
    (mode : string) (buckets : list BucketPlan) : tx (@Cpu.Process Libs) (list Dict) :=
  match buckets with
  | [] => mret []
  | b :: buckets' =>
      rows ← tx_lift (direct_rows envelope plan profile mode b);
      records ← execute_sjd_partition rows;
      rest ← direct_buckets envelope plan profile mode buckets';
      mret (records ++ rest)
  end.

Definition direct_execute (envelope : VerifiedEnvelope) (plan : ExecutionPlan)
    (profile : ExecutionProfile) (mode : string) : tx (@Cpu.Process Libs) (list Dict) :=
  direct_buckets envelope plan profile mode (xp_buckets plan).
End executor.

End Executor.
