(* ===== verification/ProcessRun.v ===== *)
(** * sjd_process.py: one run of a process batch

    [run_process_batch] executes, validates, stages, seals and commits a claimed
    batch; after a failure it is called again and resumes from the staged attempt.
    A run acts on the control store and on the attempt directory while time passes:
    before every effect the other processes may act on the store, the heartbeat
    thread may extend the lease, and the process may be killed.  These surroundings
    are functions of the time. *)
From S2P Require Export Prelude PyDict PyVal Json Sha256 ControlTypes ControlClaim ControlProcess ControlEnvelope ProcessEnvelope ProcessPlan ProcessRecords ProcessValidate.

Module Run.
Import Process Plan Records Validate.

(** ** The world of a run *)

(** The heartbeat thread: what it renews, and the error that stopped it. *)
Record Heartbeat := {
  hb_envelope : Envelope;
  hb_extension : Float;
  hb_error : option exn;
}.

Record World := {
  w_store : Store;
  w_disk : Disk;
  w_time : nat;
  w_heartbeat : option Heartbeat;
}.

Record Surroundings := {
  sr_clock : nat → pyval;              (* what the store's clock reads *)
  sr_others : nat → Store → Store;     (* what other processes do *)
  sr_beats : nat → nat;                (* intervals of the heartbeat thread *)
  sr_dies : nat → bool;                (* the process is killed *)
  sr_torn : nat → nat;                 (* what a killed write leaves *)
}.

Abbreviation Run := (tx World).

Definition effect {A} (f : World → result A * World) : Run A := f.

Section world.
Context (sr : Surroundings).

(** One round of the thread's loop; an error ends it. *)
Definition beat (W : World) : World :=
  match w_heartbeat W with
  | Some h =>
      match hb_error h with
      | Some _ => W
      | None =>
          let '(r, s) := heartbeat_process (hb_envelope h) (VFloat (hb_extension h))
                           (sr_clock sr (w_time W)) (w_store W) in
          {| w_store := s; w_disk := w_disk W; w_time := S (w_time W);
             w_heartbeat := Some {| h with hb_error := match r with Ok _ => None | Err e => Some e end |} |}
      end
  | None => W
  end.

(** What happens before the next effect of the run. *)
Definition elapse (W : World) : World :=
  let W1 := {| W with w_store := sr_others sr (w_time W) (w_store W); w_time := S (w_time W) |} in
  Nat.iter (sr_beats sr (w_time W)) beat W1.

Definition tick : Run unit := λ W,
  let W' := elapse W in
  (if sr_dies sr (w_time W) then Err Killed else Ok tt, W').

(** A call of the control store, which reads the clock at most once. *)
Definition call {A} (op : pyval → Ctl A) : Run A :=
  tick;;
  effect (λ W, let '(r, s) := op (sr_clock sr (w_time W)) (w_store W) in
               (r, {| W with w_store := s; w_time := S (w_time W) |})).

(** A step on the attempt directory. *)
Definition on_disk {A} (op : tx Disk A) : Run A :=
  tick;;
  effect (λ W, let '(r, d) := op (w_disk W) in (r, {| W with w_disk := d |})).

(** [path.open("x")], then one write of the whole content.  A process killed at
    the write leaves a prefix. *)
Definition write_new (p : Path) (content : string) : Run unit :=
  on_disk (d ← tx_get; tx_require (negb (path_exists p d)) FileExistsError;; tx_modify (put_text p ""));;
  effect (λ W, let W' := elapse W in
    if sr_dies sr (w_time W)
    then (Err Killed, {| W' with w_disk := put_text p (String.substring 0 (sr_torn sr (w_time W)) content) (w_disk W') |})
    else (Ok tt, {| W' with w_disk := put_text p content (w_disk W') |})).

(** [with _Heartbeat(...) as heartbeat: body]: the first beat is made before the
    thread starts; the thread's error replaces the outcome of the body.  A killed
    process leaves no thread. *)
Definition start_heartbeat (e : Envelope) (extension : Float) (W : World) : World :=
  {| W with w_heartbeat := Some {| hb_envelope := e; hb_extension := extension; hb_error := None |} |}.
Definition stop_heartbeat (W : World) : World := {| W with w_heartbeat := None |}.

Definition heartbeat_failed (W : World) : bool :=
  match w_heartbeat W with
  | Some h => negb (bool_decide (hb_error h = None))
  | None => false
  end.

Definition raise_if_failed : Run unit := λ W,
  (if heartbeat_failed W then Err LeaseLostError else Ok tt, W).

Definition with_heartbeat {A} (e : Envelope) (extension : Float) (body : Run A) : Run A :=
  call (heartbeat_process e (VFloat extension));;
  tx_modify (start_heartbeat e extension);;
  effect (λ W, match body W with
    | (Err Killed, W') => (Err Killed, stop_heartbeat W')
    | (r, W') => (if heartbeat_failed W' then Err LeaseLostError else r, stop_heartbeat W')
    end).

(** ** LocalJsonAttemptAdapter *)

Section adapter.
Context (root : Path).

Definition attempt_path (batch_id process_attempt_id : string) : result Path :=
  b ← _path_segment batch_id;
  a ← _path_segment process_attempt_id;
  Ok (root ++ ["batch=" +:+ b; "attempt=" +:+ a]%string).

Definition records_path (p : Path) : Path := p ++ ["records.json"%string].
Definition marker_path (p : Path) : Path := p ++ ["_SUCCESS"%string].

Definition read_text (p : Path) (d : Disk) : result string :=
  match d_texts d !! p with Some s => Ok s | None => Err FileNotFoundError end.

(** [_read_json]: unreadable files and texts that are no JSON are conflicts. *)
Definition _read_json (p : Path) (d : Disk) : result pyval :=
  match s ← read_text p d; json_loads_text s with
  | Ok v => Ok v
  | Err _ => Err StagingConflictError
  end.
Definition read_json_list (p : Path) (d : Disk) : result (list pyval) :=
  v ← _read_json p d;
  match v with VList l => Ok l | _ => Err StagingConflictError end.
Definition read_json_dict (p : Path) (d : Disk) : result Dict :=
  v ← _read_json p d;
  match v with VDict m => Ok m | _ => Err StagingConflictError end.

Definition load_attempt (path : Path) (d : Disk) : result (option (list Dict * Dict)) :=
  if negb (path_exists path d) then Ok None else
  require (is_file (records_path path) d && is_file (marker_path path) d) StagingConflictError;;
  records ← read_json_list (records_path path) d;
  marker ← read_json_dict (marker_path path) d;
  ordered ← _ordered_records records;
  Ok (Some (ordered, marker)).

Definition load_complete (batch_id process_attempt_id : string)
    : Run (option (list Dict * Dict)) :=
  path ← tx_lift (attempt_path batch_id process_attempt_id);
  on_disk (d ← tx_get; tx_lift (load_attempt path d)).

Definition write_records (batch_id process_attempt_id : string) (records : list Dict) : Run Path :=
  path ← tx_lift (attempt_path batch_id process_attempt_id);
  on_disk (d ← tx_get; tx_require (negb (path_exists path d)) StagingConflictError;;
           tx_modify (mkdirs path));;
  content ← tx_lift (_canonical (records_value (order_records records)));
  write_new (records_path path) content;;
  mret path.

Definition read_attempt_records (path : Path) (d : Disk) : result (list Dict) :=
  require (is_file (records_path path) d) StagingConflictError;;
  items ← read_json_list (records_path path) d;
  _ordered_records items.

Definition read_records (batch_id process_attempt_id : string) : Run (list Dict) :=
  path ← tx_lift (attempt_path batch_id process_attempt_id);
  on_disk (d ← tx_get; tx_lift (read_attempt_records path d)).

(** An existing marker must have the same content. *)
Definition create_success (batch_id process_attempt_id : string) (marker : Dict) : Run unit :=
  path ← tx_lift (attempt_path batch_id process_attempt_id);
  content ← tx_lift (_canonical (VDict marker));
  effect (λ W, match write_new (marker_path path) content W with
    | (Err FileExistsError, W') =>
        (existing ← read_text (marker_path path) (w_disk W');
         require (bool_decide (existing = content)) ImmutableConflictError, W')
    | r => r
    end).

(** ** The run *)

Record ProcessResult := {
  pr_batch_id : string;
  pr_process_attempt_id : string;
  pr_staging_path : Path;
  pr_record_count : Z;
  pr_failed_work_ids : list string;
  pr_publication_sequences : list Z;
  pr_resumed : bool;
  pr_driver_package_version : string;
}.

Record ReleaseEvidence := {
  re_package_version : string;
  re_manifest_sha256 : string;
}.

(** The version of the installed distribution, and the one of the release
    identity that the package ships. *)
Context (_package_version : result string) (release_version : string).

(** fabric_release_provenance.validate_installed_package_version. *)
Definition validate_installed_package_version (expected_version : string) : result unit :=
  match _package_version with
  | Err _ => Err ReleaseProvenanceError
  | Ok observed =>
      require (bool_decide (observed = text_or (Some expected_version) release_version))
        ReleaseProvenanceError
  end.

Definition check_release (evidence : option ReleaseEvidence) (envelope : VerifiedEnvelope)
    : result unit :=
  match evidence with
  | None => Ok tt
  | Some e =>
      validate_installed_package_version (re_package_version e);;
      require (forallb (λ i, bool_decide (i_release_digest i = re_manifest_sha256 e))
                 (v_items envelope)) ProcessValidationError
  end.

Definition verify_loaded (batch_id : string) (loaded : pyval * string) : result VerifiedEnvelope :=
  match loaded.1 with
  | VDict d => verify_envelope d batch_id loaded.2
  | _ => Err AttributeError
  end.

Definition _load_process_context (batch_id : string) (evidence : option ReleaseEvidence)
    : Run (VerifiedEnvelope * ControlBatchState) :=
  loaded ← call (λ _, load_claim_envelope_with_digest (VStr batch_id));
  envelope ← tx_lift (verify_loaded batch_id loaded);
  tx_lift (check_release evidence envelope);;
  live ← call (λ _, process_batch_state (control_envelope envelope));
  mret (envelope, live).

Definition _process_result (envelope : VerifiedEnvelope) (records : list Dict)
    (sequences : list Z) (resumed : bool) : result ProcessResult :=
  attempt ← execution_attempt_id envelope;
  path ← attempt_path (v_batch_id envelope) attempt;
  failures ← failed_works records;
  version ← _package_version;
  Ok {| pr_batch_id := v_batch_id envelope; pr_process_attempt_id := attempt;
        pr_staging_path := path; pr_record_count := Z.of_nat (length records);
        pr_failed_work_ids := failures; pr_publication_sequences := sequences;
        pr_resumed := resumed; pr_driver_package_version := version |}.

Definition _resume_committed_process_batch (envelope : VerifiedEnvelope) : Run ProcessResult :=
  attempt ← tx_lift (execution_attempt_id envelope);
  complete ← load_complete (v_batch_id envelope) attempt;
  match complete with
  | None => tx_raise StagingConflictError
  | Some (records, marker) =>
      plan ← tx_lift (_committed_plan records envelope);
      tx_lift (validate_staged_records _package_version records envelope plan);;
      tx_lift (_verify_marker marker records envelope);;
      sequences ← call (commit_batch (VStr (v_batch_id envelope)));
      tx_lift (_process_result envelope records sequences true)
  end.

Definition resume_committed_process_batch (batch_id : string) (evidence : option ReleaseEvidence)
    : Run (option ProcessResult) :=
  '(envelope, live) ← _load_process_context batch_id evidence;
  if bool_decide (bs_status live = B_COMMITTED)
  then Some <$> _resume_committed_process_batch envelope
  else call (assert_process_fence (control_envelope envelope));; mret None.

(** The output of one item: its terminal record decides success. *)
Definition output_record (r : Dict) : result pyval :=
  executor ← record_item "executor_identity" r;
  partition ← record_item "partition_id" r;
  task ← record_item "task_attempt_id" r;
  sequence ← record_item "record_sequence" r;
  Ok (VDict [("executor_identity", executor); ("partition_id", partition);
             ("task_attempt_id", task); ("record_sequence", sequence)])%string.

Definition is_terminal (r : Dict) : bool :=
  existsb (λ t, py_eqb (dict_get "record_type" r) (VStr t)) TERMINAL_TYPES.

Definition item_output (staging_path : Path) (grouped : list (string * list Dict))
    (item : EnvelopeItem) : result pyval :=
  records ← dindex (i_work_id item) grouped;
  terminal ← match List.find is_terminal records with Some r => Ok r | None => Err StopIteration end;
  digest ← _sha256 (records_value records);
  rows ← map_result output_record records;
  Ok (VDict [("work_id", VStr (i_work_id item));
             ("attempt_id", VStr (i_attempt_id item));
             ("succeeded", VBool (py_eqb (dict_get "record_type" terminal) (VStr "video_result")));
             ("output_path", VStr (path_text staging_path));
             ("output_sha256", VStr digest);
             ("records", VList rows)])%string.

Abbreviation Harness := (nat → VerifiedEnvelope → ExecutionPlan → ExecutionProfile → string →
  result (list Dict)).

(** The arguments of the entry point besides the store and the attempts. *)
Record RunArgs := {
  ra_batch_id : string;
  ra_profile : ExecutionProfile;
  ra_mode : string;
  ra_harness : Harness;
  ra_peak_rss_bytes : option Z;
  ra_clock : option (nat → pyval);
  ra_crash_hook : option (string → result unit);
  ra_release_evidence : option ReleaseEvidence;
}.

Definition _crash (hook : option (string → result unit)) (point : string) : Run unit :=
  tx_lift (match hook with Some h => h point | None => Ok tt end).

Definition heartbeat_extension (profile : ExecutionProfile) (plan : ExecutionPlan) : Float :=
  py_fmax (fmul (ep_heartbeat_seconds profile) (float_of_Z 3))
    (fadd (fmul (xp_projected_makespan_seconds plan) (ep_lease_safety_factor profile))
       (ep_lease_margin_seconds profile)).

(** [harness.execute(...)]. *)
Definition execute (a : RunArgs) (envelope : VerifiedEnvelope) (plan : ExecutionPlan) : Run (list Dict) :=
  tick;;
  effect (λ W, (ra_harness a (w_time W) envelope plan (ra_profile a) (ra_mode a), W)).

(** The body of the heartbeat: execute, validate, stage, read back, mark. *)
Definition execute_and_stage (a : RunArgs) (envelope : VerifiedEnvelope) (plan : ExecutionPlan)
    (attempt : string) : Run (list Dict) :=
  let validate records := tx_lift (validate_staged_records _package_version records envelope plan) in
  executed ← execute a envelope plan;
  raise_if_failed;;
  _crash (ra_crash_hook a) "after_action";;
  validate executed;;
  write_records (ra_batch_id a) attempt executed;;
  records ← read_records (ra_batch_id a) attempt;
  validate records;;
  _crash (ra_crash_hook a) "after_staging";;
  call (assert_process_fence (control_envelope envelope));;
  marker ← tx_lift (_success_marker envelope records);
  create_success (ra_batch_id a) attempt marker;;
  _crash (ra_crash_hook a) "after_marker";;
  mret records.

(** The records of the attempt, staged before or now. *)
Definition obtain_records (a : RunArgs) (envelope : VerifiedEnvelope) (plan : ExecutionPlan)
    (attempt : string) (complete : option (list Dict * Dict)) : Run (list Dict) :=
  match complete with
  | None =>
      with_heartbeat (control_envelope envelope) (heartbeat_extension (ra_profile a) plan)
        (execute_and_stage a envelope plan attempt)
  | Some (records, marker) =>
      tx_lift (validate_staged_records _package_version records envelope plan);;
      tx_lift (_verify_marker marker records envelope);;
      mret records
  end.

(** Fence, seal and commit the validated records. *)
Definition publish_records (a : RunArgs) (envelope : VerifiedEnvelope) (plan : ExecutionPlan)
    (attempt : string) (resumed : bool) (records : list Dict) : Run ProcessResult :=
  let fence := call (assert_process_fence (control_envelope envelope)) in
  fence;;
  grouped ← tx_lift (validate_staged_records _package_version records envelope plan);
  staging_path ← tx_lift (attempt_path (ra_batch_id a) attempt);
  outputs ← tx_lift (map_result (item_output staging_path grouped) (v_items envelope));
  call (seal_batch (VStr (ra_batch_id a)) (VList outputs) (VStr (v_envelope_sha256 envelope))
          (VStr (v_membership_sha256 envelope)));;
  _crash (ra_crash_hook a) "after_seal";;
  fence;;
  sequences ← call (commit_batch (VStr (ra_batch_id a)));
  _crash (ra_crash_hook a) "after_pointer";;
  tx_lift (_process_result envelope records sequences resumed).

(** [store.now() if clock is None else clock()], as a finite number. *)
Definition admission_now (a : RunArgs) : Run Float := λ W,
  (match ra_clock a with
   | None => ControlTypes._finite (sr_clock sr (w_time W))
   | Some clock => Process._finite (clock (w_time W))
   end, {| W with w_time := S (w_time W) |}).

Definition process_live_batch (a : RunArgs) (envelope : VerifiedEnvelope) (live : ControlBatchState)
    : Run ProcessResult :=
  plan ← tx_lift (plan_duration_lpt (v_items envelope) (ra_profile a) (ra_peak_rss_bytes a) None);
  now ← admission_now a;
  tx_lift (admit_lease plan (ra_profile a) (bs_lease_expires_at live) now);;
  attempt ← tx_lift (execution_attempt_id envelope);
  complete ← load_complete (ra_batch_id a) attempt;
  records ← obtain_records a envelope plan attempt complete;
  publish_records a envelope plan attempt (bool_decide (is_Some complete)) records.

Definition run_process_batch (a : RunArgs) : Run ProcessResult :=
  tx_require (bool_decide (ra_mode a ∈ ["probe"; "sdk"]%string)) ProcessValidationError;;
  '(envelope, live) ← _load_process_context (ra_batch_id a) (ra_release_evidence a);
  match bs_status live with
  | B_COMMITTED => _resume_committed_process_batch envelope
  | B_LEASED | B_SEALED => process_live_batch a envelope live
  | B_EXPIRED => tx_raise LeaseLostError
  end.
End adapter.
End world.

End Run.
