(* ===== verification/ProcessScenario.v ===== *)
(** * A run of a process batch

    A concrete batch for the examples: two works are registered and claimed, and a
    run in probe mode executes, stages, seals and commits them with the direct
    harness. *)
From S2P Require Export Prelude PyFloat PyDict PyVal Json Sha256 ControlTypes ControlClaim ControlProcess ControlEnvelope ControlSafety ControlSpec ControlScenario CpuRuntime ProcessEnvelope ProcessPlan ProcessRecords ProcessValidate ProcessExecutor ProcessRun.
Import Cpu Process Plan Records Validate Executor Run.

(** ** The claimed batch *)

Definition video_payload (id : string) : pyval := VDict [("source_video", VStr (id +:+ ".mp4"))]%string.

Definition register_video (id : string) (seconds t : Z) : ctl_op :=
  OpRegister (VStr id) (video_payload id) (VStr "cpu") (flt seconds)
    (VStr "cfg") (VStr "rel") (VInt 2) VNone (flt t).

Definition claimed_store : Store := Eval vm_compute in
  ControlScenario.run [register_video "w1" 10 1; register_video "w2" 6 2; op_claim "b" 3] store0.

Lemma claimed_stage :
  stage [register_video "w1" 10 1; register_video "w2" 6 2; op_claim "b" 3] store0 claimed_store.
Proof. vm_cast_no_check (eq_refl claimed_store). Qed.

Lemma claimed_reachable : reachable claimed_store.
Proof. exact (stage_reachable _ _ _ store0_reachable claimed_stage). Qed.

(** ** The executor of the scenario *)

(** Libraries that keep what they are told. *)
Record ToyLibs := { toy_torch : Z; toy_interop : Z; toy_cv2 : Z }.
#[export] Instance toy_native : NativeLibraries ToyLibs := {|
  torch_set_num_threads n l := {| l with toy_torch := n |};
  torch_set_num_interop_threads n l := Some {| l with toy_interop := n |};
  cv2_setNumThreads n l := {| l with toy_cv2 := n |};
  torch_get_num_threads := toy_torch;
  torch_get_num_interop_threads := toy_interop;
  cv2_getNumThreads := toy_cv2 |}.

Definition fresh_process : Cpu.Process := {|
  ps_budget := None; ps_environ := ∅;
  ps_libs := {| toy_torch := 8; toy_interop := 4; toy_cv2 := 8 |} |}.

(** A length of time that can be waited for. *)
Definition toy_sleep (seconds : Float) : option Failure :=
  if fisfinite seconds && negb (fltb seconds fzero) then None
  else Some {| fl_error := {| rs_text := "sleep length must be non-negative"; rs_type := "ValueError" |};
               fl_causes := [] |}.

Definition toy_now (_ _ : pyval) (_ : nat) : string := "2024-05-01T00:00:00+00:00".

Definition toy_execute (config : Dict → Outcome unit) (envelope : VerifiedEnvelope)
    (plan : ExecutionPlan) (profile : ExecutionProfile) (mode : string)
    : tx Cpu.Process (list Dict) :=
  direct_execute None config (λ _, tt) (λ _, Returned tt) (λ _ _, Returned {|
      vr_result := probe_result; vr_processing_seconds := fzero |})
    toy_sleep toy_now (Ok "1.2.3"%string) envelope plan profile mode.

(** The video of [w2] cannot be read. *)
Definition toy_config (row : Dict) : Outcome unit :=
  if py_eqb (dict_get "work_id" row) (VStr "w2")
  then Raised {| fl_error := {| rs_text := " no such video "; rs_type := "FileNotFoundError" |};
                 fl_causes := [{| rs_text := ""; rs_type := "OSError" |}] |}
  else Returned tt.

Definition toy_harness (_ : nat) (envelope : VerifiedEnvelope) (plan : ExecutionPlan)
    (profile : ExecutionProfile) (mode : string) : result (list Dict) :=
  (toy_execute toy_config envelope plan profile mode fresh_process).1.

(** ** The run *)

Definition calm : Surroundings := {|
  sr_clock := λ _, flt 10; sr_others := λ _ s, s; sr_beats := λ _, 0%nat;
  sr_dies := λ _, false; sr_torn := λ _, 0%nat |}.

Definition toy_args : RunArgs := {|
  ra_batch_id := "b0"; ra_profile := LOCAL_TWO_WORKERS; ra_mode := "probe"; ra_harness := toy_harness;
  ra_peak_rss_bytes := None; ra_clock := None; ra_crash_hook := None; ra_release_evidence := None |}.

Definition claimed_world : World := {|
  w_store := claimed_store; w_disk := no_files; w_time := 0; w_heartbeat := None |}.

Definition toy_root : Path := ["staging"%string].

Definition toy_run (sr : Surroundings) (W : World) : result ProcessResult * World :=
  run_process_batch sr toy_root (Ok "1.2.3"%string) "1.2.3" toy_args W.

Definition toy_result : result ProcessResult := Eval vm_compute in
  (toy_run calm (stop_heartbeat claimed_world)).1.
Definition toy_world : World := Eval vm_compute in
  (toy_run calm (stop_heartbeat claimed_world)).2.

Lemma toy_ran : run_process_batch calm toy_root (Ok "1.2.3"%string) "1.2.3" toy_args
  (stop_heartbeat claimed_world) = (toy_result, toy_world).
Proof. vm_cast_no_check (eq_refl (toy_result, toy_world)). Qed.

(** The run commits: w1 is published, w2 can be claimed again. *)
Example toy_committed :
  (∃ r, toy_result = Ok r ∧ pr_record_count r = 2%Z ∧ pr_failed_work_ids r = ["w2"]%string ∧
     pr_publication_sequences r = [1%Z]) ∧
  summary (w_store toy_world) =
  ([("w1", W_SUCCEEDED, 1); ("w2", W_READY, 1)],
   [("b1", A_SUCCEEDED); ("b2", A_FAILED)], [("b0", B_COMMITTED)], [("w1", "b1", 1)])%string%Z.
Proof. split; [|vm_compute; reflexivity]. eexists. split; [reflexivity|]. vm_compute. repeat split. Qed.
