(* ===== verification/ProcessValidateTheorems.v ===== *)
(** * Theorems on the validation of staged records

    [validate_staged_records] against a declarative reading: every record is
    examined on its own, no two share an identity and a sequence, and every item
    has one terminal record; the result lists, by work, the records of each item in
    their order. *)
From S2P Require Export Prelude PyDict PyVal Json ControlTypes ControlProcess ProcessEnvelope ProcessPlan ProcessRecords ProcessValidate ProcessRun.
Import Process Plan Records Validate Run.

(** ** The declarative reading *)

(** What one valid record says: its item, its sequence, and whether it is terminal. *)
Record RecordFinding := {
  fi_identity : string * string;
  fi_sequence : Z;
  fi_terminal : bool;
}.

Section reading.
Context (version : result string) (envelope : VerifiedEnvelope) (plan : ExecutionPlan).

(** The record is well formed and repeats what the envelope and the plan say of
    [item]. *)
Definition describes (r : Dict) (item : EnvelopeItem) (planned : PlannedItem) : Prop :=
  ∃ checks, staged_checks version envelope plan item planned = Ok checks ∧
    ∀ name v, (name, v) ∈ checks → py_eqb (dict_get name r) v = true.

Definition examined (r : Dict) (f : RecordFinding) : Prop :=
  ∃ record_type payload digest item planned,
    _validate_staged_record_schema r = Ok (record_type, fi_sequence f, payload) ∧
    _text (dict_get "work_id" r) = Ok (fi_identity f).1 ∧
    _text (dict_get "attempt_id" r) = Ok (fi_identity f).2 ∧
    expected_items envelope !! fi_identity f = Some item ∧
    planned_items plan !! fi_identity f = Some planned ∧
    describes r item planned ∧
    _sha256 (VDict payload) = Ok digest ∧
    py_eqb (dict_get "record_payload_sha256" r) (VStr digest) = true ∧
    fi_terminal f = bool_decide (record_type ∈ TERMINAL_TYPES).

(** The records whose finding names [id], in order. *)
Definition records_of (id : string * string) (l : list (Dict * RecordFinding)) : list Dict :=
  (List.filter (λ rf, bool_decide (fi_identity rf.2 = id)) l).*1.
Definition terminals_of (id : string * string) (l : list (Dict * RecordFinding)) : list (Dict * RecordFinding) :=
  List.filter (λ rf, bool_decide (fi_identity rf.2 = id) && fi_terminal rf.2) l.

Definition logical_key (f : RecordFinding) : string * string * Z := (fi_identity f, fi_sequence f).

(** ** One iteration *)

(** Run a statement whose outcome is known. *)
Ltac res_run H := apply result_bind_Ok; eexists; split; [exact H|]; cbv beta iota zeta.
Ltac res_require := apply result_bind_Ok; exists tt; split; [apply require_Ok|]; cbv beta iota zeta.

Lemma item_Ok name r v : dict_lookup name r = Some v → record_item name r = Ok v.
Proof. unfold record_item. by intros ->. Qed.

Lemma record_item_get name r v : record_item name r = Ok v → dict_get name r = v.
Proof. unfold record_item, dict_get. destruct (dict_lookup name r); [by intros [= ->]|done]. Qed.

(** The schema already ties the status to the type. *)
Lemma schema_status r t seq payload :
  _validate_staged_record_schema r = Ok (t, seq, payload) →
  Bool.eqb (bool_decide (t = "error"%string)) (py_eqb (dict_get "status" r) (VStr "FAILED")) = true.
Proof.
  intros H. unfold _validate_staged_record_schema in H. res_inv H. simplify_eq.
  rename select (_validate_staged_record_semantics _ _ = Ok _) into S.
  unfold _validate_staged_record_semantics in S.
  apply result_bind_Ok in S as (u1&_&S). apply result_bind_Ok in S as (st&Hst&S).
  apply result_bind_Ok in S as (u2&Heq&_). apply require_Ok in Heq.
  apply record_item_get in Hst as ->.
  case_bool_decide as E; [by rewrite Heq|]. simpl.
  destruct st as [| | |f|s| |]; try done. simpl in *. by apply String.eqb_eq in Heq as ->.
Qed.

Lemma check_record_Ok ck r ck' :
  check_record version envelope plan (expected_items envelope) (planned_items plan) ck r = Ok ck' ↔
  ∃ f, examined r f ∧ (logical_key f ∉ ck_logical ck) ∧
    ck' = {| ck_groups := alter (λ l, l ++ [r]) (fi_identity f) (ck_groups ck);
             ck_logical := {[ logical_key f ]} ∪ ck_logical ck;
             ck_terminal := if fi_terminal f then alter Z.succ (fi_identity f) (ck_terminal ck)
                            else ck_terminal ck |}.
Proof.
  unfold check_record. split.
  - intros H. apply result_bind_Ok in H as ([[t seq] payload]&Hs&H).
    apply result_bind_Ok in H as (w&Hw&H). apply result_bind_Ok in H as (a&Ha&H).
    destruct (expected_items envelope !! (w, a)) as [item|] eqn:Hi; [|done].
    destruct (planned_items plan !! (w, a)) as [planned|] eqn:Hp; [|done].
    apply result_bind_Ok in H as (u1&Hn%require_Ok&H). apply result_bind_Ok in H as (checks&Hc&H).
    apply result_bind_Ok in H as (u2&Hall%require_Ok&H). apply result_bind_Ok in H as (digest&Hd&H).
    apply result_bind_Ok in H as (u3&Hpd%require_Ok&H). apply result_bind_Ok in H as (u4&_&[= <-]).
    apply bool_decide_eq_true in Hn.
    exists {| fi_identity := (w, a); fi_sequence := seq; fi_terminal := bool_decide (t ∈ TERMINAL_TYPES) |}.
    split; [|by split]. exists t, payload, digest, item, planned. split_and!; try done.
    exists checks. split; [done|]. intros name v Hin%list_elem_of_In.
    rewrite forallb_forall in Hall. by apply (Hall (name, v)).
  - intros ([[w a] seq tm] & (t&payload&digest&item&planned&Hs&Hw&Ha&Hi&Hp&(checks&Hc&Hall)&Hd&Hpd&Et)&Hn&->).
    cbn [fi_identity fi_sequence fi_terminal fst snd] in *.
    res_run Hs. res_run Hw. res_run Ha. rewrite Hi, Hp.
    res_require; [by apply bool_decide_eq_true_2|]. res_run Hc. res_require.
    { apply forallb_forall. intros [name v] Hin%list_elem_of_In. by apply Hall. }
    res_run Hd. res_require; [done|]. res_require; [by rewrite (schema_status _ _ _ _ Hs), orb_true_r|].
    by rewrite Et.
Qed.

(** ** The loop *)

Record checked (done : list (Dict * RecordFinding)) (ck : Checked) : Prop := {
  ch_groups : ∀ id, is_Some (expected_items envelope !! id) →
    ck_groups ck !! id = Some (records_of id done);
  ch_logical : ∀ k, k ∈ ck_logical ck ↔ k ∈ logical_key <$> done.*2;
  ch_terminal : ∀ id n, ck_terminal ck !! id = Some n ↔
    is_Some (expected_items envelope !! id) ∧ n = Z.of_nat (length (terminals_of id done));
  ch_examined : Forall (λ rf, examined rf.1 rf.2) done;
  ch_nodup : NoDup (logical_key <$> done.*2);
}.

Lemma records_of_snoc id l rf :
  records_of id (l ++ [rf]) =
    records_of id l ++ (if decide (fi_identity rf.2 = id) then [rf.1] else []).
Proof.
  unfold records_of. rewrite List.filter_app, fmap_app. simpl.
  case_bool_decide; case_decide; try done; by rewrite app_nil_r.
Qed.

Lemma terminals_of_snoc id l rf :
  terminals_of id (l ++ [rf]) =
    terminals_of id l ++ (if bool_decide (fi_identity rf.2 = id) && fi_terminal rf.2 then [rf] else []).
Proof. unfold terminals_of. rewrite List.filter_app. simpl. by destruct (_ && _). Qed.

Lemma checked_step done ck r f :
  checked done ck → examined r f → logical_key f ∉ ck_logical ck →
  checked (done ++ [(r, f)])
    {| ck_groups := alter (λ l, l ++ [r]) (fi_identity f) (ck_groups ck);
       ck_logical := {[ logical_key f ]} ∪ ck_logical ck;
       ck_terminal := if fi_terminal f then alter Z.succ (fi_identity f) (ck_terminal ck)
                      else ck_terminal ck |}.
Proof.
  intros [G L T X N] Hx Hn. split; simpl.
  - intros id Hid. rewrite records_of_snoc. simpl. destruct (decide (fi_identity f = id)) as [<-|Hne].
    + by rewrite lookup_alter_eq, G.
    + by rewrite lookup_alter_ne, G, app_nil_r.
  - intros k. rewrite elem_of_union, elem_of_singleton, L, !fmap_app, elem_of_app. simpl.
    rewrite list_elem_of_singleton. tauto.
  - intros id n. rewrite terminals_of_snoc. simpl.
    destruct (fi_terminal f); [|by rewrite andb_false_r, app_nil_r].
    rewrite andb_true_r. case_bool_decide as E.
    + subst id. rewrite lookup_alter_eq, length_app. simpl. destruct (ck_terminal ck !! fi_identity f) as [m|] eqn:Em.
      * apply T in Em as [? ->]. simpl. split; [intros [= <-]; split; [done|lia]|intros [_ ->]; f_equal; lia].
      * split; [done|]. intros [Hs ->]. exfalso.
        assert (ck_terminal ck !! fi_identity f = Some (Z.of_nat (length (terminals_of (fi_identity f) done)))) as E
          by by apply T. congruence.
    + by rewrite lookup_alter_ne, app_nil_r.
  - by apply Forall_app_2; [|constructor].
  - rewrite !fmap_app. simpl. apply NoDup_app. split; [done|]. split; [|apply NoDup_singleton].
    intros k Hk ->%list_elem_of_singleton. apply Hn. by apply L.
Qed.

Lemma check_records_Ok l done ck ck' :
  checked done ck →
  check_records version envelope plan (expected_items envelope) (planned_items plan) ck l = Ok ck' →
  ∃ fs, length fs = length l ∧ checked (done ++ zip l fs) ck'.
Proof.
  revert done ck. induction l as [|r l IH]; intros done ck C H; simpl in H.
  - injection H as <-. exists []. by rewrite app_nil_r.
  - apply result_bind_Ok in H as (ck1&H1&H2). apply check_record_Ok in H1 as (f&Hx&Hn&->).
    destruct (IH (done ++ [(r, f)]) _ (checked_step _ _ _ _ C Hx Hn) H2) as (fs&Hl&C').
    exists (f :: fs). simpl. rewrite Hl. split; [done|]. by rewrite <-app_assoc in C'.
Qed.

Lemma check_records_run l fs done ck :
  checked done ck → Forall2 examined l fs → NoDup (logical_key <$> done.*2 ++ fs) →
  ∃ ck', check_records version envelope plan (expected_items envelope) (planned_items plan) ck l = Ok ck' ∧
    checked (done ++ zip l fs) ck'.
Proof.
  intros C H. revert done ck C. induction H as [|r f l fs Hx H IH]; intros done ck C Hn.
  - exists ck. by rewrite app_nil_r.
  - assert (Hf : logical_key f ∉ ck_logical ck).
    { rewrite (ch_logical _ _ C). rewrite fmap_app in Hn. apply NoDup_app in Hn as (_&Hd&_).
      intros Hk. apply (Hd _ Hk). left. }
    pose proof (checked_step _ _ _ _ C Hx Hf) as C'.
    destruct (IH _ _ C') as (ck'&Hrun&C2).
    { rewrite (fmap_app snd). simpl. by rewrite <-app_assoc. }
    exists ck'. simpl. rewrite <-app_assoc in C2. split; [|done].
    apply result_bind_Ok. eexists. split; [|exact Hrun]. apply check_record_Ok. by exists f.
Qed.

Lemma checked_start :
  checked [] {| ck_groups := (λ _, []) <$> expected_items envelope; ck_logical := ∅;
                ck_terminal := (λ _, 0%Z) <$> expected_items envelope |}.
Proof.
  split; simpl; try by constructor.
  - intros id [i Hi]. by rewrite lookup_fmap, Hi.
  - intros k. split; [set_solver|by intros ?%elem_of_nil].
  - intros id n. rewrite lookup_fmap, fmap_Some. split.
    + intros (i&Hi&->). eauto.
    + intros [[i Hi] ->]. eauto.
Qed.

(** ** The expected items *)

Lemma map_of_lookup {K A} `{Countable K} (l : list (K * A)) k :
  NoDup l.*1 → ∀ a, map_of l !! k = Some a ↔ (k, a) ∈ l.
Proof.
  unfold map_of. intros Hn a. assert (∀ m : gmap K A, (∀ j, j ∈ l.*1 → m !! j = None) →
    fold_left (λ m kv, <[kv.1 := kv.2]> m) l m !! k = Some a ↔ m !! k = Some a ∨ (k, a) ∈ l) as Hgen.
  { induction l as [|[j x] l IH]; intros m Hm; simpl; [set_solver|].
    simpl in Hn. apply NoDup_cons in Hn as [Hj Hn]. rewrite IH; [|done|].
    - rewrite lookup_insert. destruct (decide (j = k)) as [->|Hne]; rewrite elem_of_cons.
      + rewrite (Hm k) by (csimpl; left). assert ((k, a) ∉ l).
        { intros Hin. apply Hj. by apply (list_elem_of_fmap_2 fst) in Hin. }
        naive_solver.
      + naive_solver.
    - intros i Hi. rewrite lookup_insert_ne by (intros ->; done). apply Hm. csimpl. by right. }
  rewrite Hgen; [rewrite lookup_empty; naive_solver|]. intros. apply lookup_empty.
Qed.

Lemma expected_lookup id item :
  NoDup (item_identity <$> v_items envelope) →
  expected_items envelope !! id = Some item ↔ item ∈ v_items envelope ∧ item_identity item = id.
Proof.
  intros Hn. unfold expected_items. rewrite map_of_lookup.
  - rewrite list_elem_of_fmap. split.
    + intros (i&[= -> ->]&?). done.
    + intros [? <-]. eauto.
  - by rewrite <-list_fmap_compose.
Qed.

(** ** Grouping by work *)

Lemma dset_all_other {A} k (ps : list (string * A)) d :
  k ∉ ps.*1 → dget k (fold_left (λ d kv, dset kv.1 kv.2 d) ps d) = dget k d.
Proof.
  revert d. induction ps as [|[j x] ps IH]; intros d Hk; [done|]. csimpl in Hk. simpl.
  rewrite IH by set_solver. apply dget_dset_ne. set_solver.
Qed.

Lemma dset_all_get {A} k (a : A) (ps : list (string * A)) d :
  NoDup ps.*1 → (k, a) ∈ ps → dget k (fold_left (λ d kv, dset kv.1 kv.2 d) ps d) = Some a.
Proof.
  revert d. induction ps as [|[j x] ps IH]; intros d Hn Hp; [by apply elem_of_nil in Hp|].
  csimpl in Hn. apply NoDup_cons in Hn as [Hj Hn]. simpl.
  apply elem_of_cons in Hp as [[= -> ->]|Hp]; [|by apply IH].
  rewrite dset_all_other by done. apply dget_dset_eq.
Qed.

Lemma grouped_by_work_lookup (groups : gmap (string * string) (list Dict)) items g item :
  NoDup (i_work_id <$> items) → grouped_by_work groups items = Ok g → item ∈ items →
  ∃ l, groups !! item_identity item = Some l ∧ dget (i_work_id item) g = Some l.
Proof.
  intros Hn H Hin. unfold grouped_by_work in H. apply result_bind_Ok in H as (ps&Hps&[= <-]).
  apply map_result_Ok in Hps.
  assert (Ek : ps.*1 = i_work_id <$> items).
  { clear -Hps. induction Hps as [|i p items ps Hp _ IH]; [done|]. csimpl. rewrite IH.
    destruct (groups !! _); simplify_eq. done. }
  apply list_elem_of_lookup in Hin as [j Hj]. destruct (Forall2_lookup_l _ _ _ _ _ Hps Hj) as (p&Hp&E).
  destruct (groups !! item_identity item) as [l|]; simplify_eq. exists l. split; [done|].
  apply list_elem_of_lookup_2 in Hp. rewrite <-Ek in Hn. by apply dset_all_get.
Qed.

Lemma grouped_by_work_run (groups : gmap (string * string) (list Dict)) items :
  (∀ i, i ∈ items → is_Some (groups !! item_identity i)) → ∃ g, grouped_by_work groups items = Ok g.
Proof.
  intros H. assert (∃ ps, map_result (λ i, match groups !! item_identity i with
    | Some l => Ok (i_work_id i, l) | None => Err KeyError end) items = Ok ps) as [ps Hps].
  { induction items as [|i items IH]; simpl; [by eexists|].
    destruct (H i) as [l ->]; [left|]. destruct IH as [ps ->]; [intros; apply H; by right|]. by eexists. }
  eexists. unfold grouped_by_work. by rewrite Hps.
Qed.

(** ** Validation *)

(** Every record is examined, none repeats a sequence of its item, and every item
    has one terminal record. *)
Definition complete_records (l : list (Dict * RecordFinding)) : Prop :=
  Forall (λ rf, examined rf.1 rf.2) l ∧
  NoDup (logical_key <$> l.*2) ∧
  ∀ item, item ∈ v_items envelope → length (terminals_of (item_identity item) l) = 1%nat.

Lemma validate_Ok records g :
  NoDup (item_identity <$> v_items envelope) →
  validate_staged_records version records envelope plan = Ok g →
  ∃ fs, length fs = length records ∧ complete_records (zip records fs) ∧
    (NoDup (i_work_id <$> v_items envelope) → ∀ item, item ∈ v_items envelope →
       dget (i_work_id item) g = Some (records_of (item_identity item) (zip records fs))).
Proof.
  intros Hn H. unfold validate_staged_records in H. cbv zeta in H.
  apply result_bind_Ok in H as (ck&Hck&H). apply result_bind_Ok in H as (u&Ht%require_Ok&Hg).
  apply (check_records_Ok _ [] _ _ checked_start) in Hck as (fs&Hl&C). simpl in C.
  exists fs. split; [done|]. split.
  - split; [apply C|]. split; [apply C|]. intros item Hi.
    assert (ck_terminal ck !! item_identity item
      = Some (Z.of_nat (length (terminals_of (item_identity item) (zip records fs))))) as E.
    { apply C. split; [|done]. exists item. by apply expected_lookup. }
    pose proof (forallb_forall (λ kv : (string * string) * Z, (kv.2 =? 1)%Z) (map_to_list (ck_terminal ck))) as [Hf _].
    specialize (Hf Ht (item_identity item, _) (proj1 (list_elem_of_In _ _) (proj2 (elem_of_map_to_list _ _ _) E))).
    apply Z.eqb_eq in Hf. simpl in Hf. lia.
  - intros Hw item Hi. destruct (grouped_by_work_lookup _ _ _ _ Hw Hg Hi) as (l&Hl'&E).
    rewrite E. f_equal. rewrite (ch_groups _ _ C) in Hl'; [congruence|].
    exists item. by apply expected_lookup.
Qed.

Lemma validate_run records fs :
  NoDup (item_identity <$> v_items envelope) →
  length fs = length records → complete_records (zip records fs) →
  ∃ g, validate_staged_records version records envelope plan = Ok g.
Proof.
  intros Hn Hl (Hx&Hd&Ht). unfold validate_staged_records. cbv zeta.
  destruct (check_records_run records fs [] _ checked_start) as (ck&Hck&C).
  { apply Forall2_lookup. intros i. destruct (records !! i) as [r|] eqn:Er.
    - destruct (lookup_lt_is_Some_2 fs i) as [f Ef]; [rewrite Hl; by eapply lookup_lt_Some|].
      rewrite Ef. constructor. rewrite Forall_lookup in Hx. apply (Hx i (r, f)).
      apply lookup_zip_Some. done.
    - rewrite (proj2 (lookup_ge_None fs i)); [constructor|]. rewrite Hl. by apply lookup_ge_None. }
  { simpl. by rewrite snd_zip in Hd by lia. }
  simpl in C. destruct (grouped_by_work_run (ck_groups ck) (v_items envelope)) as [g Hg].
  { intros i Hi. rewrite (ch_groups _ _ C); [by eexists|]. exists i. by apply expected_lookup. }
  exists g. res_run Hck. res_require; [|exact Hg].
  apply forallb_forall. intros [id n] Hin%list_elem_of_In%elem_of_map_to_list. simpl.
  apply (ch_terminal _ _ C) in Hin as [[item Hi] ->]. apply expected_lookup in Hi as [Hi <-]; [|done].
  by rewrite Ht.
Qed.

(** ** In terms of the records alone *)

(** The record carries the identity of the item. *)
Definition of_item (item : EnvelopeItem) (r : Dict) : bool :=
  match dict_get "work_id" r, dict_get "attempt_id" r with
  | VStr w, VStr a => bool_decide ((w, a) = item_identity item)
  | _, _ => false
  end.

Lemma process_text_Ok v t : _text v = Ok t → v = VStr t ∧ is_blank t = false.
Proof. unfold _text. destruct v; try done. destruct (is_blank s) eqn:E; [done|]. by intros [= <-]. Qed.

Lemma examined_of_item r f item :
  examined r f → of_item item r = bool_decide (fi_identity f = item_identity item).
Proof.
  intros (t&payload&digest&i&p&_&[Hw _]%process_text_Ok&[Ha _]%process_text_Ok&_).
  unfold of_item. rewrite Hw, Ha. by destruct (fi_identity f).
Qed.

(** A successful check of one column. *)
Lemma for_each_elem {A} (f : A → result unit) l x : for_each f l = Ok tt → x ∈ l → f x = Ok tt.
Proof.
  induction l as [|y l IH]; intros H Hx; [by apply elem_of_nil in Hx|].
  simpl in H. apply result_bind_Ok in H as ([]&Hy&H). apply elem_of_cons in Hx as [->|]; auto.
Qed.

Lemma schema_field r t seq payload name :
  _validate_staged_record_schema r = Ok (t, seq, payload) → name ∈ text_fields →
  ∃ s, dict_get name r = VStr s ∧ is_blank s = false.
Proof.
  intros H Hin. unfold _validate_staged_record_schema in H.
  apply result_bind_Ok in H as ([]&H&_). apply (for_each_elem _ _ name) in H; [|done].
  unfold check_field, _required_staged_value in H. unfold dict_get.
  destruct (dict_lookup name r) as [v|]; [|done]. simpl in *. unfold _text in H.
  destruct v; try done. destruct (is_blank s) eqn:E; [done|]. eauto.
Qed.

Lemma schema_type r t seq payload :
  _validate_staged_record_schema r = Ok (t, seq, payload) →
  dict_get "record_type" r = VStr t ∧ t ∈ RECORD_TYPES ∧ dict_get "record_sequence" r = VInt seq ∧
  (0 ≤ seq)%Z.
Proof.
  intros H. unfold _validate_staged_record_schema in H. res_inv H. simplify_eq.
  repeat match goal with E : record_item _ _ = Ok _ |- _ => apply record_item_get in E end.
  rename select (_text _ = Ok t) into E. rename select (_nonnegative_int _ = Ok _) into Eq.
  rename select (_validate_staged_record_semantics _ _ = Ok _) into S.
  unfold _validate_staged_record_semantics in S. apply result_bind_Ok in S as (u&S%require_Ok&_).
  apply bool_decide_eq_true in S. unfold _text in E. unfold _nonnegative_int in Eq.
  repeat match goal with E : dict_get _ r = _ |- _ => rewrite E; clear E end.
  repeat case_match; simplify_eq. split_and!; try done. by apply Z.ltb_ge.
Qed.

Lemma examined_terminal r f : examined r f → is_terminal r = fi_terminal f.
Proof.
  intros (t&payload&digest&i&p&Hs&_&_&_&_&_&_&_&->). apply schema_type in Hs as (Ht&_).
  unfold is_terminal, TERMINAL_TYPES. rewrite Ht. simpl. rewrite orb_false_r.
  case_bool_decide as E.
  - apply orb_true_iff. rewrite !String.eqb_eq. set_solver.
  - apply orb_false_iff. rewrite !String.eqb_neq. set_solver.
Qed.

Lemma examined_lists l fs item :
  length fs = length l → Forall (λ rf, examined rf.1 rf.2) (zip l fs) →
  records_of (item_identity item) (zip l fs) = List.filter (of_item item) l ∧
  length (terminals_of (item_identity item) (zip l fs))
    = length (List.filter is_terminal (List.filter (of_item item) l)).
Proof.
  revert fs. induction l as [|r l IH]; intros [|f fs] Hl H; try discriminate Hl; [done|].
  cbn [zip zip_with] in *. apply Forall_cons in H as [Hx H]. destruct (IH fs) as [E1 E2]; [by injection Hl|done|].
  unfold records_of, terminals_of in *. cbn [List.filter fst snd] in *.
  rewrite (examined_of_item _ _ item Hx). simpl in Hx. pose proof (examined_terminal _ _ Hx) as Et.
  case_bool_decide; cbn [andb List.filter]; [|by rewrite E1, E2].
  rewrite Et. csimpl. rewrite E1. split; [done|]. destruct (fi_terminal f); simpl; by rewrite E2.
Qed.

(** Validation accepts exactly the complete sets of records; the groups it returns
    are the records of each item in order, with one terminal record each. *)
Definition well_grouped (records : list Dict) (g : list (string * list Dict)) : Prop :=
  ∀ item, item ∈ v_items envelope →
    dget (i_work_id item) g = Some (List.filter (of_item item) records) ∧
    length (List.filter is_terminal (List.filter (of_item item) records)) = 1%nat.

Lemma validate_groups records g :
  NoDup (i_work_id <$> v_items envelope) →
  validate_staged_records version records envelope plan = Ok g → well_grouped records g.
Proof.
  intros Hw H item Hi.
  assert (Hn : NoDup (item_identity <$> v_items envelope)).
  { apply (NoDup_fmap_1 fst). by rewrite <-list_fmap_compose. }
  destruct (validate_Ok _ _ Hn H) as (fs&Hl&(Hx&_&Ht)&Hg).
  destruct (examined_lists _ _ item Hl Hx) as [E1 E2]. rewrite <-E1. split; [by apply Hg|].
  rewrite E1, <-E2. by apply Ht.
Qed.
End reading.
