(* ===== verification/ProcessExecutorFacts.v ===== *)
(** * Facts about executor rows and records

    Texts that are stripped or joined, merged dicts, and the shape of the records
    that [execute_sjd_partition] emits for one row. *)
From S2P Require Export Prelude PyFloat PyDict PyVal Json Sha256 LocalStorage JsonTheorems ControlTypes ControlProcess PyNum CpuRuntime ProcessEnvelope ProcessEnvelopeTheorems ProcessPlan ProcessPlanTheorems ProcessRecords ProcessRecordsTheorems ProcessValidate ProcessExecutor ProcessRun ProcessValidateTheorems.
Import Cpu Process Plan Records Validate Executor.

(** ** Texts *)

Lemma codes_app a b : codes_of_str (a +:+ b) = codes_of_str a ++ codes_of_str b.
Proof.
  induction a as [|c a IH]; [done|].
  change (code c :: codes_of_str (a +:+ b) = code c :: (codes_of_str a ++ codes_of_str b)). by rewrite IH.
Qed.

Lemma drop_space_nil l : drop_space l = [] ↔ forallb is_space l = true.
Proof.
  induction l as [|z l IH]; simpl; [done|]. destruct (is_space z); simpl; [done|]. by split.
Qed.

Lemma drop_space_head l z l' : drop_space l = z :: l' → is_space z = false.
Proof.
  induction l as [|y l IH]; simpl; [done|]. destruct (is_space y) eqn:E; [done|]. by intros [= <- _].
Qed.

Lemma drop_space_suffix l : ∃ p, l = p ++ drop_space l.
Proof.
  induction l as [|z l [p IH]]; [by exists []|]. simpl. destruct (is_space z); [|by exists []].
  exists (z :: p). simpl. by rewrite <-IH.
Qed.

(** The codes of a stripped text. *)
Definition strip_codes (l : list Z) : list Z := rev (drop_space (rev (drop_space l))).

Lemma strip_codes_sub l : ∃ p q, l = p ++ strip_codes l ++ q.
Proof.
  destruct (drop_space_suffix l) as [p E]. destruct (drop_space_suffix (rev (drop_space l))) as [q E'].
  exists p, (rev q). unfold strip_codes. rewrite <-rev_app_distr, <-E', rev_involutive. done.
Qed.

Lemma codes_strip s : codes_of_str (str_strip s) = strip_codes (codes_of_str s).
Proof.
  unfold str_strip. apply codes_of_codes. change (rev _) with (strip_codes (codes_of_str s)).
  pose proof (code_latin1 s) as H. destruct (strip_codes_sub (codes_of_str s)) as (p&q&E).
  rewrite E in H. apply Forall_app in H as [_ H]. by apply Forall_app in H as [H _].
Qed.

Lemma strip_codes_nil l : strip_codes l = [] ↔ forallb is_space l = true.
Proof.
  unfold strip_codes. split.
  - intros H. apply (f_equal (@rev Z)) in H. rewrite rev_involutive in H. simpl in H.
    apply drop_space_nil in H. destruct (drop_space_suffix l) as [p E].
    destruct (drop_space l) as [|z l'] eqn:Ed; [by apply drop_space_nil|].
    apply drop_space_head in Ed. exfalso. rewrite forallb_forall in H.
    rewrite H in Ed; [done|]. apply in_rev. rewrite rev_involutive. by left.
  - intros H. apply drop_space_nil in H. by rewrite H.
Qed.

Lemma strip_codes_idem l : strip_codes (strip_codes l) = strip_codes l.
Proof.
  assert (∀ l z l', drop_space l = z :: l' → drop_space (drop_space l) = drop_space l) as Hd.
  { intros k z l' E. rewrite E. simpl. by rewrite (drop_space_head _ _ _ E). }
  assert (∀ l, drop_space (drop_space l) = drop_space l) as Hdd.
  { intros k. destruct (drop_space k) eqn:E; [done|]. rewrite <-E. by eapply Hd. }
  unfold strip_codes. set (a := drop_space l). set (b := drop_space (rev a)).
  assert (E : drop_space (rev b) = rev b).
  { destruct (rev b) as [|z r] eqn:Eb; [done|]. simpl.
    destruct (drop_space_suffix (rev a)) as [p Ep]. fold b in Ep.
    apply (f_equal (@rev Z)) in Ep. rewrite rev_involutive, rev_app_distr, Eb in Ep.
    destruct a as [|y a'] eqn:Ea; [done|]. simpl in Ep. injection Ep as -> _.
    unfold a in Ea. by rewrite (drop_space_head _ _ _ Ea). }
  rewrite E, rev_involutive. unfold b. by rewrite Hdd.
Qed.

Lemma blank_codes s : is_blank s = forallb is_space (codes_of_str s).
Proof.
  unfold is_blank. destruct (forallb is_space (codes_of_str s)) eqn:E.
  - apply String.eqb_eq. apply strip_codes_nil in E. rewrite <-codes_strip in E.
    rewrite <-(str_of_codes_of_str (str_strip s)), E. done.
  - apply String.eqb_neq. intros H. apply (f_equal codes_of_str) in H. rewrite codes_strip in H.
    apply strip_codes_nil in H. congruence.
Qed.

Lemma strip_idem s : str_strip (str_strip s) = str_strip s.
Proof.
  rewrite <-(str_of_codes_of_str (str_strip (str_strip s))), !codes_strip, strip_codes_idem, <-codes_strip.
  apply str_of_codes_of_str.
Qed.

Lemma blank_strip s : is_blank (str_strip s) = is_blank s.
Proof. unfold is_blank. by rewrite strip_idem. Qed.

Lemma blank_app a b : is_blank (a +:+ b) = is_blank a && is_blank b.
Proof. by rewrite !blank_codes, codes_app, forallb_app. Qed.

Lemma concat_not_blank sep s l : is_blank s = false → is_blank (String.concat sep (s :: l)) = false.
Proof. intros H. destruct l; simpl; [done|]. by rewrite blank_app, H. Qed.

(** ** Merged dicts *)

Lemma Forall_pairs {A B} (P : A → B → Prop) (l : list (A * B)) :
  Forall (λ ab, P ab.1 ab.2) l → ∀ a b, (a, b) ∈ l → P a b.
Proof. rewrite Forall_forall. intros H a b Hab. by apply (H (a, b)). Qed.

Lemma lookup_dict_put k j (v : pyval) d :
  dict_lookup j (dict_put k v d) = if String.eqb j k then Some v else dict_lookup j d.
Proof.
  induction d as [|[i x] d IH]; simpl.
  - by destruct (String.eqb j k).
  - destruct (String.eqb_spec k i) as [->|Hne]; simpl; [by destruct (String.eqb j i)|].
    rewrite IH. destruct (String.eqb_spec j i) as [->|]; [|done].
    by rewrite (proj2 (String.eqb_neq i k)) by done.
Qed.

Lemma lookup_single k j (v : pyval) : dict_lookup k [(j, v)] = if String.eqb k j then Some v else None.
Proof. reflexivity. Qed.

Lemma lookup_merge j d updates :
  NoDup updates.*1 →
  dict_lookup j (merge d updates) = match dict_lookup j updates with Some v => Some v | None => dict_lookup j d end.
Proof.
  unfold merge. revert d. induction updates as [|[k v] updates IH]; intros d Hn; simpl; [done|].
  csimpl in Hn. apply NoDup_cons in Hn as [Hk Hn]. rewrite IH by done. rewrite lookup_dict_put.
  destruct (String.eqb_spec j k) as [->|]; [|done].
  assert (dict_lookup k updates = None) as ->; [|done].
  destruct (dict_lookup k updates) as [x|] eqn:E; [|done]. exfalso. apply Hk.
  apply dict_lookup_elem in E; [|done]. by apply (list_elem_of_fmap_2 fst) in E.
Qed.

(** ** The row of a planned item *)

Section row.
Context (env : VerifiedEnvelope) (c : ConcurrencyDecision) (profile : ExecutionProfile) (mode : string).
Context (attempt model version : string) (task : Dict) (p : PlannedItem).

Definition row_updates : Dict :=
  [("work_id", VStr (i_work_id (pi_item p)));
   ("attempt_id", VStr (i_attempt_id (pi_item p)));
   ("batch_id", VStr (v_batch_id env));
   ("process_attempt_id", VStr attempt);
   ("envelope_sha256", VStr (v_envelope_sha256 env));
   ("manifest_sha256", VStr (v_envelope_sha256 env));
   ("membership_sha256", VStr (v_membership_sha256 env));
   ("fence", VInt (i_fence (pi_item p)));
   ("input_payload_sha256", VStr (i_payload_sha256 (pi_item p)));
   ("config_sha256", VStr (i_config_sha256 (pi_item p)));
   ("model_identity", VStr model);
   ("release_digest", VStr (i_release_digest (pi_item p)));
   ("package_version", VStr version);
   ("runtime_key", VStr (i_runtime_key (pi_item p)));
   ("duration_seconds", VFloat (i_duration_seconds (pi_item p)));
   ("planned_cost_seconds", VFloat (pi_planned_cost_seconds p));
   ("planned_concurrency", VInt (cd_concurrency c));
   ("peak_rss_bytes", opt_int (cd_peak_rss_bytes c));
   ("duration_only_fallback", VBool (cd_duration_only_fallback c));
   ("bucket_id", VInt (pi_bucket_id p));
   ("wave_index", VInt (pi_wave_index p));
   ("physical_partition", VInt (pi_physical_partition p));
   ("physical_partition_id", VInt (pi_physical_partition p));
   ("executor_cores", VInt (ep_executor_cores profile));
   ("task_cpus", VInt (ep_task_cpus profile));
   ("mode", VStr mode)]%string.

Definition planned_row : Dict :=
  merge (merge (i_payload (pi_item p)) row_updates) [("_task_identity", VDict task)]%string.

Lemma row_lookup k : dict_lookup k planned_row =
  if String.eqb k "_task_identity" then Some (VDict task)
  else match dict_lookup k row_updates with Some v => Some v | None => dict_lookup k (i_payload (pi_item p)) end.
Proof.
  unfold planned_row. rewrite lookup_merge by apply NoDup_singleton. rewrite lookup_single.
  destruct (String.eqb k "_task_identity"); [reflexivity|]. apply lookup_merge.
  apply (bool_decide_unpack _). vm_compute. exact I.
Qed.

Lemma row_get k v :
  String.eqb k "_task_identity" = false → dict_lookup k row_updates = Some v → dict_get k planned_row = v.
Proof. intros Hk E. unfold dict_get. by rewrite row_lookup, Hk, E. Qed.

Lemma row_item k v :
  String.eqb k "_task_identity" = false → dict_lookup k row_updates = Some v →
  record_item k planned_row = Ok v.
Proof. intros Hk E. unfold record_item. by rewrite row_lookup, Hk, E. Qed.

Lemma row_payload k v :
  String.eqb k "_task_identity" = false → dict_lookup k row_updates = None →
  get_or k v planned_row = default v (dict_lookup k (i_payload (pi_item p))).
Proof. intros Hk E. unfold get_or. by rewrite row_lookup, Hk, E. Qed.

(** What the executor stamps on a record of the row. *)
Definition stamp (identity : TaskIdentity) (threads loads hits : Z) (digest : string) (sequence : nat) : Dict :=
  [("batch_id", VStr (v_batch_id env));
   ("process_attempt_id", VStr attempt);
   ("envelope_sha256", VStr (v_envelope_sha256 env));
   ("manifest_sha256", VStr (v_envelope_sha256 env));
   ("membership_sha256", VStr (v_membership_sha256 env));
   ("fence", VInt (i_fence (pi_item p)));
   ("input_payload_sha256", VStr (i_payload_sha256 (pi_item p)));
   ("record_payload_sha256", VStr digest);
   ("config_sha256", VStr (i_config_sha256 (pi_item p)));
   ("model_identity", VStr model);
   ("release_digest", VStr (i_release_digest (pi_item p)));
   ("package_version", VStr version);
   ("runtime_key", VStr (i_runtime_key (pi_item p)));
   ("duration_seconds", VFloat (i_duration_seconds (pi_item p)));
   ("planned_cost_seconds", VFloat (pi_planned_cost_seconds p));
   ("planned_concurrency", VInt (cd_concurrency c));
   ("peak_rss_bytes", opt_int (cd_peak_rss_bytes c));
   ("duration_only_fallback", VBool (cd_duration_only_fallback c));
   ("bucket_id", VInt (pi_bucket_id p));
   ("wave_index", VInt (pi_wave_index p));
   ("physical_partition", VInt (pi_physical_partition p));
   ("physical_partition_id", VInt (pi_physical_partition p));
   ("stage_id", VInt (ti_stage_id identity));
   ("partition_id", VInt (ti_partition_id identity));
   ("task_attempt_id", VInt (ti_task_attempt_id identity));
   ("task_attempt_number", VInt (ti_attempt_number identity));
   ("executor_identity", VStr (ti_executor_identity identity));
   ("executor_host", VStr (ti_executor_host identity));
   ("record_sequence", VInt (Z.of_nat sequence));
   ("detector_batch_size", default (VInt 1) (dict_lookup "batch_size" (i_payload (pi_item p))));
   ("cpu_threads", VInt threads);
   ("runtime_loads", VInt loads);
   ("runtime_cache_hits", VInt hits)]%string.

Lemma executor_fields_row {R K} (_version : result string) identity threads (cache : @RuntimeCache R K) payload n :
  _version = Ok version →
  executor_fields _version planned_row identity threads cache payload n =
    (digest ← _sha256 (VDict payload);
     Ok (stamp identity threads (rc_loads cache) (rc_hits cache) digest n)).
Proof.
  intros Hv. unfold executor_fields. cbn [map_result].
  repeat match goal with
  | |- context [record_item ?k planned_row] => erewrite (row_item k) by reflexivity
  end.
  cbn [mbind result_bind]. destruct (_sha256 (VDict payload)); [|done]. cbn [mbind result_bind].
  rewrite Hv. cbn [mbind result_bind]. rewrite row_payload by reflexivity. reflexivity.
Qed.
End row.

(** ** One record *)

Definition raw_dict (now t w a s st text : string) (d : Details) : Dict :=
  [("record_type", VStr t); ("work_id", VStr w); ("attempt_id", VStr a); ("source_video", VStr s);
   ("status", VStr st); ("payload_json", VStr text); ("error_type", opt_text (dt_error_type d));
   ("error_message", opt_text (dt_error_message d)); ("retryable", opt_val VBool (dt_retryable d));
   ("processed_frames", opt_val VInt (dt_processed_frames d));
   ("processing_seconds", opt_val VFloat (dt_processing_seconds d)); ("emitted_at_utc", VStr now)]%string.

(** The columns that depend on the type. *)
Definition valid_details (t : string) (d : Details) : Prop :=
  (t = "error"%string ∧ ∃ ty msg, d = {| no_details with dt_error_type := Some ty;
     dt_error_message := Some msg; dt_retryable := Some true |} ∧ is_blank ty = false ∧ is_blank msg = false) ∨
  (t = "video_result"%string ∧ ∃ n x, d = {| no_details with dt_processed_frames := Some n;
     dt_processing_seconds := Some x |} ∧ (0 ≤ n)%Z ∧ fisfinite x = true ∧ fltb x fzero = false) ∨
  ((t = "telemetry"%string ∨ t = "line_count"%string) ∧ d = no_details).

Definition status_of (t : string) : string := if bool_decide (t = "error"%string) then "FAILED" else "SUCCEEDED".

Section record.
Context (env : VerifiedEnvelope) (c : ConcurrencyDecision) (attempt model version : string) (p : PlannedItem).
Context (identity : TaskIdentity) (threads loads hits : Z).

(** What makes the stamped columns valid. *)
Record sound_stamp : Prop := {
  so_batch : is_blank (v_batch_id env) = false;
  so_attempt : is_blank attempt = false;
  so_envelope : is_sha256 (v_envelope_sha256 env) = true;
  so_membership : is_sha256 (v_membership_sha256 env) = true;
  so_work : is_blank (i_work_id (pi_item p)) = false;
  so_attempt_id : is_blank (i_attempt_id (pi_item p)) = false;
  so_fence : (1 ≤ i_fence (pi_item p))%Z;
  so_payload : is_sha256 (i_payload_sha256 (pi_item p)) = true;
  so_config : is_blank (i_config_sha256 (pi_item p)) = false;
  so_release : is_blank (i_release_digest (pi_item p)) = false;
  so_runtime : is_blank (i_runtime_key (pi_item p)) = false;
  so_model : is_sha256 model = true;
  so_version : is_blank version = false;
  so_duration : proper_duration (pi_item p);
  so_cost : pi_planned_cost_seconds p = i_duration_seconds (pi_item p);
  so_concurrency : (1 ≤ cd_concurrency c)%Z;
  so_peak : ∀ z, cd_peak_rss_bytes c = Some z → (1 ≤ z)%Z;
  so_bucket : (0 ≤ pi_bucket_id p)%Z;
  so_wave : (0 ≤ pi_wave_index p)%Z;
  so_physical : (0 ≤ pi_physical_partition p)%Z;
  so_partition : ti_partition_id identity = pi_physical_partition p;
  so_task : (0 ≤ ti_stage_id identity ∧ 0 ≤ ti_task_attempt_id identity ∧ 0 ≤ ti_attempt_number identity)%Z;
  so_executor : ∃ name, split_codes 64 (codes_of_str (ti_executor_identity identity))
    = [name; codes_of_str (ti_executor_host identity)] ∧ name ≠ [];
  so_identity : is_blank (ti_executor_identity identity) = false;
  so_host : is_blank (ti_executor_host identity) = false;
  so_size : detector_batch_size (default (VInt 1) (dict_lookup "batch_size" (i_payload (pi_item p)))) = true;
  so_threads : (1 ≤ threads)%Z;
  so_loads : (0 ≤ loads ∧ 0 ≤ hits)%Z;
}.

Context (S : sound_stamp).
Context (now t s text digest : string) (d : Details) (n : nat) (payload : Dict).
Context (Hnow : is_blank now = false) (Hs : is_blank s = false) (Ht : t ∈ RECORD_TYPES) (Hd : valid_details t d).
Context (Htext : is_blank text = false) (Hload : json_loads_text text = Ok (VDict payload))
  (Hdigest : _sha256 (VDict payload) = Ok digest).

Definition stamped : Dict :=
  merge (raw_dict now t (i_work_id (pi_item p)) (i_attempt_id (pi_item p)) s (status_of t) text d)
    (stamp env c attempt model version p identity threads loads hits digest n).

Lemma stamped_lookup k : dict_lookup k stamped =
  match dict_lookup k (stamp env c attempt model version p identity threads loads hits digest n) with
  | Some v => Some v
  | None => dict_lookup k (raw_dict now t (i_work_id (pi_item p)) (i_attempt_id (pi_item p)) s (status_of t) text d)
  end.
Proof. apply lookup_merge. apply (bool_decide_unpack _). vm_compute. exact I. Qed.

Lemma check_field_run {A} (v : pyval → result A) r name x y :
  dict_lookup name r = Some x → v x = Ok y → check_field v r name = Ok tt.
Proof. intros E H. unfold check_field, _required_staged_value. rewrite E. cbn [mbind result_bind]. by rewrite H. Qed.

Lemma for_each_run {A} (f : A → result unit) l : Forall (λ x, f x = Ok tt) l → for_each f l = Ok tt.
Proof. induction 1 as [|x l Hx _ IH]; simpl; [done|]. by rewrite Hx. Qed.

Lemma positive_int_run z : (1 ≤ z)%Z → _positive_int (VInt z) = Ok z.
Proof. intros H. unfold _positive_int. by rewrite (proj2 (Z.ltb_ge z 1)). Qed.
Lemma nonnegative_int_run z : (0 ≤ z)%Z → _nonnegative_int (VInt z) = Ok z.
Proof. intros H. unfold _nonnegative_int. by rewrite (proj2 (Z.ltb_ge z 0)). Qed.
Lemma sha_run x : is_sha256 x = true → _sha_text (VStr x) = Ok x.
Proof. intros H. unfold _sha_text. rewrite text_Ok by by apply is_sha256_not_blank. cbn [mbind result_bind]. by rewrite H. Qed.
Lemma positive_float_run i : proper_duration i → _positive_float (VFloat (i_duration_seconds i)) = Ok (i_duration_seconds i).
Proof.
  intros [Hf Hp]. unfold _positive_float, _finite. rewrite Hf. cbn [mbind result_bind].
  rewrite fltb_negb_fleb in Hp; [|done|by apply fisfinite_not_nan]. by destruct (fleb _ _).
Qed.

(** Look a column of the record up, then check its value. *)
Ltac column := eapply check_field_run; [rewrite stamped_lookup; reflexivity|].
Ltac columns := apply for_each_run; repeat (apply Forall_cons_2; [column|]); [..|apply Forall_nil_2].

Lemma stamped_item k v : dict_lookup k stamped = Some v → record_item k stamped = Ok v.
Proof. unfold record_item. by intros ->. Qed.

Lemma type_not_blank : is_blank t = false.
Proof.
  unfold RECORD_TYPES in Ht. clear -Ht.
  repeat (apply elem_of_cons in Ht as [->|Ht]; [done|]). by apply elem_of_nil in Ht.
Qed.

Lemma stamped_texts : for_each (check_field _text stamped) text_fields = Ok tt.
Proof.
  destruct S. columns; apply text_Ok; try done.
  - apply type_not_blank.
  - unfold status_of. by case_bool_decide.
Qed.

Lemma stamped_shas : for_each (check_field _sha_text stamped) sha_fields = Ok tt.
Proof.
  destruct S. columns; apply sha_run; try done.
  unfold _sha256 in Hdigest. destruct (_canonical _) as [u|]; [|done]. injection Hdigest as <-. apply is_sha256_digest.
Qed.

Lemma stamped_size : ∃ z, default (VInt 1) (dict_lookup "batch_size" (i_payload (pi_item p))) = VInt z ∧
  (1 ≤ z)%Z ∧ in_batch_sizes (VInt z) = true.
Proof.
  pose proof (so_size S) as H. destruct (default _ _) as [| |z| | | |]; try done. exists z.
  unfold detector_batch_size in H. unfold in_batch_sizes. simpl. split; [done|].
  rewrite !orb_true_iff, !Z.eqb_eq in *. lia.
Qed.

Lemma stamped_positives : for_each (check_field _positive_int stamped) positive_int_fields = Ok tt.
Proof.
  destruct stamped_size as (z&Ez&Hz&_). destruct S.
  columns; [..|rewrite Ez|]; by apply positive_int_run.
Qed.

Lemma stamped_counts : for_each (check_field _nonnegative_int stamped) nonnegative_int_fields = Ok tt.
Proof.
  destruct S as []. destruct so_task0 as (?&?&?), so_loads0.
  columns; apply nonnegative_int_run; lia.
Qed.

Lemma nullable_run {A} (v : pyval → result A) name x :
  dict_lookup name stamped = Some x → (x = VNone ∨ ∃ y, v x = Ok y) →
  _validate_nullable_staged_value stamped name v = Ok tt.
Proof.
  intros E H. unfold _validate_nullable_staged_value, _required_staged_value. rewrite E. cbn [mbind result_bind].
  destruct H as [->|[y Hy]]; [done|]. destruct x; rewrite ?Hy; done.
Qed.

(** Each nullable column is null or valid. *)
Lemma details_nullable :
  (opt_text (dt_error_type d) = VNone ∨ ∃ y, _text (opt_text (dt_error_type d)) = Ok y) ∧
  (opt_text (dt_error_message d) = VNone ∨ ∃ y, _text (opt_text (dt_error_message d)) = Ok y) ∧
  (opt_val VBool (dt_retryable d) = VNone ∨ ∃ y, _boolean (opt_val VBool (dt_retryable d)) = Ok y) ∧
  (opt_val VInt (dt_processed_frames d) = VNone ∨ ∃ y, _nonnegative_int (opt_val VInt (dt_processed_frames d)) = Ok y) ∧
  (opt_val VFloat (dt_processing_seconds d) = VNone ∨
     ∃ y, _nonnegative_float (opt_val VFloat (dt_processing_seconds d)) = Ok y).
Proof.
  destruct Hd as [(_&ty&msg&->&Hty&Hmsg)|[(_&z&x&->&Hz&Hx&Hx0)|(_&->)]]; simpl; split_and!; auto; right.
  - exists ty. by apply text_Ok.
  - exists msg. by apply text_Ok.
  - by exists true.
  - exists z. by apply nonnegative_int_run.
  - exists x. unfold _nonnegative_float, _finite. rewrite Hx. cbn [mbind result_bind]. by rewrite Hx0.
Qed.

Lemma stamped_semantics : _validate_staged_record_semantics stamped t = Ok tt.
Proof.
  destruct stamped_size as (z&Ez&_&Hz). unfold _validate_staged_record_semantics.
  rewrite (bool_decide_eq_true_2 (t ∈ RECORD_TYPES)) by done. cbn [require mbind result_bind].
  unfold record_item. rewrite !stamped_lookup. cbn [dict_lookup stamp raw_dict String.eqb Ascii.eqb Bool.eqb].
  rewrite Ez. cbn [mbind result_bind]. rewrite Hz. unfold status_of.
  destruct Hd as [(->&ty&msg&->&Hty&Hmsg)|[(->&y&x&->&Hy&Hx&Hx0)|([->| ->]&->)]]; try done; simpl.
  - by rewrite Hty, Hmsg.
  - rewrite (proj2 (Z.ltb_ge y 0)) by done. cbn [mbind result_bind].
    unfold _nonnegative_float, _finite. rewrite Hx. cbn [mbind result_bind]. by rewrite Hx0.
Qed.

Lemma stamped_provenance : _validate_executor_provenance stamped = Ok tt.
Proof.
  destruct (so_executor S) as (name&Es&Hne). unfold _validate_executor_provenance, record_item.
  rewrite !stamped_lookup. cbn [dict_lookup stamp raw_dict String.eqb Ascii.eqb Bool.eqb].
  cbn [mbind result_bind]. unfold py_str. rewrite Es. rewrite bool_decide_eq_false_2 by done.
  rewrite str_of_codes_of_str. simpl. by rewrite String.eqb_refl.
Qed.

Lemma stamped_schema : _validate_staged_record_schema stamped = Ok (t, Z.of_nat n, payload).
Proof.
  unfold _validate_staged_record_schema.
  rewrite stamped_texts, stamped_shas, stamped_positives, stamped_counts. cbn [mbind result_bind].
  destruct details_nullable as (N1&N2&N3&N4&N5).
  assert (for_each (check_field _positive_float stamped) ["duration_seconds"; "planned_cost_seconds"]%string = Ok tt) as ->.
  { columns; [|rewrite (so_cost S)]; apply positive_float_run, S. }
  cbn [mbind result_bind].
  assert (check_field _boolean stamped "duration_only_fallback" = Ok tt) as -> by (by column).
  cbn [mbind result_bind].
  assert (_validate_nullable_staged_value stamped "peak_rss_bytes" _positive_int = Ok tt) as ->.
  { eapply nullable_run; [rewrite stamped_lookup; reflexivity|]. unfold opt_int.
    destruct (cd_peak_rss_bytes c) as [z|] eqn:E; [|by left]. right. exists z.
    apply positive_int_run. by apply (so_peak S). }
  cbn [mbind result_bind].
  repeat match goal with
  | |- context [_validate_nullable_staged_value stamped ?k ?v] =>
      erewrite (nullable_run v k) by (first [rewrite stamped_lookup; reflexivity|assumption]);
      cbn [mbind result_bind]
  end.
  erewrite (stamped_item "record_type") by (rewrite stamped_lookup; reflexivity). cbn [mbind result_bind].
  rewrite text_Ok by apply type_not_blank. cbn [mbind result_bind].
  rewrite stamped_semantics, stamped_provenance. cbn [mbind result_bind].
  assert (_staged_payload stamped = Ok payload) as ->.
  { unfold _staged_payload. erewrite (stamped_item "payload_json") by (rewrite stamped_lookup; reflexivity).
    cbn [mbind result_bind]. unfold py_str. by rewrite Hload. }
  cbn [mbind result_bind].
  erewrite (stamped_item "record_sequence") by (rewrite stamped_lookup; reflexivity). cbn [mbind result_bind].
  by rewrite nonnegative_int_run by lia.
Qed.

(** The record describes its item as the envelope and the plan do. *)
Lemma stamped_describes (_version : result string) plan :
  _version = Ok version → execution_attempt_id env = Ok attempt →
  _model_identity (i_payload (pi_item p)) = Ok model → xp_concurrency plan = c →
  dict_get "source_video" (i_payload (pi_item p)) = VStr s →
  describes _version env plan stamped (pi_item p) p.
Proof.
  intros Hv Ha Hm Hc Hsrc. eexists. split.
  { unfold staged_checks. rewrite Ha, Hm, Hv. cbn [mbind result_bind]. reflexivity. }
  assert (Hdur : feqb (i_duration_seconds (pi_item p)) (i_duration_seconds (pi_item p)) = true).
  { apply feqb_refl. destruct (so_duration S) as [Hf _]. by apply fisfinite_not_nan. }
  destruct stamped_size as (z&Ez&_&_). apply Forall_pairs.
  repeat (apply Forall_cons_2; [unfold dict_get at 1; rewrite stamped_lookup;
    cbn [fst snd dict_lookup stamp raw_dict String.eqb Ascii.eqb Bool.eqb default from_option id]|]);
    [..|apply Forall_nil_2]; rewrite ?Hc, ?(so_cost S), ?(so_partition S), ?Ez, ?Hsrc;
    try apply String.eqb_refl; try apply Z.eqb_refl; try exact Hdur.
  destruct (cd_peak_rss_bytes c); [apply Z.eqb_refl|done].
Qed.

Lemma stamped_examined (_version : result string) plan :
  _version = Ok version → execution_attempt_id env = Ok attempt →
  _model_identity (i_payload (pi_item p)) = Ok model → xp_concurrency plan = c →
  dict_get "source_video" (i_payload (pi_item p)) = VStr s →
  expected_items env !! item_identity (pi_item p) = Some (pi_item p) →
  planned_items plan !! item_identity (pi_item p) = Some p →
  examined _version env plan stamped {| fi_identity := item_identity (pi_item p);
    fi_sequence := Z.of_nat n; fi_terminal := bool_decide (t ∈ TERMINAL_TYPES) |}.
Proof.
  intros Hv Ha Hm Hc Hsrc He Hp. exists t, payload, digest, (pi_item p), p.
  split_and!; try done.
  - apply stamped_schema.
  - unfold dict_get. rewrite stamped_lookup. by apply text_Ok, S.
  - unfold dict_get. rewrite stamped_lookup. by apply text_Ok, S.
  - by apply stamped_describes.
  - unfold dict_get. rewrite stamped_lookup. simpl. apply String.eqb_refl.
Qed.
End record.
