(* ===== verification/ProcessRunSafety.v ===== *)
(** * Process runs: their effects, and that they publish only what they staged

    Whatever happens during a run, the store only makes calls, files are only added,
    and no attempt of the batch is sealed except by the sealing call of the run
    itself.  [quiet] says so of a part of the run; the rules below walk through the
    code.  Then the invariant of all runs of one batch. *)
From S2P Require Export Prelude PyDict PyVal Json Sha256 JsonTheorems ControlTypes ControlClaim ControlProcess ControlEnvelope ControlInv ControlSafety ControlSpec ControlFiles ControlTotal ProcessEnvelope ProcessPlan ProcessRecords ProcessRecordsTheorems ProcessValidate ProcessRun ProcessValidateTheorems.
Import Process Plan Records Validate Run.

(** ** Calls that seal nothing of a batch *)

(** A call after which a leased attempt of batch [k] is still leased or expired. *)
Definition spares (k : string) (s s' : Store) : Prop :=
  ctl_step s s' ∧ ∀ a x x', attempts (s_db s) !! a = Some x → a_batch_id x = k →
    a_status x = A_LEASED → attempts (s_db s') !! a = Some x' →
    a_status x' = A_LEASED ∨ a_status x' = A_EXPIRED.

Lemma spares_same_db k op s r s' : run_op op s = (r, s') → s_db s' = s_db s → spares k s s'.
Proof.
  intros H E. split; [by exists op, r|]. intros a x x' Hx _ Hs Hx'. rewrite E, Hx in Hx'.
  injection Hx' as <-. by left.
Qed.

Lemma spares_steps k s s' : rtc (spares k) s s' → rtc ctl_step s s'.
Proof. intros H. eapply rtc_subrel; [|exact H]. by intros ? ? []. Qed.

(** A heartbeat leaves its batch leased, hence its attempts. *)
Lemma heartbeat_leased e ext clock s u s' :
  heartbeat_process e ext clock s = (Ok u, s') →
  ∃ b, batches (s_db s') !! e_batch_id e = Some b ∧ b_status b = B_LEASED.
Proof.
  unfold heartbeat_process. intros H. tx_step H. destruct x as [extension now].
  apply _transaction_Ok in H. ctl_inv H.
  destruct (batches (s_db s) !! e_batch_id e) as [b|] eqn:Hb; [|by ctl_inv H].
  tx_inv H. btrue.
  repeat match goal with
  | E : update_batch _ _ _ _ = _ |- _ => apply modify_db_Ok in E
  | E : update_attempts _ _ _ = _ |- _ => apply modify_db_Ok in E
  end. subst. simpl in H. rewrite Hb in H. simpl in H.
  eapply (tx_for_ind (λ s, ∃ b, batches (s_db s) !! e_batch_id e = Some b ∧ b_status b = B_LEASED)) in H;
    [done| |].
  - intros c s1 s2 _ (b1&Hb1&Hst1) Hc. apply heartbeat_item_Ok in Hc as (w&_&_&_&->). eauto.
  - simpl. eexists. by rewrite lookup_insert_eq.
Qed.

Lemma heartbeat_spares e ext clock s r s' :
  Inv (s_db s) → heartbeat_process e ext clock s = (r, s') → spares (e_batch_id e) s s'.
Proof.
  intros I H. destruct r as [u|x].
  - assert (Hstep : ctl_step s s') by by exists (OpHeartbeat e ext clock), (Ok u).
    split; [done|]. intros a y y' Hy Hk _ Hy'. left.
    destruct (heartbeat_leased _ _ _ _ _ _ H) as (b&Hb&Hs).
    pose proof (heartbeat_process_inv _ _ _ _ _ _ I H) as I'.
    destruct (evolves_attempts _ _ _ _ (step_evolves _ _ I Hstep) Hy) as (y1&Hy1&[Sm _ _ _]).
    rewrite Hy' in Hy1. injection Hy1 as <-.
    pose proof (inv_coupled _ I' _ _ Hb a y' Hy') as K. rewrite Hs in K.
    by destruct K as [? _]; [rewrite (sa_batch _ _ Sm)|].
  - eapply (spares_same_db _ (OpHeartbeat e ext clock)); [done|].
    by eapply (run_op_Err (OpHeartbeat e ext clock)).
Qed.

(** A batch that commits has no leased attempt. *)
Lemma commit_spares v clock k s r s' :
  Inv (s_db s) → _required_text v = Ok k → commit_batch v clock s = (r, s') → spares k s s'.
Proof.
  intros I Hv H.
  assert (Hop : run_op (OpCommit v clock) s = (match r with Ok _ => Ok tt | Err e => Err e end, s')).
  { destruct r; [by eapply tx_bind_run|by apply tx_bind_raise]. }
  destruct r as [u|x].
  - split; [by exists (OpCommit v clock), (Ok tt)|]. intros a y y' Hy Hk Hs Hy'.
    apply commit_batch_Ok in H as (k'&now&b&Hv'&_&Hb&[(_&_&->)|(Hse&_)]).
    + rewrite Hy in Hy'. injection Hy' as <-. by left.
    + assert (k' = k) as -> by congruence. pose proof (inv_coupled _ I _ _ Hb a y Hy Hk) as K.
      rewrite Hse in K. destruct K as [K _]. simpl in K. congruence.
  - eapply spares_same_db; [exact Hop|]. by eapply run_op_Err.
Qed.

(** ** What a run may change *)

Record grown (k : string) (W W' : World) : Prop := {
  gr_store : rtc (spares k) (w_store W) (w_store W');
  gr_texts : d_texts (w_disk W) ⊆ d_texts (w_disk W');
  gr_dirs : d_dirs (w_disk W) ⊆ d_dirs (w_disk W');
}.

#[export] Instance grown_preorder k : PreOrder (grown k).
Proof.
  split; [by split|]. intros W1 W2 W3 [S1 T1 D1] [S2 T2 D2].
  split; [by etrans|by etrans|by etrans].
Qed.

Section effects.
Context (sr : Surroundings) (k : string).
(** Other processes do not seal attempts of the batch. *)
Context (Hothers : ∀ t s, rtc (spares k) s (sr_others sr t s)).

(** The heartbeat thread, when it runs, renews the batch. *)
Definition sane (W : World) : Prop :=
  reachable (w_store W) ∧
  ∀ h, w_heartbeat W = Some h → e_batch_id (hb_envelope h) = k.

(** A part of the run that only lets the world grow. *)
Definition quiet {A} (m : Run A) : Prop :=
  ∀ W r W', sane W → m W = (r, W') → sane W' ∧ grown k W W'.

Lemma grown_reachable W W' : reachable (w_store W) → grown k W W' → reachable (w_store W').
Proof.
  intros (s0&?&?) [S _ _]. exists s0. split; [done|]. etrans; [done|]. by eapply spares_steps.
Qed.

Lemma grown_sane W W' :
  sane W → grown k W W' → (∀ h, w_heartbeat W' = Some h → e_batch_id (hb_envelope h) = k) →
  sane W'.
Proof. intros [R _] G H. split; [by eapply grown_reachable|done]. Qed.

Lemma beat_grown W : sane W → sane (beat sr W) ∧ grown k W (beat sr W).
Proof.
  intros S. pose proof S as [R H]. unfold beat. destruct (w_heartbeat W) as [h|] eqn:Eh; [|done].
  destruct (hb_error h); [done|]. destruct (heartbeat_process _ _ _ _) as [r s] eqn:E.
  assert (G : grown k W {| w_store := s; w_disk := w_disk W; w_time := Datatypes.S (w_time W);
    w_heartbeat := Some {| h with hb_error := match r with Ok _ => None | Err e => Some e end |} |}).
  { split; [|done..]. simpl. apply rtc_once. rewrite <-(H h eq_refl).
    eapply heartbeat_spares; [by apply reachable_Inv|exact E]. }
  split; [|exact G]. eapply grown_sane; [done..|]. simpl. intros h' [= <-]. exact (H h eq_refl).
Qed.

Lemma elapse_grown W : sane W → sane (elapse sr W) ∧ grown k W (elapse sr W).
Proof.
  intros [R H]. unfold elapse. set (W1 := {| W with w_store := _ ; w_time := _ |}).
  assert (sane W1 ∧ grown k W W1) as [S1 G1].
  { assert (G1 : grown k W W1) by (split; [apply Hothers|done..]).
    split; [|done]. split; [by eapply grown_reachable|exact H]. }
  induction (sr_beats sr (w_time W)) as [|n [S2 G2]]; [done|]. rewrite Nat.iter_succ.
  destruct (beat_grown _ S2) as [S3 G3]. split; [done|]. by etrans.
Qed.

(** The surroundings do not touch the files. *)
Lemma elapse_disk W : w_disk (elapse sr W) = w_disk W.
Proof.
  unfold elapse. set (W0 := {| W with w_store := _; w_time := _ |}).
  change (w_disk W) with (w_disk W0). induction (sr_beats sr (w_time W)) as [|n IH]; [done|].
  rewrite Nat.iter_succ, <-IH. unfold beat. repeat case_match; done.
Qed.

Lemma quiet_bind {A B} (m : Run A) (f : A → Run B) : quiet m → (∀ a, quiet (f a)) → quiet (m ≫= f).
Proof.
  intros Hm Hf W r W' S. unfold mbind, tx_bind. destruct (m W) as [[a|e] W1] eqn:E; intros H.
  - destruct (Hm _ _ _ S E) as [S1 G1]. destruct (Hf _ _ _ _ S1 H) as [S2 G2]. split; [done|by etrans].
  - injection H as <- <-. by eapply Hm.
Qed.

Lemma quiet_fmap {A B} (f : A → B) (m : Run A) : quiet m → quiet (f <$> m).
Proof.
  intros Hm W r W' S. unfold fmap, tx_fmap. destruct (m W) as [[a|e] W1] eqn:E;
    intros [= <- <-]; by eapply Hm.
Qed.

Lemma quiet_ret {A} (a : A) : quiet (mret a).
Proof. by intros W r W' S [= <- <-]. Qed.
Lemma quiet_lift {A} (x : result A) : quiet (tx_lift x).
Proof. by intros W r W' S [= <- <-]. Qed.
Lemma quiet_require b e : quiet (tx_require b e).
Proof. apply quiet_lift. Qed.
Lemma quiet_raise {A} e : quiet (tx_raise (A := A) e).
Proof. apply quiet_lift. Qed.

Lemma quiet_tick : quiet (tick sr).
Proof. intros W r W' S [= <- <-]. by apply elapse_grown. Qed.

Lemma quiet_call {A} (op : pyval → Ctl A) :
  (∀ c s r s', Inv (s_db s) → op c s = (r, s') → rtc (spares k) s s') → quiet (call sr op).
Proof.
  intros Hop. apply quiet_bind; [apply quiet_tick|]. intros _ W r W' S. unfold effect.
  destruct (op _ _) as [x s] eqn:E. intros [= <- <-].
  assert (G : grown k W {| W with w_store := s; w_time := Datatypes.S (w_time W) |}).
  { split; [|done..]. eapply Hop; [|exact E]. by apply reachable_Inv, S. }
  split; [|done]. eapply grown_sane; [done..|]. apply S.
Qed.

Lemma quiet_read {A} (op : pyval → Ctl A) :
  (∀ c s r s', op c s = (r, s') → s' = s) → quiet (call sr op).
Proof. intros H. apply quiet_call. intros c s r s' _ E. by rewrite (H _ _ _ _ E). Qed.

Lemma quiet_on_disk {A} (op : tx Disk A) :
  (∀ d r d', op d = (r, d') → d_texts d ⊆ d_texts d' ∧ d_dirs d ⊆ d_dirs d') → quiet (on_disk sr op).
Proof.
  intros Hop. apply quiet_bind; [apply quiet_tick|]. intros _ W r W' S. unfold effect.
  destruct (op _) as [x d] eqn:E. intros [= <- <-]. destruct (Hop _ _ _ E).
  assert (G : grown k W {| W with w_disk := d |}) by by split.
  split; [|done]. eapply grown_sane; [done..|]. apply S.
Qed.

Lemma quiet_read_disk {A} (f : Disk → result A) : quiet (on_disk sr (d ← tx_get; tx_lift (f d))).
Proof. apply quiet_on_disk. by intros d r d' [= <- <-]. Qed.

(** ** The parts of a run *)

Lemma quiet_state {A} (f : World → result A) : quiet (λ W, (f W, W)).
Proof. by intros W r W' S [= <- <-]. Qed.

Lemma put_new_subseteq p s d : path_exists p d = false → d_texts d ⊆ d_texts (put_text p s d).
Proof.
  unfold path_exists. intros H. apply orb_false_iff in H as [_ H]. apply bool_decide_eq_false in H.
  apply insert_subseteq. by apply eq_None_not_Some.
Qed.

(** What a whole write leaves, and what a killed one does. *)
Lemma write_new_spec p content W r W' :
  sane W → write_new sr p content W = (r, W') →
  sane W' ∧ grown k W W' ∧ (r = Ok tt → d_texts (w_disk W') !! p = Some content).
Proof.
  intros S H. unfold write_new, on_disk in H.
  destruct (elapse_grown W S) as [S1 G1].
  unfold mbind, tx_bind, tick in H. destruct (sr_dies sr (w_time W)); [by simplify_eq|].
  cbv beta iota zeta delta [effect tx_get tx_require tx_modify tx_lift] in H.
  set (W1 := elapse sr W) in *.
  destruct (path_exists p (w_disk W1)) eqn:Ep; cbn [negb require] in H; [simplify_eq|].
  { split; [|split; [|done]].
    - eapply (grown_sane W1); [done|by split|apply S1].
    - etrans; [exact G1|by split]. }
  set (W2 := {| W1 with w_disk := put_text p "" (w_disk W1) |}) in *.
  assert (Hempty : d_texts (w_disk W1) ⊆ d_texts (w_disk W2)) by by apply put_new_subseteq.
  assert (G2 : grown k W1 W2) by by split.
  assert (S2 : sane W2) by (eapply grown_sane; [exact S1|done|apply S1]).
  destruct (elapse_grown W2 S2) as [S3 G3]. set (W3 := elapse sr W2) in *.
  assert (Ed : w_disk W3 = w_disk W2) by apply elapse_disk.
  assert (Hput : ∀ s, let W4 := {| W3 with w_disk := put_text p s (w_disk W3) |} in
    sane W4 ∧ grown k W W4).
  { intros s W4. assert (G4 : grown k W W4).
    - split.
      + simpl. etrans; [apply G1|]. etrans; [apply G2|apply G3].
      + simpl. rewrite Ed. unfold W2, put_text. simpl. rewrite insert_insert_eq. etrans; [apply G1|].
        by apply put_new_subseteq.
      + simpl. rewrite Ed. apply G1.
    - split; [|done]. eapply grown_sane; [exact S|exact G4|apply S3]. }
  destruct (sr_dies sr (w_time W2)); simplify_eq.
  - destruct (Hput (String.substring 0 (sr_torn sr (w_time W2)) content)). done.
  - destruct (Hput content). split; [done|]. split; [done|]. intros _. simpl. apply lookup_insert_eq.
Qed.

Lemma quiet_write_new p content : quiet (write_new sr p content).
Proof. intros W r W' S H. by destruct (write_new_spec _ _ _ _ _ S H) as (?&?&_). Qed.

Lemma quiet_mkdirs p e (f : Disk → bool) :
  quiet (on_disk sr (d ← tx_get; tx_require (f d) e;; tx_modify (mkdirs p))).
Proof.
  apply quiet_on_disk. intros d r d'. unfold mbind, tx_bind, tx_get, tx_require, tx_lift, tx_modify.
  destruct (f d); intros [= <- <-]; [|done]. simpl. split; [done|]. apply union_subseteq_r.
Qed.

Lemma stop_sane W : sane W → sane (stop_heartbeat W) ∧ grown k W (stop_heartbeat W).
Proof. intros [R _]. split; [|by split]. by split. Qed.

Lemma quiet_heartbeat e ext clock s r s' :
  e_batch_id e = k → Inv (s_db s) → heartbeat_process e ext clock s = (r, s') → rtc (spares k) s s'.
Proof. intros <- I H. apply rtc_once. by eapply heartbeat_spares. Qed.

Lemma quiet_start e x : e_batch_id e = k → quiet (tx_modify (start_heartbeat e x)).
Proof.
  intros E W r W' S [= <- <-]. assert (G : grown k W (start_heartbeat e x W)) by by split.
  split; [|done]. eapply grown_sane; [done..|]. simpl. by intros h [= <-].
Qed.

Lemma quiet_with_heartbeat {A} e x (body : Run A) :
  e_batch_id e = k → quiet body → quiet (with_heartbeat sr e x body).
Proof.
  intros E Hb. unfold with_heartbeat. apply quiet_bind.
  { apply quiet_call. intros c s r s' I H. by eapply quiet_heartbeat. }
  intros _. apply quiet_bind; [by apply quiet_start|]. intros _ W r W' S H. unfold effect in H.
  destruct (body W) as [rb Wb] eqn:Eb. destruct (Hb _ _ _ S Eb) as [Sb Gb].
  destruct (stop_sane Wb Sb) as [Ss Gs]. assert (W' = stop_heartbeat Wb) as -> by by repeat case_match; simplify_eq.
  split; [done|]. by etrans.
Qed.

Lemma quiet_commit v clock' :
  _required_text v = Ok k → quiet (call sr (λ c, commit_batch v (clock' c))).
Proof. intros Hv. apply quiet_call. intros c s r s' I H. apply rtc_once. by eapply commit_spares. Qed.

Lemma quiet_crash hook point : quiet (_crash hook point).
Proof. apply quiet_lift. Qed.

Lemma quiet_raise_if_failed : quiet raise_if_failed.
Proof. apply (quiet_state (λ W, if heartbeat_failed W then Err LeaseLostError else Ok tt)). Qed.

Lemma quiet_admission a : quiet (admission_now sr a).
Proof.
  intros W r W' S [= <- <-]. assert (G : grown k W {| W with w_time := Datatypes.S (w_time W) |}) by by split.
  split; [|done]. eapply grown_sane; [done..|]. apply S.
Qed.

Lemma quiet_state_read e : quiet (call sr (λ _, process_batch_state e)).
Proof. apply quiet_read. intros c s r s'. apply process_batch_state_state. Qed.
Lemma quiet_fence e : quiet (call sr (assert_process_fence e)).
Proof. apply quiet_read. intros c s r s'. apply assert_process_fence_state. Qed.

Lemma load_envelope_state v s r s' : load_claim_envelope_with_digest v s = (r, s') → s' = s.
Proof.
  assert (∀ A (m : Ctl A), (∀ s r s', m s = (r, s') → s' = s) → ∀ B (f : A → Ctl B),
    (∀ a s r s', f a s = (r, s') → s' = s) → ∀ s r s', (m ≫= f) s = (r, s') → s' = s) as Hbind.
  { intros A m Hm B f Hf s0 r0 s1. unfold mbind, tx_bind. destruct (m s0) as [[a|e] s2] eqn:E.
    - apply Hm in E as ->. apply Hf.
    - intros [= _ <-]. by apply Hm in E. }
  assert (∀ A (x : result A) (s : Store) r s', tx_lift x s = (r, s') → s' = s) as Hlift by by intros ? ? ? ? ? [= _ <-].
  unfold load_claim_envelope_with_digest, load_claim_envelope.
  revert s r s'. apply Hbind; [apply Hlift|intros id]. apply Hbind; [apply get_batch_state|intros b].
  apply Hbind; [|by intros ? ? ? ? [= _ <-]]. apply Hbind; [apply Hlift|intros id'].
  apply Hbind; [apply get_batch_state|intros b']. apply Hbind; [apply Hlift|intros _].
  apply Hbind; [by intros ? ? ? [= _ <-]|intros fs]. apply Hlift.
Qed.

Lemma quiet_load v : quiet (call sr (λ _, load_claim_envelope_with_digest v)).
Proof. apply quiet_read. intros c s r s'. apply load_envelope_state. Qed.

Create HintDb quiet.
#[local] Hint Resolve quiet_ret quiet_lift quiet_require quiet_raise quiet_tick quiet_read_disk
  quiet_write_new quiet_mkdirs quiet_crash quiet_raise_if_failed quiet_admission quiet_state_read
  quiet_fence quiet_load : quiet.

Ltac quieten :=
  repeat first
    [ solve [auto 2 with quiet nocore]
    | progress intros | progress cbv zeta
    | match goal with
      | |- quiet (_ ≫= _) => apply quiet_bind
      | |- quiet (_ <$> _) => apply quiet_fmap
      | |- quiet (match ?x with _ => _ end) => destruct x
      | |- quiet (let '(_, _) := ?x in _) => destruct x
      end ].

Lemma quiet_load_complete root b t : quiet (load_complete sr root b t).
Proof. unfold load_complete. quieten. Qed.
Lemma quiet_write_records root b t l : quiet (write_records sr root b t l).
Proof. unfold write_records. quieten. Qed.
Lemma quiet_read_records root b t : quiet (read_records sr root b t).
Proof. unfold read_records. quieten. Qed.

Lemma quiet_create_success root b t m : quiet (create_success sr root b t m).
Proof.
  unfold create_success. quieten. intros W r W' S H. unfold effect in H.
  destruct (write_new sr _ _ W) as [x W1] eqn:E. assert (W' = W1) as -> by by repeat case_match; simplify_eq.
  by eapply quiet_write_new.
Qed.

Lemma quiet_execute a env plan : quiet (execute sr a env plan).
Proof. unfold execute. quieten. intros W r W' S [= <- <-]. done. Qed.

#[local] Hint Resolve quiet_load_complete quiet_write_records quiet_read_records quiet_create_success
  quiet_execute : quiet.

Lemma quiet_stage root version a env plan t : quiet (execute_and_stage sr root version a env plan t).
Proof. unfold execute_and_stage. quieten. Qed.

Lemma quiet_context version rel b ev : quiet (_load_process_context sr version rel b ev).
Proof. unfold _load_process_context. quieten. Qed.

Lemma quiet_resume root version env :
  v_batch_id env = k → is_blank k = false → quiet (_resume_committed_process_batch sr root version env).
Proof.
  intros E Hk. unfold _resume_committed_process_batch. quieten.
  apply (quiet_commit _ (λ c, c)). rewrite E. simpl. by rewrite Hk.
Qed.
End effects.

(** ** Runs publish only what they staged

    The invariant of all runs of one batch: every attempt that has been sealed is
    backed by complete, validated and marked records in its attempt directory. *)
Import Process Plan Records Validate Run.

(** ** Sealed attempts and their records *)

(** The records of one item, and whether its terminal record is a result. *)
Definition item_records (item : EnvelopeItem) (records : list Dict) : list Dict :=
  List.filter (of_item item) records.
Definition is_result (r : Dict) : bool := py_eqb (dict_get "record_type" r) (VStr "video_result").
Definition item_succeeded (item : EnvelopeItem) (records : list Dict) : bool :=
  existsb is_result (item_records item records).

(** The attempt directory of [env] holds exactly [records], marked. *)
Definition staged_at (root : Path) (env : VerifiedEnvelope) (records : list Dict) (path : Path)
    (d : Disk) : Prop :=
  ∃ attempt marker, execution_attempt_id env = Ok attempt ∧
    attempt_path root (v_batch_id env) attempt = Ok path ∧
    load_attempt path d = Ok (Some (records, marker)) ∧ _verify_marker marker records env = Ok tt.

(** The row [x] of attempt [a] carries the output of its item in [records]. *)
Definition carries_item (env : VerifiedEnvelope) (records : list Dict) (path : Path) (a : string)
    (x : AttemptRow) : Prop :=
  ∃ item sha, item ∈ v_items env ∧ i_attempt_id item = a ∧ i_work_id item = a_work_id x ∧
    a_output_path x = Some (path_text path) ∧
    _sha256 (records_value (item_records item records)) = Ok sha ∧ a_output_sha256 x = Some sha ∧
    a_terminal_succeeded x = Some (item_succeeded item records).

Definition backed (root : Path) (k digest : string) (d : Disk) (a : string) (x : AttemptRow) : Prop :=
  ∃ version env plan records g path, v_batch_id env = k ∧ v_envelope_sha256 env = digest ∧
    validate_staged_records version records env plan = Ok g ∧
    staged_at root env records path d ∧ carries_item env records path a x.

(** Every attempt of the batch that is no longer leased was sealed with staged
    records, unless its lease expired. *)
Definition backed_batch (root : Path) (k digest : string) (d : Disk) (db : Db) : Prop :=
  ∀ a x, attempts db !! a = Some x → a_batch_id x = k →
    a_status x = A_LEASED ∨ a_status x = A_EXPIRED ∨ backed root k digest d a x.

(** The batch is claimed under the envelope digest. *)
Definition known (k digest : string) (db : Db) : Prop :=
  ∃ b, batches db !! k = Some b ∧ b_envelope_sha256 b = digest.

(** ** Staged records stay *)

Lemma load_attempt_mono path d d' l m :
  d_texts d ⊆ d_texts d' → d_dirs d ⊆ d_dirs d' →
  load_attempt path d = Ok (Some (l, m)) → load_attempt path d' = Ok (Some (l, m)).
Proof.
  intros Ht Hd H. unfold load_attempt in *. destruct (path_exists path d) eqn:Ep; [|done].
  assert (path_exists path d' = true) as ->.
  { unfold path_exists in *. apply orb_true_iff in Ep as [Hp|Hp]; apply bool_decide_eq_true in Hp;
      apply orb_true_iff; [left|right]; apply bool_decide_eq_true; [set_solver|].
    destruct Hp as [s Hs]. exists s. by eapply lookup_weaken. }
  cbn [negb] in *. apply result_bind_Ok in H as ([]&Hf%require_Ok&H). apply andb_true_iff in Hf as [F1 F2].
  unfold is_file in *. apply bool_decide_eq_true in F1 as [s1 E1], F2 as [s2 E2].
  unfold read_json_list, read_json_dict, _read_json, read_text in *. rewrite E1, E2 in H.
  rewrite !(lookup_weaken _ _ _ _ E1 Ht), !(lookup_weaken _ _ _ _ E2 Ht).
  rewrite !bool_decide_eq_true_2 by eauto. exact H.
Qed.

Lemma staged_mono root env records path d d' :
  d_texts d ⊆ d_texts d' → d_dirs d ⊆ d_dirs d' →
  staged_at root env records path d → staged_at root env records path d'.
Proof.
  intros Ht Hd (t&m&?&?&Hl&?). exists t, m. split_and!; try done. by eapply load_attempt_mono.
Qed.

Lemma carries_kept env records path a x x' :
  attempt_kept x x' → a_status x ≠ A_LEASED →
  carries_item env records path a x → carries_item env records path a x'.
Proof.
  intros [Sm _ Ou _] Hs (item&sha&?&?&?&Hp&?&Hsha&Ht). destruct (Ou Hs) as (E1&E2&E3).
  exists item, sha. rewrite E1, E2, E3. split_and!; try done. by rewrite (sa_work _ _ Sm).
Qed.

Section batch.
Context (root : Path) (k digest : string).

Lemma known_step s s' :
  reachable s → rtc ctl_step s s' → known k digest (s_db s) → known k digest (s_db s').
Proof.
  intros R S (b&Hb&<-). destruct (steps_evolves _ _ (reachable_Inv _ R) S) as [E _].
  destruct (evolves_batches _ _ _ _ E Hb) as (b'&Hb'&[Sb _]). exists b'.
  split; [done|]. apply (sb_envelope _ _ Sb).
Qed.

Lemma known_grown W W' :
  reachable (w_store W) → grown k W W' →
  known k digest (s_db (w_store W)) → known k digest (s_db (w_store W')).
Proof. intros R [S _ _]. apply known_step; [done|by eapply spares_steps]. Qed.

Lemma backed_mono d d' a x :
  d_texts d ⊆ d_texts d' → d_dirs d ⊆ d_dirs d' →
  backed root k digest d a x → backed root k digest d' a x.
Proof.
  intros Ht Hd (ver&env&plan&l&g&path&?&?&?&Hs&?). exists ver, env, plan, l, g, path.
  split_and!; try done. by eapply staged_mono.
Qed.

Lemma backed_kept d a x x' :
  attempt_kept x x' → a_status x ≠ A_LEASED →
  backed root k digest d a x → backed root k digest d a x'.
Proof.
  intros K Hl (ver&env&plan&l&g&path&?&?&?&?&Hc). exists ver, env, plan, l, g, path.
  split_and!; try done. by eapply carries_kept.
Qed.

(** A sparing call keeps the attempts backed. *)
Lemma backed_step s s' d :
  reachable s → spares k s s' → known k digest (s_db s) →
  backed_batch root k digest d (s_db s) → backed_batch root k digest d (s_db s').
Proof.
  intros R [Hs Hsp] (b&Hb&_) J a x' Hx' Hk.
  pose proof (step_evolves _ _ (reachable_Inv _ R) Hs) as E.
  assert (R' : reachable s') by by eapply reachable_step.
  destruct (batch_closed_enrollment _ _ k b a x' E (reachable_counted _ R) (reachable_counted _ R'))
    as [x Hx]; [done..|].
  destruct (evolves_attempts _ _ _ _ E Hx) as (y&Hy&K). rewrite Hx' in Hy. injection Hy as <-.
  assert (Hxk : a_batch_id x = k) by (by rewrite <-(sa_batch _ _ (ak_same _ _ K))).
  destruct (decide (a_status x = A_LEASED)) as [Hl|Hl].
  - destruct (Hsp a x x' Hx Hxk Hl Hx') as [?|?]; auto.
  - destruct (J a x Hx Hxk) as [?|[He|Hbk]]; [done| |].
    + right; left. rewrite (ak_ended _ _ K); [done|]. unfold ended. auto.
    + right; right. by eapply backed_kept.
Qed.

Lemma backed_grown W W' :
  reachable (w_store W) → known k digest (s_db (w_store W)) → grown k W W' →
  backed_batch root k digest (w_disk W) (s_db (w_store W)) →
  backed_batch root k digest (w_disk W') (s_db (w_store W')).
Proof.
  intros R Hk [S T D] J a x Hx Hxk.
  assert (J' : backed_batch root k digest (w_disk W) (s_db (w_store W'))).
  { revert R Hk J. clear -S. induction S as [s|s1 s2 s3 Hs S IH]; [done|]. intros R Hk J. apply IH.
    - by eapply reachable_step; [|apply Hs].
    - eapply known_step; [done|apply rtc_once, Hs|done].
    - by eapply backed_step. }
  destruct (J' a x Hx Hxk) as [?|[?|?]]; [auto..|]. right; right. by eapply backed_mono.
Qed.
End batch.

(** ** What sealing the outputs of a run records *)

Lemma normalize_outputs_Forall2 seen l os :
  normalize_outputs_from seen l = Ok os → Forall2 (λ v o, ∃ seen, normalize_output seen v = Ok o) l os.
Proof.
  revert seen os. induction l as [|v l IH]; intros seen os H; simpl in H.
  - injection H as <-. constructor.
  - apply result_bind_Ok in H as (o&Ho&H). apply result_bind_Ok in H as (os'&Hos&[= <-]).
    constructor; [eauto|by eapply IH].
Qed.

(** The terminal record decides: with one terminal record, the first one found is
    a result exactly when the records contain a result. *)
Lemma terminal_result l r :
  length (List.filter is_terminal l) = 1%nat → List.find is_terminal l = Some r →
  is_result r = existsb is_result l.
Proof.
  intros Hl Hf. assert (List.filter is_terminal l = [r]) as E.
  { revert Hl Hf. induction l as [|x l IH]; [done|]. simpl. destruct (is_terminal x); [|by apply IH].
    intros Hl [= ->]. by destruct (List.filter is_terminal l). }
  assert (∀ x, is_result x = true → is_terminal x = true) as Hrt.
  { intros x Hx. unfold is_terminal, TERMINAL_TYPES. simpl. unfold is_result in Hx. by rewrite Hx. }
  destruct (is_result r) eqn:Er; symmetry.
  - apply existsb_exists. exists r. split; [|done].
    apply List.find_some in Hf as [Hf _]. done.
  - apply not_true_is_false. intros (x&Hx&Hxr)%existsb_exists.
    assert (x ∈ List.filter is_terminal l) as Hin.
    { apply elem_of_sfilter. split; [by apply list_elem_of_In|by apply Hrt]. }
    rewrite E in Hin. apply list_elem_of_singleton in Hin. congruence.
Qed.

(** The fields of the output of one item, as the control store reads them. *)
Lemma item_output_fields path g item v seen o :
  item_output path g item = Ok v → normalize_output seen v = Ok o →
  out_work_id o = i_work_id item ∧ out_attempt_id o = i_attempt_id item ∧
  out_output_path o = path_text path ∧
  ∃ l r, dget (i_work_id item) g = Some l ∧ List.find is_terminal l = Some r ∧
    _sha256 (records_value l) = Ok (out_output_sha256 o) ∧ out_succeeded o = is_result r.
Proof.
  intros Hv Ho. unfold item_output in Hv.
  apply result_bind_Ok in Hv as (l&Hl&Hv). apply dindex_Ok in Hl.
  apply result_bind_Ok in Hv as (r&Hr&Hv).
  destruct (List.find is_terminal l) as [r'|] eqn:Hfind; [|done]. injection Hr as ->.
  apply result_bind_Ok in Hv as (sha&Hsha&Hv). apply result_bind_Ok in Hv as (rows&_&[= <-]).
  fold (is_result r) in Ho.
  cbn [normalize_output dict_get dict_lookup String.eqb Ascii.eqb Bool.eqb default from_option id] in Ho.
  apply result_bind_Ok in Ho as (w&Hw&Ho). apply result_bind_Ok in Ho as (a&Ha&Ho).
  apply result_bind_Ok in Ho as ([]&_&Ho). apply result_bind_Ok in Ho as (rs&_&Ho).
  apply result_bind_Ok in Ho as ([]&_&Ho). apply result_bind_Ok in Ho as (p&Hp&Ho).
  apply result_bind_Ok in Ho as (s&Hs&Ho). apply result_bind_Ok in Ho as (b&Hb&[= <-]).
  apply _required_text_Ok in Hw as [[= <-] _], Ha as [[= <-] _], Hp as [[= <-] _].
  unfold _validated_sha256 in Hs. apply result_bind_Ok in Hs as (t&Ht&Hs).
  apply _required_text_Ok in Ht as [[= <-] _]. destruct (is_sha256 sha); [|done]. injection Hs as <-.
  injection Hb as <-. simpl. eauto 10.
Qed.

Lemma item_output_normalized env records path g item v seen o :
  well_grouped env records g → item ∈ v_items env →
  item_output path g item = Ok v → normalize_output seen v = Ok o →
  _sha256 (records_value (item_records item records)) = Ok (out_output_sha256 o) ∧
  out_succeeded o = item_succeeded item records.
Proof.
  intros Hg Hi Hv Ho. destruct (Hg item Hi) as [Eg Hone].
  destruct (item_output_fields _ _ _ _ _ _ Hv Ho) as (_&_&_&l&r&Hl&Hfind&Hsha&->).
  rewrite Eg in Hl. injection Hl as <-. fold (item_records item records) in *.
  split; [done|]. by apply terminal_result.
Qed.

Lemma sealed_outputs path g items outputs os :
  map_result (item_output path g) items = Ok outputs → _normalize_outputs outputs = Ok os →
  ∀ o, o ∈ os → ∃ item v seen, item ∈ items ∧ item_output path g item = Ok v ∧
    normalize_output seen v = Ok o.
Proof.
  intros Hm Hn o Ho. apply map_result_Ok in Hm. unfold _normalize_outputs in Hn.
  apply normalize_outputs_Forall2 in Hn. apply list_elem_of_lookup in Ho as [j Hj].
  destruct (Forall2_lookup_r _ _ _ _ _ Hn Hj) as (v&Hv&seen&Hs).
  destruct (Forall2_lookup_r _ _ _ _ _ Hm Hv) as (item&Hi&Hiv).
  exists item, v, seen. split_and!; [|done..]. by eapply list_elem_of_lookup_2.
Qed.

(** Items whose attempts hold their works have distinct works. *)
Lemma leased_items_distinct db items :
  core db → NoDup (item_identity <$> items) →
  (∀ i, i ∈ items → ∃ x, attempts db !! i_attempt_id i = Some x ∧ live x ∧ a_work_id x = i_work_id i) →
  NoDup (i_work_id <$> items).
Proof.
  intros C Hn H. apply NoDup_fmap_2_strong; [|by eapply NoDup_fmap_1].
  intros i1 i2 H1 H2 E. apply (NoDup_fmap_eq item_identity items); [done..|].
  destruct (H i1 H1) as (x1&Hx1&L1&E1), (H i2 H2) as (x2&Hx2&L2&E2).
  unfold item_identity. rewrite E. f_equal.
  destruct (decide (i_attempt_id i1 = i_attempt_id i2)) as [|Hne]; [done|].
  destruct (distinct_works _ _ _ _ _ C Hx1 Hx2 L1 L2 Hne). congruence.
Qed.

Lemma outputs_sealed path g items outputs os :
  map_result (item_output path g) items = Ok outputs → _normalize_outputs outputs = Ok os →
  ∀ item, item ∈ items → ∃ v seen o, o ∈ os ∧ item_output path g item = Ok v ∧
    normalize_output seen v = Ok o.
Proof.
  intros Hm Hn item Hi. apply map_result_Ok in Hm. apply normalize_outputs_Forall2 in Hn.
  apply list_elem_of_lookup in Hi as [j Hj].
  destruct (Forall2_lookup_l _ _ _ _ _ Hm Hj) as (v&Hv&Hiv).
  destruct (Forall2_lookup_l _ _ _ _ _ Hn Hv) as (o&Ho&seen&Hs).
  exists v, seen, o. split_and!; [|done..]. by eapply list_elem_of_lookup_2.
Qed.

Lemma verify_items_identities key n ids raws items :
  verify_items key n ids raws = Ok items →
  NoDup (item_identity <$> items) ∧ ∀ i, i ∈ items → item_identity i ∉ ids.
Proof.
  revert n ids items. induction raws as [|raw raws IH]; intros n ids items H; simpl in H.
  - injection H as <-. split; [constructor|]. by intros i ?%elem_of_nil.
  - apply result_bind_Ok in H as (i&Hi&H). apply result_bind_Ok in H as (rest&Hrest&[= <-]).
    apply IH in Hrest as [Hn Hout].
    assert (item_identity i ∉ ids) as Hfresh.
    { unfold verify_item in Hi. destruct raw; try done. res_inv Hi.
      destruct (dict_get "payload" _); try done. res_inv Hi. simplify_eq. by btrue. }
    split.
    + csimpl. apply NoDup_cons. split; [|done]. intros (i'&E&Hi')%list_elem_of_fmap.
      apply (Hout i' Hi'). rewrite <-E. left.
    + intros i' [->|Hi']%elem_of_cons; [done|]. specialize (Hout i' Hi'). set_solver.
Qed.

Lemma verified_identities d id sha env :
  verify_envelope d id sha = Ok env →
  NoDup (item_identity <$> v_items env) ∧ v_batch_id env = id.
Proof.
  unfold verify_envelope. intros H. res_inv H. destruct (dict_get "items" d) as [| | | | |[|raw raws]|]; try done.
  res_inv H. simplify_eq. simpl. split; [|done]. by eapply verify_items_identities.
Qed.

(** The sealing call of a run, on records that are staged, keeps the batch backed. *)
Lemma seal_backed root k digest s s' r d env version records plan g path outputs mem clock :
  reachable s → known k digest (s_db s) → backed_batch root k digest d (s_db s) →
  is_blank k = false → v_batch_id env = k → NoDup (item_identity <$> v_items env) →
  validate_staged_records version records env plan = Ok g → staged_at root env records path d →
  map_result (item_output path g) (v_items env) = Ok outputs →
  seal_batch (VStr k) (VList outputs) (VStr (v_envelope_sha256 env)) mem clock s = (r, s') →
  backed_batch root k digest d (s_db s').
Proof.
  intros R (b&Hb&<-) J Hblank Ek Hn Hg Hst Hout H a x Hx Hk.
  assert (Hreq : _required_text (VStr k) = Ok k) by (simpl; by rewrite Hblank).
  destruct r as [[]|e]; [|by rewrite (run_op_Err (OpSeal _ _ _ _ _) _ _ _ H) in Hx; apply J].
  pose proof H as Hcase. apply seal_batch_Ok in Hcase as (k'&raw&dg&m&now&b'&Hk'&[= <-]&_&_&_&Hb'&Hcase).
  rewrite Hreq in Hk'. injection Hk' as <-. rewrite Hb in Hb'. injection Hb' as <-.
  destruct Hcase as [(_&_&->)|(Hls&_)]; [by apply J|]. pose proof (reachable_Inv _ R) as I.
  destruct (seal_outputs _ _ _ _ _ _ _ _ _ R H Hreq Hb Hls)
    as (raw&os&b'&[= <-]&Hos&Hd&_&Hall&Heach&_).
  assert (Hw : NoDup (i_work_id <$> v_items env)).
  { apply (leased_items_distinct (s_db s)); [apply I|done|]. intros i Hi.
    destruct (outputs_sealed _ _ _ _ _ Hout Hos i Hi) as (v&seen&o&Ho&Hv&Hno).
    destruct (item_output_fields _ _ _ _ _ _ Hv Hno) as (Ew&<-&_).
    destruct (Heach o Ho) as [(y&Hy&Hyk&Eyw) _]. exists y. split; [done|]. split; [|congruence].
    left. pose proof (inv_coupled _ I _ _ Hb _ y Hy Hyk) as K. rewrite Hls in K. apply K. }
  assert (S : ctl_step s s') by by eexists (OpSeal _ _ _ _ _), (Ok tt).
  destruct (batch_closed_enrollment _ _ k b a x (step_evolves _ _ I S) (reachable_counted _ R)
    (reachable_counted _ (reachable_step _ _ R S)) Hb Hx Hk) as [y Hy].
  destruct (evolves_attempts _ _ _ _ (step_evolves _ _ I S) Hy) as (x1&Hx1&K).
  rewrite Hx in Hx1. injection Hx1 as <-.
  destruct (Hall a y Hy) as (o&Ho&<-&Ew); [by rewrite <-(sa_batch _ _ (ak_same _ _ K))|].
  destruct (Heach o Ho) as [_ [(z&Hz&_&Hp&Hs&Ht) _]]. rewrite Hx in Hz. injection Hz as <-.
  destruct (sealed_outputs _ _ _ _ _ Hout Hos o Ho) as (item&v&seen&Hi&Hv&Hno).
  destruct (item_output_fields _ _ _ _ _ _ Hv Hno) as (Ew'&Ea'&Ep&_).
  destruct (item_output_normalized _ _ _ _ _ _ _ _ (validate_groups _ _ _ _ _ Hw Hg) Hi Hv Hno) as [Hsha Hok].
  right; right. exists version, env, plan, records, g, path. split_and!; try done.
  { unfold _validated_sha256 in Hd. apply result_bind_Ok in Hd as (t&Ht'&Hd).
    apply _required_text_Ok in Ht' as [[= <-] _]. destruct (is_sha256 _); [|done]. by injection Hd. }
  exists item, (out_output_sha256 o). rewrite Hp, Hs, Ht, Ep, Hok.
  split_and!; try done. rewrite (sa_work _ _ (ak_same _ _ K)). congruence.
Qed.
