(* ===== verification/ProcessExecutorTheorems.v ===== *)
(** * What the executor emits passes validation

    The records that the direct harness returns for a plan of a verified envelope are
    those that [validate_staged_records] demands, whatever the videos hold and
    however their processing fails. *)
From S2P Require Export Prelude PyFloat PyDict PyVal Json VideoSampling Tracking FrameProcessing PipelineRun Sha256 LocalStorage JsonTheorems ControlTypes ControlProcess PyNum CpuRuntime ProcessEnvelope ProcessEnvelopeTheorems ProcessPlan ProcessPlanTheorems ProcessRecords ProcessRecordsTheorems ProcessValidate ProcessExecutor ProcessRun ProcessValidateTheorems ProcessExecutorFacts ProcessRunSafety.
Import Video Tracking Frames Pipeline Cpu Process Plan Records Validate Executor Run.

(** ** The records of one video *)

(** Failures have named types; results have counted frames and a finite time. *)
Definition named (f : Failure) : Prop := is_blank (rs_type (fl_error f)) = false.
Definition sane_outcome (o : Outcome VideoRun) : Prop :=
  match o with
  | Raised f => named f
  | Returned run => (0 ≤ processed_frames (vr_result run))%Z ∧
      fisfinite (vr_processing_seconds run) = true ∧ fltb (vr_processing_seconds run) fzero = false
  end.

(** A raw record of the given identity and type. *)
Definition raw_ok (w a s t : string) (r : Dict) : Prop :=
  ∃ now text d payload, r = raw_dict now t w a s (status_of t) text d ∧ is_blank now = false ∧
    t ∈ RECORD_TYPES ∧ valid_details t d ∧ json_dumps true (VDict payload) = Ok text.

Lemma message_not_blank f : named f → is_blank (_exception_message f) = false.
Proof.
  intros H. unfold _exception_message. apply concat_not_blank. unfold raise_message.
  destruct (String.eqb (str_strip (rs_text (fl_error f))) "") eqn:E; [done|]. by rewrite blank_strip.
Qed.

Lemma record_raw now t work st payload d r w a s :
  _record now t work st payload d = Ok r →
  dict_get "work_id" work = VStr w → str_strip w = w → dict_get "attempt_id" work = VStr a → str_strip a = a →
  dict_get "source_video" work = VStr s → str_strip s = s → is_blank s = false →
  is_blank now = false → t ∈ RECORD_TYPES → valid_details t d → st = status_of t → raw_ok w a s t r.
Proof.
  intros H Hw Ew Ha Ea Hs Es Hb Hnow Ht Hd ->. unfold _record in H.
  apply result_bind_Ok in H as (w'&Hw'&H). apply result_bind_Ok in H as (a'&Ha'&H).
  apply result_bind_Ok in H as (s'&Hs'&H). apply result_bind_Ok in H as (text&Htext&[= <-]).
  unfold Executor._required_text in Hw'. rewrite Hw in Hw'. destruct (is_blank w); [done|]. injection Hw' as <-.
  unfold _optional_text in Ha'. rewrite Ha in Ha'. destruct (is_blank a); [done|]. injection Ha' as <-.
  unfold _source_video in Hs'. csimpl in Hs'. rewrite Hs, Hb in Hs'. injection Hs' as <-.
  rewrite Ew, Ea, Es. exists now, text, d, payload. done.
Qed.

(** One terminal record, then telemetry and line counts. *)
Lemma video_row_raw now work o raw w a s :
  process_video_row now work o = Ok raw → (∀ n, is_blank (now n) = false) → sane_outcome o →
  dict_get "work_id" work = VStr w → str_strip w = w → dict_get "attempt_id" work = VStr a → str_strip a = a →
  dict_get "source_video" work = VStr s → str_strip s = s → is_blank s = false →
  ∃ t0 r0 rest, raw = r0 :: rest ∧ t0 ∈ TERMINAL_TYPES ∧ raw_ok w a s t0 r0 ∧
    Forall (λ r, ∃ t, t ∈ ["telemetry"; "line_count"]%string ∧ raw_ok w a s t r) rest.
Proof.
  intros H Hnow Ho Hw Ew Ha Ea Hs Es Hb. unfold process_video_row in H. destruct o as [run|f].
  - destruct Ho as (Hf&Hx&Hx0).
    apply result_bind_Ok in H as (head&Hhead&H). apply result_bind_Ok in H as (tel&_&H).
    apply result_bind_Ok in H as (people&Hpeople&H). apply result_bind_Ok in H as (counts&_&H).
    apply result_bind_Ok in H as (lines&Hlines&[= <-]).
    exists "video_result"%string, head, (people ++ lines). split_and!; [done|by left| |].
    { eapply record_raw; try done; [by left|]. right; left. split; [done|]. eauto 10. }
    apply map_result_Ok in Hpeople, Hlines. apply Forall_app. split.
    + apply Forall_forall. intros r (j&Hj)%list_elem_of_lookup.
      destruct (Forall2_lookup_r _ _ _ _ _ Hpeople Hj) as (kp&_&Hr). exists "telemetry"%string.
      split; [left|]. eapply record_raw; try done; [right; right; left|].
      right; right. split; [by left|done].
    + apply Forall_forall. intros r (j&Hj)%list_elem_of_lookup.
      destruct (Forall2_lookup_r _ _ _ _ _ Hlines Hj) as (kp&_&Hr). exists "line_count"%string.
      split; [right; left|]. eapply record_raw; try done; [right; right; right; left|].
      right; right. split; [by right|done].
  - apply result_bind_Ok in H as (r&Hr&[= <-]). exists "error"%string, r, [].
    split_and!; [done|right; left| |constructor].
    eapply record_raw; try done; [right; left|]. left. split; [done|].
    eexists _, _. split; [done|]. split; [done|by apply message_not_blank].
Qed.

Lemma dict_text_not_blank payload text : json_dumps true (VDict payload) = Ok text → is_blank text = false.
Proof.
  unfold json_dumps. destruct (json_codes true (VDict payload)) as [t|] eqn:E; simpl; [|done]. intros [= <-].
  pose proof (json_codes_ascii _ _ _ E) as Ha. rewrite blank_codes, codes_of_codes.
  - apply json_codes_dict in E as (ts&_&->). done.
  - eapply Forall_impl; [exact Ha|]. unfold ascii. intros; lia.
Qed.

(** ** The records of one row *)

Lemma raw_terminal now t w a s text d :
  is_terminal (raw_dict now t w a s (status_of t) text d) = bool_decide (t ∈ TERMINAL_TYPES).
Proof.
  unfold is_terminal, TERMINAL_TYPES. simpl. rewrite orb_false_r. case_bool_decide as E.
  - apply orb_true_iff. rewrite !String.eqb_eq. set_solver.
  - apply orb_false_iff. rewrite !String.eqb_neq. set_solver.
Qed.

Section rows.
Context (env : VerifiedEnvelope) (plan : ExecutionPlan) (profile : ExecutionProfile) (mode : string).
Context (attempt model version s : string) (task : Dict) (p : PlannedItem).
Context (identity : TaskIdentity) (threads : Z) (_version : result string).
Context (Hversion : _version = Ok version) (Hattempt : execution_attempt_id env = Ok attempt)
  (Hmodel : _model_identity (i_payload (pi_item p)) = Ok model)
  (Hsrc : dict_get "source_video" (i_payload (pi_item p)) = VStr s) (Hs : is_blank s = false)
  (Hexpected : expected_items env !! item_identity (pi_item p) = Some (pi_item p))
  (Hplanned : planned_items plan !! item_identity (pi_item p) = Some p).

Let row : Dict := planned_row env (xp_concurrency plan) profile mode attempt model version task p.
Let sound loads hits : Prop :=
  sound_stamp env (xp_concurrency plan) attempt model version p identity threads loads hits.
Let w := i_work_id (pi_item p).
Let a := i_attempt_id (pi_item p).

(** The records of one item, with what they say. *)
Definition item_findings (l : list (Dict * RecordFinding)) : Prop :=
  Forall (λ rf, examined _version env plan rf.1 rf.2 ∧ fi_identity rf.2 = item_identity (pi_item p)) l.

Lemma normalize_Ok {R K} (cache : @RuntimeCache R K) selected pos n raw outs :
  sound (rc_loads cache) (rc_hits cache) →
  normalize_records _version row identity threads cache selected pos n raw = Ok outs →
  Forall (λ r, ∃ t, raw_ok w a s t r) raw →
  ∃ l, outs = l.*1 ∧ item_findings l ∧ fi_sequence <$> l.*2 = Z.of_nat <$> seq n (length l) ∧
    length (List.filter (λ rf, fi_terminal rf.2) l) = length (List.filter is_terminal raw).
Proof.
  intros So. revert pos n outs. induction raw as [|r raw IH]; intros pos n outs H Hr; cbn [normalize_records] in H.
  - injection H as <-. exists []. by repeat split; constructor.
  - apply Forall_cons in Hr as [(t&now&text&d&pl&->&Hnow&Ht&Hd&Htext) Hr].
    apply result_bind_Ok in H as (payload&Hp&H).
    assert (Hload : json_loads_text text = Ok (VDict payload)).
    { unfold record_payload in Hp. cbn [record_item raw_dict dict_lookup String.eqb Ascii.eqb Bool.eqb mbind result_bind] in Hp. destruct (json_loads_text text) as [v|]; [|done].
      simpl in Hp. destruct v; try done. by injection Hp as ->. }
    pose proof (raw_terminal now t w a s text d) as Et.
    destruct (is_line_count _ && _) eqn:Eskip.
    + destruct (IH _ _ _ H Hr) as (l&->&Hl&Hseq&Hlen). exists l. split_and!; try done.
      cbn [List.filter]. apply andb_true_iff in Eskip as [El _]. unfold is_line_count in El. simpl in El.
      apply String.eqb_eq in El as ->. by rewrite Et.
    + apply result_bind_Ok in H as (fields&Hf&H). apply result_bind_Ok in H as (rest&Hrest&[= <-]).
      destruct (IH _ _ _ Hrest Hr) as (l&->&Hl&Hseq&Hlen).
      unfold row in Hf. rewrite (executor_fields_row _ _ _ _ _ _ _ _ _ _ _ _ _ _ _ Hversion) in Hf.
      apply result_bind_Ok in Hf as (digest&Hdigest&[= <-]).
      assert (X : examined _version env plan
        (merge (raw_dict now t w a s (status_of t) text d)
          (stamp env (xp_concurrency plan) attempt model version p identity threads (rc_loads cache)
             (rc_hits cache) digest n))
        {| fi_identity := item_identity (pi_item p); fi_sequence := Z.of_nat n;
           fi_terminal := bool_decide (t ∈ TERMINAL_TYPES) |}).
      { eapply stamped_examined; try done. by eapply dict_text_not_blank. }
      eexists ((_, _) :: l). cbn [fmap list_fmap fst snd List.filter length seq]. split; [reflexivity|].
      split; [constructor; [split; [exact X|done]|done]|].
      cbn [fi_sequence fi_terminal]. rewrite Hseq. split; [done|]. rewrite Et.
      destruct (bool_decide (t ∈ TERMINAL_TYPES)); cbn [length]; by rewrite Hlen.
Qed.
End rows.

(** ** The rows of one bucket *)

(** The findings of one item: records of its own, numbered from zero, one of them
    terminal. *)
Definition row_result (_version : result string) (env : VerifiedEnvelope) (plan : ExecutionPlan)
    (p : PlannedItem) (l : list (Dict * RecordFinding)) : Prop :=
  item_findings env plan p _version l ∧ NoDup (fi_sequence <$> l.*2) ∧
  length (List.filter (λ rf, fi_terminal rf.2) l) = 1%nat.

Section executor.
Context (task_context : option TaskIdentity).
Context {C K R : Type} `{!EqDecision K}.
Context (_config_from_work : Dict → Outcome C) (_runtime_cache_key : C → K).
Context (load_runtime : C → Outcome R) (run_with_runtime : C → R → Outcome VideoRun).
Context (sleep : Float → option Failure) (utc_now : pyval → pyval → nat → string).
Context {Libs : Type} {NL : NativeLibraries Libs}.
Context (_version : result string).

(** What the parameters of the executor promise. *)
Record lawful : Prop := {
  la_config : ∀ row f, _config_from_work row = Raised f → named f;
  la_load : ∀ cfg f, load_runtime cfg = Raised f → named f;
  la_run : ∀ cfg r, sane_outcome (run_with_runtime cfg r);
  la_sleep : ∀ x, match sleep x with
    | Some f => named f
    | None => fisfinite x = true ∧ fltb x fzero = false
    end;
  la_now : ∀ w a n, is_blank (utc_now w a n) = false;
}.
Context (L : lawful).

Notation run_processor := (run_processor _config_from_work _runtime_cache_key load_runtime run_with_runtime sleep).

Lemma zero_delay x : feqb x fzero = true → fisfinite x = true ∧ fltb x fzero = false.
Proof.
  destruct x as [s|s| |s m e]; try done; by destruct s.
Qed.

Definition counted_cache (c : @RuntimeCache K R) : Prop := (0 ≤ rc_loads c ∧ 0 ≤ rc_hits c)%Z.

Lemma processor_sane pr row c o c' :
  run_processor pr row c = (o, c') → counted_cache c → sane_outcome o ∧ counted_cache c'.
Proof.
  intros H [C1 C2]. unfold Executor.run_processor in H.
  destruct (_config_from_work row) as [cfg|f] eqn:Ec.
  - destruct pr as [|delay].
    + unfold sdk_run, get_or_load in H. destruct (dget _ (rc_items c)) as [rt|].
      * injection H as <- <-. split; [apply (la_run L)|]. split; simpl; lia.
      * destruct (load_runtime cfg) as [rt|f] eqn:El; injection H as <- <-.
        -- split; [apply (la_run L)|]. split; simpl; lia.
        -- split; [by eapply (la_load L)|done].
    + injection H as <- <-. split; [|done]. unfold probe_run.
      destruct (feqb delay fzero) eqn:E0.
      * split; [done|]. by apply zero_delay.
      * pose proof (la_sleep L delay). destruct (sleep delay); [done|]. by split.
  - injection H as <- <-. split; [by eapply (la_config L)|done].
Qed.

Context (env : VerifiedEnvelope) (plan : ExecutionPlan) (profile : ExecutionProfile) (mode : string).
Context (attempt version : string).
Context (Hversion : _version = Ok version) (Hattempt : execution_attempt_id env = Ok attempt).

(** [row] is the row of the planned item [p], whose identity and source are clean. *)
Definition row_for (task : Dict) (identity : TaskIdentity) (threads : Z) (p : PlannedItem) (row : Dict) : Prop :=
  ∃ model s, row = planned_row env (xp_concurrency plan) profile mode attempt model version task p ∧
    _model_identity (i_payload (pi_item p)) = Ok model ∧
    dict_get "source_video" (i_payload (pi_item p)) = VStr s ∧ is_blank s = false ∧ str_strip s = s ∧
    str_strip (i_work_id (pi_item p)) = i_work_id (pi_item p) ∧
    str_strip (i_attempt_id (pi_item p)) = i_attempt_id (pi_item p) ∧
    expected_items env !! item_identity (pi_item p) = Some (pi_item p) ∧
    planned_items plan !! item_identity (pi_item p) = Some p ∧
    ∀ loads hits, (0 ≤ loads ∧ 0 ≤ hits)%Z →
      sound_stamp env (xp_concurrency plan) attempt model version p identity threads loads hits.

Notation execute_row := (execute_row _config_from_work _runtime_cache_key load_runtime run_with_runtime sleep utc_now _version).
Notation execute_rows := (execute_rows _config_from_work _runtime_cache_key load_runtime run_with_runtime sleep utc_now _version).

Lemma execute_row_Ok pr task identity threads p row c outs c' :
  row_for task identity threads p row → counted_cache c →
  execute_row pr identity threads row c = (Ok outs, c') →
  counted_cache c' ∧ ∃ l, outs = l.*1 ∧ row_result _version env plan p l.
Proof.
  intros (model&s&->&Hm&Hs&Hb&Es&Ew&Ea&He&Hp&So) Hc H. unfold Executor.execute_row in H.
  destruct (run_processor _ _ c) as [o c1] eqn:Er.
  destruct (processor_sane _ _ _ _ _ Er Hc) as [Ho Hc1]. injection H as H <-. split; [done|].
  apply result_bind_Ok in H as (raw&Hraw&H). apply result_bind_Ok in H as (lines&_&H).
  apply result_bind_Ok in H as (selected&_&H).
  destruct (video_row_raw _ _ _ _ (i_work_id (pi_item p)) (i_attempt_id (pi_item p)) s Hraw) as
    (t0&r0&rest&->&Ht0&Hr0&Hrest); try done; [intros n; apply (la_now L)|apply row_get; reflexivity|apply row_get; reflexivity|..].
  { unfold dict_get. rewrite row_lookup. cbn [String.eqb Ascii.eqb Bool.eqb]. exact Hs. }
  assert (Hall : Forall (λ r, ∃ t, raw_ok (i_work_id (pi_item p)) (i_attempt_id (pi_item p)) s t r) (r0 :: rest)).
  { constructor; [by exists t0|]. eapply Forall_impl; [exact Hrest|]. intros r (t&_&Hr). by exists t. }
  eapply normalize_Ok in H as (l&->&Hl&Hseq&Hlen); try done; [|by apply So].
  exists l. split; [done|]. split; [done|]. split.
  - rewrite Hseq. apply NoDup_fmap_2; [apply _|]. apply NoDup_seq.
  - rewrite Hlen. cbn [List.filter]. destruct Hr0 as (now&text&d&pl&->&_). rewrite raw_terminal.
    rewrite bool_decide_eq_true_2 by done. cbn [length]. f_equal. apply length_zero_iff_nil.
    clear -Hrest. induction Hrest as [|r rest (t&Ht&now&text&d&pl&->&_) _ IH]; [done|].
    cbn [List.filter]. rewrite raw_terminal, bool_decide_eq_false_2; [done|].
    unfold TERMINAL_TYPES. set_solver.
Qed.

Lemma execute_rows_Ok pr task identity threads ps rows c outs :
  Forall2 (row_for task identity threads) ps rows → counted_cache c →
  execute_rows pr identity threads rows c = Ok outs →
  ∃ ls : list (list (Dict * RecordFinding)), outs = (concat ls).*1 ∧ Forall2 (row_result _version env plan) ps ls.
Proof.
  intros Hrows. revert c outs. induction Hrows as [|p row ps rows Hp _ IH]; intros c outs Hc H; simpl in H.
  - injection H as <-. exists []. by split; [|constructor].
  - destruct (execute_row _ _ _ row c) as [r c'] eqn:Er. apply result_bind_Ok in H as (em&->&H).
    apply result_bind_Ok in H as (rest&Hrest&[= <-]).
    destruct (execute_row_Ok _ _ _ _ _ _ _ _ _ Hp Hc Er) as (Hc'&l&->&Hl).
    destruct (IH _ _ Hc' Hrest) as (ls&->&Hls). exists (l :: ls). split; [by rewrite <- fmap_app|]. by constructor.
Qed.
End executor.
