(* ===== verification/ProcessDirectTheorems.v ===== *)
(** * The direct harness emits what validation demands

    The buckets of a plan are executed one after the other; whatever happens to the
    videos, the records that come back are complete for the verified envelope. *)
From S2P Require Export Prelude PyFloat PyDict PyVal Json Sha256 JsonTheorems ControlTypes ControlProcess ControlSpec PyNum CpuRuntime ProcessEnvelope ProcessEnvelopeTheorems ProcessPlan ProcessPlanTheorems ProcessRecords ProcessValidate ProcessExecutor ProcessRun ProcessScenario ProcessValidateTheorems ProcessExecutorFacts ProcessRunSafety ProcessExecutorTheorems.
Import Cpu Process Plan Records Validate Executor Run.

(** ** The items of a verified envelope *)

Record sound_item (i : EnvelopeItem) : Prop := {
  si_work : is_blank (i_work_id i) = false;
  si_attempt : is_blank (i_attempt_id i) = false;
  si_fence : (1 ≤ i_fence i)%Z;
  si_payload : is_sha256 (i_payload_sha256 i) = true;
  si_config : is_blank (i_config_sha256 i) = false;
  si_release : is_blank (i_release_digest i) = false;
  si_size : detector_batch_size (default (VInt 1) (dict_lookup "batch_size" (i_payload i))) = true;
}.

Lemma positive_int_Ok v z : _positive_int v = Ok z → v = VInt z ∧ (1 ≤ z)%Z.
Proof. unfold _positive_int. destruct v; try done. destruct (Z.ltb_spec z0 1); [done|]. intros [= <-]. by split. Qed.

Lemma sha_text_Ok v s : _sha_text v = Ok s → v = VStr s ∧ is_sha256 s = true ∧ is_blank s = false.
Proof.
  unfold _sha_text. intros (t&Ht&H)%result_bind_Ok. apply process_text_Ok in Ht as [-> Hb].
  destruct (is_sha256 t) eqn:E; [|done]. by injection H as <-.
Qed.

Lemma verify_item_sound key n ids raw i : verify_item key n ids raw = Ok i → sound_item i.
Proof.
  destruct raw as [| | | | | |d]; try done. cbn [verify_item]. intros H. res_inv H.
  destruct (dict_get "payload" d) as [| | | | | |pl]; try done. res_inv H. simplify_eq.
  repeat match goal with
  | E : _text _ = Ok _ |- _ => apply process_text_Ok in E as [_ E]
  | E : _sha_text _ = Ok _ |- _ => apply sha_text_Ok in E as (_&E&_)
  | E : _positive_int _ = Ok _ |- _ => apply positive_int_Ok in E as [_ E]
  end. by split.
Qed.

Lemma verify_items_sound key n ids raws l : verify_items key n ids raws = Ok l → Forall sound_item l.
Proof.
  revert n ids l. induction raws as [|raw raws IH]; simpl; intros n ids l H.
  - injection H as <-. constructor.
  - res_inv H. subst. constructor; [by eapply verify_item_sound|by eapply IH].
Qed.

Lemma verified_sound d id sha env :
  verify_envelope d id sha = Ok env →
  Forall sound_item (v_items env) ∧ is_sha256 (v_envelope_sha256 env) = true ∧
  is_sha256 (v_membership_sha256 env) = true ∧ is_blank (v_runtime_key env) = false.
Proof.
  unfold verify_envelope. intros H. res_inv H. destruct (dict_get "items" d) as [| | | | |[|raw raws]|]; try done.
  res_inv H. simplify_eq.
  repeat match goal with
  | E : _text _ = Ok _ |- _ => apply process_text_Ok in E as [_ E]
  | E : _sha_text _ = Ok _ |- _ => apply sha_text_Ok in E as (_&E&_)
  end. simpl. split_and!; try done. by eapply verify_items_sound.
Qed.

(** ** Planned items *)

(** A planned item of a plan, with its place. *)
Definition placed (p : PlannedItem) : Prop :=
  (0 ≤ pi_bucket_id p)%Z ∧ (0 ≤ pi_wave_index p)%Z ∧ (0 ≤ pi_physical_partition p)%Z ∧
  pi_planned_cost_seconds p = i_duration_seconds (pi_item p).

Lemma bucket_placed key b l p :
  p ∈ bp_items (bucket_of key b l) →
  placed p ∧ pi_physical_partition p = bp_physical_partition (bucket_of key b l).
Proof.
  unfold bucket_of. simpl. intros (i&Hi)%list_elem_of_lookup. rewrite list_lookup_imap in Hi.
  apply fmap_Some in Hi as (x&_&->). unfold placed. simpl. split_and!; [lia..|done|done].
Qed.

Lemma planned_lookup env plan p :
  NoDup (item_identity <$> v_items env) →
  pi_item <$> concat (bp_items <$> xp_buckets plan) ≡ₚ v_items env →
  p ∈ concat (bp_items <$> xp_buckets plan) →
  planned_items plan !! item_identity (pi_item p) = Some p ∧
  expected_items env !! item_identity (pi_item p) = Some (pi_item p).
Proof.
  intros Hn Hp Hin. split.
  - apply map_of_lookup; [|by apply (list_elem_of_fmap_2 (λ p, (item_identity (pi_item p), p)))].
    rewrite <-list_fmap_compose. change (fst ∘ _) with (item_identity ∘ pi_item). by rewrite list_fmap_compose, Hp.
  - apply expected_lookup; [done|]. split; [|done]. rewrite <-Hp. by apply list_elem_of_fmap_2.
Qed.

(** ** The thread budget *)

Lemma candidate_threads cpus planned cores l :
  candidate_budgets cpus planned cores = Ok l → Forall (λ b, 1 ≤ tb_threads_per_worker b)%Z l.
Proof.
  revert l. induction cores as [|c cores IH]; intros l H; simpl in H; [by injection H as <-|].
  apply result_bind_Ok in H as (k&_&H). destruct (k / cpus <? 1)%Z; [by apply IH|].
  apply result_bind_Ok in H as (b&Hb&H). apply result_bind_Ok in H as (rest&Hrest&[= <-]).
  constructor; [|by apply IH]. unfold calculate_thread_budget in Hb.
  apply result_bind_Ok in Hb as (u&_&Hb). apply result_bind_Ok in Hb as (v&_&[= <-]). simpl. lia.
Qed.

Lemma least_budget_ind (P : ThreadBudget → Prop) b l : P b → Forall P l → P (least_budget b l).
Proof.
  unfold least_budget. intros Hb H. revert b Hb. induction H as [|x l Hx _ IH]; intros b Hb; simpl; [done|].
  apply IH. by destruct (budget_ltb x b).
Qed.

Lemma placement_threads cores cpus planned b :
  calculate_placement_safe_thread_budget cores cpus planned = Ok b → (1 ≤ tb_threads_per_worker b)%Z.
Proof.
  unfold calculate_placement_safe_thread_budget. intros (u&_&H)%result_bind_Ok.
  apply result_bind_Ok in H as (v&_&H). apply result_bind_Ok in H as (l&Hl%candidate_threads&H).
  destruct Hl as [|x l Hx Hl]; [done|]. injection H as <-. by apply (least_budget_ind (λ b, 1 ≤ tb_threads_per_worker b)%Z).
Qed.

(** Whatever the process was before, the budget that a task uses has the threads
    that its cores allow. *)
Lemma apply_threads {Libs} `{!NativeLibraries Libs} budget native (pr pr' : @Cpu.Process Libs) b :
  _apply_thread_budget budget native pr = (Ok b, pr') → tb_threads_per_worker b = tb_threads_per_worker budget.
Proof.
  unfold _apply_thread_budget. intros (p&s1&[-> ->]%tx_get_Ok&H)%tx_bind_Ok.
  apply tx_bind_Ok in H as ([]&s2&[Hs ->]%tx_require_Ok&H).
  apply tx_bind_Ok in H as ([]&s3&->%tx_modify_Ok&H). destruct native.
  - apply tx_bind_Ok in H as ([]&s4&->%tx_modify_Ok&H). apply tx_bind_Ok in H as (p'&s5&[-> ->]%tx_get_Ok&H).
    apply tx_ret_Ok in H as [-> _]. cbn [ps_budget]. simpl in Hs.
    destruct (ps_budget pr) as [b0|] eqn:E0; simpl in *.
    + by apply Z.eqb_eq in Hs.
    + unfold native_limits. destruct (torch_set_num_interop_threads _ _); done.
  - by apply tx_ret_Ok in H as [-> _].
Qed.

(** ** The identity of a direct task *)

Lemma split_codes_one sep a b :
  sep ∉ a → sep ∉ b → split_codes sep (a ++ sep :: b) = [a; b].
Proof.
  intros Ha Hb. assert (Hone : split_codes sep b = [b]).
  { clear Ha. induction b as [|z b IH]; [done|]. cbn [split_codes].
    rewrite (proj2 (Z.eqb_neq z sep)) by set_solver. rewrite IH by set_solver. done. }
  induction a as [|z a IH]; cbn [app split_codes].
  - by rewrite Z.eqb_refl, Hone.
  - rewrite (proj2 (Z.eqb_neq z sep)) by set_solver. rewrite IH by set_solver. done.
Qed.

Lemma int_str_codes z : (0 ≤ z)%Z → codes_of_str (int_str z) = dec_digits z ∧ 64%Z ∉ dec_digits z.
Proof.
  intros Hz. unfold int_str, int_codes. rewrite (proj2 (Z.ltb_ge z 0)) by done.
  destruct (dec_digits_spec z Hz) as (d&ds&->&_&Hd&_). split.
  - apply codes_of_codes. eapply Forall_impl; [exact Hd|]. intros x. unfold is_digit.
    rewrite andb_true_iff, !Z.leb_le. lia.
  - intros Hin. rewrite Forall_forall in Hd. specialize (Hd _ Hin). done.
Qed.

Definition direct_name (z : Z) : string := "direct-" +:+ int_str z +:+ "@localhost".

Lemma direct_name_split z :
  (0 ≤ z)%Z → ∃ name, split_codes 64 (codes_of_str (direct_name z)) = [name; codes_of_str "localhost"] ∧ name ≠ [].
Proof.
  intros Hz. destruct (int_str_codes z Hz) as [Ez Hno]. exists (codes_of_str "direct-" ++ dec_digits z).
  split; [|done]. unfold direct_name. rewrite !codes_app, Ez.
  change (codes_of_str "@localhost") with (64%Z :: codes_of_str "localhost").
  rewrite app_assoc. apply split_codes_one; [|apply (bool_decide_unpack _); vm_compute; exact I].
  rewrite not_elem_of_app. split; [|done]. apply (bool_decide_unpack _). vm_compute. exact I.
Qed.

Lemma direct_name_not_blank z : is_blank (direct_name z) = false.
Proof. unfold direct_name. by rewrite blank_app. Qed.

(** ** One bucket *)

Lemma Ok_inj {A} (a b : A) : Ok a = Ok b → a = b.
Proof. by intros [= ->]. Qed.

Lemma sha256_sound v d : _sha256 v = Ok d → is_sha256 d = true.
Proof.
  unfold _sha256. destruct (_canonical v) as [u|]; [|done]. intros [= <-]. apply is_sha256_digest.
Qed.

Lemma attempt_not_blank env a : execution_attempt_id env = Ok a → is_blank a = false.
Proof.
  unfold execution_attempt_id. intros (sha&_&[= <-])%result_bind_Ok. by rewrite blank_app.
Qed.

(** The identifiers and the source that a work was registered with carry no
    surrounding white space. *)
Definition clean (i : EnvelopeItem) : Prop :=
  str_strip (i_work_id i) = i_work_id i ∧ str_strip (i_attempt_id i) = i_attempt_id i ∧
  ∃ s, dict_get "source_video" (i_payload i) = VStr s ∧ is_blank s = false ∧ str_strip s = s.

Definition direct_task (b : BucketPlan) : TaskIdentity := {|
  ti_stage_id := 0; ti_partition_id := bp_physical_partition b; ti_task_attempt_id := bp_bucket_id b;
  ti_attempt_number := 0; ti_executor_identity := direct_name (bp_physical_partition b);
  ti_executor_host := "localhost" |}.

Lemma direct_row_identity context b row :
  dict_lookup "_task_identity" row = Some (VDict (direct_identity b)) →
  (0 ≤ bp_physical_partition b)%Z → (0 ≤ bp_bucket_id b)%Z →
  _task_identity context row = Ok (direct_task b).
Proof.
  intros H Hp Hb. unfold _task_identity, dict_get. rewrite H. unfold direct_identity, get_or.
  cbn [dict_lookup default String.eqb Ascii.eqb Bool.eqb].
  apply result_bind_Ok. eexists. split; [apply (text_Ok (direct_name _)), direct_name_not_blank|].
  cbv beta iota zeta. apply result_bind_Ok. eexists. split; [by apply nonnegative_int_run|].
  do 2 (apply result_bind_Ok; eexists; split; [by apply nonnegative_int_run|]).
  apply result_bind_Ok. eexists. split; [by apply nonnegative_int_run|].
  apply result_bind_Ok. eexists. split; [by apply text_Ok|]. reflexivity.
Qed.

(** ** The identity that records carry *)

Lemma lookup_merge_other k d updates : k ∉ updates.*1 → dict_lookup k (merge d updates) = dict_lookup k d.
Proof.
  unfold merge. revert d. induction updates as [|[j v] updates IH]; intros d H; [done|]. csimpl in H. simpl.
  rewrite IH by set_solver. rewrite lookup_dict_put. destruct (String.eqb_spec k j); [set_solver|done].
Qed.

(** The identity and the source of an emitted record carry no surrounding space. *)
Definition emitted (r : Dict) : Prop :=
  (∀ w, dict_get "work_id" r = VStr w → str_strip w = w) ∧
  (∀ a, dict_get "attempt_id" r = VStr a → str_strip a = a) ∧
  ∃ s, dict_get "source_video" r = VStr s ∧ is_blank s = false ∧ str_strip s = s.

Lemma source_video_clean work s : _source_video work = Ok s → is_blank s = false ∧ str_strip s = s.
Proof.
  unfold _source_video. destruct (omap _ _) as [|x l] eqn:E; [done|]. intros [= <-].
  assert (H : x ∈ x :: l) by left. rewrite <-E in H. apply list_elem_of_omap in H as (name&_&H).
  destruct (dict_get name work) as [| | | |v| |]; try done. destruct (is_blank v) eqn:Eb; [done|].
  injection H as <-. by rewrite blank_strip, strip_idem.
Qed.

Lemma record_emitted now t work st payload d r : _record now t work st payload d = Ok r → emitted r.
Proof.
  intros H. unfold _record in H. apply result_bind_Ok in H as (w&Hw&H). apply result_bind_Ok in H as (a&Ha&H).
  apply result_bind_Ok in H as (s&Hs&H). apply result_bind_Ok in H as (text&_&[= <-]).
  unfold emitted, dict_get. cbn [dict_lookup String.eqb Ascii.eqb Bool.eqb]. split_and!.
  - intros w' [= <-]. unfold Executor._required_text in Hw. destruct (dict_get _ _); try done.
    destruct (is_blank _); [done|]. injection Hw as <-. apply strip_idem.
  - intros a' E. simpl in E. subst a. unfold _optional_text in Ha. destruct (dict_get _ _); try done.
    destruct (is_blank _); [done|]. injection Ha as <-. apply strip_idem.
  - exists s. split; [done|]. by apply source_video_clean in Hs.
Qed.

Lemma map_result_Forall {A B} (f : A → result B) (P : B → Prop) l k :
  map_result f l = Ok k → (∀ x y, f x = Ok y → P y) → Forall P k.
Proof. intros H%map_result_Ok Hf. induction H; constructor; eauto. Qed.

Lemma video_row_emitted now work o raw : process_video_row now work o = Ok raw → Forall emitted raw.
Proof.
  intros H. unfold process_video_row in H. destruct o as [run|f].
  - apply result_bind_Ok in H as (head&Hhead&H). apply result_bind_Ok in H as (tel&_&H).
    apply result_bind_Ok in H as (people&Hpeople&H). apply result_bind_Ok in H as (counts&_&H).
    apply result_bind_Ok in H as (lines&Hlines&[= <-]). constructor; [by eapply record_emitted|].
    apply Forall_app. split; (eapply map_result_Forall; [eassumption|]); intros x y; apply record_emitted.
  - apply result_bind_Ok in H as (r&Hr&[= <-]). apply Forall_singleton. by eapply record_emitted.
Qed.

(** The columns that are added do not replace these three. *)
Lemma executor_fields_keys {R K} version row identity threads (c : @RuntimeCache R K) payload n fields k :
  executor_fields version row identity threads c payload n = Ok fields →
  k ∈ ["work_id"; "attempt_id"; "source_video"]%string → k ∉ fields.*1.
Proof.
  intros H Hk. unfold executor_fields in H. cbv zeta in H.
  assert (Hcopied : ∀ names l, map_result (λ name, v ← record_item name row; Ok (name, v)) names = Ok l → l.*1 = names).
  { intros names l Hl%map_result_Ok. induction Hl as [|x y l l' Hy _ IH]; [done|].
    apply result_bind_Ok in Hy as (v&_&[= <-]). csimpl. by rewrite IH. }
  apply result_bind_Ok in H as (first&H1%Hcopied&H). apply result_bind_Ok in H as (digest&_&H).
  apply result_bind_Ok in H as (second&H2%Hcopied&H). apply result_bind_Ok in H as (ver&_&H).
  apply result_bind_Ok in H as (third&H3%Hcopied&H). apply result_bind_Ok in H as (physical&_&H).
  apply Ok_inj in H. subst fields. rewrite !fmap_app, H1, H2, H3.
  repeat (apply elem_of_cons in Hk as [->|Hk]; [apply (bool_decide_unpack _); vm_compute; exact I|]).
  by apply elem_of_nil in Hk.
Qed.

Lemma normalize_emitted {R K} version row identity threads (c : @RuntimeCache R K) selected pos n raw outs :
  normalize_records version row identity threads c selected pos n raw = Ok outs →
  Forall emitted raw → Forall emitted outs.
Proof.
  revert pos n outs. induction raw as [|r raw IH]; intros pos n outs H Hr; cbn [normalize_records] in H.
  - injection H as <-. constructor.
  - apply Forall_cons in Hr as [(Hw&Ha&Hs) Hr]. apply result_bind_Ok in H as (payload&_&H).
    destruct (is_line_count r && _); [by eapply IH|].
    apply result_bind_Ok in H as (fields&Hf&H). apply result_bind_Ok in H as (rest&Hrest&[= <-]).
    constructor; [|by eapply IH]. unfold emitted, dict_get.
    rewrite !lookup_merge_other by (eapply executor_fields_keys; [exact Hf|set_solver]). by split_and!.
Qed.

Section direct.
Context (d : Dict) (id sha : string) (env : VerifiedEnvelope) (profile : ExecutionProfile).
Context (peak : option Z) (minimum : option pyval) (plan : ExecutionPlan) (mode version : string).
Context (Henv : verify_envelope d id sha = Ok env) (Hid : is_blank id = false).
Context (Hplan : plan_duration_lpt (v_items env) profile peak minimum = Ok plan).
Context (Hclean : Forall clean (v_items env)) (Hversion : is_blank version = false).

Lemma planned_sound attempt model p b threads loads hits :
  p ∈ bp_items b → b ∈ xp_buckets plan → execution_attempt_id env = Ok attempt →
  _model_identity (i_payload (pi_item p)) = Ok model → (1 ≤ threads)%Z → (0 ≤ loads ∧ 0 ≤ hits)%Z →
  sound_stamp env (xp_concurrency plan) attempt model version p (direct_task b) threads loads hits.
Proof.
  intros Hp [j Hb]%list_elem_of_lookup Ha Hm Ht Hl.
  destruct (verified_sound _ _ _ _ Henv) as (Hi&He&Hmem&Hkey).
  destruct (verify_envelope_proper _ _ _ _ Henv) as [_ Hproper].
  destruct (verified_identities _ _ _ _ Henv) as [_ Eid].
  pose proof (plan_facts _ _ _ _ _ _ _ _ Henv Hplan) as (Hperm&_&_&[Hc _]&_&Hof).
  destruct (Hof _ _ Hb) as [Eb _]. rewrite Eb in Hp. destruct (bucket_placed _ _ _ _ Hp) as [(B1&B2&B3&B4) B5].
  assert (Hin : pi_item p ∈ v_items env).
  { rewrite <-Hperm. apply list_elem_of_fmap_2, elem_of_concat. exists (bp_items b). split.
    - apply list_elem_of_fmap_2. by apply list_elem_of_lookup_2 in Hb.
    - rewrite Eb. exact Hp. }
  rewrite Forall_forall in Hi, Hproper. destruct (Hi _ Hin), (Hproper _ Hin) as [Hdur Hrk].
  apply plan_inv in Hplan as (_&_&Hcc&_). apply conservative_concurrency_bounds in Hcc as (_&Hpk&Epk).
  assert (Hphys : (0 ≤ bp_physical_partition b)%Z) by (rewrite Eb; simpl; lia).
  assert (Hbid : (0 ≤ bp_bucket_id b)%Z) by (rewrite Eb; simpl; lia).
  split; try done.
  - by rewrite Eid.
  - by eapply attempt_not_blank.
  - by rewrite Hrk.
  - by eapply sha256_sound.
  - lia.
  - intros z Hz. rewrite Epk in Hz. destruct (Hpk _ Hz). lia.
  - rewrite B5. simpl. by rewrite Eb.
  - by apply direct_name_split.
  - apply direct_name_not_blank.
Qed.

Lemma direct_rows_for _version attempt b rows threads :
  _version = Ok version → execution_attempt_id env = Ok attempt → b ∈ xp_buckets plan → (1 ≤ threads)%Z →
  direct_rows _version env plan profile mode b = Ok rows →
  Forall2 (row_for env plan profile mode attempt version (direct_identity b) (direct_task b) threads) (bp_items b) rows.
Proof.
  intros Hv Ha Hb Ht H. apply map_result_Ok in H. eapply Forall2_impl_in; [exact H|].
  intros p row Hp Hrow. apply result_bind_Ok in Hrow as (r&Hr&[= <-]).
  unfold _executor_row in Hr. apply result_bind_Ok in Hr as (a'&Ha'&Hr). apply result_bind_Ok in Hr as (model&Hm&Hr).
  rewrite Ha in Ha'. injection Ha' as <-. rewrite Hv in Hr. cbn [mbind result_bind] in Hr. apply Ok_inj in Hr. subst r.
  destruct (verified_identities _ _ _ _ Henv) as [Hn _].
  pose proof (plan_facts _ _ _ _ _ _ _ _ Henv Hplan) as (Hperm&_).
  assert (Hin : p ∈ concat (bp_items <$> xp_buckets plan)).
  { apply elem_of_concat. exists (bp_items b). split; [by apply list_elem_of_fmap_2|done]. }
  destruct (planned_lookup _ _ _ Hn Hperm Hin) as [Hpl Hex].
  assert (Hi : pi_item p ∈ v_items env) by (rewrite <-Hperm; by apply list_elem_of_fmap_2).
  rewrite Forall_forall in Hclean. destruct (Hclean _ Hi) as (Hw&Hat&s&Hs&Hsb&Hss).
  exists model, s. split; [reflexivity|]. split_and!; try done.
  intros loads hits Hl. by apply planned_sound.
Qed.
End direct.

(** ** All buckets *)

Section harness.
Context (task_context : option TaskIdentity).
Context {C K R : Type} `{!EqDecision K}.
Context (_config_from_work : Dict → Outcome C) (_runtime_cache_key : C → K).
Context (load_runtime : C → Outcome R) (run_with_runtime : C → R → Outcome VideoRun).
Context (sleep : Float → option Failure) (utc_now : pyval → pyval → nat → string).
Context {Libs : Type} `{!NativeLibraries Libs}.
Context (_version : result string).

Notation execute_sjd_partition := (execute_sjd_partition task_context _config_from_work
  _runtime_cache_key load_runtime run_with_runtime sleep utc_now _version).
Notation execute_rows := (execute_rows _config_from_work _runtime_cache_key load_runtime
  run_with_runtime sleep utc_now _version).

(** What a successful partition has run. *)
Lemma partition_inv rows (p p' : @Cpu.Process Libs) outs :
  execute_sjd_partition rows p = (Ok outs, p') → rows ≠ [] →
  ∃ first rest identity processor threads, rows = first :: rest ∧
    _task_identity task_context first = Ok identity ∧ (1 ≤ threads)%Z ∧
    execute_rows processor identity threads rows empty_cache = Ok outs.
Proof.
  intros H Hne. destruct rows as [|first rest]; [done|]. unfold Executor.execute_sjd_partition in H.
  apply tx_bind_Ok in H as (identity&s1&[Hi ->]%tx_lift_Ok&H).
  apply tx_bind_Ok in H as (expected&s2&[_ ->]%tx_lift_Ok&H). apply tx_bind_Ok in H as (u3&s3&[_ ->]%tx_require_Ok&H).
  apply tx_bind_Ok in H as (cores&s4&[_ ->]%tx_lift_Ok&H). apply tx_bind_Ok in H as (cpus&s5&[_ ->]%tx_lift_Ok&H).
  apply tx_bind_Ok in H as (u6&s6&[_ ->]%tx_require_Ok&H). apply tx_bind_Ok in H as (u7&s7&[_ ->]%tx_require_Ok&H).
  apply tx_bind_Ok in H as (observed&s8&[_ ->]%tx_lift_Ok&H). apply tx_bind_Ok in H as (u9&s9&[_ ->]%tx_lift_Ok&H).
  apply tx_bind_Ok in H as (planned&s10&[_ ->]%tx_lift_Ok&H). apply tx_bind_Ok in H as (sdk&s11&[_ ->]%tx_lift_Ok&H).
  apply tx_bind_Ok in H as (budget&s12&Hbudget&H). apply tx_bind_Ok in H as (u13&s13&_&H).
  apply tx_bind_Ok in H as (processor&s14&_&H). apply tx_lift_Ok in H as [H _].
  exists first, rest, identity, processor, (tb_threads_per_worker budget). split_and!; try done.
  unfold configure_placement_safe_cpu_runtime in Hbudget.
  apply tx_bind_Ok in Hbudget as (b&s&[Hb _]%tx_lift_Ok&Hbudget). apply apply_threads in Hbudget as ->.
  by apply placement_threads in Hb.
Qed.

Lemma rows_emitted pr identity threads rows c outs :
  execute_rows pr identity threads rows c = Ok outs → Forall emitted outs.
Proof.
  revert c outs. induction rows as [|row rows IH]; intros c outs H; cbn [Executor.execute_rows] in H.
  - injection H as <-. constructor.
  - destruct (execute_row _ _ _ _ _ _ _ _ _ _ row c) as [r c'] eqn:Er. apply result_bind_Ok in H as (em&->&H).
    apply result_bind_Ok in H as (rest&Hrest&[= <-]). apply Forall_app. split; [|by eapply IH].
    unfold execute_row in Er. destruct (run_processor _ _ _ _ _ _ _ c) as [o c1]. injection Er as Er _.
    apply result_bind_Ok in Er as (raw&Hraw&H). apply result_bind_Ok in H as (lines&_&H).
    apply result_bind_Ok in H as (selected&_&H). eapply normalize_emitted; [exact H|]. by eapply video_row_emitted.
Qed.

Lemma partition_emitted rows (p p' : @Cpu.Process Libs) outs :
  execute_sjd_partition rows p = (Ok outs, p') → Forall emitted outs.
Proof.
  destruct (decide (rows = [])) as [->|Hne].
  - intros [-> _]%tx_ret_Ok. constructor.
  - intros H. destruct (partition_inv _ _ _ _ H Hne) as (first&rest&identity&pr&threads&_&_&_&Hrun).
    by eapply rows_emitted.
Qed.

Lemma direct_emitted env plan profile mode bs (p p' : @Cpu.Process Libs) outs :
  direct_buckets task_context _config_from_work _runtime_cache_key load_runtime run_with_runtime
    sleep utc_now _version env plan profile mode bs p = (Ok outs, p') → Forall emitted outs.
Proof.
  revert p outs. induction bs as [|b bs IH]; intros p outs H.
  - apply tx_ret_Ok in H as [-> _]. constructor.
  - cbn [direct_buckets] in H. apply tx_bind_Ok in H as (rows&s1&[_ ->]%tx_lift_Ok&H).
    apply tx_bind_Ok in H as (here&s2&Hhere&H). apply tx_bind_Ok in H as (rest&s3&Hrest&H).
    apply tx_ret_Ok in H as [-> ->]. apply Forall_app. split; [by eapply partition_emitted|by eapply IH].
Qed.

Context (d : Dict) (id sha : string) (env : VerifiedEnvelope) (profile : ExecutionProfile).
Context (peak : option Z) (minimum : option pyval) (plan : ExecutionPlan) (mode version : string).
Context (L : lawful _config_from_work load_runtime run_with_runtime sleep utc_now).
Context (Henv : verify_envelope d id sha = Ok env) (Hid : is_blank id = false).
Context (Hplan : plan_duration_lpt (v_items env) profile peak minimum = Ok plan).
Context (Hclean : Forall clean (v_items env)).
Context (Hversion : _version = Ok version) (Hblank : is_blank version = false).

Lemma bucket_rows b rows (p p' : @Cpu.Process Libs) outs :
  b ∈ xp_buckets plan → direct_rows _version env plan profile mode b = Ok rows →
  execute_sjd_partition rows p = (Ok outs, p') →
  ∃ ls : list (list (Dict * RecordFinding)), outs = (concat ls).*1 ∧
    Forall2 (row_result _version env plan) (bp_items b) ls.
Proof.
  intros Hb Hrows H. destruct (proj1 (list_elem_of_lookup _ _) Hb) as [j Hj].
  pose proof (plan_facts _ _ _ _ _ _ _ _ Henv Hplan) as (_&_&_&_&_&Hof).
  destruct (Hof _ _ Hj) as [Eb Hne].
  assert (Hnn : rows ≠ []).
  { intros ->. apply map_result_Ok, Forall2_length in Hrows. by destruct (bp_items b). }
  destruct (partition_inv _ _ _ _ H Hnn) as (first&rest&identity&pr&threads&->&Hi&Ht&Hrun).
  assert (∃ attempt, execution_attempt_id env = Ok attempt) as [attempt Hattempt].
  { pose proof Hrows as Hr. apply map_result_Ok in Hr. inversion Hr as [|p0 r0 ps rs Hp0 _]; subst.
    apply result_bind_Ok in Hp0 as (r&Hr'&_). unfold _executor_row in Hr'.
    apply result_bind_Ok in Hr' as (a&Ha&_). by exists a. }
  pose proof (direct_rows_for _ _ _ _ _ _ _ _ mode _ Henv Hid Hplan Hclean Hblank _ _ _ _ _ Hversion Hattempt Hb Ht Hrows)
    as Hfor.
  assert (identity = direct_task b) as ->.
  { inversion Hfor as [|p0 r0 ps rs Hp0 _]; subst. destruct Hp0 as (model&s&->&_).
    rewrite (direct_row_identity _ b) in Hi; [by injection Hi| |by rewrite Eb; simpl; lia..].
    apply row_lookup. }
  eapply execute_rows_Ok; try done. by split.
Qed.

Lemma buckets_rows bs (p p' : @Cpu.Process Libs) outs :
  bs ⊆ xp_buckets plan →
  direct_buckets task_context _config_from_work _runtime_cache_key load_runtime run_with_runtime
    sleep utc_now _version env plan profile mode bs p = (Ok outs, p') →
  ∃ ls : list (list (Dict * RecordFinding)), outs = (concat ls).*1 ∧
    Forall2 (row_result _version env plan) (concat (bp_items <$> bs)) ls.
Proof.
  revert p outs. induction bs as [|b bs IH]; intros p outs Hsub H.
  - apply tx_ret_Ok in H as [-> _]. exists []. by split; [|constructor].
  - cbn [direct_buckets] in H. apply tx_bind_Ok in H as (rows&s1&[Hrows ->]%tx_lift_Ok&H).
    apply tx_bind_Ok in H as (here&s2&Hhere&H). apply tx_bind_Ok in H as (rest&s3&Hrest&H).
    apply tx_ret_Ok in H as [-> ->].
    destruct (bucket_rows _ _ _ _ _ (Hsub _ (list_elem_of_here _ _)) Hrows Hhere) as (l1&->&H1).
    destruct (IH _ _ (λ x Hx, Hsub _ (list_elem_of_further _ _ _ Hx)) Hrest) as (l2&->&H2).
    exists (l1 ++ l2). rewrite concat_app, fmap_app. split; [done|]. csimpl. by apply Forall2_app.
Qed.
End harness.

(** ** Completeness *)

Definition planned_identity (p : PlannedItem) : string * string := item_identity (pi_item p).

Section complete.
Context (version : result string) (env : VerifiedEnvelope) (plan : ExecutionPlan).

Lemma row_identity p l f : row_result version env plan p l → f ∈ l.*2 → fi_identity f = planned_identity p.
Proof.
  intros (Hl&_) Hf. apply list_elem_of_fmap in Hf as (rf&->&Hrf). unfold item_findings in Hl.
  rewrite Forall_forall in Hl. by apply Hl.
Qed.

(** No record of the rows has another identity. *)
Lemma rows_identity ps ls f :
  Forall2 (row_result version env plan) ps ls → f ∈ (concat ls).*2 → fi_identity f ∈ planned_identity <$> ps.
Proof.
  induction 1 as [|p l ps ls Hl _ IH]; intros Hf; [by apply elem_of_nil in Hf|].
  cbn [concat] in Hf. rewrite fmap_app in Hf. csimpl. apply elem_of_app in Hf as [Hf|Hf]; [|right; by apply IH].
  rewrite (row_identity _ _ _ Hl Hf). left.
Qed.

Lemma terminals_none id (l : list (Dict * RecordFinding)) :
  (∀ f, f ∈ l.*2 → fi_identity f ≠ id) → terminals_of id l = [].
Proof.
  intros H. unfold terminals_of. apply list_filter_none. intros rf Hrf. apply andb_false_iff. left.
  apply bool_decide_eq_false_2, H. by apply list_elem_of_fmap_2.
Qed.

Lemma terminals_own p l :
  row_result version env plan p l → length (terminals_of (planned_identity p) l) = 1%nat.
Proof.
  intros Hl. destruct Hl as (Hf&Hn&<-). unfold terminals_of. f_equal. clear Hn.
  induction Hf as [|rf l [_ Hid] _ IH]; [done|]. cbn [List.filter].
  rewrite (bool_decide_eq_true_2 (fi_identity rf.2 = _)) by done. by rewrite IH.
Qed.

Lemma terminals_app id l k : terminals_of id (l ++ k) = terminals_of id l ++ terminals_of id k.
Proof. apply List.filter_app. Qed.

Lemma rows_complete ps ls :
  Forall2 (row_result version env plan) ps ls → NoDup (planned_identity <$> ps) →
  Forall (λ rf, examined version env plan rf.1 rf.2) (concat ls) ∧
  NoDup (logical_key <$> (concat ls).*2) ∧
  ∀ p, p ∈ ps → length (terminals_of (planned_identity p) (concat ls)) = 1%nat.
Proof.
  intros H. induction H as [|p l ps ls Hl H IH]; intros Hn.
  - split_and!; [constructor..|]. intros p Hp. by apply elem_of_nil in Hp.
  - csimpl in Hn. apply NoDup_cons in Hn as [Hp Hn]. destruct (IH Hn) as (Hx&Hd&Ht).
    cbn [concat]. pose proof Hl as (Hf&Hs&_). split_and!.
    + apply Forall_app. split; [|done]. eapply Forall_impl; [exact Hf|]. by intros rf [].
    + rewrite !fmap_app. apply NoDup_app. split; [|split; [intros k Hk Hk'|done]].
      * apply (NoDup_fmap_1 snd). by rewrite <-list_fmap_compose.
      * apply list_elem_of_fmap in Hk as (f&->&Hin), Hk' as (g&E&Hg).
        apply Hp. rewrite <-(row_identity _ _ _ Hl Hin).
        injection E as -> _. by eapply rows_identity.
    + intros q [->|Hq]%elem_of_cons; rewrite terminals_app, length_app.
      * rewrite terminals_own by done. rewrite terminals_none; [done|].
        intros f Hfin E. apply Hp. rewrite <-E. by eapply rows_identity.
      * rewrite Ht by done. rewrite terminals_none; [done|]. intros f Hfin E.
        rewrite (row_identity _ _ _ Hl Hfin) in E. apply Hp. rewrite E. by apply list_elem_of_fmap_2.
Qed.
End complete.

(** A validated item is the subject of an emitted record, so it is clean. *)
Lemma validated_clean version env plan records groups :
  NoDup (item_identity <$> v_items env) → Forall emitted records →
  validate_staged_records version records env plan = Ok groups → Forall clean (v_items env).
Proof.
  intros Hn He H. apply Forall_forall. intros item Hitem.
  destruct (validate_Ok _ _ _ _ _ Hn H) as (fs&Hl&(Hx&_&Ht)&_). specialize (Ht _ Hitem).
  destruct (terminals_of (item_identity item) (zip records fs)) as [|[r f] l] eqn:E; [done|].
  assert (Hin : (r, f) ∈ terminals_of (item_identity item) (zip records fs)) by (rewrite E; left).
  unfold terminals_of in Hin. apply elem_of_sfilter in Hin as [Hin Hid]. apply andb_true_iff in Hid as [Hid _].
  apply bool_decide_eq_true_1 in Hid. 
  pose proof (proj1 (Forall_forall _ _) Hx _ Hin) as X. pose proof (proj1 (Forall_forall _ _) He r) as Hr.
  apply elem_of_zip_l in Hin. destruct (Hr Hin) as (Hw&Ha&s&Hs&Hb&Es). simpl in *.
  destruct X as (t&payload&digest&i&p&_&[Xw _]%process_text_Ok&[Xa _]%process_text_Ok&Xe&_&(checks&Hc&Hall)&_).
  apply expected_lookup in Xe as [Xi Xid]; [|done].
  assert (i = item) as -> by (eapply (NoDup_fmap_eq item_identity); [done..|congruence]).
  rewrite Hid in Xw, Xa. split; [by apply Hw|]. split; [by apply Ha|]. exists s. split; [|done].
  unfold staged_checks in Hc. apply result_bind_Ok in Hc as (attempt&_&Hc). apply result_bind_Ok in Hc as (model&_&Hc).
  apply result_bind_Ok in Hc as (ver&_&[= <-]). cbv zeta in Hall.
  specialize (Hall "source_video"%string (dict_get "source_video" (i_payload item))). rewrite Hs in Hall.
  destruct (dict_get "source_video" (i_payload item)); try (discriminate Hall; set_solver).
  f_equal. symmetry. apply String.eqb_eq, Hall. set_solver.
Qed.

(** C9. Whatever the videos of a batch hold, and however reading or processing them
    fails, the records that the direct harness returns for the plan of a verified
    envelope pass [validate_staged_records]: they name their items, repeat the
    envelope and the plan, carry the digests of their payloads, and each item has
    exactly one terminal record.  This needs that every work was registered with an
    identity and a [source_video] free of surrounding white space: otherwise no
    execution of the batch ever validates. *)
Theorem direct_records_validate task_context {C K R Libs : Type} `{!EqDecision K}
    `{!NativeLibraries Libs} (_config_from_work : Dict → Outcome C) (_runtime_cache_key : C → K)
    (load_runtime : C → Outcome R) (run_with_runtime : C → R → Outcome VideoRun)
    (sleep : Float → option Failure) (utc_now : pyval → pyval → nat → string)
    d id sha env profile peak minimum plan mode version (p p' : @Cpu.Process Libs) records :
  lawful _config_from_work load_runtime run_with_runtime sleep utc_now →
  verify_envelope d id sha = Ok env → is_blank id = false →
  plan_duration_lpt (v_items env) profile peak minimum = Ok plan → is_blank version = false →
  direct_execute task_context _config_from_work _runtime_cache_key load_runtime run_with_runtime
    sleep utc_now (Ok version) env plan profile mode p = (Ok records, p') →
  (∃ groups, validate_staged_records (Ok version) records env plan = Ok groups) ↔ Forall clean (v_items env).
Proof.
  intros L Henv Hid Hplan Hv H. unfold direct_execute in H.
  destruct (verified_identities _ _ _ _ Henv) as [Hn _]. split.
  { intros [groups Hg]. eapply validated_clean; [done| |exact Hg]. by eapply direct_emitted. }
  intros Hclean. eapply buckets_rows in H as (ls&->&Hls); try done.
  pose proof (plan_facts _ _ _ _ _ _ _ _ Henv Hplan) as (Hperm&_).
  destruct (rows_complete _ _ _ _ _ Hls) as (Hx&Hd&Ht).
  { change (planned_identity) with (item_identity ∘ pi_item). by rewrite list_fmap_compose, Hperm. }
  apply (validate_run _ _ _ _ ((concat ls).*2)); [done|by rewrite !length_fmap|].
  rewrite zip_fst_snd. split; [done|]. split; [done|]. intros item Hitem.
  rewrite <-Hperm in Hitem. apply list_elem_of_fmap in Hitem as (q&->&Hq). by apply Ht.
Qed.

(** The claim of the scenario, as a mapping. *)
Definition claim_of (r : result (pyval * string)) : Dict * string :=
  match r with Ok (VDict d, sha) => (d, sha) | _ => ([], "") end.
Definition toy_claim : Dict * string := Eval vm_compute in
  claim_of (load_claim_envelope_with_digest (VStr "b0") claimed_store).1.

Definition no_envelope : VerifiedEnvelope := {|
  v_batch_id := ""; v_owner := ""; v_runtime_key := ""; v_claimed_at := fzero; v_lease_expires_at := fzero;
  v_membership_sha256 := ""; v_envelope_sha256 := ""; v_items := [] |}.
Definition toy_envelope : VerifiedEnvelope := Eval vm_compute in
  or_else no_envelope (verify_envelope toy_claim.1 "b0" toy_claim.2).

Definition no_decision : ConcurrencyDecision := {|
  cd_concurrency := 0; cd_item_limit := 0; cd_profile_limit := 0; cd_cpu_limit := 0; cd_memory_limit := None;
  cd_peak_rss_bytes := None; cd_duration_only_fallback := false |}.
Definition no_plan : ExecutionPlan := {|
  xp_concurrency := no_decision; xp_buckets := []; xp_waves := []; xp_projected_makespan_seconds := fzero |}.
Definition toy_plan : ExecutionPlan := Eval vm_compute in
  or_else no_plan (plan_duration_lpt (v_items toy_envelope) LOCAL_TWO_WORKERS None None).

Definition toy_executed : result (list Dict) * Cpu.Process := Eval vm_compute in
  toy_execute toy_config toy_envelope toy_plan LOCAL_TWO_WORKERS "probe" fresh_process.
Definition toy_records : list Dict := Eval vm_compute in or_else [] toy_executed.1.

Lemma toy_lawful : lawful toy_config (λ _, Returned tt)
  (λ _ _, Returned {| vr_result := probe_result; vr_processing_seconds := fzero |}) toy_sleep toy_now.
Proof.
  split; intros; try done.
  - unfold toy_config in H. destruct (py_eqb _ _); [|done]. by injection H as <-.
  - unfold toy_sleep. destruct (fisfinite x) eqn:E1, (fltb x fzero) eqn:E2; done.
Qed.

Lemma toy_execution : toy_execute toy_config toy_envelope toy_plan LOCAL_TWO_WORKERS "probe" fresh_process =
  (Ok toy_records, toy_executed.2).
Proof. vm_cast_no_check (eq_refl (Ok toy_records, toy_executed.2)). Qed.

Lemma direct_records_validate_witness :
  length toy_records = 2%nat ∧
  ∃ groups, validate_staged_records (Ok "1.2.3"%string) toy_records toy_envelope toy_plan = Ok groups.
Proof.
  split; [reflexivity|].
  apply (direct_records_validate None toy_config (λ _, tt) (λ _, Returned tt)
    (λ _ _, Returned {| vr_result := probe_result; vr_processing_seconds := fzero |}) toy_sleep toy_now
    toy_claim.1 "b0" toy_claim.2 toy_envelope LOCAL_TWO_WORKERS None None toy_plan "probe" "1.2.3"
    fresh_process toy_executed.2 toy_records toy_lawful).
  - vm_cast_no_check (eq_refl (@Ok VerifiedEnvelope toy_envelope)).
  - reflexivity.
  - vm_cast_no_check (eq_refl (@Ok ExecutionPlan toy_plan)).
  - reflexivity.
  - exact toy_execution.
  - repeat constructor; (eexists; split; [reflexivity|split; reflexivity]).
Defined.
