(* ===== verification/ProcessRunTheorems.v ===== *)
(** * Process runs: staged results and correctness

    A run that has staged its records can load them again: the directory holds the
    records that it read back, in order, and a marker that matches them.  Whatever the
    surroundings do and wherever a run is killed, the store publishes only what the
    attempt directory holds. *)
From S2P Require Export Prelude PyDict PyVal Json Sha256 JsonTheorems ControlTypes ControlClaim ControlProcess ControlEnvelope ControlInv ControlSafety ControlSpec ControlFiles ControlTotal ProcessEnvelope ProcessPlan ProcessRecords ProcessRecordsTheorems ProcessValidate ProcessRun ProcessScenario ProcessValidateTheorems ProcessRunSafety.
Import Process Plan Records Validate Run.

(** ** The marker *)

Lemma marker_safe env records marker :
  _success_marker env records = Ok marker → json_safe (VDict marker) = true.
Proof.
  unfold _success_marker. intros H. res_inv H. simplify_eq. cbn. rewrite !andb_true_r.
  apply forallb_forall. intros v Hv. by apply list_elem_of_In, list_elem_of_fmap in Hv as (s&->&_).
Qed.

(** The marker that is read back matches the records. *)
Lemma marker_reads env records marker content path d :
  _success_marker env records = Ok marker → _canonical (VDict marker) = Ok content →
  d_texts d !! marker_path path = Some content →
  ∃ m, read_json_dict (marker_path path) d = Ok m ∧ _verify_marker m records env = Ok tt.
Proof.
  intros Hm Hc Ht. pose proof (marker_safe _ _ _ Hm) as Hs.
  exists (sort_keys ((λ kv, (kv.1, json_sorted kv.2)) <$> marker)). split.
  - unfold read_json_dict, _read_json, read_text. rewrite Ht. cbn [mbind result_bind].
    by rewrite (canonical_reads _ _ Hs Hc).
  - unfold _verify_marker. rewrite Hm. cbn [mbind result_bind].
    pose proof (canonical_equal _ _ Hs Hc) as E. cbn [json_sorted] in E. by rewrite E.
Qed.

(** ** The parts that touch files *)

Section staged.
Context (sr : Surroundings) (k : string) (root : Path).
Context (Hothers : ∀ t s, rtc (spares k) s (sr_others sr t s)).

Lemma on_disk_read_Ok {A} (f : Disk → result A) W a W' :
  on_disk sr (d ← tx_get; tx_lift (f d)) W = (Ok a, W') →
  f (w_disk W) = Ok a ∧ w_disk W' = w_disk W.
Proof.
  intros H. unfold on_disk, mbind, tx_bind, tick in H. destruct (sr_dies sr (w_time W)); [done|].
  cbv [effect tx_get tx_lift] in H.
  injection H as H <-. rewrite elapse_disk in H. split; [done|]. apply elapse_disk.
Qed.

Lemma load_complete_Ok b t W o W' :
  load_complete sr root b t W = (Ok o, W') →
  ∃ path, attempt_path root b t = Ok path ∧ load_attempt path (w_disk W') = Ok o.
Proof.
  intros H. unfold load_complete in H. apply tx_bind_Ok in H as (path&W1&[Hp ->]%tx_lift_Ok&H).
  apply on_disk_read_Ok in H as [H E]. exists path. by rewrite E.
Qed.

Lemma read_records_Ok b t W l W' :
  read_records sr root b t W = (Ok l, W') →
  ∃ path, attempt_path root b t = Ok path ∧ read_attempt_records path (w_disk W') = Ok l.
Proof.
  intros H. unfold read_records in H. apply tx_bind_Ok in H as (path&W1&[Hp ->]%tx_lift_Ok&H).
  apply on_disk_read_Ok in H as [H E]. exists path. by rewrite E.
Qed.

Lemma write_records_Ok b t l W path W' :
  sane k W → write_records sr root b t l W = (Ok path, W') →
  attempt_path root b t = Ok path ∧ path ∈ d_dirs (w_disk W') ∧
  ∃ content, _canonical (records_value (order_records l)) = Ok content ∧
    d_texts (w_disk W') !! records_path path = Some content.
Proof.
  intros S H. unfold write_records in H. apply tx_bind_Ok in H as (p&W1&[Hp ->]%tx_lift_Ok&H).
  apply tx_bind_Ok in H as ([]&W2&Hmk&H). pose proof Hmk as Hq.
  apply (quiet_mkdirs sr k Hothers) in Hq as [S2 _]; [|done].
  apply tx_bind_Ok in H as (content&W3&[Hc ->]%tx_lift_Ok&H).
  apply tx_bind_Ok in H as ([]&W4&Hw&[= <- <-]).
  apply (write_new_spec sr k Hothers) in Hw as (_&[_ _ D]&Ht); [|done].
  split; [done|]. split; [|eauto]. apply D.
  unfold on_disk, mbind, tx_bind, tick in Hmk. destruct (sr_dies sr (w_time W)); [done|].
  cbv [effect tx_get tx_require tx_modify tx_lift] in Hmk. destruct (negb _); [|done].
  cbn [require] in Hmk. injection Hmk as <-. simpl. apply elem_of_union_l, elem_of_list_to_set.
  unfold ancestors. apply list_elem_of_fmap. exists (length p). split; [by rewrite take_ge|].
  apply elem_of_seq. split; [|lia]. unfold attempt_path in Hp.
  apply result_bind_Ok in Hp as (?&_&Hp). apply result_bind_Ok in Hp as (?&_&[= <-]).
  rewrite length_app. simpl. lia.
Qed.

Lemma create_success_Ok b t marker W W' :
  sane k W → create_success sr root b t marker W = (Ok tt, W') →
  ∃ path content, attempt_path root b t = Ok path ∧ _canonical (VDict marker) = Ok content ∧
    d_texts (w_disk W') !! marker_path path = Some content.
Proof.
  intros S H. unfold create_success in H. apply tx_bind_Ok in H as (p&W1&[Hp ->]%tx_lift_Ok&H).
  apply tx_bind_Ok in H as (content&W2&[Hc ->]%tx_lift_Ok&H). exists p, content. split_and!; [done..|].
  unfold effect in H. destruct (write_new sr _ content W) as [r W3] eqn:Ew.
  pose proof (write_new_spec sr k Hothers _ _ _ _ _ S Ew) as (_&_&Ht).
  destruct r as [[]|e]; [injection H as <-; by apply Ht|].
  destruct e; try done. injection H as Hr <-.
  apply result_bind_Ok in Hr as (text&Hread&Heq%require_Ok). apply bool_decide_eq_true in Heq as ->.
  unfold read_text in Hread. by destruct (d_texts (w_disk W3) !! marker_path p); simplify_eq.
Qed.

(** ** Staging *)

(** Files that stay: what is loaded before is loaded after. *)
Lemma staged_grown env records path W W' :
  grown k W W' → staged_at root env records path (w_disk W) →
  staged_at root env records path (w_disk W').
Proof. intros [_ T D]. by apply staged_mono. Qed.

Lemma read_attempt_text path d l :
  read_attempt_records path d = Ok l →
  is_file (records_path path) d = true ∧
  ∃ items, read_json_list (records_path path) d = Ok items ∧ _ordered_records items = Ok l.
Proof.
  unfold read_attempt_records. intros H. apply result_bind_Ok in H as ([]&Hf%require_Ok&H).
  apply result_bind_Ok in H as (items&Hi&H). eauto.
Qed.

Lemma load_staged path d content l m :
  path ∈ d_dirs d → read_attempt_records path d = Ok l →
  d_texts d !! marker_path path = Some content → read_json_dict (marker_path path) d = Ok m →
  load_attempt path d = Ok (Some (l, m)).
Proof.
  intros Hd Hl Ht Hm. apply read_attempt_text in Hl as (Hf&items&Hi&Ho).
  unfold load_attempt, path_exists. rewrite bool_decide_eq_true_2 by done. cbn [orb negb].
  rewrite Hf. assert (is_file (marker_path path) d = true) as ->.
  { apply bool_decide_eq_true. by exists content. }
  cbn [andb]. cbn [require mbind result_bind]. rewrite Hi. cbn [mbind result_bind]. rewrite Hm.
  cbn [mbind result_bind]. by rewrite Ho.
Qed.

Lemma read_attempt_mono path d d' l :
  d_texts d ⊆ d_texts d' → read_attempt_records path d = Ok l → read_attempt_records path d' = Ok l.
Proof.
  intros Ht H. unfold read_attempt_records, is_file in *.
  apply result_bind_Ok in H as ([]&Hf%require_Ok&H). apply bool_decide_eq_true in Hf as [s Hs].
  unfold read_json_list, _read_json, read_text in *. rewrite Hs in H.
  rewrite (lookup_weaken _ _ _ _ Hs Ht). by rewrite bool_decide_eq_true_2 by eauto.
Qed.

Context (version : result string).

Lemma execute_staged a env plan t W records W' :
  sane k W → ra_batch_id a = v_batch_id env → execution_attempt_id env = Ok t →
  execute_and_stage sr root version a env plan t W = (Ok records, W') →
  ∃ path, attempt_path root (v_batch_id env) t = Ok path ∧
    staged_at root env records path (w_disk W').
Proof.
  intros S Ea Et H. unfold execute_and_stage in H. cbv zeta in H.
  apply tx_bind_Ok in H as (ex&W1&Hm&H). apply (quiet_execute sr k Hothers) in Hm as [S1 _]; [|done].
  apply tx_bind_Ok in H as ([]&W2&Hm&H). apply (quiet_raise_if_failed k) in Hm as [S2 _]; [|done].
  apply tx_bind_Ok in H as ([]&W3&[_ ->]%tx_lift_Ok&H).
  apply tx_bind_Ok in H as (g1&W4&[_ ->]%tx_lift_Ok&H).
  apply tx_bind_Ok in H as (p&W5&Hw&H). pose proof Hw as Hq.
  apply (quiet_write_records sr k Hothers) in Hq as [S5 _]; [|done].
  apply write_records_Ok in Hw as (Hp&Hdir&_); [|done].
  apply tx_bind_Ok in H as (l&W6&Hr&H). pose proof Hr as Hq.
  apply (quiet_read_records sr k Hothers) in Hq as [S6 G6]; [|done].
  apply read_records_Ok in Hr as (p'&Hp'&Hl). assert (p' = p) as -> by congruence.
  apply tx_bind_Ok in H as (g2&W7&[_ ->]%tx_lift_Ok&H).
  apply tx_bind_Ok in H as ([]&W8&[_ ->]%tx_lift_Ok&H).
  apply tx_bind_Ok in H as (u&W9&Hm&H). apply (quiet_fence sr k Hothers) in Hm as [S9 G9]; [|done].
  apply tx_bind_Ok in H as (marker&W10&[Hmk ->]%tx_lift_Ok&H).
  apply tx_bind_Ok in H as ([]&W11&Hc&H). pose proof Hc as Hq.
  apply (quiet_create_success sr k Hothers) in Hq as [_ G11]; [|done].
  apply create_success_Ok in Hc as (p'&content&Hp''&Hcan&Htext); [|done].
  assert (p' = p) as -> by congruence.
  apply tx_bind_Ok in H as ([]&W12&[_ ->]%tx_lift_Ok&[= <- <-]).
  destruct (marker_reads _ _ _ _ _ _ Hmk Hcan Htext) as (m&Hread&Hv).
  rewrite Ea in Hp. exists p. split; [done|]. exists t, m. split_and!; [done..| |done].
  apply (load_staged _ _ content); [|eapply read_attempt_mono; [|exact Hl]|done..].
  - apply (gr_dirs _ _ _ G11), (gr_dirs _ _ _ G9), (gr_dirs _ _ _ G6), Hdir.
  - etrans; [apply (gr_texts _ _ _ G9)|apply (gr_texts _ _ _ G11)].
Qed.

(** The records of a run, staged before or now. *)
Lemma obtain_staged a env plan t complete W records W' path :
  sane k W → e_batch_id (control_envelope env) = k →
  ra_batch_id a = v_batch_id env → execution_attempt_id env = Ok t →
  attempt_path root (v_batch_id env) t = Ok path →
  load_attempt path (w_disk W) = Ok complete →
  obtain_records sr root version a env plan t complete W = (Ok records, W') →
  staged_at root env records path (w_disk W').
Proof.
  intros S Ek Ea Et Hp Hload H. unfold obtain_records in H. destruct complete as [[l m]|].
  - apply tx_bind_Ok in H as (g&W1&[_ ->]%tx_lift_Ok&H).
    apply tx_bind_Ok in H as ([]&W2&[Hm ->]%tx_lift_Ok&[= <- <-]).
    exists t, m. split_and!; done.
  - unfold with_heartbeat in H. apply tx_bind_Ok in H as (u&W1&Hm&H).
    assert (sane k W1) as S1.
    { apply (quiet_call sr k Hothers) in Hm; [by apply Hm| |done].
      intros c s r s' I Hh. by eapply quiet_heartbeat. }
    apply tx_bind_Ok in H as (u2&W2&Hm2&H). apply (quiet_start k) in Hm2 as [S2 _]; [|done..].
    unfold effect in H. destruct (execute_and_stage _ _ _ _ _ _ _ W2) as [r W3] eqn:Ex.
    destruct r as [l|e]; [|by destruct e; [..|done]; destruct (heartbeat_failed W3)].
    destruct (heartbeat_failed W3); [done|]. injection H as <- <-.
    destruct (execute_staged _ _ _ _ _ _ _ S2 Ea Et Ex) as (p&Hp'&Hs).
    assert (p = path) as -> by congruence. exact Hs.
Qed.
End staged.

(** ** Correctness of process runs

    Whatever the surroundings do and wherever a run is killed, the store publishes
    only what the attempt directory holds. *)
Import Process Plan Records Validate Run.

(** ** The invariant along a run *)

(** A part of a run that keeps [P]. *)
Definition keeps {A} (P : World → Prop) (m : Run A) : Prop :=
  ∀ W r W', P W → m W = (r, W') → P W'.

Lemma keeps_bind {A B} P (m : Run A) (f : A → Run B) :
  keeps P m → (∀ a, keeps P (f a)) → keeps P (m ≫= f).
Proof.
  intros Hm Hf W r W' S. unfold mbind, tx_bind. destruct (m W) as [[a|e] W1] eqn:E; intros H.
  - eapply Hf; [|exact H]. by eapply Hm.
  - injection H as <- <-. by eapply Hm.
Qed.

(** The same, when what [m] returned matters to the rest. *)
Lemma keeps_bind_Ok {A B} P (m : Run A) (f : A → Run B) W r W' :
  keeps P m → P W → (m ≫= f) W = (r, W') →
  (∀ a W1, m W = (Ok a, W1) → P W1 → f a W1 = (r, W') → P W') → P W'.
Proof.
  intros Hm HP H Hf. unfold mbind, tx_bind in H. destruct (m W) as [[a|e] W1] eqn:E.
  - eapply Hf; [done| |done]. by eapply Hm.
  - injection H as <- <-. by eapply Hm.
Qed.

(** A pure step raises or goes on. *)
Lemma tx_lift_bind {S A B} (x : result A) (f : A → tx S B) s r s' :
  (tx_lift x ≫= f) s = (r, s') →
  (∃ e, x = Err e ∧ r = Err e ∧ s' = s) ∨ ∃ a, x = Ok a ∧ f a s = (r, s').
Proof. unfold mbind, tx_bind, tx_lift. destruct x as [a|e]; [eauto|]. intros [= <- <-]. eauto 6. Qed.

Section run.
Context (sr : Surroundings) (k digest : string) (root : Path).
Context (Hothers : ∀ t s, rtc (spares k) s (sr_others sr t s)).

Definition good (W : World) : Prop :=
  sane k W ∧ known k digest (s_db (w_store W)) ∧
  backed_batch root k digest (w_disk W) (s_db (w_store W)).

Lemma good_grown W W' : good W → sane k W' → grown k W W' → good W'.
Proof.
  intros (S&K&J) S' G. split_and!; [done|by eapply known_grown; [apply S|..]|].
  by eapply backed_grown; [apply S|..].
Qed.

Lemma keeps_good {A} (m : Run A) : quiet k m → keeps good m.
Proof. intros Hm W r W' HW H. destruct (Hm _ _ _ (proj1 HW) H). by eapply good_grown. Qed.

Definition good_staged env records path (W : World) : Prop :=
  good W ∧ staged_at root env records path (w_disk W).

Lemma keeps_staged {A} (m : Run A) env records path :
  quiet k m → keeps (good_staged env records path) m.
Proof.
  intros Hm W r W' [HW Hs] H. destruct (Hm _ _ _ (proj1 HW) H) as [S G].
  split; [by eapply good_grown|]. destruct G as [_ T D]. by eapply staged_mono.
Qed.

(** ** Loading *)

Lemma call_Ok {A} (op : pyval → Ctl A) W a W' :
  call sr op W = (Ok a, W') →
  ∃ W1 s, tick sr W = (Ok tt, W1) ∧ op (sr_clock sr (w_time W1)) (w_store W1) = (Ok a, s) ∧
    W' = {| W1 with w_store := s; w_time := Datatypes.S (w_time W1) |}.
Proof.
  intros H. unfold call in H. apply tx_bind_Ok in H as ([]&W1&Ht&H). unfold effect in H.
  destruct (op _ _) as [r s] eqn:E. injection H as -> <-. eauto.
Qed.

Lemma context_Ok version rel b ev W env live W' :
  _load_process_context sr version rel b ev W = (Ok (env, live), W') →
  v_batch_id env = b ∧ is_blank b = false ∧ NoDup (item_identity <$> v_items env).
Proof.
  intros H. unfold _load_process_context in H.
  apply tx_bind_Ok in H as (loaded&W1&Hload&H). apply tx_bind_Ok in H as (env'&W2&[Hv ->]%tx_lift_Ok&H).
  apply tx_bind_Ok in H as ([]&W3&[_ ->]%tx_lift_Ok&H). apply tx_bind_Ok in H as (live'&W4&_&[= -> _ _]).
  apply call_Ok in Hload as (W5&s&_&Hload&_). unfold load_claim_envelope_with_digest in Hload.
  apply tx_bind_Ok in Hload as (id&s1&[Hid _]%tx_lift_Ok&_). apply _required_text_Ok in Hid as [[= <-] Hb].
  unfold verify_loaded in Hv. destruct loaded as [v sha]. simpl in Hv. destruct v; try done.
  apply verified_identities in Hv as [Hn ->]. done.
Qed.

(** ** Publishing *)

Lemma seal_keeps env version records plan g path outputs mem :
  is_blank k = false → v_batch_id env = k → NoDup (item_identity <$> v_items env) →
  validate_staged_records version records env plan = Ok g →
  map_result (item_output path g) (v_items env) = Ok outputs →
  keeps (good_staged env records path)
    (call sr (seal_batch (VStr k) (VList outputs) (VStr (v_envelope_sha256 env)) mem)).
Proof.
  intros Hk Ek Hn Hg Hout. apply keeps_bind; [by apply keeps_staged, quiet_tick|].
  intros _ W r W' [(S&K&J) Hs] H. unfold effect in H.
  destruct (seal_batch _ _ _ _ _ _) as [x s'] eqn:E. injection H as <- <-.
  assert (St : rtc ctl_step (w_store W) s').
  { apply rtc_once. destruct x as [[]|e]; by eexists (OpSeal _ _ _ _ _), _. }
  split; [|done]. split_and!.
  - split; [|apply S]. destruct (proj1 S) as (s0&?&?). exists s0. split; [done|]. by etrans.
  - eapply known_step; [apply S|exact St|exact K].
  - eapply seal_backed; [apply S|exact K|exact J|done|exact Ek|done|exact Hg|exact Hs|exact Hout|exact E].
Qed.

Lemma publish_keeps version a env plan t resumed records path :
  is_blank k = false → v_batch_id env = k → NoDup (item_identity <$> v_items env) →
  ra_batch_id a = k → attempt_path root k t = Ok path →
  keeps (good_staged env records path)
    (publish_records sr root version a env plan t resumed records).
Proof.
  intros Hk Ek Hn Ea Hp. unfold publish_records. cbv zeta. rewrite Ea.
  apply keeps_bind; [by apply keeps_staged, quiet_fence|]. intros _ W r W' HP H.
  apply tx_lift_bind in H as [(e&_&_&->)|(g&Hg&H)]; [done|].
  apply tx_lift_bind in H as [(e&_&_&->)|(p&Hp'&H)]; [done|]. assert (p = path) as -> by congruence.
  apply tx_lift_bind in H as [(e&_&_&->)|(outputs&Hout&H)]; [done|]. revert W r W' HP H.
  apply keeps_bind; [by eapply seal_keeps|]. intros _.
  apply keeps_staged. apply quiet_bind; [apply quiet_crash|intros _].
  apply quiet_bind; [by apply quiet_fence|intros _].
  apply quiet_bind; [|intros seqs; apply quiet_bind; [apply quiet_crash|intros _; apply quiet_lift]].
  apply (quiet_commit sr k Hothers _ (λ c, c)). simpl. by rewrite Hk.
Qed.

(** ** Whole runs *)

Lemma quiet_obtain version a env plan t complete :
  e_batch_id (control_envelope env) = k →
  quiet k (obtain_records sr root version a env plan t complete).
Proof.
  intros Ek. unfold obtain_records. destruct complete as [[l m]|].
  - apply quiet_bind; [apply quiet_lift|intros _].
    apply quiet_bind; [apply quiet_lift|intros _]. apply quiet_ret.
  - apply quiet_with_heartbeat; [done..|]. by apply quiet_stage.
Qed.

Lemma live_keeps version a env live :
  is_blank k = false → v_batch_id env = k → NoDup (item_identity <$> v_items env) →
  ra_batch_id a = k → keeps good (process_live_batch sr root version a env live).
Proof.
  intros Hk Ek Hn Ea W r W' HW H. unfold process_live_batch in H.
  apply tx_lift_bind in H as [(e&_&_&->)|(plan&Hplan&H)]; [done|].
  eapply keeps_bind_Ok; [by apply keeps_good, quiet_admission|exact HW|exact H|].
  intros now W1 _ HW1 H1. clear W HW H.
  apply tx_lift_bind in H1 as [(e&_&_&->)|(ok&_&H1)]; [done|].
  apply tx_lift_bind in H1 as [(e&_&_&->)|(t&Ht&H1)]; [done|].
  eapply keeps_bind_Ok; [by apply keeps_good, quiet_load_complete|exact HW1|exact H1|].
  intros complete W Hload HW H.
  apply load_complete_Ok in Hload as (path&Hp&Hload). rewrite Ea in Hp. clear W1 HW1 H1.
  eapply keeps_bind_Ok; [apply keeps_good, quiet_obtain; exact Ek|exact HW|exact H|].
  intros records W1 Hob HW1 H1. eapply publish_keeps; [..|exact H1]; try done.
  split; [done|]. eapply obtain_staged; [exact Hothers|apply HW| | |exact Ht| |exact Hload|exact Hob]; [exact Ek|congruence..].
Qed.

Lemma run_keeps version rel a :
  ra_batch_id a = k → keeps good (run_process_batch sr root version rel a).
Proof.
  intros Ea W r W' HW H. unfold run_process_batch in H.
  apply tx_lift_bind in H as [(e&_&_&->)|([]&_&H)]; [done|].
  eapply keeps_bind_Ok; [by apply keeps_good, quiet_context|exact HW|exact H|].
  intros [env live] W1 Hc HW1 H1. apply context_Ok in Hc as (Ek&Hk&Hn). rewrite Ea in Ek, Hk.
  destruct (bs_status live); [by eapply live_keeps..| |by injection H1 as _ <-].
  eapply keeps_good; [|exact HW1|exact H1]. by apply quiet_resume.
Qed.

Lemma resume_keeps version rel ev :
  keeps good (resume_committed_process_batch sr root version rel k ev).
Proof.
  intros W r W' HW H. unfold resume_committed_process_batch in H.
  eapply keeps_bind_Ok; [by apply keeps_good, quiet_context|exact HW|exact H|].
  intros [env live] W1 Hc HW1 H1. apply context_Ok in Hc as (Ek&Hk&Hn).
  case_bool_decide.
  - eapply keeps_good; [|exact HW1|exact H1]. by apply quiet_fmap, quiet_resume.
  - eapply keeps_good; [|exact HW1|exact H1].
    apply quiet_bind; [by apply quiet_fence|intros]. apply quiet_ret.
Qed.
End run.

(** ** The life of one batch *)

(** The driver runs or resumes the batch, in any surroundings that do not seal its
    attempts, and anything else may call the store in between.  A run that ends or
    is killed leaves no heartbeat thread. *)
Inductive batch_step (root : Path) (k : string) : World → World → Prop :=
  | step_run sr version rel a W r W' :
      ra_batch_id a = k → (∀ t s, rtc (spares k) s (sr_others sr t s)) →
      run_process_batch sr root version rel a (stop_heartbeat W) = (r, W') →
      batch_step root k W W'
  | step_resume sr version rel ev W r W' :
      (∀ t s, rtc (spares k) s (sr_others sr t s)) →
      resume_committed_process_batch sr root version rel k ev (stop_heartbeat W) = (r, W') →
      batch_step root k W W'
  | step_others s W : spares k (w_store W) s → batch_step root k W {| W with w_store := s |}.

(** What the invariant says between the steps. *)
Definition backed_world (root : Path) (k digest : string) (W : World) : Prop :=
  reachable (w_store W) ∧ known k digest (s_db (w_store W)) ∧
  backed_batch root k digest (w_disk W) (s_db (w_store W)).

Lemma backed_world_step root k digest W W' :
  batch_step root k W W' → backed_world root k digest W → backed_world root k digest W'.
Proof.
  intros St (R&K&J). assert (G : good k digest root (stop_heartbeat W)) by by split_and!.
  destruct St as [sr version rel a W r W' Ea Ho H|sr version rel ev W r W' Ho H|s W Hs].
  - destruct (run_keeps sr k digest root Ho version rel a Ea _ _ _ G H) as ([R' _]&K'&J'). by split_and!.
  - destruct (resume_keeps sr k digest root Ho version rel ev _ _ _ G H) as ([R' _]&K'&J'). by split_and!.
  - assert (Gr : grown k W {| W with w_store := s |}) by (split; [by apply rtc_once|done..]).
    split_and!; [by eapply reachable_step; [|apply Hs]|by eapply known_grown|by eapply backed_grown].
Qed.

(** C2. Only staged results are published: from a claimed batch on, however the runs
    of the batch are interleaved with other processes, killed and repeated, every
    publication of the batch names an item of an envelope with the claimed digest
    whose records passed validation, lie in the attempt directory under a matching
    marker, and contain a result; the publication has the path of that directory
    and its attempt the digest of the item's records. *)
Theorem only_staged_results_are_published root k b0 W0 W p :
  reachable (w_store W0) → batches (s_db (w_store W0)) !! k = Some b0 → b_status b0 = B_LEASED →
  rtc (batch_step root k) W0 W →
  p ∈ publications (s_db (w_store W)) → p_batch_id p = k →
  ∃ version env plan records g path item sha x,
    v_batch_id env = k ∧ v_envelope_sha256 env = b_envelope_sha256 b0 ∧
    validate_staged_records version records env plan = Ok g ∧
    staged_at root env records path (w_disk W) ∧
    item ∈ v_items env ∧ i_work_id item = p_work_id p ∧ i_attempt_id item = p_attempt_id p ∧
    item_succeeded item records = true ∧ p_output_path p = path_text path ∧
    _sha256 (records_value (item_records item records)) = Ok sha ∧
    attempts (s_db (w_store W)) !! p_attempt_id p = Some x ∧ a_output_sha256 x = Some sha.
Proof.
  intros R Hb Hst St Hp Hk. pose proof (reachable_Inv _ R) as I.
  assert (B0 : backed_world root k (b_envelope_sha256 b0) W0).
  { split_and!; [done|by exists b0|]. intros a x Hx Hxk. left.
    pose proof (inv_coupled _ I _ _ Hb a x Hx Hxk) as C. rewrite Hst in C. apply C. }
  assert (B : backed_world root k (b_envelope_sha256 b0) W).
  { clear -St B0. induction St; [done|]. by eauto using backed_world_step. }
  destruct B as (R'&_&J). pose proof (reachable_Inv _ R') as I'.
  destruct (publication_attempt _ p (inv_core _ I') Hp) as (x&Hx&Hs&Hxk&Ew).
  destruct (proj2 (reachable_settled _ R') p Hp) as (y&Hy&Hpath&Hok).
  rewrite Hx in Hy. injection Hy as <-.
  destruct (J _ x Hx) as [?|[?|(version&env&plan&records&g&path&Ek&Ed&Hg&Hstaged&Hc)]]; [congruence..|].
  destruct Hc as (item&sha&Hi&Ha&Hw&Hp'&Hsha&Hs'&Ht).
  exists version, env, plan, records, g, path, item, sha, x. split_and!; try done; congruence.
Qed.

Lemma calm_spares k : ∀ t s, rtc (spares k) s (sr_others calm t s).
Proof. intros. reflexivity. Qed.

Lemma toy_step : batch_step toy_root "b0" claimed_world toy_world.
Proof.
  eapply (step_run _ _ calm (Ok "1.2.3"%string) "1.2.3" toy_args); [done|by apply calm_spares|exact toy_ran].
Qed.

Lemma only_staged_results_are_published_witness :
  ∃ p records path, publications (s_db (w_store toy_world)) = [p] ∧ p_work_id p = "w1"%string ∧
    (∃ env, staged_at toy_root env records path (w_disk toy_world)) ∧ p_output_path p = path_text path.
Proof.
  destruct (publications (s_db (w_store toy_world))) as [|p [|]] eqn:Ep; try (vm_compute in Ep; discriminate Ep).
  assert (Hp : p_work_id p = "w1"%string ∧ p_batch_id p = "b0"%string).
  { vm_compute in Ep. injection Ep as <-. by split. }
  destruct (batches (s_db claimed_store) !! "b0"%string) as [b|] eqn:Eb; [|vm_compute in Eb; discriminate Eb].
  destruct (only_staged_results_are_published toy_root "b0" b claimed_world toy_world p)
    as (v&env&plan&records&g&path&item&sha&x&_&_&_&Hs&_&_&_&_&Hpath&_).
  - exact claimed_reachable.
  - exact Eb.
  - vm_compute in Eb. by injection Eb as <-.
  - apply rtc_once, toy_step.
  - rewrite Ep. left.
  - apply Hp.
  - exists p, records, path. split_and!; [done|apply Hp|by exists env|exact Hpath].
Defined.
