(* ===== verification/LocalSpark.v ===== *)
(** * local_spark.py: a claimed batch on local Spark

    The manifest of a claimed batch is read from the content store and validated; the
    videos are processed by partitions on Spark executors; the records are saved as
    one immutable Delta table of the batch attempt; and the table is read back and
    validated against the manifest.  Spark and Delta are an interface. *)
From S2P Require Export Prelude PyFloat PyDict PyVal Json Sha256 LocalStorage ControlTypes PyNum ProcessEnvelope ProcessPlan ProcessRecords ProcessValidate ProcessExecutor.

Module LocalSpark.
Import Plan Records Executor.

Definition MANIFEST_VERSION : Z := 1.
Definition MAX_VIDEOS_PER_PARTITION : Z := 2.

Record BatchStaging := {
  bs_batch_id : string;
  bs_batch_attempt_id : string;
  bs_manifest_sha256 : string;
  bs_path : Path;
  bs_record_count : Z;
  bs_executor_identities : list string;
  bs_release_digests : list string;
  bs_failed_work_ids : list string;
}.

(** ** The manifest *)

Definition _required_text (value : Dict) (name : string) : result string :=
  match dict_get name value with
  | VStr s => if is_blank s then Err ManifestValidationError else Ok (str_strip s)
  | _ => Err ManifestValidationError
  end.

(** Every value that the JSON decoder returns is a primitive, a list or a dict with
    text keys. *)
Fixpoint _require_primitive_tree (v : pyval) : result unit :=
  match v with
  | VNone | VBool _ | VInt _ | VFloat _ | VStr _ => Ok tt
  | VList l =>
      (fix go l := match l with [] => Ok tt | x :: l' => _require_primitive_tree x;; go l' end) l
  | VDict d =>
      (fix go d := match d with [] => Ok tt | kv :: d' => _require_primitive_tree kv.2;; go d' end) d
  end.

(** One iteration of the loop over the items: the identity of the item. *)
Definition _validate_item (identities : list (string * string)) (item : pyval) : result (string * string) :=
  match item with
  | VDict d =>
      work ← _required_text d "work_id";
      attempt ← _required_text d "attempt_id";
      _required_text d "source_video";;
      require (negb (bool_decide ((work, attempt) ∈ identities))) ManifestValidationError;;
      _require_primitive_tree item;;
      Ok (work, attempt)
  | _ => Err ManifestValidationError
  end.

Fixpoint _validate_items (identities : list (string * string)) (items : list pyval) : result unit :=
  match items with
  | [] => Ok tt
  | item :: items' =>
      identity ← _validate_item identities item;
      _validate_items (identity :: identities) items'
  end.

Definition _validate_manifest (manifest : Dict) : result unit :=
  require (py_eqb (dict_get "schema_version" manifest) (VInt MANIFEST_VERSION)) ManifestValidationError;;
  _required_text manifest "batch_id";;
  _required_text manifest "batch_attempt_id";;
  _required_text manifest "correlation_id";;
  _required_text manifest "expected_staging_path";;
  match dict_get "items" manifest with
  | VList ((_ :: _) as items) => _validate_items [] items
  | _ => Err ManifestValidationError
  end.

Definition read_claimed_manifest (path : string) (expected_sha256 : option string) (fs : Files)
    : result (Dict * string) :=
  content ← match fs !! path with Some c => Ok c | None => Err FileNotFoundError end;
  let digest := hexdigest (sha256 content) in
  require (match expected_sha256 with Some e => bool_decide (digest = e) | None => true end)
    ManifestValidationError;;
  manifest ← match json_loads_bytes content with
             | Err JSONDecodeError => Err ManifestValidationError
             | r => r
             end;
  match manifest with
  | VDict m => _validate_manifest m;; Ok (m, digest)
  | _ => Err ManifestValidationError
  end.

(** ** Paths and partitions *)

Definition _path_segment (value : string) : result string :=
  let text := str_strip value in
  if String.eqb text "" || String.eqb text "." || String.eqb text ".."
     || existsb (λ z, (z =? 47) || (z =? 92))%Z (codes_of_str text)
  then Err ValueError else Ok text.

(** [root] is resolved; two plain segments stay under it. *)
Definition attempt_staging_path (root : Path) (batch_id attempt_id : string) : result Path :=
  b ← _path_segment batch_id;
  a ← _path_segment attempt_id;
  Ok (root ++ [b; a]).

Definition _bounded_partition_count (item_count minimum_executor_identities : Z) : result Z :=
  require (negb (item_count <? 1)%Z) ValueError;;
  require (negb (minimum_executor_identities <? 1)%Z) ValueError;;
  require (negb (item_count <? minimum_executor_identities)%Z) ValueError;;
  let reuse_partition_count := (- (- item_count / MAX_VIDEOS_PER_PARTITION))%Z in
  Ok (Z.max reuse_partition_count minimum_executor_identities).

(** ** Validation of the staged table *)

Definition _staged_text (row : Dict) (name : string) : result string :=
  v ← record_item name row;
  match v with
  | VStr s => if is_blank s then Err StagingValidationError else Ok (str_strip s)
  | _ => Err StagingValidationError
  end.

Definition check_text (row : Dict) (expected : string * string) : result unit :=
  actual ← _staged_text row expected.1;
  require (bool_decide (actual = expected.2)) StagingValidationError.

Definition _verify_staged_identity (row : Dict)
    (expected_attempt_id batch_id batch_attempt_id manifest_sha256 expected_path : string) : result unit :=
  for_each (check_text row)
    [("attempt_id", expected_attempt_id); ("batch_id", batch_id);
     ("batch_attempt_id", batch_attempt_id); ("manifest_sha256", manifest_sha256);
     ("expected_staging_path", expected_path)]%string.

Definition _verified_executor_identity (row : Dict) : result string :=
  executor_id ← _staged_text row "executor_id";
  executor_host ← _staged_text row "executor_host";
  identity ← _staged_text row "executor_identity";
  require (bool_decide (identity = executor_id +:+ "@" +:+ executor_host)%string) StagingValidationError;;
  Ok identity.

(** What the loop over the rows accumulates. *)
Record Tally := {
  tl_terminal : gmap string Z;
  tl_failures : gset string;
  tl_identities : gset string;
  tl_release_digests : gset string;
}.

Definition no_tally (works : list string) : Tally := {|
  tl_terminal := gset_to_gmap 0%Z (list_to_set works); tl_failures := ∅; tl_identities := ∅;
  tl_release_digests := ∅ |}.

Section validate.
Context (expected : gmap string string) (batch_id batch_attempt_id manifest_sha256 expected_path : string).

Definition tally_row (t : Tally) (row : Dict) : result Tally :=
  work_id ← _staged_text row "work_id";
  match expected !! work_id with
  | None => Err StagingValidationError
  | Some attempt =>
      _verify_staged_identity row attempt batch_id batch_attempt_id manifest_sha256 expected_path;;
      record_type ← _staged_text row "record_type";
      if bool_decide (record_type ∈ ["video_result"; "error"]%string) then
        status ← _staged_text row "status";
        let failed := bool_decide (record_type = "error"%string) in
        require (bool_decide (status = if failed then "FAILED" else "SUCCEEDED")%string) StagingValidationError;;
        identity ← _verified_executor_identity row;
        release ← _staged_text row "release_digest";
        Ok {| tl_terminal := alter Z.succ work_id (tl_terminal t);
              tl_failures := if failed then {[work_id]} ∪ tl_failures t else tl_failures t;
              tl_identities := {[identity]} ∪ tl_identities t;
              tl_release_digests := {[release]} ∪ tl_release_digests t |}
      else Ok t
  end.

Fixpoint tally_rows (t : Tally) (rows : list Dict) : result Tally :=
  match rows with
  | [] => Ok t
  | row :: rows' => t' ← tally_row t row; tally_rows t' rows'
  end.
End validate.

(** [tuple(sorted(s))]. *)
Definition sorted_texts (s : gset string) : list string := order_by str_leb (elements s).

(** The rows that were read back, against the items of the manifest. *)
Definition validate_rows (rows : list Dict) (path : Path) (items : list Dict)
    (batch_id batch_attempt_id manifest_sha256 : string) (minimum_executor_identities : Z)
    : result BatchStaging :=
  pairs ← map_result (λ item, work ← _required_text item "work_id";
                              attempt ← _required_text item "attempt_id"; Ok (work, attempt)) items;
  let expected := Validate.map_of pairs in
  require (bool_decide (size expected = length items)) StagingValidationError;;
  t ← tally_rows expected batch_id batch_attempt_id manifest_sha256 (path_text path)
        (no_tally pairs.*1) rows;
  require (forallb (λ kn, (kn.2 =? 1)%Z) (map_to_list (tl_terminal t))) StagingValidationError;;
  require (negb (Z.of_nat (size (tl_identities t)) <? minimum_executor_identities)%Z) StagingValidationError;;
  Ok {| bs_batch_id := batch_id; bs_batch_attempt_id := batch_attempt_id;
        bs_manifest_sha256 := manifest_sha256; bs_path := path;
        bs_record_count := Z.of_nat (length rows);
        bs_executor_identities := sorted_texts (tl_identities t);
        bs_release_digests := sorted_texts (tl_release_digests t);
        bs_failed_work_ids := sorted_texts (tl_failures t) |}.

(** ** The executors *)

(** What a partition reads of the machine that runs it. *)
Record Host := {
  h_gethostname : string;
  h_executor_id : option string;       (* SPARK_EXECUTOR_ID *)
  h_release_digest : option string;    (* PEOPLE_COUNTER_RELEASE_DIGEST *)
  h_python_version : string;
}.

(** Spark and Delta.  [spark_rows items n f] evaluates [f] on [n] partitions of the
    items, each on some host; a table is saved once and read back by columns. *)
Class Spark (Tables : Type) := {
  spark_rows : list Dict → Z → (Host → list Dict → result (list Dict)) → result (list Dict);
  delta_save : Path → list Dict → tx Tables unit;
  delta_load : Path → list string → Tables → result (list Dict);
}.

Definition select_row (columns : list string) (r : Dict) : Dict := (λ c, (c, dict_get c r)) <$> columns.

Section spark.
Context {C K R : Type} `{!EqDecision K}.
Context (_config_from_work : Dict → Outcome C) (_runtime_cache_key : C → K).
Context (load_runtime : C → Outcome R) (run_with_runtime : C → R → Outcome Executor.VideoRun).
Context (sleep : Float → option Failure) (utc_now : pyval → pyval → nat → string).

(** fabric_executor_partition.process_video_partition. *)
Fixpoint process_video_partition (p : Processor) (rows : list Dict) (c : @RuntimeCache K R)
    : result (list Dict) :=
  match rows with
  | [] => Ok []
  | row :: rows' =>
      let '(outcome, c') := run_processor _config_from_work _runtime_cache_key load_runtime
                              run_with_runtime sleep p row c in
      emitted ← process_video_row (utc_now (dict_get "work_id" row) (dict_get "attempt_id" row)) row outcome;
      rest ← process_video_partition p rows' c';
      Ok (emitted ++ rest)
  end.

(** The columns that a partition adds to a record. *)
Definition partition_fields (host : Host) (first : Dict) : result Dict :=
  let executor_id := default (h_gethostname host) (h_executor_id host) in
  batch ← _required_text first "batch_id";
  attempt ← _required_text first "batch_attempt_id";
  manifest ← _required_text first "manifest_sha256";
  path ← _required_text first "expected_staging_path";
  Ok [("batch_id", VStr batch); ("batch_attempt_id", VStr attempt); ("manifest_sha256", VStr manifest);
      ("expected_staging_path", VStr path); ("executor_id", VStr executor_id);
      ("executor_host", VStr (h_gethostname host));
      ("executor_identity", VStr (executor_id +:+ "@" +:+ h_gethostname host));
      ("python_version", VStr (h_python_version host));
      ("release_digest", VStr (default "development" (h_release_digest host)))]%string.

Definition _process_partition (processor_mode : string) (host : Host) (rows : list Dict)
    : result (list Dict) :=
  match rows with
  | [] => Ok []
  | first :: _ =>
      delay ← probe_delay rows;
      let processor := if String.eqb processor_mode "probe" then Probe delay else Sdk in
      records ← process_video_partition processor rows empty_cache;
      map_result (λ record, fields ← partition_fields host first; Ok (merge record fields)) records
  end.

(** ** One batch *)

Definition staged_columns : list string :=
  ["batch_id"; "batch_attempt_id"; "manifest_sha256"; "expected_staging_path"; "work_id"; "attempt_id";
   "record_type"; "status"; "executor_id"; "executor_host"; "executor_identity"; "release_digest"]%string.

Context {Tables : Type} `{!Spark Tables}.

Definition validate_delta_staging (path : Path) (items : list Dict)
    (batch_id batch_attempt_id manifest_sha256 : string) (minimum_executor_identities : Z)
    : tx Tables BatchStaging :=
  t ← tx_get;
  rows ← tx_lift (delta_load path staged_columns t);
  tx_lift (validate_rows rows path items batch_id batch_attempt_id manifest_sha256 minimum_executor_identities).

(** The text at [name], as the manifest holds it: [manifest[name]]. *)
Definition manifest_text (manifest : Dict) (name : string) : result string :=
  v ← record_item name manifest; match v with VStr s => Ok s | _ => Err AttributeError end.

(** The items of a validated manifest are dicts. *)
Definition manifest_items (manifest : Dict) : result (list Dict) :=
  v ← record_item "items" manifest;
  match v with
  | VList l => map_result (λ x, match x with VDict d => Ok d | _ => Err TypeError end) l
  | _ => Err TypeError
  end.

(** [resolve] is [Path(text).expanduser().resolve()]. *)
Definition process_claimed_batch (resolve : string → Path) (manifest_path : string) (staging_root : Path)
    (expected_manifest_sha256 : option string) (processor_mode : string)
    (minimum_executor_identities : Z) (fs : Files) : tx Tables BatchStaging :=
  tx_require (bool_decide (processor_mode ∈ ["probe"; "sdk"]%string)) ValueError;;
  tx_require (negb (minimum_executor_identities <? 1)%Z) ValueError;;
  '(manifest, manifest_sha256) ← tx_lift (read_claimed_manifest manifest_path expected_manifest_sha256 fs);
  items ← tx_lift (manifest_items manifest);
  batch_id ← tx_lift (manifest_text manifest "batch_id");
  batch_attempt_id ← tx_lift (manifest_text manifest "batch_attempt_id");
  destination ← tx_lift (attempt_staging_path staging_root batch_id batch_attempt_id);
  expected ← tx_lift (_required_text manifest "expected_staging_path");
  tx_require (bool_decide (resolve expected = destination)) ManifestValidationError;;
  let staged_items := (λ item, merge item
    [("batch_id", VStr batch_id); ("batch_attempt_id", VStr batch_attempt_id);
     ("manifest_sha256", VStr manifest_sha256);
     ("expected_staging_path", VStr (path_text destination))]%string) <$> items in
  partition_count ← tx_lift (_bounded_partition_count (Z.of_nat (length items)) minimum_executor_identities);
  rows ← tx_lift (spark_rows staged_items partition_count (_process_partition processor_mode));
  delta_save destination rows;;
  validate_delta_staging destination items batch_id batch_attempt_id manifest_sha256 minimum_executor_identities.
End spark.

End LocalSpark.
