(* ===== verification/LocalSparkTheorems.v ===== *)
(** * What a validated Spark batch has staged

    [validate_rows] against a declarative reading: every item of the manifest has
    exactly one terminal row, which names the attempt, the batch and the manifest, and
    an item is reported as failed exactly when its terminal row is an error. *)
From S2P Require Export Prelude PyFloat PyDict PyVal Json Sha256 LocalStorage ControlTypes ProcessPlan ProcessRecords ProcessValidate ProcessExecutor ProcessValidateTheorems LocalSpark.
Import Records LocalSpark.

(** ** The declarative reading *)

(** The row is a terminal record of the work. *)
Definition terminal_of (work : string) (row : Dict) : bool :=
  match _staged_text row "work_id", _staged_text row "record_type" with
  | Ok w, Ok t => bool_decide (w = work) && bool_decide (t ∈ ["video_result"; "error"]%string)
  | _, _ => false
  end.

Record staged_terminal (work attempt batch_id batch_attempt_id manifest_sha256 path : string) (failed : bool)
    (row : Dict) : Prop := {
  st_work : _staged_text row "work_id" = Ok work;
  st_attempt : _staged_text row "attempt_id" = Ok attempt;
  st_batch : _staged_text row "batch_id" = Ok batch_id;
  st_batch_attempt : _staged_text row "batch_attempt_id" = Ok batch_attempt_id;
  st_manifest : _staged_text row "manifest_sha256" = Ok manifest_sha256;
  st_path : _staged_text row "expected_staging_path" = Ok path;
  st_type : _staged_text row "record_type" = Ok (if failed then "error" else "video_result")%string;
  st_status : _staged_text row "status" = Ok (if failed then "FAILED" else "SUCCEEDED")%string;
}.

Section tally.
Context (expected : gmap string string) (batch_id batch_attempt_id manifest_sha256 path : string).

Notation tally_row := (tally_row expected batch_id batch_attempt_id manifest_sha256 path).
Notation tally_rows := (tally_rows expected batch_id batch_attempt_id manifest_sha256 path).
Notation terminal := (λ work attempt, staged_terminal work attempt batch_id batch_attempt_id manifest_sha256 path).

(** What one row does to the tally. *)
Lemma tally_row_Ok t row t' :
  tally_row t row = Ok t' →
  ∃ work attempt, _staged_text row "work_id" = Ok work ∧ expected !! work = Some attempt ∧
    ((∃ failed, terminal_of work row = true ∧ terminal work attempt failed row ∧
        tl_terminal t' = alter Z.succ work (tl_terminal t) ∧
        tl_failures t' = if (failed : bool) then {[work]} ∪ tl_failures t else tl_failures t) ∨
     (terminal_of work row = false ∧ t' = t)).
Proof.
  intros H. unfold LocalSpark.tally_row in H. apply result_bind_Ok in H as (work&Hw&H).
  destruct (expected !! work) as [attempt|] eqn:Ea; [|done]. exists work, attempt.
  split; [done|]. split; [done|]. apply result_bind_Ok in H as ([]&Hid&H).
  apply result_bind_Ok in H as (t0&Ht&H). unfold terminal_of. rewrite Hw, Ht, bool_decide_eq_true_2 by done.
  case_bool_decide as Hterm; [|right; by injection H as <-]. left.
  apply result_bind_Ok in H as (status&Hs&H). apply result_bind_Ok in H as (u&Hst%require_Ok&H).
  apply result_bind_Ok in H as (identity&_&H). apply result_bind_Ok in H as (release&_&[= <-]).
  apply bool_decide_eq_true_1 in Hst. exists (bool_decide (t0 = "error"%string)). split; [done|].
  assert (Hcheck : ∀ ne, ne ∈ [("attempt_id", attempt); ("batch_id", batch_id);
     ("batch_attempt_id", batch_attempt_id); ("manifest_sha256", manifest_sha256);
     ("expected_staging_path", path)]%string → _staged_text row ne.1 = Ok ne.2).
  { intros ne Hne. apply (for_each_elem _ _ _ Hid) in Hne. unfold check_text in Hne.
    apply result_bind_Ok in Hne as (x&Hx&E%require_Ok). by apply bool_decide_eq_true_1 in E as ->. }
  split; [|by simpl]. split; try done; try (apply (Hcheck (_, _)); set_solver).
  - rewrite Ht. case_bool_decide as E; [by rewrite E|].
    apply elem_of_cons in Hterm as [->|Hterm]; [done|]. set_solver.
  - rewrite Hs, Hst. done.
Qed.

(** The tally of the rows so far. *)
Record tallied (done : list Dict) (t : Tally) : Prop := {
  td_terminal : ∀ work n, tl_terminal t !! work = Some n →
    n = Z.of_nat (length (List.filter (terminal_of work) done));
  td_domain : ∀ work, is_Some (expected !! work) → is_Some (tl_terminal t !! work);
  td_rows : ∀ work row, row ∈ done → terminal_of work row = true →
    ∃ attempt failed, expected !! work = Some attempt ∧ terminal work attempt failed row;
  td_failures : ∀ work, work ∈ tl_failures t ↔
    ∃ row attempt, row ∈ done ∧ terminal_of work row = true ∧ terminal work attempt true row;
}.

Lemma tallied_step done t row t' : tallied done t → tally_row t row = Ok t' → tallied (done ++ [row]) t'.
Proof.
  intros [T D R F] H. apply tally_row_Ok in H as (work&attempt&Hw&Ha&H).
  assert (Hother : ∀ w, w ≠ work → terminal_of w row = false).
  { intros w Hne. unfold terminal_of. rewrite Hw. destruct (_staged_text row "record_type"); [|done].
    by rewrite bool_decide_eq_false_2. }
  assert (Hfilter : ∀ w, List.filter (terminal_of w) (done ++ [row]) =
    List.filter (terminal_of w) done ++ (if terminal_of w row then [row] else [])).
  { intros w. rewrite List.filter_app. simpl. by destruct (terminal_of w row). }
  destruct H as [(failed&Hterm&St&Et&Ef)|[Hterm ->]].
  - split.
    + intros w n Hn. rewrite Et in Hn. rewrite Hfilter, length_app. destruct (decide (w = work)) as [->|Hne].
      * rewrite lookup_alter_eq in Hn. apply fmap_Some in Hn as (n0&Hn0&->). rewrite Hterm, (T _ _ Hn0). simpl. lia.
      * rewrite lookup_alter_ne in Hn by done. rewrite Hother by done. simpl. rewrite Nat.add_0_r. by apply T.
    + intros w Hd. rewrite Et. apply lookup_alter_is_Some. by apply D.
    + intros w r [Hr| ->%list_elem_of_singleton]%elem_of_app Ht; [by apply R|].
      destruct (decide (w = work)) as [->|Hne]; [by eauto|]. by rewrite Hother in Ht.
    + intros w. rewrite Ef. split.
      * intros Hin. assert (w = work ∧ failed = true ∨ w ∈ tl_failures t) as [[-> ->]|Hf].
        { destruct failed; [apply elem_of_union in Hin as [->%elem_of_singleton|]; auto|auto]. }
        -- exists row, attempt. split; [set_solver|done].
        -- apply F in Hf as (r&a&Hr&Ht&Hs). exists r, a. split; [set_solver|done].
      * intros (r&a&[Hr| ->%list_elem_of_singleton]%elem_of_app&Ht&Hs).
        -- assert (w ∈ tl_failures t) by (apply F; eauto). destruct failed; set_solver.
        -- destruct (decide (w = work)) as [->|Hne]; [|by rewrite Hother in Ht].
           destruct failed; [set_solver|]. pose proof (st_type _ _ _ _ _ _ _ _ St) as E1.
           by rewrite (st_type _ _ _ _ _ _ _ _ Hs) in E1.
  - split.
    + intros w n Hn. rewrite Hfilter, length_app. destruct (decide (w = work)) as [->|Hne];
        [rewrite Hterm|rewrite Hother by done]; simpl; rewrite Nat.add_0_r; by apply T.
    + exact D.
    + intros w r [Hr| ->%list_elem_of_singleton]%elem_of_app Ht; [by apply R|].
      destruct (decide (w = work)) as [->|Hne]; [congruence|]. by rewrite Hother in Ht.
    + intros w. rewrite F. split.
      * intros (r&a&Hr&Hrest). exists r, a. split; [set_solver|done].
      * intros (r&a&[Hr| ->%list_elem_of_singleton]%elem_of_app&Ht&Hs); [by eauto|].
        destruct (decide (w = work)) as [->|Hne]; [congruence|]. by rewrite Hother in Ht.
Qed.

Lemma tallied_rows rows done t t' : tallied done t → tally_rows t rows = Ok t' → tallied (done ++ rows) t'.
Proof.
  revert done t. induction rows as [|row rows IH]; intros done t Td H; simpl in H.
  - injection H as <-. by rewrite app_nil_r.
  - apply result_bind_Ok in H as (t1&H1&H2). rewrite cons_middle, app_assoc.
    eapply IH; [|exact H2]. by eapply tallied_step.
Qed.

Lemma tallied_start works :
  (∀ work, is_Some (expected !! work) → work ∈ works) → tallied [] (no_tally works).
Proof.
  intros Hw. split; simpl.
  - intros work n H. by apply lookup_gset_to_gmap_Some in H as [_ <-].
  - intros work H. exists 0%Z. apply lookup_gset_to_gmap_Some. split; [|done].
    apply elem_of_list_to_set. by apply Hw.
  - by intros work row ?%elem_of_nil.
  - intros work. split; [set_solver|]. by intros (row&a&?%elem_of_nil&_).
Qed.
End tally.

Lemma elem_of_sorted_texts w s : w ∈ sorted_texts s ↔ w ∈ s.
Proof. unfold sorted_texts. by rewrite elem_of_order_by, elem_of_elements. Qed.

(** ** The manifest's identities *)

Lemma map_of_dom {A} (l : list (string * A)) k : is_Some (Validate.map_of l !! k) ↔ k ∈ l.*1.
Proof.
  unfold Validate.map_of. assert (∀ m : gmap string A,
    is_Some (fold_left (λ m kv, <[kv.1 := kv.2]> m) l m !! k) ↔ is_Some (m !! k) ∨ k ∈ l.*1) as H.
  { induction l as [|[j x] l IH]; intros m; csimpl; [set_solver|].
    rewrite IH, lookup_insert_is_Some'. set_solver. }
  rewrite H, lookup_empty. split; [intros [[? ?]|?]; done|auto].
Qed.

Lemma size_texts_le (l : list string) : (size (list_to_set l : gset string) ≤ length l)%nat.
Proof.
  induction l as [|x l IH]; [done|]. csimpl. rewrite size_union_alt, size_singleton.
  assert (size ((list_to_set l : gset string) ∖ {[x]}) ≤ size (list_to_set l : gset string))%nat
    by (apply subseteq_size; set_solver). simpl. lia.
Qed.

Lemma size_map_NoDup {A} (l : list (string * A)) : size (Validate.map_of l) = length l → NoDup l.*1.
Proof.
  intros H. rewrite <-size_dom in H.
  assert (E : dom (Validate.map_of l) = list_to_set l.*1).
  { apply set_eq. intros k. rewrite elem_of_dom, map_of_dom, elem_of_list_to_set. done. }
  rewrite E, <-(length_fmap fst l) in H. clear E. revert H. generalize l.*1. clear l.
  intros l. induction l as [|x l IH]; intros H; [constructor|].
  assert (x ∉ l) as Hx.
  { intros Hx. assert (E : list_to_set (x :: l) = (list_to_set l : gset string)) by (apply set_eq; set_solver).
    rewrite E in H. pose proof (size_texts_le l). simpl in H. lia. }
  constructor; [done|]. apply IH. csimpl in H. rewrite size_union, size_singleton in H; [simpl in H; lia|set_solver].
Qed.

(** The identity of an item of the manifest. *)
Definition item_of (item : Dict) (work attempt : string) : Prop :=
  _required_text item "work_id" = Ok work ∧ _required_text item "attempt_id" = Ok attempt.

Lemma validate_rows_Ok rows path items batch_id batch_attempt_id sha n staging :
  validate_rows rows path items batch_id batch_attempt_id sha n = Ok staging →
  bs_batch_id staging = batch_id ∧ bs_batch_attempt_id staging = batch_attempt_id ∧
  bs_manifest_sha256 staging = sha ∧ bs_path staging = path ∧
  bs_record_count staging = Z.of_nat (length rows) ∧
  ∀ item work attempt, item ∈ items → item_of item work attempt →
    ∃ row, List.filter (terminal_of work) rows = [row] ∧
      staged_terminal work attempt batch_id batch_attempt_id sha (path_text path)
        (bool_decide (work ∈ bs_failed_work_ids staging)) row.
Proof.
  intros H. unfold validate_rows in H. apply result_bind_Ok in H as (pairs&Hpairs&H). cbv zeta in H.
  apply result_bind_Ok in H as (u1&Hsize%require_Ok&H). apply bool_decide_eq_true_1 in Hsize.
  apply result_bind_Ok in H as (t&Ht&H). apply result_bind_Ok in H as (u2&Hone%require_Ok&H).
  apply result_bind_Ok in H as (u3&_&[= <-]). simpl. split_and!; try done.
  pose proof Hpairs as Hp. apply map_result_Ok in Hp.
  rewrite (Forall2_length _ _ _ Hp) in Hsize. pose proof (size_map_NoDup _ Hsize) as Hn.
  eapply (tallied_rows _ _ _ _ _ rows []) in Ht; [|apply tallied_start; intros work; apply map_of_dom].
  destruct Ht as [T D R F]. simpl in T, D, R, F. intros item work attempt Hitem [Hw Ha].
  assert (Hex : Validate.map_of pairs !! work = Some attempt).
  { apply map_of_lookup; [done|]. apply list_elem_of_lookup in Hitem as [i Hi].
    destruct (Forall2_lookup_l _ _ _ _ _ Hp Hi) as (p&Hpi&E). rewrite Hw, Ha in E. injection E as <-.
    by eapply list_elem_of_lookup_2. }
  destruct (D work) as [k Hk]; [by eexists|].
  assert (k = 1%Z) as ->.
  { apply Z.eqb_eq. apply (proj1 (forallb_forall _ _) Hone (work, k)).
    by apply list_elem_of_In, elem_of_map_to_list. }
  apply T in Hk. destruct (List.filter (terminal_of work) rows) as [|row [|]] eqn:Efil; try (simpl in Hk; lia).
  assert (Hrow : row ∈ List.filter (terminal_of work) rows) by (rewrite Efil; left).
  pose proof Hrow as [Hin Hterm]%elem_of_sfilter.
  exists row. split; [done|]. destruct (R _ _ Hin Hterm) as (a&failed&Ea&St).
  rewrite Hex in Ea. injection Ea as <-.
  assert (bool_decide (work ∈ sorted_texts (tl_failures t)) = failed) as ->; [|done].
  destruct failed; [apply bool_decide_eq_true_2|apply bool_decide_eq_false_2]; rewrite elem_of_sorted_texts, F.
  - eauto.
  - intros (r&a&Hr&Htr&Hs). assert (Hr2 : r ∈ List.filter (terminal_of work) rows) by by apply elem_of_sfilter.
    rewrite Efil in Hr2. apply list_elem_of_singleton in Hr2 as ->.
    pose proof (st_type _ _ _ _ _ _ _ _ St) as E1. by rewrite (st_type _ _ _ _ _ _ _ _ Hs) in E1.
Qed.
