(* ===== verification/LocalControl.v ===== *)
(** * local_control.py: from the queue to Spark and back

    [run_claimed_batch] claims messages, writes their manifest to the content store,
    runs one Spark application while a thread renews the locks, checks what it staged
    and settles every message of the batch in one transaction.  A run acts on the
    queue while time passes: between its calls other processes act on the queue and
    the heartbeat renews, and every call goes to the queue's actor, which may answer,
    refuse or time out. *)
From S2P Require Export Prelude PyFloat PyDict PyVal Json Sha256 LocalStorage LocalQueue ProcessPlan ProcessRecords ProcessExecutor LocalSpark.

Module Control.
Import Plan Records Executor Queue LocalSpark.

(** ** The world of a run *)

Section tables.
Context {Tables : Type}.

(** The heartbeat thread: the tokens it renews and the error that stopped it. *)
Record BatchHeartbeat := {
  hb_tokens : list string;
  hb_lock_seconds : Float;
  hb_lost : option exn;
}.

Record World := {
  w_queue : Messages;
  w_store : Files;
  w_tables : Tables;
  w_time : nat;
  w_heartbeat : option BatchHeartbeat;
}.

(** How the actor treats a call: it answers; the call times out before the operation
    starts, and is cancelled; it times out while the operation runs; or the actor is
    not running. *)
Inductive Fate := Answered | Cancelled | TimedOut | Refused (e : exn).

Record Surroundings := {
  sr_clock : nat → Float;                      (* what an operation reads *)
  sr_others : nat → Messages → Messages;       (* what other processes do *)
  sr_beats : nat → nat;                        (* intervals of the heartbeat thread *)
  sr_fate : nat → Fate;                        (* how the actor treats a call *)
  sr_stuck : nat → bool;                       (* the heartbeat thread does not join *)
}.

Abbreviation Run := (tx World).
Context (sr : Surroundings).

(** SerializedQueueActor.call of an operation that reads the clock. *)
Definition actor_call {A} (op : Float → Q A) : Run A := λ W,
  let apply := op (sr_clock sr (w_time W)) (w_queue W) in
  let after q := {| W with w_queue := q; w_time := S (w_time W) |} in
  match sr_fate sr (w_time W) with
  | Answered => (apply.1, after apply.2)
  | TimedOut => (Err TimeoutError, after apply.2)
  | Cancelled => (Err TimeoutError, after (w_queue W))
  | Refused e => (Err e, after (w_queue W))
  end.

(** One round of the thread's loop; an error ends it. *)
Definition beat (W : World) : World :=
  match w_heartbeat W with
  | Some h =>
      match hb_lost h with
      | Some _ => W
      | None =>
          match actor_call (λ now, renew_many (VStr <$> hb_tokens h) (hb_lock_seconds h) now) W with
          | (Ok _, W') => W'
          | (Err e, W') => {| W' with w_heartbeat := Some {| h with hb_lost := Some e |} |}
          end
      end
  | None => W
  end.

(** What happens before the next effect of the run. *)
Definition elapse (W : World) : World :=
  Nat.iter (sr_beats sr (w_time W)) beat
    {| W with w_queue := sr_others sr (w_time W) (w_queue W); w_time := S (w_time W) |}.

Definition call {A} (op : Float → Q A) : Run A := λ W, actor_call op (elapse W).

Definition require_live : Run unit := λ W,
  (match w_heartbeat W with
   | Some h => require (bool_decide (hb_lost h = None)) LeaseLostError
   | None => Ok tt
   end, W).

(** [with heartbeat: body]. *)
Definition with_heartbeat {A} (h : BatchHeartbeat) (body : Run A) : Run A := λ W,
  let '(r, W') := body {| W with w_heartbeat := Some h |} in
  (if sr_stuck sr (w_time W') then Err TimeoutError else r, {| W' with w_heartbeat := None |}).

(** [try: m except BaseException: handler; raise]. *)
Definition or_handle {A} (m : Run A) (handler : Run unit) : Run A := λ W,
  match m W with
  | (Ok a, W') => (Ok a, W')
  | (Err e, W') =>
      let '(r, W'') := handler W' in
      (match r with Ok _ => Err e | Err e' => Err e' end, W'')
  end.

(** ** One batch *)

Record ControlRun := {
  cr_batch_id : string;
  cr_correlation_id : string;
  cr_manifest : option StoredObject;
  cr_staging : option BatchStaging;
  cr_claimed_count : Z;
}.

(** The arguments, and the identifiers that uuid4 supplies. *)
Record RunArgs := {
  ra_owner : string;
  ra_max_items : Z;
  ra_minimum_items : Z;
  ra_lock_seconds : Float;
  ra_heartbeat_seconds : Float;
  ra_staging_root : Path;
  ra_content_root : string;
  ra_batch_id : string;
  ra_correlation_id : string;
  ra_batch_attempt_id : string;
  ra_new_id : nat → string;
}.

(** A Spark application on a manifest: path, digest, correlation. *)
Abbreviation SparkBatchRunner := (string → string → string → Files → tx Tables BatchStaging).

Definition _manifest_item (claim : ClaimedMessage) : result pyval :=
  payload ← py_dict (c_payload claim);
  Ok (VDict (dict_put "attempt_id" (VStr (c_lock_token claim))
       (dict_put "work_id" (VStr (c_message_id claim)) payload)))%string.

Definition manifest_value (a : RunArgs) (path : Path) (items : list pyval) : pyval :=
  VDict [("schema_version", VInt MANIFEST_VERSION);
         ("batch_id", VStr (ra_batch_id a));
         ("batch_attempt_id", VStr (ra_batch_attempt_id a));
         ("correlation_id", VStr (ra_correlation_id a));
         ("expected_staging_path", VStr (path_text path));
         ("items", VList items)]%string.

(** The staged path is the resolved one that the runner returns. *)
Definition _verify_staging_fence (staging : BatchStaging) (batch_id batch_attempt_id manifest_sha256 : string)
    (expected_path : Path) : result unit :=
  require (bool_decide (bs_batch_id staging = batch_id)
           && bool_decide (bs_batch_attempt_id staging = batch_attempt_id)
           && bool_decide (bs_manifest_sha256 staging = manifest_sha256)
           && bool_decide (bs_path staging = expected_path)) StagingValidationError.

Definition outcome_of (failed : list string) (claim : ClaimedMessage) : pyval * string * option string :=
  if bool_decide (c_message_id claim ∈ failed)
  then (VStr (c_lock_token claim), "abandon", Some "Spark staging contains a failed terminal record")%string
  else (VStr (c_lock_token claim), "complete"%string, None).

Definition _abandon_live_claims (claims : list ClaimedMessage) : Run unit := λ W,
  match call (λ now, finalize
    ((λ c, (VStr (c_lock_token c), "abandon", Some "batch execution failed")%string) <$> claims) fzero now) W with
  | (Err LeaseLostError, W') => (Ok tt, W')
  | r => r
  end.

(** A step on the content store. *)
Definition on_store {A} (op : tx Files A) : Run A := λ W,
  let '(r, fs) := op (w_store W) in (r, {| W with w_store := fs |}).

(** The Spark application runs while time passes. *)
Definition run_spark (op : Files → tx Tables BatchStaging) : Run BatchStaging := λ W,
  let W1 := elapse W in
  let '(r, t) := op (w_store W1) (w_tables W1) in (r, {| W1 with w_tables := t |}).

Section run.
Context (runner : SparkBatchRunner).

(** The body of the [with] statement. *)
Definition execute_claims (a : RunArgs) (claims : list ClaimedMessage) (manifest : StoredObject)
    (expected_staging_path : Path) : Run BatchStaging :=
  staging ← run_spark (runner (so_path manifest) (so_sha256 manifest) (ra_correlation_id a));
  require_live;;
  tx_lift (_verify_staging_fence staging (ra_batch_id a) (ra_batch_attempt_id a) (so_sha256 manifest)
             expected_staging_path);;
  call (λ now, finalize (outcome_of (bs_failed_work_ids staging) <$> claims) fzero now);;
  mret staging.

Definition claim_batch (a : RunArgs) : Run (list ClaimedMessage) :=
  call (λ now, claim (ra_max_items a) (VStr (ra_owner a)) (ra_lock_seconds a) (ra_minimum_items a) now
                 (ra_new_id a)).

(** From the claims on. *)
Definition run_claims (a : RunArgs) (claims : list ClaimedMessage) : Run ControlRun :=
  match claims with
  | [] => mret {| cr_batch_id := ra_batch_id a; cr_correlation_id := ra_correlation_id a;
                  cr_manifest := None; cr_staging := None; cr_claimed_count := 0 |}
  | _ =>
      path ← tx_lift (attempt_staging_path (ra_staging_root a) (ra_batch_id a) (ra_batch_attempt_id a));
      items ← tx_lift (map_result _manifest_item claims);
      manifest ← on_store (put_json (ra_content_root a) (manifest_value a path items));
      tx_require (negb (fleb (ra_heartbeat_seconds a) fzero
                        || fleb (ra_lock_seconds a) (ra_heartbeat_seconds a))) ValueError;;
      staging ← or_handle
        (with_heartbeat {| hb_tokens := c_lock_token <$> claims; hb_lock_seconds := ra_lock_seconds a;
                           hb_lost := None |}
          (execute_claims a claims manifest path))
        (_abandon_live_claims claims);
      mret {| cr_batch_id := ra_batch_id a; cr_correlation_id := ra_correlation_id a;
              cr_manifest := Some manifest; cr_staging := Some staging;
              cr_claimed_count := Z.of_nat (length claims) |}
  end.

Definition run_claimed_batch (a : RunArgs) : Run ControlRun :=
  claims ← claim_batch a; run_claims a claims.
End run.
End tables.
Arguments World Tables : clear implicits.

(** The runner that local_cli._submit passes: the Spark session is created for the
    correlation, then the batch is processed. *)
Section submit.
Context {C K R : Type} `{!EqDecision K}.
Context (_config_from_work : Dict → Outcome C) (_runtime_cache_key : C → K).
Context (load_runtime : C → Outcome R) (run_with_runtime : C → R → Outcome Executor.VideoRun).
Context (sleep : Float → option Failure) (utc_now : pyval → pyval → nat → string).
Context {Tables : Type} `{!Spark Tables}.

Definition submit_runner (create_local_spark_session : string → result unit) (resolve : string → Path)
    (staging_root : Path) (mode : string) (minimum_workers : Z)
    (manifest_path manifest_sha256 correlation_id : string) (fs : Files) : tx Tables BatchStaging :=
  tx_lift (create_local_spark_session correlation_id);;
  process_claimed_batch _config_from_work _runtime_cache_key load_runtime run_with_runtime sleep utc_now
    resolve manifest_path staging_root (Some manifest_sha256) mode minimum_workers fs.
End submit.

End Control.
