(* ===== verification/LocalControlTheorems.v ===== *)
(** * Local runs: the tokens of claimed messages and what a run settles

    What a call of the queue may do to a message that is locked under the token [T],
    as long as nobody else issues [T] or completes under it; then a run, call by
    call. *)
From S2P Require Export Prelude PyFloat PyDict PyVal Json Sha256 LocalStorage JsonTheorems ControlTypes LocalQueue LocalQueueTheorems LocalQueueContract ProcessPlan ProcessRecords ProcessExecutor LocalSpark LocalSparkTheorems LocalControl.
Import Queue.

(** ** One message *)

Inductive token_move (T : string) : option Message → option Message → Prop :=
  | tm_new m : m_state m = Q_ready → m_lock_token m = None → token_move T None (Some m)
  | tm_claim m m' : m_state m = Q_ready → m_state m' = Q_locked → m_lock_token m' ≠ Some T →
      m_delivery_count m' = (m_delivery_count m + 1)%Z → token_move T (Some m) (Some m')
  | tm_hold m m' : m_state m = Q_locked → m_state m' = Q_locked → m_lock_token m' = m_lock_token m →
      m_delivery_count m' = m_delivery_count m → token_move T (Some m) (Some m')
  | tm_release m m' : m_state m = Q_locked → (m_state m' = Q_ready ∨ m_state m' = Q_dead) →
      m_lock_token m' = None → m_delivery_count m' = m_delivery_count m → token_move T (Some m) (Some m')
  | tm_complete m m' : m_state m = Q_locked → m_lock_token m ≠ Some T → m_state m' = Q_completed →
      m_lock_token m' = None → m_delivery_count m' = m_delivery_count m → token_move T (Some m) (Some m').

(** The [d]-th delivery of the message is under [T], or was released, or is over. *)
Definition unfinished (T : string) (d : Z) (m : Message) : Prop :=
  (m_state m = Q_locked ∧ m_lock_token m = Some T ∧ m_delivery_count m = d) ∨
  (m_delivery_count m = d ∧ (m_state m = Q_ready ∨ m_state m = Q_dead)) ∨
  ((d < m_delivery_count m)%Z ∧ m_lock_token m ≠ Some T).

Lemma unfinished_move T d m x :
  token_move T (Some m) x → unfinished T d m → ∃ m', x = Some m' ∧ unfinished T d m'.
Proof.
  intros H U. inversion H as [|? m' Hr Hl Ht Hc|? m' Hl Hl' Ht Hc|? m' Hl Hr Ht Hc|? m' Hl Hn Hd Ht Hc]; subst;
    exists m'; (split; [done|]); unfold unfinished in *; destruct U as [(Us&Ut&Uc)|[(Uc&Us)|[Uc Ut]]];
    try (destruct Us; congruence); try (exfalso; congruence); try (right; right; split; [lia|congruence]);
    first [left; split_and!; congruence | right; left; split; [congruence|done]].
Qed.

Lemma unfinished_completed T d m :
  unfinished T d m → m_state m = Q_completed → (d < m_delivery_count m)%Z.
Proof. intros [(Hs&_)|[(_&[Hs|Hs])|[Hd _]]] Hc; [by rewrite Hs in Hc..|exact Hd]. Qed.

(** ** The table *)

Definition treats (T : string) (s s' : Messages) : Prop := ∀ k, rtc (token_move T) (s !! k) (s' !! k).

#[export] Instance treats_preorder T : PreOrder (treats T).
Proof. split; [by intros ms k|]. intros a b c H1 H2 k. etrans; [apply H1|apply H2]. Qed.

Lemma treats_insert T k m s : token_move T (s !! k) (Some m) → treats T s (<[k := m]> s).
Proof.
  intros H j. destruct (decide (j = k)) as [->|Hne].
  - rewrite lookup_insert_eq. by apply rtc_once.
  - by rewrite lookup_insert_ne.
Qed.

(** The message [k] has the token [T], if one has. *)
Definition tracked (T k : string) (d : Z) (s : Messages) : Prop :=
  ∃ m, s !! k = Some m ∧ unfinished T d m ∧ ∀ j x, s !! j = Some x → m_lock_token x = Some T → j = k.

Lemma unfinished_moves T d m x :
  rtc (token_move T) (Some m) x → unfinished T d m → ∃ m', x = Some m' ∧ unfinished T d m'.
Proof.
  intros H. remember (Some m) as o eqn:E. revert m E.
  induction H as [o|o1 o2 o3 Hstep _ IH]; intros m -> U; [by exists m|].
  destruct (unfinished_move _ _ _ _ Hstep U) as (m'&->&U'). by eapply IH.
Qed.

Lemma token_arrives T o o' x :
  rtc (token_move T) o o' → o' = Some x → m_lock_token x = Some T → ∃ y, o = Some y ∧ m_lock_token y = Some T.
Proof.
  intros H. revert x. induction H as [o|o1 o2 o3 Hs _ IH]; intros x E Hx; [by exists x|].
  destruct (IH x E Hx) as (y&->&Hy). inversion Hs; subst; try (by congruence); eauto; eexists; split; [done|congruence].
Qed.

Lemma tracked_treats T k d s s' : treats T s s' → tracked T k d s → tracked T k d s'.
Proof.
  intros H (m&Hm&U&Ha). pose proof (H k) as Hk. rewrite Hm in Hk.
  destruct (unfinished_moves _ _ _ _ Hk U) as (m'&Hm'&U'). exists m'. split; [done|]. split; [done|].
  intros j x Hx Ht. destruct (token_arrives _ _ _ _ (H j) Hx Ht) as (y&Hy&Hty). by eapply Ha.
Qed.

(** ** The calls *)

Section calls.
Context (T : string).

Lemma treats_recover t s : treats T s (recover_all t s).
Proof.
  intros k. unfold recover_all. rewrite lookup_fmap. destruct (s !! k) as [m|] eqn:Hm; [|reflexivity].
  simpl. destruct (lock_expired t m) eqn:He; [|reflexivity]. apply lock_expired_true in He as [Hst _].
  apply rtc_once, tm_release; simpl; try done.
  destruct (m_max_delivery_count m <=? m_delivery_count m)%Z; auto.
Qed.

Lemma treats_renew_token until now token s u s' : renew_token until now token s = (Ok u, s') → treats T s s'.
Proof.
  unfold renew_token. intros H. tx_step H. subst.
  destruct (find_lock token now s) as [[id m]|] eqn:Hf; [|by tx_inv H].
  apply find_lock_Some in Hf as (Hm&Ht&Hl%lock_live_locked). apply write_Ok in H as (_&_&->).
  apply treats_insert. rewrite Hm. by apply tm_hold.
Qed.

(** An outcome that does not complete [T]. *)
Definition no_completion (o : pyval * string * option string) : Prop :=
  _required_text o.1.1 = Ok T → o.1.2 ≠ "complete"%string.

Lemma treats_finalize_one delay now o s u s' :
  no_completion o → finalize_one delay now o s = (Ok u, s') → treats T s s'.
Proof.
  destruct o as [[raw action] reason]. unfold no_completion. simpl. intros Hn H. unfold finalize_one in H.
  apply tx_bind_Ok in H as (token&s1&[Htok ->]%tx_lift_Ok&H).
  apply tx_bind_Ok in H as (ms&s1&[-> ->]%tx_get_Ok&H).
  destruct (find_lock token now s) as [[id m]|] eqn:Hf; [|by tx_inv H].
  apply find_lock_Some in Hf as (Hm&Ht&Hl%lock_live_locked).
  apply tx_bind_Ok in H as ([[st r] a]&s1&[Hfs ->]%tx_lift_Ok&H). apply write_Ok in H as (_&_&->).
  apply treats_insert. rewrite Hm. unfold _final_state in Hfs.
  destruct (String.eqb_spec action "complete") as [->|Hne].
  - injection Hfs as <- <- <-. apply tm_complete; try done. rewrite Ht. intros [= ->]. by apply Hn.
  - apply tm_release; simpl; try done. repeat case_match; simplify_eq; auto.
Qed.

Lemma treats_for {A} (f : A → Q unit) l s u s' :
  (∀ x s1 s2, x ∈ l → f x s1 = (Ok tt, s2) → treats T s1 s2) → tx_for f l s = (Ok u, s') → treats T s s'.
Proof.
  intros Hf H. eapply (tx_for_ind (λ s1, treats T s s1)) in H; [done| |reflexivity].
  intros x s1 s2 Hx P E. etrans; [exact P|by eapply Hf].
Qed.

Lemma treats_finalize os delay now s r s' :
  Forall no_completion os → finalize os delay now s = (r, s') → treats T s s'.
Proof.
  intros Ho H. destruct r as [u|e]; [|by rewrite (finalize_Err _ _ _ _ _ _ H)].
  unfold finalize in H. destruct os; [by apply tx_ret_Ok in H as [_ ->]|].
  apply tx_bind_Ok in H as (d&s0&[_ ->]%tx_lift_Ok&H%atomically_Ok).
  eapply treats_for; [|exact H]. intros x s1 s2 Hx. apply treats_finalize_one.
  by eapply (proj1 (Forall_forall _ _) Ho).
Qed.

Lemma treats_renew_many vs lock now s r s' : renew_many vs lock now s = (r, s') → treats T s s'.
Proof.
  intros H. destruct r as [u|e]; [|by rewrite (renew_many_Err _ _ _ _ _ _ H)].
  unfold renew_many in H. apply tx_bind_Ok in H as ([t l]&s0&[_ ->]%tx_lift_Ok&H).
  apply tx_bind_Ok in H as (u'&s1&H%atomically_Ok&[_ ->]%tx_ret_Ok).
  eapply treats_for; [|exact H]. intros. by eapply treats_renew_token.
Qed.

Lemma treats_enqueue v payload mx av now id s r s' : enqueue v payload mx av now id s = (Ok r, s') → treats T s s'.
Proof.
  intros H. apply enqueue_Ok in H as (key&sha&_&_&[(m&_&_&_&_&->)|(->&_&Hid&_&->)]); [done|].
  apply treats_insert. rewrite Hid. by apply tm_new.
Qed.

Lemma claim_row_token owner ids lease now ix s c s' :
  claim_row owner ids lease now ix s = (Ok c, s') → c_lock_token c = ids ix.1.
Proof.
  destruct ix as [i [id row]]. unfold claim_row. intros (ms&s1&_&H)%tx_bind_Ok.
  by apply tx_bind_Ok in H as (u&s2&_&[-> _]%tx_ret_Ok).
Qed.

Lemma claim_tokens limit owner lock mn now ids s cs s' :
  claim limit owner lock mn now ids s = (Ok cs, s') → ∀ c, c ∈ cs → ∃ i, c_lock_token c = ids i.
Proof.
  intros H. unfold claim in H. apply tx_bind_Ok in H as ([o l]&s0&[_ ->]%tx_lift_Ok&H).
  apply atomically_Ok in H. apply tx_bind_Ok in H as (n&s1&_&H). apply tx_bind_Ok in H as (ms&s2&_&H).
  if_inv H; [apply tx_ret_Ok in H as [-> _]; by intros c ?%elem_of_nil|].
  eapply (tx_map_prefix (λ _ cs _, Forall (λ c, ∃ i, c_lock_token c = ids i) cs)) in H;
    [by apply Forall_forall| |constructor].
  intros _ bs x _ s3 c s4 _ IH Hc. apply Forall_app. split; [done|]. apply Forall_singleton.
  eexists. by eapply claim_row_token.
Qed.

Lemma treats_claim limit owner lock mn now ids s r s' :
  queue_ok s → (∀ i, ids i ≠ T) → claim limit owner lock mn now ids s = (Ok r, s') → treats T s s'.
Proof.
  intros I Hi H. pose proof (claim_tokens _ _ _ _ _ _ _ _ _ H) as Ht.
  apply queue_claim_Ok in H as [(_&_&->)|(_&[_ _ Ho Hc])]; [apply treats_recover| |done].
  etrans; [apply (treats_recover now)|]. rewrite firstn_all in Ho, Hc.
  set (s1 := recover_all now s) in *. set (rows := take _ _) in *. intros k.
  destruct (decide (k ∈ rows.*1)) as [Hk|Hk]; [|by rewrite Ho].
  apply list_elem_of_fmap in Hk as (x&->&Hx). apply list_elem_of_lookup in Hx as [i Hx].
  destruct (Forall2_lookup_l _ _ _ _ _ Hc Hx) as (c&Hcs&_&_&Hd&m&->&Hst&Htok&_&Hm).
  apply list_elem_of_lookup_2 in Hcs. destruct (Ht _ Hcs) as [n Hn].
  apply lookup_take_Some in Hx as [Hx _]. apply list_elem_of_lookup_2, elem_of_ready_rows in Hx as (->&Hr&_).
  apply rtc_once, tm_claim; try done; [|by rewrite Hm].
  rewrite Htok, Hn. intros [= E]. by apply (Hi n).
Qed.

(** A call that neither issues [T] nor completes under it. *)
Definition spares (op : queue_op) : Prop :=
  ¬ issues T op ∧ match op with QFinalize os _ _ => Forall no_completion os | _ => True end.

Lemma treats_run op s r s' : queue_ok s → spares op → run_queue op s = (r, s') → treats T s s'.
Proof.
  intros I [Hi Hs] H. destruct r as [[]|e]; [|by rewrite (run_queue_Err _ _ _ _ H)].
  destruct op; simpl in H, Hi, Hs; unfold ignore in H;
    try (apply tx_bind_Ok in H as (x&s1&H&[_ ->]%tx_ret_Ok)).
  - by eapply treats_enqueue.
  - eapply treats_claim; [done| |exact H]. intros i E. apply Hi. by exists i.
  - unfold renew in H. apply tx_bind_Ok in H as ([t l]&s0&[_ ->]%tx_lift_Ok&H).
    apply tx_bind_Ok in H as (u&s2&H%atomically_Ok&[_ ->]%tx_ret_Ok). by eapply treats_renew_token.
  - by eapply treats_renew_many.
  - by eapply treats_finalize.
  - unfold abandon in H. apply tx_bind_Ok in H as (d&s1&[_ ->]%tx_lift_Ok&H).
    eapply treats_finalize; [|exact H]. by apply Forall_singleton.
  - apply atomically_Ok, queue_recover_Ok in H as ->. apply treats_recover.
Qed.

Lemma treats_runs ops s : queue_ok s → Forall spares ops → queue_ok (run_all ops s) ∧ treats T s (run_all ops s).
Proof.
  intros I H. revert s I. induction H as [|op ops Hop _ IH]; intros s I; [done|]. simpl.
  destruct (run_queue op s) as [r s1] eqn:E. simpl. destruct (run_queue_sound _ _ _ _ E I) as [I1 _].
  destruct (IH s1 I1) as [I2 H2]. split; [done|]. etrans; [by eapply treats_run|done].
Qed.
End calls.

(** ** What a local batch settles

    However the actor answers, whatever other processes do to the queue and wherever a
    run fails, a message is completed only when its terminal record is staged. *)
Import Records Queue LocalSpark Control.

(** Identifiers of uuid4 carry no white space. *)
Definition clean_text (s : string) : Prop := is_blank s = false ∧ str_strip s = s.

Lemma clean_required s : clean_text s → Queue._required_text (VStr s) = Ok s.
Proof. intros [Hb Hs]. unfold Queue._required_text. by rewrite Hb, Hs. Qed.

Section run.
Context {Tables : Type} (sr : Surroundings) (runner : string → string → string → Files → tx Tables BatchStaging).
Context (a : RunArgs).
Abbreviation W_ := (World Tables).

(** Other processes neither issue the tokens of this run nor complete under them. *)
Definition others_spare : Prop := ∀ t s, ∃ ops, sr_others sr t s = run_all ops s ∧
  ∀ i, Forall (spares (ra_new_id a i)) ops.
Context (Ho : others_spare).

(** The delivery that [c] claimed is not completed. *)
Definition open (c : ClaimedMessage) (W : W_) : Prop :=
  queue_ok (w_queue W) ∧ tracked (c_lock_token c) (c_message_id c) (c_delivery_count c) (w_queue W).

(** What the run keeps to itself. *)
Definition same_files (W W' : W_) : Prop := w_store W' = w_store W ∧ w_tables W' = w_tables W.
#[local] Instance same_files_preorder : PreOrder same_files.
Proof. split; [by intros W|]. intros W1 W2 W3 [E1 E2] [E3 E4]. split; congruence. Qed.

(** Time passes: the others act once, then the heartbeat some times. *)
Lemma elapse_ind (P : W_ → Prop) W :
  P {| W with w_queue := sr_others sr (w_time W) (w_queue W); w_time := S (w_time W) |} →
  (∀ W', P W' → P (beat sr W')) → P (elapse sr W).
Proof.
  intros H0 Hb. unfold elapse. generalize (sr_beats sr (w_time W)). intros n.
  induction n as [|n IH]; [exact H0|]. by apply Hb.
Qed.

Section claim.
Context (c : ClaimedMessage) (i : nat) (Hi : c_lock_token c = ra_new_id a i).

(** A call of the queue that keeps the delivery open, whatever it returns. *)
Definition harmless {A} (op : Float → Q A) : Prop := ∀ now s r s',
  op now s = (r, s') → queue_ok s → queue_ok s' ∧ treats (c_lock_token c) s s'.

Lemma actor_call_files {A} (op : Float → Q A) W : same_files W (actor_call sr op W).2.
Proof. unfold actor_call. by destruct (sr_fate _ _). Qed.

Lemma actor_call_open {A} (op : Float → Q A) W : harmless op → open c W → open c (actor_call sr op W).2.
Proof.
  intros H [I Tr]. unfold actor_call.
  destruct (op (sr_clock sr (w_time W)) (w_queue W)) as [r q] eqn:E. simpl.
  destruct (H _ _ _ _ E I) as [I' Tt]. assert (X : tracked (c_lock_token c) (c_message_id c) (c_delivery_count c) q)
    by by eapply tracked_treats.
  by destruct (sr_fate sr (w_time W)).
Qed.

Lemma renew_harmless h : harmless (λ now, renew_many (VStr <$> hb_tokens h) (hb_lock_seconds h) now).
Proof.
  intros now s r s' H I. split; [|by eapply treats_renew_many].
  destruct r; [by eapply renew_many_sound in H as [? _]|by rewrite (renew_many_Err _ _ _ _ _ _ H)].
Qed.

Lemma beat_files W : same_files W (beat sr W).
Proof.
  unfold beat. destruct (w_heartbeat W) as [h|]; [|done]. destruct (hb_lost h); [done|].
  pose proof (actor_call_files (λ now, renew_many (VStr <$> hb_tokens h) (hb_lock_seconds h) now) W) as H.
  destruct (actor_call _ _ W) as [[]]; exact H.
Qed.

Lemma beat_open W : open c W → open c (beat sr W).
Proof.
  intros H. unfold beat. destruct (w_heartbeat W) as [h|]; [|done]. destruct (hb_lost h); [done|].
  pose proof (actor_call_open _ W (renew_harmless h) H) as X.
  destruct (actor_call _ _ W) as [[]]; exact X.
Qed.

Lemma elapse_files W : same_files W (elapse sr W).
Proof. apply elapse_ind; [done|]. intros W' H. etrans; [exact H|apply beat_files]. Qed.

Lemma elapse_open W : open c W → open c (elapse sr W).
Proof.
  intros [I Tr]. apply elapse_ind; [|apply beat_open].
  destruct (Ho (w_time W) (w_queue W)) as (ops&E&Hops). unfold open. simpl. rewrite E.
  destruct (treats_runs (c_lock_token c) ops (w_queue W) I) as [I' Tt]; [by rewrite Hi|].
  split; [done|by eapply tracked_treats].
Qed.

Lemma call_open {A} (op : Float → Q A) W : harmless op → open c W → open c (call sr op W).2.
Proof. intros H O. apply actor_call_open; [done|]. by apply elapse_open. Qed.

Lemma call_files {A} (op : Float → Q A) W : same_files W (call sr op W).2.
Proof. unfold call. etrans; [apply elapse_files|apply actor_call_files]. Qed.

Lemma finalize_harmless os :
  Forall (no_completion (c_lock_token c)) os → harmless (λ now, finalize os fzero now).
Proof.
  intros Hos now s r s' H I. split; [|by eapply treats_finalize].
  destruct r; [by eapply finalize_sound in H as [? _]|by rewrite (finalize_Err _ _ _ _ _ _ H)].
Qed.

(** What justifies that the delivery is completed. *)
Definition justified (fs : Files) (manifest : StoredObject) (path : Path) (W : W_) : Prop :=
  ∃ staging t, runner (so_path manifest) (so_sha256 manifest) (ra_correlation_id a) fs t = (Ok staging, w_tables W) ∧
    bs_batch_id staging = ra_batch_id a ∧ bs_batch_attempt_id staging = ra_batch_attempt_id a ∧
    bs_manifest_sha256 staging = so_sha256 manifest ∧ bs_path staging = path ∧
    c_message_id c ∉ bs_failed_work_ids staging.

(** At the end of a part of the run the delivery is open or justified. *)
Definition accounted (fs : Files) (manifest : StoredObject) (path : Path) (W : W_) : Prop :=
  queue_ok (w_queue W) ∧ w_store W = fs ∧ (open c W ∨ justified fs manifest path W).

Lemma accounted_files fs manifest path W W' :
  accounted fs manifest path W → queue_ok (w_queue W') → same_files W W' → (open c W → open c W') →
  accounted fs manifest path W'.
Proof.
  intros (_&Ef&Hj) I [Es Et] Ho'. split; [done|]. split; [congruence|].
  destruct Hj as [?|(staging&t&Hr&Hrest)]; [left; auto|right]. exists staging, t. by rewrite Et.
Qed.

(** The table stays well formed whatever happens. *)
Definition well_formed {A} (op : Float → Q A) : Prop := ∀ now s r s',
  op now s = (r, s') → queue_ok s → queue_ok s'.

Lemma actor_call_ok {A} (op : Float → Q A) (W : W_) :
  well_formed op → queue_ok (w_queue W) → queue_ok (w_queue (actor_call sr op W).2).
Proof.
  intros H I. unfold actor_call. destruct (op _ (w_queue W)) as [r q] eqn:E. simpl.
  pose proof (H _ _ _ _ E I). by destruct (sr_fate sr _).
Qed.

Lemma elapse_ok (W : W_) : queue_ok (w_queue W) → queue_ok (w_queue (elapse sr W)).
Proof.
  intros I. apply elapse_ind.
  - destruct (Ho (w_time W) (w_queue W)) as (ops&E&Hops). simpl. rewrite E.
    apply (treats_runs (ra_new_id a 0)); [done|]. apply Hops.
  - intros W' I'. unfold beat. destruct (w_heartbeat W') as [h|]; [|done]. destruct (hb_lost h); [done|].
    pose proof (actor_call_ok (λ now, renew_many (VStr <$> hb_tokens h) (hb_lock_seconds h) now) W') as X.
    destruct (actor_call _ _ W') as [[]]; (apply X; [|done]; intros now s r s' E Is; by eapply renew_harmless).
Qed.

Lemma call_queue_ok os (W : W_) : queue_ok (w_queue W) → queue_ok (w_queue (call sr (λ now, finalize os fzero now) W).2).
Proof.
  intros I. apply actor_call_ok; [|by apply elapse_ok]. intros now s r s' E Is.
  destruct r; [by eapply finalize_sound in E as [? _]|by rewrite (finalize_Err _ _ _ _ _ _ E)].
Qed.

Context (claims : list ClaimedMessage) (Hc : c ∈ claims) (Hn : NoDup (c_lock_token <$> claims)).
Context (Hclean : Forall (λ c, clean_text (c_lock_token c)) claims).

Lemma own_outcome failed :
  c_message_id c ∈ failed → Forall (no_completion (c_lock_token c)) (outcome_of failed <$> claims).
Proof.
  intros Hf. apply Forall_fmap, Forall_forall. intros x Hx Ht. cbn [fst snd] in Ht |- *.
  assert (Ex : Queue._required_text (VStr (c_lock_token x)) = Ok (c_lock_token x))
    by (apply clean_required; by eapply (proj1 (Forall_forall _ _) Hclean)).
  assert (c_lock_token x = c_lock_token c) as E.
  { unfold outcome_of in Ht. destruct (bool_decide _); cbn [fst snd] in Ht; rewrite Ex in Ht; by injection Ht. }
  assert (x = c) as -> by by eapply (NoDup_fmap_eq c_lock_token).
  unfold outcome_of. by rewrite bool_decide_eq_true_2.
Qed.

Lemma abandon_outcomes : Forall (no_completion (c_lock_token c))
  ((λ c, (VStr (c_lock_token c), "abandon", Some "batch execution failed")%string) <$> claims).
Proof. apply Forall_fmap, Forall_forall. by intros x Hx _. Qed.

Lemma execute_accounted manifest path W :
  open c W → accounted (w_store W) manifest path (execute_claims sr runner a claims manifest path W).2.
Proof.
  intros O. unfold execute_claims, mbind, tx_bind, run_spark.
  pose proof (elapse_open W O) as O1. destruct (elapse_files W) as [Es Et].
  destruct (runner _ _ _ (w_store (elapse sr W)) (w_tables (elapse sr W))) as [[staging|e] t] eqn:Er; simpl;
    [|split; [apply O1|split; [done|by left]]].
  set (W2 := {| w_queue := _; w_tables := t |}).
  assert (O2 : accounted (w_store W) manifest path W2) by (split; [apply O1|split; [done|by left]]).
  destruct (match w_heartbeat (elapse sr W) with Some h => _ | None => _ end) as [[]|e]; [|exact O2].
  destruct (_verify_staging_fence staging _ _ _ path) as [[]|e] eqn:Ef; simpl; [|exact O2].
  apply require_Ok in Ef. rewrite !andb_true_iff, !bool_decide_eq_true in Ef. destruct Ef as (((E1&E2)&E3)&E4).
  set (op := λ now, finalize (outcome_of (bs_failed_work_ids staging) <$> claims) fzero now).
  assert (O3 : accounted (w_store W) manifest path (call sr op W2).2).
  { pose proof (call_files op W2) as [Fs Ft]. split; [by apply call_queue_ok, O1|]. split; [by rewrite Fs|].
    destruct (decide (c_message_id c ∈ bs_failed_work_ids staging)) as [Hf|Hf].
    - left. apply call_open; [|exact O1]. apply finalize_harmless. by apply own_outcome.
    - right. exists staging, (w_tables (elapse sr W)). rewrite Ft, <-Es. by split_and!. }
  by destruct (call sr op W2) as [[[]|e] W4].
Qed.

Lemma with_accounted manifest path h W :
  open c W → accounted (w_store W) manifest path
    (with_heartbeat sr h (execute_claims sr runner a claims manifest path) W).2.
Proof.
  intros O. unfold with_heartbeat. set (W0 := Build_World _ _ _ _ _).
  pose proof (execute_accounted manifest path W0 O) as X.
  destruct (execute_claims _ _ _ _ _ _ W0) as [r W1]. simpl in X |- *.
  eapply accounted_files; [exact X|apply X|done|done].
Qed.

Lemma abandon_accounted fs manifest path W :
  accounted fs manifest path W → accounted fs manifest path (_abandon_live_claims sr claims W).2.
Proof.
  intros X. unfold _abandon_live_claims.
  pose proof (call_files (λ now, finalize ((λ c, (VStr (c_lock_token c), "abandon",
    Some "batch execution failed")%string) <$> claims) fzero now) W) as F.
  pose proof (call_queue_ok ((λ c, (VStr (c_lock_token c), "abandon",
    Some "batch execution failed")%string) <$> claims) W (proj1 X)) as I.
  assert (accounted fs manifest path (call sr (λ now, finalize ((λ c, (VStr (c_lock_token c), "abandon",
    Some "batch execution failed")%string) <$> claims) fzero now) W).2) as Y.
  { eapply accounted_files; [exact X|exact I|exact F|]. apply call_open. apply finalize_harmless, abandon_outcomes. }
  destruct (call sr _ W) as [[[]|[]] W']; exact Y.
Qed.

Lemma handled_accounted manifest path h W :
  open c W → accounted (w_store W) manifest path
    (or_handle (with_heartbeat sr h (execute_claims sr runner a claims manifest path))
       (_abandon_live_claims sr claims) W).2.
Proof.
  intros O. unfold or_handle. pose proof (with_accounted manifest path h W O) as X.
  destruct (with_heartbeat _ _ _ W) as [[s|e] W1]; [exact X|].
  pose proof (abandon_accounted _ _ _ W1 X) as Y. destruct (_abandon_live_claims _ _ W1) as [[|] W2]; exact Y.
Qed.

End claim.

(** After the claim: the delivery is still open, or the manifest was stored and the
    staging of its run justifies it. *)
Lemma run_claims_accounted c i claims W :
  c_lock_token c = ra_new_id a i → c ∈ claims → NoDup (c_lock_token <$> claims) →
  Forall (λ c, clean_text (c_lock_token c)) claims → open c W →
  let W' := (run_claims sr runner a claims W).2 in
  open c W' ∨ ∃ path items manifest fs,
    attempt_staging_path (ra_staging_root a) (ra_batch_id a) (ra_batch_attempt_id a) = Ok path ∧
    map_result _manifest_item claims = Ok items ∧
    put_json (ra_content_root a) (manifest_value a path items) (w_store W) = (Ok manifest, fs) ∧
    accounted c fs manifest path W'.
Proof.
  intros Hi Hc Hn Hclean O. unfold run_claims. destruct claims as [|c0 cs] eqn:Ecs; [by apply elem_of_nil in Hc|].
  rewrite <-Ecs in *. clear Ecs. unfold mbind, tx_bind, tx_lift.
  destruct (attempt_staging_path _ _ _) as [path|e] eqn:Ep; [|by left].
  destruct (map_result _manifest_item _) as [items|e] eqn:Ei; [|by left].
  unfold on_store. destruct (put_json _ _ (w_store W)) as [[manifest|e] fs] eqn:Em; [|by left].
  set (W1 := Build_World _ _ _ _ _). destruct (tx_require _ ValueError W1) as [[[]|e] W2] eqn:Er.
  - apply tx_require_Ok in Er as [_ ->]. right. exists path, items, manifest, fs. split_and!; try done.
    pose proof (handled_accounted c i Hi claims Hc Hn Hclean manifest path
      {| hb_tokens := c_lock_token <$> claims; hb_lock_seconds := ra_lock_seconds a; hb_lost := None |} W1 O) as X.
    by destruct (or_handle _ _ W1) as [[s|e] W3].
  - left. unfold tx_require, tx_lift in Er. injection Er as _ <-. exact O.
Qed.
End run.
