(* ===== verification/LocalSubmitTheorems.v ===== *)
(** * Completed messages of a local batch

    The manifest that the run stored is the manifest that the Spark application reads,
    so the staging that completes a message holds the terminal record of its claim. *)
From S2P Require Export Prelude PyFloat PyDict PyVal Json Sha256 LocalStorage JsonTheorems ControlTypes LocalQueue LocalQueueTheorems LocalQueueContract ProcessPlan ProcessRecords ProcessExecutor ProcessExecutorFacts LocalSpark LocalSparkTheorems LocalControl LocalControlTheorems.
Import Plan Records Executor Queue LocalSpark Control.

(** ** The manifest, written and read *)

(** A claim as the queue returns it: its payload is a dict and its texts carry no
    white space around. *)
Record proper_claim (c : ClaimedMessage) : Prop := {
  pc_message : clean_text (c_message_id c);
  pc_token : clean_text (c_lock_token c);
  pc_payload : ∃ d, c_payload c = VDict d ∧ json_unique (c_payload c) = true;
}.

Lemma dict_put_unique k v d :
  json_unique v = true → json_unique (VDict d) = true → json_unique (VDict (dict_put k v d)) = true.
Proof.
  intros Hv. cbn [json_unique]. rewrite !andb_true_iff, !bool_decide_eq_true.
  induction d as [|[j x] d IH]; cbn; [by rewrite Hv; split; [apply NoDup_singleton|]|].
  intros [Hn [Hx Hd]%andb_true_iff]. apply NoDup_cons in Hn as [Hj Hn].
  destruct (String.eqb_spec k j) as [->|Hne]; cbn.
  - rewrite Hv, Hd. split; [by constructor|done].
  - destruct IH as [IH1 IH2]; [done|]. rewrite Hx. split; [|done]. constructor; [|done].
    intros (y&->&Hy)%list_elem_of_fmap. apply (dict_lookup_elem y.1 y.2) in IH1 as E.
    rewrite <-surjective_pairing in E. apply E in Hy. rewrite lookup_dict_put in Hy.
    destruct (String.eqb_spec y.1 k); [done|]. apply dict_lookup_elem in Hy; [|done].
    apply Hj. by apply (list_elem_of_fmap_2 fst) in Hy.
Qed.

Lemma manifest_item_Ok c item :
  proper_claim c → _manifest_item c = Ok item → json_unique item = true ∧
    ∀ d, json_read item = VDict d → item_of d (c_message_id c) (c_lock_token c).
Proof.
  intros [[Hb Hs] [Tb Ts] (p&Ep&Hu)] H. unfold _manifest_item in H. rewrite Ep in H, Hu. injection H as <-.
  set (e := dict_put "attempt_id"%string _ _).
  assert (Hue : json_unique (VDict e) = true) by by apply dict_put_unique, dict_put_unique.
  split; [done|]. intros d Hd.
  assert (Hn : NoDup e.*1) by (cbn [json_unique] in Hue; apply andb_true_iff in Hue as [?%bool_decide_eq_true _]; done).
  destruct (json_read_dict e Hn) as (d'&Ed&_&Hl). rewrite Ed in Hd. injection Hd as ->.
  unfold item_of, _required_text, dict_get. rewrite !Hl. unfold e. rewrite !lookup_dict_put.
  cbn. by rewrite Hb, Hs, Tb, Ts.
Qed.

Lemma manifest_unique a path items :
  Forall (λ v, json_unique v = true) items → json_unique (manifest_value a path items) = true.
Proof.
  intros H. unfold manifest_value. cbn [json_unique forallb snd].
  assert (forallb json_unique items = true) as ->; [|by vm_compute].
  apply forallb_forall. intros x Hx%list_elem_of_In. by eapply (proj1 (Forall_forall _ _) H).
Qed.

(** The object that a put returned, and what the store holds at its path. *)
Lemma put_json_stored root v fs o fs' :
  put_json root v fs = (Ok o, fs') → ∃ text c, json_dumps true v = Ok text ∧
    so_sha256 o = hexdigest (sha256 (codes_of_str text)) ∧ fs' !! so_path o = Some c ∧
    hexdigest (sha256 c) = so_sha256 o ∧ (c = codes_of_str text ∨ fs !! so_path o = Some c).
Proof.
  unfold put_json. destruct (json_dumps true v) as [text|e]; [|done]. intros H.
  apply put_bytes_cases in H as [(e&[=]&_)|(o'&[= <-]&Hd&Hp&_&Hs)]. exists text.
  unfold stored in Hs. rewrite <-Hp in Hs. destruct (fs !! so_path o) as [c|] eqn:E.
  - destruct Hs as (->&Hc&_). exists c. rewrite Hd, E. auto 10.
  - subst fs'. exists (codes_of_str text). rewrite lookup_insert_eq, Hd. auto 10.
Qed.

(** No other object of the store has the digest of the text. *)
Definition collision_free (fs : Files) (text : string) : Prop := ∀ p c,
  fs !! p = Some c → hexdigest (sha256 c) = hexdigest (sha256 (codes_of_str text)) → c = codes_of_str text.

(** The manifest that the application reads is the one that the run wrote. *)
Lemma manifest_round_trip root a path items fs o fs' m digest :
  Forall (λ v, json_unique v = true) items →
  (∀ text, json_dumps true (manifest_value a path items) = Ok text → collision_free fs text) →
  put_json root (manifest_value a path items) fs = (Ok o, fs') →
  read_claimed_manifest (so_path o) (Some (so_sha256 o)) fs' = Ok (m, digest) →
  digest = so_sha256 o ∧ dict_get "batch_id" m = VStr (ra_batch_id a) ∧
  dict_get "batch_attempt_id" m = VStr (ra_batch_attempt_id a) ∧
  dict_get "items" m = VList (json_read <$> items).
Proof.
  intros Hi Hfree Hp Hr. apply put_json_stored in Hp as (text&c&Ht&Ho&Hc&Hd&Hold).
  assert (c = codes_of_str text) as -> by by (destruct Hold as [|Hold]; [|eapply Hfree; [..|by rewrite <-Ho]]).
  unfold read_claimed_manifest in Hr. rewrite Hc in Hr. cbn [mbind result_bind] in Hr. cbv zeta in Hr.
  rewrite Hd, bool_decide_eq_true_2 in Hr by done. cbn [require mbind result_bind] in Hr.
  rewrite (json_loads_bytes_dumps _ _ _ (manifest_unique _ _ _ Hi) Ht) in Hr. cbn [mbind result_bind] in Hr.
  unfold manifest_value in Hr. match type of Hr with context [json_read (VDict ?e)] =>
    destruct (json_read_dict e) as (d&Ed&_&Hl) end; [by apply (bool_decide_eq_true_1 _); vm_compute|].
  rewrite Ed in Hr. apply result_bind_Ok in Hr as (u&_&[= <- <-]). unfold dict_get. by rewrite !Hl.
Qed.

(** ** What the application staged *)

Section submit.
Context {C K R : Type} `{!EqDecision K}.
Context (_config_from_work : Dict → Outcome C) (_runtime_cache_key : C → K).
Context (load_runtime : C → Outcome R) (run_with_runtime : C → R → Outcome Executor.VideoRun).
Context (sleep : Float → option Failure) (utc_now : pyval → pyval → nat → string).
Context {Tables : Type} `{!Spark Tables}.
Context (create_local_spark_session : string → result unit) (resolve : string → Path).
Context (mode : string) (minimum_workers : Z).

Abbreviation runner root := (submit_runner _config_from_work _runtime_cache_key load_runtime run_with_runtime
  sleep utc_now create_local_spark_session resolve root mode minimum_workers).

(** A returned staging was read back from its table and validated. *)
Lemma submit_runner_Ok root mp sha corr fs t staging t' :
  runner root mp sha corr fs t = (Ok staging, t') → ∃ m digest items rows,
    read_claimed_manifest mp (Some sha) fs = Ok (m, digest) ∧ manifest_items m = Ok items ∧
    delta_load (bs_path staging) staged_columns t' = Ok rows ∧
    validate_rows rows (bs_path staging) items (bs_batch_id staging) (bs_batch_attempt_id staging)
      (bs_manifest_sha256 staging) minimum_workers = Ok staging.
Proof.
  unfold submit_runner, process_claimed_batch, validate_delta_staging. intros H. tx_inv H.
  match type of H with (let '(_, _) := ?x in _) _ = _ => destruct x as [m digest] end. tx_inv H.
  match goal with Hv : validate_rows _ _ _ _ _ _ _ = Ok staging |- _ =>
    pose proof (validate_rows_Ok _ _ _ _ _ _ _ _ Hv) as (E1&E2&E3&E4&_&_) end.
  rewrite E1, E2, E3, E4. by do 4 eexists; split_and!.
Qed.

(** Every claim of the manifest has one terminal row in the staged table. *)
Lemma staged_claim root corr a path claims items fs manifest fs' t staging t' c :
  (∀ text, json_dumps true (manifest_value a path items) = Ok text → collision_free fs text) →
  Forall proper_claim claims → map_result _manifest_item claims = Ok items → c ∈ claims →
  put_json (ra_content_root a) (manifest_value a path items) fs = (Ok manifest, fs') →
  runner root (so_path manifest) (so_sha256 manifest) corr fs' t = (Ok staging, t') →
  ∃ rows row, delta_load (bs_path staging) staged_columns t' = Ok rows ∧
    List.filter (terminal_of (c_message_id c)) rows = [row] ∧
    staged_terminal (c_message_id c) (c_lock_token c) (bs_batch_id staging) (bs_batch_attempt_id staging)
      (bs_manifest_sha256 staging) (path_text (bs_path staging))
      (bool_decide (c_message_id c ∈ bs_failed_work_ids staging)) row.
Proof.
  intros Hfree Hproper Hitems Hc Hput Hrun.
  apply submit_runner_Ok in Hrun as (m&digest&ds&rows&Hread&Hds&Hload&Hvalid).
  apply map_result_Ok in Hitems as H2.
  assert (Hu : Forall (λ v, json_unique v = true) items).
  { apply Forall_forall. intros v [i Hi]%list_elem_of_lookup.
    destruct (Forall2_lookup_r _ _ _ _ _ H2 Hi) as (c'&Hc'&Ev).
    apply (manifest_item_Ok c'); [|done]. eapply (proj1 (Forall_forall _ _) Hproper). by eapply list_elem_of_lookup_2. }
  destruct (manifest_round_trip _ _ _ _ _ _ _ _ _ Hu Hfree Hput Hread) as (_&_&_&Ei).
  unfold manifest_items, record_item in Hds. unfold dict_get in Ei.
  destruct (dict_lookup "items" m) as [v|]; [|done]. simpl in Ei. subst v. cbn [mbind result_bind] in Hds.
  apply map_result_Ok in Hds. apply list_elem_of_lookup in Hc as [i Hi].
  destruct (Forall2_lookup_l _ _ _ _ _ H2 Hi) as (item&Hitem&Ev).
  destruct (Forall2_lookup_l _ _ _ i (json_read item) Hds) as (d&Hd&Ed);
    [by rewrite list_lookup_fmap, Hitem|].
  destruct (json_read item) as [| | | | | |d0] eqn:Er; try done. injection Ed as ->.
  apply list_elem_of_lookup_2 in Hi. destruct (manifest_item_Ok c item) as [_ Hof];
    [by eapply (proj1 (Forall_forall _ _) Hproper)|done|]. apply Hof in Er.
  destruct (validate_rows_Ok _ _ _ _ _ _ _ _ Hvalid) as (_&_&_&_&_&Hrows).
  destruct (Hrows d _ _ (list_elem_of_lookup_2 _ _ _ Hd) Er) as (row&Hf&Hs). eauto.
Qed.
End submit.

(** ** The claim *)

(** An answered call ran its operation on the table that the others left. *)
Lemma call_answered {Tables A} sr (op : Float → Q A) (W W1 : World Tables) x :
  call sr op W = (Ok x, W1) → ∃ now, op now (w_queue (elapse sr W)) = (Ok x, w_queue W1).
Proof.
  unfold call, actor_call. generalize (elapse sr W). intros W0 H.
  exists (sr_clock sr (w_time W0)). destruct (op _ (w_queue W0)) as [r q].
  destruct (sr_fate _ _); try done. by injection H as -> <-.
Qed.

Lemma claim_batch_open {Tables} sr a (W W1 : World Tables) claims :
  others_spare sr a → queue_ok (w_queue W) → claim_batch sr a W = (Ok claims, W1) →
  same_files W W1 ∧ NoDup (c_lock_token <$> claims) ∧
  ∀ c, c ∈ claims → open c W1 ∧ ∃ i, c_lock_token c = ra_new_id a i.
Proof.
  intros Ho I H. assert (same_files W W1) as F.
  { unfold claim_batch in H. match type of H with call _ ?op _ = _ => pose proof (call_files sr op W) as F end.
    by rewrite H in F. }
  split; [done|]. unfold claim_batch in H. apply call_answered in H as [now H].
  destruct (decide (claims = [])) as [->|Hne]; [split; [constructor|]; by intros c ?%elem_of_nil|].
  assert (queue_ok (w_queue (elapse sr W))) as I1 by (destruct claims as [|c0 cs]; [done|by apply (elapse_ok sr a Ho c0)]).
  pose proof (claim_tokens _ _ _ _ _ _ _ _ _ H) as Htok.
  apply queue_claim_Ok in H as [(->&_&_)|(_&C)]; [done| |done].
  set (rows := take _ _) in C. assert (Hrows : ∀ x, x ∈ rows → recover_all now (w_queue (elapse sr W)) !! x.1 = Some x.2).
  { intros x Hx. apply list_elem_of_lookup in Hx as [i Hi]. apply lookup_take_Some in Hi as [Hi _].
    by apply list_elem_of_lookup_2, elem_of_ready_rows in Hi as (?&_). }
  split.
  - eapply claiming_tokens; [exact C| |exact Hrows].
    unfold rows. rewrite fmap_take. eapply sublist_NoDup; [apply NoDup_ready_rows|apply sublist_take].
  - intros c Hc. split; [|by apply Htok]. destruct (claiming_as _ _ _ _ _ c C Hrows Hc) as (m&Hm&Hst&Ht&_&_&Hd&_).
    split; [apply C|]. exists m. split; [done|]. split; [left; by split_and!|].
    intros j x Hx Htx. eapply (qo_token _ (proj1 (cg_sound _ _ _ _ _ _ C))); [exact Hx|exact Hm|by rewrite Htx|congruence].
Qed.

(** ** Completed messages *)

(** C10. A message is completed only for what Spark staged.  Whatever the actor answers
    to each call, whatever other processes do to the queue while time passes, and
    wherever the run fails: if the delivery that a run of [_submit] claimed ends up
    completed, then the staging table of this batch attempt holds exactly one terminal
    record of the message, which is SUCCEEDED and names the lock token of the claim,
    the batch, the attempt and the digest of the manifest that lists the claims.  The
    other processes neither issue nor complete under the tokens of the run, the
    tokens and message identifiers are texts without white space around them, and the
    store holds no other object with the digest of the manifest. *)
Theorem only_staged_messages_complete {C K R Tables} `{!EqDecision K} `{!Spark Tables}
    (_config_from_work : Dict → Outcome C) (_runtime_cache_key : C → K)
    (load_runtime : C → Outcome R) (run_with_runtime : C → R → Outcome VideoRun)
    (sleep : Float → option Failure) (utc_now : pyval → pyval → nat → string)
    (create_local_spark_session : string → result unit) (resolve : string → Path)
    (mode : string) (minimum_workers : Z) sr a (W W1 W' : World Tables) claims r c m :
  others_spare sr a → queue_reachable (w_queue W) →
  (∀ path items text, json_dumps true (manifest_value a path items) = Ok text → collision_free (w_store W) text) →
  claim_batch sr a W = (Ok claims, W1) → Forall proper_claim claims →
  run_claimed_batch sr (submit_runner _config_from_work _runtime_cache_key load_runtime run_with_runtime
    sleep utc_now create_local_spark_session resolve (ra_staging_root a) mode minimum_workers) a W = (r, W') →
  c ∈ claims → w_queue W' !! c_message_id c = Some m →
  m_state m = Q_completed → m_delivery_count m = c_delivery_count c →
  ∃ path items text rows row,
    attempt_staging_path (ra_staging_root a) (ra_batch_id a) (ra_batch_attempt_id a) = Ok path ∧
    map_result _manifest_item claims = Ok items ∧
    json_dumps true (manifest_value a path items) = Ok text ∧
    delta_load path staged_columns (w_tables W') = Ok rows ∧
    List.filter (terminal_of (c_message_id c)) rows = [row] ∧
    staged_terminal (c_message_id c) (c_lock_token c) (ra_batch_id a) (ra_batch_attempt_id a)
      (hexdigest (sha256 (codes_of_str text))) (path_text path) false row.
Proof.
  intros Ho R0%reachable_queue_ok Hfree Hclaim Hproper Hrun Hc Hm Hst Hd.
  destruct (claim_batch_open _ _ _ _ _ Ho R0 Hclaim) as ([Ef _]&Hn&Hopen). destruct (Hopen c Hc) as [O (i&Hi)].
  assert (Hclean : Forall (λ c, clean_text (c_lock_token c)) claims) by (eapply Forall_impl; [exact Hproper|]; apply pc_token).
  unfold run_claimed_batch, mbind, tx_bind in Hrun. rewrite Hclaim in Hrun.
  match type of Hrun with run_claims _ ?rn _ _ _ = _ =>
    pose proof (run_claims_accounted sr rn a Ho c i claims W1 Hi Hc Hn Hclean O) as Hacc end.
  rewrite Hrun in Hacc. cbn [snd] in Hacc.
  assert (Hclosed : ¬ open c W').
  { intros [_ (m'&Hm'&U&_)]. rewrite Hm in Hm'. injection Hm' as <-.
    apply unfinished_completed in U; [lia|done]. }
  destruct Hacc as [?|(path&items&manifest&fs&Hpath&Hitems&Hput&_&Efs&[?|J])]; [done|done|].
  destruct J as (staging&t&Hrunner&E1&E2&E3&E4&Hfailed). rewrite Ef in Hput.
  pose proof Hrunner as Hstaged. eapply staged_claim in Hstaged as (rows&row&Hload&Hfilter&Hrow);
    [|by apply Hfree|exact Hproper|exact Hitems|exact Hc|exact Hput].
  destruct (put_json_stored _ _ _ _ _ Hput) as (text&_&Htext&Hsha&_).
  rewrite E1, E2, E3, E4, Hsha in Hrow. rewrite E4 in Hload.
  rewrite bool_decide_eq_false_2 in Hrow by done. by exists path, items, text, rows, row.
Qed.

(** ** Settled batches *)

Definition settled_by (delay now : Float) (s s' : Messages) (o : pyval * string * option string) : Prop :=
  ∃ T k m st r av, Queue._required_text o.1.1 = Ok T ∧ s !! k = Some m ∧ m_lock_token m = Some T ∧
    lock_live now m = true ∧
    _final_state o.1.2 o.2 (m_delivery_count m) (m_max_delivery_count m) now delay = Ok (st, r, av) ∧
    s' !! k = Some (finalized st r av now m).

Lemma finalize_one_row delay now o s s' :
  finalize_one delay now o s = (Ok tt, s') →
  settled_by delay now s s' o ∧ ∃ k m x, s !! k = Some m ∧ m_lock_token m ≠ None ∧
    m_lock_token x = None ∧ s' = <[k := x]> s.
Proof.
  destruct o as [[v action] reason]. unfold finalize_one.
  intros (T&s1&[Hv ->]%tx_lift_Ok&(ms&s2&[-> ->]%tx_get_Ok&H)%tx_bind_Ok)%tx_bind_Ok.
  destruct (find_lock T now s) as [[k m]|] eqn:Hf; [|by tx_inv H].
  apply find_lock_Some in Hf as (Hm&HT&Hl).
  apply tx_bind_Ok in H as ([[st r] av]&s1&[Hfs ->]%tx_lift_Ok&(_&_&->)%write_Ok). split.
  - exists T, k, m, st, r, av. split_and!; try done. by rewrite lookup_insert_eq.
  - exists k, m, (finalized st r av now m). split_and!; [done|by rewrite HT|done|done].
Qed.

Lemma finalize_rows delay now os s s' :
  tx_for (finalize_one delay now) os s = (Ok tt, s') →
  (∀ k m, s !! k = Some m → m_lock_token m = None → s' !! k = Some m) ∧
  Forall (settled_by delay now s s') os.
Proof.
  revert s. induction os as [|o os IH]; intros s H.
  - apply tx_ret_Ok in H as [_ ->]. by split; [|constructor].
  - simpl in H. apply tx_bind_Ok in H as ([]&s1&H1&H2). destruct (IH _ H2) as [Hk Hos].
    apply finalize_one_row in H1 as [Ho (k&m&x&Hm&Ht&Hx&Es)].
    assert (Hfree : ∀ j y, s !! j = Some y → m_lock_token y = None → s1 !! j = Some y).
    { intros j y Hy Hn. subst s1. rewrite lookup_insert_ne; [done|]. intros ->. congruence. }
    split; [eauto|]. constructor.
    + destruct Ho as (T&k'&m'&st&r&av&?&?&?&?&?&Hs1). exists T, k', m', st, r, av. split_and!; try done. by apply Hk.
    + eapply Forall_impl; [exact Hos|]. intros o' (T&k'&m'&st&r&av&?&Hm'&HT&?&?&?).
      exists T, k', m', st, r, av. split_and!; try done. subst s1.
      apply lookup_insert_Some in Hm' as [[<- <-]|[_ ?]]; [congruence|done].
Qed.

(** A run that returns has finalized its claims, and nothing happened since. *)
Lemma run_claims_finalized {Tables} sr runner a (W W' : World Tables) claims cr :
  run_claims sr runner a claims W = (Ok cr, W') → claims ≠ [] →
  cr_claimed_count cr = Z.of_nat (length claims) ∧ ∃ staging now s, cr_staging cr = Some staging ∧
    finalize (outcome_of (bs_failed_work_ids staging) <$> claims) fzero now s = (Ok tt, w_queue W') ∧
    (others_spare sr a → ∀ c i, c_lock_token c = ra_new_id a i → open c W →
       tracked (c_lock_token c) (c_message_id c) (c_delivery_count c) s).
Proof.
  intros H Hne. unfold run_claims in H. destruct claims as [|c0 cs] eqn:Ec; [done|]. rewrite <-Ec in *. clear Hne.
  apply tx_bind_Ok in H as (path&W1&[Hpath ->]%tx_lift_Ok&H).
  apply tx_bind_Ok in H as (items&W1&[Hitems ->]%tx_lift_Ok&H).
  apply tx_bind_Ok in H as (manifest&W2&Hput&H). unfold on_store in Hput.
  destruct (put_json _ _ _) as [rp fs]. injection Hput as -> <-.
  apply tx_bind_Ok in H as ([]&W3&[_ ->]%tx_require_Ok&H). apply tx_bind_Ok in H as (staging&W4&H&[-> ->]%tx_ret_Ok).
  split; [done|]. exists staging. unfold or_handle in H.
  match type of H with context [with_heartbeat ?x1 ?x2 ?x3 ?x4] => destruct (with_heartbeat x1 x2 x3 x4) as [[st|e] W5] eqn:Hb end;
    [|by destruct (_abandon_live_claims _ _ _) as [[|] ?]].
  injection H as -> ->. unfold with_heartbeat in Hb.
  match type of Hb with context [execute_claims _ _ _ _ _ _ ?w] => set (W0 := w) in Hb end.
  destruct (execute_claims _ _ _ _ _ _ W0) as [rx W6] eqn:Hx. injection Hb as Hrx <-.
  destruct (sr_stuck _ _); [done|]. subst rx. unfold execute_claims in Hx.
  apply tx_bind_Ok in Hx as (st&W7&Hspark&Hx). unfold run_spark in Hspark.
  match type of Hspark with context [runner ?x1 ?x2 ?x3 ?x4 ?x5] => destruct (runner x1 x2 x3 x4 x5) as [rr t] end.
  injection Hspark as -> <-.
  apply tx_bind_Ok in Hx as ([]&W8&Hlive&Hx). unfold require_live in Hlive. injection Hlive as _ <-.
  apply tx_bind_Ok in Hx as ([]&W9&[_ ->]%tx_lift_Ok&Hx).
  apply tx_bind_Ok in Hx as ([]&W10&Hfin&[-> ->]%tx_ret_Ok). apply call_answered in Hfin as [now Hfin].
  exists now. eexists. split; [done|]. split; [exact Hfin|]. intros Ho c i Hi O.
  pose proof (elapse_open sr a Ho c i Hi W0 O) as O1.
  refine (proj2 (elapse_open sr a Ho c i Hi _ _)). exact O1.
Qed.

(** What a run does to the row of a claim. *)
Definition settle (failed : bool) (now : Float) (m : Message) : Message :=
  let reason := Some "Spark staging contains a failed terminal record"%string in
  if failed then
    if (m_max_delivery_count m <=? m_delivery_count m)%Z then finalized Q_dead reason now now m
    else finalized Q_ready reason (fadd now fzero) now m
  else finalized Q_completed None now now m.

Lemma outcome_settles failed c m now st r av :
  _final_state (outcome_of failed c).1.2 (outcome_of failed c).2 (m_delivery_count m) (m_max_delivery_count m)
    now fzero = Ok (st, r, av) →
  finalized st r av now m = settle (bool_decide (c_message_id c ∈ failed)) now m.
Proof.
  unfold outcome_of, settle. case_bool_decide; cbn; [|by intros [= <- <- <-]].
  by destruct (_ <=? _)%Z; intros [= <- <- <-].
Qed.

Lemma outcome_token failed c : (outcome_of failed c).1.1 = VStr (c_lock_token c).
Proof. unfold outcome_of. by case_bool_decide. Qed.

(** C11. A run that returns has settled every message that it claimed, in one step and
    against the locks it still held: the failed works of the staging are given back,
    or dead when their deliveries are used up, and all others are completed.  With
    no claim it touches nothing. *)
Theorem run_settles_its_batch {Tables} sr runner a (W W1 W' : World Tables) claims cr :
  others_spare sr a → queue_reachable (w_queue W) → claim_batch sr a W = (Ok claims, W1) →
  Forall (λ c, clean_text (c_lock_token c)) claims →
  run_claimed_batch sr runner a W = (Ok cr, W') →
  cr_claimed_count cr = Z.of_nat (length claims) ∧
  ((claims = [] ∧ cr_manifest cr = None ∧ cr_staging cr = None ∧ W' = W1) ∨
   ∃ staging now, cr_staging cr = Some staging ∧ ∀ c, c ∈ claims → ∃ m,
     m_lock_token m = Some (c_lock_token c) ∧ m_delivery_count m = c_delivery_count c ∧
     lock_live now m = true ∧ w_queue W' !! c_message_id c =
       Some (settle (bool_decide (c_message_id c ∈ bs_failed_work_ids staging)) now m)).
Proof.
  intros Ho R%reachable_queue_ok Hclaim Hclean Hrun.
  destruct (claim_batch_open _ _ _ _ _ Ho R Hclaim) as (_&_&Hopen).
  unfold run_claimed_batch, mbind, tx_bind in Hrun. rewrite Hclaim in Hrun.
  destruct (decide (claims = [])) as [->|Hne].
  { apply tx_ret_Ok in Hrun as [-> ->]. split; [done|]. by left. }
  destruct (run_claims_finalized _ _ _ _ _ _ _ Hrun Hne) as (Hcount&staging&now&s&Hst&Hfin&Htracked).
  split; [done|]. right. exists staging, now. split; [done|]. intros c Hc. destruct (Hopen c Hc) as [O (i&Hi)].
  destruct (Htracked Ho c i Hi O) as (m&Hm&U&Halone). unfold finalize in Hfin.
  destruct (outcome_of _ <$> claims) as [|o os] eqn:Eos; [by destruct claims|].
  apply tx_bind_Ok in Hfin as (d&s0&[[= <-] ->]%tx_lift_Ok&Hfin%atomically_Ok).
  apply finalize_rows in Hfin as [_ Hrows]. rewrite <-Eos in Hrows.
  rewrite Forall_fmap, Forall_forall in Hrows. destruct (Hrows c Hc) as (T&k&x&st&r&av&HT&Hx&Htx&Hl&Hfs&Hx').
  rewrite outcome_token, clean_required in HT by by eapply (proj1 (Forall_forall _ _) Hclean). injection HT as <-.
  apply Halone in Hx as Hk; [|done]. subst k. assert (x = m) as -> by congruence. exists m.
  rewrite (outcome_settles _ _ _ _ _ _ _ Hfs) in Hx'. split_and!; try done.
  destruct U as [(_&_&?)|[(_&Us)|[_ Ut]]]; [done| |done].
  apply lock_live_locked in Hl. destruct Us; congruence.
Qed.

(** ** A run

    Two messages are claimed.  The video of the second cannot be configured, so its
    message is given back and that of the first is completed. *)
Abbreviation ToyTables := (gmap (list string) (list Dict)).

Definition toy_host (i : nat) : Host := {|
  h_gethostname := tokens "h" i; h_executor_id := None; h_release_digest := None; h_python_version := "3" |}.

(** One partition per item. *)
Fixpoint toy_rows (i : nat) (items : list Dict) (f : Host → list Dict → result (list Dict)) : result (list Dict) :=
  match items with
  | [] => Ok []
  | item :: items' => out ← f (toy_host i) [item]; rest ← toy_rows (S i) items' f; Ok (out ++ rest)
  end.

#[local] Instance toy_spark : Spark ToyTables := {|
  spark_rows items _ f := toy_rows 0 items f;
  delta_save p rows := λ t, match t !! p with Some _ => (Err ValueError, t) | None => (Ok tt, <[p := rows]> t) end;
  delta_load p columns t := match t !! p with Some rows => Ok (select_row columns <$> rows) | None => Err ValueError end |}.

Definition toy_config (row : Dict) : Outcome unit :=
  if py_eqb (dict_get "source_video" row) (VStr "b")
  then Raised {| fl_error := {| rs_text := "x"; rs_type := "E" |}; fl_causes := [] |} else Returned tt.

Definition toy_runner : Path → string → string → string → Files → tx ToyTables BatchStaging := λ root,
  submit_runner toy_config (λ _, tt) (λ _, Returned tt)
    (λ _ _, Returned {| vr_result := probe_result; vr_processing_seconds := fzero |})
    (λ _, None) (λ _ _ _, "t"%string) (λ _, Ok tt) (λ _, ["s"; "b0"; "a0"]%string) root "probe" 2.

Definition toy_submit : RunArgs := {|
  ra_owner := "o"; ra_max_items := 5; ra_minimum_items := 1; ra_lock_seconds := at_ 30;
  ra_heartbeat_seconds := at_ 5; ra_staging_root := ["s"%string]; ra_content_root := "c";
  ra_batch_id := "b0"; ra_correlation_id := "r0"; ra_batch_attempt_id := "a0"; ra_new_id := tokens "t" |}.

Definition quiet : Surroundings := {|
  sr_clock := λ _, at_ 10; sr_others := λ _ s, s; sr_beats := λ _, 1; sr_fate := λ _, Answered;
  sr_stuck := λ _, false |}.

Definition toy_world : World ToyTables := {|
  w_queue := run_all [QEnqueue (VStr "k1") [("source_video", VStr "a")] 1 None (at_ 1) "m1";
                      QEnqueue (VStr "k2") [("source_video", VStr "b")] 2 None (at_ 2) "m2"]%string ∅;
  w_store := ∅; w_tables := ∅; w_time := 0; w_heartbeat := None |}.

Definition toy_claimed : list ClaimedMessage * World ToyTables := Eval vm_compute in
  let x := claim_batch quiet toy_submit toy_world in (or_else [] x.1, x.2).

Lemma toy_claims : claim_batch quiet toy_submit toy_world = (Ok toy_claimed.1, toy_claimed.2).
Proof. vm_cast_no_check (eq_refl (Ok toy_claimed.1, toy_claimed.2)). Qed.

Definition toy_ran : result ControlRun * World ToyTables :=
  Eval vm_compute in run_claims quiet (toy_runner ["s"%string]) toy_submit toy_claimed.1 toy_claimed.2.

Lemma toy_run_eq : run_claimed_batch quiet (toy_runner ["s"%string]) toy_submit toy_world = toy_ran.
Proof.
  unfold run_claimed_batch, mbind, tx_bind. rewrite toy_claims. vm_cast_no_check (eq_refl toy_ran).
Qed.

Example toy_settled : (λ x : string * Message, (x.1, m_state x.2, m_dead_letter_reason x.2)) <$> map_to_list (w_queue toy_ran.2) =
  [("m1", Q_completed, None); ("m2", Q_ready, Some "Spark staging contains a failed terminal record")]%string.
Proof. vm_compute. reflexivity. Qed.

Lemma quiet_spares a : others_spare quiet a.
Proof. intros t s. exists []. split; [done|]. intros i. constructor. Qed.

Lemma toy_reachable : queue_reachable (w_queue toy_world).
Proof. apply run_all_steps. Qed.

Lemma toy_proper : Forall proper_claim toy_claimed.1.
Proof.
  repeat constructor; try (vm_compute; reflexivity);
    (eexists; split; [reflexivity|vm_compute; reflexivity]).
Qed.

Definition toy_m1 : Message := Eval vm_compute in
  default (new_message "" "" VNone 1 fzero fzero) (w_queue toy_ran.2 !! "m1"%string).
Definition toy_c1 : ClaimedMessage := Eval vm_compute in
  {| c_message_id := "m1"; c_idempotency_key := "k1"; c_payload := VDict [("source_video", VStr "a")];
     c_lock_token := "t0"; c_locked_until := at_ 40; c_delivery_count := 1; c_max_delivery_count := 1 |}%string.

Lemma toy_c1_claimed : toy_c1 ∈ toy_claimed.1.
Proof. left. Qed.

Lemma only_staged_messages_complete_witness : ∃ rows row,
  delta_load ["s"; "b0"; "a0"]%string staged_columns (w_tables toy_ran.2) = Ok rows ∧
  List.filter (terminal_of "m1") rows = [row] ∧ _staged_text row "attempt_id" = Ok "t0"%string.
Proof.
  destruct (only_staged_messages_complete toy_config (λ _, tt) (λ _, Returned tt)
    (λ _ _, Returned {| vr_result := probe_result; vr_processing_seconds := fzero |})
    (λ _, None) (λ _ _ _, "t"%string) (λ _, Ok tt) (λ _, ["s"; "b0"; "a0"]%string) "probe" 2
    quiet toy_submit toy_world toy_claimed.2 toy_ran.2 toy_claimed.1 toy_ran.1 toy_c1 toy_m1
    (quiet_spares _) toy_reachable) as (path&items&text&rows&row&Hp&_&_&Hl&Hf&Hs).
  - intros path items text _ p c H. discriminate H.
  - exact toy_claims.
  - exact toy_proper.
  - rewrite <-surjective_pairing. exact toy_run_eq.
  - exact toy_c1_claimed.
  - vm_compute. reflexivity.
  - vm_compute. reflexivity.
  - vm_compute. reflexivity.
  - assert (path = ["s"; "b0"; "a0"]%string) as -> by (vm_compute in Hp; congruence).
    exists rows, row. split; [exact Hl|]. split; [exact Hf|]. exact (st_attempt _ _ _ _ _ _ _ _ Hs).
Defined.

Lemma run_settles_its_batch_witness : ∃ now m, m_lock_token m = Some "t0"%string ∧
  w_queue toy_ran.2 !! "m1"%string = Some (settle false now m).
Proof.
  destruct toy_ran as [r W'] eqn:E. destruct r as [cr|e]; [|discriminate E].
  destruct (run_settles_its_batch quiet (toy_runner ["s"%string]) toy_submit toy_world toy_claimed.2 W' toy_claimed.1 cr
    (quiet_spares _) toy_reachable toy_claims) as [_ [(Hn&_)|(staging&now&Hst&Hc)]].
  - repeat constructor; vm_compute; reflexivity.
  - rewrite toy_run_eq. exact E.
  - discriminate Hn.
  - destruct (Hc toy_c1 toy_c1_claimed) as (m&Hm&_&_&Hq). exists now, m. split; [exact Hm|].
    injection E as <- <-. simpl in Hst. injection Hst as <-. exact Hq.
Defined.
