(* ===== verification/LocalActor.v ===== *)
(** * local_queue.py: the thread that owns the queue

    [SerializedQueueActor] runs every operation on the SQLite queue on one thread.
    Callers put a future and an operation into a [queue.Queue] and wait with a
    timeout; closers fail what is pending and put an end marker.  Each move is one
    access to the shared state, or one section under [_state_lock] that no other
    thread can observe halfway, so any schedule of the threads is a sequence of
    moves. *)
From S2P Require Export Prelude.

Module Actor.

(** [_state]. *)
Inductive Phase := P_starting | P_running | P_closing | P_stopped.
#[export] Instance Phase_eq_dec : EqDecision Phase.
Proof. solve_decision. Defined.

(** What an operation does: it returns, it raises an Exception, or it raises a
    BaseException that is none. *)
Inductive Reply (V : Type) := Replies (r : result V) | Dies.
Arguments Replies {V} r.
Arguments Dies {V}.

Section actor.
Context {St V : Type} (operation : nat → St → Reply V * St).

(** concurrent.futures.Future: its state, with the result of a finished one. *)
Inductive Future := PENDING | RUNNING | CANCELLED | CANCELLED_AND_NOTIFIED | FINISHED (r : result V).

Definition done (f : Future) : bool :=
  match f with PENDING | RUNNING => false | _ => true end.

(** [set_result] and [set_exception]; [None] is InvalidStateError. *)
Definition finish (r : result V) (f : Future) : option Future :=
  match f with PENDING | RUNNING => Some (FINISHED r) | _ => None end.

Definition cancel (f : Future) : Future :=
  match f with PENDING => CANCELLED | _ => f end.

(** [_run], by its next access. *)
Inductive Owner :=
  | Opening                                  (* SQLiteQueue(...) *)
  | Opened (q : St)                          (* starting becomes running *)
  | Announcing (q : St)                      (* _startup.set_result *)
  | Getting (q : St)                         (* _requests.get() *)
  | Received (q : St) (i : nat)              (* reads the state *)
  | Checked (q : St) (i : nat) (running : bool)
  | Operating (q : St) (i : nat)
  | Answering (q : St) (i : nat) (r : result V) (dies : bool)
  | Stopping (q : option St) (e : exn)       (* _stop_with_error *)
  | Draining (q : option St)                 (* _fail_pending *)
  | Setting (q : option St) (i : nat)        (* its set_exception *)
  | Ended (q : option St)
  | Crashed (q : option St).                 (* an exception left _run *)

(** [call], after the request is put. *)
Inductive Caller := Waits | Expired | Returned (r : result V).

(** [close]: [_request_stop] and the join. *)
Inductive Closer := Drains | Sets (i : nat) | Joins | Closed | Raises (e : exn).

Inductive Holder := Nobody | HOwner | HCloser (k : nat).
#[export] Instance Holder_eq_dec : EqDecision Holder.
Proof. solve_decision. Defined.

Record State := {
  a_phase : Phase;
  a_fatal_error : option exn;
  a_lock : Holder;                           (* _state_lock *)
  a_requests : list (option nat);
  a_futures : gmap nat Future;
  a_owner : Owner;
  a_callers : gmap nat Caller;
  a_closers : gmap nat Closer;
}.

(** [SerializedQueueActor.__init__], when its thread starts. *)
Definition start : State := {|
  a_phase := P_starting; a_fatal_error := None; a_lock := Nobody; a_requests := [];
  a_futures := ∅; a_owner := Opening; a_callers := ∅; a_closers := ∅ |}.

Definition _raise_not_running (s : State) : exn :=
  match a_fatal_error s with
  | Some ActorClosedError | None => ActorClosedError
  | Some _ => ActorDiedError
  end.

(** One round of [_fail_pending]: the request that is not done, if the loop stops. *)
Definition pop_pending (s : State) : option (option nat * State) :=
  match a_requests s with
  | [] => None
  | x :: rest =>
      let s' := {| s with a_requests := rest |} in
      Some (match x with
            | Some i => if from_option done true (a_futures s !! i) then (None, s') else (Some i, s')
            | None => (None, s')
            end)
  end.

(** The future [i] gets its result: the new futures, or InvalidStateError. *)
Definition settle (i : nat) (r : result V) (s : State) : option State :=
  f ← a_futures s !! i; f' ← finish r f; Some {| s with a_futures := <[i := f']> (a_futures s) |}.

(** ** Moves *)

Definition free (s : State) : bool := bool_decide (a_lock s = Nobody).

(** [except BaseException] around the loop. *)
Definition failing (q : St) (s : State) : State :=
  {| s with a_owner := Stopping (Some q) (default ActorDiedError (a_fatal_error s)) |}.

Definition open_queue (q : result St) (s : State) : option State :=
  match a_owner s, q with
  | Opening, Ok q => Some {| s with a_owner := Opened q |}
  | Opening, Err e => Some {| s with a_owner := Stopping None e |}
  | _, _ => None
  end.

Definition owner_move (s : State) : option State :=
  match a_owner s with
  | Opening | Ended _ | Crashed _ => None
  | Opened q =>
      if free s then Some {| s with a_owner := Announcing q;
        a_phase := if bool_decide (a_phase s = P_starting) then P_running else a_phase s |}
      else None
  | Announcing q => Some {| s with a_owner := Getting q |}
  | Getting q =>
      match a_requests s with
      | [] => None
      | None :: rest => Some {| s with a_requests := rest; a_owner := Stopping (Some q) ActorClosedError |}
      | Some i :: rest => Some {| s with a_requests := rest; a_owner := Received q i |}
      end
  | Received q i =>
      if free s then Some {| s with a_owner := Checked q i (bool_decide (a_phase s = P_running)) |} else None
  | Checked q i false =>
      match settle i (Err ActorClosedError) s with
      | Some s' => Some {| s' with a_owner := Getting q |}
      | None => Some (failing q s)
      end
  | Checked q i true =>
      match a_futures s !! i with
      | Some PENDING => Some {| s with a_futures := <[i := RUNNING]> (a_futures s); a_owner := Operating q i |}
      | Some CANCELLED =>
          Some {| s with a_futures := <[i := CANCELLED_AND_NOTIFIED]> (a_futures s); a_owner := Getting q |}
      | _ => Some (failing q s)
      end
  | Operating q i =>
      match operation i q with
      | (Replies r, q') => Some {| s with a_owner := Answering q' i r false |}
      | (Dies, q') =>
          Some {| s with a_owner := Answering q' i (Err ActorDiedError) true; a_fatal_error := Some ActorDiedError |}
      end
  | Answering q i r dies =>
      match settle i r s with
      | Some s' => Some (if (dies : bool) then failing q s' else {| s' with a_owner := Getting q |})
      | None => Some (failing q s)
      end
  | Stopping q e =>
      if free s then Some {| s with a_lock := HOwner; a_fatal_error := Some e; a_phase := P_stopped;
                                    a_owner := Draining q |}
      else None
  | Draining q =>
      match pop_pending s with
      | None => Some {| s with a_lock := Nobody; a_owner := Ended q |}
      | Some (Some i, s') => Some {| s' with a_owner := Setting q i |}
      | Some (None, s') => Some s'
      end
  | Setting q i =>
      match settle i (Err (default ActorDiedError (a_fatal_error s))) s with
      | Some s' => Some {| s' with a_owner := Draining q |}
      | None => Some {| s with a_lock := Nobody; a_owner := Crashed q |}
      end
  end.

(** [call]: the section under the lock. *)
Definition call (i : nat) (s : State) : option State :=
  if free s && bool_decide (a_callers s !! i = None) then
    Some (if bool_decide (a_phase s = P_running) then
            {| s with a_futures := <[i := PENDING]> (a_futures s); a_requests := a_requests s ++ [Some i];
                      a_callers := <[i := Waits]> (a_callers s) |}
          else {| s with a_callers := <[i := Returned (Err (_raise_not_running s))]> (a_callers s) |})
  else None.

(** [future.result(timeout)] returns, or times out and the handler cancels. *)
Definition caller_move (i : nat) (expires : bool) (s : State) : option State :=
  match a_callers s !! i, a_futures s !! i with
  | Some Waits, Some (FINISHED r) =>
      if expires then None else Some {| s with a_callers := <[i := Returned r]> (a_callers s) |}
  | Some Waits, Some _ =>
      if expires then Some {| s with a_callers := <[i := Expired]> (a_callers s) |} else None
  | Some Expired, Some f =>
      Some {| s with a_futures := <[i := cancel f]> (a_futures s);
                     a_callers := <[i := Returned (Err TimeoutError)]> (a_callers s) |}
  | _, _ => None
  end.

(** [close]: the head of [_request_stop]. *)
Definition close (k : nat) (s : State) : option State :=
  if free s && bool_decide (a_closers s !! k = None) then
    Some (if bool_decide (a_phase s = P_stopped) then {| s with a_closers := <[k := Joins]> (a_closers s) |}
          else {| s with a_phase := P_closing; a_lock := HCloser k; a_closers := <[k := Drains]> (a_closers s) |})
  else None.

Definition ended (o : Owner) : bool := match o with Ended _ | Crashed _ => true | _ => false end.

Definition closer_move (k : nat) (expires : bool) (s : State) : option State :=
  match a_closers s !! k with
  | Some Drains =>
      match pop_pending s with
      | None => Some {| s with a_requests := a_requests s ++ [None]; a_lock := Nobody; a_closers := <[k := Joins]> (a_closers s) |}
      | Some (Some i, s') => Some {| s' with a_closers := <[k := Sets i]> (a_closers s) |}
      | Some (None, s') => Some s'
      end
  | Some (Sets i) =>
      match settle i (Err ActorClosedError) s with
      | Some s' => Some {| s' with a_closers := <[k := Drains]> (a_closers s) |}
      | None => Some {| s with a_lock := Nobody; a_closers := <[k := Raises InvalidStateError]> (a_closers s) |}
      end
  | Some Joins =>
      if ended (a_owner s) then Some {| s with a_closers := <[k := Closed]> (a_closers s) |}
      else if expires then Some {| s with a_closers := <[k := Raises TimeoutError]> (a_closers s) |} else None
  | _ => None
  end.

Inductive Move :=
  | Open (q : result St)
  | Own
  | Call (i : nat)
  | Caller_ (i : nat) (expires : bool)
  | Close (k : nat)
  | Closer_ (k : nat) (expires : bool).

Definition move (m : Move) (s : State) : option State :=
  match m with
  | Open q => open_queue q s
  | Own => owner_move s
  | Call i => call i s
  | Caller_ i expires => caller_move i expires s
  | Close k => close k s
  | Closer_ k expires => closer_move k expires s
  end.

(** ** Histories *)

(** The calls that a move puts, and those whose operation it runs. *)
Definition puts_of (m : Move) (s : State) : list nat :=
  match m with Call i => if bool_decide (a_phase s = P_running) then [i] else [] | _ => [] end.
Definition runs_of (m : Move) (s : State) : list nat :=
  match m, a_owner s with Own, Operating _ i => [i] | _, _ => [] end.

(** The states that a schedule reaches from an opened queue [q0], with the calls that
    were put and the calls whose operation ran, in order. *)
Inductive reached (q0 : St) : list nat → list nat → State → Prop :=
  | reached_start : reached q0 [] [] start
  | reached_move puts ran s m s' :
      reached q0 puts ran s → move m s = Some s' → (∀ q, m = Open (Ok q) → q = q0) →
      reached q0 (puts ++ puts_of m s) (ran ++ runs_of m s) s'.

(** A schedule, with its history. *)
Fixpoint run_moves (ms : list Move) (x : list nat * list nat * State) : option (list nat * list nat * State) :=
  match ms with
  | [] => Some x
  | m :: ms' => let '(puts, ran, s) := x in s' ← move m s; run_moves ms' (puts ++ puts_of m s, ran ++ runs_of m s, s')
  end.
End actor.

#[global] Arguments Future : clear implicits.
#[global] Arguments Owner : clear implicits.
#[global] Arguments State : clear implicits.
#[global] Arguments Caller : clear implicits.

End Actor.
