(* ===== verification/LocalActorTheorems.v ===== *)
(** * What the queue's thread promises to its callers

    For every schedule of callers, closers and the owner: the operations run one at a
    time, each at most once, in the order in which they were put, and a call returns
    what its operation returned, or a refusal of an operation that never runs, or a
    timeout. *)
From S2P Require Export Prelude PyFloat PyVal LocalQueue LocalQueueTheorems LocalActor.
Import Queue Actor.

Section actor.
Context {St V : Type} (operation : nat → St → Reply V * St) (q0 : St).
Abbreviation State := (State St V).
Abbreviation move := (move operation).
Abbreviation reached := (reached operation q0).

(** ** The parts of a state *)

(** The queue that the owner has opened. *)
Definition queue_of (o : Owner St V) : option St :=
  match o with
  | Opening => None
  | Opened q | Announcing q | Getting q | Received q _ | Checked q _ _ | Operating q _ | Answering q _ _ _ => Some q
  | Stopping q _ | Draining q | Setting q _ | Ended q | Crashed q => q
  end.

Definition run_ops (ids : list nat) : St := foldl (λ q i, (operation i q).2) q0 ids.

Definition answer (rep : Reply V) : result V :=
  match rep with Replies r => r | Dies => Err ActorDiedError end.

(** The operation of [i] ran, and returned [r]. *)
Definition ran_with (ran : list nat) (i : nat) (r : result V) : Prop :=
  ∃ before after, ran = before ++ i :: after ∧ answer (operation i (run_ops before)).1 = r.

(** A refusal by an actor that is closed or dead. *)
Definition refusal (r : result V) : Prop := r = Err ActorClosedError ∨ r = Err ActorDiedError.

(** The request that the owner holds before it runs. *)
Definition hand (o : Owner St V) : list nat :=
  match o with Received _ i | Checked _ i _ => [i] | _ => [] end.
Definition working (o : Owner St V) : option nat :=
  match o with Operating _ i | Answering _ i _ _ => Some i | _ => None end.
Definition operating (o : Owner St V) : list nat := match o with Operating _ i => [i] | _ => [] end.

(** The request that a thread is failing. *)
Definition drained (s : State) : list nat :=
  match a_lock s with
  | Nobody => []
  | HOwner => match a_owner s with Setting _ i => [i] | _ => [] end
  | HCloser k => match a_closers s !! k with Some (Sets i) => [i] | _ => [] end
  end.

Definition pending (s : State) : list nat := omap id (a_requests s).
Definition outstanding (s : State) : list nat := hand (a_owner s) ++ drained s ++ pending s.

Definition drains (o : Owner St V) : bool := match o with Draining _ | Setting _ _ => true | _ => false end.
Definition locks (c : Closer) : bool := match c with Drains | Sets _ => true | _ => false end.
Definition opened (o : Owner St V) : bool :=
  match o with Opened _ => false | _ => bool_decide (is_Some (queue_of o)) end.

Definition fine_error (e : option exn) : Prop :=
  e = None ∨ e = Some ActorClosedError ∨ e = Some ActorDiedError.

(** ** The calls

    [out] are the requests that no thread has run or failed, [wk] the running one. *)
Record calls_ok (puts ran out : list nat) (wk : option nat) (fu : gmap nat (Future V))
    (ca : gmap nat (Caller V)) : Prop := {
  co_puts : NoDup puts;
  co_known : ∀ i, i ∈ puts ↔ is_Some (fu !! i);
  co_nodup : NoDup out;
  co_out : ∀ i, i ∈ out → (fu !! i = Some PENDING ∨ fu !! i = Some CANCELLED) ∧ i ∉ ran;
  co_pending : ∀ i, fu !! i = Some PENDING → i ∈ out;
  co_running : ∀ i, fu !! i = Some RUNNING ↔ wk = Some i;
  co_finished : ∀ i r, fu !! i = Some (FINISHED r) → ran_with ran i r ∨ ((i ∉ ran) ∧ refusal r);
  co_cancelled : ∀ i, fu !! i = Some CANCELLED ∨ fu !! i = Some CANCELLED_AND_NOTIFIED → i ∉ ran;
  co_caller : ∀ i, match ca !! i with
    | None => fu !! i = None
    | Some (Returned r) =>
        (fu !! i = None ∧ refusal r) ∨ fu !! i = Some (FINISHED r) ∨
        (r = Err TimeoutError ∧ ∃ f, fu !! i = Some f ∧ f ≠ PENDING)
    | Some _ => ∃ f, fu !! i = Some f ∧ f ≠ CANCELLED ∧ f ≠ CANCELLED_AND_NOTIFIED
    end;
}.

Lemma run_ops_snoc ids i : run_ops (ids ++ [i]) = (operation i (run_ops ids)).2.
Proof. unfold run_ops. by rewrite foldl_app. Qed.

Lemma ran_with_app ran more i r : ran_with ran i r → ran_with (ran ++ more) i r.
Proof. intros (b&a&->&H). exists b, (a ++ more). by rewrite <-app_assoc. Qed.

Lemma ran_with_elem ran i r : ran_with ran i r → i ∈ ran.
Proof. intros (b&a&->&_). set_solver. Qed.

Lemma calls_perm puts ran out out' wk fu ca :
  out ≡ₚ out' → calls_ok puts ran out wk fu ca → calls_ok puts ran out' wk fu ca.
Proof.
  intros Hp [Cp Ck Cn Co Ce Cr Cf Cc Ca]. split; try done.
  - by rewrite <-Hp.
  - intros i. rewrite <-Hp. apply Co.
  - intros i. rewrite <-Hp. apply Ce.
Qed.

#[local] Instance calls_proper puts ran : Proper ((≡ₚ) ==> (=) ==> (=) ==> (=) ==> iff) (calls_ok puts ran).
Proof. intros o o' Ho w _ <- f _ <- c _ <-. by split; apply calls_perm. Qed.

(** The future of an outstanding request changes; the request is no longer outstanding. *)
Lemma calls_take puts ran i f out wk wk' fu ca :
  calls_ok puts ran (i :: out) wk fu ca →
  match f with
  | RUNNING => fu !! i = Some PENDING ∧ wk = None ∧ wk' = Some i
  | FINISHED r => refusal r ∧ wk' = wk ∧ fu !! i = Some PENDING
  | CANCELLED | CANCELLED_AND_NOTIFIED => fu !! i = Some CANCELLED ∧ wk' = wk
  | PENDING => False
  end →
  calls_ok puts ran out wk' (<[i := f]> fu) ca.
Proof.
  intros [Cp Ck Cn Co Ce Cr Cf Cc Ca] Hf. apply NoDup_cons in Cn as [Hi Cn].
  destruct (Co i) as [Hst Hran]; [left|].
  assert (Hne : ∀ j, j ∈ out → j ≠ i) by (by intros j Hj ->).
  split; try done.
  - intros j. rewrite Ck, lookup_insert_is_Some'. split; [auto|]. intros [->|?]; [|done]. destruct Hst; eauto.
  - intros j Hj. rewrite lookup_insert_ne by (intros <-; done). apply Co. by right.
  - intros j [[<- ->]|[Hji Hj]]%lookup_insert_Some; [done|]. apply Ce in Hj. set_solver.
  - intros j. destruct (decide (j = i)) as [->|Hji].
    + rewrite lookup_insert_eq. destruct f; try (by destruct Hf as (_&_&->)).
      * done.
      * destruct Hf as [Hf ->]. rewrite <-Cr, Hf. naive_solver.
      * destruct Hf as [Hf ->]. rewrite <-Cr, Hf. naive_solver.
      * destruct Hf as (_&->&Hf). rewrite <-Cr, Hf. naive_solver.
    + rewrite lookup_insert_ne by done. rewrite Cr.
      destruct f; [done|destruct Hf as (_&->&->); naive_solver|by destruct Hf as (_&->)..|by destruct Hf as (_&->&_)].
  - intros j r [[<- ->]|[Hji Hj]]%lookup_insert_Some; [|auto]. right. by destruct Hf.
  - intros j [[[<- ->]|[Hji Hj]]%lookup_insert_Some|[[<- ->]|[Hji Hj]]%lookup_insert_Some]; auto.
  - intros j. specialize (Ca j). destruct (decide (j = i)) as [->|Hji]; [|by rewrite lookup_insert_ne by done].
    rewrite lookup_insert_eq. destruct (ca !! i) as [[| |r]|].
    + destruct Ca as (g&Hg&Hg1&Hg2). exists f. split; [done|]. destruct f; try done; destruct Hf as [Hf _]; congruence.
    + destruct Ca as (g&Hg&Hg1&Hg2). exists f. split; [done|]. destruct f; try done; destruct Hf as [Hf _]; congruence.
    + destruct Ca as [[Ca _]|[Ca|(->&g&Hg&_)]]; [destruct Hst; congruence..|].
      right. right. split; [done|]. exists f. split; [done|]. by destruct f.
    + destruct Hst; congruence.
Qed.

(** A cancelled request is forgotten. *)
Lemma calls_forget puts ran i out wk fu ca :
  calls_ok puts ran (i :: out) wk fu ca → fu !! i ≠ Some PENDING → calls_ok puts ran out wk fu ca.
Proof.
  intros [Cp Ck Cn Co Ce Cr Cf Cc Ca] Hi. apply NoDup_cons in Cn as [_ Cn]. split; try done.
  - intros j Hj. apply Co. by right.
  - intros j Hj. apply Ce in Hj as Hj'. apply elem_of_cons in Hj' as [->|]; done.
Qed.

(** The running operation takes effect. *)
Lemma calls_run puts ran i out fu ca :
  calls_ok puts ran out (Some i) fu ca → calls_ok puts (ran ++ [i]) out (Some i) fu ca.
Proof.
  intros [Cp Ck Cn Co Ce Cr Cf Cc Ca].
  assert (Hi : fu !! i = Some RUNNING) by by apply Cr.
  assert (Hne : ∀ j f, fu !! j = Some f → f ≠ RUNNING → j ∉ ran → j ∉ ran ++ [i]).
  { intros j f Hj Hf Hr [|Hji%list_elem_of_singleton]%elem_of_app; [done|]. subst. congruence. }
  split; try done.
  - intros j Hj. destruct (Co j Hj) as [[H|H] Hr]; (split; [auto|by eapply Hne]).
  - intros j r Hj. destruct (Cf j r Hj) as [H|[H1 H2]]; [left; by apply ran_with_app|right]. split; [|done]. by eapply Hne.
  - intros j [H|H]; (eapply Hne; [done|done|]); apply Cc; auto.
Qed.

(** The running call is answered. *)
Lemma calls_answer puts ran i r out fu ca :
  calls_ok puts ran out (Some i) fu ca → ran_with ran i r →
  calls_ok puts ran out None (<[i := FINISHED r]> fu) ca.
Proof.
  intros [Cp Ck Cn Co Ce Cr Cf Cc Ca] Hr. assert (Hi : fu !! i = Some RUNNING) by by apply Cr.
  assert (Hout : i ∉ out) by (intros [[?|?] _]%Co; congruence). split; try done.
  - intros j. rewrite Ck, lookup_insert_is_Some'. naive_solver.
  - intros j Hj. rewrite lookup_insert_ne by (intros <-; done). by apply Co.
  - intros j [[_ ?]|[_ Hj]]%lookup_insert_Some; [done|auto].
  - intros j. split; [|done]. intros [[_ ?]|[Hji Hj]]%lookup_insert_Some; [done|]. apply Cr in Hj. congruence.
  - intros j r' [[<- [= <-]]|[_ Hj]]%lookup_insert_Some; auto.
  - intros j [[[_ ?]|[_ Hj]]%lookup_insert_Some|[[_ ?]|[_ Hj]]%lookup_insert_Some]; auto; done.
  - intros j. specialize (Ca j). destruct (decide (j = i)) as [->|Hji]; [|by rewrite lookup_insert_ne by done].
    rewrite lookup_insert_eq. destruct (ca !! i) as [[| |r']|]; [by eauto..| |congruence].
    destruct Ca as [[Ca _]|[Ca|(->&_)]]; [congruence..|]. right. right. split; [done|]. by eexists.
Qed.

(** A call is put, refused, returns, expires or cancels. *)
Lemma calls_put puts ran i out wk fu ca :
  calls_ok puts ran out wk fu ca → ca !! i = None → i ∉ ran → wk ≠ Some i →
  calls_ok (puts ++ [i]) ran (out ++ [i]) wk (<[i := PENDING]> fu) (<[i := Waits]> ca).
Proof.
  intros [Cp Ck Cn Co Ce Cr Cf Cc Ca] Hca Hr Hw. assert (Hi : fu !! i = None) by (specialize (Ca i); by rewrite Hca in Ca).
  assert (Hp : i ∉ puts) by (rewrite Ck, Hi; by intros []).
  assert (Hout : i ∉ out) by (intros [[?|?] _]%Co; congruence). split.
  - apply NoDup_app. split; [done|]. split; [|apply NoDup_singleton]. intros j Hj ->%list_elem_of_singleton. done.
  - intros j. rewrite elem_of_app, Ck, lookup_insert_is_Some', list_elem_of_singleton. naive_solver.
  - apply NoDup_app. split; [done|]. split; [|apply NoDup_singleton]. intros j Hj ->%list_elem_of_singleton. done.
  - intros j [Hj|Hj%list_elem_of_singleton]%elem_of_app.
    + rewrite lookup_insert_ne by (intros <-; done). by apply Co.
    + subst j. rewrite lookup_insert_eq. auto.
  - intros j [[<- _]|[_ Hj]]%lookup_insert_Some; [set_solver|]. apply elem_of_app. auto.
  - intros j. destruct (decide (j = i)) as [->|Hji]; [rewrite lookup_insert_eq; naive_solver|by rewrite lookup_insert_ne].
  - intros j r [[_ ?]|[_ Hj]]%lookup_insert_Some; [done|auto].
  - intros j [[[_ ?]|[_ Hj]]%lookup_insert_Some|[[_ ?]|[_ Hj]]%lookup_insert_Some]; auto; done.
  - intros j. destruct (decide (j = i)) as [->|Hji]; [rewrite !lookup_insert_eq; by eexists|].
    rewrite !lookup_insert_ne by done. apply Ca.
Qed.

Lemma calls_caller puts ran i c out wk fu ca :
  calls_ok puts ran out wk fu ca →
  match c with
  | Returned r => (fu !! i = None ∧ refusal r) ∨ fu !! i = Some (FINISHED r) ∨
      (r = Err TimeoutError ∧ ∃ f, fu !! i = Some f ∧ f ≠ PENDING)
  | _ => ∃ f, fu !! i = Some f ∧ f ≠ CANCELLED ∧ f ≠ CANCELLED_AND_NOTIFIED
  end → calls_ok puts ran out wk fu (<[i := c]> ca).
Proof.
  intros [Cp Ck Cn Co Ce Cr Cf Cc Ca] Hc. split; try done. intros j.
  destruct (decide (j = i)) as [->|Hji]; [by rewrite lookup_insert_eq; destruct c|].
  rewrite lookup_insert_ne by done. apply Ca.
Qed.

Lemma calls_cancel puts ran i f out wk fu ca :
  calls_ok puts ran out wk fu ca → fu !! i = Some f →
  ca !! i = Some Expired → calls_ok puts ran out wk (<[i := cancel f]> fu) (<[i := Returned (Err TimeoutError)]> ca).
Proof.
  intros C Hf Hca. assert (f = PENDING ∨ f ≠ PENDING) as [->|Hne] by (destruct f; first [by left|by right]).
  2:{ assert (cancel f = f) as -> by by destruct f. rewrite insert_id by done. apply calls_caller; [done|]. eauto 6. }
  simpl. destruct C as [Cp Ck Cn Co Ce Cr Cf Cc Ca]. apply Ce in Hf as Hi. destruct (Co i Hi) as [_ Hr]. split; try done.
  - intros j. rewrite Ck, lookup_insert_is_Some'. naive_solver.
  - intros j Hj. destruct (Co j Hj) as [Hs Hj']. split; [|done].
    destruct (decide (j = i)) as [->|Hji]; [rewrite lookup_insert_eq; auto|by rewrite lookup_insert_ne].
  - intros j [[_ ?]|[_ Hj]]%lookup_insert_Some; [done|auto].
  - intros j. rewrite <-Cr. destruct (decide (j = i)) as [->|Hji]; [rewrite lookup_insert_eq, Hf; naive_solver|by rewrite lookup_insert_ne].
  - intros j r [[_ ?]|[_ Hj]]%lookup_insert_Some; [done|auto].
  - intros j [[[<- _]|[_ Hj]]%lookup_insert_Some|[[_ ?]|[_ Hj]]%lookup_insert_Some]; auto; done.
  - intros j. destruct (decide (j = i)) as [->|Hji]; [rewrite !lookup_insert_eq; right; right; split; [done|by eexists]|].
    rewrite !lookup_insert_ne by done. apply Ca.
Qed.

(** ** The invariant *)

Record inv (puts ran : list nat) (s : State) : Prop := {
  iv_owner_lock : drains (a_owner s) = true ↔ a_lock s = HOwner;
  iv_closer_lock : ∀ k, (∃ c, a_closers s !! k = Some c ∧ locks c = true) ↔ a_lock s = HCloser k;
  iv_holder : ∀ k, a_lock s = HCloser k → a_phase s = P_closing;
  iv_phase : match a_owner s with
             | Draining _ | Setting _ _ | Ended _ | Crashed _ => a_phase s = P_stopped
             | _ => a_phase s ≠ P_stopped
             end;
  iv_unopened : opened (a_owner s) = false → a_phase s ≠ P_running ∧ puts = [];
  iv_fatal : match a_owner s, queue_of (a_owner s) with
             | Opening, _ | _, Some _ => fine_error (a_fatal_error s)
             | _, None => True
             end;
  iv_stopping : match a_owner s with Stopping (Some _) e => fine_error (Some e) | _ => True end;
  iv_queue : match queue_of (a_owner s) with Some q => q = run_ops ran | None => ran = [] end;
  iv_order : ∃ gone, puts = (gone ++ pending s)%list ∧ sublist (ran ++ hand (a_owner s) ++ operating (a_owner s)) gone;
  iv_calls : calls_ok puts ran (outstanding s) (working (a_owner s)) (a_futures s) (a_callers s);
  iv_working : match a_owner s with
               | Operating _ i => i ∉ ran
               | Answering _ i r _ => ran_with ran i r
               | _ => True
               end;
  iv_ended : match a_owner s with Ended _ => pending s = [] | _ => True end;
}.

(** Take a state and its invariant apart, and put them together. *)
Ltac open_state s I :=
  destruct s as [ph fe lk rq fu ow ca cl];
  cbn [a_phase a_fatal_error a_lock a_requests a_futures a_owner a_callers a_closers] in *; subst;
  destruct I as [Iol Icl Iho Iph Iun Ifa Ist Iqu Ior Ico Iwo Ien];
  unfold free, outstanding, drained, pending, opened in *; simpl in *.
Ltac close_state :=
  constructor; unfold free, outstanding, drained, pending, opened in *; simpl in *;
  rewrite ?app_nil_r in *; try done; eauto; try (by intros; simplify_eq).

Lemma inv_start : inv [] [] start.
Proof.
  close_state.
  - intros k. split; [intros (c&H&_); done|done].
  - by left.
  - by exists [].
  - split; try done; try (by intros; set_solver); [constructor| |constructor].
    intros i. split; [by intros ?%elem_of_nil|by intros [??]].
Qed.

(** *** The owner *)

Lemma owner_opened puts ran s s' q :
  inv puts ran s → a_owner s = Opened q → owner_move operation s = Some s' → inv puts ran s'.
Proof.
  intros I Eo H. unfold owner_move in H. rewrite Eo in H. open_state s I.
  case_bool_decide as El; [|done]. injection H as <-. subst lk. close_state. by case_bool_decide.
Qed.

Lemma owner_announcing puts ran s s' q :
  inv puts ran s → a_owner s = Announcing q → owner_move operation s = Some s' → inv puts ran s'.
Proof. intros I Eo H. unfold owner_move in H. rewrite Eo in H. open_state s I. injection H as <-. close_state. Qed.

Lemma owner_getting puts ran s s' q :
  inv puts ran s → a_owner s = Getting q → owner_move operation s = Some s' → inv puts ran s'.
Proof.
  intros I Eo H. unfold owner_move in H. rewrite Eo in H. open_state s I.
  destruct rq as [|[i|] rq]; [done|..]; injection H as <-; close_state.
  - destruct Ior as (gone&->&Hs). exists (gone ++ [i]). simpl. split; [by rewrite <-app_assoc|].
    by apply sublist_app.
  - eapply calls_perm; [|exact Ico]. simpl. symmetry. apply Permutation_middle.
  - right. by left.
Qed.

Lemma owner_received puts ran s s' q i :
  inv puts ran s → a_owner s = Received q i → owner_move operation s = Some s' → inv puts ran s'.
Proof.
  intros I Eo H. unfold owner_move in H. rewrite Eo in H. open_state s I.
  case_bool_decide as El; [|done]. injection H as <-. subst lk. close_state.
Qed.

Lemma order_drop (puts ran l p : list nat) :
  (∃ gone, puts = gone ++ p ∧ sublist (ran ++ l) gone) → ∃ gone, puts = gone ++ p ∧ sublist ran gone.
Proof. intros (gone&->&H). exists gone. split; [done|]. etrans; [|exact H]. apply sublist_inserts_r. done. Qed.

Lemma settle_cases i r (s : State) :
  match settle i r s with
  | Some s' => ∃ f, a_futures s !! i = Some f ∧ (f = PENDING ∨ f = RUNNING) ∧
                    s' = {| s with a_futures := <[i := FINISHED r]> (a_futures s) |}
  | None => a_futures s !! i ≠ Some PENDING ∧ a_futures s !! i ≠ Some RUNNING
  end.
Proof.
  unfold settle. destruct (a_futures s !! i) as [[]|] eqn:E; simpl; eauto; split; congruence.
Qed.

Lemma fine_default e : fine_error e → fine_error (Some (default ActorDiedError e)).
Proof. intros [->|[->| ->]]; simpl; unfold fine_error; auto. Qed.

Lemma fine_refusal e : fine_error (Some e) → refusal (Err e).
Proof. intros [H|[H|H]]; [discriminate H|injection H as ->; by left|injection H as ->; by right]. Qed.

Lemma owner_checked puts ran s s' q i b :
  inv puts ran s → a_owner s = Checked q i b → owner_move operation s = Some s' → inv puts ran s'.
Proof.
  intros I Eo H. unfold owner_move in H. rewrite Eo in H.
  pose proof (settle_cases i (Err ActorClosedError) s) as Hs. destruct b.
  - open_state s I. destruct (fu !! i) as [[]|] eqn:Ef; injection H as <-; close_state;
      first [by apply fine_default|by eapply order_drop|eapply calls_take; [exact Ico|by split_and!]
            |eapply calls_forget; [exact Ico|by rewrite Ef]|apply (proj2 (co_out _ _ _ _ _ _ Ico i ltac:(left)))].
  - destruct (settle i (Err ActorClosedError) s) as [s1|].
    + destruct Hs as (f&Hf&Hst&->). open_state s I. injection H as <-.
      assert (fu !! i = Some PENDING) as Hp
        by (destruct (co_out _ _ _ _ _ _ Ico i) as [[?|Hc] _]; [left|done|destruct Hst; congruence]).
      close_state; [by eapply order_drop|]. eapply calls_take; [exact Ico|]. by split; [left|].
    + open_state s I. injection H as <-. close_state;
        [by apply fine_default|by eapply order_drop|]. eapply calls_forget; [exact Ico|]. apply Hs.
Qed.

Lemma owner_operating puts ran s s' q i :
  inv puts ran s → a_owner s = Operating q i → owner_move operation s = Some s' → inv puts (ran ++ [i]) s'.
Proof.
  intros I Eo H. unfold owner_move in H. rewrite Eo in H. open_state s I. subst q.
  pose proof (run_ops_snoc ran i) as Hq.
  destruct (operation i (run_ops ran)) as [[r|] q'] eqn:Eop; injection H as <-; simpl in Hq; close_state;
    first [by apply calls_run|by right; right|exists ran, []; by rewrite Eop].
Qed.

Lemma owner_answering puts ran s s' q i r d :
  inv puts ran s → a_owner s = Answering q i r d → owner_move operation s = Some s' → inv puts ran s'.
Proof.
  intros I Eo H. unfold owner_move in H. rewrite Eo in H. pose proof (settle_cases i r s) as Hs.
  destruct (settle i r s) as [s1|].
  - destruct Hs as (f&Hf&Hst&->). open_state s I. destruct d; injection H as <-; close_state;
      first [by apply fine_default|by apply calls_answer].
  - exfalso. open_state s I. apply (proj2 Hs). by apply (co_running _ _ _ _ _ _ Ico).
Qed.

(** The lock passes between Nobody and one holder. *)
Lemma no_closer (cl : gmap nat Closer) h h' :
  (∀ k, (∃ c, cl !! k = Some c ∧ locks c = true) ↔ h = HCloser k) →
  (∀ k, h ≠ HCloser k) → (∀ k, h' ≠ HCloser k) →
  ∀ k, (∃ c, cl !! k = Some c ∧ locks c = true) ↔ h' = HCloser k.
Proof. intros H H1 H2 k. rewrite H. split; intros E; [by destruct (H1 k)|by destruct (H2 k)]. Qed.

Lemma owner_stopping puts ran s s' q e :
  inv puts ran s → a_owner s = Stopping q e → owner_move operation s = Some s' → inv puts ran s'.
Proof.
  intros I Eo H. unfold owner_move in H. rewrite Eo in H. open_state s I.
  case_bool_decide as El; [|done]. injection H as <-. subst lk. close_state.
  - by eapply no_closer.
  - intros Hq. split; [done|]. by apply Iun.
Qed.

Lemma pop_cases (s : State) :
  match pop_pending s with
  | None => a_requests s = []
  | Some (x, s') => ∃ y rest, a_requests s = y :: rest ∧ s' = {| s with a_requests := rest |} ∧
      match x with
      | Some i => y = Some i
      | None => y = None ∨ ∃ i, y = Some i ∧ a_futures s !! i ≠ Some PENDING
      end
  end.
Proof.
  unfold pop_pending. destruct (a_requests s) as [|[i|] rest] eqn:E; [done|..].
  - destruct (a_futures s !! i) as [[]|] eqn:Ef; simpl; eexists _, _; (split; [done|split; [done|]]); eauto;
      right; exists i; by rewrite Ef.
  - eexists _, _. split; [done|]. split; [done|]. by left.
Qed.

Lemma order_pop (puts l : list nat) i p :
  (∃ gone, puts = gone ++ i :: p ∧ sublist l gone) → ∃ gone, puts = gone ++ p ∧ sublist l gone.
Proof.
  intros (gone&->&H). exists (gone ++ [i]). split; [by rewrite <-app_assoc|]. etrans; [exact H|]. by apply sublist_inserts_r.
Qed.

Lemma owner_draining puts ran s s' q :
  inv puts ran s → a_owner s = Draining q → owner_move operation s = Some s' → inv puts ran s'.
Proof.
  intros I Eo H. unfold owner_move in H. rewrite Eo in H. pose proof (pop_cases s) as Hp.
  destruct (pop_pending s) as [[[i|] s1]|].
  - destruct Hp as (y&rest&Er&->&->). open_state s I. assert (lk = HOwner) as -> by by apply Iol.
    injection H as <-. close_state. by eapply order_pop.
  - destruct Hp as (y&rest&Er&->&Hy). open_state s I. assert (lk = HOwner) as -> by by apply Iol.
    injection H as <-. destruct Hy as [->|(i&->&Hf)]; close_state; [by eapply order_pop|].
    by eapply calls_forget.
  - open_state s I. assert (lk = HOwner) as -> by by apply Iol. injection H as <-. close_state.
    by eapply no_closer.
Qed.

Lemma owner_setting puts ran s s' q i :
  inv puts ran s → a_owner s = Setting q i → owner_move operation s = Some s' → inv puts ran s'.
Proof.
  intros I Eo H. unfold owner_move in H. rewrite Eo in H.
  pose proof (settle_cases i (Err (default ActorDiedError (a_fatal_error s))) s) as Hs.
  destruct (settle i (Err (default ActorDiedError (a_fatal_error s))) s) as [s1|].
  - destruct Hs as (f&Hf&Hst&->). open_state s I. assert (lk = HOwner) as -> by by apply Iol.
    injection H as <-. close_state.
    assert (fu !! i = Some PENDING) as Hp
      by (destruct (co_out _ _ _ _ _ _ Ico i) as [[?|Hc] _]; [left|done|destruct Hst; congruence]).
    eapply calls_take; [exact Ico|]. split_and!; [|done..]. destruct q as [q|]; [by apply fine_refusal, fine_default|].
    destruct Iun as [_ ->]; [done|]. assert (i ∈ []) as []%elem_of_nil. apply (co_known _ _ _ _ _ _ Ico). by eexists.
  - open_state s I. assert (lk = HOwner) as -> by by apply Iol. injection H as <-. close_state.
    + by eapply no_closer.
    + eapply calls_forget; [exact Ico|]. apply Hs.
Qed.

Lemma open_inv puts ran s s' r :
  inv puts ran s → open_queue r s = Some s' → (∀ q, r = Ok q → q = q0) → inv puts ran s'.
Proof.
  intros I H Hq. unfold open_queue in H. destruct (a_owner s) eqn:Eo; try done. open_state s I.
  destruct r as [q|e]; injection H as <-; close_state. subst ran. by apply Hq.
Qed.

(** *** The callers *)

Lemma pending_snoc (rq : list (option nat)) i : omap id (rq ++ [Some i]) = omap id rq ++ [i].
Proof. by rewrite omap_app. Qed.

Lemma ran_put puts ran s i : inv puts ran s → i ∈ ran → i ∈ puts.
Proof.
  intros I Hi. destruct (iv_order _ _ _ I) as (gone&->&Hs). apply elem_of_app. left.
  apply (sublist_subseteq _ _ Hs). apply elem_of_app. by left.
Qed.

Lemma call_inv puts ran s s' i :
  inv puts ran s → call i s = Some s' → inv (puts ++ puts_of (St := St) (V := V) (Call i) s) ran s'.
Proof.
  intros I H. pose proof (ran_put _ _ _ i I) as Hran.
  unfold call in H. destruct (free s) eqn:Ef; [|done]. case_bool_decide as Hc; [|done]. injection H as <-.
  simpl. open_state s I. apply bool_decide_eq_true_1 in Ef. subst lk.
  assert (Hfu : fu !! i = None) by (pose proof (co_caller _ _ _ _ _ _ Ico i) as X; by rewrite Hc in X).
  destruct (bool_decide (ph = P_running)) eqn:Hr;
    [apply bool_decide_eq_true_1 in Hr; subst ph|apply bool_decide_eq_false_1 in Hr]; close_state.
  - intros Ho. by destruct (Iun Ho) as [[] _].
  - destruct Ior as (gone&->&Hs). exists gone. by rewrite pending_snoc, app_assoc.
  - rewrite pending_snoc, app_assoc. apply calls_put; [done|done|..].
    + intros Hi%Hran%(co_known _ _ _ _ _ _ Ico). rewrite Hfu in Hi. by destruct Hi.
    + intros Hw%(co_running _ _ _ _ _ _ Ico). congruence.
  - by destruct ow.
  - apply calls_caller; [done|]. left. split; [done|]. unfold _raise_not_running, refusal. simpl.
    destruct fe as [[]|]; auto.
Qed.

Lemma caller_inv puts ran s s' i b : inv puts ran s → caller_move i b s = Some s' → inv puts ran s'.
Proof.
  intros I H. unfold caller_move in H. open_state s I. pose proof (co_caller _ _ _ _ _ _ Ico i) as Hc.
  destruct (ca !! i) as [[| |r]|] eqn:Ec; [| |done..].
  - destruct Hc as (f&Hf&Hf1&Hf2). rewrite Hf in H.
    assert (calls_ok puts ran (hand ow ++ match lk with
      | Nobody => [] | HOwner => match ow with Setting _ i => [i] | _ => [] end
      | HCloser k => match cl !! k with Some (Sets i) => [i] | _ => [] end end ++ omap id rq) (working ow) fu
      (a_callers s')) as Hok.
    { destruct f; try done; destruct b; try done; injection H as <-; simpl;
        (apply calls_caller; [done|]); eauto. }
    destruct f; try done; destruct b; try done; injection H as <-; close_state.
  - destruct (fu !! i) as [f|] eqn:Ef; [|done]. injection H as <-. close_state. by apply calls_cancel.
Qed.

(** *** The closers *)

(** A closer changes its place, and maybe the holder of the lock. *)
Lemma closer_moves (cl : gmap nat Closer) h h' k c :
  (∀ j, (∃ c, cl !! j = Some c ∧ locks c = true) ↔ h = HCloser j) →
  (locks c = true ↔ h' = HCloser k) → (∀ j, j ≠ k → (h = HCloser j ↔ h' = HCloser j)) →
  ∀ j, (∃ c', <[k := c]> cl !! j = Some c' ∧ locks c' = true) ↔ h' = HCloser j.
Proof.
  intros H Hk Hj j. destruct (decide (j = k)) as [->|Hne].
  - rewrite lookup_insert_eq, <-Hk. split; [by intros (c'&[= <-]&?)|eauto].
  - rewrite lookup_insert_ne, <-Hj by done. apply H.
Qed.

Lemma owner_unlocked (ow : Owner St V) k h :
  (drains ow = true ↔ HCloser k = HOwner) → h ≠ HOwner → drains ow = true ↔ h = HOwner.
Proof. intros H Hh. rewrite H. by split. Qed.

Lemma close_inv puts ran s s' k : inv puts ran s → close k s = Some s' → inv puts ran s'.
Proof.
  intros I H. unfold close in H. destruct (free s) eqn:Ef; [|done]. case_bool_decide as Hc; [|done]. injection H as <-.
  open_state s I. apply bool_decide_eq_true_1 in Ef. subst lk.
  destruct (bool_decide (ph = P_stopped)) eqn:Hr;
    [apply bool_decide_eq_true_1 in Hr; subst ph|apply bool_decide_eq_false_1 in Hr]; close_state.
  - by eapply closer_moves.
  - rewrite Iol. by split.
  - eapply closer_moves; [exact Icl|done|]. intros j Hj. split; [done|intros [= ->]; done].
  - by destruct ow.
  - intros Ho. split; [done|]. by apply Iun.
  - by rewrite lookup_insert_eq.
Qed.

Lemma closer_inv puts ran s s' k b : inv puts ran s → closer_move k b s = Some s' → inv puts ran s'.
Proof.
  intros I H. unfold closer_move in H. destruct (a_closers s !! k) as [c|] eqn:Ec; [|done].
  assert (Hlock : locks c = true → a_lock s = HCloser k) by (intros Hl; apply (iv_closer_lock _ _ _ I); eauto).
  destruct c as [|i| | |]; try done.
  - specialize (Hlock eq_refl). pose proof (pop_cases s) as Hp. destruct (pop_pending s) as [[[i|] s1]|].
    + destruct Hp as (y&rest&Er&->&->). open_state s I. injection H as <-. rewrite Ec in *. close_state.
      * by eapply closer_moves.
      * by eapply order_pop.
      * by rewrite lookup_insert_eq.
      * by destruct ow.
    + destruct Hp as (y&rest&Er&->&Hy). open_state s I. injection H as <-. rewrite Ec in *.
      destruct Hy as [->|(i&->&Hf)]; close_state; rewrite ?Ec; [done|by eapply order_pop| |by destruct ow].
      eapply calls_forget; [|exact Hf]. eapply calls_perm; [|exact Ico]. symmetry. apply Permutation_middle.
    + open_state s I. injection H as <-. rewrite Ec in *. close_state.
      * by eapply owner_unlocked.
      * eapply closer_moves; [exact Icl|done|]. intros j Hj. split; [intros [= ->]; done|done].
  - specialize (Hlock eq_refl). pose proof (settle_cases i (Err ActorClosedError) s) as Hs.
    destruct (settle i (Err ActorClosedError) s) as [s1|].
    + destruct Hs as (f&Hf&Hst&->). open_state s I. injection H as <-. rewrite Ec in *. simpl in Ico.
      rewrite <-Permutation_middle in Ico.
      assert (fu !! i = Some PENDING) as Hp
        by (destruct (co_out _ _ _ _ _ _ Ico i) as [[?|Hx] _]; [left|done|destruct Hst; congruence]).
      close_state.
      * by eapply closer_moves.
      * rewrite lookup_insert_eq. eapply calls_take; [exact Ico|]. by split_and!; [left| |].
    + open_state s I. injection H as <-. rewrite Ec in *. close_state.
      * by eapply owner_unlocked.
      * eapply closer_moves; [exact Icl|done|]. intros j Hj. split; [intros [= ->]; done|done].
      * simpl in Ico. rewrite <-Permutation_middle in Ico. eapply calls_forget; [exact Ico|]. apply Hs.
  - assert (Hk : a_lock s ≠ HCloser k).
    { intros Hl. apply (iv_closer_lock _ _ _ I) in Hl as (c&Hc&Hl). rewrite Ec in Hc. by injection Hc as <-. }
    assert (X : ∀ c, locks c = false → inv puts ran {| s with a_closers := <[k := c]> (a_closers s) |}).
    { intros c Hc. open_state s I. close_state.
      - eapply closer_moves; [exact Icl| |done]. rewrite Hc. by split; [|intros ?].
      - destruct lk as [| |k']; try done. rewrite lookup_insert_ne; [done|congruence]. }
    destruct (ended _); [|destruct b; [|done]]; injection H as <-; by apply X.
Qed.

(** *** All moves *)

Lemma move_inv puts ran s m s' :
  inv puts ran s → move m s = Some s' → (∀ q, m = Open (Ok q) → q = q0) →
  inv (puts ++ puts_of m s) (ran ++ runs_of m s) s'.
Proof.
  intros I H Hq. destruct m as [r| |i|i b|k|k b]; simpl in H;
    try (assert (runs_of _ s = []) as -> by done).
  - rewrite !app_nil_r. eapply open_inv; [exact I|exact H|]. intros q ->. by apply Hq.
  - rewrite app_nil_r. simpl. destruct (a_owner s) eqn:Eo; simpl; rewrite ?app_nil_r;
      first [by unfold owner_move in H; rewrite Eo in H|by eapply owner_opened|by eapply owner_announcing
        |by eapply owner_getting|by eapply owner_received|by eapply owner_checked|by eapply owner_operating
        |by eapply owner_answering|by eapply owner_stopping|by eapply owner_draining|by eapply owner_setting].
  - rewrite app_nil_r. by apply call_inv.
  - rewrite !app_nil_r. by eapply caller_inv.
  - rewrite !app_nil_r. by eapply close_inv.
  - rewrite !app_nil_r. by eapply closer_inv.
Qed.

Lemma reached_inv puts ran s : reached puts ran s → inv puts ran s.
Proof. induction 1; [apply inv_start|by eapply move_inv]. Qed.

(** ** Calls that are over *)

(** A schedule goes on. *)
Definition goes (x y : list nat * list nat * State) : Prop := ∃ m,
  move m x.2 = Some y.2 ∧ (∀ q, m = Open (Ok q) → q = q0) ∧
  y.1 = (x.1.1 ++ puts_of m x.2, x.1.2 ++ runs_of m x.2).
Definition never_runs (i : nat) (puts ran : list nat) (s : State) : Prop :=
  ∀ puts' ran' s', rtc goes (puts, ran, s) (puts', ran', s') → i ∉ ran'.

(** The call was refused, or its future will not run. *)
Definition over (i : nat) (s : State) : Prop :=
  a_callers s !! i ≠ None ∧ a_futures s !! i ≠ Some PENDING ∧ a_futures s !! i ≠ Some RUNNING.

Lemma over_insert i j f (fu : gmap nat (Future V)) :
  fu !! i ≠ Some PENDING → fu !! i ≠ Some RUNNING →
  (f = PENDING ∨ f = RUNNING → i ≠ j) →
  <[j := f]> fu !! i ≠ Some PENDING ∧ <[j := f]> fu !! i ≠ Some RUNNING.
Proof.
  intros H1 H2 Hf. destruct (decide (i = j)) as [->|Hne]; [|by rewrite lookup_insert_ne].
  rewrite lookup_insert_eq. split; intros [= ->]; by destruct Hf; auto.
Qed.

Lemma settle_over i j r s s' : settle j r s = Some s' → over i s → over i s'.
Proof.
  intros H (H0&H1&H2). pose proof (settle_cases j r s) as X. rewrite H in X. destruct X as (f&_&_&->).
  split; [done|]. by apply over_insert; [..|intros []].
Qed.

Lemma pop_over i s x s' : pop_pending s = Some (x, s') → over i s → over i s'.
Proof. intros H O. pose proof (pop_cases s) as X. rewrite H in X. by destruct X as (y&rest&_&->&_). Qed.

Lemma move_over i m s s' : move m s = Some s' → over i s → over i s'.
Proof.
  intros H O. pose proof O as (H0&H1&H2). destruct m as [r| |j|j b|k|k b]; simpl in H.
  - unfold open_queue in H. destruct (a_owner s); try done. by destruct r; injection H as <-.
  - unfold owner_move in H. destruct (a_owner s) as [|q|q|q|q j|q j []|q j|q j r d|q e|q|q j|q|q]; try done;
      try (destruct (free s); [|done]); try (by injection H as <-).
    + destruct (a_requests s) as [|[j|] ?]; try done; by injection H as <-.
    + destruct (a_futures s !! j) as [[]|] eqn:Ej; injection H as <-; try done;
        (split; [done|]); apply over_insert; try done; [intros _ ->; congruence|by intros []].
    + destruct (settle j _ s) as [s1|] eqn:Es; injection H as <-; [|done].
      by eapply settle_over in Es as (?&?&?).
    + destruct (operation j q) as [[]]; by injection H as <-.
    + destruct (settle j r s) as [s1|] eqn:Es; [|by injection H as <-].
      eapply settle_over in Es as (?&?&?); [|exact O]. by destruct d; injection H as <-.
    + destruct (pop_pending s) as [[[j|] s1]|] eqn:Ep; injection H as <-;
        [by eapply pop_over in Ep as (?&?&?)..|done].
    + destruct (settle j _ s) as [s1|] eqn:Es; injection H as <-; [|done].
      by eapply settle_over in Es as (?&?&?).
  - unfold call in H. destruct (free s); [|done]. case_bool_decide as Hj; [|done]. injection H as <-.
    assert (i ≠ j) by (by intros ->). destruct (bool_decide _); (split; simpl; [by rewrite lookup_insert_ne|]).
    + by apply over_insert.
    + done.
  - unfold caller_move in H.
    destruct (a_callers s !! j) as [[| |r]|] eqn:Ej; [| |done..];
      (destruct (a_futures s !! j) as [f|] eqn:Ef; [|done]).
    + assert (X : ∀ c, over i {| s with a_callers := <[j := c]> (a_callers s) |}).
      { intros c. split; [|done]. simpl. destruct (decide (i = j)) as [->|]; [by rewrite lookup_insert_eq|by rewrite lookup_insert_ne]. }
      destruct f; destruct b; try done; injection H as <-; apply X.
    + injection H as <-. split; simpl.
      * destruct (decide (i = j)) as [->|]; [by rewrite lookup_insert_eq|by rewrite lookup_insert_ne].
      * apply over_insert; try done. intros Hc ->. destruct f, Hc; try done; congruence.
  - unfold close in H. destruct (free s); [|done]. case_bool_decide as Hj; [|done]. injection H as <-.
    by destruct (bool_decide _).
  - unfold closer_move in H. destruct (a_closers s !! k) as [[|j| | |]|]; try done.
    + destruct (pop_pending s) as [[[j|] s1]|] eqn:Ep; injection H as <-;
        [by eapply pop_over in Ep as (?&?&?)..|done].
    + destruct (settle j _ s) as [s1|] eqn:Es; injection H as <-; [|done].
      by eapply settle_over in Es as (?&?&?).
    + destruct (ended _); [|destruct b; [|done]]; by injection H as <-.
Qed.

Lemma over_never i puts ran s : inv puts ran s → over i s → i ∉ ran → never_runs i puts ran s.
Proof.
  intros I O Hi puts' ran' s' H. remember (puts, ran, s) as x eqn:Ex. remember (puts', ran', s') as y eqn:Ey.
  revert puts ran s I O Hi Ex. induction H as [x|x y z (m&Hm&Hq&Ey') _ IH]; intros puts ran s I O Hi ->.
  - injection Ey as -> -> ->. done.
  - destruct y as [[p1 r1] s1]. simpl in *. injection Ey' as -> ->. 
    refine (IH Ey _ _ _ (move_inv _ _ _ _ _ I Hm Hq) (move_over _ _ _ _ Hm O) _ eq_refl).
    intros [?|Hr]%elem_of_app; [done|]. destruct m; try (by apply elem_of_nil in Hr). simpl in Hr.
    destruct (a_owner s) eqn:Eo; try (by apply elem_of_nil in Hr). apply list_elem_of_singleton in Hr as <-.
    apply O. apply (co_running _ _ _ _ _ _ (iv_calls _ _ _ I)). by rewrite Eo.
Qed.

(** ** Closing *)

(** The moves that the owner needs at most when only it moves. *)
Definition rank (s : State) : nat :=
  let n := length (a_requests s) in
  match a_owner s with
  | Opened _ => 5 * n + 6
  | Announcing _ => 5 * n + 5
  | Getting _ => 5 * n + 4
  | Received _ _ => 5 * n + 8
  | Checked _ _ _ => 5 * n + 7
  | Operating _ _ => 5 * n + 6
  | Answering _ _ _ _ => 5 * n + 5
  | Stopping _ _ => 2 * n + 2
  | Draining _ => 2 * n + 1
  | Setting _ _ => 2 * n + 2
  | Opening | Ended _ | Crashed _ => 0
  end.

(** The owner can go on to its end: an end marker waits for its loop, and nobody
    interferes with the future that it is failing. *)
Definition ready (s : State) : Prop :=
  match a_owner s with
  | Opening => False
  | Opened _ | Announcing _ | Getting _ | Received _ _ | Checked _ _ _ | Operating _ _ | Answering _ _ _ _ =>
      None ∈ a_requests s ∧ a_lock s = Nobody
  | Stopping _ _ => a_lock s = Nobody
  | Setting _ i => a_futures s !! i = Some PENDING ∨ a_futures s !! i = Some RUNNING
  | Crashed _ => False
  | _ => True
  end.

Lemma settle_lock i r (s s' : State) : settle i r s = Some s' →
  a_lock s' = a_lock s ∧ a_requests s' = a_requests s.
Proof. intros H. pose proof (settle_cases i r s) as X. rewrite H in X. by destruct X as (f&_&_&->). Qed.

Lemma ready_move s : ready s → ended (a_owner s) = false →
  ∃ s', owner_move operation s = Some s' ∧ ready s' ∧ (rank s' < rank s)%nat.
Proof.
  intros R He. unfold ready in R. unfold owner_move, rank.
  destruct (a_owner s) as [|q|q|q|q i|q i []|q i|q i r d|q e|q|q i|q|q] eqn:Eo; try done.
  - destruct R as [R1 R2]. unfold free. rewrite R2. simpl. eexists. split; [done|]. simpl. split; [done|]. lia.
  - eexists. split; [done|]. simpl. split; [done|]. lia.
  - destruct R as [R1 R2]. destruct (a_requests s) as [|[i|] rest] eqn:Er; [by apply elem_of_nil in R1|..];
      (eexists; split; [done|]; simpl; split; [|lia]).
    + apply elem_of_cons in R1 as [?|R1]; done.
    + done.
  - destruct R as [R1 R2]. unfold free. rewrite R2. simpl. eexists. split; [done|]. simpl. split; [done|]. lia.
  - destruct R as [R1 R2]. destruct (a_futures s !! i) as [[]|]; (eexists; split; [done|]; simpl; split; [done|lia]).
  - destruct R as [R1 R2]. destruct (settle i _ s) as [s1|] eqn:Es; (eexists; split; [done|]; simpl).
    + apply settle_lock in Es as [El Er]. rewrite El, Er. split; [done|lia].
    + split; [done|lia].
  - destruct (operation i q) as [[]]; (eexists; split; [done|]; simpl; split; [done|lia]).
  - destruct R as [R1 R2]. destruct (settle i r s) as [s1|] eqn:Es.
    + apply settle_lock in Es as [El Er]. destruct d; (eexists; split; [done|]; unfold ready; simpl; rewrite El, ?Er; split; [done|lia]).
    + eexists; split; [done|]; simpl; split; [done|lia].
  - unfold free. rewrite R. simpl. eexists. split; [done|]. simpl. split; [done|]. lia.
  - unfold pop_pending. destruct (a_requests s) as [|[i|] rest] eqn:Er.
    + eexists; split; [done|]; simpl; split; [done|lia].
    + destruct (a_futures s !! i) as [[]|] eqn:Ef; simpl; (eexists; split; [done|]; unfold ready; simpl; rewrite ?Eo; simpl; split; [auto|lia]).
    + eexists; split; [done|]; unfold ready; simpl; rewrite ?Eo; simpl; split; [done|lia].
  - unfold settle. destruct R as [->| ->]; simpl; (eexists; split; [done|]; simpl; split; [done|lia]).
Qed.

Fixpoint own (n : nat) (s : State) : option State :=
  match n with O => Some s | S n' => s' ← owner_move operation s; own n' s' end.

Lemma ready_ends s : ready s → ∃ n s', (n ≤ rank s)%nat ∧ own n s = Some s' ∧ ready s' ∧ ended (a_owner s') = true.
Proof.
  remember (rank s) as r eqn:Er. revert s Er. induction r as [r IH] using lt_wf_ind. intros s -> R.
  destruct (ended (a_owner s)) eqn:Ee; [exists 0%nat, s; split_and!; [lia|done..]|].
  destruct (ready_move s R Ee) as (s1&H1&R1&Hlt). destruct (IH _ Hlt s1 eq_refl R1) as (n&s'&Hn&Ho&Hr).
  exists (S n), s'. split; [lia|]. split; [|done]. simpl. by rewrite H1.
Qed.

Lemma own_reached n puts ran s s' : reached puts ran s → own n s = Some s' → ∃ ran', reached puts ran' s'.
Proof.
  revert ran s. induction n as [|n IH]; intros ran s R H; simpl in H; [injection H as <-; eauto|].
  destruct (owner_move operation s) as [s1|] eqn:E; [|done]. simpl in H.
  assert (R1 : reached puts (ran ++ runs_of Own s) s1).
  { rewrite <-(app_nil_r puts). change [] with (puts_of Own s). eapply reached_move; [exact R|exact E|done]. }
  by eapply IH.
Qed.

Lemma ended_settles puts ran s q i : inv puts ran s → a_owner s = Ended q → a_futures s !! i ≠ Some PENDING ∧ a_futures s !! i ≠ Some RUNNING.
Proof.
  intros I Eo. open_state s I. split; intros Hi.
  - apply (co_pending _ _ _ _ _ _ Ico) in Hi. rewrite Ien, app_nil_r in Hi.
    destruct lk as [| |k]; [by apply elem_of_nil in Hi..|]. specialize (Iho k eq_refl). congruence.
  - apply (co_running _ _ _ _ _ _ Ico) in Hi. done.
Qed.
End actor.

(** ** Properties *)

(** C16. Calls are serialized.  Whatever the schedule of callers, closers and the
    owner: each call is put at most once, the operations run one at a time in the
    order in which their calls were put, and the queue is what running them one after
    another gives.  A call that returned either returns what its own operation
    returned at its place in that order; or it raises ActorClosedError or
    ActorDiedError, and its operation never runs; or it raises TimeoutError, and its
    operation ran, is running, or never runs. *)
Theorem calls_are_serialized {St V} (operation : nat → St → Reply V * St) q0 puts ran s :
  reached operation q0 puts ran s →
  NoDup puts ∧ sublist ran puts ∧
  match queue_of (a_owner s) with Some q => q = run_ops operation q0 ran | None => ran = [] end ∧
  ∀ i r, a_callers s !! i = Some (Returned r) →
    ran_with operation q0 ran i r ∨
    (refusal r ∧ never_runs operation q0 i puts ran s) ∨
    (r = Err TimeoutError ∧ (i ∈ ran ∨ working (a_owner s) = Some i ∨ never_runs operation q0 i puts ran s)).
Proof.
  intros I%reached_inv. pose proof (iv_calls _ _ _ _ _ I) as C. split; [apply C|]. split; [|split; [apply I|]].
  { destruct (iv_order _ _ _ _ _ I) as (gone&->&H). apply sublist_inserts_r.
    etrans; [|exact H]. by apply sublist_inserts_r. }
  intros i r Hr. pose proof (co_caller _ _ _ _ _ _ _ _ C i) as Hc. rewrite Hr in Hc.
  assert (Hnever : a_futures s !! i ≠ Some PENDING → a_futures s !! i ≠ Some RUNNING → i ∉ ran →
    never_runs operation q0 i puts ran s).
  { intros H1 H2 H3. apply over_never; [done| |done]. split_and!; [by rewrite Hr|done..]. }
  destruct Hc as [[Hf Href]|[Hf|(->&f&Hf&Hne)]].
  - right. left. split; [done|]. apply Hnever; [by rewrite Hf..|]. intros Hi.
    apply (ran_put _ _ _ _ _ _ I), (co_known _ _ _ _ _ _ _ _ C) in Hi. rewrite Hf in Hi. by destruct Hi.
  - destruct (co_finished _ _ _ _ _ _ _ _ C _ _ Hf) as [?|[Hi Href]]; [by left|]. right. left.
    split; [done|]. by apply Hnever; [rewrite Hf..|].
  - right. right. split; [done|]. destruct f as [| | | |r'] eqn:Ef; [done|..].
    + right. left. by apply (co_running _ _ _ _ _ _ _ _ C).
    + right. right. apply Hnever; [by rewrite Hf..|]. apply (co_cancelled _ _ _ _ _ _ _ _ C). auto.
    + right. right. apply Hnever; [by rewrite Hf..|]. apply (co_cancelled _ _ _ _ _ _ _ _ C). auto.
    + destruct (co_finished _ _ _ _ _ _ _ _ C _ _ Hf) as [?|[Hi Href]]; [left; by eapply ran_with_elem|].
      right. right. by apply Hnever; [rewrite Hf..|].
Qed.

(** C17. A closed actor ends.  Once a closer has put the end marker, or when the
    loop has failed, the owner alone reaches its end in at most [rank s] moves,
    whatever is still queued; and then no call is left without an answer: every
    future that was ever put is resolved. *)
Theorem closing_actor_ends {St V} (operation : nat → St → Reply V * St) q0 puts ran s :
  reached operation q0 puts ran s → ready s →
  ∃ n s', (n ≤ rank s)%nat ∧ own operation n s = Some s' ∧
    (∃ q, a_owner s' = Ended q) ∧
    ∀ i, i ∈ puts → ∃ f, a_futures s' !! i = Some f ∧ done f = true.
Proof.
  intros R Hr. destruct (ready_ends operation s Hr) as (n&s'&Hn&Ho&Hr'&He). exists n, s'.
  split; [done|]. split; [done|]. destruct (a_owner s') as [| | | | | | | | | | |q|q] eqn:Eo; try done;
    [|by unfold ready in Hr'; rewrite Eo in Hr'].
  split; [by eexists|]. intros i Hi.
  destruct (own_reached _ _ _ _ _ _ _ R Ho) as (ran'&I%reached_inv).
  destruct (ended_settles _ _ _ _ _ q i I Eo) as [H1 H2].
  apply (co_known _ _ _ _ _ _ _ _ (iv_calls _ _ _ _ _ I)) in Hi as [f Hf]. exists f. split; [done|].
  rewrite Hf in H1, H2. by destruct f.
Qed.

(** ** Schedules *)

Lemma run_moves_reached {St V} (operation : nat → St → Reply V * St) q0 ms puts ran s puts' ran' s' :
  reached operation q0 puts ran s → Forall (λ m, ∀ q, m = Open (Ok q) → q = q0) ms →
  run_moves operation ms (puts, ran, s) = Some (puts', ran', s') → reached operation q0 puts' ran' s'.
Proof.
  intros R H. revert puts ran s R. induction H as [|m ms Hm _ IH]; intros puts ran s R E; simpl in E.
  - by injection E as <- <- <-.
  - destruct (move operation m s) as [s1|] eqn:Em; [|done]. simpl in E. eapply IH; [|exact E]. by eapply reached_move.
Qed.

(** Three calls of the queue: two messages are sent and one batch is claimed. *)
Definition toy_operation (i : nat) (q : Messages) : Reply unit * Messages :=
  match q_ops !! i with
  | Some op => let '(r, q') := run_queue op q in (Replies r, q')
  | None => (Dies, q)
  end.

(** The first call is answered; the second expires in the queue and is cancelled; the
    third is pending when the actor closes. *)
Definition toy_schedule : list (Move (St := Messages)) :=
  [Open (Ok ∅); Own; Own; Call 0; Call 1; Own; Own; Own; Own; Own; Caller_ 0 false; Caller_ 1 true;
   Caller_ 1 true; Call 2; Close 7; Closer_ 7 false; Closer_ 7 false; Closer_ 7 false; Closer_ 7 false].
Definition toy_history : list nat * list nat * State Messages unit := Eval vm_compute in
  default ([], [], start) (run_moves toy_operation toy_schedule ([], [], start)).

Lemma toy_reached : reached toy_operation ∅ toy_history.1.1 toy_history.1.2 toy_history.2.
Proof.
  eapply (run_moves_reached toy_operation ∅ toy_schedule [] [] start); [constructor|..].
  - repeat (constructor; [by intros q [=]|]). constructor.
  - vm_compute. reflexivity.
Qed.

Lemma calls_are_serialized_witness :
  toy_history.1 = ([0; 1; 2], [0])%nat ∧ a_callers toy_history.2 !! 1%nat = Some (Returned (Err TimeoutError)) ∧
  queue_of (a_owner toy_history.2) = Some (run_ops toy_operation ∅ [0%nat]).
Proof.
  pose proof (calls_are_serialized toy_operation ∅ _ _ _ toy_reached) as (_&_&Hq&_).
  split; [reflexivity|]. split; [vm_compute; reflexivity|]. exact (f_equal Some Hq).
Defined.

Lemma closing_actor_ends_witness :
  ∃ n s', own toy_operation n toy_history.2 = Some s' ∧ (∃ q, a_owner s' = Ended q) ∧
    ∃ f, a_futures s' !! 2%nat = Some f ∧ done f = true.
Proof.
  destruct (closing_actor_ends toy_operation ∅ _ _ _ toy_reached) as (n&s'&_&Ho&He&Hf).
  - vm_compute. split; [left|reflexivity].
  - exists n, s'. split; [exact Ho|]. split; [exact He|]. apply Hf. vm_compute. right. right. left.
Defined.

(** ** Races on a cancelled future *)

(** A caller may cancel between the test of [_fail_pending] and its [set_exception]:
    then [close] raises InvalidStateError without an end marker in the queue, and the
    owner waits for ever. *)
Definition close_race : list (Move (St := Messages)) :=
  [Open (Ok ∅); Own; Own; Call 0; Caller_ 0 true; Close 7; Closer_ 7 false; Caller_ 0 true; Closer_ 7 false].

Definition close_race_history : list nat * list nat * State Messages unit := Eval vm_compute in
  default ([], [], start) (run_moves toy_operation close_race ([], [], start)).

Lemma close_race_reached :
  reached toy_operation ∅ close_race_history.1.1 close_race_history.1.2 close_race_history.2.
Proof.
  eapply (run_moves_reached toy_operation ∅ close_race [] [] start); [constructor|..].
  - repeat (constructor; [by intros q [=]|]). constructor.
  - vm_compute. reflexivity.
Qed.

(** C18. Closing can fail for good.  When a queued call times out while the actor closes,
    [close] may raise InvalidStateError; the owner then waits in [_requests.get()] with
    nothing queued and no end marker, and as long as nobody closes again, the only
    thing that can happen is that further calls are refused. *)
Theorem close_can_lose_its_marker : ∃ s : State Messages unit,
  reached toy_operation ∅ [0%nat] [] s ∧
  a_closers s !! 7%nat = Some (Raises InvalidStateError) ∧
  a_owner s = Getting ∅ ∧ a_requests s = [] ∧ a_phase s = P_closing ∧
  ∀ m s', move toy_operation m s = Some s' → (∀ k, m ≠ Close k) →
    ∃ i, m = Call i ∧ a_callers s' !! i = Some (Returned (Err ActorClosedError)).
Proof.
  exists close_race_history.2. split; [exact close_race_reached|]. do 4 (split; [vm_compute; reflexivity|]).
  intros m s' H Hm. set (s := close_race_history.2) in *.
  assert (Ec : a_closers s = {[7%nat := Raises InvalidStateError]}) by (vm_compute; reflexivity).
  assert (Ea : a_callers s = {[0%nat := Returned (Err TimeoutError)]}) by (vm_compute; reflexivity).
  destruct m as [q| |i|i b|k|k b]; simpl in H.
  - discriminate H.
  - discriminate H.
  - exists i. split; [done|]. unfold call in H. destruct (free s && _); [|done].
    assert (bool_decide (a_phase s = P_running) = false) as Hp by (vm_compute; reflexivity).
    rewrite Hp in H. injection H as <-. apply lookup_insert_eq.
  - unfold caller_move in H. rewrite Ea in H. destruct (decide (i = 0%nat)) as [->|Hne].
    + by rewrite lookup_singleton_eq in H.
    + by rewrite lookup_singleton_ne in H.
  - by destruct (Hm k).
  - unfold closer_move in H. rewrite Ec in H. destruct (decide (k = 7%nat)) as [->|Hne].
    + by rewrite lookup_singleton_eq in H.
    + by rewrite lookup_singleton_ne in H.
Qed.

(** The same race in the loop: a request in the owner's hand is cancelled after the
    owner saw that the actor is closing, and the closed actor reports that it died. *)
Example closing_can_look_like_death :
  (λ x, (a_fatal_error x.2, a_callers x.2 !! 1%nat)) <$>
    run_moves toy_operation [Open (Ok ∅); Own; Own; Call 0; Own; Close 7; Closer_ 7 false; Own;
      Caller_ 0 true; Caller_ 0 true; Own; Own; Own; Own; Call 1] ([], [], start) =
  Some (Some ActorDiedError, Some (Returned (Err ActorDiedError))).
Proof. vm_compute. reflexivity. Qed.
