(* ===== verification/GoldTime.v ===== *)
(** * sjd_gold.py: instants, dates and their texts

    The gold builder converts every timestamp to an aware datetime in UTC: a number
    of microseconds since the Unix epoch, within the range of [datetime].  Dates are
    proleptic Gregorian ordinals, as [date.toordinal] has them.  What [fromisoformat]
    accepts differs between the supported versions of Python, so it is a parameter. *)
From S2P Require Export Prelude PyFloat PyRound PyDict PyVal PyNum.

Module Instants.
Open Scope Z_scope.

Definition us_second : Z := 1000000.
Definition us_minute : Z := 60 * us_second.
Definition us_hour : Z := 60 * us_minute.
Definition us_day : Z := 24 * us_hour.

(** [datetime.min] and [datetime.max] in UTC. *)
Definition min_instant : Z := -62135596800 * us_second.
Definition max_instant : Z := 253402300800 * us_second - 1.
Definition in_range (t : Z) : bool := (min_instant <=? t) && (t <=? max_instant).

(** [t.date().toordinal()], [t.hour], [t.minute]. *)
Definition date_of (t : Z) : Z := 719163 + t / us_day.
Definition hour_of (t : Z) : Z := t mod us_day / us_hour.
Definition minute_of (t : Z) : Z := t mod us_hour / us_minute.

(** [t.replace(second=0, microsecond=0)] and [t.replace(minute=0, second=0,
    microsecond=0)]. *)
Definition floor_minute (t : Z) : Z := t - t mod us_minute.
Definition floor_hour (t : Z) : Z := t - t mod us_hour.

(** ** The calendar *)

Definition is_leap (y : Z) : bool := (y mod 4 =? 0) && (negb (y mod 100 =? 0) || (y mod 400 =? 0)).

Definition days_in_month (y m : Z) : Z :=
  nth (Z.to_nat (m - 1)) [31; (if is_leap y then 29 else 28); 31; 30; 31; 30; 31; 31; 30; 31; 30; 31] 0.

Definition days_before_month (y m : Z) : Z :=
  nth (Z.to_nat (m - 1)) [0; 31; 59; 90; 120; 151; 181; 212; 243; 273; 304; 334] 0
  + Z.b2z ((2 <? m) && is_leap y).

Definition days_before_year (y : Z) : Z :=
  let p := y - 1 in p * 365 + p / 4 - p / 100 + p / 400.

(** [date(y, m, d).toordinal()]. *)
Definition ymd2ord (y m d : Z) : Z := days_before_year y + days_before_month y m + d.

(** [date.fromordinal(n)]: year, month and day. *)
Definition ord2ymd (n : Z) : Z * Z * Z :=
  let n := n - 1 in
  let n400 := n / 146097 in let n := n mod 146097 in
  let n100 := n / 36524 in let n := n mod 36524 in
  let n4 := n / 1461 in let n := n mod 1461 in
  let n1 := n / 365 in let n := n mod 365 in
  let year := n400 * 400 + 1 + n100 * 100 + n4 * 4 + n1 in
  if (n1 =? 4) || (n100 =? 4) then (year - 1, 12, 31) else
  let month := Z.shiftr (n + 50) 5 in
  let preceding := days_before_month year month in
  let '(month, preceding) :=
    if n <? preceding then (month - 1, preceding - days_in_month year (month - 1))
    else (month, preceding) in
  (year, month, n - preceding + 1).

Example ord2ymd_examples :
  ord2ymd 719163 = (1970, 1, 1) ∧ ord2ymd 1 = (1, 1, 1) ∧ ord2ymd 3652059 = (9999, 12, 31) ∧
  ord2ymd (ymd2ord 2024 2 29) = (2024, 2, 29) ∧ ord2ymd (ymd2ord 2026 10 1) = (2026, 10, 1).
Proof. vm_compute. repeat split. Qed.

(** A decimal with at least [w] digits, padded with zeros. *)
Definition zero_padded (w : nat) (z : Z) : list Z :=
  let ds := dec_digits z in repeat 48 (w - length ds) ++ ds.

Definition date_codes (n : Z) : list Z :=
  let '(y, m, d) := ord2ymd n in
  zero_padded 4 y ++ 45 :: zero_padded 2 m ++ 45 :: zero_padded 2 d.

(** [date.isoformat()]. *)
Definition date_isoformat (n : Z) : string := str_of_codes (date_codes n).

(** [datetime.isoformat()] of an instant in UTC, up to its offset. *)
Definition instant_codes (t : Z) : list Z :=
  let us := t mod us_second in
  date_codes (date_of t) ++ 84 :: zero_padded 2 (hour_of t) ++ 58 :: zero_padded 2 (minute_of t)
  ++ 58 :: zero_padded 2 (t mod us_minute / us_second)
  ++ (if us =? 0 then [] else 46 :: zero_padded 6 us).

Definition isoformat (t : Z) : string := str_of_codes (instant_codes t ++ codes_of_str "+00:00").

Definition _iso (t : Z) : string := str_of_codes (instant_codes t ++ codes_of_str "Z").

Example iso_examples :
  _iso 0 = "1970-01-01T00:00:00Z"%string ∧
  isoformat (1790846430 * us_second + 500) = "2026-10-01T09:20:30.000500+00:00"%string ∧
  date_isoformat (date_of (-1)) = "1969-12-31"%string.
Proof. vm_compute. repeat split. Qed.

(** [t.date().isoformat()], the name of a partition. *)
Definition day_of (t : Z) : string := date_isoformat (date_of t).

Definition _hour (t : Z) : string := _iso (floor_hour t).

(** ** Floats as times *)

(** Seconds as microseconds: the integral part exactly, the fraction times [1e6] in
    floating point and then rounded half to even.  [datetime.fromtimestamp] and
    [timedelta(seconds=x)] both do this. *)
Definition float_micros (x : Float) : Z :=
  let i := or_else 0 (py_int x) in
  i * us_second + or_else 0 (py_round (fmul (fsub x (float_of_Z i)) (float_of_Z us_second))).

(** [datetime.fromtimestamp(x, timezone.utc)]; every exception is caught. *)
Definition fromtimestamp (x : Float) : option Z :=
  let t := float_micros x in if in_range t then Some t else None.

(** [t + timedelta(seconds=x)]; beyond the range of either class, OverflowError. *)
Definition add_seconds (t : Z) (x : Float) : result Z :=
  let u := t + float_micros x in if in_range u then Ok u else Err OverflowError.

Example float_times :
  fromtimestamp (flit 3 2) = Some 1500000 ∧ fromtimestamp (flit (-1) 4) = Some (-250000) ∧
  fromtimestamp (float_of_Z 253402300800) = None ∧ add_seconds 7 (flit 1 10) = Ok 100007.
Proof. vm_compute. repeat split. Qed.

(** ** Dynamic values as times *)

(** [text.replace("Z", "+00:00")]. *)
Definition replace_zulu (s : string) : string :=
  str_of_codes (concat ((λ z, if z =? 90 then codes_of_str "+00:00" else [z]) <$> codes_of_str s)).

Section texts.
(** [datetime.fromisoformat(s)]: ValueError, a naive datetime ([None]), or an aware
    one as its instant; near the ends of the calendar its conversion to UTC may leave
    the range. *)
Context (fromisoformat : string → result (option Z)).

Definition _optional_datetime (v : pyval) : result (option Z) :=
  match v with
  | VInt _ | VFloat _ =>
      x ← py_float v;
      Ok (if fisfinite x then fromtimestamp x else None)
  | VStr s =>
      if String.eqb s "" then Ok None else
      match fromisoformat (replace_zulu (str_strip s)) with
      | Ok None | Err ValueError => Ok None
      | Ok (Some t) => if in_range t then Ok (Some t) else Err OverflowError
      | Err e => Err e
      end
  | _ => Ok None
  end.

Definition _required_datetime (v : pyval) : result Z :=
  r ← _optional_datetime v;
  match r with Some t => Ok t | None => Err GoldSourceError end.
End texts.

(** A reader of the one form that [isoformat] writes, for concrete runs. *)
Definition number_at (l : list Z) (i n : nat) : Z :=
  fold_left (λ acc d, acc * 10 + (d - 48)) (take n (drop i l)) 0.

Definition plain_fromisoformat (s : string) : result (option Z) :=
  let l := codes_of_str s in
  let t := ((ymd2ord (number_at l 0 4) (number_at l 5 2) (number_at l 8 2) - 719163) * us_day
    + number_at l 11 2 * us_hour + number_at l 14 2 * us_minute + number_at l 17 2 * us_second
    + (if (length l =? 32)%nat then number_at l 20 6 else 0))%Z in
  if String.eqb (isoformat t) s then Ok (Some t) else Err ValueError.

Example plain_examples :
  plain_fromisoformat "2026-10-01T09:20:30.000500+00:00" = Ok (Some (1790846430 * us_second + 500)) ∧
  plain_fromisoformat "2026-10-01" = Err ValueError ∧
  _required_datetime plain_fromisoformat (VStr " 2026-10-01T09:20:30Z ") = Ok (1790846430 * us_second).
Proof. vm_compute. repeat split. Qed.
End Instants.
