(* ===== verification/GoldFacts.v ===== *)
(** * sjd_gold.py: the facts of one date

    The rows of the fact tables of one date partition, from the committed outputs and
    the rows of the control database.  A row is a dict of dynamic values.  The readers
    of metrics and timestamps come first, then flow and video facts
    ([_fact_rows_for_date]), operations facts, and the dates that an output and the
    control rows touch, which decide what a build replaces. *)
From Stdlib Require Import SpecFloat.
From S2P Require Export Json Sha256 GoldTime.

Module Gold.
Export Instants.

Abbreviation Row := (list (string * pyval)).

(** ** Python on dynamic values *)

(** [bool(v)]. *)
Definition truthy (v : pyval) : bool :=
  match v with
  | VNone => false
  | VBool b => b
  | VInt z => negb (z =? 0)%Z
  | VFloat x => negb (feqb x fzero)
  | VStr s => negb (String.eqb s "")
  | VList l => negb (bool_decide (l = []))
  | VDict d => negb (bool_decide (d.*1 = []))
  end.

(** [v is None], [isinstance(v, bool)]. *)
Definition is_none (v : pyval) : bool := match v with VNone => true | _ => false end.
Definition is_bool (v : pyval) : bool := match v with VBool _ => true | _ => false end.

(** [v or w], [d.get(k, w)], [a | b]. *)
Definition py_or (v w : pyval) : pyval := if truthy v then v else w.
Definition dict_get_or (k : string) (w : pyval) (d : Row) : pyval := default w (dict_lookup k d).
Definition dict_or (a b : Row) : Row := fold_left (λ d kv, dict_put kv.1 kv.2 d) b a.

(** [int(v)]. *)
Definition py_int_val (v : pyval) : result Z :=
  match v with
  | VInt z => Ok z
  | VBool b => Ok (Z.b2z b)
  | VFloat x => py_int x
  | VStr s => py_int_of_text s
  | _ => Err TypeError
  end.

(** A stable sort, [sorted(l, key=...)] with the order of the keys. *)
Fixpoint insert_by {A} (leb : A → A → bool) (x : A) (l : list A) : list A :=
  match l with
  | [] => [x]
  | y :: l' => if leb x y then x :: l else y :: insert_by leb x l'
  end.
Definition sort_by {A} (leb : A → A → bool) (l : list A) : list A := foldr (insert_by leb) [] l.

(** [for x in l: a = f(a, x)], stopping at an exception. *)
Fixpoint fold_result {A B} (f : A → B → result A) (l : list B) (a : A) : result A :=
  match l with
  | [] => Ok a
  | x :: l' => a' ← f a x; fold_result f l' a'
  end.

(** [sorted(set(l))] of texts: a set of texts is kept sorted and without repetition. *)
Definition sorted_set (l : list string) : list string := sort_by str_leb (remove_dups l).

Definition _canonical_json (v : pyval) : result string := json_dumps true v.
Definition _sha256_json (v : pyval) : result string := sha256_text <$> _canonical_json v.

(** ** Metrics and required values *)

(** A handler of TypeError and ValueError that raises GoldSourceError. *)
Definition numeric {A} (r : result A) : result A :=
  match r with
  | Err TypeError | Err ValueError => Err GoldSourceError
  | _ => r
  end.

Definition _optional_float (v : pyval) : result (option Float) :=
  if is_none v then Ok None else
  if is_bool v then Err GoldSourceError else
  x ← numeric (py_float v);
  if negb (fisfinite x) || fltb x fzero then Err GoldSourceError else Ok (Some x).

(** [x.is_integer()] of a finite float. *)
Definition is_integer (x : Float) : bool :=
  match float_ratio x with Some (n, d) => (n mod d =? 0)%Z | None => false end.

Definition _optional_int (v : pyval) : result (option Z) :=
  if is_none v then Ok None else
  if is_bool v then Err GoldSourceError else
  x ← numeric (py_float v);
  if negb (fisfinite x) || fltb x fzero || negb (is_integer x) then Err GoldSourceError
  else Some <$> py_int x.

Definition of_opt {A} (f : A → pyval) (o : option A) : pyval := from_option f VNone o.

Definition _required_value (d : Row) (name : string) : result pyval :=
  let v := dict_get name d in
  if is_none v || py_eqb v (VStr "") then Err GoldSourceError else Ok v.


(** [_coalesce]: the first value that is not None. *)
Definition _coalesce (mappings : list Row) (names : list string) : pyval :=
  let vs := concat ((λ name, dict_get name <$> mappings) <$> names) in
  default VNone (head (filter (λ v, is_none v = false) vs)).

(** ** Committed outputs *)

Record CommittedOutput := {
  co_work_id : string;
  co_attempt_id : string;
  co_publication_sequence : Z;
  co_published_at : option Z;
  co_work : Row;
  co_attempt : Row;
  co_run : Row;
  co_line_counts : list Row;
}.

(** What the builder reads of the control database: [work] and the join of
    [attempts] with its batch, work and publication. *)
Record Control := { ct_work : list Row; ct_attempts : list Row }.

(** A group of flow facts: its key is the start of the minute or hour, the minute of
    the day, camera and location. *)
Record Flow := { fl_entries : Z; fl_exits : Z; fl_works : list string }.

Abbreviation FlowKey := (string * Z * string * string)%type.
Abbreviation Groups := (list (FlowKey * Flow)).

Section facts.
Context (fromisoformat : string → result (option Z)).
Abbreviation required_datetime := (_required_datetime fromisoformat).

(** [_first_datetime(mapping, names, required=False)]. *)
Fixpoint _first_datetime (d : Row) (names : list string) : result (option Z) :=
  match names with
  | [] => Ok None
  | name :: names' =>
      let v := dict_get name d in
      if is_none v then _first_datetime d names' else Some <$> required_datetime v
  end.

Definition _output_captured_at (o : CommittedOutput) : result (option Z) :=
  let v := _coalesce [co_run o; co_work o] ["captured_at_utc"%string] in
  if is_none v then Ok (co_published_at o) else Some <$> required_datetime v.

Definition _line_observed_at (line : Row) (captured_at : Z) : result Z :=
  let absolute := dict_get "observed_at_utc" line in
  if negb (is_none absolute) then required_datetime absolute else
  let relative := dict_get "video_seconds" line in
  if is_bool relative then Err GoldSourceError else
  seconds ← numeric (py_float relative);
  if negb (fisfinite seconds) || fltb seconds fzero then Err GoldSourceError
  else add_seconds captured_at seconds.

(** ** Flow facts *)

Definition no_flow : Flow := {| fl_entries := 0; fl_exits := 0; fl_works := [] |}.

Definition set_add (x : string) (l : list string) : list string := if decide (x ∈ l) then l else l ++ [x].

Definition _add_flow_group (groups : Groups) (key : FlowKey) (work_id : string) (entries exits : Z) : Groups :=
  let g := default no_flow (dget key groups) in
  dset key {| fl_entries := fl_entries g + entries; fl_exits := fl_exits g + exits;
              fl_works := set_add work_id (fl_works g) |} groups.

Definition flow_key_leb (a b : FlowKey) : bool :=
  let '(t1, k1, c1, l1) := a in
  let '(t2, k2, c2, l2) := b in
  if negb (String.eqb t1 t2) then str_leb t1 t2
  else if negb (k1 =? k2)%Z then (k1 <=? k2)%Z
  else if negb (String.eqb c1 c2) then str_leb c1 c2
  else str_leb l1 l2.

Definition flow_row (timestamp_column partition_date refreshed_at : string) (g : FlowKey * Flow) : Row :=
  let '((timestamp, time_key, camera, location), v) := g in
  [(timestamp_column, VStr timestamp);
   ("time_key", VInt time_key);
   ("camera_id", VStr camera);
   ("location_id", VStr location);
   ("entries", VInt (fl_entries v));
   ("exits", VInt (fl_exits v));
   ("net_flow", VInt (fl_entries v - fl_exits v));
   ("source_videos", VInt (Z.of_nat (length (fl_works v))));
   ("refreshed_at", VStr refreshed_at);
   ("flow_date", VStr partition_date)]%string.

Definition _flow_rows (groups : Groups) (timestamp_column partition_date refreshed_at : string) : list Row :=
  flow_row timestamp_column partition_date refreshed_at
  <$> sort_by (λ a b, flow_key_leb a.1 b.1) groups.

(** One line count of a date: its minute, hour, camera, location and counts. *)
Record LineFlow := {
  lf_minute : FlowKey;
  lf_hour : FlowKey;
  lf_entries : Z;
  lf_exits : Z;
}.

Definition line_flow (camera location partition_date : string) (captured : Z) (line : Row)
    : result (option LineFlow) :=
  observed ← _line_observed_at line captured;
  if negb (String.eqb (day_of observed) partition_date) then Ok None else
  entries ← _optional_int (dict_get_or "frame_in_count" (dict_get_or "entries" (VInt 0) line) line);
  exits ← _optional_int (dict_get_or "frame_out_count" (dict_get_or "exits" (VInt 0) line) line);
  let line_camera := py_str (py_or (dict_get "camera_id" line) (VStr camera)) in
  let line_location := py_str (py_or (dict_get "location_id" line) (VStr location)) in
  let minute := floor_minute observed in
  let hour := floor_hour minute in
  Ok (Some {|
    lf_minute := (_iso minute, hour_of minute * 60 + minute_of minute, line_camera, line_location)%Z;
    lf_hour := (_iso hour, hour_of hour * 60, line_camera, line_location)%Z;
    lf_entries := default 0%Z entries;
    lf_exits := default 0%Z exits |}).

(** ** Video facts *)

Definition video_row (o : CommittedOutput) (metadata : Row) (captured : Z)
    (camera location partition_date : string) : result Row :=
  duration ← _optional_float
    (dict_get_or "duration_seconds" (dict_get "video_duration_seconds" metadata) metadata);
  processing ← _optional_float
    (dict_get_or "processing_seconds" (dict_get "processing_seconds" (co_attempt o)) metadata);
  config ← _required_value metadata "config_sha256";
  people ← _optional_int (dict_get "distinct_people" metadata);
  line_in ← _optional_int (dict_get "line_in_count" metadata);
  line_out ← _optional_int (dict_get "line_out_count" metadata);
  completed ← _first_datetime (dict_or metadata (co_attempt o))
    ["completed_at"; "sealed_at"; "published_at"; "batch_committed_at"]%string;
  let completed := match completed with Some t => Some t | None => co_published_at o end in
  Ok [("work_id", VStr (co_work_id o));
      ("captured_at_utc", VStr (_iso captured));
      ("time_key", VInt (hour_of captured * 60 + minute_of captured));
      ("camera_id", VStr camera);
      ("location_id", VStr location);
      ("config_sha256", VStr (py_str config));
      ("video_duration_seconds", of_opt VFloat duration);
      ("processing_seconds", of_opt VFloat processing);
      ("speed_x_realtime",
        match duration, processing with
        | Some d, Some p => if fltb fzero d && fltb fzero p then VFloat (fdiv d p) else VNone
        | _, _ => VNone
        end);
      ("distinct_people", of_opt VInt people);
      ("line_in_count", of_opt VInt line_in);
      ("line_out_count", of_opt VInt line_out);
      ("completed_at", of_opt (λ t, VStr (_iso t)) completed);
      ("capture_date", VStr partition_date)]%string.

(** The groups and videos collected so far. *)
Record Collected := {
  cl_minutes : Groups;
  cl_hours : Groups;
  cl_videos : list (string * Row);
}.

Definition add_line (work_id : string) (c : Collected) (f : LineFlow) : Collected := {|
  cl_minutes := _add_flow_group (cl_minutes c) (lf_minute f) work_id (lf_entries f) (lf_exits f);
  cl_hours := _add_flow_group (cl_hours c) (lf_hour f) work_id (lf_entries f) (lf_exits f);
  cl_videos := cl_videos c |}.

Definition add_video (work_id : string) (c : Collected) (r : Row) : Collected := {|
  cl_minutes := cl_minutes c;
  cl_hours := cl_hours c;
  cl_videos := cl_videos c ++ [(work_id, r)] |}.

(** What one output adds to a date: its lines on that date and, if it was captured
    on it, a video. *)
Definition output_facts (partition_date : string) (o : CommittedOutput)
    : result (list LineFlow * option Row) :=
  let metadata := dict_or (co_work o) (co_run o) in
  captured ← _output_captured_at o;
  match captured with
  | None => Ok ([], None)
  | Some captured =>
      if is_none (dict_get "camera_id" metadata) || is_none (dict_get "location_id" metadata)
      then Ok ([], None) else
      let camera := py_str (dict_get "camera_id" metadata) in
      let location := py_str (dict_get "location_id" metadata) in
      flows ← map_result (line_flow camera location partition_date captured) (co_line_counts o);
      video ← (if String.eqb (day_of captured) partition_date
               then Some <$> video_row o metadata captured camera location partition_date
               else Ok None);
      Ok (omap (M:=list) (λ f : option LineFlow, f) flows, video)
  end.

Definition collect (partition_date : string) (c : Collected) (o : CommittedOutput) : result Collected :=
  x ← output_facts partition_date o;
  let c := fold_left (add_line (co_work_id o)) x.1 c in
  Ok (match x.2 with Some r => add_video (co_work_id o) c r | None => c end).


(** ** Operations facts *)

Definition _FAILED_ATTEMPT_STATUSES : list string :=
  ["FAILED"; "RETRY_WAIT"; "TERMINAL_FAILED"; "DEAD_LETTERED"; "LEASE_LOST"; "EXPIRED"]%string.
Definition _DEFERRED_ATTEMPT_STATUSES : list string := ["RELEASED"%string].

Definition str_in (s : string) (l : list string) : bool := existsb (String.eqb s) l.

Record Operations := {
  op_queued : Z;
  op_started : Z;
  op_succeeded : Z;
  op_failed : Z;
  op_deferred : Z;
  op_video_hours : Float;
  op_processing : list Float;
}.

Definition no_operations : Operations := {|
  op_queued := 0; op_started := 0; op_succeeded := 0; op_failed := 0; op_deferred := 0;
  op_video_hours := fzero; op_processing := [] |}.

Definition op_plus (queued started succeeded failed deferred : Z) (g : Operations) : Operations := {|
  op_queued := op_queued g + queued;
  op_started := op_started g + started;
  op_succeeded := op_succeeded g + succeeded;
  op_failed := op_failed g + failed;
  op_deferred := op_deferred g + deferred;
  op_video_hours := op_video_hours g;
  op_processing := op_processing g |}.

Definition op_add_hours (x : Float) (g : Operations) : Operations := {|
  op_queued := op_queued g; op_started := op_started g; op_succeeded := op_succeeded g;
  op_failed := op_failed g; op_deferred := op_deferred g;
  op_video_hours := fadd (op_video_hours g) x; op_processing := op_processing g |}.

Definition op_add_processing (x : option Float) (g : Operations) : Operations := {|
  op_queued := op_queued g; op_started := op_started g; op_succeeded := op_succeeded g;
  op_failed := op_failed g; op_deferred := op_deferred g; op_video_hours := op_video_hours g;
  op_processing := op_processing g ++ option_list x |}.

(** A defaultdict: the first access to an hour makes its group. *)
Abbreviation Hours := (list (string * Operations)).
Definition at_hour (t : Z) (f : Operations → Operations) (groups : Hours) : Hours :=
  dset (_hour t) (f (default no_operations (dget (_hour t) groups))) groups.

Definition on_date (t : option Z) (partition_date : string) : option Z :=
  match t with
  | Some t => if String.eqb (day_of t) partition_date then Some t else None
  | None => None
  end.

Definition count_work (partition_date : string) (groups : Hours) (work : Row) : result Hours :=
  timestamp ← _first_datetime work ["queued_at"; "queue_entered_at"; "created_at"]%string;
  Ok (match on_date timestamp partition_date with
      | Some t => at_hour t (op_plus 1 0 0 0 0) groups
      | None => groups
      end).

(** [{item.attempt_id: item for item in committed}.get(attempt_id)]: the last wins. *)
Definition committed_of (committed : list CommittedOutput) (attempt_id : string) : option CommittedOutput :=
  last (filter (λ o, String.eqb (co_attempt_id o) attempt_id = true) committed).

(** The columns that date the end of an attempt. *)
Definition completion_names (succeeded : bool) (status : string) : list string :=
  if succeeded then ["published_at"; "batch_completed_at"; "completed_at"]%string
  else (if String.eqb status "EXPIRED" then ["batch_expired_at"; "work_updated_at"]
        else if str_in status _FAILED_ATTEMPT_STATUSES
             then ["failed_at"; "batch_completed_at"; "work_updated_at"] else [])%string
       ++ ["completed_at"; "batch_completed_at"; "sealed_at"; "batch_sealed_at"]%string.

(** The branches of the status; [run] is the run of the output if it succeeded. *)
Definition end_of_attempt (run : option Row) (status : string) (attempt : Row) (g : Operations)
    : result Operations :=
  match run with
  | Some run =>
      duration ← _optional_float
        (dict_get_or "duration_seconds" (dict_get "source_duration_seconds" attempt) run);
      Ok (op_add_hours (fdiv (default fzero duration) (float_of_Z 3600)) (op_plus 0 0 1 0 0 g))
  | None =>
      Ok (if str_in status _FAILED_ATTEMPT_STATUSES then op_plus 0 0 0 1 0 g
          else if str_in status _DEFERRED_ATTEMPT_STATUSES then op_plus 0 0 0 0 1 g else g)
  end.

Definition count_attempt (committed : list CommittedOutput) (partition_date : string)
    (groups : Hours) (attempt : Row) : result Hours :=
  claimed ← _first_datetime attempt ["claimed_at"; "created_at"]%string;
  let groups := match on_date claimed partition_date with
                | Some t => at_hour t (op_plus 0 1 0 0 0) groups
                | None => groups
                end in
  let status := py_str (py_or (dict_get "status" attempt) (VStr "")) in
  let attempt_id := py_str (py_or (dict_get "attempt_id" attempt) (VStr "")) in
  let output := committed_of committed attempt_id in
  let succeeded := if String.eqb status "SUCCEEDED" then co_run <$> output else None in
  completed ← _first_datetime attempt (completion_names (bool_decide (is_Some succeeded)) status);
  match on_date completed partition_date with
  | None => Ok groups
  | Some t =>
      g ← end_of_attempt succeeded status attempt (default no_operations (dget (_hour t) groups));
      processing ← _optional_float
        (if negb (is_none (dict_get "processing_seconds" attempt))
         then dict_get "processing_seconds" attempt
         else match output with Some o => dict_get "processing_seconds" (co_run o) | None => VNone end);
      Ok (dset (_hour t) (op_add_processing processing g) groups)
  end.

(** [math.fsum(l)] of finite floats: the exact sum, rounded once. *)
Definition fsum (l : list Float) : result Float :=
  let scaled := omap (λ x, match x with
    | S754_finite s m e => Some ((if s then Zneg m else Zpos m), e) | _ => None end) l in
  let low := fold_left (λ a ze, Z.min a ze.2) scaled 0%Z in
  let total := fold_left (λ a ze, a + Z.shiftl ze.1 (ze.2 - low))%Z scaled 0%Z in
  let x := binary_normalize prec emax total low false in
  if fisfinite x then Ok x else Err OverflowError.

(** [statistics.fmean(l)] of a non-empty list. *)
Definition fmean (l : list Float) : result Float :=
  x ← fsum l; Ok (fdiv x (float_of_Z (Z.of_nat (length l)))).

Definition _percentile (values : list Float) (quantile : Float) : result (option Float) :=
  match values with
  | [] => Ok None
  | _ =>
      let ordered := sort_by fleb values in
      n ← py_ceil (fmul (float_of_Z (Z.of_nat (length ordered))) quantile);
      match ordered !! Z.to_nat (Z.max 0 (n - 1)) with
      | Some x => Ok (Some x)
      | None => Err IndexError
      end
  end.

Definition operations_row (partition_date refreshed_at : string) (kg : string * Operations) : result Row :=
  let g := kg.2 in
  timestamp ← required_datetime (VStr kg.1);
  average ← (match op_processing g with [] => Ok None | l => Some <$> fmean l end);
  p95 ← _percentile (op_processing g) (flit 95 100);
  Ok [("hour_utc", VStr kg.1);
      ("time_key", VInt (hour_of timestamp * 60));
      ("queued", VInt (op_queued g));
      ("started", VInt (op_started g));
      ("succeeded", VInt (op_succeeded g));
      ("failed", VInt (op_failed g));
      ("deferred", VInt (op_deferred g));
      ("video_hours_completed", VFloat (op_video_hours g));
      ("average_processing_seconds", of_opt VFloat average);
      ("p95_processing_seconds", of_opt VFloat p95);
      ("refreshed_at", VStr refreshed_at);
      ("operation_date", VStr partition_date)]%string.

Definition _operations_rows (control : Control) (committed : list CommittedOutput)
    (partition_date refreshed_at : string) : result (list Row) :=
  g ← fold_result (count_work partition_date) (ct_work control) [];
  g ← fold_result (count_attempt committed partition_date) (ct_attempts control) g;
  map_result (operations_row partition_date refreshed_at) (sort_by (λ a b, str_leb a.1 b.1) g).

(** ** The facts of a date *)

Record Facts := {
  ft_flow_minute : list Row;
  ft_flow_hour : list Row;
  ft_video : list Row;
  ft_operations_hour : list Row;
}.

Definition nothing_collected : Collected := {| cl_minutes := []; cl_hours := []; cl_videos := [] |}.

Definition _fact_rows_for_date (committed : list CommittedOutput) (control : Control)
    (partition_date refreshed_at : string) : result Facts :=
  c ← fold_result (collect partition_date) committed nothing_collected;
  operations ← _operations_rows control committed partition_date refreshed_at;
  Ok {| ft_flow_minute := _flow_rows (cl_minutes c) "minute_utc" partition_date refreshed_at;
        ft_flow_hour := _flow_rows (cl_hours c) "hour_utc" partition_date refreshed_at;
        ft_video := snd <$> sort_by (λ a b, str_leb a.1 b.1) (cl_videos c);
        ft_operations_hour := operations |}.

(** ** The dates that a source touches *)

Definition _output_dates (o : CommittedOutput) : result (list string) :=
  captured ← _output_captured_at o;
  match captured with
  | None => Ok []
  | Some captured =>
      lines ← map_result (λ line, day_of <$> _line_observed_at line captured) (co_line_counts o);
      Ok (day_of captured :: lines)
  end.

Definition work_date_columns : list string :=
  ["queued_at"; "queue_entered_at"; "created_at"; "available_at"; "updated_at"]%string.
Definition attempt_date_columns : list string :=
  ["claimed_at"; "created_at"; "sealed_at"; "batch_sealed_at"; "failed_at"; "completed_at";
   "batch_completed_at"; "batch_expired_at"; "work_updated_at"; "published_at"]%string.

Definition column_date (cutoff : option Z) (row : Row) (column : string) : result (list string) :=
  if String.eqb column "batch_expired_at"
     && negb (String.eqb (py_str (py_or (dict_get "status" row) (VStr ""))) "EXPIRED")
  then Ok [] else
  timestamp ← _optional_datetime fromisoformat (dict_get column row);
  match timestamp with
  | None => Ok []
  | Some t =>
      match cutoff with
      | Some c => Ok (if (c <=? t)%Z then [day_of t] else [])
      | None => Ok [day_of t]
      end
  end.

Definition row_dates (cutoff : option Z) (columns : list string) (row : Row) : result (list string) :=
  ds ← map_result (column_date cutoff row) columns; Ok (concat ds).

Definition _control_dates (control : Control) (cutoff : option Z) : result (list string) :=
  works ← map_result (row_dates cutoff work_date_columns) (ct_work control);
  attempts ← map_result (row_dates cutoff attempt_date_columns) (ct_attempts control);
  Ok (concat works ++ concat attempts).
End facts.
End Gold.
