(* ===== verification/GoldStore.v ===== *)
(** * sjd_gold.py: gold tables, checkpoints and the refresh outbox

    [LocalJsonGoldStore] keeps one JSON document per table, replaced atomically: a
    version and the rows.  [SQLiteGoldState] keeps, in the control database, one
    checkpoint per stage and an outbox of refresh signals for the semantic model. *)
From S2P Require Export GoldFacts.

Module Store.
Export Gold.

(** ** [LocalJsonGoldStore] *)

(** A file holds a JSON document, or text that json.loads refuses. *)
Inductive TableFile := Document (v : pyval) | Unreadable.

(** The files of the root directory, by table name. *)
Abbreviation Tables := (gmap string TableFile).

Definition name_char (z : Z) : bool :=
  ((97 <=? z) && (z <=? 122) || (48 <=? z) && (z <=? 57) || (z =? 95))%Z.

Definition _path (name : string) : result unit :=
  require (negb (String.eqb name "") && forallb name_char (codes_of_str name)) ValueError.

Definition no_table : Row := [("version", VInt 0); ("rows", VList [])]%string.

Definition _read_payload (name : string) : tx Tables Row := λ ts,
  match _path name with
  | Err e => (Err e, ts)
  | Ok _ =>
      match ts !! name with
      | None => (Ok no_table, ts)
      | Some (Document (VDict d)) => (Ok d, ts)
      | Some _ => (Err GoldValidationError, ts)
      end
  end.

(** The rows of a list of dicts. *)
Definition as_row (v : pyval) : result Row :=
  match v with VDict d => Ok d | _ => Err GoldValidationError end.
Definition as_rows (v : pyval) : result (list Row) :=
  match v with VList l => map_result as_row l | _ => Err GoldValidationError end.

Definition read_table (name : string) : tx Tables (list Row) :=
  payload ← _read_payload name;
  tx_lift (as_rows (dict_get_or "rows" (VList []) payload)).

Definition version (name : string) : tx Tables Z :=
  payload ← _read_payload name;
  tx_lift (py_int_val (dict_get_or "version" (VInt 0) payload)).

Definition versions (names : list string) : tx Tables (list (string * Z)) :=
  tx_map (λ name, v ← version name; mret (name, v)) names.

Definition document (v : Z) (rows : list Row) : TableFile :=
  Document (VDict [("rows", VList (VDict <$> rows)); ("version", VInt v)])%string.

(** A pending file is renamed over the table: a write happens or does not. *)
Definition _write (name : string) (rows : list Row) : tx Tables unit :=
  v ← version name;
  tx_modify (λ ts, <[name := document (v + 1) rows]> ts).

(** [json.loads(_canonical_json(dict(row)))]; an object is read back as a dict. *)
Definition _jsonable_row (row : Row) : result Row :=
  text ← _canonical_json (VDict row);
  v ← json_loads_text text;
  as_row v.

Definition in_partition (column value : string) (row : Row) : bool :=
  py_eqb (dict_get column row) (VStr value).

Definition replace_partition (name column value : string) (rows : list Row) : tx Tables Z :=
  normalized ← tx_lift (map_result _jsonable_row rows);
  tx_require (forallb (in_partition column value) normalized) ValueError;;
  current ← read_table name;
  let retained := filter (λ row, in_partition column value row = false) current in
  _write name (retained ++ normalized);;
  mret (Z.of_nat (length normalized)).

Definition replace_table (name : string) (rows : list Row) : tx Tables Z :=
  normalized ← tx_lift (map_result _jsonable_row rows);
  _write name normalized;;
  mret (Z.of_nat (length normalized)).

(** ** [SQLiteGoldState] *)

Record SourceCheckpoint := {
  sc_publication_sequence : Z;
  sc_versions : list (string * string);
}.

Definition texts (l : list (string * string)) : pyval := VDict ((λ kv, (kv.1, VStr kv.2)) <$> l).
Definition numbers (l : list (string * Z)) : pyval := VDict ((λ kv, (kv.1, VInt kv.2)) <$> l).

(** [SourceCheckpoint.key]. *)
Definition key (c : SourceCheckpoint) : result string :=
  _sha256_json (VDict [("publication_sequence", VInt (sc_publication_sequence c));
                       ("versions", texts (sc_versions c))])%string.

(** A row of [gold_checkpoints]; the stage is its primary key. *)
Record Checkpoint := {
  ck_source_key : string;
  ck_publication_sequence : Z;
  ck_source_versions_json : string;
  ck_target_versions_json : string;
  ck_completed_at : string;
}.

(** A row of [semantic_refresh_outbox]. *)
Record Signal := {
  sg_outbox_id : Z;
  sg_dedupe_key : string;
  sg_reason : string;
  sg_payload_json : string;
  sg_created_at : string;
  sg_acked : option (string * string);   (* acked_at, acked_by *)
}.

Record GoldState := {
  gs_checkpoints : gmap string Checkpoint;
  gs_outbox : list Signal;
}.

Definition checkpoint (stage : string) (s : GoldState) : option Checkpoint := gs_checkpoints s !! stage.

Definition put_checkpoint (stage : string) (c : Checkpoint) (s : GoldState) : GoldState :=
  {| gs_checkpoints := <[stage := c]> (gs_checkpoints s); gs_outbox := gs_outbox s |}.
Definition put_outbox (l : list Signal) (s : GoldState) : GoldState :=
  {| gs_checkpoints := gs_checkpoints s; gs_outbox := l |}.

(** [INSERT ... ON CONFLICT(stage) DO UPDATE]. *)
Definition _save_checkpoint (stage : string) (source : SourceCheckpoint)
    (target_versions : list (string * Z)) (completed_at : string) : tx GoldState unit :=
  source_key ← tx_lift (key source);
  source_versions ← tx_lift (_canonical_json (texts (sc_versions source)));
  targets ← tx_lift (_canonical_json (numbers target_versions));
  tx_modify (put_checkpoint stage {|
    ck_source_key := source_key;
    ck_publication_sequence := sc_publication_sequence source;
    ck_source_versions_json := source_versions;
    ck_target_versions_json := targets;
    ck_completed_at := completed_at |}).

Definition save_checkpoint (stage : string) (source : SourceCheckpoint)
    (target_versions : list (string * Z)) (now : Z) : tx GoldState unit :=
  transaction (λ s _, s) (_save_checkpoint stage source target_versions (_iso now)).

Definition has_key (dedupe_key : string) (g : Signal) : bool := String.eqb (sg_dedupe_key g) dedupe_key.

(** Checkpoints to save, by stage. *)
Abbreviation Updates := (list (string * (SourceCheckpoint * list (string * Z)))).

Section outbox.
(** AUTOINCREMENT: an id above all ids that were ever in the table; ignored inserts
    may leave gaps. *)
Context (autoincrement : list Signal → Z).

(** [INSERT OR IGNORE] of the signal, then the id of the row with its key. *)
Definition insert_signal (reason : string) (source : SourceCheckpoint)
    (target_versions : list (string * Z)) (created_at : string) : tx GoldState Z :=
  source_key ← tx_lift (key source);
  let payload := VDict [("reason", VStr reason);
                        ("source_key", VStr source_key);
                        ("publication_sequence", VInt (sc_publication_sequence source));
                        ("target_versions", numbers target_versions)]%string in
  dedupe_key ← tx_lift (_sha256_json payload);
  payload_json ← tx_lift (_canonical_json payload);
  s ← tx_get;
  match head (filter (λ g, has_key dedupe_key g = true) (gs_outbox s)) with
  | Some g => mret (sg_outbox_id g)
  | None =>
      let id := autoincrement (gs_outbox s) in
      tx_modify (λ s, put_outbox (gs_outbox s ++ [{|
        sg_outbox_id := id; sg_dedupe_key := dedupe_key; sg_reason := reason;
        sg_payload_json := payload_json; sg_created_at := created_at; sg_acked := None |}]) s);;
      mret id
  end.

Definition enqueue_refresh (reason : string) (source : SourceCheckpoint)
    (target_versions : list (string * Z)) (now : Z) : tx GoldState Z :=
  transaction (λ s _, s) (insert_signal reason source target_versions (_iso now)).

Definition save_checkpoints_and_enqueue (checkpoints : Updates) (reason : option string)
    (refresh_source : SourceCheckpoint) (refresh_target_versions : list (string * Z)) (now : Z)
    : tx GoldState (option Z) :=
  transaction (λ s _, s) (
    tx_for (λ '(stage, (source, targets)), _save_checkpoint stage source targets (_iso now)) checkpoints;;
    match reason with
    | None => mret None
    | Some reason => Some <$> insert_signal reason refresh_source refresh_target_versions (_iso now)
    end).
End outbox.

(** Unacknowledged signals by id, with their decoded payloads. *)
Definition pending_refreshes (s : GoldState) : result (list (Signal * pyval)) :=
  map_result (λ g, payload ← json_loads_text (sg_payload_json g); Ok (g, payload))
    (sort_by (λ a b, sg_outbox_id a <=? sg_outbox_id b)%Z
       (filter (λ g, sg_acked g = None) (gs_outbox s))).

Definition acknowledges (outbox_id : Z) (expected : option string) (g : Signal) : bool :=
  (sg_outbox_id g =? outbox_id)%Z && bool_decide (sg_acked g = None)
  && match expected with Some k => has_key k g | None => true end.

Definition set_acked (a : string * string) (g : Signal) : Signal := {|
  sg_outbox_id := sg_outbox_id g; sg_dedupe_key := sg_dedupe_key g; sg_reason := sg_reason g;
  sg_payload_json := sg_payload_json g; sg_created_at := sg_created_at g; sg_acked := Some a |}.

Definition acknowledge_refresh (outbox_id : Z) (actor : string) (expected : option string) (now : Z)
    : tx GoldState bool :=
  tx_require (negb (String.eqb (str_strip actor) "")) ValueError;;
  s ← tx_get;
  let hit := acknowledges outbox_id expected in
  tx_modify (put_outbox ((λ g, if hit g then set_acked (_iso now, str_strip actor) g else g) <$> gs_outbox s));;
  mret (length (filter (λ g, hit g = true) (gs_outbox s)) =? 1)%nat.
End Store.
