(* ===== verification/GoldSource.v ===== *)
(** * sjd_gold.py: the committed source

    The builder reads the control database and the immutable outputs that committed
    pointers name.  A database is a map of tables, each with its columns and its rows
    in the order of their rowids; a query over tables or columns that do not exist
    raises OperationalError.  Outputs are JSON files; the records of a Delta directory
    come from Spark and are a parameter. *)
From S2P Require Export GoldStore.

Module Source.
Export Store.

(** ** The control database *)

Record Table := { tb_columns : list string; tb_rows : list Row }.
Abbreviation ControlDb := (gmap string Table).

Definition _table_exists (db : ControlDb) (name : string) : bool := bool_decide (is_Some (db !! name)).

(** The rows of a table that a query reads some columns of. *)
Definition table (db : ControlDb) (name : string) (columns : list string) : result (list Row) :=
  match db !! name with
  | Some t => require (forallb (λ c, str_in c (tb_columns t)) columns) OperationalError;; Ok (tb_rows t)
  | None => Err OperationalError
  end.

(** [a = b] in SQL on columns of one type: unknown, so not true, on NULL. *)
Definition sql_eq (a b : pyval) : bool := negb (is_none a) && negb (is_none b) && py_eqb a b.
Definition joins (a : Row) (ka : string) (b : Row) (kb : string) : bool :=
  sql_eq (dict_get ka a) (dict_get kb b).

(** [row[k]]. *)
Definition item (k : string) (r : Row) : result pyval :=
  match dict_lookup k r with Some v => Ok v | None => Err KeyError end.

Definition text_of (k : string) (r : Row) : string := py_str (dict_get k r).
Definition int_of (k : string) (r : Row) : Z := match dict_get k r with VInt z => z | _ => 0%Z end.

Definition order_by_text (k : string) : list Row → list Row :=
  sort_by (λ a b, str_leb (text_of k a) (text_of k b)).
Definition order_by_int (k : string) : list Row → list Row :=
  sort_by (λ a b, int_of k a <=? int_of k b)%Z.

Definition project (columns : list string) (r : Row) : Row := (λ c, (c, dict_get c r)) <$> columns.

(** [COALESCE(MAX(column), 0)]. *)
Definition max_of (k : string) (l : list Row) : Z :=
  match (λ r, int_of k r) <$> filter (λ r, is_none (dict_get k r) = false) l with
  | [] => 0
  | z :: zs => fold_left Z.max zs z
  end%Z.

Definition rows_digest (l : list Row) : result string := _sha256_json (VList (VDict <$> l)).

(** The publication that a work's committed pointer names. *)
Definition published_by (w p : Row) : bool :=
  joins p "work_id" w "work_id" && joins w "committed_attempt_id" p "attempt_id".

Definition visible_work_columns : list string :=
  ["work_id"; "payload_json"; "payload_sha256"; "duration_seconds"; "config_sha256";
   "release_digest"; "committed_attempt_id"; "publication_sequence"]%string.
Definition visible_attempt_columns : list string :=
  ["attempt_id"; "work_id"; "output_path"; "output_sha256"; "terminal_succeeded"]%string.

(** Pairs of a work and its visible publication. *)
Definition published (works publications : list Row) : list (Row * Row) :=
  concat ((λ w, (λ p, (w, p)) <$> filter (λ p, published_by w p = true) publications) <$> works).

Definition source_checkpoint (db : ControlDb) : result SourceCheckpoint :=
  if forallb (_table_exists db) ["work"; "attempts"; "publications"]%string then
    works ← table db "work" visible_work_columns;
    attempts ← table db "attempts" visible_attempt_columns;
    publications ← table db "publications" ["work_id"; "attempt_id"; "publication_sequence"]%string;
    let pairs := published works publications in
    let visible_attempts := concat ((λ a,
      (λ _, a) <$> filter (λ wp, joins wp.1 "work_id" a "work_id"
                                 && joins wp.2 "attempt_id" a "attempt_id" = true) pairs) <$> attempts) in
    work ← rows_digest (order_by_text "work_id" (project visible_work_columns <$> pairs.*1));
    attempt ← rows_digest (order_by_text "attempt_id" (project visible_attempt_columns <$> visible_attempts));
    publication ← rows_digest (order_by_int "publication_sequence" pairs.*2);
    Ok {| sc_publication_sequence := max_of "publication_sequence" pairs.*2;
          sc_versions := [("work", work); ("attempts", attempt); ("publications", publication)]%string |}
  else
    empty ← rows_digest [];
    Ok {| sc_publication_sequence := 0;
          sc_versions := [("work", empty); ("attempts", empty); ("publications", empty)]%string |}.

Definition table_digest (db : ControlDb) (name : string) : result (string * string) :=
  digest ← rows_digest (match db !! name with Some t => tb_rows t | None => [] end);
  Ok (name, digest).

Definition operations_source_checkpoint (db : ControlDb) : result SourceCheckpoint :=
  versions ← map_result (table_digest db) ["work"; "attempts"; "batches"; "publications"]%string;
  sequence ← (if _table_exists db "publications"
              then max_of "publication_sequence" <$> table db "publications" ["publication_sequence"%string]
              else Ok 0%Z);
  Ok {| sc_publication_sequence := sequence; sc_versions := versions |}.

Definition prefixed (prefix : string) (l : list (string * string)) : list (string * string) :=
  (λ kv, (prefix +:+ kv.1, kv.2)) <$> l.

Definition _fact_source (flow operations : SourceCheckpoint) : SourceCheckpoint := {|
  sc_publication_sequence := sc_publication_sequence flow;
  sc_versions := prefixed "flow:" (sc_versions flow) ++ prefixed "operations:" (sc_versions operations) |}.

(** [_control_rows]: every work, and every attempt with its batch, work and
    publication if it has one. *)
Definition attempt_row (a b w : Row) (p : option Row) : Row :=
  a ++ [("dispatcher_id", dict_get "owner" b);
        ("batch_runtime_key", dict_get "runtime_key" b);
        ("batch_sealed_at", dict_get "sealed_at" b);
        ("batch_completed_at", dict_get "committed_at" b);
        ("batch_expired_at", dict_get "lease_expires_at" b);
        ("work_updated_at", dict_get "updated_at" w);
        ("published_at", from_option (dict_get "published_at") VNone p)]%string.

(** [LEFT JOIN]: one row without a partner if nothing matches. *)
Definition left_join (l : list Row) : list (option Row) :=
  match l with [] => [None] | _ => Some <$> l end.

Definition join_attempt (batches works publications : list Row) (a : Row) : list Row :=
  concat ((λ b,
    concat ((λ w,
      attempt_row a b w <$> left_join (filter (λ p, joins p "attempt_id" a "attempt_id" = true) publications))
    <$> filter (λ w, joins w "work_id" a "work_id" = true) works))
  <$> filter (λ b, joins b "batch_id" a "batch_id" = true) batches).

Definition _control_rows (db : ControlDb) : result Control :=
  work ← table db "work" ["work_id"]%string;
  attempts ← table db "attempts" ["attempt_id"; "batch_id"; "work_id"]%string;
  batches ← table db "batches"
    ["batch_id"; "owner"; "runtime_key"; "sealed_at"; "committed_at"; "lease_expires_at"]%string;
  works ← table db "work" ["work_id"; "updated_at"]%string;
  publications ← table db "publications" ["attempt_id"; "published_at"]%string;
  Ok {| ct_work := order_by_text "work_id" work;
        ct_attempts := concat (join_attempt batches works publications <$> order_by_text "attempt_id" attempts) |}.

(** ** Outputs *)

(** A path of the file system: a file, or a directory with its files and possibly a
    Delta log. *)
Inductive Node :=
  | NFile (content : list Z)
  | NDir (delta_log : bool) (children : list (string * list Z)).

(** A handler of JSONDecodeError that raises GoldSourceError. *)
Definition decoded {A} (r : result A) : result A :=
  match r with Err JSONDecodeError => Err GoldSourceError | _ => r end.

(** [v in {texts}]: an unhashable value raises TypeError. *)
Definition in_texts (v : pyval) (l : list string) : result bool :=
  match v with
  | VList _ | VDict _ => Err TypeError
  | VStr s => Ok (str_in s l)
  | _ => Ok false
  end.

Definition is_dict (v : pyval) : bool := match v with VDict _ => true | _ => false end.
Definition dicts (l : list pyval) : list Row :=
  omap (λ v, match v with VDict d => Some d | _ => None end) l.

(** [str(row.get(name, default)) == expected]. *)
Definition has_text (name : string) (w : pyval) (expected : string) (r : Row) : bool :=
  String.eqb (py_str (dict_get_or name w r)) expected.

Definition record_key (r : Row) : result (string * string * string * Z) :=
  n ← py_int_val (dict_get_or "record_sequence" (VInt (-1)) r);
  Ok (py_str (dict_get_or "work_id" (VStr "") r), py_str (dict_get_or "attempt_id" (VStr "") r),
      py_str (dict_get_or "record_type" (VStr "") r), n).

Definition record_key_leb (a b : string * string * string * Z) : bool :=
  let '(w1, a1, t1, n1) := a in
  let '(w2, a2, t2, n2) := b in
  if negb (String.eqb w1 w2) then str_leb w1 w2
  else if negb (String.eqb a1 a2) then str_leb a1 a2
  else if negb (String.eqb t1 t2) then str_leb t1 t2
  else (n1 <=? n2)%Z.

(** The digest of the records in canonical order. *)
Definition records_sha256 (records : list Row) : result string :=
  keyed ← map_result (λ r, k ← record_key r; Ok (k, r)) records;
  rows_digest (sort_by (λ a b, record_key_leb a.1 b.1) keyed).*2.

Definition verify (verify_hash : bool) (expected actual : string) : result unit :=
  require (negb verify_hash || String.eqb expected "" || String.eqb actual expected) GoldSourceError.

(** [json.loads(str(row.get("payload_json", "{}")))], an object. *)
Definition payload_of (r : Row) : result Row :=
  v ← decoded (json_loads_text (py_str (dict_get_or "payload_json" (VStr "{}") r)));
  match v with VDict d => Ok d | _ => Err GoldSourceError end.

Definition line_record (work_id attempt_id : string) (r : Row) : result (option Row) :=
  if negb (py_eqb (dict_get "record_type" r) (VStr "line_count")) then Ok None else
  value ← payload_of r;
  Ok (Some (dict_or value [("work_id", VStr work_id); ("attempt_id", VStr attempt_id)]%string)).

Definition _records_output_document (records : list Row) (work_id attempt_id : string) : result Row :=
  terminals ← filter_result (λ r, in_texts (dict_get "record_type" r) ["video_result"; "error"]%string) records;
  match terminals with
  | [terminal] =>
      require (py_eqb (dict_get "record_type" terminal) (VStr "video_result")) GoldSourceError;;
      run_payload ← payload_of terminal;
      let run := dict_or run_payload
        [("work_id", VStr work_id); ("attempt_id", VStr attempt_id);
         ("processing_seconds", dict_get "processing_seconds" terminal);
         ("processed_frames", dict_get "processed_frames" terminal);
         ("status", dict_get "status" terminal)]%string in
      lines ← map_result (line_record work_id attempt_id) records;
      Ok [("run", VDict run);
          ("line_counts", VList (VDict <$> omap (M:=list) (λ l : option Row, l) lines))]%string
  | _ => Err GoldSourceError
  end.

Section outputs.
Context (fromisoformat : string → result (option Z)).
(** The file system, and the decoded [record_json] values of the rows of a Delta
    directory that have the given work and attempt. *)
Context (files : string → option Node).
Context (read_delta_records : string → string → string → result (list Row)).

Definition output_names : list string := ["output.json"; "result.json"; "records.json"]%string.

(** The content of one output file: the records of several attempts, or an object. *)
Definition document_of_bytes (content : list Z) (expected_sha256 : string) (verify_hash : bool)
    (work_id attempt_id : string) : result Row :=
  payload ← decoded (json_loads_bytes content);
  match payload with
  | VList l =>
      let matching := filter (λ r, has_text "work_id" VNone work_id r
                                   && has_text "attempt_id" VNone attempt_id r = true) (dicts l) in
      actual ← records_sha256 matching;
      verify verify_hash expected_sha256 actual;;
      _records_output_document matching work_id attempt_id
  | _ =>
      verify verify_hash expected_sha256 (hexdigest (sha256 content));;
      match payload with VDict d => Ok d | _ => Err GoldSourceError end
  end.

Definition _load_output_document (path expected_sha256 : string) (verify_hash : bool)
    (work_id attempt_id : string) : result Row :=
  match files path with
  | Some (NDir true _) =>
      records ← read_delta_records path work_id attempt_id;
      actual ← records_sha256 records;
      verify verify_hash expected_sha256 actual;;
      _records_output_document records work_id attempt_id
  | Some (NDir false children) =>
      match omap (λ name, dget name children) output_names with
      | [content] => document_of_bytes content expected_sha256 verify_hash work_id attempt_id
      | _ => Err GoldSourceError
      end
  | Some (NFile content) => document_of_bytes content expected_sha256 verify_hash work_id attempt_id
  | None => Err GoldSourceError
  end.

(** The single run of [document["runs"]] that belongs to the attempt. *)
Definition run_among (document : Row) (work_id attempt_id : string) : pyval :=
  match dict_get_or "runs" (VList []) document with
  | VList l =>
      match filter (λ r, has_text "work_id" (VStr work_id) work_id r
                         && has_text "attempt_id" (VStr attempt_id) attempt_id r = true) (dicts l) with
      | [r] => VDict r
      | _ => VNone
      end
  | _ => VNone
  end.

Definition belongs (name expected : string) (r : Row) : bool :=
  is_none (dict_get name r) || String.eqb (text_of name r) expected.

Definition _split_output_document (document : Row) (work_id attempt_id : string)
    : result (Row * list Row) :=
  let raw := dict_get "run" document in
  let raw := if is_none raw then run_among document work_id attempt_id else raw in
  let raw := if is_none raw && bool_decide (is_Some (dict_lookup "captured_at_utc" document))
             then VDict document else raw in
  match raw with
  | VDict run =>
      require (belongs "work_id" work_id run && belongs "attempt_id" attempt_id run) GoldSourceError;;
      match dict_get_or "line_counts" (dict_get_or "lines" (VList []) document) document with
      | VList l =>
          require (forallb is_dict l) GoldSourceError;;
          Ok (run, filter (λ r, has_text "work_id" (VStr work_id) work_id r
                                && has_text "attempt_id" (VStr attempt_id) attempt_id r = true) (dicts l))
      | _ => Err GoldSourceError
      end
  | _ => Err GoldSourceError
  end.

Definition _merge_payload (work : Row) : result Row :=
  match dict_get "payload_json" work with
  | VStr raw =>
      payload ← decoded (json_loads_text raw);
      match payload with VDict d => Ok (dict_or d work) | _ => Err GoldSourceError end
  | _ => Ok work
  end.

(** [a not in (None, b)] raises. *)
Definition none_or_equal (a b : pyval) : bool := is_none a || py_eqb a b.

Definition _validate_pointer_metadata (work attempt publication : Row) : result unit :=
  require (String.eqb (text_of "work_id" attempt) (text_of "work_id" work)) GoldSourceError;;
  require (none_or_equal (dict_get "output_path" attempt) (dict_get "output_path" publication)) GoldSourceError;;
  require (none_or_equal (dict_get "output_sha256" attempt) (dict_get "output_sha256" publication)) GoldSourceError;;
  let work_sequence := dict_get "publication_sequence" work in
  if is_none work_sequence then Ok tt else
  a ← py_int_val work_sequence;
  sequence ← item "publication_sequence" publication;
  b ← py_int_val sequence;
  require (a =? b)%Z GoldSourceError.

Definition committed_output (verify_output_hash : bool) (publications attempts : list Row) (work : Row)
    : result CommittedOutput :=
  let work_id := text_of "work_id" work in
  let attempt_id := text_of "committed_attempt_id" work in
  let publication := head (filter (λ p, joins p "work_id" work "work_id"
                                        && sql_eq (dict_get "attempt_id" p) (VStr attempt_id) = true) publications) in
  let attempt := head (filter (λ a, sql_eq (dict_get "attempt_id" a) (VStr attempt_id)
                                    && joins a "work_id" work "work_id" = true) attempts) in
  match publication, attempt with
  | Some publication, Some attempt =>
      _validate_pointer_metadata work attempt publication;;
      path ← item "output_path" publication;
      document ← _load_output_document (py_str path)
        (py_str (py_or (dict_get "output_sha256" publication) (VStr "")))
        verify_output_hash work_id attempt_id;
      split ← _split_output_document document work_id attempt_id;
      published_at ← _first_datetime fromisoformat publication ["published_at"; "created_at"]%string;
      sequence ← item "publication_sequence" publication;
      sequence ← py_int_val sequence;
      merged ← _merge_payload work;
      Ok {| co_work_id := work_id; co_attempt_id := attempt_id;
            co_publication_sequence := sequence; co_published_at := published_at;
            co_work := merged; co_attempt := attempt; co_run := split.1; co_line_counts := split.2 |}
  | _, _ => Err GoldSourceError
  end.

Definition committed_outputs (verify_output_hash : bool) (db : ControlDb) : result (list CommittedOutput) :=
  require (forallb (_table_exists db) ["work"; "attempts"; "publications"]%string) GoldSourceError;;
  require (match db !! "work"%string with
           | Some t => str_in "committed_attempt_id" (tb_columns t) | None => false end) GoldSourceError;;
  works ← table db "work" ["committed_attempt_id"; "work_id"]%string;
  publications ← table db "publications" ["work_id"; "attempt_id"]%string;
  attempts ← table db "attempts" ["attempt_id"; "work_id"]%string;
  map_result (committed_output verify_output_hash publications attempts)
    (order_by_text "work_id" (filter (λ w, is_none (dict_get "committed_attempt_id" w) = false) works)).
End outputs.
End Source.
