(* ===== verification/GoldDims.v ===== *)
(** * sjd_gold.py: operational tables, dimensions and validation

    The current projection of works and attempts, the conformed dimensions of the
    facts (dates, times of day, cameras, locations, videos, model configurations) and
    the rules that [_validate_tables] checks over all tables. *)
From S2P Require Export GoldSource.

Module Dims.
Export Source.

Definition _optional_text (v : pyval) : pyval :=
  if is_none v then VNone else
  let s := py_str v in if String.eqb s "" then VNone else VStr s.

Definition _optional_iso (t : option Z) : pyval := of_opt (λ t, VStr (_iso t)) t.

Definition _optional_boolean (v : pyval) : result pyval :=
  match v with VNone => Ok VNone | VBool b => Ok (VBool b) | _ => Err GoldSourceError end.

(** [_projection_int]: the handler only changes the message. *)
Definition _projection_int (v : pyval) : result pyval := of_opt VInt <$> _optional_int v.
Definition float_or_none (v : pyval) : result pyval := of_opt VFloat <$> _optional_float v.

(** [int(row.get(name) or 0)]. *)
Definition count_of (name : string) (r : Row) : result pyval :=
  VInt <$> py_int_val (py_or (dict_get name r) (VInt 0)).

Definition _config_json (v : pyval) : result string :=
  if is_none v || py_eqb v (VStr "") then Ok "{}"%string else
  parsed ← (match v with
            | VStr s => decoded (json_loads_text s)
            | VDict d => Ok (VDict d)
            | _ => Err GoldSourceError
            end);
  if is_dict parsed then _canonical_json parsed else Err GoldSourceError.

Section operational.
Context (fromisoformat : string → result (option Z)).
Abbreviation optional_datetime := (_optional_datetime fromisoformat).
Abbreviation required_datetime := (_required_datetime fromisoformat).

Definition projected_status (status : string) (available : option Z) (refreshed_at attempts : Z) : string :=
  if String.eqb status "READY" then
    (if match available with Some a => (refreshed_at <? a)%Z | None => false end && (0 <? attempts)%Z
     then "RETRY_WAIT" else "QUEUED")%string
  else if String.eqb status "DEAD" then "DEAD_LETTERED"%string else status.

Definition _operational_work_row (refreshed_at : Z) (lease_attempt : option Row) (work : Row) : result Row :=
  merged ← _merge_payload work;
  created ← optional_datetime (dict_get "created_at" work);
  updated ← optional_datetime (dict_get "updated_at" work);
  available ← optional_datetime (dict_get "available_at" work);
  lease_expires ← optional_datetime (dict_get "lease_expires_at" work);
  captured ← optional_datetime (dict_get "captured_at_utc" merged);
  let status := py_str (py_or (dict_get "status" work) (VStr "")) in
  attempts ← (if String.eqb status "READY"
                 && match available with Some a => (refreshed_at <? a)%Z | None => false end
              then py_int_val (py_or (dict_get "attempt_count" work) (VInt 0)) else Ok 0%Z);
  let status := projected_status status available refreshed_at attempts in
  let completed := if str_in status ["SUCCEEDED"; "DEAD_LETTERED"]%string then updated else None in
  let error := _optional_text (dict_get "last_error" work) in
  let config := dict_get "config_json" merged in
  work_id ← _required_value work "work_id";
  size ← _projection_int (dict_get "expected_size_bytes" merged);
  duration ← float_or_none (dict_get_or "duration_seconds" (dict_get "duration_seconds" work) merged);
  priority ← _projection_int (dict_get "priority" merged);
  attempt_count ← count_of "attempt_count" work;
  max_attempts ← count_of "max_attempts" work;
  acquired ← optional_datetime (from_option (dict_get "created_at") VNone lease_attempt);
  config_json ← (if is_none config then Ok VNone else VStr <$> _config_json config);
  replay ← count_of "replay_generation" work;
  let text name := _optional_text (dict_get name merged) in
  let column name := _optional_text (dict_get name work) in
  Ok [("work_id", VStr (py_str work_id));
      ("asset_id", text "asset_id");
      ("asset_version", text "asset_version");
      ("source_uri", _optional_text (dict_get_or "source_uri" (dict_get "source_video" merged) merged));
      ("manifest_uri", text "manifest_uri");
      ("source_etag", text "source_etag");
      ("expected_size_bytes", size);
      ("expected_sha256", text "expected_sha256");
      ("camera_id", text "camera_id");
      ("location_id", text "location_id");
      ("captured_at_utc", _optional_iso captured);
      ("camera_timezone", text "camera_timezone");
      ("duration_seconds", duration);
      ("priority", priority);
      ("status", VStr status);
      ("received_at", _optional_iso created);
      ("queued_at", _optional_iso created);
      ("not_before_at", _optional_iso available);
      ("attempt_count", attempt_count);
      ("max_attempts", max_attempts);
      ("lease_owner_attempt_id", column "lease_attempt_id");
      ("lease_dispatcher_id", column "lease_owner");
      ("lease_acquired_at", _optional_iso acquired);
      ("lease_expires_at", _optional_iso lease_expires);
      ("last_heartbeat_at", VNone);
      ("committed_attempt_id", column "committed_attempt_id");
      ("completed_at", _optional_iso completed);
      ("last_error_category", if is_none error then VNone else VStr "PROCESSING");
      ("last_error_type", if String.eqb status "DEAD_LETTERED" then VStr "DeadLettered" else VNone);
      ("last_error_message", error);
      ("config_json", config_json);
      ("config_sha256", column "config_sha256");
      ("capture_date", of_opt (λ t, VStr (day_of t)) captured);
      ("last_replay_id", column "last_replay_id");
      ("replay_generation", replay);
      ("queue_entered_at", _optional_iso created)]%string.

Definition _attempt_terminal_record (attempt : Row) : result Row :=
  let raw := dict_get "records_json" attempt in
  if is_none raw || py_eqb raw (VStr "") then Ok [] else
  records ← (match raw with VStr s => decoded (json_loads_text s) | v => Ok v end);
  match records with
  | VList l =>
      require (forallb is_dict l) GoldSourceError;;
      terminals ← filter_result (λ r, in_texts (dict_get "record_type" r) ["video_result"; "error"]%string) (dicts l);
      match terminals with
      | [] => Ok []
      | [terminal] => payload ← payload_of terminal; Ok (dict_or payload terminal)
      | _ => Err GoldSourceError
      end
  | _ => Err GoldSourceError
  end.

Definition _operational_attempt_row (work : Row) (committed : option CommittedOutput) (attempt : Row)
    : result Row :=
  record ← _attempt_terminal_record attempt;
  let run := from_option co_run record committed in
  let metadata := dict_or (dict_or work record) run in
  claimed ← optional_datetime (dict_get "created_at" attempt);
  sealed ← optional_datetime (dict_get "sealed_at" attempt);
  completed ← _first_datetime fromisoformat attempt
    ["published_at"; "batch_completed_at"; "completed_at"; "sealed_at"; "work_updated_at"]%string;
  captured ← optional_datetime (dict_get "captured_at_utc" metadata);
  let value name := dict_get name metadata in
  let value_or name other := dict_get_or name (dict_get other metadata) metadata in
  attempt_id ← _required_value attempt "attempt_id";
  work_id ← _required_value attempt "work_id";
  size ← _projection_int (value_or "source_size_bytes" "expected_size_bytes");
  duration ← float_or_none (value_or "source_duration_seconds" "duration_seconds");
  fps ← float_or_none (value "source_fps");
  frames ← _projection_int (value "total_source_frames");
  processed ← _projection_int (value "processed_frames");
  sample_fps ← float_or_none (value_or "effective_sample_fps" "sample_fps");
  processing ← float_or_none (value "processing_seconds");
  people ← _projection_int (value "distinct_people");
  line_in ← _projection_int (value "line_in_count");
  line_out ← _projection_int (value "line_out_count");
  retryable ← _optional_boolean (value "retryable");
  Ok [("attempt_id", VStr (py_str attempt_id));
      ("work_id", VStr (py_str work_id));
      ("dispatcher_id", _optional_text (dict_get_or "dispatcher_id" (dict_get "batch_owner" attempt) attempt));
      ("pipeline_run_id", _optional_text (value "pipeline_run_id"));
      ("activity_run_id", _optional_text (value "activity_run_id"));
      ("fabric_job_instance_id", _optional_text (value_or "fabric_job_instance_id" "process_attempt_id"));
      ("sdk_version", _optional_text (value_or "sdk_version" "package_version"));
      ("bundle_manifest_sha256", _optional_text (value_or "bundle_manifest_sha256" "manifest_sha256"));
      ("config_sha256", _optional_text (dict_get_or "config_sha256" (dict_get "config_sha256" work) metadata));
      ("status", VStr (py_str (py_or (dict_get "status" attempt) (VStr ""))));
      ("claimed_at", _optional_iso claimed);
      ("staging_started_at", _optional_iso claimed);
      ("inference_started_at", _optional_iso claimed);
      ("writing_started_at", _optional_iso sealed);
      ("completed_at", _optional_iso completed);
      ("last_heartbeat_at", _optional_iso sealed);
      ("input_sha256", _optional_text (value_or "input_sha256" "input_payload_sha256"));
      ("source_size_bytes", size);
      ("source_duration_seconds", duration);
      ("source_fps", fps);
      ("total_source_frames", frames);
      ("processed_frames", processed);
      ("effective_sample_fps", sample_fps);
      ("processing_seconds", processing);
      ("distinct_people", people);
      ("line_in_count", line_in);
      ("line_out_count", line_out);
      ("retryable", retryable);
      ("error_category", _optional_text (value "error_category"));
      ("error_type", _optional_text (value "error_type"));
      ("error_message", _optional_text (dict_get_or "error_message" (dict_get "recovery_outcome" attempt) metadata));
      ("capture_date", of_opt (λ t, VStr (day_of t)) captured);
      ("worker_execution_id", _optional_text (value_or "worker_execution_id" "executor_identity"))]%string.

(** [{str(row[name]): f(row) for row in rows if row.get(name) is not None}]. *)
Definition by_name (name : string) (l : list Row) : list (string * Row) :=
  fold_left (λ d r, if is_none (dict_get name r) then d else dset (text_of name r) r d) l [].

(** [str(row.get(name) or "")]. *)
Definition name_or_empty (name : string) (r : Row) : string := py_str (py_or (dict_get name r) (VStr "")).

Definition _operational_rows (control : Control) (committed : list CommittedOutput) (refreshed_at : string)
    : result (list Row * list Row) :=
  let attempts_by_id := by_name "attempt_id" (ct_attempts control) in
  work_by_id ← map_result (λ kr, merged ← _merge_payload kr.2; Ok (kr.1, merged)) (by_name "work_id" (ct_work control));
  refreshed ← required_datetime (VStr refreshed_at);
  works ← map_result (λ w,
    _operational_work_row refreshed (dget (name_or_empty "lease_attempt_id" w) attempts_by_id) w) (ct_work control);
  attempts ← map_result (λ a,
    _operational_attempt_row (default [] (dget (name_or_empty "work_id" a) work_by_id))
      (committed_of committed (name_or_empty "attempt_id" a)) a) (ct_attempts control);
  Ok (order_by_text "work_id" works, order_by_text "attempt_id" attempts).
End operational.

(** ** Dimensions *)

(** [date.isocalendar()]: year, week and day. *)
Definition isoweek1monday (year : Z) : Z :=
  let firstday := ymd2ord year 1 1 in
  let firstweekday := ((firstday + 6) mod 7)%Z in
  (firstday - firstweekday + (if 3 <? firstweekday then 7 else 0))%Z.

Definition isocalendar (n : Z) : Z * Z * Z :=
  let year := (ord2ymd n).1.1 in
  let monday := isoweek1monday year in
  let week := ((n - monday) / 7)%Z in
  let day := ((n - monday) mod 7 + 1)%Z in
  if (week <? 0)%Z then (year - 1, (n - isoweek1monday (year - 1)) / 7 + 1, day)%Z
  else if (52 <=? week)%Z && (isoweek1monday (year + 1) <=? n)%Z then (year + 1, 1, day)%Z
  else (year, week + 1, day)%Z.

Example isocalendar_examples :
  isocalendar (ymd2ord 2021 1 3) = (2020, 53, 7)%Z ∧ isocalendar (ymd2ord 2024 12 30) = (2025, 1, 1)%Z ∧
  isocalendar (ymd2ord 2026 10 1) = (2026, 40, 4)%Z.
Proof. vm_compute. repeat split. Qed.

Definition month_names : list string :=
  ["January"; "February"; "March"; "April"; "May"; "June"; "July"; "August"; "September";
   "October"; "November"; "December"]%string.
Definition day_names : list string :=
  ["Monday"; "Tuesday"; "Wednesday"; "Thursday"; "Friday"; "Saturday"; "Sunday"]%string.

Definition two (z : Z) : string := str_of_codes (zero_padded 2 z).

(** In the C locale, where [%b] is the first three letters; [%Y] has four digits from
    the year 1000. *)
Definition _date_dimension_row (refreshed_at : string) (n : Z) : Row :=
  let '(year, month, day) := ord2ymd n in
  let '(iso_year, iso_week, iso_day) := isocalendar n in
  let name := nth (Z.to_nat (month - 1)) month_names ""%string in
  let iso_year_text := str_of_codes (int_codes iso_year) in
  [("date_key", VStr (date_isoformat n));
   ("calendar_year", VInt year);
   ("calendar_quarter", VInt ((month - 1) / 3 + 1));
   ("calendar_month", VInt month);
   ("month_name", VStr name);
   ("month_short_name", VStr (String.substring 0 3 name));
   ("year_month", VStr (str_of_codes (zero_padded 4 year) +:+ "-" +:+ two month));
   ("day_of_month", VInt day);
   ("iso_day_of_week", VInt iso_day);
   ("iso_week_year", VInt iso_year);
   ("iso_week_of_year", VInt iso_week);
   ("iso_year_week", VStr (iso_year_text +:+ "-W" +:+ two iso_week));
   ("day_name", VStr (nth (Z.to_nat ((n + 6) mod 7)) day_names ""));
   ("is_weekend", VBool ((iso_day =? 6)%Z || (iso_day =? 7)%Z));
   ("refreshed_at", VStr refreshed_at)]%string.

Definition _day_part (hour : Z) : string :=
  (if (hour <? 6)%Z then "Night" else if (hour <? 12)%Z then "Morning"
   else if (hour <? 18)%Z then "Afternoon" else "Evening")%string.

Definition time_dimension_row (refreshed_at : string) (minute : Z) : Row :=
  [("time_key", VInt minute);
   ("hour_24", VInt (minute / 60));
   ("minute_of_hour", VInt (minute mod 60));
   ("time_label", VStr (two (minute / 60) +:+ ":" +:+ two (minute mod 60)));
   ("hour_label", VStr (two (minute / 60) +:+ ":00"));
   ("day_part", VStr (_day_part (minute / 60)));
   ("refreshed_at", VStr refreshed_at)]%string.

(** The fact tables and the columns that name their partitions. *)
Definition fact_partitions : list (string * string) :=
  [("gold_flow_minute", "flow_date"); ("gold_flow_hour", "flow_date");
   ("gold_video", "capture_date"); ("gold_operations_hour", "operation_date")]%string.
Definition FACT_TABLES : list string := fact_partitions.*1.
Definition OPERATIONAL_TABLES : list string := ["gold_work_operations"; "gold_attempt_operations"]%string.
Definition FACT_TARGET_TABLES : list string := FACT_TABLES ++ OPERATIONAL_TABLES.
Definition DIMENSION_TABLES : list string :=
  ["gold_dim_date"; "gold_dim_time"; "gold_dim_camera"; "gold_dim_location"; "gold_dim_video";
   "gold_dim_model_config"]%string.

(** The rows of a table, where all are at hand. *)
Abbreviation AllTables := (list (string * list Row)).
Definition rows_of (tables : AllTables) (name : string) : list Row := default [] (dget name tables).

Definition _dimension_fact_dates (facts : AllTables) : list string :=
  sorted_set (concat ((λ tc, text_of tc.2 <$> filter (λ r, truthy (dict_get tc.2 r) = true) (rows_of facts tc.1))
                      <$> fact_partitions)).

(** [groups[name].append(row)] of a defaultdict of lists. *)
Definition append_to (name : string) (r : Row) (groups : list (string * list Row)) : list (string * list Row) :=
  dset name (default [] (dget name groups) ++ [r]) groups.

Definition group_by (name : string) (l : list Row) : list (string * list Row) :=
  sort_by (λ a b, str_leb a.1 b.1) (fold_left (λ g r, append_to (text_of name r) r g) l []).

(** [len({str(row[name]) for row in rows})]. *)
Definition distinct (name : string) (l : list Row) : Z :=
  Z.of_nat (length (remove_dups (text_of name <$> l))).

Section dimensions.
Context (fromisoformat : string → result (option Z)).
(** [date.fromisoformat], and whether the IANA database has a time zone. *)
Context (date_fromisoformat : string → result Z).
Context (valid_zone : string → bool).
Abbreviation required_datetime := (_required_datetime fromisoformat).

Definition _date_range (values : list string) (fallback : Z) : result (list Z) :=
  match values with
  | [] => Ok [fallback]
  | first :: _ =>
      start ← date_fromisoformat first;
      end_ ← date_fromisoformat (List.last values first);
      Ok (seqZ start (end_ - start + 1))
  end.

Definition dimension_source_row (o : CommittedOutput) : result (option Row) :=
  let row := dict_or (dict_or (co_work o) (co_run o)) [("work_id"%string, VStr (co_work_id o))] in
  captured ← _output_captured_at fromisoformat o;
  match captured with
  | None => Ok None
  | Some t =>
      if is_none (dict_get "camera_id" row) || is_none (dict_get "location_id" row) then Ok None
      else Ok (Some (dict_or row [("captured_at_utc"%string, VStr (_iso t))]))
  end.

Definition _dimension_source_rows (committed : list CommittedOutput) : result (list Row) :=
  rows ← map_result dimension_source_row committed;
  Ok (omap (M:=list) (λ r : option Row, r) rows).

Definition video_dimension_row (refreshed_at : string) (r : Row) : result Row :=
  captured ← required_datetime (dict_get "captured_at_utc" r);
  camera ← _required_value r "camera_id";
  location ← _required_value r "location_id";
  config ← _required_value r "config_sha256";
  Ok [("work_id", VStr (text_of "work_id" r));
      ("asset_id", VStr (py_str (py_or (dict_get "asset_id" r) (dict_get "work_id" r))));
      ("asset_version", VStr (py_str (py_or (dict_get "asset_version" r) (VStr "1"))));
      ("camera_id", VStr (py_str camera));
      ("location_id", VStr (py_str location));
      ("captured_at_utc", VStr (_iso captured));
      ("capture_date", VStr (day_of captured));
      ("time_key", VInt (hour_of captured * 60 + minute_of captured));
      ("camera_timezone", VStr (py_str (py_or (dict_get "camera_timezone" r) (VStr "UTC"))));
      ("config_sha256", VStr (py_str config));
      ("refreshed_at", VStr refreshed_at)]%string.

(** First and last capture of a group of rows, which is not empty. *)
Definition capture_span (rows : list Row) : result (Z * Z) :=
  captures ← map_result (λ r, required_datetime (dict_get "captured_at_utc" r)) rows;
  match captures with
  | [] => Err ValueError
  | t :: ts => Ok (fold_left Z.min ts t, fold_left Z.max ts t)
  end.

Definition camera_dimension_row (refreshed_at : string) (camera : string * list Row) : result Row :=
  let zone r := py_str (py_or (dict_get "camera_timezone" r) (VStr "UTC")) in
  match remove_dups (text_of "location_id" <$> camera.2), remove_dups (zone <$> camera.2) with
  | [location], [camera_timezone] =>
      require (valid_zone camera_timezone) GoldSourceError;;
      span ← capture_span camera.2;
      Ok [("camera_id", VStr camera.1);
          ("location_id", VStr location);
          ("camera_timezone", VStr camera_timezone);
          ("first_capture_utc", VStr (_iso span.1));
          ("last_capture_utc", VStr (_iso span.2));
          ("video_count", VInt (distinct "work_id" camera.2));
          ("refreshed_at", VStr refreshed_at)]%string
  | _, _ => Err GoldValidationError
  end.

Definition location_dimension_row (refreshed_at : string) (location : string * list Row) : result Row :=
  span ← capture_span location.2;
  Ok [("location_id", VStr location.1);
      ("first_capture_utc", VStr (_iso span.1));
      ("last_capture_utc", VStr (_iso span.2));
      ("camera_count", VInt (distinct "camera_id" location.2));
      ("video_count", VInt (distinct "work_id" location.2));
      ("refreshed_at", VStr refreshed_at)]%string.

Definition config_dimension_row (refreshed_at : string) (config : string * list Row) : result Row :=
  values ← map_result (λ r, _config_json (dict_get_or "config_json" (VDict []) r)) config.2;
  match remove_dups values with
  | [raw] =>
      parsed ← json_loads_text raw;
      parsed ← as_row parsed;
      span ← capture_span config.2;
      line ← (if is_none (dict_get "line" parsed) then Ok VNone
              else VStr <$> _canonical_json (dict_get "line" parsed));
      Ok ([("config_sha256", VStr config.1); ("config_json", VStr raw)]%string
          ++ ((λ name, (name, dict_get name parsed)) <$>
              ["pipeline"; "device_variant"; "device"; "batch_size"; "sample_fps"; "detection_threshold";
               "use_fp16"; "detector_model"; "camera_motion_compensation"]%string)
          ++ [("counting_line_json", line);
              ("first_capture_utc", VStr (_iso span.1));
              ("last_capture_utc", VStr (_iso span.2));
              ("video_count", VInt (distinct "work_id" config.2));
              ("refreshed_at", VStr refreshed_at)]%string)
  | _ => Err GoldValidationError
  end.

Definition _dimension_metadata_rows (metadata : list Row) (dates : list Z) (refreshed_at : string)
    : result AllTables :=
  videos ← map_result (video_dimension_row refreshed_at) metadata;
  cameras ← map_result (camera_dimension_row refreshed_at) (group_by "camera_id" metadata);
  locations ← map_result (location_dimension_row refreshed_at) (group_by "location_id" metadata);
  configs ← map_result (config_dimension_row refreshed_at) (group_by "config_sha256" metadata);
  Ok [("gold_dim_date", _date_dimension_row refreshed_at <$> dates);
      ("gold_dim_time", time_dimension_row refreshed_at <$> seqZ 0 1440);
      ("gold_dim_camera", cameras);
      ("gold_dim_location", locations);
      ("gold_dim_video", order_by_text "work_id" videos);
      ("gold_dim_model_config", configs)]%string.

Definition _dimension_rows (committed : list CommittedOutput) (facts : AllTables) (refreshed_at : string)
    : result AllTables :=
  metadata ← _dimension_source_rows committed;
  now ← required_datetime (VStr refreshed_at);
  dates ← _date_range (_dimension_fact_dates facts) (date_of now);
  _dimension_metadata_rows metadata dates refreshed_at.
End dimensions.

(** ** Validation *)

(** Membership in a set of scalar values goes by [==]. *)
Definition py_in (v : pyval) (l : list pyval) : bool := existsb (py_eqb v) l.

Fixpoint unique (l : list pyval) : bool :=
  match l with [] => true | v :: l' => negb (py_in v l') && unique l' end.

Definition primary_keys : list (string * string) :=
  [("gold_work_operations", "work_id"); ("gold_attempt_operations", "attempt_id");
   ("gold_dim_date", "date_key"); ("gold_dim_time", "time_key"); ("gold_dim_camera", "camera_id");
   ("gold_dim_location", "location_id"); ("gold_dim_video", "work_id");
   ("gold_dim_model_config", "config_sha256")]%string.

(** Fact table, its key, dimension table, its key. *)
Definition relationships : list (string * string * string * string) :=
  [("gold_flow_minute", "flow_date", "gold_dim_date", "date_key");
   ("gold_flow_hour", "flow_date", "gold_dim_date", "date_key");
   ("gold_video", "capture_date", "gold_dim_date", "date_key");
   ("gold_operations_hour", "operation_date", "gold_dim_date", "date_key");
   ("gold_flow_minute", "time_key", "gold_dim_time", "time_key");
   ("gold_flow_hour", "time_key", "gold_dim_time", "time_key");
   ("gold_video", "time_key", "gold_dim_time", "time_key");
   ("gold_operations_hour", "time_key", "gold_dim_time", "time_key");
   ("gold_flow_minute", "camera_id", "gold_dim_camera", "camera_id");
   ("gold_flow_hour", "camera_id", "gold_dim_camera", "camera_id");
   ("gold_video", "camera_id", "gold_dim_camera", "camera_id");
   ("gold_flow_minute", "location_id", "gold_dim_location", "location_id");
   ("gold_flow_hour", "location_id", "gold_dim_location", "location_id");
   ("gold_video", "location_id", "gold_dim_location", "location_id");
   ("gold_video", "config_sha256", "gold_dim_model_config", "config_sha256");
   ("gold_video", "work_id", "gold_dim_video", "work_id")]%string.

(** Sets of lists or dicts raise TypeError. *)
Definition hashable (v : pyval) : bool := match v with VList _ | VDict _ => false | _ => true end.

Definition values_of (tables : AllTables) (table key : string) : list pyval :=
  dict_get key <$> rows_of tables table.

Definition check_key (tables : AllTables) (tk : string * string) : result unit :=
  let values := values_of tables tk.1 tk.2 in
  require (negb (existsb is_none values)) GoldValidationError;;
  require (forallb hashable values) TypeError;;
  require (unique values) GoldValidationError.

Definition check_reference (tables : AllTables) (fact fact_key dimension dimension_key : string)
    : result unit :=
  require (forallb hashable (values_of tables dimension dimension_key)) TypeError;;
  require (forallb hashable (values_of tables fact fact_key)) TypeError;;
  require (forallb (λ v, py_in v (values_of tables dimension dimension_key)) (values_of tables fact fact_key))
    GoldValidationError.

Fixpoint each {A} (f : A → result unit) (l : list A) : result unit :=
  match l with [] => Ok tt | x :: l' => f x;; each f l' end.

(** The number of rules, if all hold. *)
Definition _validate_tables (tables : AllTables) : result Z :=
  each (check_key tables) primary_keys;;
  check_reference tables "gold_attempt_operations" "work_id" "gold_work_operations" "work_id";;
  each (λ '(fact, fact_key, dimension, dimension_key),
          check_reference tables fact fact_key dimension dimension_key) relationships;;
  Ok (Z.of_nat (length primary_keys) + Z.of_nat (length relationships) + 1)%Z.
End Dims.
