(* ===== verification/GoldJob.v ===== *)
(** * sjd_gold.py: planning, building and running

    [LocalGoldJob] over a world: the gold tables, the gold state, and a control
    database that dispatchers keep changing.  Every connection of the job sees the
    database as it is at that moment, so the database is a function of the number of
    reads so far; so is the clock. *)
From S2P Require Export GoldDims.

Module Job.
Export Dims.

Record World := {
  w_tables : Tables;
  w_state : GoldState;
  w_reads : nat;
  w_ticks : nat;
}.

Definition put_tables (x : Tables) (w : World) : World :=
  {| w_tables := x; w_state := w_state w; w_reads := w_reads w; w_ticks := w_ticks w |}.
Definition put_state (x : GoldState) (w : World) : World :=
  {| w_tables := w_tables w; w_state := x; w_reads := w_reads w; w_ticks := w_ticks w |}.
Definition next_read (w : World) : World :=
  {| w_tables := w_tables w; w_state := w_state w; w_reads := S (w_reads w); w_ticks := w_ticks w |}.
Definition next_tick (w : World) : World :=
  {| w_tables := w_tables w; w_state := w_state w; w_reads := w_reads w; w_ticks := S (w_ticks w) |}.

(** Calls of the store and of the state. *)
Definition on_tables {A} (m : tx Tables A) : tx World A := λ w,
  let '(r, x) := m (w_tables w) in (r, put_tables x w).
Definition on_state {A} (m : tx GoldState A) : tx World A := λ w,
  let '(r, x) := m (w_state w) in (r, put_state x w).

Record GoldPlan := {
  pl_planned_at : string;
  pl_cutoff : string;
  pl_lookback_hours : Z;
  pl_items : list string;
  pl_source : SourceCheckpoint;
  pl_flow_source : SourceCheckpoint;
  pl_operations_source : SourceCheckpoint;
}.

Definition _checkpoint_targets_match (c : option Checkpoint) (current : list (string * Z)) : bool :=
  match c with
  | None => false
  | Some c =>
      match json_loads_text (ck_target_versions_json c) with
      | Ok saved => py_eqb saved (numbers current)
      | Err _ => false
      end
  end.

Definition has_source_key (c : option Checkpoint) (source_key : string) : bool :=
  match c with Some c => String.eqb (ck_source_key c) source_key | None => false end.

Definition _normal_incremental_facts_noop (automatic force full_rebuild : bool)
    (c : option Checkpoint) (source_key : string) (targets_current : bool) : bool :=
  automatic && negb force && negb full_rebuild && has_source_key c source_key && targets_current.

Section job.
Context (fromisoformat : string → result (option Z)).
Context (date_fromisoformat : string → result Z).
Context (valid_zone : string → bool).
Context (files : string → option Node).
Context (read_delta_records : string → string → string → result (list Row)).
Context (autoincrement : list Signal → Z).
Context (verify_output_hash : bool).
(** The control database at each read, the clock at each reading. *)
Context (db : nat → ControlDb) (clock : nat → Z).

Definition reading {A} (query : ControlDb → result A) : tx World A := λ w,
  (query (db (w_reads w)), next_read w).
Definition now : tx World Z := λ w, (Ok (clock (w_ticks w)), next_tick w).

Definition outputs : ControlDb → result (list CommittedOutput) :=
  committed_outputs fromisoformat files read_delta_records verify_output_hash.

Definition saved (stage : string) : tx World (option Checkpoint) := λ w,
  (Ok (checkpoint stage (w_state w)), w).

(** [t - timedelta(hours=h)]. *)
Definition minus_hours (t h : Z) : result Z :=
  let u := (t - h * us_hour)%Z in if in_range u then Ok u else Err OverflowError.

Definition dates_of (l : list CommittedOutput) : result (list string) :=
  ds ← map_result (_output_dates fromisoformat) l; Ok (concat ds).

(** Published since the checkpoint, or within the lookback. *)
Definition is_recent (prior_sequence cutoff : Z) (o : CommittedOutput) : bool :=
  (prior_sequence <? co_publication_sequence o)%Z
  || match co_published_at o with Some t => (cutoff <=? t)%Z | None => false end.

Definition recent_flow_dates (previous : Checkpoint) (cutoff : Z) (l : list CommittedOutput)
    : result (list string) :=
  dates_of (filter (λ o, is_recent (ck_publication_sequence previous) cutoff o = true) l).

Definition recent_operation_dates (previous : Checkpoint) (lookback_hours cutoff : Z) (control : Control)
    : result (list string) :=
  prior_completed ← _required_datetime fromisoformat (VStr (ck_completed_at previous));
  horizon ← minus_hours prior_completed lookback_hours;
  _control_dates fromisoformat control (Some (Z.min cutoff horizon)).

(** The source of the flow facts changed, but not by a publication. *)
Definition flow_changed_in_place (previous : Checkpoint) (flow_key : string) (l : list CommittedOutput) : bool :=
  negb (String.eqb (ck_source_key previous) flow_key)
  && negb (existsb (λ o, ck_publication_sequence previous <? co_publication_sequence o)%Z l).

(** The dates to rebuild after a checkpoint of both domains. *)
Definition incremental_dates (flow operations : Checkpoint) (flow_key operations_key : string)
    (lookback_hours cutoff : Z) (l : list CommittedOutput) (control : Control) : result (list string) :=
  flow_dates ← recent_flow_dates flow cutoff l;
  operation_dates ← recent_operation_dates operations lookback_hours cutoff control;
  all_flow ← (if flow_changed_in_place flow flow_key l then dates_of l else Ok []);
  all_operations ←
    (if negb (String.eqb (ck_source_key operations) operations_key) && bool_decide (operation_dates = [])
     then _control_dates fromisoformat control None else Ok []);
  Ok (flow_dates ++ operation_dates ++ all_flow ++ all_operations).

Definition historic_dates (l : list CommittedOutput) (control : Control) : result (list string) :=
  a ← dates_of l;
  b ← _control_dates fromisoformat control None;
  Ok (a ++ b).

Definition planned_dates (all_history : bool) (previous_flow previous_operations : option Checkpoint)
    (flow_key operations_key : string) (lookback_hours cutoff : Z)
    (l : list CommittedOutput) (control : Control) : result (list string) :=
  match all_history, previous_flow, previous_operations with
  | false, Some flow, Some operations =>
      incremental_dates flow operations flow_key operations_key lookback_hours cutoff l control
  | _, _, _ => historic_dates l control
  end.

Definition plan (lookback_hours : Z) (full_rebuild reset : bool) : tx World GoldPlan :=
  tx_require (1 <=? lookback_hours)%Z ValueError;;
  planned_at ← now;
  cutoff ← tx_lift (minus_hours planned_at lookback_hours);
  flow_source ← reading source_checkpoint;
  operations_source ← reading operations_source_checkpoint;
  previous_flow ← saved "facts:flow";
  previous_operations ← saved "facts:operations";
  l ← reading outputs;
  control ← reading _control_rows;
  flow_key ← tx_lift (key flow_source);
  operations_key ← tx_lift (key operations_source);
  dates ← tx_lift (planned_dates (full_rebuild || reset) previous_flow previous_operations
                     flow_key operations_key lookback_hours cutoff l control);
  mret {| pl_planned_at := _iso planned_at; pl_cutoff := _iso cutoff;
          pl_lookback_hours := lookback_hours; pl_items := sorted_set dates;
          pl_source := _fact_source flow_source operations_source;
          pl_flow_source := flow_source; pl_operations_source := operations_source |}.

(** ** Building *)

Definition facts_of (f : Facts) (table : string) : list Row :=
  if String.eqb table "gold_flow_minute" then ft_flow_minute f
  else if String.eqb table "gold_flow_hour" then ft_flow_hour f
  else if String.eqb table "gold_video" then ft_video f else ft_operations_hour f.

(** The four tables of one date; their row counts are added to the totals. *)
Definition build_date (committed : list CommittedOutput) (control : Control) (refreshed_at : string)
    (totals : list (string * Z)) (partition_date : string) : tx World (list (string * Z)) :=
  facts ← tx_lift (_fact_rows_for_date fromisoformat committed control partition_date refreshed_at);
  counts ← tx_map (λ tc, on_tables (replace_partition tc.1 tc.2 partition_date (facts_of facts tc.1)))
             fact_partitions;
  mret (zip_with (λ t n, (t.1, (t.2 + n)%Z)) totals counts).

Fixpoint build_dates (committed : list CommittedOutput) (control : Control) (refreshed_at : string)
    (totals : list (string * Z)) (dates : list string) : tx World (list (string * Z)) :=
  match dates with
  | [] => mret totals
  | d :: dates' =>
      totals' ← build_date committed control refreshed_at totals d;
      build_dates committed control refreshed_at totals' dates'
  end.

Record BuildResult := {
  br_skipped : bool;
  br_source_key : string;
  br_dates : list string;
  br_rows : list (string * Z);
  br_target_versions : list (string * Z);
  br_outbox_id : option Z;
  br_complete_checkpoint_advanced : bool;
  br_checkpoint_updates : Updates;       (* returned only if save_state is false *)
}.

Definition skipped (source_key : string) : BuildResult := {|
  br_skipped := true; br_source_key := source_key; br_dates := []; br_rows := [];
  br_target_versions := []; br_outbox_id := None; br_complete_checkpoint_advanced := false;
  br_checkpoint_updates := [] |}.

(** The dates asked for, or those of a plan. *)
Definition selected_dates (dates : option (list string)) (lookback_hours : Z)
    (full_rebuild reset : bool) : tx World (list string) :=
  match dates with
  | Some l =>
      normalized ← tx_lift (map_result (λ s, match date_fromisoformat s with
        | Ok n => Ok (date_isoformat n) | Err e => Err e end) l);
      mret (sorted_set normalized)
  | None => p ← plan lookback_hours full_rebuild reset; mret (pl_items p)
  end.

(** The dates selected, then the facts of the outputs and works as they are now. *)
Definition build_partitions (dates : option (list string)) (lookback_hours : Z) (force full_rebuild : bool)
    : tx World (list string * list CommittedOutput * Control * string * list (string * Z)) :=
  selected ← selected_dates dates lookback_hours full_rebuild force;
  committed ← reading outputs;
  control ← reading _control_rows;
  t ← now;
  totals ← build_dates committed control (_iso t) ((λ name, (name, 0%Z)) <$> FACT_TABLES) selected;
  mret (selected, committed, control, _iso t, totals).

(** The facts, written to the store; which checkpoints may advance. *)
Definition build_tables (dates : option (list string)) (lookback_hours : Z) (force full_rebuild : bool)
    (flow_source operations_source : SourceCheckpoint) (flow_key operations_key : string)
    : tx World (list string * list (string * Z) * list (string * Z) * bool * Updates) :=
  let source := _fact_source flow_source operations_source in
  parts ← build_partitions dates lookback_hours force full_rebuild;
  let '(selected, committed, control, refreshed_at, totals) := parts in
  operational ← tx_lift (_operational_rows fromisoformat control committed refreshed_at);
  works ← on_tables (replace_table "gold_work_operations" operational.1);
  attempts ← on_tables (replace_table "gold_attempt_operations" operational.2);
  let totals := totals ++ [("gold_work_operations", works); ("gold_attempt_operations", attempts)]%string in
  target_versions ← on_tables (versions FACT_TARGET_TABLES);
  let partitions := (λ d, ("facts:partition:" +:+ d, (source, target_versions)))%string <$> selected in
  match dates with
  | Some _ => mret (selected, totals, target_versions, false, partitions)
  | None =>
      latest_flow ← reading source_checkpoint;
      latest_operations ← reading operations_source_checkpoint;
      latest_flow_key ← tx_lift (key latest_flow);
      latest_operations_key ← tx_lift (key latest_operations);
      let complete := String.eqb latest_flow_key flow_key && String.eqb latest_operations_key operations_key in
      mret (selected, totals, target_versions, complete,
            partitions ++ if complete then
              [("facts", (source, target_versions));
               ("facts:flow", (flow_source, target_versions));
               ("facts:operations", (operations_source, target_versions))]%string else [])
  end.

Definition save_and_enqueue (updates : Updates) (reason : option string) (source : SourceCheckpoint)
    (targets : list (string * Z)) : tx World (option Z) :=
  t ← now;
  on_state (save_checkpoints_and_enqueue autoincrement updates reason source targets t).

(** Saving the checkpoints with the refresh signal, unless the caller does. *)
Definition finish_facts (save_state : bool) (source : SourceCheckpoint) (source_key : string)
    (built : list string * list (string * Z) * list (string * Z) * bool * Updates) : tx World BuildResult :=
  let '(selected, totals, target_versions, complete, updates) := built in
  outbox_id ← (if save_state then
                 save_and_enqueue updates
                   (if bool_decide (selected = []) then None else Some "gold facts changed"%string)
                   source target_versions
               else mret None);
  mret {| br_skipped := false; br_source_key := source_key; br_dates := selected; br_rows := totals;
          br_target_versions := target_versions; br_outbox_id := outbox_id;
          br_complete_checkpoint_advanced := complete;
          br_checkpoint_updates := if save_state then [] else updates |}.

Definition build_facts (dates : option (list string)) (lookback_hours : Z)
    (force full_rebuild save_state : bool) : tx World BuildResult :=
  flow_source ← reading source_checkpoint;
  operations_source ← reading operations_source_checkpoint;
  let source := _fact_source flow_source operations_source in
  previous ← saved "facts";
  current ← on_tables (versions FACT_TARGET_TABLES);
  let targets_current := _checkpoint_targets_match previous current in
  source_key ← tx_lift (key source);
  flow_key ← tx_lift (key flow_source);
  operations_key ← tx_lift (key operations_source);
  let automatic := bool_decide (dates = None) in
  if _normal_incremental_facts_noop automatic force full_rebuild previous source_key targets_current
  then mret (skipped source_key) else
  built ← build_tables dates lookback_hours force (full_rebuild || negb targets_current)
            flow_source operations_source flow_key operations_key;
  finish_facts save_state source source_key built.

Definition target_texts (l : list (string * Z)) : list (string * string) :=
  (λ nv, ("target:" +:+ nv.1, str_of_codes (int_codes nv.2))) <$> l.

Definition read_tables (names : list string) : tx Tables AllTables :=
  tx_map (λ name, l ← read_table name; mret (name, l)) names.

(** All of [rows] in the order of the dimension tables. *)
Definition replace_tables (rows : AllTables) : tx Tables (list (string * Z)) :=
  tx_map (λ name, n ← replace_table name (rows_of rows name); mret (name, n)) DIMENSION_TABLES.

Definition build_dimensions (full_rebuild force save_state : bool) : tx World BuildResult :=
  source ← reading source_checkpoint;
  fact_versions ← on_tables (versions FACT_TARGET_TABLES);
  let dimension_source := {| sc_publication_sequence := sc_publication_sequence source;
    sc_versions := sc_versions source ++ target_texts fact_versions |} in
  previous ← saved "dimensions";
  current ← on_tables (versions DIMENSION_TABLES);
  dimension_key ← tx_lift (key dimension_source);
  if negb full_rebuild && negb force && has_source_key previous dimension_key
     && _checkpoint_targets_match previous current
  then mret (skipped dimension_key) else
  committed ← reading outputs;
  facts ← on_tables (read_tables FACT_TABLES);
  t ← now;
  rows ← tx_lift (_dimension_rows fromisoformat date_fromisoformat valid_zone committed facts (_iso t));
  counts ← on_tables (replace_tables rows);
  target_versions ← on_tables (versions DIMENSION_TABLES);
  let updates := [("dimensions", (dimension_source, target_versions))]%string in
  outbox_id ← (if save_state then
                 save_and_enqueue updates (Some "gold dimensions changed"%string) dimension_source target_versions
               else mret None);
  mret {| br_skipped := false; br_source_key := dimension_key; br_dates := []; br_rows := counts;
          br_target_versions := target_versions; br_outbox_id := outbox_id;
          br_complete_checkpoint_advanced := false;
          br_checkpoint_updates := if save_state then [] else updates |}.

(** The rules checked and the sizes of the tables. *)
Definition validate : tx World (Z * list (string * Z)) :=
  tables ← on_tables (read_tables (FACT_TARGET_TABLES ++ DIMENSION_TABLES));
  rules ← tx_lift (_validate_tables tables);
  mret (rules, (λ nl, (nl.1, Z.of_nat (length nl.2))) <$> tables).

Record RunResult := {
  rr_facts : BuildResult;
  rr_dimensions : BuildResult;
  rr_validation : Z * list (string * Z);
  rr_outbox_id : option Z;
  rr_pending_refreshes : Z;
}.

(** [{**a, **b}]. *)
Definition merge_updates (a b : Updates) : Updates := fold_left (λ d kv, dset kv.1 kv.2 d) b a.

Definition run (lookback_hours : Z) (force full_rebuild : bool) : tx World RunResult :=
  facts ← build_facts None lookback_hours force full_rebuild false;
  dimensions ← build_dimensions full_rebuild force false;
  validation ← validate;
  outbox_id ←
    (if br_skipped facts && br_skipped dimensions then mret None else
       flow_source ← reading source_checkpoint;
       operations_source ← reading operations_source_checkpoint;
       targets ← on_tables (versions (FACT_TARGET_TABLES ++ DIMENSION_TABLES));
       save_and_enqueue (merge_updates (br_checkpoint_updates facts) (br_checkpoint_updates dimensions))
         (Some "gold run changed"%string) (_fact_source flow_source operations_source) targets);
  w ← tx_get;
  pending ← tx_lift (pending_refreshes (w_state w));
  mret {| rr_facts := facts; rr_dimensions := dimensions; rr_validation := validation;
          rr_outbox_id := outbox_id; rr_pending_refreshes := Z.of_nat (length pending) |}.
End job.
End Job.
