(* ===== verification/GoldBuild.v ===== *)
(** * The facts of a date and incremental builds

    Sorting by a total order sorts; the groups of flow facts hold, for every key, the
    sums of its lines; an output without a line or capture on a date adds nothing to
    that date.  Then what a build leaves in the partitions of the flow and video
    tables, however it ends. *)
From S2P Require Export GoldFacts GoldJob.

Module FactsTheorems.
Import Gold.

(** ** Sorting *)

Section sorting.
Context {A : Type} (leb : A → A → bool).

Lemma insert_by_Permutation x l : insert_by leb x l ≡ₚ x :: l.
Proof.
  induction l as [|y l IH]; simpl; [done|]. destruct (leb x y); [done|].
  rewrite IH. apply Permutation_swap.
Qed.

Lemma sort_by_Permutation l : sort_by leb l ≡ₚ l.
Proof. induction l as [|x l IH]; simpl; [done|]. by rewrite insert_by_Permutation, IH. Qed.

Context (leb_total : ∀ x y, leb x y = true ∨ leb y x = true).
Context (leb_trans : ∀ x y z, leb x y = true → leb y z = true → leb x z = true).

Lemma sort_by_sorted l : StronglySorted (λ x y, leb x y = true) (sort_by leb l).
Proof.
  induction l as [|x l IH]; simpl; [constructor|].
  induction IH as [|y k Hk IHk Hy]; simpl; [repeat constructor|].
  destruct (leb x y) eqn:E.
  - constructor; [by constructor|]. constructor; [done|]. rewrite Forall_forall in *.
    intros z Hz. eapply leb_trans; [exact E|by apply Hy].
  - constructor; [done|]. rewrite Forall_forall in *. intros z Hz.
    rewrite insert_by_Permutation in Hz. apply elem_of_cons in Hz as [->|Hz]; [|by apply Hy].
    destruct (leb_total x y); congruence.
Qed.
End sorting.

Lemma sum_Permutation (l k : list Z) : l ≡ₚ k → foldr Z.add 0%Z l = foldr Z.add 0%Z k.
Proof. induction 1; simpl; lia. Qed.

Lemma elem_of_sorted_set x l : x ∈ sorted_set l ↔ x ∈ l.
Proof. unfold sorted_set. by rewrite sort_by_Permutation, elem_of_remove_dups. Qed.

(** An order on the second components that refines one on the first. *)
Lemma flow_key_leb_total a b : flow_key_leb a b = true ∨ flow_key_leb b a = true.
Proof.
  destruct a as [[[t1 k1] c1] l1], b as [[[t2 k2] c2] l2]. unfold flow_key_leb.
  rewrite (String.eqb_sym t2), (Z.eqb_sym k2), (String.eqb_sym c2).
  destruct (String.eqb t1 t2); simpl; [|apply str_leb_total].
  destruct (Z.eqb_spec k1 k2); simpl; [|rewrite !Z.leb_le; lia].
  destruct (String.eqb c1 c2); simpl; apply str_leb_total.
Qed.

Lemma str_leb_ne_trans a b c :
  a ≠ b → str_leb a b = true → str_leb b c = true → a ≠ c ∧ str_leb a c = true.
Proof.
  intros Hne H1 H2. split; [|by eapply str_leb_trans]. intros ->. apply Hne. by apply str_leb_antisymm.
Qed.

Ltac key_cases :=
  repeat match goal with
  | H : context [String.eqb ?a ?b] |- _ => destruct (String.eqb_spec a b); simpl in *; subst
  | |- context [String.eqb ?a ?b] => destruct (String.eqb_spec a b); simpl in *; subst
  | H : context [Z.eqb ?a ?b] |- _ => destruct (Z.eqb_spec a b); simpl in *; subst
  | |- context [Z.eqb ?a ?b] => destruct (Z.eqb_spec a b); simpl in *; subst
  end.

Lemma flow_key_leb_trans a b c :
  flow_key_leb a b = true → flow_key_leb b c = true → flow_key_leb a c = true.
Proof.
  destruct a as [[[t1 k1] c1] l1], b as [[[t2 k2] c2] l2], c as [[[t3 k3] c3] l3].
  unfold flow_key_leb. intros H1 H2. key_cases; try congruence; rewrite ?Z.leb_le in *;
    try lia; try (by eapply str_leb_trans); try done.
  all: match goal with
    | H : str_leb ?a ?b = true, H' : str_leb ?b ?a = true |- _ =>
        pose proof (str_leb_antisymm _ _ H H'); congruence
    end.
Qed.

Lemma flow_key_leb_antisymm a b : flow_key_leb a b = true → flow_key_leb b a = true → a = b.
Proof.
  destruct a as [[[t1 k1] c1] l1], b as [[[t2 k2] c2] l2]. unfold flow_key_leb. intros H1 H2.
  key_cases; try congruence; rewrite ?Z.leb_le in *; try lia;
    match goal with
    | H : str_leb ?a ?b = true, H' : str_leb ?b ?a = true |- _ =>
        pose proof (str_leb_antisymm _ _ H H'); congruence
    end.
Qed.

(** ** Groups *)

(** Lines with the work that they belong to; [sel] is the key to group by. *)
Abbreviation Lines := (list (string * LineFlow)).

Section groups.
Context (sel : LineFlow → FlowKey).

Definition add_to (g : Groups) (wl : string * LineFlow) : Groups :=
  _add_flow_group g (sel wl.2) wl.1 (lf_entries wl.2) (lf_exits wl.2).
Definition grouped (lines : Lines) : Groups := fold_left add_to lines [].

Definition total (f : LineFlow → Z) (lines : Lines) : Z := foldr Z.add 0%Z ((λ wl, f wl.2) <$> lines).
Definition at_key (k : FlowKey) (lines : Lines) : Lines := filter (λ wl, sel wl.2 = k) lines.

(** What a group holds: the sums over its lines, and the works that they are of. *)
Definition sums (lines : Lines) (v : Flow) : Prop :=
  fl_entries v = total lf_entries lines ∧ fl_exits v = total lf_exits lines ∧
  NoDup (fl_works v) ∧ (∀ w, w ∈ fl_works v ↔ w ∈ lines.*1).

Lemma total_app f l k : total f (l ++ k) = (total f l + total f k)%Z.
Proof. unfold total. rewrite fmap_app. induction (_ <$> l) as [|x r IH]; simpl; lia. Qed.

Lemma at_key_snoc k lines wl :
  at_key k (lines ++ [wl]) = at_key k lines ++ (if decide (sel wl.2 = k) then [wl] else []).
Proof. unfold at_key. by rewrite filter_app. Qed.

Lemma sums_snoc lines v w f :
  sums lines v →
  sums (lines ++ [(w, f)]) {| fl_entries := fl_entries v + lf_entries f;
    fl_exits := fl_exits v + lf_exits f; fl_works := set_add w (fl_works v) |}.
Proof.
  intros (He&Hx&Hn&Hw). unfold sums, set_add. cbn [fl_entries fl_exits fl_works].
  rewrite !total_app, fmap_app. unfold total at 2 4. simpl. split; [lia|]. split; [lia|].
  split.
  - case_decide; [done|]. apply NoDup_app. split; [done|]. split; [set_solver|apply NoDup_singleton].
  - intros u. case_decide; rewrite ?elem_of_app, Hw; [|set_solver]. set_solver.
Qed.

Lemma sums_nil : sums [] no_flow.
Proof. unfold sums. simpl. repeat split; try done; [constructor|..]; by intros ?%elem_of_nil. Qed.

Lemma grouped_snoc lines wl : grouped (lines ++ [wl]) = add_to (grouped lines) wl.
Proof. unfold grouped. by rewrite fold_left_app. Qed.

(** Every group holds the sums of its lines, and only keys of lines have groups. *)
Lemma grouped_sums lines k :
  match dget k (grouped lines) with
  | Some v => k ∈ (λ wl, sel wl.2) <$> lines ∧ sums (at_key k lines) v
  | None => k ∉ (λ wl, sel wl.2) <$> lines
  end.
Proof.
  induction lines as [|[w f] lines IH] using rev_ind; [by intros ?%elem_of_nil|].
  rewrite grouped_snoc, at_key_snoc, fmap_app. unfold add_to, _add_flow_group. simpl. rewrite dget_dset.
  destruct (decide (k = sel f)) as [->|Hk].
  - rewrite decide_True by done. split; [set_solver|]. apply sums_snoc.
    destruct (dget (sel f) (grouped lines)) as [v|]; simpl; [apply IH|].
    replace (at_key (sel f) lines) with (@nil (string * LineFlow)); [apply sums_nil|]. symmetry.
    apply elem_of_nil_inv. intros wl [E Hwl]%list_elem_of_filter. apply IH. rewrite <-E.
    apply list_elem_of_fmap. by exists wl.
  - rewrite decide_False, app_nil_r by done. destruct (dget k (grouped lines)); set_solver.
Qed.

Lemma grouped_NoDup lines : NoDup (grouped lines).*1.
Proof.
  induction lines as [|wl lines IH] using rev_ind; [constructor|].
  rewrite grouped_snoc. by apply dset_NoDup.
Qed.

(** The totals of the groups are those of the lines. *)
Lemma total_dset {K A} `{!EqDecision K} (f : A → Z) k v (g : list (K * A)) :
  foldr Z.add 0%Z ((λ kv, f kv.2) <$> dset k v g)
  = (foldr Z.add 0%Z ((λ kv, f kv.2) <$> g) - from_option f 0%Z (dget k g) + f v)%Z.
Proof.
  induction g as [|[j x] g IH]; csimpl; [lia|]. destruct (decide (k = j)); csimpl; [lia|]. rewrite IH. lia.
Qed.

Lemma grouped_total (f : Flow → Z) (h : LineFlow → Z) lines :
  f no_flow = 0%Z →
  (∀ v w l, f {| fl_entries := fl_entries v + lf_entries l; fl_exits := fl_exits v + lf_exits l;
                 fl_works := set_add w (fl_works v) |} = (f v + h l)%Z) →
  foldr Z.add 0%Z ((λ kv, f kv.2) <$> grouped lines) = total h lines.
Proof.
  intros H0 Hs. induction lines as [|[w l] lines IH] using rev_ind; [done|].
  rewrite grouped_snoc, total_app, <-IH. unfold add_to, _add_flow_group. rewrite total_dset, Hs.
  unfold total. simpl. destruct (dget (sel l) (grouped lines)); simpl; lia.
Qed.
End groups.

(** ** The lines of a date *)

Section facts.
Context (fromisoformat : string → result (option Z)).
Abbreviation collected := (collect fromisoformat).

(** The lines that an output has on a date. *)
Definition date_lines (d : string) (o : CommittedOutput) : result Lines :=
  (λ x : list LineFlow * option Row, (λ f, (co_work_id o, f)) <$> x.1) <$> output_facts fromisoformat d o.

Lemma add_lines w flows c :
  fold_left (add_line w) flows c =
  {| cl_minutes := fold_left (add_to lf_minute) ((λ f, (w, f)) <$> flows) (cl_minutes c);
     cl_hours := fold_left (add_to lf_hour) ((λ f, (w, f)) <$> flows) (cl_hours c);
     cl_videos := cl_videos c |}.
Proof. revert c. induction flows as [|f flows IH]; intros c; [by destruct c|]. csimpl. by rewrite IH. Qed.

Lemma collect_lines d c o c' :
  collected d c o = Ok c' →
  ∃ lines, date_lines d o = Ok lines ∧
    cl_minutes c' = fold_left (add_to lf_minute) lines (cl_minutes c) ∧
    cl_hours c' = fold_left (add_to lf_hour) lines (cl_hours c).
Proof.
  unfold collect, date_lines. intros H. res_inv H. subst c'. rewrite Hs. simpl.
  eexists. split; [done|]. rewrite add_lines. by destruct x.2.
Qed.

Lemma collect_all_lines d l c c' :
  fold_result (collected d) l c = Ok c' →
  ∃ lines, map_result (date_lines d) l = Ok lines ∧
    cl_minutes c' = fold_left (add_to lf_minute) (concat lines) (cl_minutes c) ∧
    cl_hours c' = fold_left (add_to lf_hour) (concat lines) (cl_hours c).
Proof.
  revert c. induction l as [|o l IH]; intros c; simpl; [by intros [= <-]; exists []|].
  intros H. res_inv H. apply collect_lines in Hs as (lines&E&Hm&Hh).
  destruct (IH _ H) as (rest&E'&Hm'&Hh'). rewrite E, E'. exists (lines :: rest). simpl.
  by rewrite !fold_left_app, <-Hm, <-Hh.
Qed.

(** ** Outputs off a date *)

Lemma line_off_date cam loc d captured line observed :
  _line_observed_at fromisoformat line captured = Ok observed → day_of observed ≠ d →
  line_flow fromisoformat cam loc d captured line = Ok None.
Proof.
  intros H Hd. unfold line_flow. rewrite H. simpl. by rewrite (proj2 (String.eqb_neq _ _) Hd).
Qed.

Lemma collect_off_date d c o dates :
  _output_dates fromisoformat o = Ok dates → d ∉ dates → collected d c o = Ok c.
Proof.
  unfold _output_dates, collect, output_facts. intros H Hd. res_inv H.
  rewrite Hs. simpl. destruct x as [t|]; [|done]. res_inv H. subst dates.
  apply not_elem_of_cons in Hd as [Ht Hd].
  destruct (is_none _ || is_none _); [done|]. set (camera := py_str _). set (location := py_str _).
  assert (map_result (line_flow fromisoformat camera location d t) (co_line_counts o)
          = Ok (replicate (length (co_line_counts o)) None)) as ->.
  { apply map_result_Ok. apply map_result_Ok in Hs0. clear -Hs0 Hd.
    induction Hs0 as [|line u l k Hu _ IH]; simpl; [constructor|].
    apply not_elem_of_cons in Hd as [Hu' Hd]. constructor; [|by apply IH].
    apply result_fmap_Ok in Hu as (v&Hv&->). by eapply line_off_date. }
  simpl. rewrite (proj2 (String.eqb_neq (day_of t) d)) by done. simpl.
  replace (omap _ _) with (@nil LineFlow); [by destruct c|].
  induction (length (co_line_counts o)); simpl; auto.
Qed.

(** Only outputs with something on the date count. *)
Lemma collect_filter (P : CommittedOutput → Prop) `{!∀ o, Decision (P o)} d l c :
  (∀ o, o ∈ l → ¬ P o → ∃ dates, _output_dates fromisoformat o = Ok dates ∧ d ∉ dates) →
  fold_result (collected d) (filter P l) c = fold_result (collected d) l c.
Proof.
  revert c. induction l as [|o l IH]; intros c Hoff; [done|]. rewrite filter_cons. destruct (decide (P o)) as [Ho|Ho].
  - simpl. destruct (collected d c o); [|done]. simpl. apply IH. intros o' Ho'. apply Hoff. by right.
  - destruct (Hoff o ltac:(left) Ho) as (dates&E&Hd). simpl. rewrite (collect_off_date _ _ _ _ E Hd). simpl.
    apply IH. intros o' Ho'. apply Hoff. by right.
Qed.
End facts.
End FactsTheorems.

(** ** Incremental builds

    What a build leaves in the partitions of the flow and video tables, however it
    ends: each partition is what it was or holds the facts of its date.  [ends] states
    the outcome of a call that may raise. *)

Module Build.
Import Job FactsTheorems.

(** ** Calls that may raise *)

Definition ends {S A} (m : tx S A) (Q : result A → S → Prop) (s : S) : Prop := let '(r, s') := m s in Q r s'.

Section ends.
Context {S : Type}.

Lemma ends_mono {A} (m : tx S A) (P Q : result A → S → Prop) s :
  (∀ r s', P r s' → Q r s') → ends m P s → ends m Q s.
Proof. unfold ends. destruct (m s). auto. Qed.

Lemma ends_bind {A B} (m : tx S A) (f : A → tx S B) Q s :
  ends m (λ r s', match r with Ok a => ends (f a) Q s' | Err e => Q (Err e) s' end) s →
  ends (m ≫= f) Q s.
Proof. unfold ends, mbind, tx_bind. by destruct (m s) as [[a|e] s']. Qed.

Lemma ends_ret {A} (a : A) (Q : result A → S → Prop) s : Q (Ok a) s → ends (mret a) Q s.
Proof. done. Qed.

Lemma ends_lift {A} (r : result A) (Q : result A → S → Prop) s : Q r s → ends (tx_lift r) Q s.
Proof. done. Qed.

Lemma ends_run {A} (m : tx S A) Q s r s' : ends m Q s → m s = (r, s') → Q r s'.
Proof. unfold ends. intros H E. by rewrite E in H. Qed.

(** A reflexive and transitive relation that every step keeps. *)
Lemma ends_map {A B} (R : relation S) `{!PreOrder R} (f : A → tx S B) (l : list A) s :
  (∀ x s, x ∈ l → ends (f x) (λ _, R s) s) → ends (tx_map f l) (λ _, R s) s.
Proof.
  revert s. induction l as [|x l IH]; intros s H; simpl; [by apply ends_ret|].
  apply ends_bind. eapply ends_mono; [|by apply H; left]. intros [y|e] s1 H1; [|done].
  apply ends_bind. eapply ends_mono; [|apply IH; intros; apply H; by right].
  intros [ys|e] s2 H2; [apply ends_ret|]; by etrans.
Qed.
End ends.

(** ** Partitions *)

Lemma filter_all {A} (P : A → Prop) `{!∀ x, Decision (P x)} (l : list A) : (∀ x, x ∈ l → P x) → filter P l = l.
Proof.
  induction l as [|x l IH]; intros Hl; [done|]. rewrite filter_cons, decide_True by (apply Hl; left).
  f_equal. apply IH. intros. apply Hl. by right.
Qed.

Definition partition (ts : Tables) (tc : string * string) (d : string) : result (list Row) :=
  rows ← (read_table tc.1 ts).1; Ok (filter (λ r, in_partition tc.2 d r = true) rows).

Lemma py_eqb_str v s : py_eqb v (VStr s) = true ↔ v = VStr s.
Proof.
  destruct v; simpl; split; try discriminate; [by intros ->%String.eqb_eq|].
  intros [= ->]. apply String.eqb_refl.
Qed.

Lemma in_partition_eq c d r : in_partition c d r = true ↔ dict_get c r = VStr d.
Proof. apply py_eqb_str. Qed.

Lemma read_payload_state name ts : (_read_payload name ts).2 = ts.
Proof. unfold _read_payload. by repeat case_match. Qed.

Lemma read_table_state name ts : (read_table name ts).2 = ts.
Proof.
  unfold read_table, mbind, tx_bind. pose proof (read_payload_state name ts).
  by destruct (_read_payload name ts) as [[] ?].
Qed.

Lemma version_state name ts : (version name ts).2 = ts.
Proof.
  unfold version, mbind, tx_bind. pose proof (read_payload_state name ts).
  by destruct (_read_payload name ts) as [[] ?].
Qed.

Lemma versions_state names ts : (versions names ts).2 = ts.
Proof.
  unfold versions. induction names as [|n names IH]; [done|]. simpl. unfold mbind, tx_bind in *.
  pose proof (version_state n ts). destruct (version n ts) as [[v|e] ts']; simpl in *; subst; [|done].
  destruct (tx_map _ names ts) as [[]]; simpl in *; by subst.
Qed.

Lemma read_tables_state names ts : (read_tables names ts).2 = ts.
Proof.
  unfold read_tables. induction names as [|n names IH]; [done|]. simpl. unfold mbind, tx_bind in *.
  pose proof (read_table_state n ts). destruct (read_table n ts) as [[v|e] ts']; simpl in *; subst; [|done].
  destruct (tx_map _ names ts) as [[]]; simpl in *; by subst.
Qed.

Lemma as_rows_VDict l : map_result as_row (VDict <$> l) = Ok l.
Proof. induction l as [|r l IH]; [done|]. csimpl. by rewrite IH. Qed.

Lemma write_ends name rows ts :
  ends (_write name rows) (λ r ts',
    (∀ e, r = Err e → ts' = ts) ∧
    (r = Ok tt → _path name = Ok tt ∧ ∃ v, ts' = <[name := document v rows]> ts)) ts.
Proof.
  unfold _write. apply ends_bind. unfold ends. pose proof (version_state name ts) as Hs.
  destruct (version name ts) as [[v|e] ts'] eqn:E; simpl in *; subst.
  - unfold ends. simpl. split; [naive_solver|]. intros _. split; [|naive_solver].
    unfold version, _read_payload, mbind, tx_bind in E. by destruct (_path name) as [[]|].
  - naive_solver.
Qed.

Lemma read_written name v rows ts :
  _path name = Ok tt → (read_table name (<[name := document v rows]> ts)).1 = Ok rows.
Proof.
  intros H. unfold read_table, _read_payload, mbind, tx_bind. rewrite H, lookup_insert_eq. simpl.
  apply as_rows_VDict.
Qed.

Lemma read_payload_other name name' f ts :
  name' ≠ name → (_read_payload name' (<[name := f]> ts)).1 = (_read_payload name' ts).1.
Proof. intros H. unfold _read_payload. rewrite lookup_insert_ne by done. by repeat case_match. Qed.

Lemma read_other name name' f ts :
  name' ≠ name → (read_table name' (<[name := f]> ts)).1 = (read_table name' ts).1.
Proof.
  intros H. unfold read_table, mbind, tx_bind. pose proof (read_payload_other name name' f ts H) as E.
  destruct (_read_payload name' (<[name := f]> ts)) as [[] ?], (_read_payload name' ts) as [[] ?];
    simpl in E; by simplify_eq.
Qed.

Lemma partition_other name f tc d ts : tc.1 ≠ name → partition (<[name := f]> ts) tc d = partition ts tc d.
Proof. intros H. unfold partition. by rewrite read_other. Qed.

(** Replacing one partition replaces it, or nothing. *)
Lemma replace_partition_ends name column d rows ts :
  ends (replace_partition name column d rows) (λ r ts',
    (∀ tc d', tc.1 ≠ name ∨ tc = (name, column) ∧ d' ≠ d → partition ts' tc d' = partition ts tc d') ∧
    (∀ e, r = Err e → ts' = ts) ∧
    (∀ n, r = Ok n → ∃ normalized, map_result _jsonable_row rows = Ok normalized ∧
       partition ts' (name, column) d = Ok normalized)) ts.
Proof.
  unfold replace_partition. apply ends_bind, ends_lift.
  destruct (map_result _jsonable_row rows) as [normalized|e]; [|naive_solver].
  apply ends_bind. unfold tx_require. apply ends_lift. unfold require.
  destruct (forallb (in_partition column d) normalized) eqn:Hn; [|naive_solver].
  apply ends_bind. unfold ends at 1. pose proof (read_table_state name ts) as Hs.
  destruct (read_table name ts) as [[current|e] ts'] eqn:Hc; simpl in Hs; subst ts'; [|naive_solver].
  apply ends_bind. eapply ends_mono; [|apply write_ends]. intros [[]|e] ts' [He Ho]; [|naive_solver].
  apply ends_ret. destruct (Ho eq_refl) as (Hp&v&->). clear He Ho. split; [|split; [done|]].
  - intros tc d' [H|[-> Hd]]; [by apply partition_other|]. unfold partition. simpl.
    rewrite read_written, Hc by done. simpl. f_equal. rewrite filter_app, list_filter_filter.
    replace (filter (λ r, in_partition column d' r = true) normalized) with (@nil Row).
    { rewrite app_nil_r. apply list_filter_iff. intros r. rewrite in_partition_eq.
      split; [by intros [? ?]|]. intros H. split; [done|]. destruct (in_partition column d r) eqn:E; [|done].
      apply in_partition_eq in E. congruence. }
    symmetry. apply elem_of_nil_inv. intros r [Hr Hin]%list_elem_of_filter.
    rewrite forallb_forall in Hn. apply list_elem_of_In, Hn in Hin. rewrite in_partition_eq in *. congruence.
  - intros n _. exists normalized. split; [done|]. unfold partition. simpl. rewrite read_written by done.
    simpl. f_equal. rewrite filter_app, list_filter_filter.
    replace (filter _ current) with (@nil Row); simpl.
    + apply filter_all. intros r Hr. rewrite forallb_forall in Hn. by apply Hn, list_elem_of_In.
    + symmetry. apply elem_of_nil_inv. intros r [[H1 H2] _]%list_elem_of_filter. congruence.
Qed.

Lemma replace_table_ends name rows ts :
  ends (replace_table name rows) (λ _ ts', ∀ tc d, tc.1 ≠ name → partition ts' tc d = partition ts tc d) ts.
Proof.
  unfold replace_table. apply ends_bind, ends_lift. destruct (map_result _ _); [|done].
  apply ends_bind. eapply ends_mono; [|apply write_ends]. intros [[]|e] ts' [He Ho].
  - apply ends_ret. destruct (Ho eq_refl) as (_&v&->). intros. by apply partition_other.
  - by rewrite (He e).
Qed.

(** ** The facts in a partition *)

(** The tables whose rows depend on committed outputs only. *)
Definition flow_partitions : list (string * string) := take 3 fact_partitions.

Definition flow_facts (table : string) (c : Collected) (d now : string) : list Row :=
  if String.eqb table "gold_flow_minute" then _flow_rows (cl_minutes c) "minute_utc" d now
  else if String.eqb table "gold_flow_hour" then _flow_rows (cl_hours c) "hour_utc" d now
  else snd <$> sort_by (λ a b, str_leb a.1 b.1) (cl_videos c).

Lemma facts_of_flow fromisoformat l control d now f tc :
  _fact_rows_for_date fromisoformat l control d now = Ok f → tc ∈ flow_partitions →
  ∃ c, fold_result (collect fromisoformat d) l nothing_collected = Ok c ∧
    facts_of f tc.1 = flow_facts tc.1 c d now.
Proof.
  unfold _fact_rows_for_date. intros H Htc. res_inv H. subst f. exists x. split; [done|].
  unfold flow_partitions in Htc. simpl in Htc. rewrite !elem_of_cons in Htc.
  destruct Htc as [->|[->|[->|?%elem_of_nil]]]; done.
Qed.

Lemma fact_partition_inj tc tc' : tc ∈ fact_partitions → tc' ∈ fact_partitions → tc.1 = tc'.1 → tc = tc'.
Proof.
  unfold fact_partitions. rewrite !elem_of_cons. intros H H'.
  repeat (destruct H as [->|H]; [|]); repeat (destruct H' as [->|H']; [|]);
    by rewrite ?elem_of_nil in *.
Qed.

Section builds.
Context (fromisoformat : string → result (option Z)).

(** A partition holds the facts of its date from these outputs, as of some refresh. *)
Definition built (l : list CommittedOutput) (tc : string * string) (d : string) (ts : Tables) : Prop :=
  ∃ c now rows, fold_result (collect fromisoformat d) l nothing_collected = Ok c ∧
    map_result _jsonable_row (flow_facts tc.1 c d now) = Ok rows ∧ partition ts tc d = Ok rows.

(** From [ts] to [ts'], every partition of these tables is unchanged or built. *)
Definition steps (l : list CommittedOutput) (ts ts' : Tables) : Prop :=
  ∀ tc d, tc ∈ flow_partitions → partition ts' tc d = partition ts tc d ∨ built l tc d ts'.

Lemma built_same l tc d ts ts' : partition ts' tc d = partition ts tc d → built l tc d ts → built l tc d ts'.
Proof. intros E (c&now&rows&H1&H2&H3). exists c, now, rows. by rewrite E. Qed.

#[export] Instance steps_preorder l : PreOrder (steps l).
Proof.
  split.
  - intros ts tc d _. by left.
  - intros t1 t2 t3 H12 H23 tc d Htc. destruct (H23 tc d Htc) as [E|]; [|by right].
    destruct (H12 tc d Htc) as [E'|Hb]; [left; congruence|right]. by eapply built_same.
Qed.

Lemma steps_built l tc d ts ts' : tc ∈ flow_partitions → steps l ts ts' → built l tc d ts → built l tc d ts'.
Proof. intros Htc H Hb. destruct (H tc d Htc); [by eapply built_same|done]. Qed.

(** Changes of the tables only. *)
Definition only_tables (w w' : World) : Prop :=
  w_state w' = w_state w ∧ w_reads w' = w_reads w ∧ w_ticks w' = w_ticks w.

Definition wsteps (l : list CommittedOutput) (w w' : World) : Prop :=
  only_tables w w' ∧ steps l (w_tables w) (w_tables w').

#[export] Instance wsteps_preorder l : PreOrder (wsteps l).
Proof.
  split; [by intros w; split|].
  intros w1 w2 w3 [[a [b c]] H] [[a' [b' c']] H']. split; [split; [|split]; congruence|by etrans].
Qed.

Lemma on_tables_ends {A} (m : tx Tables A) (Q : result A → World → Prop) w :
  ends m (λ r ts, Q r (put_tables ts w)) (w_tables w) → ends (on_tables m) Q w.
Proof. unfold ends, on_tables. by destruct (m (w_tables w)). Qed.

(** The replacements of one date. *)
Lemma replace_fact_ends l control d now f tc w :
  _fact_rows_for_date fromisoformat l control d now = Ok f → tc ∈ fact_partitions →
  ends (on_tables (replace_partition tc.1 tc.2 d (facts_of f tc.1)))
    (λ r w', wsteps l w w' ∧ ∀ n, r = Ok n → tc ∈ flow_partitions → built l tc d (w_tables w')) w.
Proof.
  intros Hf Htc. apply on_tables_ends. eapply ends_mono; [|apply replace_partition_ends].
  intros r ts (Hother&He&Ho).
  assert (∀ n, r = Ok n → tc ∈ flow_partitions → built l tc d ts) as Hb.
  { intros n -> Hin. destruct (Ho n eq_refl) as (rows&Hr&Hp).
    destruct (facts_of_flow _ _ _ _ _ _ _ Hf Hin) as (c&Hc&Hfc).
    exists c, now, rows. rewrite <-Hfc. by destruct tc. }
  split; [|done]. split; [done|]. intros tc' d' Htc'. simpl.
  destruct (decide (tc'.1 = tc.1)) as [E|]; [|left; apply Hother; by left].
  assert (tc' = tc) as ->.
  { apply fact_partition_inj; [|done..]. eapply elem_of_take in Htc' as (i&Hi&_).
    by eapply list_elem_of_lookup_2. }
  destruct (decide (d' = d)) as [->|]; [|left; apply Hother; right; by destruct tc].
  destruct r as [n|e]; [right; by eapply Hb|left]. by rewrite (He e).
Qed.

Lemma build_date_ends l control now totals d w :
  ends (build_date fromisoformat l control now totals d) (λ r w',
    wsteps l w w' ∧ ∀ n, r = Ok n → ∀ tc, tc ∈ flow_partitions → built l tc d (w_tables w')) w.
Proof.
  unfold build_date. apply ends_bind, ends_lift.
  destruct (_fact_rows_for_date fromisoformat l control d now) as [f|e] eqn:Hf; [|by split].
  apply ends_bind. set (step := λ tc, on_tables (replace_partition tc.1 tc.2 d (facts_of f tc.1))).
  assert (∀ tcs w, (∀ tc, tc ∈ tcs → tc ∈ fact_partitions) →
    ends (tx_map step tcs) (λ r w', wsteps l w w' ∧
      ∀ n, r = Ok n → ∀ tc, tc ∈ tcs → tc ∈ flow_partitions → built l tc d (w_tables w')) w) as H.
  { intros tcs. induction tcs as [|tc tcs IH]; intros w0 Hin; cbn [tx_map].
    - apply ends_ret. split; [done|]. intros n _ tc ?%elem_of_nil. done.
    - apply ends_bind. eapply ends_mono; [|eapply (replace_fact_ends l); [exact Hf|apply Hin; by left]].
      intros [n|e] w1 [H1 Hb1]; [|by split]. apply ends_bind.
      eapply ends_mono; [|apply IH; intros; apply Hin; by right]. intros [ns|e] w2 [H2 Hb2].
      + apply ends_ret. split; [by etrans|]. intros _ _ tc' [->|Htc']%elem_of_cons Hfl; [|by eapply Hb2].
        eapply steps_built; [done|apply H2|by eapply Hb1].
      + split; [by etrans|done]. }
  eapply ends_mono; [|by apply (H fact_partitions)]. intros [ns|e] w' [Hs Hb]; [|by split].
  apply ends_ret. split; [done|]. intros _ _ tc Htc. eapply Hb; [done| |done].
  eapply elem_of_take in Htc as (i&Hi&_). by eapply list_elem_of_lookup_2.
Qed.

Lemma build_dates_ends l control now totals dates w :
  ends (build_dates fromisoformat l control now totals dates) (λ r w',
    wsteps l w w' ∧
    ∀ n, r = Ok n → ∀ tc d, tc ∈ flow_partitions → d ∈ dates → built l tc d (w_tables w')) w.
Proof.
  revert totals w. induction dates as [|d dates IH]; intros totals w; simpl.
  - apply ends_ret. split; [done|]. intros n _ tc d _ ?%elem_of_nil. done.
  - apply ends_bind. eapply ends_mono; [|apply build_date_ends]. intros [n|e] w1 [H1 Hb1]; [|by split].
    eapply ends_mono; [|apply IH]. intros r w2 [H2 Hb2]. split; [by etrans|].
    intros n' Hr tc d' Htc [->|Hd]%elem_of_cons; [|by eapply Hb2].
    eapply steps_built; [done|apply H2|by eapply Hb1].
Qed.
End builds.
End Build.
