(* ===== verification/GoldConverge.v ===== *)
(** * Incremental builds agree with a full rebuild

    Dispatchers publish outputs while the gold job reads.  [all] lists every output
    that is ever published; a read sees those up to a publication sequence, which only
    grows.  A world is [consistent] if every partition holds its facts as of some read
    that is not older than the checkpoint; every build and run keeps it, also one that
    raises or is outrun, and one that advances the checkpoint leaves in every partition
    the facts of all outputs published before it. *)
From S2P Require Export GoldBuild.

Module Converge.
Import Job FactsTheorems Build.
Open Scope nat_scope.

(** The outputs published up to a sequence. *)
Definition upto (s : Z) (l : list CommittedOutput) : list CommittedOutput :=
  filter (λ o, co_publication_sequence o ≤ s)%Z l.

Section history.
Context (fromisoformat : string → result (option Z)).
Context (date_fromisoformat : string → result Z).
Context (valid_zone : string → bool).
Context (files : string → option Node).
Context (read_delta_records : string → string → string → result (list Row)).
Context (autoincrement : list Signal → Z).
Context (verify_output_hash : bool).
Context (db : nat → ControlDb) (clock : nat → Z).
Abbreviation outputs := (outputs fromisoformat files read_delta_records verify_output_hash).

(** What dispatchers do: published outputs stay as they are, and sequences grow. *)
Record history (all : list CommittedOutput) (seq : nat → Z) : Prop := {
  hi_positive : ∀ o, o ∈ all → (0 < co_publication_sequence o)%Z;
  hi_start : (0 ≤ seq 0%nat)%Z;
  hi_grows : ∀ i j, (i ≤ j)%nat → (seq i ≤ seq j)%Z;
  hi_outputs : ∀ i l, outputs (db i) = Ok l → l = upto (seq i) all;
  hi_source : ∀ i c, source_checkpoint (db i) = Ok c → sc_publication_sequence c = seq i;
  (** no collision of SHA-256 among the sources that are read *)
  hi_key : ∀ i j ci cj k, source_checkpoint (db i) = Ok ci → source_checkpoint (db j) = Ok cj →
    key ci = Ok k → key cj = Ok k → seq i = seq j;
}.

Context (all : list CommittedOutput) (seq : nat → Z) (Hh : history all seq).
Abbreviation built := (built fromisoformat).

(** No older than the checkpoint of the flow facts. *)
Definition since (st : GoldState) (s : Z) : Prop :=
  match checkpoint "facts:flow" st with Some ck => (ck_publication_sequence ck ≤ s)%Z | None => True end.

Definition consistent (w : World) : Prop :=
  ∀ tc d, tc ∈ flow_partitions →
    ∃ s, since (w_state w) s ∧ (s ≤ seq (w_reads w))%Z ∧ built (upto s all) tc d (w_tables w).

(** Every partition holds the facts of all outputs up to [s]. *)
Definition current (s : Z) (w : World) : Prop :=
  ∀ tc d, tc ∈ flow_partitions → built (upto s all) tc d (w_tables w).

(** Reads, and changes of the tables by builds of outputs seen at a read from [i] on. *)
Definition moves (i : nat) (w w' : World) : Prop :=
  w_state w' = w_state w ∧ (w_reads w ≤ w_reads w')%nat ∧
  ∀ tc d, tc ∈ flow_partitions → partition (w_tables w') tc d = partition (w_tables w) tc d ∨
    ∃ s, (seq i ≤ s ≤ seq (w_reads w'))%Z ∧ built (upto s all) tc d (w_tables w').

Lemma moves_refl i w : moves i w w.
Proof. split; [done|]. split; [done|]. intros. by left. Qed.

Lemma moves_trans i w1 w2 w3 : moves i w1 w2 → moves i w2 w3 → moves i w1 w3.
Proof.
  intros (S1&R1&T1) (S2&R2&T2). split; [congruence|]. split; [lia|]. intros tc d Htc.
  destruct (T2 tc d Htc) as [E|]; [|by right]. destruct (T1 tc d Htc) as [E'|(s&Hs&Hb)]; [left; congruence|].
  right. exists s. split; [pose proof (hi_grows _ _ Hh _ _ R2); lia|]. by eapply built_same.
Qed.

#[local] Instance moves_preorder i : PreOrder (moves i).
Proof. split; [intros w; apply moves_refl|intros w1 w2 w3; apply moves_trans]. Qed.

(** Only reads and readings of the clock. *)
Definition quiet (w w' : World) : Prop :=
  w_state w' = w_state w ∧ (w_reads w ≤ w_reads w')%nat ∧ w_tables w' = w_tables w.

#[local] Instance quiet_preorder : PreOrder quiet.
Proof. split; [by intros w|]. intros w1 w2 w3 (a&b&c) (a'&b'&c'). split; [congruence|]. split; [lia|congruence]. Qed.

Lemma quiet_moves i w w' : quiet w w' → moves i w w'.
Proof. intros (a&b&c). split; [done|]. split; [done|]. intros. left. by rewrite c. Qed.

Lemma moves_consistent i w w' : i = w_reads w → moves i w w' → consistent w → consistent w'.
Proof.
  intros -> (S&R&T) Hc tc d Htc. rewrite S. destruct (Hc tc d Htc) as (s&Hs&Hle&Hb).
  pose proof (hi_grows _ _ Hh _ _ R). destruct (T tc d Htc) as [E|(s'&Hs'&Hb')].
  - exists s. split; [done|]. split; [lia|]. by eapply built_same.
  - exists s'. split; [|split; [lia|done]]. unfold since in *. destruct (checkpoint _ _); [lia|done].
Qed.

Lemma current_consistent s w : current s w → since (w_state w) s → (s ≤ seq (w_reads w))%Z → consistent w.
Proof. intros H Hs Hle tc d Htc. exists s. auto. Qed.

(** ** Quiet calls *)

Lemma reading_ends {A} (query : ControlDb → result A) (Q : result A → World → Prop) w :
  Q (query (db (w_reads w))) (next_read w) → ends (reading db query) Q w.
Proof. done. Qed.

Lemma now_ends (Q : result Z → World → Prop) w : Q (Ok (clock (w_ticks w))) (next_tick w) → ends (now clock) Q w.
Proof. done. Qed.

Lemma next_read_quiet w : quiet w (next_read w).
Proof. split; [done|]. split; [simpl; lia|done]. Qed.

Lemma next_tick_quiet w : quiet w (next_tick w).
Proof. by split. Qed.

Lemma versions_ends names (Q : result (list (string * Z)) → World → Prop) w :
  (∀ r, Q r w) → ends (on_tables (versions names)) Q w.
Proof.
  intros H. unfold ends, on_tables. pose proof (versions_state names (w_tables w)) as E.
  destruct (versions names (w_tables w)) as [r ts]. simpl in E. subst. by destruct w.
Qed.

Lemma read_tables_ends names (Q : result AllTables → World → Prop) w :
  (∀ r, Q r w) → ends (on_tables (read_tables names)) Q w.
Proof.
  intros H. unfold ends, on_tables. pose proof (read_tables_state names (w_tables w)) as E.
  destruct (read_tables names (w_tables w)) as [r ts]. simpl in E. subst. by destruct w.
Qed.

(** Changes that leave the partitions alone. *)
Definition keeps (w w' : World) : Prop :=
  w_state w' = w_state w ∧ w_reads w ≤ w_reads w' ∧
  ∀ tc d, tc ∈ flow_partitions → partition (w_tables w') tc d = partition (w_tables w) tc d.

#[local] Instance keeps_preorder : PreOrder keeps.
Proof.
  split; [by intros w|]. intros w1 w2 w3 (a&b&c) (a'&b'&c'). split; [congruence|]. split; [lia|].
  intros. by rewrite c', c.
Qed.

Lemma quiet_keeps w w' : quiet w w' → keeps w w'.
Proof. intros (a&b&c). split; [done|]. split; [done|]. by rewrite c. Qed.

Lemma keeps_moves i w w' : keeps w w' → moves i w w'.
Proof. intros (a&b&c). split; [done|]. split; [done|]. intros. left. by apply c. Qed.

Lemma current_keeps s w w' : keeps w w' → current s w → current s w'.
Proof. intros (_&_&K) H tc d Htc. eapply built_same; [by apply K|by apply H]. Qed.

Lemma replace_other_ends name rows w :
  name ∉ flow_partitions.*1 → ends (on_tables (replace_table name rows)) (λ _, keeps w) w.
Proof.
  intros Hn. apply on_tables_ends. eapply ends_mono; [|apply replace_table_ends].
  intros r ts H. split; [done|]. split; [simpl; lia|]. intros tc d Htc. apply H.
  intros <-. apply Hn. by apply list_elem_of_fmap_2.
Qed.

(** ** Planning *)

(** Every output later than what a partition can hold has its dates planned. *)
Definition covers (st : GoldState) (l : list CommittedOutput) (dates : list string) : Prop :=
  ∀ o s, o ∈ l → since st s → (s < co_publication_sequence o)%Z →
    ∃ ds, _output_dates fromisoformat o = Ok ds ∧ ∀ d, d ∈ ds → d ∈ dates.

Lemma dates_of_covers l ds o :
  dates_of fromisoformat l = Ok ds → o ∈ l →
  ∃ ds', _output_dates fromisoformat o = Ok ds' ∧ ∀ d, d ∈ ds' → d ∈ ds.
Proof.
  unfold dates_of. intros H Ho. res_inv H. subst ds. apply map_result_Ok in Hs.
  induction Hs as [|o' ds' l' x H _ IH]; [by apply elem_of_nil in Ho|]. simpl.
  apply elem_of_cons in Ho as [->|Ho].
  - exists ds'. split; [done|]. intros d Hd. apply elem_of_app. by left.
  - destruct (IH Ho) as (ds2&E&Hd2). exists ds2. split; [done|].
    intros d Hd. apply elem_of_app. right. by apply Hd2.
Qed.

Lemma planned_dates_cover hist st previous flow_key operations_key h cutoff l control dates :
  planned_dates fromisoformat hist (checkpoint "facts:flow" st) previous flow_key operations_key h cutoff l control
  = Ok dates → covers st l dates.
Proof.
  assert (historic_dates fromisoformat l control = Ok dates → covers st l dates) as Hhist.
  { unfold historic_dates. intros H. res_inv H. subst dates. intros o s Ho _ _.
    destruct (dates_of_covers _ _ _ Hs Ho) as (ds&E&Hd). exists ds. split; [done|].
    intros d Hin. apply elem_of_app. left. by apply Hd. }
  unfold planned_dates. destruct hist; [done|].
  destruct (checkpoint "facts:flow" st) as [ck|] eqn:Hck; [|done]. destruct previous as [ops|]; [|done].
  unfold incremental_dates. intros H. res_inv H. subst dates. intros o s Ho Hsince Hlt.
  unfold since in Hsince. rewrite Hck in Hsince. unfold recent_flow_dates in Hs.
  destruct (dates_of_covers _ _ o Hs) as (ds&E&Hd).
  - apply list_elem_of_filter. split; [|done]. unfold is_recent.
    by rewrite (proj2 (Z.ltb_lt _ _)) by lia.
  - exists ds. split; [done|]. intros d Hin. apply elem_of_app. left. by apply Hd.
Qed.

Ltac quietly := unfold quiet; simpl; (split; [done|]); split; [lia|done].

Lemma plan_ends h full reset w :
  ends (plan fromisoformat files read_delta_records verify_output_hash db clock h full reset)
    (λ r w', quiet w w' ∧ ∀ p, r = Ok p → ∃ i l, w_reads w ≤ i < w_reads w' ∧
       outputs (db i) = Ok l ∧ covers (w_state w) l (pl_items p)) w.
Proof.
  unfold plan. apply ends_bind, ends_lift. destruct (require _ _); [|split; [quietly|done]].
  apply ends_bind, now_ends. apply ends_bind, ends_lift.
  destruct (minus_hours _ _) as [cutoff|]; [|split; [quietly|done]].
  apply ends_bind, reading_ends. destruct (source_checkpoint _) as [flow|]; [|split; [quietly|done]].
  apply ends_bind, reading_ends. destruct (operations_source_checkpoint _) as [ops|]; [|split; [quietly|done]].
  apply ends_bind. unfold saved at 1, ends at 1. apply ends_bind. unfold saved at 1, ends at 1.
  apply ends_bind, reading_ends. destruct (outputs _) as [l|] eqn:Hl; [|split; [quietly|done]].
  apply ends_bind, reading_ends. destruct (_control_rows _) as [control|]; [|split; [quietly|done]].
  apply ends_bind, ends_lift. destruct (key flow) as [flow_key|]; [|split; [quietly|done]].
  apply ends_bind, ends_lift. destruct (key ops) as [operations_key|]; [|split; [quietly|done]].
  apply ends_bind, ends_lift. destruct (planned_dates _ _ _ _ _ _ _ _ _ _) as [dates|] eqn:Hd; [|split; [quietly|done]].
  apply ends_ret. split; [quietly|]. intros p [= <-]. simpl in *. eexists _, l. split; [|split; [exact Hl|]].
  { lia. }
  apply planned_dates_cover in Hd. intros o s Ho Hs Hlt. destruct (Hd o s Ho Hs Hlt) as (ds&E&Hin).
  exists ds. split; [done|]. intros d Hdd. apply elem_of_sorted_set. by apply Hin.
Qed.

(** ** Building *)

Lemma upto_upto s S l : (s ≤ S)%Z → upto s (upto S l) = upto s l.
Proof. intros H. unfold upto. rewrite list_filter_filter. apply list_filter_iff. intros o. lia. Qed.

(** A partition whose date is not planned already holds the facts of all outputs. *)
Lemma unplanned_built st dates s S tc d ts :
  built (upto s all) tc d ts → since st s → (s ≤ S)%Z → covers st (upto S all) dates → d ∉ dates →
  built (upto S all) tc d ts.
Proof.
  intros (c&t&rows&Hc&Hr&Hp) Hs Hle Hcov Hd. exists c, t, rows. split; [|done].
  rewrite <-(upto_upto _ _ _ Hle) in Hc. unfold upto at 1 in Hc. rewrite collect_filter in Hc; [done|].
  intros o Ho Hlt. destruct (Hcov o s Ho Hs ltac:(lia)) as (ds&E&Hin). exists ds. split; [done|]. auto.
Qed.

Lemma wsteps_moves i j l w w' : outputs (db j) = Ok l → i ≤ j ≤ w_reads w →
  wsteps fromisoformat l w w' → moves i w w'.
Proof.
  intros Hl Hj [(a&b&c) H]. split; [done|]. split; [lia|]. intros tc d Htc.
  destruct (H tc d Htc) as [|Hb]; [by left|right]. exists (seq j).
  pose proof (hi_grows _ _ Hh i j ltac:(lia)). pose proof (hi_grows _ _ Hh j (w_reads w') ltac:(lia)).
  split; [lia|]. by rewrite (hi_outputs _ _ Hh _ _ Hl) in Hb.
Qed.

Abbreviation selected_dates := (selected_dates fromisoformat date_fromisoformat files read_delta_records
  verify_output_hash db clock).
Abbreviation build_partitions := (build_partitions fromisoformat date_fromisoformat files read_delta_records
  verify_output_hash db clock).

(** If nothing was published from [i] to the end, the partitions are current. *)
Lemma build_partitions_ends h force full w :
  consistent w →
  ends (build_partitions None h force full) (λ r w', moves (w_reads w) w w' ∧
    ∀ x, r = Ok x → seq (w_reads w) = seq (w_reads w') → current (seq (w_reads w)) w') w.
Proof.
  intros Hc. unfold Job.build_partitions. apply ends_bind. unfold Job.selected_dates. apply ends_bind.
  eapply ends_mono; [|apply plan_ends]. intros [p|e] w1 [Hq Hp]; [|split; [by apply quiet_moves|done]].
  apply ends_ret, ends_bind, reading_ends.
  assert (quiet w (next_read w1)) as Hq1 by (etrans; [exact Hq|apply next_read_quiet]).
  destruct (outputs (db (w_reads w1))) as [l|e] eqn:Hl; [|split; [by apply quiet_moves|done]].
  apply ends_bind, reading_ends.
  assert (quiet w (next_read (next_read w1))) as Hq2 by (etrans; [exact Hq1|apply next_read_quiet]).
  destruct (_control_rows _) as [control|e]; [|split; [by apply quiet_moves|done]].
  apply ends_bind, now_ends, ends_bind. set (w2 := next_tick _).
  assert (quiet w w2) as Hq3 by (etrans; [exact Hq2|apply next_tick_quiet]).
  eapply ends_mono; [|apply build_dates_ends]. intros r w3 [Hst Hb].
  assert (moves (w_reads w) w w3) as Hm.
  { etrans; [by apply quiet_moves|]. eapply (wsteps_moves _ _ l); [exact Hl| |exact Hst].
    destruct Hq as (_&?&_). simpl. lia. }
  destruct r as [totals|e]; [|by split]. apply ends_ret. split; [done|]. intros _ _ Hseq.
  destruct (Hp p eq_refl) as (i&lp&Hi&Hlp&Hcov). destruct Hst as [(_&Hr3&_) Hst].
  assert (∀ j, w_reads w ≤ j ≤ w_reads w3 → seq j = seq (w_reads w)) as Hall.
  { intros j Hj. pose proof (hi_grows _ _ Hh (w_reads w) j ltac:(lia)).
    pose proof (hi_grows _ _ Hh j (w_reads w3) ltac:(lia)). lia. }
  simpl in Hr3. rewrite (hi_outputs _ _ Hh _ _ Hl) in Hst, Hb.
  rewrite (Hall (w_reads w1)) in Hst, Hb by (destruct Hq as (_&?&_); lia).
  rewrite (hi_outputs _ _ Hh _ _ Hlp), (Hall i) in Hcov by lia.
  intros tc d Htc. destruct (decide (d ∈ pl_items p)) as [Hd|Hd]; [by eapply Hb|].
  destruct (Hst tc d Htc) as [E|]; [|done]. destruct (Hc tc d Htc) as (s&Hs&Hle&Hbs).
  eapply built_same; [exact E|]. destruct Hq3 as (_&_&->).
  by eapply unplanned_built.
Qed.

(** The checkpoint of the flow facts is among the updates only of a complete build,
    and names the sources that were read at its start. *)
Definition flow_updates (complete : bool) (s : Z) (u : Updates) : Prop :=
  (∀ src t, ("facts:flow"%string, (src, t)) ∈ u → complete = true ∧ sc_publication_sequence src = s) ∧
  (complete = true → "facts:flow"%string ∈ u.*1).

Lemma flow_updates_shape (complete : bool) src (targets : list (string * Z)) source operations selected :
  flow_updates complete (sc_publication_sequence src)
    (((λ d, ("facts:partition:" +:+ d, (source, targets)))%string <$> selected)
     ++ if complete then [("facts", (source, targets)); ("facts:flow", (src, targets));
                          ("facts:operations", (operations, targets))]%string else []).
Proof.
  split.
  - intros src' t [(d&[=]&_)%list_elem_of_fmap|H]%elem_of_app.
    destruct complete; [|by apply elem_of_nil in H]. split; [done|].
    rewrite !elem_of_cons in H.
    destruct H as [H|[H|[H|H%elem_of_nil]]]; [discriminate H|by injection H as -> _|discriminate H|done].
  - intros ->. rewrite fmap_app, elem_of_app. right. simpl. right. left.
Qed.

Abbreviation build_tables := (build_tables fromisoformat date_fromisoformat files read_delta_records
  verify_output_hash db clock).

Lemma build_tables_ends h force full flow operations flow_key operations_key k w :
  source_checkpoint (db k) = Ok flow → key flow = Ok flow_key → k ≤ w_reads w → consistent w →
  ends (build_tables None h force full flow operations flow_key operations_key) (λ r w',
    moves (w_reads w) w w' ∧
    ∀ x, r = Ok x → flow_updates x.1.2 (seq k) x.2 ∧ (x.1.2 = true → current (seq k) w')) w.
Proof.
  intros Hf Hk Hkw Hc. unfold Job.build_tables. apply ends_bind.
  eapply ends_mono; [|by apply build_partitions_ends]. intros r w1 [H1 Hcur]. destruct r as [x|e]; [|by split].
  specialize (Hcur x eq_refl). destruct x as [[[[selected committed] control] t] totals].
  apply ends_bind, ends_lift. destruct (_operational_rows _ _ _ _) as [op|e]; [|by split].
  apply ends_bind. eapply ends_mono; [|apply replace_other_ends; vm_compute; set_solver].
  intros [works|e] w2 K2; [|split; [etrans; [exact H1|by apply keeps_moves]|done]].
  apply ends_bind. eapply ends_mono; [|apply replace_other_ends; vm_compute; set_solver].
  intros [attempts|e] w3 K3%(transitivity K2); [|split; [etrans; [exact H1|by apply keeps_moves]|done]].
  assert (∀ v, quiet w3 v → moves (w_reads w) w v ∧ keeps w1 v) as Hm.
  { intros v Q. assert (keeps w1 v) as K by (etrans; [exact K3|by apply quiet_keeps]). split; [|done].
    etrans; [exact H1|by apply keeps_moves]. }
  apply ends_bind, versions_ends. intros [targets|e]; [|split; [by apply Hm|done]].
  apply ends_bind, reading_ends.
  destruct (source_checkpoint (db (w_reads w3))) as [latest|e] eqn:Hl; [|split; [apply Hm; quietly|done]].
  apply ends_bind, reading_ends.
  destruct (operations_source_checkpoint _) as [ops|e]; [|split; [apply Hm; quietly|done]].
  apply ends_bind, ends_lift. destruct (key latest) as [latest_key|e] eqn:Hlk; [|split; [apply Hm; quietly|done]].
  apply ends_bind, ends_lift. destruct (key ops) as [ops_key|e]; [|split; [apply Hm; quietly|done]].
  apply ends_ret. split; [apply Hm; quietly|]. intros x [= <-]. simpl. split.
  - rewrite <-(hi_source _ _ Hh _ _ Hf). apply flow_updates_shape.
  - intros [->%String.eqb_eq _]%andb_prop.
    pose proof (hi_key _ _ Hh _ _ _ _ _ Hf Hl Hk Hlk) as Heq. destruct H1 as (_&R1&_). pose proof K3 as (_&R3&_).
    assert (∀ j, k ≤ j ≤ w_reads w3 → seq j = seq k) as Hall.
    { intros j Hj. pose proof (hi_grows _ _ Hh k j ltac:(lia)).
      pose proof (hi_grows _ _ Hh j (w_reads w3) ltac:(lia)). lia. }
    rewrite <-(Hall (w_reads w)) by lia. apply (current_keeps _ w1); [apply Hm; quietly|].
    apply Hcur. by rewrite (Hall (w_reads w)), (Hall (w_reads w1)) by lia.
Qed.

Abbreviation build_facts := (build_facts fromisoformat date_fromisoformat files read_delta_records
  autoincrement verify_output_hash db clock).
Abbreviation build_dimensions := (build_dimensions fromisoformat date_fromisoformat valid_zone files
  read_delta_records autoincrement verify_output_hash db clock).

Abbreviation finish_facts := (finish_facts autoincrement clock).

(** A build ends early, or finishes the tables that it wrote. *)
Lemma build_facts_rule h force full save w Q :
  consistent w →
  (∀ r v, quiet w v → (∀ b, r = Ok b → b = skipped (br_source_key b)) → Q r v) →
  (∀ e v, moves (w_reads w) w v → Q (Err e) v) →
  (∀ x source source_key v, moves (w_reads w) w v → flow_updates x.1.2 (seq (w_reads w)) x.2 →
     (x.1.2 = true → current (seq (w_reads w)) v) → ends (finish_facts save source source_key x) Q v) →
  ends (build_facts None h force full save) Q w.
Proof.
  intros Hc Hq He Hfin. unfold Job.build_facts. apply ends_bind, reading_ends.
  destruct (source_checkpoint (db (w_reads w))) as [flow|e] eqn:Hf; [|apply Hq; [quietly|done]].
  apply ends_bind, reading_ends.
  destruct (operations_source_checkpoint _) as [ops|e]; [|apply Hq; [quietly|done]].
  apply ends_bind. unfold saved, ends at 1. apply ends_bind, versions_ends.
  intros [targets|e]; [|apply Hq; [quietly|done]].
  apply ends_bind, ends_lift. destruct (key (_fact_source _ _)) as [source_key|e]; [|apply Hq; [quietly|done]].
  apply ends_bind, ends_lift. destruct (key flow) as [flow_key|e] eqn:Hk; [|apply Hq; [quietly|done]].
  apply ends_bind, ends_lift. destruct (key ops) as [operations_key|e]; [|apply Hq; [quietly|done]].
  cbv zeta. destruct (_normal_incremental_facts_noop _ _ _ _ _ _).
  { apply ends_ret, Hq; [quietly|]. by intros b [= <-]. }
  set (w2 := next_read _). assert (quiet w w2) as Hq2 by quietly. apply ends_bind.
  eapply ends_mono; [|apply (build_tables_ends _ _ _ _ _ _ _ (w_reads w) w2);
    [exact Hf|exact Hk|apply Hq2|by eapply moves_consistent; [|apply quiet_moves; exact Hq2|]]].
  intros r w3 [H3 Hx]. assert (moves (w_reads w) w w3) as Hm.
  { etrans; [by apply quiet_moves|]. destruct H3 as (a&b&c). split; [done|]. split; [done|]. intros tc d Htc.
    destruct (c tc d Htc) as [?|(s&Hs&?)]; [by left|right]. exists s. split; [|done].
    destruct Hq2 as (_&?&_). pose proof (hi_grows _ _ Hh (w_reads w) (w_reads w2) ltac:(lia)). lia. }
  destruct r as [x|e]; [|by apply He]. destruct (Hx x eq_refl). by apply Hfin.
Qed.

Lemma build_facts_ends h force full w :
  consistent w →
  ends (build_facts None h force full false) (λ r w', moves (w_reads w) w w' ∧
    ∀ b, r = Ok b →
      flow_updates (br_complete_checkpoint_advanced b) (seq (w_reads w)) (br_checkpoint_updates b) ∧
      (br_complete_checkpoint_advanced b = true →
         br_skipped b = false ∧ current (seq (w_reads w)) w')) w.
Proof.
  intros Hc. apply build_facts_rule; [done|..].
  - intros r v Hq Hb. split; [by apply quiet_moves|]. intros b Hr. rewrite (Hb b Hr). simpl. split; [|done].
    split; [by intros ?? ?%elem_of_nil|done].
  - by split.
  - intros [[[[selected totals] tv] complete] updates] source source_key v Hm Hu Hcur.
    apply ends_bind, ends_ret, ends_ret. split; [done|]. intros b [= <-]. simpl in *. auto.
Qed.

(** ** Dimensions *)

Lemma replace_tables_ends rows w : ends (on_tables (replace_tables rows)) (λ _, keeps w) w.
Proof.
  apply on_tables_ends.
  set (R := λ ts ts' : Tables, ∀ tc d, tc ∈ flow_partitions → partition ts' tc d = partition ts tc d).
  assert (PreOrder R) by (split; [by intros ts tc d|intros a b c Hab Hbc tc d Htc; by rewrite Hbc, Hab]).
  eapply ends_mono; [|apply (ends_map R)].
  - intros r ts HR. split; [done|]. split; [simpl; lia|exact HR].
  - intros name ts Hn. apply ends_bind. eapply ends_mono; [|apply replace_table_ends].
    intros r ts' Hr. assert (R ts ts') as HR.
    { intros tc d Htc. apply Hr. intros <-. apply (list_elem_of_fmap_2 fst) in Htc. revert Htc.
      assert (Forall (λ n, n ∉ flow_partitions.*1) DIMENSION_TABLES) as Hd by by apply (bool_decide_unpack _).
      rewrite Forall_forall in Hd. by apply Hd. }
    by destruct r.
Qed.

Lemma build_dimensions_ends full force w :
  ends (build_dimensions full force false) (λ r w', keeps w w' ∧
    ∀ b x, r = Ok b → ("facts:flow"%string, x) ∉ br_checkpoint_updates b) w.
Proof.
  assert (∀ v, quiet w v → keeps w v) as Hq by (intros; by apply quiet_keeps).
  unfold Job.build_dimensions. apply ends_bind, reading_ends.
  destruct (source_checkpoint _) as [source|e]; [|split; [apply Hq; quietly|done]].
  apply ends_bind, versions_ends. intros [fv|e]; [|split; [apply Hq; quietly|done]].
  apply ends_bind. unfold saved, ends at 1. apply ends_bind, versions_ends.
  intros [dv|e]; [|split; [apply Hq; quietly|done]].
  apply ends_bind, ends_lift. destruct (key _) as [k|e]; [|split; [apply Hq; quietly|done]].
  destruct (negb full && _ && _ && _).
  { apply ends_ret. split; [apply Hq; quietly|]. intros b x [= <-]. simpl. by intros ?%elem_of_nil. }
  apply ends_bind, reading_ends. destruct (outputs _) as [l|e]; [|split; [apply Hq; quietly|done]].
  apply ends_bind, read_tables_ends. intros [facts|e]; [|split; [apply Hq; quietly|done]].
  apply ends_bind, now_ends, ends_bind, ends_lift.
  destruct (_dimension_rows _ _ _ _ _ _) as [rows|e]; [|split; [apply Hq; quietly|done]].
  set (w1 := next_tick _). assert (keeps w w1) as K1 by (apply Hq; quietly).
  apply ends_bind. eapply ends_mono; [|apply replace_tables_ends].
  intros [counts|e] w2 K2%(transitivity K1); [|by split].
  apply ends_bind, versions_ends. intros [tv|e]; [|by split].
  apply ends_bind, ends_ret, ends_ret. split; [done|]. intros b x [= <-]. simpl.
  rewrite list_elem_of_singleton. intros [=].
Qed.

(** ** Saving *)

(** The checkpoint of the flow facts comes from an update if there is one. *)
Definition flow_saved (u : Updates) (st st' : GoldState) : Prop :=
  ("facts:flow"%string ∉ u.*1 → checkpoint "facts:flow" st' = checkpoint "facts:flow" st) ∧
  ("facts:flow"%string ∈ u.*1 → ∃ src t ck, ("facts:flow"%string, (src, t)) ∈ u ∧
     checkpoint "facts:flow" st' = Some ck ∧ ck_publication_sequence ck = sc_publication_sequence src).

Lemma save_checkpoint_flow stage source targets t st u st' :
  _save_checkpoint stage source targets t st = (Ok u, st') →
  (stage ≠ "facts:flow"%string → checkpoint "facts:flow" st' = checkpoint "facts:flow" st) ∧
  (stage = "facts:flow"%string → ∃ ck, checkpoint "facts:flow" st' = Some ck ∧
     ck_publication_sequence ck = sc_publication_sequence source).
Proof.
  unfold _save_checkpoint. intros H. tx_inv H. unfold checkpoint, put_checkpoint. simpl. split.
  - intros Hne. by rewrite lookup_insert_ne.
  - intros ->. rewrite lookup_insert_eq. eauto.
Qed.

Lemma save_all_flow (u : Updates) t st x st' :
  tx_for (λ '(stage, (source, targets)), _save_checkpoint stage source targets t) u st = (Ok x, st') →
  flow_saved u st st'.
Proof.
  apply (tx_for_prefix (λ done s, flow_saved done st s)).
  - intros dn [stage [source targets]] rest s1 s2 _ [H1 H2] Hs.
    apply save_checkpoint_flow in Hs as [Ho Hf]. unfold flow_saved. rewrite fmap_app. simpl.
    destruct (decide (stage = "facts:flow"%string)) as [->|Hne].
    + split; [intros []; apply elem_of_app; right; left|]. intros _.
      destruct (Hf eq_refl) as (ck&E&Es). exists source, targets, ck. split; [|done].
      apply elem_of_app. right. left.
    + rewrite Ho by done. split; [intros Hn; apply H1; intros ?; apply Hn, elem_of_app; by left|].
      intros [Hin|Hin%list_elem_of_singleton]%elem_of_app; [|congruence].
      destruct (H2 Hin) as (src&tt'&ck&Hu&Hck). exists src, tt', ck. split; [|done]. apply elem_of_app. by left.
  - split; [done|]. by intros ?%elem_of_nil.
Qed.

Lemma insert_signal_ends reason src targets t st :
  ends (insert_signal autoincrement reason src targets t) (λ _ st', gs_checkpoints st' = gs_checkpoints st) st.
Proof.
  unfold insert_signal. apply ends_bind, ends_lift. destruct (key src); [|done].
  apply ends_bind, ends_lift. destruct (_sha256_json _) as [dedupe|]; [|done].
  apply ends_bind, ends_lift. destruct (_canonical_json _); [|done].
  apply ends_bind. unfold tx_get, ends at 1. by destruct (head _).
Qed.

Lemma save_and_enqueue_ends u reason src targets w :
  ends (save_and_enqueue autoincrement clock u reason src targets) (λ r w',
    w_tables w' = w_tables w ∧ w_reads w' = w_reads w ∧
    (∀ e, r = Err e → w_state w' = w_state w) ∧ (∀ x, r = Ok x → flow_saved u (w_state w) (w_state w'))) w.
Proof.
  unfold save_and_enqueue. apply ends_bind, now_ends. unfold ends, on_state. simpl.
  destruct (save_checkpoints_and_enqueue _ _ _ _ _ _ _) as [r st] eqn:E. simpl.
  split; [done|]. split; [done|]. unfold save_checkpoints_and_enqueue, transaction in E.
  match type of E with match ?m with _ => _ end = _ => destruct m as [[x|e] st'] eqn:E' end; simplify_eq; [|done].
  split; [done|]. intros _ _. apply tx_bind_Ok in E' as ([]&st1&E1&E2).
  apply save_all_flow in E1. assert (gs_checkpoints st = gs_checkpoints st1) as Eck.
  { destruct reason as [reason|]; [|by apply tx_ret_Ok in E2 as [_ ->]].
    apply tx_fmap_Ok in E2 as (id&E2&_).
    exact (ends_run _ _ _ _ _ (insert_signal_ends reason src targets (_iso (clock (w_ticks w))) st1) E2). }
  unfold flow_saved, checkpoint in *. by rewrite Eck.
Qed.

Lemma merge_updates_elem a b kv : kv ∈ merge_updates a b → kv ∈ a ∨ kv ∈ b.
Proof.
  unfold merge_updates. revert a. induction b as [|[k v] b IH]; intros a; simpl; [by left|].
  intros [H|H]%IH; [|right; by right]. assert (∀ d, kv ∈ dset k v d → kv = (k, v) ∨ kv ∈ d) as Hd.
  { intros d. induction d as [|[k' v'] d IHd]; simpl; [set_solver|]. destruct (decide (k = k')); set_solver. }
  destruct (Hd _ H) as [->|]; [right; left|by left].
Qed.

Lemma merge_updates_key a b k : k ∈ a.*1 → k ∈ (merge_updates a b).*1.
Proof.
  unfold merge_updates. revert a. induction b as [|[k' v] b IH]; intros a Hk; simpl; [done|].
  apply IH, dset_keys. by right.
Qed.

(** ** A whole run *)

Lemma consistent_since w : consistent w → ∃ s, since (w_state w) s ∧ (s ≤ seq (w_reads w))%Z.
Proof. intros H. destruct (H ("gold_video", "capture_date")%string "") as (s&?&?&_); [vm_compute; set_solver|eauto]. Qed.

Lemma consistent_transfer w w' :
  consistent w → w_tables w' = w_tables w → w_reads w ≤ w_reads w' →
  checkpoint "facts:flow" (w_state w') = checkpoint "facts:flow" (w_state w) → consistent w'.
Proof.
  intros Hc Ht Hr Hk tc d Htc. destruct (Hc tc d Htc) as (s&Hs&Hle&Hb). exists s. unfold since in *.
  rewrite Hk, Ht. pose proof (hi_grows _ _ Hh _ _ Hr). split; [done|]. split; [lia|done].
Qed.

(** Saving the checkpoints of a build that may be current. *)
Lemma saved_consistent complete u w w1 w' :
  flow_updates complete (seq (w_reads w)) u → (complete = true → current (seq (w_reads w)) w1) →
  consistent w1 → w_reads w ≤ w_reads w1 →
  w_tables w' = w_tables w1 → w_reads w1 ≤ w_reads w' → flow_saved u (w_state w1) (w_state w') →
  consistent w' ∧ (complete = true → current (seq (w_reads w)) w' ∧
    ck_publication_sequence <$> checkpoint "facts:flow" (w_state w') = Some (seq (w_reads w))).
Proof.
  intros [Hu Hin] Hcur Hc Hr Ht Hr' [Hno Hyes].
  assert (current (seq (w_reads w)) w1 → current (seq (w_reads w)) w') as Hcur'.
  { intros H tc d Htc. rewrite Ht. by apply H. }
  destruct (decide ("facts:flow"%string ∈ u.*1)) as [Hk|Hk].
  - destruct (Hyes Hk) as (src&t&ck&Hel&E&Es). destruct (Hu _ _ Hel) as [-> Hseq]. specialize (Hcur eq_refl).
    split; [|intros _; split; [by apply Hcur'|by rewrite E; simpl; rewrite Es, Hseq]].
    eapply current_consistent; [by apply Hcur'| |pose proof (hi_grows _ _ Hh (w_reads w) (w_reads w') ltac:(lia)); lia].
    unfold since. rewrite E. lia.
  - split; [by eapply consistent_transfer; eauto|]. intros Hcomp. destruct (Hk (Hin Hcomp)).
Qed.

Lemma flow_updates_merge complete s u v :
  flow_updates complete s u → (∀ x, ("facts:flow"%string, x) ∉ v) → flow_updates complete s (merge_updates u v).
Proof.
  intros [H1 H2] Hv. split.
  - intros src t [H|H]%merge_updates_elem; [by eapply H1|by destruct (Hv (src, t))].
  - intros Hc. by apply merge_updates_key, H2.
Qed.

Lemma build_and_save_ends h force full w :
  consistent w →
  ends (build_facts None h force full true) (λ r w', consistent w' ∧
    ∀ b, r = Ok b → br_complete_checkpoint_advanced b = true →
      current (seq (w_reads w)) w' ∧
      ck_publication_sequence <$> checkpoint "facts:flow" (w_state w') = Some (seq (w_reads w))) w.
Proof.
  intros Hc. assert (∀ v, moves (w_reads w) w v → consistent v) as Hcons by (intros; by eapply moves_consistent).
  apply build_facts_rule; [done|..].
  - intros r v Hq Hb. split; [by apply Hcons, quiet_moves|]. intros b Hr. by rewrite (Hb b Hr).
  - intros e v Hm. split; [by apply Hcons|done].
  - intros [[[[selected totals] tv] complete] updates] source source_key v Hm Hu Hcur. simpl in *.
    apply ends_bind. eapply ends_mono; [|apply save_and_enqueue_ends]. intros r w4 (Ht&Hr&He&Ho).
    destruct r as [id|e].
    + destruct (saved_consistent complete updates w v w4 Hu Hcur) as [C4 F4];
        [by apply Hcons|apply Hm|done|lia|by eapply Ho|].
      apply ends_ret. split; [done|]. by intros b [= <-].
    + split; [|done]. eapply consistent_transfer; [by apply Hcons|done|lia|]. by rewrite (He e).
Qed.

Lemma run_ends h force full w :
  consistent w →
  ends (run fromisoformat date_fromisoformat valid_zone files read_delta_records autoincrement
          verify_output_hash db clock h force full)
    (λ r w', consistent w' ∧ ∀ x, r = Ok x → br_complete_checkpoint_advanced (rr_facts x) = true →
       current (seq (w_reads w)) w' ∧
       ck_publication_sequence <$> checkpoint "facts:flow" (w_state w') = Some (seq (w_reads w))) w.
Proof.
  intros Hc. unfold run. apply ends_bind. eapply ends_mono; [|by apply build_facts_ends].
  intros [facts|e] w1 [H1 Hf]; [|split; [by eapply moves_consistent|done]]. specialize (Hf facts eq_refl).
  destruct Hf as [Hu Hcur]. assert (∀ v, keeps w1 v → consistent v) as Hcons.
  { intros v K. eapply (moves_consistent (w_reads w)); [done| |exact Hc]. etrans; [exact H1|by apply keeps_moves]. }
  apply ends_bind. eapply ends_mono; [|apply build_dimensions_ends].
  intros [dims|e] w2 [K2 Hd]; [|split; [by apply Hcons|done]].
  apply ends_bind. unfold validate. apply ends_bind, read_tables_ends.
  intros [tables|e]; [|split; [by apply Hcons|done]]. apply ends_bind, ends_lift.
  destruct (_validate_tables tables) as [rules|e]; [|split; [by apply Hcons|done]].
  apply ends_ret, ends_bind. destruct (br_skipped facts && br_skipped dims) eqn:Hskip.
  { apply ends_ret, ends_bind. unfold tx_get, ends at 1. apply ends_bind, ends_lift.
    destruct (pending_refreshes _); [|split; [by apply Hcons|done]]. apply ends_ret. split; [by apply Hcons|].
    intros x [= <-] Hx. simpl in Hx. destruct (Hcur Hx) as [Hs _]. by rewrite Hs in Hskip. }
  assert (∀ v, quiet w2 v → consistent v) as Hq.
  { intros v Q. apply Hcons. etrans; [exact K2|by apply quiet_keeps]. }
  apply ends_bind, reading_ends. destruct (source_checkpoint _) as [flow|e]; [|split; [apply Hq; quietly|done]].
  apply ends_bind, reading_ends.
  destruct (operations_source_checkpoint _) as [ops|e]; [|split; [apply Hq; quietly|done]].
  apply ends_bind, versions_ends. intros [targets|e]; [|split; [apply Hq; quietly|done]].
  set (w3 := next_read (next_read w2)). assert (quiet w2 w3) as Q3 by quietly.
  assert (keeps w1 w3) as K3 by (etrans; [exact K2|by apply quiet_keeps]).
  eapply ends_mono; [|apply save_and_enqueue_ends]. intros r w4 (Ht&Hr&He&Ho). destruct r as [id|e].
  - assert (flow_updates (br_complete_checkpoint_advanced facts) (seq (w_reads w))
      (merge_updates (br_checkpoint_updates facts) (br_checkpoint_updates dims))) as Hm.
    { apply flow_updates_merge; [done|]. intros x. by apply (Hd dims). }
    assert (w_reads w ≤ w_reads w3) as R3 by (destruct H1 as (_&R1&_), K3 as (_&R3&_); lia).
    destruct (saved_consistent _ _ w w3 w4 Hm) as [C4 F4]; [|by apply Hq|done|done|lia|by eapply Ho|].
    { intros Hx. apply (current_keeps _ w1); [done|]. by apply Hcur. }
    apply ends_bind. unfold tx_get, ends at 1. apply ends_bind, ends_lift.
    destruct (pending_refreshes _); [|by split]. apply ends_ret. split; [done|]. by intros x [= <-].
  - split; [|done]. eapply consistent_transfer; [by apply Hq, Q3|done|lia|]. by rewrite (He e).
Qed.

(** ** Any number of calls from an empty store *)

(** The two entry points that plan by themselves. *)
Inductive call := Build (lookback_hours : Z) (force full_rebuild : bool) | Run (lookback_hours : Z) (force full_rebuild : bool).

Definition perform (c : call) : tx World BuildResult :=
  match c with
  | Build h force full => build_facts None h force full true
  | Run h force full =>
      rr_facts <$> run fromisoformat date_fromisoformat valid_zone files read_delta_records autoincrement
                     verify_output_hash db clock h force full
  end.

(** Worlds after calls that returned or raised. *)
Inductive reached : World → Prop :=
  | reached_empty w : w_tables w = ∅ → w_reads w = 0 → checkpoint "facts:flow" (w_state w) = None → reached w
  | reached_call w c r w' : reached w → perform c w = (r, w') → reached w'.

Lemma perform_ends c w :
  consistent w →
  ends (perform c) (λ r w', consistent w' ∧
    ∀ b, r = Ok b → br_complete_checkpoint_advanced b = true →
      current (seq (w_reads w)) w' ∧
      ck_publication_sequence <$> checkpoint "facts:flow" (w_state w') = Some (seq (w_reads w))) w.
Proof.
  intros Hc. destruct c as [h force full|h force full]; simpl; [by apply build_and_save_ends|].
  pose proof (run_ends h force full w Hc) as H. unfold ends in *. unfold fmap, tx_fmap.
  destruct (run _ _ _ _ _ _ _ _ _ _ _ _ w) as [[x|e] w']; destruct H as [H1 H2]; (split; [done|]); [|done].
  intros b [= <-]. by apply H2.
Qed.

Lemma empty_consistent w : w_tables w = ∅ → w_reads w = 0 → checkpoint "facts:flow" (w_state w) = None → consistent w.
Proof.
  intros Ht Hr Hk tc d Htc. exists 0%Z. unfold since. rewrite Hk, Hr. split; [done|].
  split; [apply (hi_start _ _ Hh)|]. exists nothing_collected, ""%string, [].
  replace (upto 0 all) with (@nil CommittedOutput).
  - rewrite Ht. revert Htc. unfold flow_partitions. simpl. rewrite !elem_of_cons.
    intros [->|[->|[->|?%elem_of_nil]]]; done.
  - symmetry. apply elem_of_nil_inv. intros o [Ho Hin]%list_elem_of_filter.
    pose proof (hi_positive _ _ Hh o Hin). lia.
Qed.

Lemma reached_consistent w : reached w → consistent w.
Proof.
  induction 1 as [w Ht Hr Hk|w c r w' _ IH H]; [by apply empty_consistent|].
  exact (proj1 (ends_run _ _ _ _ _ (perform_ends c w IH) H)).
Qed.
End history.
End Converge.
