(* ===== verification/GoldLate.v ===== *)
(** * What an incremental build leaves out of the operations facts

    The dates of a plan, when nothing on a date is recent; the partitions of dates that
    are not planned; and the failures that the operations facts of a date count. *)
From S2P Require Export GoldConverge.

Module Late.
Import Job FactsTheorems Build Converge.
Open Scope string_scope.

Section dates.
Context (fromisoformat : string → result (option Z)).
Abbreviation column_date := (column_date fromisoformat).
Abbreviation row_dates := (row_dates fromisoformat).
Abbreviation _control_dates := (_control_dates fromisoformat).

(** ** The dates of the control rows *)

(** A timestamp in a dated column of the control rows. *)
Definition timestamp (control : Control) (t : Z) : Prop :=
  ∃ row column,
    (row ∈ ct_work control ∧ column ∈ work_date_columns ∨
     row ∈ ct_attempts control ∧ column ∈ attempt_date_columns) ∧
    _optional_datetime fromisoformat (dict_get column row) = Ok (Some t).

Lemma column_date_recent c row column ds d :
  column_date (Some c) row column = Ok ds → d ∈ ds →
  ∃ t, _optional_datetime fromisoformat (dict_get column row) = Ok (Some t) ∧ (c ≤ t)%Z ∧ day_of t = d.
Proof.
  unfold Gold.column_date. case_match; [by intros [= <-] ?%elem_of_nil|]. intros E. res_inv E.
  destruct x as [t|]; simplify_eq; [|by intros ?%elem_of_nil].
  destruct (Z.leb_spec c t); [|by intros ?%elem_of_nil]. intros ->%list_elem_of_singleton. eauto.
Qed.

Lemma map_result_elem {A B} (f : A → result B) l k y :
  map_result f l = Ok k → y ∈ k → ∃ x, x ∈ l ∧ f x = Ok y.
Proof.
  intros H%map_result_Ok Hy. apply list_elem_of_lookup in Hy as [i Hi].
  destruct (Forall2_lookup_r _ _ _ _ _ H Hi) as (x&Hx&E). exists x. split; [|done].
  by eapply list_elem_of_lookup_2.
Qed.

Lemma map_result_elem_of {A B} (f : A → result B) l k x :
  map_result f l = Ok k → x ∈ l → ∃ y, y ∈ k ∧ f x = Ok y.
Proof.
  intros H%map_result_Ok Hx. apply list_elem_of_lookup in Hx as [i Hi].
  destruct (Forall2_lookup_l _ _ _ _ _ H Hi) as (y&Hy&E). exists y. split; [|done].
  by eapply list_elem_of_lookup_2.
Qed.

Lemma row_dates_recent c columns row ds d :
  row_dates (Some c) columns row = Ok ds → d ∈ ds →
  ∃ column t, column ∈ columns ∧ _optional_datetime fromisoformat (dict_get column row) = Ok (Some t) ∧
    (c ≤ t)%Z ∧ day_of t = d.
Proof.
  unfold Gold.row_dates. intros H. res_inv H. subst ds. intros (l&Hl&Hd)%elem_of_concat.
  destruct (map_result_elem _ _ _ _ Hs Hl) as (column&Hc&E). exists column.
  destruct (column_date_recent _ _ _ _ _ E Hd) as (t&?&?&?). eauto.
Qed.

(** With a cutoff only dates of later timestamps are listed. *)
Lemma control_dates_recent c control ds d :
  _control_dates control (Some c) = Ok ds → d ∈ ds → ∃ t, timestamp control t ∧ (c ≤ t)%Z ∧ day_of t = d.
Proof.
  unfold Gold._control_dates. intros H. res_inv H. subst ds.
  intros [(l&Hl&Hd)%elem_of_concat|(l&Hl&Hd)%elem_of_concat]%elem_of_app;
    [destruct (map_result_elem _ _ _ _ Hs Hl) as (row&Hr&E)|destruct (map_result_elem _ _ _ _ Hs0 Hl) as (row&Hr&E)];
    destruct (row_dates_recent _ _ _ _ _ E Hd) as (column&t&Hc&Ht&?&?); exists t; (split; [|done]);
    exists row, column; auto.
Qed.

(** A timestamp of an attempt lists its date. *)
Lemma control_dates_attempt cutoff control ds a column t :
  _control_dates control cutoff = Ok ds → a ∈ ct_attempts control → column ∈ attempt_date_columns →
  (column = "batch_expired_at" → py_str (py_or (dict_get "status" a) (VStr "")) = "EXPIRED") →
  _optional_datetime fromisoformat (dict_get column a) = Ok (Some t) →
  (∀ c, cutoff = Some c → (c ≤ t)%Z) → day_of t ∈ ds.
Proof.
  unfold Gold._control_dates. intros H Ha Hc He Ht Hcut. res_inv H. subst ds. apply elem_of_app. right.
  destruct (map_result_elem_of _ _ _ _ Hs0 Ha) as (l&Hl&E). apply elem_of_concat. exists l. split; [done|].
  unfold Gold.row_dates in E. res_inv E. subst l.
  destruct (map_result_elem_of _ _ _ _ Hs1 Hc) as (k&Hk&E). apply elem_of_concat. exists k. split; [done|].
  unfold Gold.column_date in E. destruct (String.eqb_spec column "batch_expired_at") as [Ec|Ec]; simpl in E.
  - rewrite (He Ec) in E. simpl in E. rewrite Ht in E. simpl in E. destruct cutoff as [c|]; simplify_eq; [|left].
    rewrite (proj2 (Z.leb_le _ _)) by auto. left.
  - rewrite Ht in E. simpl in E. destruct cutoff as [c|]; simplify_eq; [|left].
    rewrite (proj2 (Z.leb_le _ _)) by auto. left.
Qed.

(** ** Failures *)

(** The failures that operations rows, and the groups that they are made from, count. *)
Definition failures (rows : list Row) : Z := foldr Z.add 0%Z (int_of "failed" <$> rows).
Definition group_failures (g : list (string * Operations)) : Z := foldr Z.add 0%Z ((λ kg, op_failed kg.2) <$> g).

Lemma group_failures_dset k v g :
  group_failures (dset k v g)
  = (group_failures g - op_failed (default no_operations (dget k g)) + op_failed v)%Z.
Proof. unfold group_failures. rewrite total_dset. by destruct (dget k g). Qed.

Lemma at_hour_failures t f g :
  (∀ o, op_failed (f o) = op_failed o) → group_failures (at_hour t f g) = group_failures g.
Proof. intros H. unfold at_hour. rewrite group_failures_dset, H. lia. Qed.

Lemma end_of_attempt_failures run status a g g' :
  end_of_attempt run status a g = Ok g' →
  (op_failed g ≤ op_failed g')%Z ∧
  (run = None → str_in status _FAILED_ATTEMPT_STATUSES = true → op_failed g' = (op_failed g + 1)%Z).
Proof.
  unfold end_of_attempt. destruct run as [run|]; intros H.
  - res_inv H. subst. simpl. split; [lia|done].
  - injection H as <-. repeat case_match; simpl; (split; [lia|intros _ ?; first [lia|congruence]]).
Qed.

Lemma count_work_failures d g w g' :
  count_work fromisoformat d g w = Ok g' → group_failures g' = group_failures g.
Proof.
  unfold count_work. intros H. res_inv H. subst. case_match; [|done]. apply at_hour_failures.
  intros. simpl. lia.
Qed.

Definition started (claimed : option Z) (d : string) (g : list (string * Operations)) : list (string * Operations) :=
  match on_date claimed d with Some t => at_hour t (op_plus 0 1 0 0 0) g | None => g end.

Lemma started_failures claimed d g : group_failures (started claimed d g) = group_failures g.
Proof.
  unfold started. destruct (on_date claimed d); [|done]. apply at_hour_failures. intros. simpl. lia.
Qed.

Lemma count_attempt_failures committed d g a g' :
  count_attempt fromisoformat committed d g a = Ok g' → (group_failures g ≤ group_failures g')%Z.
Proof.
  unfold count_attempt. intros H. res_inv H.
  pose proof (started_failures x d g) as E. set (g1 := started x d g) in *.
  change (match on_date x d with Some t => at_hour t (op_plus 0 1 0 0 0) g | None => g end) with g1 in H.
  clearbody g1.
  destruct (on_date x0 d) as [t|]; res_inv H; subst; [|lia].
  apply end_of_attempt_failures in Hs1 as [Hle _]. rewrite group_failures_dset. simpl. lia.
Qed.

(** An expired attempt that ended on the date is one failure more. *)
Lemma count_expired committed d g a g' t :
  count_attempt fromisoformat committed d g a = Ok g' →
  py_str (py_or (dict_get "status" a) (VStr "")) = "EXPIRED" →
  _optional_datetime fromisoformat (dict_get "batch_expired_at" a) = Ok (Some t) → day_of t = d →
  (group_failures g + 1 ≤ group_failures g')%Z.
Proof.
  intros H He Ht Hd. unfold count_attempt in H. rewrite He in H. res_inv H.
  pose proof (started_failures x d g) as E. set (g1 := started x d g) in *.
  change (match on_date x d with Some t => at_hour t (op_plus 0 1 0 0 0) g | None => g end) with g1 in H.
  clearbody g1.
  assert (x0 = Some t) as ->.
  { revert Hs0. cbn -[_required_datetime _optional_datetime]. intros Hs0.
    destruct (is_none (dict_get "batch_expired_at" a)) eqn:En.
    { destruct (dict_get "batch_expired_at" a); try discriminate En. discriminate Ht. }
    unfold _required_datetime in Hs0. rewrite Ht in Hs0. by injection Hs0 as <-. }
  unfold on_date in H. rewrite Hd, String.eqb_refl in H. res_inv H. subst.
  apply end_of_attempt_failures in Hs1 as [_ Hf]. specialize (Hf eq_refl eq_refl).
  rewrite group_failures_dset. simpl. lia.
Qed.

Lemma fold_failures {B} (f : list (string * Operations) → B → result (list (string * Operations))) l g g' :
  (∀ x g g', f g x = Ok g' → (group_failures g ≤ group_failures g')%Z) →
  fold_result f l g = Ok g' → (group_failures g ≤ group_failures g')%Z.
Proof.
  intros Hf. revert g. induction l as [|x l IH]; intros g; simpl; [intros [= ->]; lia|].
  intros H. res_inv H. apply Hf in Hs. apply IH in H. lia.
Qed.

Lemma fold_expired committed d control a t g g' :
  fold_result (count_attempt fromisoformat committed d) control g = Ok g' → a ∈ control →
  py_str (py_or (dict_get "status" a) (VStr "")) = "EXPIRED" →
  _optional_datetime fromisoformat (dict_get "batch_expired_at" a) = Ok (Some t) → day_of t = d →
  (group_failures g + 1 ≤ group_failures g')%Z.
Proof.
  intros H Ha He Ht Hd. revert g H. induction control as [|x l IH]; intros g; [by apply elem_of_nil in Ha|].
  simpl. intros H. res_inv H. apply elem_of_cons in Ha as [<-|Ha].
  - eapply count_expired in Hs; [|done..]. apply fold_failures in H; [lia|]. intros *. apply count_attempt_failures.
  - apply count_attempt_failures in Hs. apply IH in H; [lia|done].
Qed.

Lemma operations_row_failures d now g rows :
  map_result (operations_row fromisoformat d now) g = Ok rows → failures rows = group_failures g.
Proof.
  intros H%map_result_Ok. unfold failures, group_failures. induction H as [|kg r g rows Hr _ IH]; [done|].
  csimpl. rewrite IH. f_equal. unfold operations_row in Hr. res_inv Hr. by subst.
Qed.

(** The operations facts of a date count its expired attempts. *)
Lemma expired_is_counted committed control d now f a t :
  _fact_rows_for_date fromisoformat committed control d now = Ok f → a ∈ ct_attempts control →
  py_str (py_or (dict_get "status" a) (VStr "")) = "EXPIRED" →
  _optional_datetime fromisoformat (dict_get "batch_expired_at" a) = Ok (Some t) → day_of t = d →
  (1 ≤ failures (ft_operations_hour f))%Z.
Proof.
  unfold _fact_rows_for_date, _operations_rows. intros H Ha He Ht Hd. res_inv H. subst f. simpl.
  apply operations_row_failures in Hs0. rewrite Hs0.
  match goal with H1 : fold_result (count_attempt _ _ _) _ _ = _ |- _ =>
    eapply fold_expired in H1; [|exact Ha|exact He|exact Ht|exact Hd] end.
  match goal with H2 : fold_result (count_work _ _) _ _ = _ |- _ =>
    apply fold_failures in H2; [|intros * Hw; apply count_work_failures in Hw; lia] end.
  rewrite (sum_Permutation _ _ (fmap_Permutation _ _ _ (sort_by_Permutation _ x2)) : group_failures _ = group_failures x2).
  unfold group_failures in Hs1 at 1. simpl in Hs1. lia.
Qed.
End dates.

(** ** Dates that are not planned *)

(** The tables and nothing else may have changed, and no partition of the date. *)
Definition leaves (d : string) (w w' : World) : Prop :=
  only_tables w w' ∧
  ∀ tc, tc ∈ fact_partitions → partition (w_tables w') tc d = partition (w_tables w) tc d.

#[export] Instance leaves_preorder d : PreOrder (leaves d).
Proof.
  split; [by intros w; split|].
  intros w1 w2 w3 [(a&b&c) H] [(a'&b'&c') H']. split; [split; [|split]; congruence|].
  intros tc Htc. by rewrite H', H.
Qed.

Lemma build_date_leaves fromisoformat l control now totals d d' w :
  d' ≠ d → ends (build_date fromisoformat l control now totals d') (λ _, leaves d w) w.
Proof.
  intros Hd. unfold build_date. apply ends_bind, ends_lift. destruct (_fact_rows_for_date _ _ _ _ _) as [f|]; [|done].
  apply ends_bind. eapply ends_mono; [|apply (ends_map (leaves d))]; [by intros [] w' H; [apply ends_ret|]|].
  intros tc v Htc. apply on_tables_ends. eapply ends_mono; [|apply replace_partition_ends].
  intros r ts (Ho&_). split; [done|]. intros tc' Htc'. simpl. apply Ho.
  destruct (decide (tc'.1 = tc.1)) as [E|]; [right|by left].
  apply fact_partition_inj in E as ->; [|done..]. split; [by destruct tc|congruence].
Qed.

Lemma build_dates_leaves fromisoformat l control now totals dates d w :
  d ∉ dates → ends (build_dates fromisoformat l control now totals dates) (λ _, leaves d w) w.
Proof.
  revert totals w. induction dates as [|d' dates IH]; intros totals w Hd; simpl; [by apply ends_ret|].
  apply not_elem_of_cons in Hd as [Hne Hd]. apply ends_bind.
  eapply ends_mono; [|by apply build_date_leaves, not_eq_sym]. intros [n|e] w1 H1; [|done].
  eapply ends_mono; [|by apply IH]. intros r w2 H2. by etrans.
Qed.

Section build.
Local Open Scope nat_scope.
Context (fromisoformat : string → result (option Z)).
Context (date_fromisoformat : string → result Z).
Context (files : string → option Node).
Context (read_delta_records : string → string → string → result (list Row)).
Context (autoincrement : list Signal → Z).
Context (verify_output_hash : bool).
Context (db : nat → ControlDb) (clock : nat → Z).
Abbreviation outputs := (outputs fromisoformat files read_delta_records verify_output_hash).

(** In the world [w] an incremental build with a lookback of [h] hours follows a
    complete one, and nobody writes to the control database [D] while it runs.  The
    lease of the attempt [a] ran out at [t], on the date [d], but the attempt was
    recovered only at [u], after the horizon of the build.  Nothing else on [d] is
    recent: no timestamp of the control rows after the horizon and no recent output. *)
Record late_recovery (w : World) (D : ControlDb) (h cutoff horizon : Z) (flow operations : Checkpoint)
    (l : list CommittedOutput) (control : Control) (d : string) (a : Row) (t u : Z) : Prop := {
  lr_still : ∀ i, w_reads w ≤ i → db i = D;
  lr_flow : checkpoint "facts:flow" (w_state w) = Some flow;
  lr_operations : checkpoint "facts:operations" (w_state w) = Some operations;
  lr_targets : ∃ current, (versions FACT_TARGET_TABLES (w_tables w)).1 = Ok current ∧
    _checkpoint_targets_match (checkpoint "facts" (w_state w)) current = true;
  lr_cutoff : minus_hours (clock (w_ticks w)) h = Ok cutoff;
  lr_horizon : ∃ completed, _required_datetime fromisoformat (VStr (ck_completed_at operations)) = Ok completed ∧
    minus_hours completed h = Ok horizon;
  lr_outputs : outputs D = Ok l;
  lr_control : _control_rows D = Ok control;
  lr_published : ∀ o ds, o ∈ l → is_recent (ck_publication_sequence flow) cutoff o = true →
    _output_dates fromisoformat o = Ok ds → d ∉ ds;
  lr_source : ∀ c k, source_checkpoint D = Ok c → key c = Ok k → flow_changed_in_place flow k l = false;
  lr_attempt : a ∈ ct_attempts control;
  lr_status : py_str (py_or (dict_get "status" a) (VStr "")) = "EXPIRED";
  lr_expired : _optional_datetime fromisoformat (dict_get "batch_expired_at" a) = Ok (Some t) ∧ day_of t = d;
  lr_over : ∀ t', timestamp fromisoformat control t' → (Z.min cutoff horizon ≤ t')%Z → day_of t' ≠ d;
  lr_recovered : _optional_datetime fromisoformat (dict_get "work_updated_at" a) = Ok (Some u) ∧
    (Z.min cutoff horizon ≤ u)%Z;
}.

Context (w : World) (D : ControlDb) (h cutoff horizon : Z) (flow operations : Checkpoint).
Context (l : list CommittedOutput) (control : Control) (d : string) (a : Row) (t u : Z).
Context (late : late_recovery w D h cutoff horizon flow operations l control d a t u).

(** The plan of the build misses the date. *)
Lemma incremental_dates_miss c k operations_key ds :
  source_checkpoint D = Ok c → key c = Ok k →
  incremental_dates fromisoformat flow operations k operations_key h cutoff l control = Ok ds → d ∉ ds.
Proof.
  intros Hc Hk H. destruct late as [_ _ _ _ _ Hhor0 _ _ Hpub Hsrc Hatt _ _ Hover Hrec].
  unfold incremental_dates in H. rewrite (Hsrc _ _ Hc Hk) in H.
  destruct Hhor0 as (completed&Hcomp&Hhor).
  destruct Hrec as [Hu Hle].
  res_inv H. unfold recent_operation_dates in Hs0. rewrite Hcomp in Hs0. simpl in Hs0. rewrite Hhor in Hs0. simpl in Hs0.
  assert (day_of u ∈ x0) as Hin.
  { refine (control_dates_attempt _ _ _ _ _ "work_updated_at" _ Hs0 Hatt _ _ Hu _).
    - apply list_elem_of_In. simpl. tauto.
    - discriminate.
    - by intros c0 [= <-]. }
  rewrite bool_decide_eq_false_2, andb_false_r in Hs2 by (intros ->; by apply elem_of_nil in Hin).
  simplify_eq. rewrite !app_nil_r. intros [Hd|Hd]%elem_of_app.
  - unfold recent_flow_dates, dates_of in Hs. res_inv Hs. subst x.
    apply elem_of_concat in Hd as (k'&Hk'&Hd). destruct (map_result_elem _ _ _ _ Hs1 Hk') as (o&Ho&Eo).
    apply list_elem_of_filter in Ho as [Hr Ho].
    by eapply Hpub.
  - destruct (control_dates_recent _ _ _ _ _ Hs0 Hd) as (t'&Hts&Ht'&E).
    by apply (Hover t' Hts Ht').
Qed.

(** Reads from [v] on. *)
Definition waits (w v : World) : Prop := quiet w v ∧ w_ticks v = w_ticks w.

Lemma plan_misses v :
  waits w v →
  ends (plan fromisoformat files read_delta_records verify_output_hash db clock h false false)
    (λ r w', quiet w w' ∧ ∀ p, r = Ok p → d ∉ pl_items p) v.
Proof.
  intros [(S&R&T) Ht]. pose proof late as [Hstill Hflow Hops _ Hcut _ Hout Hctl _ _ _ _ _ _ _].
  assert (∀ v', w_state v' = w_state v → w_reads v ≤ w_reads v' → w_tables v' = w_tables v → quiet w v') as Hq.
  { intros v' E1 E2 E3. split; [congruence|]. split; [lia|congruence]. }
  assert (∀ (e : exn) v', w_state v' = w_state v → w_reads v ≤ w_reads v' → w_tables v' = w_tables v →
    quiet w v' ∧ ∀ p : GoldPlan, Err e = Ok p → d ∉ pl_items p) as He by (intros; split; [auto|done]).
  unfold plan. apply ends_bind, ends_lift. destruct (require _ _); [|apply He; simpl; (done || lia)].
  apply ends_bind, now_ends. rewrite Ht. apply ends_bind, ends_lift. rewrite Hcut.
  apply ends_bind, reading_ends. simpl. rewrite Hstill by lia.
  destruct (source_checkpoint D) as [c|] eqn:Hc; [|apply He; simpl; (done || lia)].
  apply ends_bind, reading_ends. destruct (operations_source_checkpoint _) as [oc|]; [|apply He; simpl; (done || lia)].
  apply ends_bind. unfold saved at 1, ends at 1. apply ends_bind. unfold saved at 1, ends at 1. simpl.
  rewrite S, Hflow, Hops. apply ends_bind, reading_ends. simpl. rewrite Hstill, Hout by lia.
  apply ends_bind, reading_ends. simpl. rewrite Hstill, Hctl by lia.
  apply ends_bind, ends_lift. destruct (key c) as [k|] eqn:Hk; [|apply He; simpl; (done || lia)].
  apply ends_bind, ends_lift. destruct (key oc) as [ok|]; [|apply He; simpl; (done || lia)].
  apply ends_bind, ends_lift. simpl.
  destruct (incremental_dates _ _ _ _ _ _ _ _ _) as [dates|] eqn:Hd; [|apply He; simpl; (done || lia)].
  apply ends_ret. split; [apply Hq; simpl; (done || lia)|]. intros p [= <-]. simpl.
  rewrite elem_of_sorted_set. by eapply incremental_dates_miss.
Qed.

(** From [w], the tables of the partitions of [d] are as they were. *)
Definition untouched (v : World) : Prop :=
  w_reads w ≤ w_reads v ∧ ∀ tc, tc ∈ fact_partitions → partition (w_tables v) tc d = partition (w_tables w) tc d.

Lemma quiet_untouched v : quiet w v → untouched v.
Proof. intros (_&R&T). split; [done|]. by rewrite T. Qed.

Lemma leaves_untouched v v' : untouched v → leaves d v v' → untouched v'.
Proof. intros [R U] [(_&R'&_) U']. split; [lia|]. intros tc Htc. by rewrite U', U. Qed.

Lemma untouched_same v v' :
  untouched v → w_reads v ≤ w_reads v' → w_tables v' = w_tables v → untouched v'.
Proof. intros [R U] R' T. split; [lia|]. by rewrite T. Qed.

Lemma build_partitions_leaves v :
  waits w v →
  ends (build_partitions fromisoformat date_fromisoformat files read_delta_records verify_output_hash db clock
    None h false false) (λ _, untouched) v.
Proof.
  intros Hw. unfold build_partitions. apply ends_bind. unfold selected_dates. apply ends_bind.
  eapply ends_mono; [|by apply plan_misses]. intros [p|e] v1 [Hq Hp]; [|by apply quiet_untouched].
  specialize (Hp p eq_refl). apply quiet_untouched in Hq as U.
  apply ends_ret, ends_bind, reading_ends.
  destruct (outputs _) as [l'|]; [|eapply untouched_same; [exact U|simpl; lia|done]].
  apply ends_bind, reading_ends.
  destruct (_control_rows _) as [control'|]; [|eapply untouched_same; [exact U|simpl; lia|done]].
  apply ends_bind, now_ends, ends_bind. eapply ends_mono; [|by apply build_dates_leaves].
  intros r v2 H2. assert (untouched v2) as U2.
  { eapply leaves_untouched; [|exact H2]. eapply untouched_same; [exact U|simpl; lia|done]. }
  by destruct r.
Qed.

Lemma replace_table_untouched name rows v :
  name ∉ fact_partitions.*1 → untouched v → ends (on_tables (replace_table name rows)) (λ _, untouched) v.
Proof.
  intros Hn [R U]. apply on_tables_ends. eapply ends_mono; [|apply replace_table_ends].
  intros r ts H. split; [simpl; lia|]. intros tc Htc. simpl. rewrite H; [by apply U|].
  intros <-. apply Hn. by apply list_elem_of_fmap_2.
Qed.

Lemma build_tables_leaves flow_source operations_source flow_key operations_key v :
  waits w v → source_checkpoint D = Ok flow_source → operations_source_checkpoint D = Ok operations_source →
  key flow_source = Ok flow_key → key operations_source = Ok operations_key →
  ends (build_tables fromisoformat date_fromisoformat files read_delta_records verify_output_hash db clock
    None h false false flow_source operations_source flow_key operations_key)
    (λ r v', untouched v' ∧ ∀ x, r = Ok x → x.1.2 = true) v.
Proof.
  intros Hw Hf Ho Hk Hk'. pose proof (lr_still _ _ _ _ _ _ _ _ _ _ _ _ _ late) as Hstill.
  unfold build_tables. apply ends_bind. eapply ends_mono; [|by apply build_partitions_leaves].
  intros [[[[[selected committed] control'] now'] totals]|e] v1 U1; [|by split].
  apply ends_bind, ends_lift. destruct (_operational_rows _ _ _ _) as [op|]; [|by split].
  apply ends_bind. eapply ends_mono; [|apply replace_table_untouched; [vm_compute; set_solver|exact U1]].
  intros [n1|e] v2 U2; [|by split].
  apply ends_bind. eapply ends_mono; [|apply replace_table_untouched; [vm_compute; set_solver|exact U2]].
  intros [n2|e] v3 U3; [|by split].
  apply ends_bind, versions_ends. intros [targets|e]; [|by split].
  assert (∀ v', w_reads v3 ≤ w_reads v' → w_tables v' = w_tables v3 → untouched v') as U4.
  { intros v' ? ?. by eapply untouched_same. }
  apply ends_bind, reading_ends. destruct U3 as [R3 _]. rewrite Hstill, Hf by lia.
  apply ends_bind, reading_ends. simpl. rewrite Hstill, Ho by lia.
  apply ends_bind, ends_lift. rewrite Hk. apply ends_bind, ends_lift. rewrite Hk'.
  apply ends_ret. split; [apply U4; simpl; (done || lia)|]. intros x [= <-]. simpl. by rewrite !String.eqb_refl.
Qed.

(** The build leaves the date as it was, and advances its checkpoint. *)
Lemma build_facts_leaves save :
  ends (build_facts fromisoformat date_fromisoformat files read_delta_records autoincrement verify_output_hash
    db clock None h false false save)
    (λ r v, untouched v ∧ ∀ b, r = Ok b → br_skipped b = true ∨ br_complete_checkpoint_advanced b = true) w.
Proof.
  pose proof late as [Hstill _ _ (current'&Hcur&Hmatch) _ _ _ _ _ _ _ _ _ _ _].
  assert (∀ v', w_reads w ≤ w_reads v' → w_tables v' = w_tables w → untouched v') as Uw.
  { intros v' R T. split; [exact R|]. by rewrite T. }
  assert (∀ (e : exn) v', w_reads w ≤ w_reads v' → w_tables v' = w_tables w →
    untouched v' ∧ ∀ b : BuildResult, Err e = Ok b → br_skipped b = true ∨ br_complete_checkpoint_advanced b = true)
    as He by (intros; split; [auto|done]).
  unfold build_facts. apply ends_bind, reading_ends. rewrite Hstill by lia.
  destruct (source_checkpoint D) as [fs|] eqn:Hf; [|apply He; simpl; (done || lia)].
  apply ends_bind, reading_ends. simpl. rewrite Hstill by lia.
  destruct (operations_source_checkpoint D) as [os|] eqn:Ho; [|apply He; simpl; (done || lia)].
  apply ends_bind. unfold saved, ends at 1. simpl. apply ends_bind.
  unfold ends at 1, on_tables. simpl.
  pose proof (versions_state FACT_TARGET_TABLES (w_tables w)) as Hst.
  destruct (versions FACT_TARGET_TABLES (w_tables w)) as [rv ts]. simpl in Hcur, Hst. subst rv ts.
  apply ends_bind, ends_lift. destruct (key (_fact_source _ _)) as [sk|]; [|apply He; simpl; (done || lia)].
  apply ends_bind, ends_lift. destruct (key fs) as [fk|] eqn:Hk; [|apply He; simpl; (done || lia)].
  apply ends_bind, ends_lift. destruct (key os) as [ok|] eqn:Hk'; [|apply He; simpl; (done || lia)].
  rewrite Hmatch. simpl. destruct (_normal_incremental_facts_noop _ _ _ _ _ _).
  { apply ends_ret. split; [apply Uw; simpl; (done || lia)|]. intros b [= <-]. by left. }
  apply ends_bind. eapply ends_mono; [|apply build_tables_leaves; [|exact Hf|exact Ho|exact Hk|exact Hk']].
  2: { split; [|done]. split; [done|]. split; [simpl; lia|done]. }
  intros [[[[[selected totals] tv] complete] updates]|e] v U; destruct U as [U Hc]; [|by split].
  specialize (Hc _ eq_refl). simpl in Hc. subst complete. unfold finish_facts. apply ends_bind.
  assert (∀ v', w_reads v ≤ w_reads v' → w_tables v' = w_tables v → untouched v') as Uv.
  { intros v' ? ?. by eapply untouched_same. }
  destruct save; [|apply ends_ret, ends_ret; split; [done|intros b [= <-]; by right]].
  unfold save_and_enqueue. apply ends_bind, now_ends. unfold ends at 1, on_state.
  destruct (save_checkpoints_and_enqueue _ _ _ _ _ _ _) as [[o|e] st]; simpl.
  - apply ends_ret. split; [by apply Uv|]. intros b [= <-]. by right.
  - split; [by apply Uv|done].
Qed.
End build.
End Late.
