(* ===== verification/GoldTheorems.v ===== *)
(** * The gold builder: properties

    Incremental builds agree with a full rebuild of the flow and video facts; flow
    facts sum their lines; only committed and verified outputs are visible; a refresh
    is signalled and acknowledged once; and the operations facts miss an attempt that
    is recovered late.  First the steps of the refresh outbox ([Outbox]) and the
    concrete control databases of the witnesses ([GoldScenario]). *)
From S2P Require Export GoldStore GoldJob GoldBuild GoldConverge GoldLate.

(** ** The refresh outbox

    However the operations on the gold state follow each other, ids and keys of signals
    stay unique, a signal is never lost or changed, and an acknowledgement stays. *)
Module Outbox.
Import Job Build.

Section outbox.
Context (autoincrement : list Signal → Z).
(** AUTOINCREMENT never reuses an id. *)
Context (fresh : ∀ l g, g ∈ l → (sg_outbox_id g < autoincrement l)%Z).

(** The operations of [SQLiteGoldState], whatever they return. *)
Inductive step (s s' : GoldState) : Prop :=
  | step_save stage source targets now r :
      save_checkpoint stage source targets now s = (r, s') → step s s'
  | step_enqueue reason source targets now r :
      enqueue_refresh autoincrement reason source targets now s = (r, s') → step s s'
  | step_save_and_enqueue updates reason source targets now r :
      save_checkpoints_and_enqueue autoincrement updates reason source targets now s = (r, s') → step s s'
  | step_acknowledge outbox_id actor expected now r :
      acknowledge_refresh outbox_id actor expected now s = (r, s') → step s s'.

Inductive steps_to (s : GoldState) : GoldState → Prop :=
  | steps_refl : steps_to s s
  | steps_step s1 s2 : steps_to s s1 → step s1 s2 → steps_to s s2.

Definition unique_signals (l : list Signal) : Prop := NoDup (sg_outbox_id <$> l) ∧ NoDup (sg_dedupe_key <$> l).

(** The same signal, acknowledged no less. *)
Definition same_signal (g g' : Signal) : Prop :=
  sg_outbox_id g' = sg_outbox_id g ∧ sg_dedupe_key g' = sg_dedupe_key g ∧ sg_reason g' = sg_reason g ∧
  sg_payload_json g' = sg_payload_json g ∧ sg_created_at g' = sg_created_at g ∧
  (sg_acked g = None ∨ sg_acked g' = sg_acked g).

Definition evolves (l l' : list Signal) : Prop := ∀ g, g ∈ l → ∃ g', g' ∈ l' ∧ same_signal g g'.

Lemma same_signal_refl g : same_signal g g.
Proof. by repeat split; auto. Qed.

Lemma evolves_refl l : evolves l l.
Proof. intros g Hg. exists g. split; [done|apply same_signal_refl]. Qed.

Lemma evolves_trans l1 l2 l3 : evolves l1 l2 → evolves l2 l3 → evolves l1 l3.
Proof.
  intros H1 H2 g Hg. destruct (H1 g Hg) as (g1&Hg1&a1&b1&c1&d1&e1&f1).
  destruct (H2 g1 Hg1) as (g2&Hg2&a2&b2&c2&d2&e2&f2). exists g2. split; [done|].
  repeat split; try congruence. destruct f1 as [|f1]; [by left|]. destruct f2 as [f2|f2]; [left|right]; congruence.
Qed.

(** What an operation may do to the outbox. *)
Definition good (l l' : list Signal) : Prop := (unique_signals l → unique_signals l') ∧ evolves l l'.

Lemma good_refl l : good l l.
Proof. split; [done|apply evolves_refl]. Qed.

Lemma good_snoc l g :
  sg_outbox_id g = autoincrement l → sg_dedupe_key g ∉ sg_dedupe_key <$> l → good l (l ++ [g]).
Proof.
  intros Hid Hk. split.
  - intros [Hi Hd]. split; rewrite fmap_app; apply NoDup_app; (split; [done|]); (split; [|apply NoDup_singleton]);
      intros x Hx ->%list_elem_of_singleton; [|done].
    apply list_elem_of_fmap in Hx as (g'&E&Hg'%fresh). lia.
  - intros g' Hg'. exists g'. split; [apply elem_of_app; by left|apply same_signal_refl].
Qed.

Lemma good_acked f l : (∀ g, same_signal g (f g)) → good l (f <$> l).
Proof.
  intros Hf. split.
  - intros [Hi Hd]. unfold unique_signals. rewrite <-!list_fmap_compose.
    rewrite (list_fmap_ext (sg_outbox_id ∘ f) sg_outbox_id), (list_fmap_ext (sg_dedupe_key ∘ f) sg_dedupe_key);
      [done| |]; intros ? g _; destruct (Hf g) as (E1&E2&_); done.
  - intros g Hg. exists (f g). split; [by apply list_elem_of_fmap_2|done].
Qed.

Lemma save_checkpoint_outbox stage source targets t s :
  ends (_save_checkpoint stage source targets t) (λ _ s', gs_outbox s' = gs_outbox s) s.
Proof.
  unfold _save_checkpoint. apply ends_bind, ends_lift. destruct (key source); [|done].
  apply ends_bind, ends_lift. destruct (_canonical_json _); [|done].
  apply ends_bind, ends_lift. by destruct (_canonical_json (numbers _)).
Qed.

Lemma save_all_outbox (updates : Updates) t s u s' :
  tx_for (λ '(stage, (source, targets)), _save_checkpoint stage source targets t) updates s = (Ok u, s') →
  gs_outbox s' = gs_outbox s.
Proof.
  apply (tx_for_ind (λ x, gs_outbox x = gs_outbox s)); [|done].
  intros [stage [src tv]] s2 s3 _ E2 E3. rewrite <-E2.
  exact (ends_run _ _ _ _ _ (save_checkpoint_outbox _ _ _ _ _) E3).
Qed.

Lemma insert_signal_checkpoints reason source targets t s id s' :
  insert_signal autoincrement reason source targets t s = (Ok id, s') → gs_checkpoints s' = gs_checkpoints s.
Proof.
  unfold insert_signal. intros H. tx_inv H. by case_match; tx_inv H.
Qed.

(** The key of a signal. *)
Definition signal_key (reason : string) (source : SourceCheckpoint) (targets : list (string * Z)) : result string :=
  source_key ← key source;
  _sha256_json (VDict [("reason", VStr reason); ("source_key", VStr source_key);
                       ("publication_sequence", VInt (sc_publication_sequence source));
                       ("target_versions", numbers targets)]%string).

Lemma insert_signal_outbox reason source targets t s :
  ends (insert_signal autoincrement reason source targets t) (λ r s',
    good (gs_outbox s) (gs_outbox s') ∧
    ∀ id, r = Ok id → ∃ g, g ∈ gs_outbox s' ∧ sg_outbox_id g = id ∧
      signal_key reason source targets = Ok (sg_dedupe_key g) ∧
      ((∃ g0, g0 ∈ gs_outbox s ∧ sg_dedupe_key g0 = sg_dedupe_key g) → s' = s)) s.
Proof.
  unfold insert_signal. apply ends_bind, ends_lift. unfold signal_key.
  destruct (key source) as [k|e]; [simpl|by split; [apply good_refl|]].
  apply ends_bind, ends_lift. destruct (_sha256_json _) as [dk|e]; [|by split; [apply good_refl|]].
  apply ends_bind, ends_lift. destruct (_canonical_json _) as [payload|e]; [|by split; [apply good_refl|]].
  apply ends_bind. unfold tx_get, ends at 1.
  destruct (head (filter (λ g, has_key dk g = true) (gs_outbox s))) as [g|] eqn:Hg.
  - apply ends_ret. split; [apply good_refl|]. intros id [= <-]. exists g.
    assert (g ∈ filter (λ g, has_key dk g = true) (gs_outbox s)) as [Hk Hin]%list_elem_of_filter.
    { apply list_elem_of_lookup_2 with 0%nat. by rewrite <-head_lookup. }
    split; [done|]. split; [done|]. split; [|done]. f_equal. symmetry. by apply String.eqb_eq.
  - assert (∀ g, g ∈ gs_outbox s → sg_dedupe_key g ≠ dk) as Hno.
    { intros g Hin E. assert (g ∈ filter (λ g, has_key dk g = true) (gs_outbox s)) as Hf.
      { apply list_elem_of_filter. split; [by apply String.eqb_eq|done]. }
      destruct (filter _ _); [by apply elem_of_nil in Hf|done]. }
    apply ends_bind, ends_ret. split.
    + apply good_snoc; [done|]. intros (g&E&Hin)%list_elem_of_fmap. by apply (Hno g Hin).
    + intros id [= <-]. eexists. split; [apply elem_of_app; right; left|]. split; [done|]. split; [done|].
      intros (g0&Hin&E). by destruct (Hno g0 Hin).
Qed.

Lemma good_trans l1 l2 l3 : good l1 l2 → good l2 l3 → good l1 l3.
Proof. intros [a b] [a' b']. split; [auto|by eapply evolves_trans]. Qed.

Lemma transaction_ends {A} (m : tx GoldState A) Q s :
  (∀ e, Q (Err e) s) → ends m (λ r s', ∀ a, r = Ok a → Q r s') s → ends (transaction (λ s _, s) m) Q s.
Proof. unfold ends, transaction. intros He H. destruct (m s) as [[a|e] s']; [by eapply H|apply He]. Qed.

Lemma step_good s s' : step s s' → good (gs_outbox s) (gs_outbox s').
Proof.
  intros [stage source targets now r H|reason source targets now r H|updates reason source targets now r H
         |id actor expected now r H].
  - unfold save_checkpoint in H. refine (ends_run _ (λ _ s', good (gs_outbox s) (gs_outbox s')) _ _ _ _ H).
    apply transaction_ends; [intros; apply good_refl|]. eapply ends_mono; [|apply save_checkpoint_outbox].
    intros ? ? -> ? _. apply good_refl.
  - unfold enqueue_refresh in H. refine (ends_run _ (λ _ s', good (gs_outbox s) (gs_outbox s')) _ _ _ _ H).
    apply transaction_ends; [intros; apply good_refl|]. eapply ends_mono; [|apply insert_signal_outbox].
    by intros ? ? [? _] ? _.
  - unfold save_checkpoints_and_enqueue in H.
    refine (ends_run _ (λ _ s', good (gs_outbox s) (gs_outbox s')) _ _ _ _ H).
    apply transaction_ends; [intros; apply good_refl|]. apply ends_bind. unfold ends at 1.
    destruct (tx_for _ updates s) as [[[]|e] s1] eqn:E; [|done]. apply save_all_outbox in E as Eo.
    destruct reason as [reason|]; [|apply ends_ret; intros; rewrite Eo; apply good_refl].
    unfold ends, fmap, tx_fmap. pose proof (insert_signal_outbox reason source targets (_iso now) s1) as Hi.
    unfold ends in Hi. destruct (insert_signal _ _ _ _ _ s1) as [[id|e] s2]; [|done].
    intros _ _. rewrite <-Eo. apply Hi.
  - unfold acknowledge_refresh in H. refine (ends_run _ (λ _ s', good (gs_outbox s) (gs_outbox s')) _ _ _ _ H).
    apply ends_bind, ends_lift. destruct (require _ _); [|apply good_refl].
    apply ends_bind. unfold tx_get, ends at 1. apply ends_bind, ends_ret. simpl.
    apply good_acked. intros g. destruct (acknowledges id expected g) eqn:Eg; [|apply same_signal_refl].
    unfold acknowledges in Eg. rewrite !andb_true_iff in Eg. destruct Eg as [[_ Ea%bool_decide_eq_true] _].
    repeat split. by left.
Qed.

Lemma steps_good s s' : steps_to s s' → good (gs_outbox s) (gs_outbox s').
Proof. induction 1; [apply good_refl|]. eapply good_trans; [done|by apply step_good]. Qed.
End outbox.
End Outbox.

(** ** Concrete control databases for the gold job

    One work and one attempt: leased, then published, or leased, then expired.  The
    builds on them are evaluated in [GoldTheorems]. *)

Module GoldScenario.
Import Job.
Open Scope string_scope.

(** 12:00 UTC of a day of October 2026, in seconds. *)
Definition noon (day : Z) : Z := ((ymd2ord 2026 10 day - 719163) * 86400 + 43200)%Z.
Definition at_noon (day : Z) : pyval := VFloat (float_of_Z (noon day)).

Definition output : pyval :=
  VDict [("run", VDict [("captured_at_utc", VStr "2026-10-01T23:59:30Z"); ("camera_id", VStr "c");
                        ("location_id", VStr "l")]);
         ("line_counts", VList [VDict [("video_seconds", VInt 1); ("frame_in_count", VInt 2)];
                                VDict [("video_seconds", VInt 40); ("frame_out_count", VInt 3)]])].
Definition output_text : string := Eval vm_compute in or_else "" (json_dumps true output).
Definition output_digest : string := Eval vm_compute in sha256_text output_text.
Definition output_files (path : string) : option Node :=
  if String.eqb path "/o" then Some (NFile (codes_of_str output_text)) else None.

Definition work (status : string) (committed sequence : pyval) (updated : Z) : Row :=
  [("work_id", VStr "w"); ("payload_json", VNone); ("payload_sha256", VNone); ("duration_seconds", VInt 60);
   ("config_sha256", VStr "k"); ("release_digest", VNone); ("committed_attempt_id", committed);
   ("publication_sequence", sequence); ("status", VStr status); ("created_at", at_noon 1);
   ("updated_at", at_noon updated)].
Definition attempt (status : string) : Row :=
  [("attempt_id", VStr "a"); ("work_id", VStr "w"); ("batch_id", VStr "b"); ("status", VStr status);
   ("output_path", VNone); ("output_sha256", VNone); ("terminal_succeeded", VNone);
   ("created_at", at_noon 1); ("sealed_at", VNone)].
(** A lease of two hours, taken at noon of the first day. *)
Definition batch (committed_at : pyval) : Row :=
  [("batch_id", VStr "b"); ("owner", VStr "d"); ("runtime_key", VStr "r"); ("sealed_at", VNone);
   ("committed_at", committed_at); ("lease_expires_at", VFloat (float_of_Z (noon 1 + 7200)))].
Definition publication : Row :=
  [("publication_sequence", VInt 1); ("work_id", VStr "w"); ("attempt_id", VStr "a");
   ("output_path", VStr "/o"); ("output_sha256", VStr output_digest); ("published_at", at_noon 2)].

Definition database (w a b : Row) (publications : list Row) : ControlDb :=
  <["work" := {| tb_columns := w.*1; tb_rows := [w] |}]>
  (<["attempts" := {| tb_columns := a.*1; tb_rows := [a] |}]>
  (<["batches" := {| tb_columns := b.*1; tb_rows := [b] |}]>
  (<["publications" := {| tb_columns := publication.*1; tb_rows := publications |}]> ∅))).

Definition leased : ControlDb := database (work "LEASED" VNone VNone 1) (attempt "LEASED") (batch VNone) [].
Definition published : ControlDb :=
  database (work "SUCCEEDED" (VStr "a") (VInt 1) 2) (attempt "SUCCEEDED") (batch (at_noon 2)) [publication].
(** [recover] ran at noon of the fifth day only. *)
Definition expired : ControlDb := database (work "READY" VNone VNone 5) (attempt "EXPIRED") (batch VNone) [].

(** The database changes between the first and the second build; each reads it ten
    times and the clock three times. *)
Definition switch {A} (n : nat) (a b : A) (i : nat) : A := if (i <? n)%nat then a else b.

Definition plain_date (s : string) : result Z :=
  let l := codes_of_str s in Ok (ymd2ord (number_at l 0 4) (number_at l 5 2) (number_at l 8 2)).
Definition no_delta (path work_id attempt_id : string) : result (list Row) := Err GoldSourceError.
Definition next_id (l : list Signal) : Z := (fold_left Z.max (sg_outbox_id <$> l) 0 + 1)%Z.

Definition empty_world : World := {|
  w_tables := ∅; w_state := {| gs_checkpoints := ∅; gs_outbox := [] |}; w_reads := 0; w_ticks := 0 |}.

Definition build (db : nat → ControlDb) (clock : nat → Z) (force : bool) : tx World BuildResult :=
  build_facts plain_fromisoformat plain_date output_files no_delta next_id true db clock None 48 force false true.
End GoldScenario.

(** ** The properties *)

Import Job FactsTheorems Build Converge Late Outbox GoldScenario.

(** ** A concrete history: one output, published between two builds *)

Definition sample_outputs : list CommittedOutput := Eval vm_compute in
  or_else [] (committed_outputs plain_fromisoformat output_files no_delta true published).
Definition sample_db : nat → ControlDb := switch 10 leased published.
Definition sample_clock : nat → Z := switch 3 (noon 1 * us_second)%Z (noon 2 * us_second)%Z.
Definition sample_seq : nat → Z := switch 10 0%Z 1%Z.
Definition sample_perform : call → tx World BuildResult :=
  perform plain_fromisoformat plain_date (λ _, true) output_files no_delta next_id true sample_db sample_clock.
Definition first_world : World := (sample_perform (Build 48 false false) empty_world).2.

Definition completes (r : result BuildResult) : bool :=
  match r with Ok b => br_complete_checkpoint_advanced b | Err _ => false end.

Lemma sample_outputs_read :
  committed_outputs plain_fromisoformat output_files no_delta true published = Ok sample_outputs ∧
  committed_outputs plain_fromisoformat output_files no_delta true leased = Ok [].
Proof. split; vm_compute; reflexivity. Qed.

Lemma sample_sources_read :
  sc_publication_sequence <$> source_checkpoint published = Ok 1%Z ∧
  sc_publication_sequence <$> source_checkpoint leased = Ok 0%Z ∧
  String.eqb (or_else "" (source_checkpoint published ≫= key)) (or_else "" (source_checkpoint leased ≫= key)) = false.
Proof. vm_compute. done. Qed.

Lemma sample_history : history plain_fromisoformat output_files no_delta true sample_db sample_outputs sample_seq.
Proof.
  destruct sample_outputs_read as [Hp Hl], sample_sources_read as (Sp&Sl&Sk).
  unfold sample_db, sample_seq, switch, outputs. constructor.
  - intros o Ho. apply list_elem_of_singleton in Ho as ->. vm_compute. done.
  - done.
  - intros i j Hij. destruct (Nat.ltb_spec i 10), (Nat.ltb_spec j 10); lia.
  - intros i l. unfold outputs. destruct (i <? 10)%nat; [rewrite Hl|rewrite Hp]; intros [= <-]; vm_compute; done.
  - intros i c. destruct (i <? 10)%nat; intros E; rewrite E in *; simpl in *; congruence.
  - intros i j ci cj k. destruct (i <? 10)%nat, (j <? 10)%nat; intros Ei Ej Ki Kj; [done| | |done];
      rewrite Ei, Ej in Sk; simpl in Sk; rewrite Ki, Kj in Sk; simpl in Sk; by rewrite String.eqb_refl in Sk.
Qed.

Section gold.
Context (fromisoformat : string → result (option Z)).
Context (date_fromisoformat : string → result Z).
Context (valid_zone : string → bool).
Context (files : string → option Node).
Context (read_delta_records : string → string → string → result (list Row)).
Context (autoincrement : list Signal → Z).
Context (verify_output_hash : bool).
Context (db : nat → ControlDb) (clock : nat → Z).

(** C12. Start from an empty store and let any number of builds and runs happen while
    outputs are published, some of them failing at any point.  Whenever a build
    advances its checkpoint, every partition of the minute, hour and video facts holds
    exactly the rows that a full rebuild from the outputs published until then makes,
    and the checkpoint names the last of them. *)
Theorem gold_builds_converge all seq c w b w' :
  history fromisoformat files read_delta_records verify_output_hash db all seq →
  reached fromisoformat date_fromisoformat valid_zone files read_delta_records autoincrement
    verify_output_hash db clock w →
  perform fromisoformat date_fromisoformat valid_zone files read_delta_records autoincrement
    verify_output_hash db clock c w = (Ok b, w') →
  br_complete_checkpoint_advanced b = true →
  (∀ tc d, tc ∈ flow_partitions → built fromisoformat (upto (seq (w_reads w)) all) tc d (w_tables w')) ∧
  ck_publication_sequence <$> checkpoint "facts:flow" (w_state w') = Some (seq (w_reads w)).
Proof.
  intros Hh Hw Hp Hb. apply (reached_consistent _ _ _ _ _ _ _ _ _ _ _ Hh) in Hw.
  exact (proj2 (ends_run _ _ _ _ _ (perform_ends _ _ _ _ _ _ _ _ _ _ _ Hh c w Hw) Hp) b eq_refl Hb).
Qed.
End gold.

Lemma second_build_completes : completes (sample_perform (Build 48 false false) first_world).1 = true.
Proof. vm_cast_no_check (eq_refl true). Qed.

Lemma gold_builds_converge_witness :
  let second := sample_perform (Build 48 false false) first_world in
  completes second.1 = true ∧
  ∀ tc d, tc ∈ flow_partitions →
    built plain_fromisoformat (upto (sample_seq (w_reads first_world)) sample_outputs) tc d (w_tables second.2).
Proof.
  cbv zeta. pose proof second_build_completes as Hc. split; [exact Hc|].
  destruct (sample_perform (Build 48 false false) first_world) as [[b|e] w'] eqn:E; [|discriminate Hc].
  refine (proj1 (gold_builds_converge _ _ _ _ _ _ _ _ _ _ _ _ _ _ _ sample_history _ E Hc)).
  eapply reached_call; [apply (reached_empty _ _ _ _ _ _ _ _ _ empty_world); reflexivity|].
  exact (surjective_pairing (sample_perform (Build 48 false false) empty_world)).
Defined.

(** ** Flow facts *)

Section facts.
Context (fromisoformat : string → result (option Z)).

(** Rows that group lines by [sel], in the order of their keys. *)
Definition aggregates (sel : LineFlow → FlowKey) (column d now : string) (lines : Lines) (rows : list Row) : Prop :=
  ∃ groups : Groups,
    rows = flow_row column d now <$> groups ∧
    StronglySorted (λ a b, flow_key_leb a.1 b.1 = true) groups ∧ NoDup groups.*1 ∧
    (∀ k, k ∈ groups.*1 ↔ k ∈ (λ wl, sel wl.2) <$> lines) ∧
    (∀ k v, (k, v) ∈ groups → sums (at_key sel k lines) v) ∧
    foldr Z.add 0%Z ((λ kv, fl_entries kv.2) <$> groups) = total lf_entries lines ∧
    foldr Z.add 0%Z ((λ kv, fl_exits kv.2) <$> groups) = total lf_exits lines.

Lemma grouped_aggregates sel column d now lines :
  aggregates sel column d now lines (_flow_rows (grouped sel lines) column d now).
Proof.
  unfold _flow_rows. exists (sort_by (λ a b, flow_key_leb a.1 b.1) (grouped sel lines)).
  pose proof (sort_by_Permutation (λ a b : FlowKey * Flow, flow_key_leb a.1 b.1) (grouped sel lines)) as Hp.
  pose proof (grouped_NoDup sel lines) as Hn.
  assert (∀ k v, (k, v) ∈ grouped sel lines → k ∈ (λ wl, sel wl.2) <$> lines ∧ sums (at_key sel k lines) v) as Hs.
  { intros k v Hin%elem_dget; [|done]. pose proof (grouped_sums sel lines k) as H. by rewrite Hin in H. }
  split; [done|]. split; [|split; [by rewrite Hp|split; [|split; [|split]]]].
  - apply sort_by_sorted; [intros; apply flow_key_leb_total|intros; by eapply flow_key_leb_trans].
  - intros k. rewrite Hp. split.
    + intros ([k' v]&->&Hin)%list_elem_of_fmap. by apply (Hs _ v).
    + intros Hk. apply dget_is_Some. pose proof (grouped_sums sel lines k) as H.
      by destruct (dget k (grouped sel lines)).
  - intros k v Hin. rewrite Hp in Hin. by apply Hs.
  - rewrite (sum_Permutation _ _ (fmap_Permutation _ _ _ Hp)). apply grouped_total; [done|].
    intros. simpl. lia.
  - rewrite (sum_Permutation _ _ (fmap_Permutation _ _ _ Hp)). apply grouped_total; [done|].
    intros. simpl. lia.
Qed.

(** C13. The minute and hour facts of a date group the line counts of that date: one row
    per start, camera and location, sorted, with the sums of entries and exits and the
    number of distinct videos of its lines; both tables have the totals of the lines. *)
Theorem flow_facts_sum_their_lines committed control d now f :
  _fact_rows_for_date fromisoformat committed control d now = Ok f →
  ∃ lines, map_result (date_lines fromisoformat d) committed = Ok lines ∧
    aggregates lf_minute "minute_utc" d now (concat lines) (ft_flow_minute f) ∧
    aggregates lf_hour "hour_utc" d now (concat lines) (ft_flow_hour f).
Proof.
  unfold _fact_rows_for_date. intros H. res_inv H. subst f. simpl.
  apply collect_all_lines in Hs as (lines&E&->&->). exists lines. split; [done|].
  split; apply grouped_aggregates.
Qed.
End facts.

Definition sample_facts : Facts := Eval vm_compute in
  or_else {| ft_flow_minute := []; ft_flow_hour := []; ft_video := []; ft_operations_hour := [] |}
    (_fact_rows_for_date plain_fromisoformat sample_outputs {| ct_work := []; ct_attempts := [] |} "2026-10-02" "now").

Lemma flow_facts_sum_their_lines_witness :
  length (ft_flow_minute sample_facts) = 1%nat ∧
  ∃ lines, map_result (date_lines plain_fromisoformat "2026-10-02") sample_outputs = Ok lines ∧
    aggregates lf_minute "minute_utc" "2026-10-02" "now" (concat lines) (ft_flow_minute sample_facts) ∧
    aggregates lf_hour "hour_utc" "2026-10-02" "now" (concat lines) (ft_flow_hour sample_facts).
Proof.
  split; [reflexivity|].
  apply (flow_facts_sum_their_lines plain_fromisoformat _ {| ct_work := []; ct_attempts := [] |}).
  vm_compute. reflexivity.
Defined.

(** ** A late recovery *)

(** Builds at noon of the fourth and of the fifth day, and a forced one after them; the
    expired attempt is recovered between the first two. *)
Definition late_db : nat → ControlDb := switch 10 leased expired.
Definition late_clock : nat → Z := switch 3 (noon 4 * us_second)%Z (noon 5 * us_second)%Z.

(** The failures that the operations facts of a date count. *)
Definition failed_on (d : string) (w : World) : result Z :=
  failures <$> partition (w_tables w) ("gold_operations_hour", "operation_date")%string d.

(** On concrete databases: the first build completes; the second one, after the
    recovery, completes and leaves the first day at zero failures; a forced one counts
    the failure. *)
Lemma late_recovery_example :
  (let first := build late_db late_clock false empty_world in
   let second := build late_db late_clock false first.2 in
   let forced := build late_db late_clock true second.2 in
   (completes first.1, completes second.1, failed_on "2026-10-01" second.2,
    completes forced.1, failed_on "2026-10-01" forced.2))
  = (true, true, Ok 0%Z, true, Ok 1%Z).
Proof. vm_cast_no_check (eq_refl (true, true, Ok 0%Z, true, Ok 1%Z)). Qed.

(** C19. A failure that is found late is not counted.  If an attempt is recovered after
    the horizon of an incremental build, but its lease ran out before it, on a date [d]
    that nothing else recent touches ([late_recovery]), then the build leaves the
    operations facts of [d] as they were, however it ends, and advances its checkpoint
    if it succeeds and is not skipped; although the facts of [d] count at least this failure, and
    [d] is among the dates that a full rebuild would plan. *)
Theorem late_recovery_is_not_counted fromisoformat date_fromisoformat files read_delta_records autoincrement
    verify_output_hash db clock w D h cutoff horizon flow operations l control d a t u save r w' :
  late_recovery fromisoformat files read_delta_records verify_output_hash db clock
    w D h cutoff horizon flow operations l control d a t u →
  build_facts fromisoformat date_fromisoformat files read_delta_records autoincrement verify_output_hash
    db clock None h false false save w = (r, w') →
  partition (w_tables w') ("gold_operations_hour", "operation_date")%string d =
    partition (w_tables w) ("gold_operations_hour", "operation_date")%string d ∧
  (∀ b, r = Ok b → br_skipped b = true ∨ br_complete_checkpoint_advanced b = true) ∧
  (∀ dates, historic_dates fromisoformat l control = Ok dates → d ∈ dates) ∧
  (∀ now f, _fact_rows_for_date fromisoformat l control d now = Ok f → 1 ≤ failures (ft_operations_hour f))%Z.
Proof.
  intros Hl Hb. pose proof (ends_run _ _ _ _ _ (build_facts_leaves _ date_fromisoformat _ _ autoincrement
    _ _ _ _ _ _ _ _ _ _ _ _ _ _ _ _ Hl save) Hb) as [[_ U] Hr].
  destruct Hl as [_ _ _ _ _ _ _ _ _ _ Ha He [Ht Hd] _ _].
  split; [apply U; by do 3 right; left|]. split; [done|]. split.
  - unfold historic_dates. intros dates H. res_inv H. subst. apply elem_of_app. right.
    eapply (control_dates_attempt _ _ _ _ _ "batch_expired_at"%string); [exact Hs0|exact Ha| |done|exact Ht|done].
    apply list_elem_of_In. simpl. tauto.
  - intros now f Hf. by eapply expired_is_counted.
Qed.

(** The world after the first build, what is read from the database, and the attempt. *)
Definition late_world : World := Eval vm_compute in (build late_db late_clock false empty_world).2.
Definition no_checkpoint : Checkpoint := {| ck_source_key := ""; ck_publication_sequence := 0;
  ck_source_versions_json := ""; ck_target_versions_json := ""; ck_completed_at := "" |}.
Definition late_flow : Checkpoint := Eval vm_compute in
  default no_checkpoint (checkpoint "facts:flow" (w_state late_world)).
Definition late_operations : Checkpoint := Eval vm_compute in
  default no_checkpoint (checkpoint "facts:operations" (w_state late_world)).
Definition late_control : Control := Eval vm_compute in
  or_else {| ct_work := []; ct_attempts := [] |} (_control_rows expired).
Definition late_attempt : Row := Eval vm_compute in default [] (head (ct_attempts late_control)).

Ltac late_columns H Ht :=
  repeat (apply elem_of_cons in H as [->|H];
          [vm_compute in Ht; try discriminate Ht; injection Ht as <-; vm_compute; intros Hle; first [discriminate|by destruct (Hle eq_refl)]|]);
  by apply elem_of_nil in H.

Lemma late_recovery_sample :
  late_recovery plain_fromisoformat output_files no_delta true late_db late_clock
    late_world expired 48 (noon 3 * us_second) (noon 2 * us_second) late_flow late_operations [] late_control
    "2026-10-01" late_attempt ((noon 1 + 7200) * us_second) (noon 5 * us_second).
Proof.
  constructor.
  - intros i Hi. unfold late_db, switch. destruct (Nat.ltb_spec i 10); [|done]. vm_compute in Hi. lia.
  - vm_compute. reflexivity.
  - vm_compute. reflexivity.
  - exists (or_else [] (versions FACT_TARGET_TABLES (w_tables late_world)).1). split; vm_compute; reflexivity.
  - vm_compute. reflexivity.
  - exists (noon 4 * us_second)%Z. split; vm_compute; reflexivity.
  - vm_compute. reflexivity.
  - vm_compute. reflexivity.
  - intros o ds ?%elem_of_nil. done.
  - intros c k Hc Hk. vm_compute in Hc. injection Hc as <-. vm_compute in Hk. injection Hk as <-.
    vm_compute. reflexivity.
  - left.
  - vm_compute. reflexivity.
  - split; vm_compute; reflexivity.
  - intros t (row&column&[[Hr Hc]|[Hr Hc]]&Ht); apply list_elem_of_singleton in Hr as ->; late_columns Hc Ht.
  - split; vm_compute; [reflexivity|discriminate].
Qed.

Lemma late_recovery_is_not_counted_witness :
  failed_on "2026-10-01" (build late_db late_clock false late_world).2 = failed_on "2026-10-01" late_world ∧
  failed_on "2026-10-01" late_world = Ok 0%Z ∧
  ∀ now f, _fact_rows_for_date plain_fromisoformat [] late_control "2026-10-01" now = Ok f →
    (1 ≤ failures (ft_operations_hour f))%Z.
Proof.
  pose proof (late_recovery_is_not_counted plain_fromisoformat plain_date output_files no_delta next_id true
    late_db late_clock _ _ _ _ _ _ _ _ _ _ _ _ _ true _ _ late_recovery_sample (surjective_pairing _)) as (Hp&_&_&Hf).
  split; [|split; [vm_compute; reflexivity|exact Hf]].
  unfold failed_on, build. by rewrite Hp.
Defined.

(** ** Committed outputs *)

Section committed.
Context (fromisoformat : string → result (option Z)).
Context (files : string → option Node).
Context (read_delta_records : string → string → string → result (list Row)).

(** A document whose content has the digest: the bytes of its file, or the canonical
    records of the attempt. *)
Inductive authentic (digest work_id attempt_id : string) (document : Row) : Prop :=
  | authentic_bytes content :
      hexdigest (sha256 content) = digest → json_loads_bytes content = Ok (VDict document) →
      authentic digest work_id attempt_id document
  | authentic_records records :
      records_sha256 records = Ok digest →
      _records_output_document records work_id attempt_id = Ok document →
      authentic digest work_id attempt_id document.

Lemma verify_Ok expected actual u : verify true expected actual = Ok u → expected = ""%string ∨ actual = expected.
Proof.
  unfold verify. intros H%require_Ok. simpl in H. apply orb_prop in H.
  rewrite !String.eqb_eq in H. exact H.
Qed.

Lemma load_authentic path digest work_id attempt_id document :
  _load_output_document files read_delta_records path digest true work_id attempt_id = Ok document →
  digest = ""%string ∨ authentic digest work_id attempt_id document.
Proof.
  unfold _load_output_document.
  assert (∀ content, document_of_bytes content digest true work_id attempt_id = Ok document → digest = ""%string ∨ authentic digest work_id attempt_id document) as Hc.
  { intros content H. unfold document_of_bytes in H. res_inv H.
    assert (json_loads_bytes content = Ok x) as Hj.
    { destruct (json_loads_bytes content) as [|[]]; simpl in Hs; congruence. }
    destruct x as [| | | | |l|d]; res_inv H; try discriminate.
    - destruct (verify_Ok _ _ _ Hs1) as [->|E]; [by left|right]. subst.
      eapply authentic_records; [exact Hs0|exact H].
    - destruct (verify_Ok _ _ _ Hs0) as [->|E]; [by left|right]. subst. by eapply authentic_bytes. }
  destruct (files path) as [[content|[] children]|]; [apply Hc| | |discriminate].
  - intros H. res_inv H. destruct (verify_Ok _ _ _ Hs1) as [->|E]; [by left|right]. subst.
    by eapply authentic_records.
  - destruct (omap _ _) as [|content [|]]; [discriminate|apply Hc|discriminate].
Qed.

(** The rows behind an output. *)
Record pointed (db : ControlDb) (o : CommittedOutput) (w p a : Row) : Prop := {
  pt_work : text_of "work_id" w = co_work_id o ∧ text_of "committed_attempt_id" w = co_attempt_id o;
  pt_publication : joins p "work_id" w "work_id" = true ∧ dict_get "attempt_id" p = VStr (co_attempt_id o);
  pt_attempt : joins a "work_id" w "work_id" = true ∧ dict_get "attempt_id" a = VStr (co_attempt_id o);
  pt_sequence : ∃ v, item "publication_sequence" p = Ok v ∧ py_int_val v = Ok (co_publication_sequence o);
  pt_document : ∃ path document,
    let digest := py_str (py_or (dict_get "output_sha256" p) (VStr "")) in
    item "output_path" p = Ok path ∧
    (digest = ""%string ∨ authentic digest (co_work_id o) (co_attempt_id o) document) ∧
    _split_output_document document (co_work_id o) (co_attempt_id o) = Ok (co_run o, co_line_counts o);
}.

Lemma sql_eq_str v s : sql_eq v (VStr s) = true → v = VStr s.
Proof. unfold sql_eq. rewrite !andb_true_iff. intros [_ H]. by apply py_eqb_str. Qed.

Lemma head_filter (f : Row → bool) (l : list Row) r :
  head (filter (λ r, f r = true) l) = Some r → f r = true ∧ r ∈ l.
Proof.
  induction l as [|x l IH]; [done|]. rewrite filter_cons. case_decide as Hx.
  - intros [= ->]. split; [done|left].
  - intros H. destruct (IH H). split; [done|by right].
Qed.

Lemma committed_output_pointed db publications attempts w o :
  committed_output fromisoformat files read_delta_records true publications attempts w = Ok o →
  co_work_id o = text_of "work_id" w ∧ ∃ p a, p ∈ publications ∧ a ∈ attempts ∧ pointed db o w p a.
Proof.
  unfold committed_output. cbv zeta.
  destruct (head (filter _ publications)) as [p|] eqn:Hp; [|discriminate].
  destruct (head (filter _ attempts)) as [a|] eqn:Ha; [|discriminate].
  apply head_filter in Hp as [[Hp1 Hp2%sql_eq_str]%andb_prop Hpin]. apply head_filter in Ha as [[Ha1%sql_eq_str Ha2]%andb_prop Hain].
  intros H. res_inv H. subst o. split; [done|]. exists p, a. split; [done|]. split; [done|].
  constructor; simpl; [done..| |].
  - eauto.
  - match goal with H : _load_output_document _ _ _ _ _ _ _ = Ok ?d |- _ => apply load_authentic in H; exists x0, d end.
    split; [done|]. split; [done|]. by destruct x2.
Qed.

(** C14. The builder sees one output for every committed work, in the order of their
    identifiers; behind each is the publication and the attempt that the committed
    pointer of its work names, and its content has the digest that was published. *)
Theorem only_committed_outputs_are_visible db l :
  committed_outputs fromisoformat files read_delta_records true db = Ok l →
  ∃ works publications attempts,
    table db "work" [] = Ok works ∧ table db "publications" [] = Ok publications ∧ table db "attempts" [] = Ok attempts ∧
    Forall2 (λ w o, w ∈ works ∧ is_none (dict_get "committed_attempt_id" w) = false ∧
        ∃ p a, p ∈ publications ∧ a ∈ attempts ∧ pointed db o w p a)
      (order_by_text "work_id" (filter (λ w, is_none (dict_get "committed_attempt_id" w) = false) works)) l.
Proof.
  unfold committed_outputs. intros H. res_inv H.
  assert (∀ name cs rows, table db name cs = Ok rows → table db name [] = Ok rows) as Ht.
  { intros name cs rows. unfold table. destruct (db !! name); [|done]. intros E. res_inv E. by subst. }
  match goal with
  | H1 : table db "work" _ = Ok ?ws, H2 : table db "publications" _ = Ok ?ps, H3 : table db "attempts" _ = Ok ?as_ |- _ =>
      exists ws, ps, as_; split; [by eapply Ht|]; split; [by eapply Ht|]; split; [by eapply Ht|]
  end.
  apply map_result_Ok in H. eapply Forall2_impl_in; [exact H|].
  intros w o Hw Ho. apply (committed_output_pointed db) in Ho as [_ Ho].
  unfold order_by_text in Hw. rewrite sort_by_Permutation in Hw. apply list_elem_of_filter in Hw as [? ?]. done.
Qed.
End committed.

Lemma only_committed_outputs_are_visible_witness :
  length sample_outputs = 1%nat ∧
  ∃ works publications attempts,
    table published "work" [] = Ok works ∧ table published "publications" [] = Ok publications ∧
    table published "attempts" [] = Ok attempts ∧
    Forall2 (λ w o, w ∈ works ∧ is_none (dict_get "committed_attempt_id" w) = false ∧
        ∃ p a, p ∈ publications ∧ a ∈ attempts ∧ pointed published o w p a)
      (order_by_text "work_id" (filter (λ w, is_none (dict_get "committed_attempt_id" w) = false) works)) sample_outputs.
Proof.
  split; [reflexivity|].
  apply (only_committed_outputs_are_visible plain_fromisoformat output_files no_delta published).
  exact (proj1 sample_outputs_read).
Defined.

(** ** Refresh signals *)

Section signals.
Context (autoincrement : list Signal → Z).
Context (fresh : ∀ l g, g ∈ l → (sg_outbox_id g < autoincrement l)%Z).

Lemma unique_id l g g' : unique_signals l → g ∈ l → g' ∈ l → sg_outbox_id g = sg_outbox_id g' → g = g'.
Proof. intros [H _]. by apply NoDup_fmap_eq. Qed.

Lemma unique_key l g g' : unique_signals l → g ∈ l → g' ∈ l → sg_dedupe_key g = sg_dedupe_key g' → g = g'.
Proof. intros [_ H]. by apply NoDup_fmap_eq. Qed.

(** A signal that is acknowledged cannot be acknowledged again. *)
Lemma acknowledged_stays id actor expected now s r s' g :
  unique_signals (gs_outbox s) → g ∈ gs_outbox s → sg_outbox_id g = id → sg_acked g ≠ None →
  acknowledge_refresh id actor expected now s = (Ok r, s') → r = false ∧ s' = s.
Proof.
  intros Hu Hg Hid Ha H. unfold acknowledge_refresh in H. tx_inv H.
  assert (∀ g', g' ∈ gs_outbox s → acknowledges (sg_outbox_id g) expected g' = false) as Hno.
  { intros g' Hg'. destruct (acknowledges _ _ g') eqn:E; [|done]. unfold acknowledges in E.
    rewrite !andb_true_iff in E. destruct E as [[E1%Z.eqb_eq E2%bool_decide_eq_true] _].
    by rewrite (unique_id _ _ _ Hu Hg Hg' (eq_sym E1)) in Ha. }
  split.
  - replace (filter _ _) with (@nil Signal); [done|]. symmetry. apply elem_of_nil_inv.
    intros g' [E Hin]%list_elem_of_filter. by rewrite (Hno g' Hin) in E.
  - unfold put_outbox. destruct s as [cks l]. simpl in *. f_equal. rewrite <-(list_fmap_id l) at 2.
    apply list_fmap_ext. intros i g' Hg'. by rewrite (Hno g') by (by eapply list_elem_of_lookup_2).
Qed.

Lemma acknowledge_true id actor expected now s s' :
  acknowledge_refresh id actor expected now s = (Ok true, s') →
  ∃ g, g ∈ gs_outbox s' ∧ sg_outbox_id g = id ∧ sg_acked g ≠ None.
Proof.
  intros H. unfold acknowledge_refresh in H. tx_inv H.
  match goal with H : _ = (length ?l =? 1)%nat |- _ => destruct l as [|g rest] eqn:E; [discriminate H|] end.
  assert (g ∈ filter (λ g, acknowledges id expected g = true) (gs_outbox s)) as [Hk Hin]%list_elem_of_filter.
  { rewrite E. left. }
  exists (set_acked (_iso now, str_strip actor) g). simpl. split.
  - apply list_elem_of_fmap. exists g. by rewrite Hk.
  - unfold acknowledges in Hk. rewrite !andb_true_iff in Hk. destruct Hk as [[Hk%Z.eqb_eq _] _]. done.
Qed.

(** The two calls that signal a refresh. *)
Inductive signals (reason : string) (source : SourceCheckpoint) (targets : list (string * Z))
    (s : GoldState) (id : Z) (s' : GoldState) : Prop :=
  | signals_enqueue now :
      enqueue_refresh autoincrement reason source targets now s = (Ok id, s') →
      signals reason source targets s id s'
  | signals_save updates now :
      save_checkpoints_and_enqueue autoincrement updates (Some reason) source targets now s = (Ok (Some id), s') →
      signals reason source targets s id s'.

Lemma signals_step reason source targets s id s' :
  signals reason source targets s id s' → step autoincrement s s'.
Proof. intros []; [by eapply step_enqueue|by eapply step_save_and_enqueue]. Qed.

(** Afterwards the outbox has the signal; if it had one of this key before, it is as it was. *)
Lemma signals_outbox reason source targets s id s' :
  signals reason source targets s id s' →
  ∃ g, g ∈ gs_outbox s' ∧ sg_outbox_id g = id ∧
    signal_key reason source targets = Ok (sg_dedupe_key g) ∧
    ((∃ g0, g0 ∈ gs_outbox s ∧ sg_dedupe_key g0 = sg_dedupe_key g) → gs_outbox s' = gs_outbox s).
Proof.
  intros [now H%transaction_Ok|updates now H%transaction_Ok].
  - destruct (ends_run _ _ _ _ _ (insert_signal_outbox _ fresh _ _ _ _ _) H) as [_ Hi].
    destruct (Hi id eq_refl) as (g&Hg&Hid&Hk&Hs). exists g. split_and!; try done.
    intros Hold. by rewrite (Hs Hold).
  - apply tx_bind_Ok in H as (u&s1&H1&H2). apply save_all_outbox in H1 as Eo.
    apply tx_fmap_Ok in H2 as (id'&H2&[= ->]).
    destruct (ends_run _ _ _ _ _ (insert_signal_outbox _ fresh _ _ _ _ _) H2) as [_ Hi].
    destruct (Hi id' eq_refl) as (g&Hg&Hid&Hk&Hs). exists g. split_and!; try done.
    rewrite <-Eo. intros Hold. by rewrite (Hs Hold).
Qed.

(** C15. However saving, enqueueing and acknowledging follow each other, no two signals
    share an id or a key; a signal that was acknowledged is never acknowledged again;
    and a refresh that was signalled, by [enqueue_refresh] or by
    [save_checkpoints_and_enqueue], gets no second signal from either, acknowledged or
    not: the later call returns the id of the first and leaves the outbox as it was. *)
Theorem refresh_is_signalled_once s0 s :
  gs_outbox s0 = [] → steps_to autoincrement s0 s →
  unique_signals (gs_outbox s) ∧
  (∀ id actor expected now s1 s2 actor' expected' now' r s3,
     acknowledge_refresh id actor expected now s = (Ok true, s1) → steps_to autoincrement s1 s2 →
     acknowledge_refresh id actor' expected' now' s2 = (Ok r, s3) → r = false ∧ s3 = s2) ∧
  (∀ reason source targets id s1 s2 id' s3,
     signals reason source targets s id s1 → steps_to autoincrement s1 s2 →
     signals reason source targets s2 id' s3 → id' = id ∧ gs_outbox s3 = gs_outbox s2) ∧
  (∀ reason source targets now id s1 s2 now' id' s3,
     enqueue_refresh autoincrement reason source targets now s = (Ok id, s1) → steps_to autoincrement s1 s2 →
     enqueue_refresh autoincrement reason source targets now' s2 = (Ok id', s3) → id' = id ∧ s3 = s2).
Proof.
  intros H0 Hs. pose proof (steps_good _ fresh _ _ Hs) as [U0 _].
  assert (unique_signals (gs_outbox s)) as Us by (apply U0; rewrite H0; split; constructor).
  assert (∀ s1 s2, step autoincrement s s1 → steps_to autoincrement s1 s2 →
    unique_signals (gs_outbox s2) ∧ evolves (gs_outbox s1) (gs_outbox s2)) as Hev.
  { intros s1 s2 H1 H2. pose proof (step_good _ fresh _ _ H1) as [U1 _].
    pose proof (steps_good _ fresh _ _ H2) as [U2 E2]. split; [|done]. by apply U2, U1. }
  assert (∀ reason source targets id s1 s2 id' s3, signals reason source targets s id s1 →
    steps_to autoincrement s1 s2 → signals reason source targets s2 id' s3 →
    id' = id ∧ gs_outbox s3 = gs_outbox s2) as Hsig.
  { intros reason source targets id s1 s2 id' s3 Hq H2 Hq'.
    destruct (Hev s1 s2 (signals_step _ _ _ _ _ _ Hq) H2) as [U2 E2].
    apply signals_outbox in Hq as (g&Hg&Hid&Hk&_). apply signals_outbox in Hq' as (g2&Hg2&Hid2&Hk2&Hsame).
    destruct (E2 g Hg) as (g'&Hg'&E1&Ekey&_). assert (sg_dedupe_key g' = sg_dedupe_key g2) as Ek by congruence.
    assert (gs_outbox s3 = gs_outbox s2) as E3 by (apply Hsame; by exists g'). split; [|done].
    rewrite E3 in Hg2. rewrite <-Hid2, <-Hid, <-E1. symmetry. f_equal. by apply (unique_key (gs_outbox s2)). }
  split; [done|]. split; [|split; [exact Hsig|]].
  - intros id actor expected now s1 s2 actor' expected' now' r s3 Ha H2 Ha'.
    destruct (Hev s1 s2) as [U2 E2]; [by eapply step_acknowledge|done|].
    destruct (acknowledge_true _ _ _ _ _ _ Ha) as (g&Hg&Hid&Hack).
    destruct (E2 g Hg) as (g'&Hg'&E1&_&_&_&_&[?|Eack]); [done|].
    refine (acknowledged_stays _ _ _ _ _ _ _ g' U2 Hg' _ _ Ha'); congruence.
  - intros reason source targets now id s1 s2 now' id' s3 Hq H2 Hq'.
    destruct (Hsig reason source targets id s1 s2 id' s3) as [Eid Eo];
      [by eapply signals_enqueue|done|by eapply signals_enqueue|].
    split; [done|]. apply transaction_Ok, insert_signal_checkpoints in Hq'. simpl in Hq'.
    destruct s2, s3. simpl in *. congruence.
Qed.
End signals.

Lemma next_id_fresh l g : g ∈ l → (sg_outbox_id g < next_id l)%Z.
Proof.
  unfold next_id. intros Hg. apply (list_elem_of_fmap_2 sg_outbox_id) in Hg. revert Hg.
  generalize (sg_outbox_id <$> l). generalize (sg_outbox_id g). intros z k.
  assert (∀ k a, a ≤ fold_left Z.max k a ∧ (z ∈ k → z ≤ fold_left Z.max k a))%Z as H.
  { clear k. induction k as [|x k IH]; intros a; simpl; [by split; [lia|intros ?%elem_of_nil]|].
    destruct (IH (Z.max a x)) as [Ha Hz]. split; [lia|]. intros [->|Hin]%elem_of_cons; [lia|by apply Hz]. }
  intros Hz. pose proof (proj2 (H k 0%Z) Hz). lia.
Qed.

Definition no_state : GoldState := {| gs_checkpoints := ∅; gs_outbox := [] |}.
Definition one_signal : GoldState :=
  (enqueue_refresh next_id "changed" {| sc_publication_sequence := 1; sc_versions := [] |} [] 0 no_state).2.

Definition one_source : SourceCheckpoint := {| sc_publication_sequence := 1; sc_versions := [] |}.
(** The refresh of [one_signal] again, with checkpoints. *)
Definition saved_again : result (option Z) * GoldState :=
  save_checkpoints_and_enqueue next_id [("facts"%string, (one_source, []))] (Some "changed"%string) one_source [] 7
    one_signal.

Lemma refresh_is_signalled_once_witness :
  (acknowledge_refresh 1 "report" None 0 one_signal).1 = Ok true ∧
  (acknowledge_refresh 1 "report" None 0 (acknowledge_refresh 1 "report" None 0 one_signal).2).1 = Ok false ∧
  saved_again.1 = Ok (Some 1%Z) ∧ gs_outbox saved_again.2 = gs_outbox one_signal.
Proof.
  pose proof (refresh_is_signalled_once next_id next_id_fresh no_state one_signal eq_refl) as H1.
  pose proof (refresh_is_signalled_once next_id next_id_fresh no_state no_state eq_refl (steps_refl _ _)) as H0.
  split; [vm_compute; reflexivity|]. split.
  - destruct (acknowledge_refresh 1 "report" None 0 (acknowledge_refresh 1 "report" None 0 one_signal).2)
      as [[r|e] s3] eqn:E; [|vm_compute in E; discriminate E].
    simpl. f_equal. refine (proj1 (proj1 (proj2 (H1 _))
      1%Z "report"%string None 0%Z _ _ _ _ _ _ _ _ (steps_refl _ _) E)).
    + eapply steps_step; [apply steps_refl|]. eapply step_enqueue, surjective_pairing.
    + vm_compute. reflexivity.
  - assert (saved_again.1 = Ok (Some 1%Z)) as E by (vm_compute; reflexivity). split; [exact E|].
    refine (proj2 (proj1 (proj2 (proj2 H0)) "changed"%string one_source [] 1%Z one_signal one_signal 1%Z _ _
      (steps_refl _ _) _)).
    + eapply (signals_enqueue _ _ _ _ _ _ _ 0%Z). vm_compute. reflexivity.
    + eapply (signals_save _ _ _ _ _ _ _ [("facts"%string, (one_source, []))] 7%Z).
      rewrite <-E. apply surjective_pairing.
Defined.
